(* ===== verification/_CoqProject ===== *)
-Q . S2P
Prelude.v
StateMachine.v
Ledger.v
Store.v
Membership.v
Identity.v
Signing.v
Attestation.v
LocalAttestation.v
Chain.v
ChainProofs.v
Wire.v
Service.v
Nbd.v
Client.v
ClientProofs.v
Watch.v
Pump.v
PumpProofs.v
Text.v
EgressConfig.v
EgressPolicy.v
EgressStack.v
KmsPolicy.v
Crypto.v
CryptoProofs.v
Server.v
ServerProofs.v
ServerCluster.v
Transport.v
NoiseHandshake.v
Conn.v
ConnProofs.v
Framing.v
Mesh.v
MeshProofs.v
MeshRpc.v
MeshRpcProofs.v
RaftNet.v
RaftNetProofs.v
Join.v
Listener.v
SecretsInit.v
ChainInit.v
Sdk.v
SdkTransport.v
SdkTransportProofs.v
SdkStreams.v
SdkLosses.v
SdkHttp.v
CliReproduce.v
CliUpgrade.v
CliProofs.v
CliApi.v
CliApiProofs.v
CliLocal.v
CliLocalProofs.v
CliCommands.v
CliCommandsProofs.v
CliMain.v
CliMainProofs.v
Metrics.v
MetricsHost.v
KmsRecipient.v
Sigv4.v
NbdRun.v
NodeMain.v
