(* ===== verification/Prelude.v ===== *)
(** * Verification of the Enclavia anti-rollback system

    Enclavia runs customer code in AWS Nitro enclaves whose disks live on an
    untrusted host.  Its synchronizer is a replicated oracle that holds, for
    every enclave identity, the commitment (a digest of the primary superblock)
    of the volume's latest state; the storage client in the enclave serves a
    disk only if it matches that commitment, and acknowledges a superblock write
    only once its commitment is pinned.  Upgrades move a pin from one identity
    to the next under owner-signed links, which form a public chain.  This
    library models that system and proves what makes it safe.

    ** Parts, files and correspondence

    - [StateMachine] models [synchronizer/src/lib.rs]: the record
      [StateMachine] has the source's five collections as finite maps and sets,
      [apply] and its four operations return the result and the new state.
      [Ledger] is the abstract specification (append-only volume histories with
      one holder each); the state machine simulates it input by input, answers
      included.
    - [Store] models [synchronizer/src/raft/store.rs]: the log store, batches,
      snapshots; [Membership] models [raft/membership.rs] and
      [RaftHandle::admit], cut at its awaits.
    - [Identity] ([enclavia-protocol/src/pin_identity.rs]), [Signing]
      ([signing.rs]) and [Attestation] ([attestation.rs], [nitro_verify.rs])
      model what a key, a signature and an attestation document mean.
    - [Chain] and [ChainProofs] ([chain.rs]): link validation, the walk of a
      served chain and [verify_pcr_descent].
    - [Wire] ([synchronizer/src/wire.rs], [attest.rs]): the RPC surface and the
      verifiers of transition and revocation links.
    - [Service] ([node.rs], [raft/serve.rs], [raft/forward.rs]): the request
      handlers of the single node and of the leader, and request routing; the
      class [SessionDispatch] is the interface to the session layer.
    - [Nbd] ([nbd-client/src/main.rs], [nbd.rs]): wire headers, the superblock
      window, payload copies, the LUKS2 cross-check.
    - [Client] and [ClientProofs] ([synchronizer/src/client.rs],
      [nbd-client/src/rollback.rs]): boot verification, pins and retries over
      the class [BootOracle]; [BootOracleLaws] is what the oracle promises, and
      [World] (a session routed to the cluster of [Service]) discharges it.
    - [Watch] ([RegionWatch]) and [Pump], [PumpProofs] (the request proxy, pin
      gate, pin actor and reply pump of the running client): the watch refines
      an abstract one; the client is a step relation [Pump.step] with an
      executable counterpart [exec].  [NbdRun] ([nbd-client/src/main.rs]) is the
      program around them, from its environment variables to its exit status,
      and the plain reply proxy.
    - [LocalAttestation] ([ValidatedAttestation::request_local],
      [synchronizer/src/trusted_time.rs]): documents of the node's own device
      and the trusted time read from them.
    - [Transport] ([enclavia-protocol/src/noise.rs]) and [Framing] (the framing
      of [listener.rs] and [mesh/handshake.rs]): messages over byte streams cut
      anywhere, over an abstract Noise session.
    - [Listener] ([synchronizer/src/listener.rs]): one customer connection, over
      any [SessionDispatch].
    - [Mesh] and [MeshProofs] ([synchronizer/src/mesh/]): the peer handshake in
      a small I/O monad over a scripted link, and the running mesh as events;
      [MeshRpc] and [MeshRpcProofs] ([mesh/rpc.rs]): calls, driver and serve
      loop as interleaved steps.
    - [RaftNet] and [RaftNetProofs] ([raft/network.rs]): consensus RPCs over the
      mesh and the handler of what peers send, over the class [OpenRaft], and the
      node whose channels interleave at the awaits of a join ([node_step]);
      [Join] ([raft/join.rs], [read_mesh_env] of [main.rs]): start-up,
      discovery, the fresh initialize, eviction; [NodeMain] ([main] of
      [synchronizer/src/main.rs], [RaftHandle] of [raft/mod.rs]): the binary from
      its features and environment to what serves customers.
    - [Text] (Rust strings and the standard parsers of integers and addresses),
      [EgressConfig] ([egress_config.rs]), [EgressPolicy] and [EgressStack]
      ([enclavia-egress/src/]): what a workload may reach, and the flows that
      carry it.
    - [KmsPolicy] ([kms_policy.rs]), [Crypto] and [CryptoProofs]
      ([enclavia-crypto/src/main.rs], [enclavia-vsock]): key policies, and the
      key tool as programs in a state-and-error monad over the volume, the blob
      and the files.
    - [Server], [ServerProofs] and [ServerCluster] ([enclavia-server/src/]):
      configuration, control commands, upgrade and revocation, with the key tool
      of [Crypto] and the cluster of [Service] behind them; [Conn] and
      [ConnProofs]: one client connection, its tasks and streams.
    - [NoiseHandshake] (the fixed-size handshakes of [enclavia-protocol/src/noise.rs]
      and [enclavia/src/noise.rs]): both roles over byte streams cut anywhere.
    - [SecretsInit] ([enclavia-secrets-init], [synchronizer-names-init]) and
      [ChainInit] ([enclavia-chain-init]): the programs of the boot, from their
      arguments to the files and links they leave.
    - [Sdk] ([enclavia/src/client.rs]): the builder, the connection sequence and
      reconnection by many callers as steps; [SdkTransport] with
      [SdkTransportProofs], [SdkStreams] and [SdkLosses] ([transport.rs],
      [stream.rs]): the transport task and its streams; [SdkHttp] ([http.rs],
      [request.rs], [response.rs] and [Client::upgrade]).
    - The command line, [enclavia-cli/src/].  [CliReproduce], [CliUpgrade] and
      [CliProofs] ([keys.rs], [signer.rs], [commands/reproduce.rs],
      [commands/upgrade.rs]): rebuilds and the owner's signatures.  [CliApi] and
      [CliApiProofs] ([config.rs], [api.rs], [commands/auth.rs]): credentials,
      login and the API client, in the state-and-error monad [cli] whose state
      is the client, the disk, the world and the log of events, and whose errors
      are the code's or a panic.  [CliLocal] and
      [CliLocalProofs]: what is checked of the user's arguments, and keys on a
      device.  [CliCommands] and [CliCommandsProofs]: secrets, pushes,
      deployments.  [CliMain] and [CliMainProofs] ([main.rs]): every command
      from its arguments to its output and exit status.
    - [Metrics] ([synchronizer/src/metrics.rs], [synchronizer_metrics.rs]) and
      [MetricsHost] ([synchronizer-metrics-host/src/]): the node's counters, the
      frame they travel in, and the host's rendering of them.
    - [KmsRecipient] ([kms_recipient.rs]): the transcoder from BER to DER and the
      envelope KMS answers with; [Sigv4] ([enclavia-crypto/src/sigv4.rs]): the
      signature of requests to KMS.

    ** What the theorems show

    - End to end on the client: no superblock write is acknowledged before the
      oracle held its commitment; no delivered superblock read is older than an
      acknowledged write; a boot serves only the pinned state and never
      overwrites history; pins end and mean what they say; an armed program gives
      the kernel no device that is not so protected, and exits with a failure when
      a failed task ended it; an unprotected one passes replies unchanged.
    - The oracle: its invariant, that it refines the volume ledger, that
      retirement, revocation and compare-and-swap are final, that replicas are
      replays of one log, and that an acknowledgement means committed; a whole
      connection changes its own slot only.
    - The cluster: whom a peer handshake admits, what a node records of its
      peers, what a peer's request can change, when a fresh cluster is
      initialized, that interleaved joins keep one voter per slot, that a
      replicated build never serves alone; and where the code falls short of its
      documentation: a relay that returns a dialer's own frame passes as the
      peer, consensus RPCs are not tied to instance keys, a join can evict the
      voter a concurrent one admitted, calls in flight on a dropped connection
      hang.
    - Authority: exact acceptance conditions of attestation documents,
      signatures and links; two identities, payloads or sessions are never
      confused short of a digest collision, which the statements exhibit.
    - The chain: appended links are evidence, an accepted chain explains its
      tip, revoked upgrades explain nothing.
    - The enclave: control commands run once, an upgrade link leaves only after
      its checks and the re-key, the measured delay is enforced exactly, a reported revocation blocks the upgrade, the
      key tool never harms the volume and can be undone, an accepted key policy
      decrypts for the measured enclave only, connections are bounded and their
      streams carry the client's messages in order.
    - Egress: a workload reaches exactly what its document lists.
    - The boot: the credentials an injector leaves run nothing when sourced, a
      workload gets exactly the secrets it was sent, and the link emitted is
      what chain validation appends, recognises or judges.
    - The SDK: every session a caller gets was verified on its own handshake,
      a request is sent at most once and answered by its own response, the end
      of a channel is told to all who wait on it, streams are read in order, an upgrade does not depend on how its response is cut; and where a
      full queue loses an error or a close frame.
    - The owner: a key signs only the upgrade or revocation that was asked for,
      whatever the backend answers, and a transition the cluster accepts is one
      the owner asked for.
    - The command line: tokens stay with the backend that minted them and are
      never readable by others on disk, a refused call refreshes once, rotated
      credentials survive the process, a login accepts only its own callback; a
      secret that was set is the one the workload reads, setting secrets is a map
      update, a delay is exact, a device slot is overwritten on purpose only, a
      growing log is printed once, a watch ends, and [--json] leaves one value unless the process panics, as
      a lifetime the backend chooses can make it.
    - Metrics: counters and samples agree, and what a hostile sample makes the
      host write is fixed families with clean labels.
    - KMS: the transcoder accepts exactly BER and emits exactly DER, an envelope
      opens however it was encoded, a signed request binds every signed header
      and the body.

    ** Modelling choices

    Machine integers are [Z]; 64-bit additions wrap ([u64_add]) or saturate as
    in the source, and theorems that need it bound a count below 2^64.  Error
    values keep the source's variants and drop message texts; logging is left
    out, and the metrics are modelled apart from the code they count.  SHA-256, P-256, COSE, X.509, CBOR, JSON, hex, base64,
    Noise and openraft are parameters with their documented laws as hypotheses.
    Asynchronous calls take the environment's choices as arguments: how a
    consensus write ends ([WriteFate]), how an exchange ends ([Fate]), what a
    link yields ([ReadOutcome]), which answers are lost.  Concurrency is
    interleaving of atomic actions, one per access to a shared object, except
    that in [Pump] releasing a gate entry and sending its nudge are one action.

    Fuel: [forward_loop] and [extract_loop] run on the payload length, and their
    specifications show it suffices; [pin_with_retries] runs on [PIN_ATTEMPTS]
    (1 + 3 reconnects + 300 s / 2 s pauses), and [pin_always_ends] shows it is
    never exhausted; [route_rounds] has the source's own budget; the keyslot
    search runs over the 32 slots of a LUKS2 header, [commit_loop] over the
    attempts its retry budget admits, [connect_loop] over the dials its grace
    period admits, [send_queue] and [read_frames] over the length of what they
    consume; [transcode_tlv] runs on twice the input's length, which
    [transcoder_is_exact] shows to be enough; [watch_until_running] on
    [WATCH_TURNS] (45 min / 120 ms and two), and [watch_always_ends] shows that
    it always answers when every sleep lets its time pass.

    ** Not modelled

    openraft's internals and the collection of its metrics; the accept loops,
    task spawning and signal handling of the daemons; the kernel's side of the
    NBD device, the TUN device, TLS and the WebSocket adapters: I/O the models
    take as events or answers.  clap's argument parser, the human-readable text
    and the spinner of the command line.  The mock KMS, a test double, and the
    C and WebAssembly bindings, which convert types around the SDK.  Inside
    [upgrade] and [reproduce] commands the backend's answers are one record
    ([Backend]) instead of single requests.

    This file holds what the others share: results and the [?] operator, bytes
    and machine integers, big-endian codecs, ordered maps, and the tactics. *)
From stdpp Require Import base gmap sets list list_numbers strings fin_maps sorting.
From Stdlib Require Import ZArith Lia.

#[global] Open Scope Z_scope.

(** ** Results of fallible code *)

(** Rust's [Result<A, E>]. *)
Inductive result (A E : Type) : Type :=
| Ok (a : A)
| Err (e : E).
Arguments Ok {A E} a.
Arguments Err {A E} e.

#[global] Instance result_eq_dec {A E} `{EqDecision A, EqDecision E} :
  EqDecision (result A E).
Proof. solve_decision. Defined.

Declare Scope rust_scope.
Delimit Scope rust_scope with rust.
#[global] Open Scope rust_scope.

(** The [?] operator: continue with the value or return the error. *)
Notation "'let?' x ':=' c 'in' k" :=
  (match c with Ok x => k | Err e_ => Err e_ end)
  (at level 10, x pattern, c at level 100, k at level 200) : rust_scope.

(** [Option::ok_or]. *)
Definition ok_or {A E} (o : option A) (e : E) : result A E :=
  match o with Some a => Ok a | None => Err e end.

(** [Result::map_err]. *)
Definition map_err {A E F} (f : E -> F) (r : result A E) : result A F :=
  match r with Ok a => Ok a | Err e => Err (f e) end.

(** [Result::ok]. *)
Definition result_ok {A E} (r : result A E) : option A :=
  match r with Ok a => Some a | Err _ => None end.

Definition is_ok {A E} (r : result A E) : bool :=
  match r with Ok _ => true | Err _ => false end.

Lemma map_err_Ok {A E F} (f : E -> F) (r : result A E) a :
  map_err f r = Ok a <-> r = Ok a.
Proof. destruct r; simpl; split; congruence. Qed.

Lemma ok_or_Ok {A E} (o : option A) (e : E) a : ok_or o e = Ok a <-> o = Some a.
Proof. destruct o; simpl; split; congruence. Qed.

Create HintDb rust_db.
Create Rewrite HintDb rust_db.
#[export] Hint Rewrite @map_err_Ok @ok_or_Ok : rust_db.

(** ** Bytes and machine integers *)

(** A byte is a [Z] in [0, 256); a [Vec<u8>], a slice or a fixed-size array
    is the list of its bytes. *)
Abbreviation bytes := (list Z).

Definition is_byte (b : Z) : bool := (0 <=? b) && (b <? 256).

Definition u32_max : Z := 2 ^ 32 - 1.
Definition u64_max : Z := 2 ^ 64 - 1.

(** [a + b] on [u64] in a release build: wraps around. *)
Definition u64_add (a b : Z) : Z := (a + b) mod 2 ^ 64.

(** [u64::saturating_add]. *)
Definition u64_saturating_add (a b : Z) : Z := Z.min (a + b) u64_max.

Definition is_u64 (a : Z) : Prop := 0 <= a < 2 ^ 64.

Lemma u64_add_small a b : 0 <= a + b < 2 ^ 64 -> u64_add a b = a + b.
Proof. intros; unfold u64_add; by rewrite Z.mod_small. Qed.

Lemma u64_add_range a b : is_u64 (u64_add a b).
Proof. apply Z.mod_pos_bound; lia. Qed.

(** [uN::from_be_bytes]. *)
Definition be_decode (l : bytes) : Z := fold_left (fun acc b => acc * 256 + b) l 0.

(** [uN::to_be_bytes], with [n] the width in bytes. *)
Fixpoint be_encode (n : nat) (z : Z) : bytes :=
  match n with
  | O => []
  | S n' => be_encode n' (z / 256) ++ [z mod 256]
  end.

Lemma be_encode_length n z : length (be_encode n z) = n.
Proof. revert z; induction n; intros; simpl; [done|]. rewrite length_app, IHn; simpl; lia. Qed.

Lemma be_decode_app l b : be_decode (l ++ [b]) = be_decode l * 256 + b.
Proof. unfold be_decode. by rewrite fold_left_app. Qed.

Lemma be_decode_encode n z : be_decode (be_encode n z) = z mod 256 ^ Z.of_nat n.
Proof.
  revert z; induction n as [|n IH]; intros z; [by rewrite Z.mod_1_r|].
  cbn [be_encode]. rewrite be_decode_app, IH, Nat2Z.inj_succ, Z.pow_succ_r by lia.
  rewrite (Z.rem_mul_r z 256) by lia. lia.
Qed.

Lemma be_decode_encode_id n z :
  0 <= z < 256 ^ Z.of_nat n -> be_decode (be_encode n z) = z.
Proof. intros; rewrite be_decode_encode; by apply Z.mod_small. Qed.

Lemma be_encode_decode n l :
  length l = n -> forallb is_byte l = true -> be_encode n (be_decode l) = l.
Proof.
  revert n; induction l as [|b l IH] using rev_ind; intros n Hlen Hb.
  { by simpl in Hlen; subst. }
  rewrite length_app in Hlen; simpl in Hlen.
  destruct n as [|n]; [lia|].
  rewrite forallb_app in Hb; apply andb_true_iff in Hb as [Hl Hb].
  simpl in Hb; unfold is_byte in Hb.
  cbn [be_encode]. rewrite be_decode_app.
  replace (be_decode l * 256 + b) with (b + be_decode l * 256) by lia.
  rewrite Z.div_add, Z.mod_add, Z.div_small, Z.mod_small, IH; try lia; done.
Qed.

(** The bytes of a string literal. *)
Definition bytes_of_string (s : string) : bytes :=
  (fun a => Z.of_N (Ascii.N_of_ascii a)) <$> String.list_ascii_of_string s.

(** [&l[a..b]]. *)
Definition slice {A} (l : list A) (a b : nat) : list A := take (b - a) (drop a l).

Lemma slice_length {A} (l : list A) a b :
  (b <= length l)%nat -> length (slice l a b) = (b - a)%nat.
Proof. intros; unfold slice; rewrite length_take, length_drop; lia. Qed.

Lemma slice_app_mid {A} (l1 l2 l3 : list A) :
  slice (l1 ++ l2 ++ l3) (length l1) (length l1 + length l2) = l2.
Proof.
  unfold slice. rewrite drop_app_length.
  replace (length l1 + length l2 - length l1)%nat with (length l2) by lia.
  by rewrite take_app_length.
Qed.

(** ** Ordered maps *)

(** The keys of a [BTreeMap] with integer keys, in order. *)
Definition sorted_keys {A} (m : gmap Z A) : list Z := merge_sort Z.le (elements (dom m)).

(** [BTreeMap] entries in key order. *)
Definition map_entries {A} (m : gmap Z A) : list (Z * A) :=
  omap (fun k => pair k <$> m !! k) (sorted_keys m).

Lemma elem_of_sorted_keys {A} (m : gmap Z A) k : k ∈ sorted_keys m <-> is_Some (m !! k).
Proof.
  unfold sorted_keys. rewrite merge_sort_Permutation, elem_of_elements. apply elem_of_dom.
Qed.

Lemma elem_of_map_entries {A} (m : gmap Z A) k x : (k, x) ∈ map_entries m <-> m !! k = Some x.
Proof.
  unfold map_entries. rewrite list_elem_of_omap. split.
  - intros (k' & _ & H). apply fmap_Some in H as (? & ? & ?). naive_solver.
  - intros H. exists k. rewrite elem_of_sorted_keys, H. simpl. eauto.
Qed.

Lemma NoDup_sorted_keys {A} (m : gmap Z A) : NoDup (sorted_keys m).
Proof. unfold sorted_keys. rewrite merge_sort_Permutation. apply NoDup_elements. Qed.

(** ** Automation *)

(** Case analysis on every [match] and [decide] in the context, closing the
    branches that contradict an equation between results or options. *)
Ltac result_inv :=
  repeat match goal with
  | H : Ok _ = Ok _ |- _ => injection H as H
  | H : Err _ = Err _ |- _ => injection H as H
  | H : Ok _ = Err _ |- _ => discriminate H
  | H : Err _ = Ok _ |- _ => discriminate H
  | H : (_, _) = (_, _) |- _ => injection H as H
  | H : _ /\ _ |- _ => destruct H
  end; simplify_eq.

Ltac break_match_hyp H :=
  match type of H with
  | context [match ?x with _ => _ end] => destruct x eqn:?
  end.

(** Splits the computation a result hypothesis comes from into its branches. *)
Ltac result_cases H := repeat (break_match_hyp H; result_inv; try done).

Ltac break_match_goal :=
  match goal with
  | |- context [match ?x with _ => _ end] => destruct x eqn:?
  end.

(** Unfolds one particular call of a function. *)
Tactic Notation "unfold_call" constr(t) reference(f) :=
  let u := eval unfold f in t in change t with u.
