(* ===== verification/StateMachine.v ===== *)
(** The freshness oracle's protocol state machine ([synchronizer/src/lib.rs]).

    [StateMachine] maps a pin-slot key to its latest commitment, version and
    frozen control key, with the attested keys, the verified upgrade
    authorizations, the retired keys and the revoked upgrade links.  The
    operations are [observe_attestation], [observe_transition], [apply] (which
    dispatches to [apply_register], [apply_pin], [apply_transition] and
    [apply_revoke]), [snapshot] and [restore_from_snapshot].

    The second part proves the inductive invariant of reachable states and
    the safety properties of the protocol: retirement and revocation are
    permanent, a commitment moves by compare-and-swap only, the control key of
    a live slot is frozen. *)
From stdpp Require Import gmap sets list.
From S2P Require Import Prelude.
#[local] Open Scope Z_scope.

(** ** Data *)

Definition CONTROL_PUBKEY_LEN : nat := 65.
Definition MIN_CLUSTER_NODES : nat := 3.

Record PcrKey := mkPcrKey { PcrKey_0 : bytes }.
Record Commitment := mkCommitment { Commitment_0 : bytes }.
Record Version := mkVersion { Version_0 : Z }.

#[global] Instance PcrKey_eq_dec : EqDecision PcrKey.
Proof. solve_decision. Defined.
#[global] Instance PcrKey_countable : Countable PcrKey :=
  inj_countable' PcrKey_0 mkPcrKey (fun x => match x with mkPcrKey _ => eq_refl end).
#[global] Instance Commitment_eq_dec : EqDecision Commitment.
Proof. solve_decision. Defined.
#[global] Instance Commitment_countable : Countable Commitment :=
  inj_countable' Commitment_0 mkCommitment (fun x => match x with mkCommitment _ => eq_refl end).
#[global] Instance Version_eq_dec : EqDecision Version.
Proof. solve_decision. Defined.
#[global] Instance Version_countable : Countable Version :=
  inj_countable' Version_0 mkVersion (fun x => match x with mkVersion _ => eq_refl end).

(** Operations committed to the log. *)
Inductive Op : Type :=
| Op_Register (key : PcrKey) (commitment : Commitment)
| Op_Pin (key : PcrKey) (expected_version : Version) (commitment : Commitment)
| Op_Transition (old_key new_key : PcrKey) (link_hash : bytes) (commitment : Commitment)
| Op_Revoke (key : PcrKey) (link_hash : bytes).

Record KeyState := mkKeyState {
  ks_commitment : Commitment;
  ks_version : Version;
  ks_control_pubkey : bytes;
}.

#[global] Instance KeyState_eq_dec : EqDecision KeyState.
Proof. solve_decision. Defined.
#[global] Instance KeyState_countable : Countable KeyState :=
  inj_countable' (fun s => (ks_commitment s, ks_version s, ks_control_pubkey s))
    (fun '(c, v, p) => mkKeyState c v p) (fun x => match x with mkKeyState _ _ _ => eq_refl end).

Inductive ValidationError : Type :=
| NotAttested
| AlreadyRegistered
| KeyRetired
| KeyNotCurrent
| StalePin (expected current : Version)
| NewKeyAlreadyExists
| NewKeyNotAttested
| NoTransitionAuthorization
| OldKeyEqualsNew
| TransitionRevoked
| CommitmentMismatch.

#[global] Instance ValidationError_eq_dec : EqDecision ValidationError.
Proof. solve_decision. Defined.

Record StateMachine := mkStateMachine {
  sm_state : gmap PcrKey KeyState;
  sm_attested : gmap PcrKey bytes;
  sm_transition_authorizations : gset (PcrKey * PcrKey);
  sm_retired : gset PcrKey;
  sm_revoked_links : gmap PcrKey (gset bytes);
}.

(** ** Operations *)

(** [StateMachine::new]. *)
Definition sm_new : StateMachine := mkStateMachine ∅ ∅ ∅ ∅ ∅.

Definition observe_attestation (sm : StateMachine) (key : PcrKey) (control_pubkey : bytes)
    : StateMachine :=
  mkStateMachine (sm_state sm) (<[key := control_pubkey]> (sm_attested sm))
    (sm_transition_authorizations sm) (sm_retired sm) (sm_revoked_links sm).

Definition observe_transition (sm : StateMachine) (old_key new_key : PcrKey) : StateMachine :=
  mkStateMachine (sm_state sm) (sm_attested sm)
    ({[ (old_key, new_key) ]} ∪ sm_transition_authorizations sm)
    (sm_retired sm) (sm_revoked_links sm).

Definition with_state (sm : StateMachine) (state : gmap PcrKey KeyState) : StateMachine :=
  mkStateMachine state (sm_attested sm) (sm_transition_authorizations sm)
    (sm_retired sm) (sm_revoked_links sm).

(** The value of a mutating operation: its result and the state it leaves. *)
Definition Applied : Type := result KeyState ValidationError * StateMachine.

Definition apply_register (sm : StateMachine) (key : PcrKey) (commitment : Commitment)
    : Applied :=
  match sm_attested sm !! key with
  | None => (Err NotAttested, sm)
  | Some control_pubkey =>
      if decide (is_Some (sm_state sm !! key)) then (Err AlreadyRegistered, sm)
      else if decide (key ∈ sm_retired sm) then (Err KeyRetired, sm)
      else
        let entry := mkKeyState commitment (mkVersion 0) control_pubkey in
        (Ok entry, with_state sm (<[key := entry]> (sm_state sm)))
  end.

Definition apply_pin (sm : StateMachine) (key : PcrKey) (expected_version : Version)
    (commitment : Commitment) : Applied :=
  match sm_state sm !! key with
  | None => (Err KeyNotCurrent, sm)
  | Some entry =>
      if decide (ks_version entry = expected_version) then
        let entry' := mkKeyState commitment
                        (mkVersion (u64_add (Version_0 (ks_version entry)) 1))
                        (ks_control_pubkey entry) in
        (Ok entry', with_state sm (<[key := entry']> (sm_state sm)))
      else (Err (StalePin expected_version (ks_version entry)), sm)
  end.

Definition is_revoked (sm : StateMachine) (key : PcrKey) (link_hash : bytes) : bool :=
  match sm_revoked_links sm !! key with
  | Some hashes => bool_decide (link_hash ∈ hashes)
  | None => false
  end.

Definition apply_transition (sm : StateMachine) (old_key new_key : PcrKey)
    (link_hash : bytes) (commitment : Commitment) : Applied :=
  if decide (old_key = new_key) then (Err OldKeyEqualsNew, sm)
  else if decide (sm_state sm !! old_key = None) then (Err KeyNotCurrent, sm)
  else if is_revoked sm old_key link_hash then (Err TransitionRevoked, sm)
  else if decide (is_Some (sm_state sm !! new_key)) then (Err NewKeyAlreadyExists, sm)
  else if decide (new_key ∈ sm_retired sm) then (Err KeyRetired, sm)
  else match sm_attested sm !! new_key with
  | None => (Err NewKeyNotAttested, sm)
  | Some new_pubkey =>
      if decide ((old_key, new_key) ∈ sm_transition_authorizations sm) then
        match sm_state sm !! old_key with
        | Some old =>
            if decide (ks_commitment old = commitment) then
              let carried := mkKeyState (ks_commitment old) (ks_version old) new_pubkey in
              (Ok carried,
               mkStateMachine
                 (<[new_key := carried]> (delete old_key (sm_state sm)))
                 (sm_attested sm) (sm_transition_authorizations sm)
                 ({[ old_key ]} ∪ sm_retired sm) (sm_revoked_links sm))
            else (Err CommitmentMismatch, sm)
        | None => (Err CommitmentMismatch, sm)
        end
      else (Err NoTransitionAuthorization, sm)
  end.

Definition apply_revoke (sm : StateMachine) (key : PcrKey) (link_hash : bytes) : Applied :=
  if decide (key ∈ sm_retired sm) then (Err KeyRetired, sm)
  else match sm_state sm !! key with
  | None => (Err KeyNotCurrent, sm)
  | Some state =>
      (Ok state,
       mkStateMachine (sm_state sm) (sm_attested sm) (sm_transition_authorizations sm)
         (sm_retired sm)
         (<[key := {[ link_hash ]} ∪ default ∅ (sm_revoked_links sm !! key)]>
            (sm_revoked_links sm)))
  end.

Definition apply (sm : StateMachine) (op : Op) : Applied :=
  match op with
  | Op_Register key commitment => apply_register sm key commitment
  | Op_Pin key expected_version commitment => apply_pin sm key expected_version commitment
  | Op_Transition old_key new_key link_hash commitment =>
      apply_transition sm old_key new_key link_hash commitment
  | Op_Revoke key link_hash => apply_revoke sm key link_hash
  end.

(** Queries. *)
Definition get (sm : StateMachine) (key : PcrKey) : option KeyState := sm_state sm !! key.
Definition head_len (sm : StateMachine) : nat := size (sm_state sm).
Definition retired_len (sm : StateMachine) : nat := size (sm_retired sm).
Definition revoked_len (sm : StateMachine) : nat := size (sm_revoked_links sm).
Definition head_keys (sm : StateMachine) : list PcrKey := elements (dom (sm_state sm)).
Definition retired_keys (sm : StateMachine) : list PcrKey := elements (sm_retired sm).
Definition revoked_links (sm : StateMachine) (key : PcrKey) : list bytes :=
  match sm_revoked_links sm !! key with Some hashes => elements hashes | None => [] end.

(** ** Snapshots *)

Record StateMachineSnapshot := mkSnapshot {
  snap_state : gmap PcrKey KeyState;
  snap_attested : gmap PcrKey bytes;
  snap_transition_authorizations : gset (PcrKey * PcrKey);
  snap_retired : gset PcrKey;
  snap_revoked_links : gmap PcrKey (gset bytes);
}.

Definition snapshot (sm : StateMachine) : StateMachineSnapshot :=
  mkSnapshot (sm_state sm) (sm_attested sm) (sm_transition_authorizations sm)
    (sm_retired sm) (sm_revoked_links sm).

Definition restore_from_snapshot (sm : StateMachine) (s : StateMachineSnapshot) : StateMachine :=
  mkStateMachine (snap_state s) (snap_attested s) (snap_transition_authorizations s)
    (snap_retired s) (snap_revoked_links s).

(** ** Reachable states *)

(** The inputs of the machine, in the order they are fed to it. *)
Inductive sm_input : Type :=
| In_attestation (key : PcrKey) (control_pubkey : bytes)
| In_transition (old_key new_key : PcrKey)
| In_op (op : Op).

Definition sm_feed (sm : StateMachine) (i : sm_input) : StateMachine :=
  match i with
  | In_attestation key pk => observe_attestation sm key pk
  | In_transition old_key new_key => observe_transition sm old_key new_key
  | In_op op => (apply sm op).2
  end.

Inductive sm_step (sm : StateMachine) : StateMachine -> Prop :=
| sm_step_intro i : sm_step sm (sm_feed sm i).

(** States a run of [n] inputs leads to. *)
Definition sm_run (n : nat) : StateMachine -> StateMachine -> Prop := nsteps sm_step n.
Definition sm_later : StateMachine -> StateMachine -> Prop := rtc sm_step.
Definition sm_reachable (sm : StateMachine) : Prop := sm_later sm_new sm.

(** ** When each operation succeeds, and what it leaves *)

(** The closed form of a successful [apply], one clause per operation. *)
Definition applied_spec (sm : StateMachine) (op : Op) (ks : KeyState) (sm' : StateMachine) : Prop :=
  match op with
  | Op_Register key c =>
      exists pk, sm_attested sm !! key = Some pk /\ sm_state sm !! key = None /\
        (key ∉ sm_retired sm) /\ ks = mkKeyState c (mkVersion 0) pk /\
        sm' = with_state sm (<[key := ks]> (sm_state sm))
  | Op_Pin key v c =>
      exists old, sm_state sm !! key = Some old /\ ks_version old = v /\
        ks = mkKeyState c (mkVersion (u64_add (Version_0 v) 1)) (ks_control_pubkey old) /\
        sm' = with_state sm (<[key := ks]> (sm_state sm))
  | Op_Transition old_key new_key h c =>
      exists old pk, old_key <> new_key /\ sm_state sm !! old_key = Some old /\
        ks_commitment old = c /\ is_revoked sm old_key h = false /\
        sm_state sm !! new_key = None /\ (new_key ∉ sm_retired sm) /\
        sm_attested sm !! new_key = Some pk /\
        (old_key, new_key) ∈ sm_transition_authorizations sm /\
        ks = mkKeyState c (ks_version old) pk /\
        sm' = mkStateMachine (<[new_key := ks]> (delete old_key (sm_state sm)))
                (sm_attested sm) (sm_transition_authorizations sm)
                ({[ old_key ]} ∪ sm_retired sm) (sm_revoked_links sm)
  | Op_Revoke key h =>
      (key ∉ sm_retired sm) /\ sm_state sm !! key = Some ks /\
        sm' = mkStateMachine (sm_state sm) (sm_attested sm)
                (sm_transition_authorizations sm) (sm_retired sm)
                (<[key := {[ h ]} ∪ default ∅ (sm_revoked_links sm !! key)]>
                   (sm_revoked_links sm))
  end.

Ltac sm_cases :=
  repeat match goal with
  | H : context [if decide ?P then _ else _] |- _ => destruct (decide P)
  | H : context [match ?x with _ => _ end] |- _ => destruct x eqn:?
  end; simplify_eq.

Lemma apply_Ok sm op ks sm' :
  apply sm op = (Ok ks, sm') -> applied_spec sm op ks sm'.
Proof.
  destruct op; simpl; unfold apply_register, apply_pin, apply_transition, apply_revoke;
    intros H; sm_cases; rewrite <-?eq_None_not_Some in *;
    repeat (eassumption || reflexivity || eexists || (by auto)).
Qed.

Lemma apply_Ok_complete sm op ks sm' :
  applied_spec sm op ks sm' -> apply sm op = (Ok ks, sm').
Proof.
  destruct op; simpl; unfold apply_register, apply_pin, apply_transition, apply_revoke.
  - intros (pk & -> & Hn & Hr & -> & ->). rewrite Hn.
    rewrite decide_False by (by intros [? ?]). by rewrite decide_False.
  - intros (old & -> & <- & -> & ->). by rewrite decide_True.
  - intros (old & pk & Hne & Ho & <- & -> & Hn & Hr & -> & Ha & -> & ->).
    rewrite Ho, Hn. rewrite decide_False by done. rewrite decide_False by done.
    rewrite decide_False by (by intros [? ?]). rewrite decide_False by done.
    rewrite decide_True by done. by rewrite decide_True.
  - intros (Hr & -> & ->). by rewrite decide_False.
Qed.

Lemma apply_Err sm op e sm' : apply sm op = (Err e, sm') -> sm' = sm.
Proof.
  destruct op; simpl; unfold apply_register, apply_pin, apply_transition, apply_revoke;
    intros H; by sm_cases.
Qed.

(** One input leaves the state as it was, records an observation, or applies
    an operation that succeeds. *)
Lemma sm_step_inv sm sm' :
  sm_step sm sm' ->
  sm' = sm \/ (exists k pk, sm' = observe_attestation sm k pk) \/
  (exists o n, sm' = observe_transition sm o n) \/
  (exists op ks, applied_spec sm op ks sm').
Proof.
  intros [[k pk|o n|op]]; simpl; eauto 10.
  destruct (apply sm op) as [[ks|e] sm1] eqn:E; simpl.
  - apply apply_Ok in E. eauto 10.
  - apply apply_Err in E as ->. auto.
Qed.

Ltac sm_step_cases H :=
  apply sm_step_inv in H as [->|[(?k & ?pk & ->)|[(?o & ?n & ->)|(?op & ?ks0 & H)]]].

Lemma sm_later_ind (P : StateMachine -> Prop) :
  (forall sm sm', sm_step sm sm' -> P sm -> P sm') ->
  forall sm sm', sm_later sm sm' -> P sm -> P sm'.
Proof. intros Hs sm sm' H. induction H; eauto. Qed.

Lemma sm_run_later n sm sm' : sm_run n sm sm' -> sm_later sm sm'.
Proof. apply rtc_nsteps_2. Qed.

(** ** The invariant *)

Record sm_wf (sm : StateMachine) : Prop := {
  wf_disjoint : forall k, k ∈ sm_retired sm -> sm_state sm !! k = None;
  wf_attested : forall k, is_Some (sm_state sm !! k) -> is_Some (sm_attested sm !! k);
  wf_retired : forall k, k ∈ sm_retired sm ->
    is_Some (sm_attested sm !! k) /\ exists k', (k, k') ∈ sm_transition_authorizations sm;
  wf_version : forall k ks, sm_state sm !! k = Some ks -> is_u64 (Version_0 (ks_version ks));
  wf_revoked : forall k, is_Some (sm_revoked_links sm !! k) ->
    is_Some (sm_state sm !! k) \/ k ∈ sm_retired sm;
}.

Create HintDb sm_db.
#[export] Hint Resolve wf_disjoint wf_attested wf_retired wf_version wf_revoked : sm_db.

Lemma sm_new_wf : sm_wf sm_new.
Proof.
  split; simpl.
  - done.
  - intros k [? H]. by rewrite lookup_empty in H.
  - intros k H. by apply not_elem_of_empty in H.
  - intros k ks H. by rewrite lookup_empty in H.
  - intros k [? H]. by rewrite lookup_empty in H.
Qed.

Lemma applied_wf sm op ks sm' : sm_wf sm -> applied_spec sm op ks sm' -> sm_wf sm'.
Proof.
  intros W. destruct op; simpl.
  - intros (pk & Ha & Hn & Hr & -> & ->). split; simpl.
    + intros k Hk. rewrite lookup_insert_ne by set_solver. eauto with sm_db.
    + intros k. rewrite lookup_insert. case_decide; subst; eauto with sm_db.
    + eauto with sm_db.
    + intros k ks. rewrite lookup_insert. case_decide; intros; simplify_eq; simpl.
      { unfold is_u64; simpl; lia. } eauto with sm_db.
    + intros k Hk. destruct (wf_revoked _ W k Hk) as [|]; [left|auto].
      rewrite lookup_insert. case_decide; eauto.
  - intros (old & Ho & <- & -> & ->). split; simpl.
    + intros k Hk. assert (k <> key). { intros ->. by rewrite (wf_disjoint _ W) in Ho. }
      rewrite lookup_insert_ne by done. eauto with sm_db.
    + intros k. rewrite lookup_insert. case_decide; subst; eauto with sm_db.
    + eauto with sm_db.
    + intros k ks. rewrite lookup_insert. case_decide; intros; simplify_eq; simpl.
      { apply u64_add_range. } eauto with sm_db.
    + intros k Hk. destruct (wf_revoked _ W k Hk) as [|]; [left|auto].
      rewrite lookup_insert. case_decide; eauto.
  - intros (old & pk & Hne & Ho & <- & Hv & Hn & Hr & Ha & Hau & -> & ->). split; simpl.
    + intros k Hk. apply elem_of_union in Hk as [->%elem_of_singleton|Hk].
      * rewrite lookup_insert_ne, lookup_delete_eq by done. done.
      * assert (k <> new_key) by set_solver.
        rewrite lookup_insert_ne by done. rewrite lookup_delete; case_decide; eauto with sm_db.
    + intros k. rewrite lookup_insert. case_decide; subst; [eauto|].
      rewrite lookup_delete. case_decide; [by intros []|]. eauto with sm_db.
    + intros k Hk. apply elem_of_union in Hk as [->%elem_of_singleton|Hk]; eauto with sm_db.
    + intros k ks. rewrite lookup_insert. case_decide; intros; simplify_eq; simpl.
      { eauto with sm_db. }
      rewrite lookup_delete in *. case_decide; [done|]. eauto with sm_db.
    + intros k Hk. destruct (wf_revoked _ W k Hk) as [|]; [|set_solver].
      destruct (decide (k = old_key)) as [->|]; [set_solver|left].
      rewrite lookup_insert. case_decide; [eauto|]. by rewrite lookup_delete_ne.
  - intros (Hr & Hs & ->). split; simpl; eauto with sm_db.
    intros k. rewrite lookup_insert. case_decide; subst; eauto with sm_db.
Qed.

Lemma sm_step_wf sm sm' : sm_step sm sm' -> sm_wf sm -> sm_wf sm'.
Proof.
  intros H W. sm_step_cases H; auto.
  - split; simpl; eauto with sm_db.
    + intros k' H. rewrite lookup_insert. case_decide; eauto with sm_db.
    + intros k' H. rewrite lookup_insert. case_decide; [split; [eauto|]|].
      * apply (wf_retired _ W _ H).
      * eauto with sm_db.
  - split; simpl; eauto with sm_db.
    intros k H. destruct (wf_retired _ W _ H) as [? [k' ?]]. split; [done|]. exists k'. set_solver.
  - eauto using applied_wf.
Qed.

Lemma sm_reachable_wf_aux sm : sm_reachable sm -> sm_wf sm.
Proof. intros H. eapply sm_later_ind; [apply sm_step_wf|exact H|apply sm_new_wf]. Qed.
#[export] Hint Resolve sm_reachable_wf_aux sm_new_wf sm_step_wf : sm_db.

(** ** Growth: what one input can and cannot change *)

(** The observations, retirements and revocations only grow. *)
Record sm_grows (sm sm' : StateMachine) : Prop := {
  grows_retired : sm_retired sm ⊆ sm_retired sm';
  grows_authorizations : sm_transition_authorizations sm ⊆ sm_transition_authorizations sm';
  grows_attested : forall k, is_Some (sm_attested sm !! k) -> is_Some (sm_attested sm' !! k);
  grows_revoked : forall k h, is_revoked sm k h = true -> is_revoked sm' k h = true;
}.

#[global] Instance sm_grows_preorder : PreOrder sm_grows.
Proof.
  split.
  - intros sm. by split.
  - intros a b c [] []. split; eauto. all: etransitivity; eauto.
Qed.

Lemma is_revoked_insert (sm : StateMachine) key h k h' :
  is_revoked (mkStateMachine (sm_state sm) (sm_attested sm) (sm_transition_authorizations sm)
    (sm_retired sm) (<[key := {[ h ]} ∪ default ∅ (sm_revoked_links sm !! key)]>
      (sm_revoked_links sm))) k h'
  = bool_decide (k = key /\ h' = h) || is_revoked sm k h'.
Proof.
  unfold is_revoked; simpl. rewrite lookup_insert. case_decide; subst; simpl.
  - destruct (sm_revoked_links sm !! k); simpl;
      repeat case_bool_decide; simpl; set_solver.
  - rewrite (bool_decide_eq_false_2 (k = key /\ h' = h)) by naive_solver. done.
Qed.

Lemma sm_step_grows sm sm' : sm_step sm sm' -> sm_grows sm sm'.
Proof.
  intros H. sm_step_cases H.
  - reflexivity.
  - split; try done. intros k' H; simpl. rewrite lookup_insert; case_decide; eauto.
  - split; simpl; set_solver.
  - destruct op; simpl in H.
    + destruct H as (? & ? & ? & ? & ? & ->). by split.
    + destruct H as (? & ? & ? & ? & ->). by split.
    + destruct H as (? & ? & _ & _ & _ & _ & _ & _ & _ & _ & _ & ->). split; simpl; set_solver.
    + destruct H as (? & ? & ->). split; simpl; try done.
      intros k h. rewrite is_revoked_insert. intros ->. by rewrite orb_true_r.
Qed.

Lemma sm_later_grows sm sm' : sm_later sm sm' -> sm_grows sm sm'.
Proof. induction 1; [reflexivity|]. etransitivity; [by apply sm_step_grows|done]. Qed.
#[export] Hint Resolve sm_step_grows sm_later_grows : sm_db.

(** What happens to the slot of a live key in one input: it stays as it is, is
    pinned, or its key is retired. *)
Definition slot_evolves (ks : KeyState) (sm' : StateMachine) (k : PcrKey) : Prop :=
  (k ∈ sm_retired sm' /\ sm_state sm' !! k = None) \/
  exists ks', sm_state sm' !! k = Some ks' /\ ks_control_pubkey ks' = ks_control_pubkey ks /\
    (ks' = ks \/ Version_0 (ks_version ks') = u64_add (Version_0 (ks_version ks)) 1).

Lemma sm_step_slot sm sm' k ks :
  sm_wf sm -> sm_step sm sm' -> sm_state sm !! k = Some ks -> slot_evolves ks sm' k.
Proof.
  intros W Hop Hk. unfold slot_evolves. sm_step_cases Hop; simpl; eauto 10.
  destruct op; simpl in Hop.
  - destruct Hop as (pk & _ & Hn & _ & _ & ->); simpl. right. exists ks.
    rewrite lookup_insert_ne by naive_solver. auto.
  - destruct Hop as (old & Ho & <- & -> & ->); simpl. right.
    rewrite lookup_insert. case_decide; simplify_eq; simpl; eauto 10.
  - destruct Hop as (old & pk & Hne & Ho & _ & _ & Hn & _ & _ & _ & _ & ->); simpl.
    destruct (decide (k = old_key)) as [->|].
    + left. rewrite lookup_insert_ne, lookup_delete_eq by done. set_solver.
    + right. exists ks. rewrite lookup_insert_ne, lookup_delete_ne by naive_solver. auto.
  - destruct Hop as (_ & _ & ->); simpl. eauto 10.
Qed.

(** A key that enters the state enters it at version 0 or with the version of
    the key it succeeds. *)
Lemma sm_step_version_bound sm sm' b :
  0 <= b < 2 ^ 64 - 1 -> sm_step sm sm' ->
  (forall k ks, sm_state sm !! k = Some ks -> 0 <= Version_0 (ks_version ks) <= b) ->
  (forall k ks, sm_state sm' !! k = Some ks -> 0 <= Version_0 (ks_version ks) <= b + 1).
Proof.
  intros Hb Hop H k ks. sm_step_cases Hop; simpl.
  1-3: intros Hk; specialize (H k ks Hk); lia.
  - destruct op; simpl in Hop.
    + destruct Hop as (pk & _ & _ & _ & -> & ->); simpl. rewrite lookup_insert.
      case_decide; intros; simplify_eq; simpl; [lia|]. specialize (H k ks); naive_solver lia.
    + destruct Hop as (old & Ho & <- & -> & ->); simpl. rewrite lookup_insert.
      case_decide; intros; simplify_eq; simpl.
      * specialize (H _ _ Ho). rewrite u64_add_small by lia. lia.
      * specialize (H k ks); naive_solver lia.
    + destruct Hop as (old & pk & _ & Ho & _ & _ & _ & _ & _ & _ & -> & ->); simpl.
      rewrite lookup_insert. case_decide; intros; simplify_eq; simpl.
      * specialize (H _ _ Ho). lia.
      * rewrite lookup_delete in *. case_decide; [done|]. specialize (H k ks); naive_solver lia.
    + destruct Hop as (_ & _ & ->); simpl. intros Hk. specialize (H k ks Hk). lia.
Qed.

Lemma sm_run_version_bound n sm :
  Z.of_nat n < 2 ^ 64 -> sm_run n sm_new sm ->
  forall k ks, sm_state sm !! k = Some ks -> 0 <= Version_0 (ks_version ks) <= Z.of_nat n.
Proof.
  revert sm. induction n as [|n IH]; intros sm Hn Hrun.
  - inversion Hrun; subst. simpl. intros k ks H. by rewrite lookup_empty in H.
  - apply nsteps_inv_r in Hrun as (y & Hy & Hs). intros k ks Hk.
    pose proof (sm_step_version_bound y sm (Z.of_nat n) ltac:(lia) Hs
      (IH y ltac:(lia) Hy) k ks Hk). lia.
Qed.

(** Along a run short enough not to wrap the counter, a live slot's version
    never goes back and its control key never changes. *)
Lemma sm_run_slot n m sm sm' k ks :
  Z.of_nat (n + m) < 2 ^ 64 -> sm_run n sm_new sm -> sm_run m sm sm' ->
  sm_state sm !! k = Some ks ->
  (k ∈ sm_retired sm' /\ sm_state sm' !! k = None) \/
  exists ks', sm_state sm' !! k = Some ks' /\ ks_control_pubkey ks' = ks_control_pubkey ks /\
    Version_0 (ks_version ks) <= Version_0 (ks_version ks').
Proof.
  revert sm'. induction m as [|m IH]; intros sm' Hb Hn Hm Hk.
  { inversion Hm; subst. right. exists ks. repeat split; auto; lia. }
  apply nsteps_inv_r in Hm as (y & Hy & Hs).
  assert (Wy : sm_wf y).
  { apply sm_reachable_wf_aux. unfold sm_reachable, sm_later.
    etransitivity; eapply sm_run_later; eauto. }
  assert (Ws : sm_wf sm') by eauto with sm_db.
  destruct (IH y ltac:(lia) Hn Hy Hk) as [[Hr Hnone]|(ks1 & H1 & Hpk & Hv)].
  - left. assert (k ∈ sm_retired sm') by (eapply grows_retired; eauto with sm_db).
    eauto with sm_db.
  - destruct (sm_step_slot y sm' k ks1 Wy Hs H1) as [?|(ks2 & H2 & Hpk2 & Hv2)]; [by left|].
    right. exists ks2. split; [done|]. split; [congruence|].
    destruct Hv2 as [->|Hv2]; [lia|].
    assert (0 <= Version_0 (ks_version ks1) <= Z.of_nat (n + m)).
    { apply (sm_run_version_bound (n + m) y ltac:(lia) (nsteps_trans _ _ _ _ _ Hn Hy) k ks1 H1). }
    rewrite Hv2, u64_add_small by lia. lia.
Qed.

(** ** Properties *)

(** C35: in every reachable state of the oracle the live keys and the retired
    keys are disjoint, every live or retired key was attested, a retired key
    was retired by an authorized transition, versions are 64-bit counters, and
    links are revoked only for keys that hold or held a pin. *)
Theorem reachable_invariant sm : sm_reachable sm -> sm_wf sm.
Proof. apply sm_reachable_wf_aux. Qed.

(** An operation the machine rejects changes nothing, for every operation
    and every error. *)
Theorem rejected_op_changes_nothing sm op e sm' :
  apply sm op = (Err e, sm') -> sm' = sm.
Proof. apply apply_Err. Qed.

(** Retirement is final.  Once a key is retired, in every later state it
    holds no pin and every operation that names it, as registrant, pinner,
    source or target of a transition, or revoker, is refused. *)
Theorem retirement_is_final sm sm' k :
  sm_reachable sm -> k ∈ sm_retired sm -> sm_later sm sm' ->
  get sm' k = None /\
  forall op, (match op with
              | Op_Register key _ | Op_Pin key _ _ | Op_Revoke key _ => key = k
              | Op_Transition o n _ _ => o = k \/ n = k
              end) -> is_ok (apply sm' op).1 = false.
Proof.
  intros Hr Hk Hl.
  assert (Hk' : k ∈ sm_retired sm') by (eapply grows_retired; eauto with sm_db).
  assert (W' : sm_wf sm') by (eapply sm_later_ind; eauto with sm_db).
  assert (Hn : sm_state sm' !! k = None) by eauto with sm_db.
  split; [done|]. intros op Hop.
  destruct (apply sm' op) as [[ks|e] s] eqn:E; [|done]. exfalso.
  apply apply_Ok in E. destruct op; simpl in *; naive_solver.
Qed.

(** A committed revocation of a link is permanent.  Whatever happens
    afterwards, no transition out of that key presenting that link succeeds. *)
Theorem revocation_is_permanent sm key h ks sm1 sm2 new_key c :
  apply sm (Op_Revoke key h) = (Ok ks, sm1) -> sm_later sm1 sm2 ->
  is_ok (apply sm2 (Op_Transition key new_key h c)).1 = false.
Proof.
  intros Hrev Hl. apply apply_Ok in Hrev as (_ & _ & ->).
  destruct (apply sm2 _) as [[ks'|e] s] eqn:E; [|done]. exfalso.
  apply apply_Ok in E as (? & ? & _ & _ & _ & Hnot & _).
  enough (is_revoked sm2 key h = true) by congruence.
  eapply grows_revoked; [eauto with sm_db|].
  rewrite is_revoked_insert, bool_decide_eq_true_2; done.
Qed.

(** A revocation names one link: it changes no pin, retires no key, and
    the verdict on every other (key, link) pair is what it was. *)
Theorem revocation_is_exact sm key h ks sm1 :
  apply sm (Op_Revoke key h) = (Ok ks, sm1) ->
  sm_state sm1 = sm_state sm /\ sm_retired sm1 = sm_retired sm /\
  (forall k' h', is_revoked sm1 k' h' =
     bool_decide (k' = key /\ h' = h) || is_revoked sm k' h').
Proof.
  intros Hrev. apply apply_Ok in Hrev as (_ & _ & ->). split_and!; try done.
  intros k' h'. apply is_revoked_insert.
Qed.

(** Compare-and-swap admits one writer per version.  After a pin from
    version [v] commits, no later pin of the same key from the same version
    commits, whatever inputs come in between (runs shorter than 2^64 inputs,
    so that the 64-bit counter cannot wrap). *)
Theorem pin_cas_single_winner n m sm key v c1 ks1 sm1 sm2 c2 :
  Z.of_nat (n + m) < 2 ^ 64 - 1 ->
  sm_run n sm_new sm ->
  apply sm (Op_Pin key v c1) = (Ok ks1, sm1) ->
  sm_run m sm1 sm2 ->
  is_ok (apply sm2 (Op_Pin key v c2)).1 = false.
Proof.
  intros Hb Hn Hpin Hm.
  assert (Hstep : sm_step sm sm1).
  { change sm1 with (Ok (E := ValidationError) ks1, sm1).2. rewrite <-Hpin.
    apply (sm_step_intro sm (In_op (Op_Pin key v c1))). }
  apply apply_Ok in Hpin as (old & Ho & <- & -> & ->).
  pose proof (sm_run_version_bound n sm ltac:(lia) Hn key old Ho) as Hold.
  destruct (apply sm2 _) as [[ks2|e] s] eqn:E; [|done]. exfalso.
  apply apply_Ok in E as (cur & Hcur & Hv & _).
  destruct (sm_run_slot (S n) m _ sm2 key _ ltac:(lia) (nsteps_r _ _ _ _ Hn Hstep) Hm
    (lookup_insert_eq _ _ _)) as [[_ Hnone]|(ks' & Hks' & _ & Hle)].
  - congruence.
  - simplify_eq. simpl in Hle. rewrite u64_add_small in Hle by lia. rewrite Hv in Hle. lia.
Qed.

(** A successful transition moves exactly one pin: the successor holds the
    predecessor's commitment and version under its own attested control key,
    the predecessor is retired and holds nothing, every other slot is
    untouched, and the commitment is the one the successor named. *)
Theorem transition_moves_the_pin sm old_key new_key h c ks sm' :
  apply sm (Op_Transition old_key new_key h c) = (Ok ks, sm') ->
  exists old pk,
    get sm old_key = Some old /\ sm_attested sm !! new_key = Some pk /\
    get sm' new_key = Some ks /\ ks = mkKeyState (ks_commitment old) (ks_version old) pk /\
    ks_commitment old = c /\
    get sm' old_key = None /\ sm_retired sm' = {[ old_key ]} ∪ sm_retired sm /\
    (forall k, k <> old_key -> k <> new_key -> get sm' k = get sm k).
Proof.
  intros H. apply apply_Ok in H as (old & pk & Hne & Ho & <- & _ & Hn & Hr & Ha & _ & -> & ->).
  exists old, pk. unfold get; simpl. split_and!; try done.
  - apply lookup_insert_eq.
  - by rewrite lookup_insert_ne, lookup_delete_eq.
  - intros k H1 H2. by rewrite lookup_insert_ne, lookup_delete_ne.
Qed.

(** The control key of a live slot is frozen: while the key stays live,
    re-attestations and pins never change the key that authorizes its upgrade,
    and its version never goes back. *)
Theorem control_key_is_frozen n m sm sm' k ks ks' :
  Z.of_nat (n + m) < 2 ^ 64 -> sm_run n sm_new sm -> sm_run m sm sm' ->
  get sm k = Some ks -> get sm' k = Some ks' ->
  ks_control_pubkey ks' = ks_control_pubkey ks /\
  Version_0 (ks_version ks) <= Version_0 (ks_version ks').
Proof.
  intros Hb Hn Hm Hk Hk'. unfold get in *.
  destruct (sm_run_slot n m sm sm' k ks Hb Hn Hm Hk) as [[_ H]|(? & ? & ? & ?)]; naive_solver.
Qed.

(** ** Witnesses: concrete runs *)

Lemma sm_feeds_run l sm : sm_run (length l) sm (fold_left sm_feed l sm).
Proof. revert sm. induction l as [|i l IH]; intros sm; [constructor|]. econstructor; [constructor|apply IH]. Qed.

Lemma sm_feeds_later l sm : sm_later sm (fold_left sm_feed l sm).
Proof. eapply sm_run_later, sm_feeds_run. Qed.

Definition demo_key1 : PcrKey := mkPcrKey [1].
Definition demo_key2 : PcrKey := mkPcrKey [2].
Definition demo_c0 : Commitment := mkCommitment [10].
Definition demo_c1 : Commitment := mkCommitment [11].

(** Two attested enclaves, the first registered and pinned once, an upgrade
    from the first to the second authorized. *)
Definition demo_inputs : list sm_input :=
  [ In_attestation demo_key1 [4; 1]; In_attestation demo_key2 [4; 2];
    In_op (Op_Register demo_key1 demo_c0);
    In_op (Op_Pin demo_key1 (mkVersion 0) demo_c1);
    In_transition demo_key1 demo_key2 ].

Definition demo_sm : StateMachine := fold_left sm_feed demo_inputs sm_new.
Definition demo_upgraded : StateMachine :=
  sm_feed demo_sm (In_op (Op_Transition demo_key1 demo_key2 [7] demo_c1)).

Lemma reachable_invariant_witness : sm_reachable demo_sm /\ sm_wf demo_sm.
Proof. split; [|apply reachable_invariant]; apply (sm_feeds_later demo_inputs). Defined.

Lemma rejected_op_changes_nothing_witness :
  apply demo_sm (Op_Pin demo_key2 (mkVersion 0) demo_c0) = (Err KeyNotCurrent, demo_sm) /\
  demo_sm = demo_sm.
Proof.
  split; [reflexivity|].
  apply (rejected_op_changes_nothing demo_sm (Op_Pin demo_key2 (mkVersion 0) demo_c0) KeyNotCurrent).
  reflexivity.
Defined.

Lemma retirement_is_final_witness :
  get (sm_feed demo_upgraded (In_op (Op_Register demo_key1 demo_c0))) demo_key1 = None.
Proof.
  apply (retirement_is_final demo_upgraded _ demo_key1).
  - apply (sm_feeds_later (demo_inputs ++ [In_op (Op_Transition demo_key1 demo_key2 [7] demo_c1)])).
  - apply (bool_decide_unpack _). vm_compute. exact I.
  - apply (sm_feeds_later [In_op (Op_Register demo_key1 demo_c0)]).
Defined.

Definition demo_revoked : StateMachine := sm_feed demo_sm (In_op (Op_Revoke demo_key1 [7])).

Lemma revocation_is_permanent_witness :
  is_ok (apply (sm_feed demo_revoked (In_transition demo_key1 demo_key2))
           (Op_Transition demo_key1 demo_key2 [7] demo_c1)).1 = false.
Proof.
  apply (revocation_is_permanent demo_sm demo_key1 [7]
           (mkKeyState demo_c1 (mkVersion 1) [4; 1]) demo_revoked).
  - reflexivity.
  - apply (sm_feeds_later [In_transition demo_key1 demo_key2]).
Defined.

Lemma revocation_is_exact_witness :
  sm_state demo_revoked = sm_state demo_sm /\ is_revoked demo_revoked demo_key1 [8] = false.
Proof.
  destruct (revocation_is_exact demo_sm demo_key1 [7]
    (mkKeyState demo_c1 (mkVersion 1) [4; 1]) demo_revoked eq_refl) as (H1 & _ & H3).
  split; [exact H1|]. rewrite H3. reflexivity.
Defined.

Lemma pin_cas_single_winner_witness :
  is_ok (apply (sm_feed demo_sm (In_op (Op_Pin demo_key1 (mkVersion 1) demo_c0)))
           (Op_Pin demo_key1 (mkVersion 1) demo_c1)).1 = false.
Proof.
  apply (pin_cas_single_winner (length demo_inputs) 0 demo_sm demo_key1 (mkVersion 1) demo_c0
           (mkKeyState demo_c0 (mkVersion 2) [4; 1])
           (sm_feed demo_sm (In_op (Op_Pin demo_key1 (mkVersion 1) demo_c0)))).
  - vm_compute. reflexivity.
  - apply sm_feeds_run.
  - reflexivity.
  - apply (sm_feeds_run []).
Defined.

Lemma transition_moves_the_pin_witness :
  exists old pk, get demo_sm demo_key1 = Some old /\
    get demo_upgraded demo_key2 = Some (mkKeyState (ks_commitment old) (ks_version old) pk).
Proof.
  destruct (transition_moves_the_pin demo_sm demo_key1 demo_key2 [7] demo_c1
    (mkKeyState demo_c1 (mkVersion 1) [4; 2]) demo_upgraded eq_refl)
    as (old & pk & H1 & _ & H2 & H3 & _).
  exists old, pk. split; [exact H1|]. rewrite <-H3. exact H2.
Defined.

Lemma control_key_is_frozen_witness :
  ks_control_pubkey (mkKeyState demo_c1 (mkVersion 1) [4; 1]) = [4; 1].
Proof.
  destruct (control_key_is_frozen 3 3 (fold_left sm_feed (take 3 demo_inputs) sm_new)
    (fold_left sm_feed (drop 3 demo_inputs ++ [In_attestation demo_key1 [4; 99]])
       (fold_left sm_feed (take 3 demo_inputs) sm_new))
    demo_key1 (mkKeyState demo_c0 (mkVersion 0) [4; 1])
    (mkKeyState demo_c1 (mkVersion 1) [4; 1])) as [H _].
  - vm_compute. reflexivity.
  - apply (sm_feeds_run (take 3 demo_inputs)).
  - apply (sm_feeds_run (drop 3 demo_inputs ++ [In_attestation demo_key1 [4; 99]])).
  - reflexivity.
  - reflexivity.
  - exact H.
Defined.
