(* ===== verification/Ledger.v ===== *)
(** What the oracle promises, abstractly: a ledger of volumes.

    A volume has a history of commitments and the succession of keys that
    held its pin.  A ledger grants exactly four requests: creating a volume
    for an attested key it has never seen; appending a commitment to the
    volume whose holder names the current length of its history; handing a
    volume over to an attested key it has never seen, along an authorised and
    unrevoked link; recording a revocation for the holder of a volume.  Every
    other request is refused and changes nothing.

    The state machine of [synchronizer/src/lib.rs] simulates it: fed any
    sequence of inputs, the machine and the ledger give the same answers, one
    by one, and the machine's maps keep representing the ledger: the live
    slots are the current holder and the head of the history of each volume,
    the version counter is the length of the history, the retired set is the
    set of past holders. *)
From stdpp Require Import gmap sets list infinite.
From S2P Require Import Prelude StateMachine.
#[local] Open Scope Z_scope.

(** ** The specification *)

Record Volume := mkVolume {
  vol_holder : PcrKey;             (* current holder *)
  vol_control : bytes;             (* the holder's frozen control key *)
  vol_past : list PcrKey;          (* previous holders, latest first *)
  vol_latest : Commitment;         (* latest commitment *)
  vol_older : list Commitment;     (* superseded commitments, latest first *)
}.

Definition vol_holders (v : Volume) : list PcrKey := vol_holder v :: vol_past v.
Definition vol_version (v : Volume) : Version := mkVersion (Z.of_nat (length (vol_older v))).
Definition vol_state (v : Volume) : KeyState :=
  mkKeyState (vol_latest v) (vol_version v) (vol_control v).

Definition vol_create (k : PcrKey) (pk : bytes) (c : Commitment) : Volume := mkVolume k pk [] c [].
Definition vol_append (v : Volume) (c : Commitment) : Volume :=
  mkVolume (vol_holder v) (vol_control v) (vol_past v) c (vol_latest v :: vol_older v).
Definition vol_hand_over (v : Volume) (k : PcrKey) (pk : bytes) : Volume :=
  mkVolume k pk (vol_holders v) (vol_latest v) (vol_older v).

Definition known (vs : gmap nat Volume) (k : PcrKey) : Prop :=
  exists id v, vs !! id = Some v /\ k ∈ vol_holders v.

Record Ledger := mkLedger {
  led_volumes : gmap nat Volume;
  led_attested : gmap PcrKey bytes;          (* last attested control key *)
  led_authorised : gset (PcrKey * PcrKey);
  led_revoked : gset (PcrKey * bytes);
}.

Definition led_empty : Ledger := mkLedger ∅ ∅ ∅ ∅.

Definition set_volume (L : Ledger) (id : nat) (v : Volume) : Ledger :=
  mkLedger (<[id := v]> (led_volumes L)) (led_attested L) (led_authorised L) (led_revoked L).

(** The requests a ledger grants, with the state it reports. *)
Inductive grants (L : Ledger) : Op -> KeyState -> Ledger -> Prop :=
| grant_create id k c pk :
    led_volumes L !! id = None -> ~ known (led_volumes L) k -> led_attested L !! k = Some pk ->
    grants L (Op_Register k c) (vol_state (vol_create k pk c))
      (set_volume L id (vol_create k pk c))
| grant_append id v c :
    led_volumes L !! id = Some v ->
    grants L (Op_Pin (vol_holder v) (vol_version v) c) (vol_state (vol_append v c))
      (set_volume L id (vol_append v c))
| grant_hand_over id v k pk h :
    led_volumes L !! id = Some v -> ~ known (led_volumes L) k -> led_attested L !! k = Some pk ->
    (vol_holder v, k) ∈ led_authorised L -> (vol_holder v, h) ∉ led_revoked L ->
    grants L (Op_Transition (vol_holder v) k h (vol_latest v)) (vol_state (vol_hand_over v k pk))
      (set_volume L id (vol_hand_over v k pk))
| grant_revoke id v h :
    led_volumes L !! id = Some v ->
    grants L (Op_Revoke (vol_holder v) h) (vol_state v)
      (mkLedger (led_volumes L) (led_attested L) (led_authorised L)
         ({[ (vol_holder v, h) ]} ∪ led_revoked L)).

(** What the caller of one input sees. *)
Inductive Answer : Type :=
| Observed
| Granted (ks : KeyState)
| Refused.

(** One input of the ledger, with its answer. *)
Inductive ledger_step (L : Ledger) : sm_input -> Answer -> Ledger -> Prop :=
| ledger_attested k pk :
    ledger_step L (In_attestation k pk) Observed
      (mkLedger (led_volumes L) (<[k := pk]> (led_attested L)) (led_authorised L) (led_revoked L))
| ledger_authorised o n :
    ledger_step L (In_transition o n) Observed
      (mkLedger (led_volumes L) (led_attested L) ({[ (o, n) ]} ∪ led_authorised L)
         (led_revoked L))
| ledger_granted op ks L' : grants L op ks L' -> ledger_step L (In_op op) (Granted ks) L'
| ledger_refused op :
    (forall ks L', ~ grants L op ks L') -> ledger_step L (In_op op) Refused L.

Inductive ledger_run (L : Ledger) : list (sm_input * Answer) -> Ledger -> Prop :=
| ledger_run_nil : ledger_run L [] L
| ledger_run_cons i a t L1 L2 :
    ledger_step L i a L1 -> ledger_run L1 t L2 -> ledger_run L ((i, a) :: t) L2.

(** ** The machine's trace *)

Definition sm_answer (sm : StateMachine) (i : sm_input) : Answer :=
  match i with
  | In_op op => match (apply sm op).1 with Ok ks => Granted ks | Err _ => Refused end
  | _ => Observed
  end.

Fixpoint sm_trace (sm : StateMachine) (l : list sm_input) : list (sm_input * Answer) :=
  match l with
  | [] => []
  | i :: l => (i, sm_answer sm i) :: sm_trace (sm_feed sm i) l
  end.

(** ** The refinement relation *)

Record refines (sm : StateMachine) (L : gmap nat Volume) : Prop := {
  ref_slot : forall k ks, sm_state sm !! k = Some ks ->
    exists id v, L !! id = Some v /\ vol_holder v = k /\ ks = vol_state v;
  ref_volume : forall id v, L !! id = Some v -> is_Some (sm_state sm !! vol_holder v);
  ref_retired : forall k, k ∈ sm_retired sm <->
    exists id v, L !! id = Some v /\ k ∈ vol_past v;
  ref_unique : forall id1 id2 v1 v2 k, L !! id1 = Some v1 -> L !! id2 = Some v2 ->
    k ∈ vol_holders v1 -> k ∈ vol_holders v2 -> id1 = id2;
  ref_nodup : forall id v, L !! id = Some v -> NoDup (vol_holders v);
}.

(** The whole state of the machine represents the ledger. *)
Record implements (sm : StateMachine) (L : Ledger) : Prop := {
  imp_volumes : refines sm (led_volumes L);
  imp_attested : sm_attested sm = led_attested L;
  imp_authorised : sm_transition_authorizations sm = led_authorised L;
  imp_revoked : forall k h, is_revoked sm k h = true <-> (k, h) ∈ led_revoked L;
}.

Lemma ref_known sm L k :
  refines sm L -> known L k <-> is_Some (sm_state sm !! k) \/ k ∈ sm_retired sm.
Proof.
  intros R. split.
  - intros (id & v & H & [->|Hk]%elem_of_cons).
    + left. by apply (ref_volume _ _ R id).
    + right. apply (ref_retired _ _ R). eauto.
  - intros [[ks H]|H].
    + destruct (ref_slot _ _ R _ _ H) as (id & v & ? & <- & _). exists id, v.
      split; [done|]. apply elem_of_cons. by left.
    + apply (ref_retired _ _ R) in H as (id & v & ? & ?). exists id, v.
      split; [done|]. apply elem_of_cons. by right.
Qed.

Lemma refines_new : refines sm_new ∅.
Proof.
  split; simpl.
  - intros k ks H. by rewrite lookup_empty in H.
  - intros id v H. by rewrite lookup_empty in H.
  - intros k. split; [set_solver|]. intros (id & v & H & _). by rewrite lookup_empty in H.
  - intros id1 id2 v1 v2 k H. by rewrite lookup_empty in H.
  - intros id v H. by rewrite lookup_empty in H.
Qed.

(** The relation only looks at the live slots and the retired set. *)
Lemma refines_ext sm sm' L :
  sm_state sm' = sm_state sm -> sm_retired sm' = sm_retired sm ->
  refines sm L -> refines sm' L.
Proof. intros Hs Hr []. split; rewrite ?Hs, ?Hr; auto. Qed.

(** Two volumes of a refined ledger that share a holder are the same. *)
Lemma ref_other sm L id id' v v' k :
  refines sm L -> L !! id = Some v -> L !! id' = Some v' ->
  k ∈ vol_holders v -> k ∈ vol_holders v' -> id' = id /\ v' = v.
Proof.
  intros R H H' Hk Hk'. assert (id' = id) as -> by eauto using ref_unique.
  naive_solver.
Qed.

(** ** One step of the machine is one step of the ledger *)

Lemma refines_create sm L k c pk :
  refines sm L -> sm_state sm !! k = None -> (k ∉ sm_retired sm) ->
  exists id, L !! id = None /\ ~ known L k /\
    refines (with_state sm (<[k := vol_state (vol_create k pk c)]> (sm_state sm)))
      (<[id := vol_create k pk c]> L).
Proof.
  intros R Hn Hr.
  assert (Hk : ~ known L k). { rewrite (ref_known _ _ _ R), Hn. intros [[]|]; done. }
  exists (fresh (dom L)). pose proof (is_fresh (dom L)) as Hid. apply not_elem_of_dom in Hid.
  split_and!; try done. set (id := fresh (dom L)) in *. split; simpl.
  - intros k' ks'. rewrite lookup_insert. case_decide; intros; simplify_eq.
    + eexists id, _. rewrite lookup_insert_eq. split; [done|]. simpl. auto.
    + destruct (ref_slot _ _ R _ _ H0) as (id' & v & Hv' & ?). exists id', v.
      rewrite lookup_insert_ne by congruence. auto.
  - intros id' v. rewrite lookup_insert. case_decide; intros; simplify_eq; simpl.
    + rewrite lookup_insert_eq; eauto.
    + rewrite lookup_insert. case_decide; eauto using ref_volume.
  - intros k'. rewrite (ref_retired _ _ R). split.
    + intros (id' & v & ? & ?). exists id', v. rewrite lookup_insert_ne by congruence. auto.
    + intros (id' & v & H & Hin). rewrite lookup_insert in H.
      case_decide; simplify_eq; [set_solver|eauto].
  - intros id1 id2 v1 v2 k'. rewrite !lookup_insert.
    repeat case_decide; intros; simplify_eq; auto.
    + exfalso. apply Hk. exists id2, v2. split; [done|]. set_solver.
    + exfalso. apply Hk. exists id1, v1. split; [done|]. set_solver.
    + eauto using ref_unique.
  - intros id' v. rewrite lookup_insert. case_decide; intros; simplify_eq; [|eauto using ref_nodup].
    apply NoDup_singleton.
Qed.

Lemma refines_append sm L id v c :
  refines sm L -> L !! id = Some v ->
  refines (with_state sm (<[vol_holder v := vol_state (vol_append v c)]> (sm_state sm)))
    (<[id := vol_append v c]> L).
Proof.
  intros R Hid. split; simpl.
  - intros k' ks'. rewrite lookup_insert. case_decide; intros; simplify_eq.
    + eexists id, _. rewrite lookup_insert_eq. split; [done|]. auto.
    + destruct (ref_slot _ _ R _ _ H0) as (id' & v' & Hv' & ? & ?). exists id', v'.
      rewrite lookup_insert_ne by congruence. auto.
  - intros id' v'. rewrite !lookup_insert. repeat case_decide; intros; simplify_eq; eauto using ref_volume.
  - intros k'. rewrite (ref_retired _ _ R). split.
    + intros (id' & v' & Hv' & Hin). exists id'. rewrite lookup_insert.
      case_decide; simplify_eq; eauto.
    + intros (id' & v' & H & Hin). rewrite lookup_insert in H.
      case_decide; simplify_eq; eauto.
  - intros id1 id2 v1 v2 k'. rewrite !lookup_insert.
    repeat case_decide; intros; simplify_eq; eauto using ref_unique.
  - intros id' v'. rewrite lookup_insert. case_decide; intros; simplify_eq; [|eauto using ref_nodup].
    apply (ref_nodup _ _ R id' v Hid).
Qed.

Lemma refines_hand_over sm L id v k pk :
  refines sm L -> L !! id = Some v -> ~ known L k ->
  refines (mkStateMachine
             (<[k := vol_state (vol_hand_over v k pk)]> (delete (vol_holder v) (sm_state sm)))
             (sm_attested sm) (sm_transition_authorizations sm)
             ({[ vol_holder v ]} ∪ sm_retired sm) (sm_revoked_links sm))
    (<[id := vol_hand_over v k pk]> L).
Proof.
  intros R Hid Hk.
  assert (Hheld : vol_holder v ∈ vol_holders v) by (apply elem_of_cons; by left).
  split; simpl.
  - intros k' ks'. rewrite lookup_insert. case_decide; intros; simplify_eq.
    + eexists id, _. rewrite lookup_insert_eq. split; done.
    + rewrite lookup_delete in *. case_decide; [done|].
      destruct (ref_slot _ _ R _ _ H0) as (id' & v' & Hv' & ? & ?). exists id', v'.
      rewrite lookup_insert_ne by naive_solver. auto.
  - intros id' v'. rewrite lookup_insert. case_decide; intros; simplify_eq; simpl.
    + rewrite lookup_insert_eq. eauto.
    + rewrite lookup_insert. case_decide; [eauto|].
      rewrite lookup_delete_ne; [by eapply ref_volume|]. intros Heq.
      destruct (ref_other sm L id id' v v' (vol_holder v') R) as [? _]; auto.
      { by rewrite <-Heq. }
      apply elem_of_cons. by left.
  - intros k'. rewrite elem_of_union, elem_of_singleton, (ref_retired _ _ R). split.
    + intros [->|(id' & v' & Hv' & Hin)].
      * eexists id, _. rewrite lookup_insert_eq. split; done.
      * exists id'. rewrite lookup_insert. case_decide; simplify_eq; [|eauto].
        eexists. split; [done|]. simpl. apply elem_of_cons. by right.
    + intros (id' & v' & H & Hin). rewrite lookup_insert in H.
      case_decide; simplify_eq; [|eauto]. simpl in Hin.
      apply elem_of_cons in Hin as [->|Hin]; [by left|]. right. eauto.
  - assert (Hnew : forall id' v', L !! id' = Some v' -> k ∈ vol_holders v' -> False).
    { intros id' v' ? ?. apply Hk. by exists id', v'. }
    intros id1 id2 v1 v2 k'. rewrite !lookup_insert.
    repeat case_decide; intros; simplify_eq; auto.
    + match goal with H : _ ∈ vol_holders (vol_hand_over _ _ _) |- _ =>
        apply elem_of_cons in H as [->|H] end; [naive_solver|eauto using ref_unique].
    + match goal with H : _ ∈ vol_holders (vol_hand_over _ _ _) |- _ =>
        apply elem_of_cons in H as [->|H] end; [naive_solver|eauto using ref_unique].
    + eauto using ref_unique.
  - intros id' v'. rewrite lookup_insert. case_decide; intros; simplify_eq; [|eauto using ref_nodup].
    apply NoDup_cons. split; [|by eapply ref_nodup]. simpl.
    intros Hin. apply Hk. by exists id', v.
Qed.

(** ** One input of the machine is one step of the ledger *)

Lemma implements_new : implements sm_new led_empty.
Proof. split; try done. apply refines_new. Qed.

(** The volume behind a live slot. *)
Lemma imp_holder sm L k ks :
  implements sm L -> sm_state sm !! k = Some ks ->
  exists id v, led_volumes L !! id = Some v /\ k = vol_holder v /\ ks = vol_state v.
Proof. intros I H. destruct (ref_slot _ _ (imp_volumes _ _ I) _ _ H) as (id & v & ? & <- & ->). eauto. Qed.

Lemma imp_slot sm L id v :
  implements sm L -> led_volumes L !! id = Some v ->
  sm_state sm !! vol_holder v = Some (vol_state v) /\ vol_holder v ∉ sm_retired sm.
Proof.
  intros I H. pose proof (imp_volumes _ _ I) as R.
  destruct (ref_volume _ _ R _ _ H) as [ks Hks].
  destruct (ref_slot _ _ R _ _ Hks) as (id' & v' & H' & Hh & ->).
  assert (Hin : vol_holder v ∈ vol_holders v) by (apply elem_of_cons; by left).
  destruct (ref_other _ _ id id' v v' (vol_holder v) R H H' Hin) as [-> ->].
  { apply elem_of_cons. by left. }
  split; [done|]. intros Hr. apply (ref_retired _ _ R) in Hr as (id2 & v2 & H2 & Hp).
  destruct (ref_other _ _ id id2 v v2 (vol_holder v) R H H2 Hin) as [-> ->].
  { apply elem_of_cons. by right. }
  pose proof (ref_nodup _ _ R _ _ H) as Hnd. by apply NoDup_cons in Hnd as [? _].
Qed.

Lemma imp_unknown sm L k :
  implements sm L ->
  ~ known (led_volumes L) k <-> sm_state sm !! k = None /\ k ∉ sm_retired sm.
Proof.
  intros I. rewrite (ref_known _ _ _ (imp_volumes _ _ I)), eq_None_not_Some. tauto.
Qed.

Lemma imp_unrevoked sm L k h :
  implements sm L -> is_revoked sm k h = false <-> (k, h) ∉ led_revoked L.
Proof. intros I. rewrite <-(imp_revoked _ _ I). by destruct (is_revoked sm k h). Qed.

(** A pin of a slot below the end of the counter appends without wrapping. *)
Lemma pinned_version v c b :
  Z.of_nat (length (vol_older v)) <= b -> b < 2 ^ 64 - 1 ->
  mkKeyState c (mkVersion (u64_add (Version_0 (vol_version v)) 1)) (vol_control v)
  = vol_state (vol_append v c).
Proof.
  intros. unfold vol_state, vol_version. simpl. rewrite u64_add_small by lia.
  do 2 f_equal. lia.
Qed.

(** What the machine accepts, the ledger grants with the same answer. *)
Lemma applied_granted sm L op ks sm' b :
  implements sm L -> b < 2 ^ 64 - 1 ->
  (forall k ks, sm_state sm !! k = Some ks -> 0 <= Version_0 (ks_version ks) <= b) ->
  applied_spec sm op ks sm' -> exists L', grants L op ks L' /\ implements sm' L'.
Proof.
  intros I Hb Hver Hop. pose proof (imp_volumes _ _ I) as R. destruct op; simpl in Hop.
  - destruct Hop as (pk & Ha & Hn & Hr & -> & ->).
    destruct (refines_create sm _ key commitment pk R Hn Hr) as (id & Hid & Hk & R').
    eexists. split; [eapply (grant_create L id); eauto; by rewrite <-(imp_attested _ _ I)|].
    by destruct I; split.
  - destruct Hop as (old & Ho & <- & -> & ->). pose proof (Hver _ _ Ho) as Hv.
    destruct (imp_holder _ _ _ _ I Ho) as (id & v & Hid & -> & ->). simpl in *.
    pose proof (pinned_version v commitment b ltac:(lia) Hb) as Hp. simpl in Hp. rewrite Hp.
    eexists. split; [by apply (grant_append L id)|].
    pose proof (refines_append sm _ id v commitment R Hid). by destruct I; split.
  - destruct Hop as (old & pk & Hne & Ho & <- & Hrev & Hn & Hr & Ha & Hauth & -> & ->).
    destruct (imp_holder _ _ _ _ I Ho) as (id & v & Hid & -> & ->). simpl.
    assert (Hk : ~ known (led_volumes L) new_key) by (by apply (imp_unknown sm)).
    eexists. split.
    + eapply (grant_hand_over L id v new_key pk); eauto.
      * by rewrite <-(imp_attested _ _ I).
      * by rewrite <-(imp_authorised _ _ I).
      * by apply (imp_unrevoked sm).
    + pose proof (refines_hand_over sm _ id v new_key pk R Hid Hk). by destruct I; split.
  - destruct Hop as (_ & Ho & ->).
    destruct (imp_holder _ _ _ _ I Ho) as (id & v & Hid & -> & ->).
    eexists. split; [by apply (grant_revoke L id)|]. split; simpl; try by apply I.
    + by apply (refines_ext sm).
    + intros k h. rewrite is_revoked_insert, orb_true_iff, bool_decide_eq_true, (imp_revoked _ _ I).
      set_solver.
Qed.

(** What the ledger grants, the machine accepts. *)
Lemma granted_applied sm L op ks L' b :
  implements sm L -> b < 2 ^ 64 - 1 ->
  (forall k ks, sm_state sm !! k = Some ks -> 0 <= Version_0 (ks_version ks) <= b) ->
  grants L op ks L' -> exists sm', applied_spec sm op ks sm'.
Proof.
  intros I Hb Hver [id k c pk Hid Hk Ha|id v c Hid|id v k pk h Hid Hk Ha Hauth Hrev|id v h Hid].
  - apply (imp_unknown sm) in Hk as [Hn Hr]; [|done]. rewrite <-(imp_attested _ _ I) in Ha.
    eexists. simpl. exists pk. eauto 10.
  - destruct (imp_slot _ _ _ _ I Hid) as [Ho _]. pose proof (Hver _ _ Ho) as Hv. simpl in Hv.
    eexists. simpl. exists (vol_state v). split_and!; [done|done| |done].
    symmetry. apply (pinned_version v c b); lia.
  - destruct (imp_slot _ _ _ _ I Hid) as [Ho _].
    apply (imp_unknown sm) in Hk as [Hn Hr]; [|done].
    eexists. simpl. exists (vol_state v), pk. split_and!; try done.
    + intros Heq. rewrite <-Heq, Ho in Hn. done.
    + by apply (imp_unrevoked _ _ _ _ I).
    + by rewrite (imp_attested _ _ I).
    + by rewrite (imp_authorised _ _ I).
  - destruct (imp_slot _ _ _ _ I Hid) as [Ho Hr]. eexists. simpl. eauto.
Qed.

Lemma sm_feed_simulated sm L i b :
  implements sm L -> b < 2 ^ 64 - 1 ->
  (forall k ks, sm_state sm !! k = Some ks -> 0 <= Version_0 (ks_version ks) <= b) ->
  exists L', ledger_step L i (sm_answer sm i) L' /\ implements (sm_feed sm i) L'.
Proof.
  intros I Hb Hver. destruct i as [k pk|o n|op]; simpl.
  - eexists. split; [constructor|]. destruct I as [R Ha Hu Hr]. split; simpl; try done.
    + by apply (refines_ext sm).
    + by rewrite Ha.
  - eexists. split; [constructor|]. destruct I as [R Ha Hu Hr]. split; simpl; try done.
    + by apply (refines_ext sm).
    + by rewrite Hu.
  - destruct (apply sm op) as [[ks|e] sm'] eqn:E; simpl.
    + apply apply_Ok in E. destruct (applied_granted sm L op ks sm' b I Hb Hver E) as (L' & ? & ?).
      exists L'. split; [by constructor|done].
    + exists L. split; [|by apply apply_Err in E as ->]. constructor. intros ks L' Hg.
      destruct (granted_applied sm L op ks L' b I Hb Hver Hg) as [sm2 Hs].
      apply apply_Ok_complete in Hs. congruence.
Qed.

Lemma sm_trace_simulated l : forall n sm L,
  Z.of_nat (n + length l) < 2 ^ 64 -> sm_run n sm_new sm -> implements sm L ->
  exists L', ledger_run L (sm_trace sm l) L' /\ implements (fold_left sm_feed l sm) L'.
Proof.
  induction l as [|i l IH]; intros n sm L Hn Hrun I; simpl in *.
  { exists L. split; [constructor|done]. }
  destruct (sm_feed_simulated sm L i (Z.of_nat n) I ltac:(lia)) as (L1 & Hs & I1).
  { apply sm_run_version_bound; [lia|done]. }
  destruct (IH (S n) (sm_feed sm i) L1 ltac:(lia)) as (L2 & Hr & I2); auto.
  { eapply nsteps_r; [exact Hrun|constructor]. }
  exists L2. split; [by econstructor|done].
Qed.

(** C5: the oracle simulates the volume ledger, input by input.  Fed any
    sequence of fewer than 2^64 attestations, observed links and requests,
    the machine answers each one exactly as the ledger does: it grants what
    the ledger grants, with the ledger's commitment, history length and
    control key, refuses what no ledger grants, and ends in a state that
    represents the ledger reached (live slots, retired keys, attestations,
    authorisations and revocations).  So a pin is accepted only at the
    current length of one volume's history and extends it by one, and a key
    never belongs to two volumes. *)
Theorem oracle_refines_ledger l :
  Z.of_nat (length l) < 2 ^ 64 ->
  exists L, ledger_run led_empty (sm_trace sm_new l) L /\
    implements (fold_left sm_feed l sm_new) L.
Proof.
  intros H. apply (sm_trace_simulated l 0); [done|constructor|apply implements_new].
Qed.

(** A run with every kind of answer: the stale pin and the pin by the retired
    key are refused. *)
Definition demo_ledger_inputs : list sm_input :=
  demo_inputs ++
  [ In_op (Op_Pin demo_key1 (mkVersion 0) demo_c0);
    In_op (Op_Transition demo_key1 demo_key2 [7] demo_c1);
    In_op (Op_Pin demo_key1 (mkVersion 1) demo_c0);
    In_op (Op_Revoke demo_key2 [8]) ].

Lemma oracle_refines_ledger_witness :
  map snd (sm_trace sm_new demo_ledger_inputs)
  = [Observed; Observed; Granted (mkKeyState demo_c0 (mkVersion 0) [4; 1]);
     Granted (mkKeyState demo_c1 (mkVersion 1) [4; 1]); Observed; Refused;
     Granted (mkKeyState demo_c1 (mkVersion 1) [4; 2]); Refused;
     Granted (mkKeyState demo_c1 (mkVersion 1) [4; 2])] /\
  exists L, ledger_run led_empty (sm_trace sm_new demo_ledger_inputs) L /\
    implements (fold_left sm_feed demo_ledger_inputs sm_new) L.
Proof.
  split; [vm_compute; reflexivity|].
  apply (oracle_refines_ledger demo_ledger_inputs). vm_compute. reflexivity.
Defined.
