(* ===== verification/Store.v ===== *)
(** Replicated storage of the oracle ([synchronizer/src/raft/store.rs] and the
    log entry types of [synchronizer/src/raft/mod.rs]).

    [LogStoreInner] is the in-memory Raft log; [StateMachineStore] feeds each
    committed entry into the pure state machine and takes and installs
    snapshots.  The consensus library (openraft), its log ids and membership
    type, and the CBOR codec are parameters of the section.

    The results: the log store keeps a contiguous window of entries, and all
    replicas that have applied the same prefix of the committed log, whether by
    replay or from a snapshot, hold the same state machine. *)
From stdpp Require Import gmap sets list sorting.
From S2P Require Import Prelude StateMachine.
#[local] Open Scope Z_scope.

(** The replicated log entry: the conclusions the leader verified. *)
Inductive ReplicatedOp : Type :=
| RO_Register (key : PcrKey) (commitment : Commitment) (control_pubkey : bytes)
| RO_Pin (key : PcrKey) (expected_version : Version) (commitment : Commitment)
| RO_Transition (old_key new_key : PcrKey) (new_control_pubkey : bytes) (link_hash : bytes)
    (valid_until_ms : Z) (commitment : Commitment)
| RO_Revoke (key : PcrKey) (link_hash : bytes).

Inductive ReplicatedOpResult : Type :=
| RR_Applied (state : KeyState)
| RR_Rejected (e : ValidationError).

#[global] Instance ReplicatedOpResult_eq_dec : EqDecision ReplicatedOpResult.
Proof. solve_decision. Defined.

(** [control_pubkey_bytes::deserialize]: a byte string of exactly 65 bytes. *)
Definition deserialize_control_pubkey (buf : bytes) : option bytes :=
  if decide (length buf = CONTROL_PUBKEY_LEN) then Some buf else None.

(** [StateMachineStore::apply_one]. *)
Definition apply_one (sm : StateMachine) (op : ReplicatedOp) : ReplicatedOpResult * StateMachine :=
  let '(r, sm') :=
    match op with
    | RO_Register key commitment control_pubkey =>
        apply (observe_attestation sm key control_pubkey) (Op_Register key commitment)
    | RO_Pin key expected_version commitment =>
        apply sm (Op_Pin key expected_version commitment)
    | RO_Transition old_key new_key new_control_pubkey link_hash _ commitment =>
        let sm1 := observe_attestation sm new_key new_control_pubkey in
        let sm2 := observe_transition sm1 old_key new_key in
        apply sm2 (Op_Transition old_key new_key link_hash commitment)
    | RO_Revoke key link_hash => apply sm (Op_Revoke key link_hash)
    end in
  (match r with Ok state => RR_Applied state | Err e => RR_Rejected e end, sm').

(** Replaying one entry is a run of the machine of at most three inputs. *)
Definition inputs_of (op : ReplicatedOp) : list sm_input :=
  match op with
  | RO_Register key c pk => [In_attestation key pk; In_op (Op_Register key c)]
  | RO_Pin key v c => [In_op (Op_Pin key v c)]
  | RO_Transition o n pk h _ c =>
      [In_attestation n pk; In_transition o n; In_op (Op_Transition o n h c)]
  | RO_Revoke key h => [In_op (Op_Revoke key h)]
  end.

Lemma apply_one_feeds sm op : (apply_one sm op).2 = fold_left sm_feed (inputs_of op) sm.
Proof.
  unfold apply_one, inputs_of; destruct op; simpl;
    repeat match goal with |- context [let '(_, _) := ?x in _] => destruct x eqn:? end; done.
Qed.

Lemma inputs_of_length op : (1 <= length (inputs_of op) <= 3)%nat.
Proof. destruct op; simpl; lia. Qed.

(** ** Ordered maps from log indices *)

(** [BTreeMap::range(..).collect()], the range as a predicate on keys. *)
Definition map_range {A} (m : gmap Z A) (in_range : Z -> bool) : list A :=
  omap (fun k => m !! k) (filter (fun k => in_range k = true) (sorted_keys m)).

Definition remove_keys {A} (m : gmap Z A) (p : Z -> bool) : gmap Z A :=
  filter (fun kv => p kv.1 = false) m.

Lemma remove_keys_lookup {A} (m : gmap Z A) p k :
  remove_keys m p !! k = if p k then None else m !! k.
Proof.
  unfold remove_keys. destruct (m !! k) eqn:E.
  - destruct (p k) eqn:P.
    + apply map_lookup_filter_None. right. intros x Hx. simpl. congruence.
    + apply map_lookup_filter_Some. by split.
  - destruct (p k); apply map_lookup_filter_None; by left.
Qed.

Section Store.
(** openraft's log id with its index and order, its vote and membership. *)
Context {LogId Vote Membership : Type}.
Context (log_index : LogId -> Z) (log_id_le : LogId -> LogId -> bool).

Inductive EntryPayload : Type :=
| EP_Blank
| EP_Normal (op : ReplicatedOp)
| EP_Membership (mem : Membership).

Record Entry := mkEntry { entry_log_id : LogId; entry_payload : EntryPayload }.

(** ** The log store *)

Record LogStoreInner := mkLogStoreInner {
  ls_last_purged_log_id : option LogId;
  ls_log : gmap Z Entry;
  ls_committed : option LogId;
  ls_vote : option Vote;
}.

Definition log_store_default : LogStoreInner := mkLogStoreInner None ∅ None None.

Definition try_get_log_entries (ls : LogStoreInner) (in_range : Z -> bool) : list Entry :=
  map_range (ls_log ls) in_range.

(** [(last_purged_log_id, last_log_id)]. *)
Definition get_log_state (ls : LogStoreInner) : option LogId * option LogId :=
  let last := match last (sorted_keys (ls_log ls)) with
              | Some k => entry_log_id <$> ls_log ls !! k
              | None => None
              end in
  (ls_last_purged_log_id ls,
   match last with None => ls_last_purged_log_id ls | Some x => Some x end).

Definition ls_append (ls : LogStoreInner) (entries : list Entry) : LogStoreInner :=
  mkLogStoreInner (ls_last_purged_log_id ls)
    (fold_left (fun m e => <[log_index (entry_log_id e) := e]> m) entries (ls_log ls))
    (ls_committed ls) (ls_vote ls).

Definition ls_truncate (ls : LogStoreInner) (log_id : LogId) : LogStoreInner :=
  mkLogStoreInner (ls_last_purged_log_id ls)
    (remove_keys (ls_log ls) (fun k => log_index log_id <=? k))
    (ls_committed ls) (ls_vote ls).

(** [None] is the panic of the monotonicity assertion. *)
Definition ls_purge (ls : LogStoreInner) (log_id : LogId) : option LogStoreInner :=
  if (match ls_last_purged_log_id ls with
      | None => true
      | Some p => log_id_le p log_id
      end)
  then Some (mkLogStoreInner (Some log_id)
               (remove_keys (ls_log ls) (fun k => k <=? log_index log_id))
               (ls_committed ls) (ls_vote ls))
  else None.

Definition save_committed (ls : LogStoreInner) (committed : option LogId) : LogStoreInner :=
  mkLogStoreInner (ls_last_purged_log_id ls) (ls_log ls) committed (ls_vote ls).
Definition read_committed (ls : LogStoreInner) : option LogId := ls_committed ls.
Definition save_vote (ls : LogStoreInner) (vote : Vote) : LogStoreInner :=
  mkLogStoreInner (ls_last_purged_log_id ls) (ls_log ls) (ls_committed ls) (Some vote).
Definition read_vote (ls : LogStoreInner) : option Vote := ls_vote ls.

(** ** The state machine store *)

(** CBOR of a [StateMachineSnapshot]. *)
Context (encode_snapshot : StateMachineSnapshot -> bytes).
Context (decode_snapshot : bytes -> option StateMachineSnapshot).

Record SnapshotMeta := mkSnapshotMeta {
  meta_last_log_id : option LogId;
  meta_last_membership : option (LogId * Membership);
  meta_snapshot_id : option LogId * Z;
}.

Record StoredSnapshot := mkStoredSnapshot { stored_meta : SnapshotMeta; stored_data : bytes }.

Record StateMachineStore := mkStore {
  st_sm : StateMachine;
  st_last_applied_log : option LogId;
  st_last_membership : option (LogId * Membership);
  st_snapshot_idx : Z;
  st_current_snapshot : option StoredSnapshot;
  st_live_keys : Z;
  st_retired_keys : Z;
  st_snapshot_bytes : Z;
}.

Definition store_default : StateMachineStore := mkStore sm_new None None 0 None 0 0 0.

(** [StateMachineStore::stats]. *)
Definition stats (st : StateMachineStore) : Z * Z * option Z :=
  (st_live_keys st, st_retired_keys st,
   if decide (st_snapshot_bytes st = 0) then None else Some (st_snapshot_bytes st)).

(** What a blank or membership entry answers. *)
Definition zero_state : KeyState :=
  mkKeyState (mkCommitment (replicate 32 0)) (mkVersion 0) (replicate CONTROL_PUBKEY_LEN 0).

(** One entry of the loop in [RaftStateMachine::apply]: the machine and the
    applied bookkeeping, then the results and the applied transitions. *)
Definition apply_entry
    (acc : StateMachine * option LogId * option (LogId * Membership)
           * list ReplicatedOpResult * list (PcrKey * PcrKey * Z))
    (entry : Entry)
    : StateMachine * option LogId * option (LogId * Membership)
      * list ReplicatedOpResult * list (PcrKey * PcrKey * Z) :=
  let '(sm, _, mem, results, late) := acc in
  let applied := Some (entry_log_id entry) in
  match entry_payload entry with
  | EP_Blank => (sm, applied, mem, results ++ [RR_Applied zero_state], late)
  | EP_Normal op =>
      let '(result, sm') := apply_one sm op in
      let late' := match op, result with
                   | RO_Transition old_key new_key _ _ valid_until_ms _, RR_Applied _ =>
                       late ++ [(old_key, new_key, valid_until_ms)]
                   | _, _ => late
                   end in
      (sm', applied, mem, results ++ [result], late')
  | EP_Membership m =>
      (sm, applied, Some (entry_log_id entry, m), results ++ [RR_Applied zero_state], late)
  end.

(** [RaftStateMachine::apply]: the new store, the results and the applied
    transitions handed to [check_transition_deadlines]. *)
Definition store_apply (st : StateMachineStore) (entries : list Entry)
    : StateMachineStore * list ReplicatedOpResult * list (PcrKey * PcrKey * Z) :=
  let '(sm, applied, mem, results, late) :=
    fold_left apply_entry entries
      (st_sm st, st_last_applied_log st, st_last_membership st, [], []) in
  (mkStore sm applied mem (st_snapshot_idx st) (st_current_snapshot st)
     (Z.of_nat (head_len sm)) (Z.of_nat (retired_len sm)) (st_snapshot_bytes st),
   results, late).

Definition build_snapshot (st : StateMachineStore) : StateMachineStore * StoredSnapshot :=
  let data := encode_snapshot (snapshot (st_sm st)) in
  let snapshot_idx := u64_add (st_snapshot_idx st) 1 in
  let meta := mkSnapshotMeta (st_last_applied_log st) (st_last_membership st)
                (st_last_applied_log st, snapshot_idx) in
  let s := mkStoredSnapshot meta data in
  (mkStore (st_sm st) (st_last_applied_log st) (st_last_membership st) snapshot_idx (Some s)
     (st_live_keys st) (st_retired_keys st) (Z.of_nat (length data)), s).

(** [None]: the blob does not decode and the store is left unchanged. *)
Definition install_snapshot (st : StateMachineStore) (meta : SnapshotMeta) (data : bytes)
    : option StateMachineStore :=
  match decode_snapshot data with
  | None => None
  | Some restored =>
      let sm := restore_from_snapshot (st_sm st) restored in
      Some (mkStore sm (meta_last_log_id meta) (meta_last_membership meta)
              (st_snapshot_idx st) (Some (mkStoredSnapshot meta data))
              (Z.of_nat (head_len sm)) (Z.of_nat (retired_len sm))
              (Z.of_nat (length data)))
  end.

Definition get_current_snapshot (st : StateMachineStore) : option StoredSnapshot :=
  st_current_snapshot st.

Definition store_get (st : StateMachineStore) (key : PcrKey) : option KeyState :=
  get (st_sm st) key.

(** [applied_state]. *)
Definition applied_state (st : StateMachineStore) : option LogId * option (LogId * Membership) :=
  (st_last_applied_log st, st_last_membership st).

(** ** The log window *)

(** The log holds exactly the indices [lo, hi), each entry under its own
    index: what openraft relies on when it reads a range back. *)
Definition log_window (ls : LogStoreInner) (lo hi : Z) : Prop :=
  (forall k, is_Some (ls_log ls !! k) <-> lo <= k < hi) /\
  (forall k e, ls_log ls !! k = Some e -> log_index (entry_log_id e) = k).

(** Entries with consecutive indices from [i]. *)
Definition consecutive (i : Z) (es : list Entry) : Prop :=
  forall j e, es !! j = Some e -> log_index (entry_log_id e) = i + Z.of_nat j.

Lemma consecutive_cons i e es :
  consecutive i (e :: es) <-> log_index (entry_log_id e) = i /\ consecutive (i + 1) es.
Proof.
  split.
  - intros H. split; [specialize (H 0%nat e eq_refl); lia|].
    intros j e' He. specialize (H (S j) e' He). lia.
  - intros [H0 H] [|j] e' He; simpl in He; simplify_eq; [lia|].
    specialize (H j e' He). lia.
Qed.

Lemma ls_append_cons ls e es :
  ls_append ls (e :: es) =
  ls_append (mkLogStoreInner (ls_last_purged_log_id ls)
               (<[log_index (entry_log_id e) := e]> (ls_log ls))
               (ls_committed ls) (ls_vote ls)) es.
Proof. done. Qed.

(** Appending at the end of the window extends it; appending from inside it
    overwrites the entries there. *)
Lemma ls_append_window ls lo hi i es :
  log_window ls lo hi -> lo <= i <= hi -> consecutive i es ->
  log_window (ls_append ls es) lo (Z.max hi (i + Z.of_nat (length es))).
Proof.
  revert ls hi i. induction es as [|e es IH]; intros ls hi i HW Hi Hc.
  - cbn [length]. rewrite Z.max_l by lia. by destruct ls.
  - apply consecutive_cons in Hc as [He Hc]. rewrite ls_append_cons.
    replace (Z.max hi (i + Z.of_nat (length (e :: es))))
      with (Z.max (Z.max hi (i + 1)) (i + 1 + Z.of_nat (length es)))
      by (cbn [length]; lia).
    apply IH; [|lia|done]. destruct HW as [Hd Hix]. split; simpl.
    + intros k. rewrite lookup_insert, He. case_decide; subst; [split; [lia|eauto]|].
      rewrite Hd. lia.
    + intros k e'. rewrite lookup_insert, He. case_decide; intros; simplify_eq; auto.
Qed.

Lemma ls_truncate_window ls lo hi log_id :
  log_window ls lo hi ->
  log_window (ls_truncate ls log_id) lo (Z.min hi (log_index log_id)).
Proof.
  intros [Hd Hix]. split; simpl; intros k.
  - rewrite remove_keys_lookup. destruct (Z.leb_spec (log_index log_id) k).
    + split; [by intros []|lia].
    + rewrite Hd. lia.
  - intros e. rewrite remove_keys_lookup. destruct (_ <=? k); [done|apply Hix].
Qed.

Lemma ls_purge_window ls lo hi log_id ls' :
  log_window ls lo hi -> ls_purge ls log_id = Some ls' ->
  log_window ls' (Z.max lo (log_index log_id + 1)) hi /\
  ls_last_purged_log_id ls' = Some log_id.
Proof.
  intros [Hd Hix]. unfold ls_purge.
  destruct (match ls_last_purged_log_id ls with
            | None => true | Some p => log_id_le p log_id end); [|done].
  intros [= <-]. split; [|done]. split; simpl; intros k.
  - rewrite remove_keys_lookup. destruct (Z.leb_spec k (log_index log_id)).
    + split; [by intros []|lia].
    + rewrite Hd. lia.
  - intros e. rewrite remove_keys_lookup. destruct (k <=? _); [done|apply Hix].
Qed.

(** ** Replicas *)

(** The machine after the committed entries [es], by replay alone. *)
Definition replay_one (sm : StateMachine) (e : Entry) : StateMachine :=
  match entry_payload e with EP_Normal op => (apply_one sm op).2 | _ => sm end.
Definition replay (es : list Entry) : StateMachine := fold_left replay_one es sm_new.
Definition last_applied (es : list Entry) : option LogId := entry_log_id <$> last es.
Definition membership_one (mem : option (LogId * Membership)) (e : Entry) :=
  match entry_payload e with EP_Membership m => Some (entry_log_id e, m) | _ => mem end.
Definition last_membership (es : list Entry) : option (LogId * Membership) :=
  fold_left membership_one es None.

(** A replica's life against one committed log: batches of the next entries,
    snapshots built, snapshots of other replicas installed.  The indices are
    the number of entries its state covers and the number its stored
    snapshot covers. *)
Inductive replica (log : list Entry) : StateMachineStore -> nat -> option nat -> Prop :=
| replica_start : replica log store_default 0 None
| replica_apply st n s k :
    replica log st n s -> (n + k <= length log)%nat ->
    replica log (store_apply st (slice log n (n + k))).1.1 (n + k) s
| replica_build st n s :
    replica log st n s -> replica log (build_snapshot st).1 n (Some n)
| replica_install st n s src m j snap st' :
    replica log st n s -> replica log src m (Some j) ->
    st_current_snapshot src = Some snap ->
    install_snapshot st (stored_meta snap) (stored_data snap) = Some st' ->
    replica log st' j (Some j).

Lemma fold_apply_entry es sm la mem rs late :
  exists rs' late',
    fold_left apply_entry es (sm, la, mem, rs, late) =
    (fold_left replay_one es sm, from_option (Some ∘ entry_log_id) la (last es),
     fold_left membership_one es mem, rs ++ rs', late') /\ length rs' = length es.
Proof.
  revert sm la mem rs late.
  induction es as [|e es IH]; intros sm la mem rs late; cbn [fold_left].
  { exists [], late. by rewrite app_nil_r. }
  assert (Hlast : forall o, from_option (Some ∘ entry_log_id) o (last (e :: es)) =
                  from_option (Some ∘ entry_log_id) (Some (entry_log_id e)) (last es)).
  { intros o. rewrite last_cons. by destruct (last es). }
  rewrite Hlast.
  unfold_call (apply_entry (sm, la, mem, rs, late) e) apply_entry.
  unfold_call (replay_one sm e) replay_one. unfold_call (membership_one mem e) membership_one.
  destruct (entry_payload e) as [|op|m].
  - destruct (IH sm (Some (entry_log_id e)) mem (rs ++ [RR_Applied zero_state]) late)
      as (rs' & late' & -> & Hl). eexists (_ :: rs'), late'. rewrite <-app_assoc. simpl. auto.
  - destruct (apply_one sm op) as [r sm'] eqn:E. simpl.
    edestruct (IH sm' (Some (entry_log_id e)) mem (rs ++ [r])) as (rs' & late' & -> & Hl).
    eexists (_ :: rs'), late'. rewrite <-app_assoc. simpl. auto.
  - edestruct (IH sm (Some (entry_log_id e)) (Some (entry_log_id e, m))
      (rs ++ [RR_Applied zero_state]) late) as (rs' & late' & -> & Hl).
    eexists (_ :: rs'), late'. rewrite <-app_assoc. simpl. auto.
Qed.

(** [apply] answers one result per entry and leaves the replayed machine. *)
Lemma store_apply_spec st es :
  st_sm (store_apply st es).1.1 = fold_left replay_one es (st_sm st) /\
  st_last_applied_log (store_apply st es).1.1 =
    from_option (Some ∘ entry_log_id) (st_last_applied_log st) (last es) /\
  st_last_membership (store_apply st es).1.1 =
    fold_left membership_one es (st_last_membership st) /\
  st_current_snapshot (store_apply st es).1.1 = st_current_snapshot st /\
  length (store_apply st es).1.2 = length es.
Proof.
  unfold store_apply.
  destruct (fold_apply_entry es (st_sm st) (st_last_applied_log st) (st_last_membership st) [] [])
    as (rs & late & -> & Hl). simpl. auto.
Qed.

(** The codec gives back the snapshot it encoded. *)
Hypothesis snapshot_roundtrip : forall s, decode_snapshot (encode_snapshot s) = Some s.

(** A stored snapshot covers the first [j] entries. *)
Definition covers (log : list Entry) (snap : StoredSnapshot) (j : nat) : Prop :=
  decode_snapshot (stored_data snap) = Some (snapshot (replay (take j log))) /\
  meta_last_log_id (stored_meta snap) = last_applied (take j log) /\
  meta_last_membership (stored_meta snap) = last_membership (take j log).

Lemma take_slice {A} (l : list A) n k : take (n + k) l = take n l ++ slice l n (n + k).
Proof.
  unfold slice. replace (n + k - n)%nat with k by lia. by rewrite take_take_drop.
Qed.

Lemma replay_app es1 es2 : replay (es1 ++ es2) = fold_left replay_one es2 (replay es1).
Proof. apply fold_left_app. Qed.

Lemma last_applied_app es1 es2 :
  last_applied (es1 ++ es2) =
  from_option (Some ∘ entry_log_id) (last_applied es1) (last es2).
Proof. unfold last_applied. rewrite last_app. by destruct (last es2). Qed.

Lemma replica_invariant log st n s :
  replica log st n s ->
  (n <= length log)%nat /\ st_sm st = replay (take n log) /\
  st_last_applied_log st = last_applied (take n log) /\
  st_last_membership st = last_membership (take n log) /\
  match s with
  | None => True
  | Some j => (j <= length log)%nat /\
      exists snap, st_current_snapshot st = Some snap /\ covers log snap j
  end.
Proof.
  induction 1 as [|st n s k H IH Hk|st n s H IH|st n s src m j snap st' H1 IH1 H2 IH2 Hs Hi].
  - split_and!; simpl; auto; lia.
  - destruct IH as (Hn & Hsm & Hla & Hmem & Hsnap).
    destruct (store_apply_spec st (slice log n (n + k))) as (E1 & E2 & E3 & E4 & _).
    rewrite E1, E2, E3, E4, take_slice, replay_app, last_applied_app, Hsm, Hla, Hmem.
    unfold last_membership. rewrite fold_left_app. auto.
  - destruct IH as (Hn & Hsm & Hla & Hmem & _). simpl. split_and!; auto.
    eexists. split; [done|]. unfold covers; simpl. rewrite snapshot_roundtrip, Hsm. auto.
  - destruct IH2 as (_ & _ & _ & _ & Hj & snap' & Hsnap' & Hdec & Hl & Hm).
    rewrite Hs in Hsnap'. simplify_eq. unfold install_snapshot in Hi.
    rewrite Hdec in Hi. simplify_eq. simpl. split_and!; auto.
    + by destruct (replay (take j log)).
    + eexists. split; [done|]. by split_and!.
Qed.

(** C7: hydration is replay.  A replica that has covered [n] entries of the
    committed log, through any mix of batches, snapshots it built and
    snapshots of other replicas it installed, holds exactly the machine,
    last applied id and membership that replaying those [n] entries from the
    empty machine gives. *)
Theorem replica_state_is_replay log st n s :
  replica log st n s ->
  st_sm st = replay (take n log) /\
  st_last_applied_log st = last_applied (take n log) /\
  st_last_membership st = last_membership (take n log).
Proof. intros H. apply replica_invariant in H. naive_solver. Qed.

(** Node views are consistent.  Two replicas that have covered the same
    number of entries of the committed log answer every lookup alike, and
    apply every further batch with the same results. *)
Theorem node_views_consistent log st1 st2 n s1 s2 :
  replica log st1 n s1 -> replica log st2 n s2 ->
  (forall key, store_get st1 key = store_get st2 key) /\
  (forall es, (store_apply st1 es).1.2 = (store_apply st2 es).1.2 /\
              st_sm (store_apply st1 es).1.1 = st_sm (store_apply st2 es).1.1).
Proof.
  intros H1 H2. apply replica_invariant in H1 as (_ & Hs1 & Hl1 & Hm1 & _).
  apply replica_invariant in H2 as (_ & Hs2 & Hl2 & Hm2 & _).
  split; [intros key; unfold store_get; congruence|].
  intros es. unfold store_apply. rewrite Hs1, Hs2, Hl1, Hl2, Hm1, Hm2.
  destruct (fold_left apply_entry _ _) as [[[[? ?] ?] ?] ?]. done.
Qed.

(** Every state a replica serves is a reachable state of the machine, by a
    run of at most three inputs per entry. *)
Lemma replay_run es : exists k, (k <= 3 * length es)%nat /\ sm_run k sm_new (replay es).
Proof.
  induction es as [|e es (k & Hk & IH)] using rev_ind.
  { exists 0%nat. split; [simpl; lia|constructor]. }
  rewrite length_app, replay_app; cbn [fold_left length].
  unfold_call (replay_one (replay es) e) replay_one. destruct (entry_payload e) as [|op|].
  2: { rewrite apply_one_feeds. exists (k + length (inputs_of op))%nat.
       pose proof (inputs_of_length op). split; [lia|].
       eapply nsteps_trans; [exact IH|apply sm_feeds_run]. }
  all: exists k; split; [lia|done].
Qed.

(** The invariants of the protocol hold on every replica at every
    moment of its life. *)
Theorem replica_state_reachable log st n s :
  replica log st n s -> sm_reachable (st_sm st) /\ sm_wf (st_sm st).
Proof.
  intros H. apply replica_invariant in H as (_ & -> & _).
  destruct (replay_run (take n log)) as (k & _ & Hrun).
  apply sm_run_later in Hrun. split; [exact Hrun|]. by apply sm_reachable_wf_aux.
Qed.

(** The log store keeps its window: appending consecutive entries at or
    inside the end, truncating and purging a contiguous window of entries
    leave a contiguous window with every entry under its own index, and an
    out-of-order purge is refused instead of applied. *)
Theorem log_store_window ls lo hi i es log_id :
  log_window ls lo hi -> lo <= i <= hi -> consecutive i es ->
  log_window (ls_append ls es) lo (Z.max hi (i + Z.of_nat (length es))) /\
  log_window (ls_truncate ls log_id) lo (Z.min hi (log_index log_id)) /\
  match ls_purge ls log_id with
  | Some ls' => log_window ls' (Z.max lo (log_index log_id + 1)) hi
  | None => exists p, ls_last_purged_log_id ls = Some p /\ log_id_le p log_id = false
  end.
Proof.
  intros HW Hi Hc. split_and!.
  - by apply ls_append_window.
  - by apply ls_truncate_window.
  - destruct (ls_purge ls log_id) eqn:E; [by eapply ls_purge_window in E as [? _]|].
    unfold ls_purge in E. destruct (ls_last_purged_log_id ls) as [p|]; [|done].
    destruct (log_id_le p log_id) eqn:?; [done|eauto].
Qed.
End Store.

(** ** Witnesses *)

(** A codec for snapshots: the countable encoding as a one-element list. *)
Definition demo_encode (s : StateMachineSnapshot) : bytes :=
  [Zpos (encode (snap_state s, snap_attested s, snap_transition_authorizations s,
                 snap_retired s, snap_revoked_links s))].
Definition demo_decode (b : bytes) : option StateMachineSnapshot :=
  match b with
  | [Zpos p] =>
      match decode (A := gmap PcrKey KeyState * gmap PcrKey bytes * gset (PcrKey * PcrKey)
                         * gset PcrKey * gmap PcrKey (gset bytes)) p with
      | Some (a, b, c, d, e) => Some (mkSnapshot a b c d e)
      | None => None
      end
  | _ => None
  end.

Lemma demo_roundtrip s : demo_decode (demo_encode s) = Some s.
Proof. destruct s. unfold demo_decode, demo_encode. by rewrite decode_encode. Qed.

Definition demo_entry (i : Z) (op : ReplicatedOp) : Entry (LogId := Z) (Membership := unit) :=
  mkEntry i (EP_Normal op).

Definition demo_log : list (Entry (LogId := Z) (Membership := unit)) :=
  [ mkEntry 0 (EP_Membership tt);
    demo_entry 1 (RO_Register demo_key1 demo_c0 [4; 1]);
    demo_entry 2 (RO_Pin demo_key1 (mkVersion 0) demo_c1);
    demo_entry 3 (RO_Transition demo_key1 demo_key2 [4; 2] [7] 0 demo_c1) ].

Definition demo_replica := replica (LogId := Z) (Membership := unit) demo_encode demo_decode demo_log.

(** One replica replays the log; another installs the first one's snapshot. *)
Definition demo_replayed := (store_apply (LogId := Z) (Membership := unit) store_default demo_log).1.1.
Definition demo_built := (build_snapshot demo_encode demo_replayed).1.

Lemma demo_replayed_replica : demo_replica demo_replayed 4 None.
Proof.
  apply (replica_apply demo_encode demo_decode demo_log store_default 0 None 4);
    [constructor|simpl; lia].
Qed.

Lemma demo_install (st : StateMachineStore (LogId := Z) (Membership := unit)) :
  exists st', install_snapshot demo_decode st
    (stored_meta (build_snapshot demo_encode demo_replayed).2)
    (stored_data (build_snapshot demo_encode demo_replayed).2) = Some st' /\
    st_sm st' = st_sm demo_replayed.
Proof.
  unfold install_snapshot, build_snapshot; cbn [snd stored_data].
  rewrite demo_roundtrip. eexists. split; reflexivity.
Qed.

Lemma demo_hydrated_replica :
  exists st, demo_replica st 4 (Some 4%nat) /\ store_get st demo_key2 =
    Some (mkKeyState demo_c1 (mkVersion 1) [4; 2]).
Proof.
  destruct (demo_install store_default) as (st & E & Hsm). exists st. split.
  - apply (replica_install demo_encode demo_decode demo_log store_default 0 None demo_built 4 4
      (build_snapshot demo_encode demo_replayed).2 st); [constructor| |reflexivity|exact E].
    apply (replica_build demo_encode demo_decode demo_log demo_replayed 4 None).
    exact demo_replayed_replica.
  - unfold store_get. rewrite Hsm. reflexivity.
Qed.

Lemma replica_state_is_replay_witness :
  st_sm demo_replayed = replay (take 4 demo_log).
Proof.
  apply (replica_state_is_replay demo_encode demo_decode demo_roundtrip demo_log
    demo_replayed 4 None). apply demo_replayed_replica.
Defined.

Lemma node_views_consistent_witness :
  exists st : StateMachineStore (LogId := Z) (Membership := unit),
    store_get st demo_key2 = store_get demo_replayed demo_key2.
Proof.
  destruct demo_hydrated_replica as (st & Hst & _). exists st.
  apply (node_views_consistent demo_encode demo_decode demo_roundtrip demo_log
    st demo_replayed 4 (Some 4%nat) None Hst demo_replayed_replica).
Defined.

Lemma replica_state_reachable_witness : sm_wf (st_sm demo_replayed).
Proof.
  apply (replica_state_reachable demo_encode demo_decode demo_roundtrip demo_log
    demo_replayed 4 None demo_replayed_replica).
Defined.

Lemma log_store_window_witness :
  log_window (LogId := Z) (Vote := unit) (fun i => i)
    (ls_append (fun i => i) log_store_default demo_log) 0 4.
Proof.
  apply (log_store_window (LogId := Z) (Vote := unit) (Membership := unit)
    (fun i => i) Z.leb log_store_default 0 0 0 demo_log 0).
  - split; simpl; intros k; [|intros e]; rewrite lookup_empty; [split; [by intros []|lia]|done].
  - lia.
  - repeat (apply consecutive_cons; split; [reflexivity|]). by intros j e He.
Defined.
