(* ===== verification/Membership.v ===== *)
(** Clone-resistant Raft membership ([synchronizer/src/raft/membership.rs]) and
    the leader-side admission that executes its plan ([RaftHandle::admit] in
    [synchronizer/src/raft/mod.rs]).

    A member's id is derived from its per-boot instance key, and a configured
    name is a slot that at most one voter holds.  [plan_admission] is the pure
    decision; [raft_admit] runs it on the leader, and [admit_learner] and
    [admit_change] continue where its two calls to the consensus library are
    awaited, with the plan made before the first.  The results: what a plan
    asks for, exactly, and a repeated join is a no-op; [RaftNet] puts the
    pieces together. *)
From stdpp Require Import gmap sets list sorting strings.
From S2P Require Import Prelude StateMachine Store.
#[local] Open Scope Z_scope.

Record MemberRecord := mkMemberRecord { mr_name : string; mr_pubkey : bytes }.

#[global] Instance MemberRecord_eq_dec : EqDecision MemberRecord.
Proof. solve_decision. Defined.

Inductive AdmissionError : Type :=
| UnknownSlot (name : string)
| IdCollision (name : string)
| CorruptMembership (holders : Z) (name : string)
| IdMismatch (id : Z)
| UnconfiguredVoter (name : string)
| OversizedMembership (voters slots : Z).

Record AdmissionPlan := mkAdmissionPlan {
  plan_added_id : Z;
  plan_added : MemberRecord;
  plan_evicted_id : option Z;
  plan_new_voter_ids : gset Z;
  plan_already_member : bool;
}.

Inductive RaftHandleError : Type :=
| RHE_Rejected (e : ValidationError)
| RHE_Raft
| RHE_NotLinearizable
| RHE_JoinRefused (e : AdmissionError)
| RHE_NotLeader (hint : option string)
| RHE_CommitTimeout.

Section Membership.
(** SHA-256 (the sha2 crate). *)
Context (sha256 : bytes -> bytes).

Definition instance_node_id (pubkey : bytes) : Z := be_decode (take 8 (sha256 pubkey)).

(** The voters holding slot [name]. *)
Definition holders (voters : gmap Z MemberRecord) (name : string) : list (Z * MemberRecord) :=
  filter (fun im => mr_name im.2 = name) (map_entries voters).

Definition check_configured (names : list string) (voters : gmap Z MemberRecord)
    : result unit AdmissionError :=
  match List.find (fun im => negb (bool_decide (mr_name im.2 ∈ names))) (map_entries voters) with
  | Some im => Err (UnconfiguredVoter (mr_name im.2))
  | None => Ok tt
  end.

Definition check_slots (names : list string) (voters : gmap Z MemberRecord)
    : result unit AdmissionError :=
  match List.find (fun n => (1 <? Z.of_nat (length (holders voters n)))) names with
  | Some n => Err (CorruptMembership (Z.of_nat (length (holders voters n))) n)
  | None => Ok tt
  end.

Definition check_ids (voters : gmap Z MemberRecord) : result unit AdmissionError :=
  match List.find (fun im => negb (im.1 =? instance_node_id (mr_pubkey im.2)))
          (map_entries voters) with
  | Some im => Err (IdMismatch im.1)
  | None => Ok tt
  end.

(** [configured_names] is listed in the iteration order of the set. *)
Definition plan_admission (configured_names : list string) (voters : gmap Z MemberRecord)
    (candidate_name : string) (candidate_pubkey : bytes)
    : result AdmissionPlan AdmissionError :=
  if negb (bool_decide (candidate_name ∈ configured_names))
  then Err (UnknownSlot candidate_name)
  else
    let? _ := check_configured configured_names voters in
    let? _ := check_slots configured_names voters in
    let? _ := check_ids voters in
    let added_id := instance_node_id candidate_pubkey in
    let added := mkMemberRecord candidate_name candidate_pubkey in
    let slot_holder := fst <$> head (holders voters candidate_name) in
    if decide (slot_holder = Some added_id)
    then Ok (mkAdmissionPlan added_id added None (dom voters) true)
    else match voters !! added_id with
    | Some collided => Err (IdCollision (mr_name collided))
    | None =>
        let ids := match slot_holder with
                   | Some evicted => dom voters ∖ {[ evicted ]}
                   | None => dom voters
                   end in
        let new_voter_ids := {[ added_id ]} ∪ ids in
        if (length configured_names <? size new_voter_ids)%nat
        then Err (OversizedMembership (Z.of_nat (size new_voter_ids))
                    (Z.of_nat (length configured_names)))
        else Ok (mkAdmissionPlan added_id added slot_holder new_voter_ids false)
    end.

(** ** Executing a plan *)

(** What openraft's metrics show of the membership: the ids that vote (of both
    configurations while a change is under way), and the records of voters and
    learners. *)
Record ClusterMembership := mkMembership {
  mb_voters : gset Z;
  mb_nodes : gmap Z MemberRecord;
}.

Definition committed_voters (m : ClusterMembership) : gmap Z MemberRecord :=
  filter (fun im => im.1 ∈ mb_voters m) (mb_nodes m).

(** How openraft answers the two membership calls of [raft_admit]. *)
Inductive MembershipCall : Type :=
| MC_ok
| MC_forward_to_leader
| MC_other_error
| MC_timeout.

Definition membership_change_err (leader_name : option string) (c : MembershipCall)
    : RaftHandleError :=
  match c with
  | MC_forward_to_leader => RHE_NotLeader leader_name
  | _ => RHE_Raft
  end.

(** [RaftHandle::admit] between its awaits: it has returned, or it waits for
    [add_learner], or for [change_membership], with the plan it made at its
    start. *)
Inductive Admission : Type :=
| Admit_Done (r : result bool RaftHandleError)
| Admit_Learner (p : AdmissionPlan)
| Admit_Change (p : AdmissionPlan).

(** Up to the first await: [voters] is the membership read there. *)
Definition raft_admit (is_leader : bool) (leader_name : option string)
    (configured_names : list string) (voters : gmap Z MemberRecord)
    (candidate_name : string) (candidate_pubkey : bytes) : Admission :=
  if negb is_leader then Admit_Done (Err (RHE_NotLeader leader_name))
  else match plan_admission configured_names voters candidate_name candidate_pubkey with
  | Err e => Admit_Done (Err (RHE_JoinRefused e))
  | Ok plan => if plan_already_member plan then Admit_Done (Ok true) else Admit_Learner plan
  end.

(** [add_learner] answered, or its deadline passed. *)
Definition admit_learner (leader_name : option string) (plan : AdmissionPlan) (c : MembershipCall) : Admission :=
  match c with
  | MC_ok => Admit_Change plan
  | MC_timeout => Admit_Done (Err RHE_Raft)
  | c => Admit_Done (Err (membership_change_err leader_name c))
  end.

(** [change_membership] answered. *)
Definition admit_change (leader_name : option string) (c : MembershipCall) : result bool RaftHandleError :=
  match c with
  | MC_ok => Ok true
  | c => Err (membership_change_err leader_name c)
  end.

(** ** The invariant *)

(** Every voter holds a configured slot, under the id its instance key
    derives, and no two voters hold the same slot. *)
Record membership_wf (names : list string) (voters : gmap Z MemberRecord) : Prop := {
  mwf_configured : forall id m, voters !! id = Some m -> mr_name m ∈ names;
  mwf_id : forall id m, voters !! id = Some m -> id = instance_node_id (mr_pubkey m);
  mwf_slot : forall id1 id2 m1 m2, voters !! id1 = Some m1 -> voters !! id2 = Some m2 ->
    mr_name m1 = mr_name m2 -> id1 = id2;
}.

Lemma elem_of_holders voters name id m :
  (id, m) ∈ holders voters name <-> voters !! id = Some m /\ mr_name m = name.
Proof.
  unfold holders. rewrite list_elem_of_filter, elem_of_map_entries. naive_solver.
Qed.

Lemma find_None_iff {A} (p : A -> bool) l :
  List.find p l = None <-> forall x, x ∈ l -> p x = false.
Proof.
  split.
  - intros H x Hx. eapply find_none; [exact H|]. by apply list_elem_of_In.
  - intros H. destruct (List.find p l) eqn:E; [|done].
    apply find_some in E as [Hin Hp]. apply list_elem_of_In in Hin.
    specialize (H _ Hin). congruence.
Qed.

Lemma check_configured_Ok names voters :
  check_configured names voters = Ok tt <->
  forall id m, voters !! id = Some m -> mr_name m ∈ names.
Proof.
  unfold check_configured. destruct (List.find _ _) as [[i m]|] eqn:E.
  - split; [done|]. intros H. apply find_some in E as [Hin Hp].
    apply list_elem_of_In, elem_of_map_entries in Hin. specialize (H i m Hin).
    simpl in Hp. by rewrite bool_decide_eq_true_2 in Hp.
  - split; [|done]. intros _ id m Hm. rewrite find_None_iff in E.
    specialize (E (id, m) (proj2 (elem_of_map_entries _ _ _) Hm)). simpl in E.
    apply negb_false_iff, bool_decide_eq_true in E. done.
Qed.

Lemma check_ids_Ok voters :
  check_ids voters = Ok tt <->
  forall id m, voters !! id = Some m -> id = instance_node_id (mr_pubkey m).
Proof.
  unfold check_ids. destruct (List.find _ _) as [[i m]|] eqn:E.
  - split; [done|]. intros H. apply find_some in E as [Hin Hp].
    apply list_elem_of_In, elem_of_map_entries in Hin. specialize (H i m Hin).
    simpl in Hp. apply negb_true_iff, Z.eqb_neq in Hp. done.
  - split; [|done]. intros _ id m Hm. rewrite find_None_iff in E.
    specialize (E (id, m) (proj2 (elem_of_map_entries _ _ _) Hm)). simpl in E.
    by apply negb_false_iff, Z.eqb_eq in E.
Qed.

Lemma NoDup_holders voters name : NoDup ((holders voters name).*1).
Proof.
  unfold holders, map_entries.
  assert (H : forall l : list Z, NoDup l ->
    NoDup ((filter (fun im : Z * MemberRecord => mr_name im.2 = name)
              (omap (fun k => pair k <$> voters !! k) l)).*1)).
  { induction l as [|k l IH]; intros Hnd; [constructor|].
    apply NoDup_cons in Hnd as [Hk Hnd]. specialize (IH Hnd). cbn [omap list_omap].
    destruct (voters !! k) as [m|] eqn:E; [|exact IH]. cbn [fmap option_fmap option_map].
    rewrite filter_cons. destruct (decide _) as [_|_]; [|exact IH].
    cbn [fmap list_fmap fst]. apply NoDup_cons. split; [|exact IH].
    rewrite list_elem_of_fmap. intros ([k' m'] & -> & Hin).
    apply list_elem_of_filter in Hin as [_ Hin].
    apply list_elem_of_omap in Hin as (k'' & Hk'' & H). 
    apply fmap_Some in H as (? & ? & ?). simplify_eq. by apply Hk. }
  apply H, NoDup_sorted_keys.
Qed.

Lemma check_slots_Ok names voters :
  (forall id m, voters !! id = Some m -> mr_name m ∈ names) ->
  check_slots names voters = Ok tt <->
  forall id1 id2 m1 m2, voters !! id1 = Some m1 -> voters !! id2 = Some m2 ->
    mr_name m1 = mr_name m2 -> id1 = id2.
Proof.
  intros Hconf. unfold check_slots. destruct (List.find _ _) as [n|] eqn:E.
  - split; [done|]. intros H. apply find_some in E as [_ Hp].
    pose proof (NoDup_holders voters n) as Hnd.
    destruct (holders voters n) as [|[i1 m1] [|[i2 m2] t]] eqn:Eh; simpl in Hp; try done.
    assert (H1 : (i1, m1) ∈ holders voters n) by (rewrite Eh; left).
    assert (H2 : (i2, m2) ∈ holders voters n) by (rewrite Eh; right; left).
    apply elem_of_holders in H1 as [? ?], H2 as [? ?].
    simpl in Hnd. apply NoDup_cons in Hnd as [Hnd _]. destruct Hnd.
    rewrite (H i1 i2 m1 m2) by congruence. left.
  - split; [|done]. intros _ i1 i2 m1 m2 H1 H2 Hn. rewrite find_None_iff in E.
    specialize (E _ (Hconf _ _ H1)). apply Z.ltb_ge in E.
    assert (Hh1 : (i1, m1) ∈ holders voters (mr_name m1)) by (apply elem_of_holders; done).
    assert (Hh2 : (i2, m2) ∈ holders voters (mr_name m1)) by (apply elem_of_holders; done).
    destruct (holders voters (mr_name m1)) as [|x [|y t]]; simpl in E; try lia.
    + by apply elem_of_nil in Hh1.
    + apply list_elem_of_singleton in Hh1, Hh2. congruence.
Qed.

(** The three committed-state checks are the invariant. *)
Lemma checks_Ok names voters :
  check_configured names voters = Ok tt /\ check_slots names voters = Ok tt /\
    check_ids voters = Ok tt <-> membership_wf names voters.
Proof.
  split.
  - intros (H1 & H2 & H3). pose proof (proj1 (check_configured_Ok _ _) H1) as Hc.
    split; [done|by apply check_ids_Ok|by apply (check_slots_Ok names)].
  - intros [Hc Hi Hs]. split; [by apply check_configured_Ok|].
    split; [by apply check_slots_Ok|by apply check_ids_Ok].
Qed.

(** At most one voter per slot bounds the voter set by the slots. *)
Lemma membership_bound names voters :
  membership_wf names voters -> (size voters <= length names)%nat.
Proof.
  intros [Hc _ Hs]. rewrite <-length_map_to_list, <-(length_fmap (fun im => mr_name im.2)).
  apply submseteq_length, NoDup_submseteq.
  - apply NoDup_fmap_2_strong; [|apply NoDup_map_to_list].
    intros [i1 m1] [i2 m2] H1 H2 Hn. apply elem_of_map_to_list in H1, H2.
    pose proof (Hs _ _ _ _ H1 H2 Hn). simplify_eq. done.
  - intros n ([i m] & -> & H)%list_elem_of_fmap. apply elem_of_map_to_list in H.
    by eapply Hc.
Qed.

(** The membership an admission asks for: the slot's previous holder out,
    the candidate in under its derived id, every other slot as it was. *)
Definition admitted (voters : gmap Z MemberRecord) (name : string) (pubkey : bytes)
    : gmap Z MemberRecord :=
  <[instance_node_id pubkey := mkMemberRecord name pubkey]>
    (filter (fun im => mr_name im.2 <> name) voters).

Lemma admitted_lookup voters name pk id m :
  admitted voters name pk !! id = Some m <->
  (id = instance_node_id pk /\ m = mkMemberRecord name pk) \/
  (id <> instance_node_id pk /\ voters !! id = Some m /\ mr_name m <> name).
Proof.
  unfold admitted. rewrite lookup_insert_Some, map_lookup_filter_Some. naive_solver.
Qed.

Lemma admitted_wf names voters name pk :
  membership_wf names voters -> name ∈ names -> membership_wf names (admitted voters name pk).
Proof.
  intros [Hc Hi Hs] Hn. split.
  - intros id m [[-> ->]|(_ & H & _)]%admitted_lookup; [done|by eapply Hc].
  - intros id m [[-> ->]|(_ & H & _)]%admitted_lookup; [done|by eapply Hi].
  - intros i1 i2 m1 m2 [[-> ->]|(? & H1 & ?)]%admitted_lookup
      [[-> ->]|(? & H2 & ?)]%admitted_lookup Heq; simpl in *; try congruence.
    by eapply Hs.
Qed.

(** In a well-formed membership the slot's holder is unique. *)
Lemma slot_holder_Some names voters name id :
  membership_wf names voters ->
  fst <$> head (holders voters name) = Some id <->
  exists m, voters !! id = Some m /\ mr_name m = name.
Proof.
  intros Hwf. split.
  - intros H. destruct (holders voters name) as [|[i m] t] eqn:E; simplify_eq/=.
    exists m. apply elem_of_holders. rewrite E. left.
  - intros (m & Hm & Hn).
    assert (Hin : (id, m) ∈ holders voters name) by (by apply elem_of_holders).
    destruct (holders voters name) as [|[i m'] t] eqn:E; [by apply elem_of_nil in Hin|].
    assert (H0 : (i, m') ∈ holders voters name) by (rewrite E; left).
    apply elem_of_holders in H0 as [H0 Hn0]. simpl. f_equal.
    eapply (mwf_slot _ _ Hwf); eauto. congruence.
Qed.

Lemma plan_admission_checks names voters name pk p :
  plan_admission names voters name pk = Ok p ->
  name ∈ names /\ membership_wf names voters.
Proof.
  unfold plan_admission. intros H.
  destruct (bool_decide _) eqn:Hn; simpl in H; [|done]. apply bool_decide_eq_true in Hn.
  destruct (check_configured _ _) as [[]|] eqn:E1; [|done].
  destruct (check_slots _ _) as [[]|] eqn:E2; [|done].
  destruct (check_ids _) as [[]|] eqn:E3; [|done].
  split; [done|]. by apply checks_Ok.
Qed.

(** Admission on a committed membership that satisfies the invariant. *)
Lemma plan_admission_wf names voters name pk :
  membership_wf names voters -> name ∈ names ->
  plan_admission names voters name pk =
  let added_id := instance_node_id pk in
  let slot_holder := fst <$> head (holders voters name) in
  let ids := match slot_holder with
             | Some evicted => dom voters ∖ {[ evicted ]} | None => dom voters end in
  if decide (slot_holder = Some added_id)
  then Ok (mkAdmissionPlan added_id (mkMemberRecord name pk) None (dom voters) true)
  else match voters !! added_id with
       | Some collided => Err (IdCollision (mr_name collided))
       | None => if (length names <? size ({[added_id]} ∪ ids))%nat
                 then Err (OversizedMembership (Z.of_nat (size ({[added_id]} ∪ ids)))
                             (Z.of_nat (length names)))
                 else Ok (mkAdmissionPlan added_id (mkMemberRecord name pk)
                            slot_holder ({[added_id]} ∪ ids) false)
       end.
Proof.
  intros Hwf Hn. unfold plan_admission. rewrite bool_decide_eq_true_2 by done. cbn [negb].
  apply checks_Ok in Hwf as (-> & -> & ->). done.
Qed.

Lemma new_voter_ids_dom names voters name pk :
  membership_wf names voters -> voters !! instance_node_id pk = None ->
  {[instance_node_id pk]} ∪
    match fst <$> head (holders voters name) with
    | Some evicted => dom voters ∖ {[ evicted ]} | None => dom voters end
  = dom (admitted voters name pk).
Proof.
  intros Hwf Hfree. apply set_eq. intros id.
  rewrite elem_of_union, elem_of_singleton, elem_of_dom.
  destruct (decide (id = instance_node_id pk)) as [->|Hne].
  { split; [|by left]. intros _. eexists. apply admitted_lookup. by left. }
  transitivity (exists m, voters !! id = Some m /\ mr_name m <> name).
  - pose proof (slot_holder_Some names voters name id Hwf) as Hh.
    destruct (fst <$> head (holders voters name)) as [e|].
    + rewrite elem_of_difference, elem_of_singleton, elem_of_dom. split.
      * intros [?|[[m Hm] He]]; [done|]. exists m. split; [done|]. intros Hname.
        apply He. pose proof (proj2 Hh (ex_intro _ m (conj Hm Hname))). congruence.
      * intros (m & Hm & Hname). right. split; [by exists m|]. intros ->.
        destruct (proj1 Hh eq_refl) as (m' & ? & ?). congruence.
    + rewrite elem_of_dom. split.
      * intros [?|[m Hm]]; [done|]. exists m. split; [done|]. intros Hname.
        discriminate (proj2 Hh (ex_intro _ m (conj Hm Hname))).
      * intros (m & Hm & _). right. by exists m.
  - split; intros [m Hm]; exists m; [apply admitted_lookup; naive_solver|].
    apply admitted_lookup in Hm. naive_solver.
Qed.

(** A plan that changes the membership asks for the ids of [admitted]. *)
Lemma plan_admits names voters name pk p :
  plan_admission names voters name pk = Ok p -> plan_already_member p = false ->
  voters !! instance_node_id pk = None /\ plan_added_id p = instance_node_id pk /\
  plan_added p = mkMemberRecord name pk /\ plan_new_voter_ids p = dom (admitted voters name pk).
Proof.
  intros Hp Ha. destruct (plan_admission_checks _ _ _ _ _ Hp) as [Hn Hwf].
  rewrite plan_admission_wf in Hp by done. cbv zeta in Hp.
  destruct (decide _) as [|Hne]; [by result_inv|].
  destruct (voters !! instance_node_id pk) as [|] eqn:Hfree; [done|].
  destruct (Nat.ltb _ _); [done|]. result_inv. split_and!; [done..|]. by apply (new_voter_ids_dom names).
Qed.

Lemma admitted_size_ok names voters name pk :
  membership_wf names voters -> name ∈ names -> voters !! instance_node_id pk = None ->
  (length names <? size (dom (admitted voters name pk)))%nat = false.
Proof.
  intros Hwf Hn _. apply Nat.ltb_ge. rewrite size_dom.
  by apply membership_bound, admitted_wf.
Qed.

(** What a candidate for a configured slot gets from a leader whose
    committed membership satisfies the invariant. *)
Lemma plan_admission_total names voters name pk :
  membership_wf names voters -> name ∈ names ->
  (exists m, voters !! instance_node_id pk = Some m /\ mr_name m = name /\
     plan_admission names voters name pk =
       Ok (mkAdmissionPlan (instance_node_id pk) (mkMemberRecord name pk) None
             (dom voters) true)) \/
  (exists m, voters !! instance_node_id pk = Some m /\ mr_name m <> name /\
     plan_admission names voters name pk = Err (IdCollision (mr_name m))) \/
  (voters !! instance_node_id pk = None /\
     exists p, plan_admission names voters name pk = Ok p /\ plan_already_member p = false).
Proof.
  intros Hwf Hn. rewrite plan_admission_wf by done. cbv zeta.
  pose proof (slot_holder_Some names voters name (instance_node_id pk) Hwf) as Hh.
  destruct (decide _) as [He|He].
  - left. apply Hh in He as (m & ? & ?). eauto.
  - right. destruct (voters !! instance_node_id pk) as [m|] eqn:Hm.
    + left. exists m. split_and!; try done. intros Hname. apply He, Hh. eauto.
    + right. split; [done|]. erewrite new_voter_ids_dom by done.
      rewrite (admitted_size_ok names) by done. eauto.
Qed.

(** What an admission on the leader does up to its first await.  A candidate
    for a configured slot is refused only when its id collides with the voter of
    another slot, is done when it already holds the slot, and otherwise its plan
    asks for exactly the voters read, with the slot's holder replaced by the
    candidate.  In particular the size bound never fires. *)
Theorem admission_outcome names voters leader_name name pk
    (Hwf : membership_wf names voters) (Hname : name ∈ names) :
  match voters !! instance_node_id pk with
  | Some m => raft_admit true leader_name names voters name pk =
      Admit_Done (if decide (mr_name m = name) then Ok true
                  else Err (RHE_JoinRefused (IdCollision (mr_name m))))
  | None => exists p, raft_admit true leader_name names voters name pk = Admit_Learner p /\
      plan_added p = mkMemberRecord name pk /\ plan_new_voter_ids p = dom (admitted voters name pk)
  end.
Proof.
  unfold raft_admit. cbn [negb].
  destruct (plan_admission_total names voters name pk Hwf Hname)
    as [(m & -> & Hm & ->)|[(m & -> & Hm & ->)|(-> & p & Hp & Ha)]].
  - simpl. by rewrite decide_True.
  - simpl. by rewrite decide_False.
  - exists p. destruct (plan_admits _ _ _ _ _ Hp Ha) as (_ & _ & ? & ?). by rewrite Hp, Ha.
Qed.

(** A repeated join is a no-op: a candidate that holds its slot is answered at
    once, and no membership call is made. *)
Theorem rejoin_is_idempotent names voters leader_name name pk
    (Hwf : membership_wf names voters) (Hname : name ∈ names) :
  raft_admit true leader_name names (admitted voters name pk) name pk = Admit_Done (Ok true).
Proof.
  pose proof (admission_outcome names (admitted voters name pk) leader_name name pk
    (admitted_wf _ _ _ _ Hwf Hname) Hname) as H.
  assert (Hl : admitted voters name pk !! instance_node_id pk = Some (mkMemberRecord name pk))
    by (apply admitted_lookup; by left).
  rewrite Hl in H. by rewrite decide_True in H.
Qed.
End Membership.

(** ** Witnesses *)

(** A stand-in digest: pads its input to 32 bytes. *)
Definition demo_digest (l : bytes) : bytes := take 32 (l ++ repeat 0 32).

Definition demo_names : list string := ["node-a"; "node-b"]%string.
Definition demo_pk (b : Z) : bytes := 4 :: repeat b 64.
Definition demo_voters : gmap Z MemberRecord :=
  list_to_map ((fun '(n, b) => (instance_node_id demo_digest (demo_pk b),
                                mkMemberRecord n (demo_pk b)))
               <$> [("node-a"%string, 1); ("node-b"%string, 2)]).

Lemma demo_voters_wf : membership_wf demo_digest demo_names demo_voters.
Proof. apply checks_Ok. split_and!; vm_compute; reflexivity. Qed.

Lemma admission_outcome_witness :
  exists p, raft_admit demo_digest true None demo_names demo_voters "node-b" (demo_pk 3) = Admit_Learner p /\
    plan_added p = mkMemberRecord "node-b" (demo_pk 3) /\
    plan_new_voter_ids p = dom (admitted demo_digest demo_voters "node-b" (demo_pk 3)).
Proof.
  refine (admission_outcome demo_digest demo_names demo_voters None "node-b" (demo_pk 3) demo_voters_wf _).
  right; left.
Defined.

Lemma rejoin_is_idempotent_witness :
  raft_admit demo_digest true None demo_names (admitted demo_digest demo_voters "node-b" (demo_pk 3)) "node-b"
    (demo_pk 3) = Admit_Done (Ok true).
Proof.
  apply (rejoin_is_idempotent demo_digest demo_names demo_voters None "node-b" (demo_pk 3) demo_voters_wf).
  right; left.
Defined.
