(* ===== verification/Identity.v ===== *)
(** Pin identities ([enclavia-protocol/src/pin_identity.rs]).

    An enclave's pin slot is named by its image measurements (PCR0-2) and its
    sixteen user PCRs.  [from_doc_pcrs] reads an identity out of an attestation
    document's PCR map, [canonical_bytes] is its fixed-width encoding and [key]
    the SHA-256 of it.  A [Pcr] is a list of bytes; the fixed sizes the source
    has as array types are the predicate [pin_identity_wf], which every
    constructor establishes.  SHA-256 and the hex codec are parameters.

    The results: the encoding is injective (so two identities share a pin slot
    only through an explicit SHA-256 collision), documents are read by the
    absent-is-zero rule and nothing else, and the wire form round-trips. *)
From stdpp Require Import gmap sets list strings.
From S2P Require Import Prelude.
#[local] Open Scope Z_scope.

Definition PCR_LEN : nat := 48.
Definition MAX_PCRS : Z := 32.
Definition USER_PCR_FIRST : Z := 16.
Definition USER_PCR_COUNT : nat := 16.
Definition PIN_IDENTITY_PCR_INDICES : list Z :=
  [0; 1; 2; 16; 17; 18; 19; 20; 21; 22; 23; 24; 25; 26; 27; 28; 29; 30; 31].
Definition PIN_IDENTITY_DST : bytes :=
  bytes_of_string "enclavia/synchronizer/pin-identity/v1".

Definition ZERO_PCR : bytes := replicate PCR_LEN 0.
Definition ZERO_USER_PCRS : list bytes := replicate USER_PCR_COUNT ZERO_PCR.

Record Pcrs := mkPcrs { pcr0 : bytes; pcr1 : bytes; pcr2 : bytes }.

Record PcrsHex := mkPcrsHex { hex0 : string; hex1 : string; hex2 : string }.

Inductive PinIdentityError : Type :=
| MissingImagePcr (index : Z)
| BadLength (index : Z) (len : nat)
| IndexOutOfRange (index : Z)
| BadHex (index : Z).

Record PinIdentity := mkPinIdentity { pi_image : list bytes; pi_user : list bytes }.

#[global] Instance Pcrs_eq_dec : EqDecision Pcrs.
Proof. solve_decision. Defined.
#[global] Instance PcrsHex_eq_dec : EqDecision PcrsHex.
Proof. solve_decision. Defined.
#[global] Instance PinIdentityError_eq_dec : EqDecision PinIdentityError.
Proof. solve_decision. Defined.
#[global] Instance PinIdentity_eq_dec : EqDecision PinIdentity.
Proof. solve_decision. Defined.

(** The array types of the source: three image PCRs, sixteen user PCRs, each
    of [PCR_LEN] bytes. *)
Record pin_identity_wf (i : PinIdentity) : Prop := {
  pi_image_len : length (pi_image i) = 3%nat;
  pi_user_len : length (pi_user i) = USER_PCR_COUNT;
  pi_pcr_len : Forall (fun p : bytes => length p = PCR_LEN) (pi_image i ++ pi_user i);
}.

(** [value.try_into()] to a 48-byte array. *)
Definition fixed (index : Z) (value : bytes) : result bytes PinIdentityError :=
  if Nat.eqb (length value) PCR_LEN then Ok value else Err (BadLength index (length value)).

Definition from_image_pcrs (pcrs : Pcrs) (user : list bytes)
    : result PinIdentity PinIdentityError :=
  let? p0 := fixed 0 (pcr0 pcrs) in
  let? p1 := fixed 1 (pcr1 pcrs) in
  let? p2 := fixed 2 (pcr2 pcrs) in
  Ok (mkPinIdentity [p0; p1; p2] user).

(** The first pass of [from_doc_pcrs], over the map in index order. *)
Fixpoint check_doc_entries (entries : list (Z * bytes)) : result unit PinIdentityError :=
  match entries with
  | [] => Ok tt
  | (index, value) :: rest =>
      if MAX_PCRS <=? index then Err (IndexOutOfRange index)
      else if negb (Nat.eqb (length value) PCR_LEN) then Err (BadLength index (length value))
      else check_doc_entries rest
  end.

Definition image_pcr (pcrs : gmap Z bytes) (index : Z) : result bytes PinIdentityError :=
  let? value := ok_or (pcrs !! index) (MissingImagePcr index) in
  fixed index value.

(** The user PCRs of a document from slot [slot] on, absent ones zero. *)
Fixpoint doc_user_pcrs (pcrs : gmap Z bytes) (slot : Z) (n : nat)
    : result (list bytes) PinIdentityError :=
  match n with
  | O => Ok []
  | S n' =>
      let? value := match pcrs !! (USER_PCR_FIRST + slot) with
                    | Some v => fixed (USER_PCR_FIRST + slot) v
                    | None => Ok ZERO_PCR
                    end in
      let? rest := doc_user_pcrs pcrs (slot + 1) n' in
      Ok (value :: rest)
  end.

Definition from_doc_pcrs (pcrs : gmap Z bytes) : result PinIdentity PinIdentityError :=
  let? _ := check_doc_entries (map_entries pcrs) in
  let? p0 := image_pcr pcrs 0 in
  let? p1 := image_pcr pcrs 1 in
  let? p2 := image_pcr pcrs 2 in
  let? user := doc_user_pcrs pcrs 0 USER_PCR_COUNT in
  Ok (mkPinIdentity [p0; p1; p2] user).

Definition pcr (i : PinIdentity) (index : Z) : option bytes :=
  if (0 <=? index) && (index <=? 2) then pi_image i !! Z.to_nat index
  else if (USER_PCR_FIRST <=? index) && (index <? MAX_PCRS)
  then pi_user i !! Z.to_nat (index - USER_PCR_FIRST)
  else None.

Definition with_user_pcrs (i : PinIdentity) (user : list bytes) : PinIdentity :=
  mkPinIdentity (pi_image i) user.

Definition image_pcrs (i : PinIdentity) : Pcrs :=
  mkPcrs (default [] (pi_image i !! 0%nat)) (default [] (pi_image i !! 1%nat))
         (default [] (pi_image i !! 2%nat)).

(** The non-zero user PCRs with their indices. *)
Definition nonzero_user_pcrs (i : PinIdentity) : list (Z * bytes) :=
  (fun sv => (USER_PCR_FIRST + Z.of_nat sv.1, sv.2)) <$>
    filter (fun sv => Is_true (existsb (fun b => negb (b =? 0)) sv.2))
           (imap pair (pi_user i)).

Definition canonical_bytes (i : PinIdentity) : bytes :=
  PIN_IDENTITY_DST ++ concat (pi_image i ++ pi_user i).

(** The PCR names of the wire form, in canonical order. *)
Definition pin_wire_names : list string :=
  ["PCR0"; "PCR1"; "PCR2"; "PCR16"; "PCR17"; "PCR18"; "PCR19"; "PCR20"; "PCR21"; "PCR22";
   "PCR23"; "PCR24"; "PCR25"; "PCR26"; "PCR27"; "PCR28"; "PCR29"; "PCR30"; "PCR31"]%string.

Section Codec.
(** SHA-256 (the sha2 crate) and the hex crate. *)
Context (sha256 : bytes -> bytes).
Context (hex_encode : bytes -> string) (hex_decode : string -> option bytes).

Definition pin_key (i : PinIdentity) : bytes := sha256 (canonical_bytes i).

Definition image_pcrs_hex (i : PinIdentity) : PcrsHex :=
  mkPcrsHex (hex_encode (pcr0 (image_pcrs i))) (hex_encode (pcr1 (image_pcrs i)))
            (hex_encode (pcr2 (image_pcrs i))).

Definition from_hex (index : Z) (s : string) : result bytes PinIdentityError :=
  let? b := ok_or (hex_decode s) (BadHex index) in
  fixed index b.

(** The wire map: its entries in order. *)
Definition pin_serialize (i : PinIdentity) : list (string * string) :=
  zip pin_wire_names (hex_encode <$> (pi_image i ++ pi_user i)).

(** [PinIdentityWire]: each name exactly once and no other name, in any
    order; the values in canonical order. *)
Definition pin_wire (entries : list (string * string)) : option (list string) :=
  if decide (NoDup entries.*1 /\ Forall (fun k => k ∈ pin_wire_names) entries.*1)
  then mapM (fun n => snd <$> List.find (fun e => String.eqb e.1 n) entries) pin_wire_names
  else None.

Fixpoint from_hexes (indices : list Z) (ss : list string)
    : result (list bytes) PinIdentityError :=
  match indices, ss with
  | i :: indices', s :: ss' =>
      let? v := from_hex i s in
      let? vs := from_hexes indices' ss' in
      Ok (v :: vs)
  | _, _ => Ok []
  end.

(** [None] is a wire map that is not a [PinIdentityWire]. *)
Definition pin_deserialize (entries : list (string * string))
    : result PinIdentity (option PinIdentityError) :=
  let? w := ok_or (pin_wire entries) None in
  let? vs := map_err Some (from_hexes PIN_IDENTITY_PCR_INDICES w) in
  Ok (mkPinIdentity (take 3 vs) (drop 3 vs)).
End Codec.

(** ** The encoding *)

Lemma concat_blocks_inj {A} n (l1 l2 : list (list A)) :
  Forall (fun p => length p = n) l1 -> Forall (fun p => length p = n) l2 ->
  length l1 = length l2 -> concat l1 = concat l2 -> l1 = l2.
Proof.
  intros H1. revert l2. induction H1 as [|p l1 Hp _ IH]; intros [|q l2] H2 Hl Hc;
    try done; try discriminate.
  apply Forall_cons in H2 as [Hq H2]. cbn in Hc. injection Hl as Hl.
  apply app_inj_1 in Hc as [-> Hc]; [|congruence]. f_equal. by apply IH.
Qed.

Lemma concat_blocks_length {A} n (l : list (list A)) :
  Forall (fun p => length p = n) l -> length (concat l) = (length l * n)%nat.
Proof.
  induction 1 as [|p l Hp _ IH]; [done|]. cbn. rewrite length_app, IH. lia.
Qed.

Lemma canonical_bytes_inj i1 i2 :
  pin_identity_wf i1 -> pin_identity_wf i2 -> canonical_bytes i1 = canonical_bytes i2 -> i1 = i2.
Proof.
  intros [Hi1 Hu1 H1] [Hi2 Hu2 H2] Hc. apply app_inv_head in Hc.
  apply (concat_blocks_inj PCR_LEN) in Hc; try done; [|rewrite !length_app; congruence].
  apply app_inj_1 in Hc as [Hi Hu]; [|congruence].
  destruct i1, i2. simpl in *. by subst.
Qed.

Lemma canonical_bytes_length i : pin_identity_wf i -> length (canonical_bytes i) = 949%nat.
Proof.
  intros [Hi Hu H]. unfold canonical_bytes.
  rewrite length_app, (concat_blocks_length PCR_LEN) by done.
  by rewrite length_app, Hi, Hu.
Qed.

(** ** Reading a document *)

Lemma fixed_Ok index v w : fixed index v = Ok w <-> w = v /\ length v = PCR_LEN.
Proof.
  unfold fixed. destruct (Nat.eqb_spec (length v) PCR_LEN); split; intros;
    result_inv; by try split.
Qed.

Lemma check_doc_entries_Ok entries :
  check_doc_entries entries = Ok tt <->
  Forall (fun e => e.1 < MAX_PCRS /\ length e.2 = PCR_LEN) entries.
Proof.
  induction entries as [|[i v] entries IH]; simpl; [by split; intros; [constructor|]|].
  rewrite Forall_cons. simpl.
  destruct (Z.leb_spec MAX_PCRS i); [split; [done|]; intros [[? ?] ?]; lia|].
  destruct (Nat.eqb_spec (length v) PCR_LEN); simpl; [|split; [done|]; naive_solver].
  rewrite IH. naive_solver lia.
Qed.

(** Every PCR of the document is in range and has 48 bytes. *)
Definition doc_pcrs_ok (pcrs : gmap Z bytes) : Prop :=
  forall k v, pcrs !! k = Some v -> k < MAX_PCRS /\ length v = PCR_LEN.

Lemma check_doc_entries_map pcrs :
  check_doc_entries (map_entries pcrs) = Ok tt <-> doc_pcrs_ok pcrs.
Proof.
  rewrite check_doc_entries_Ok, Forall_forall. unfold doc_pcrs_ok. split.
  - intros H k v Hk. by apply (H (k, v)), elem_of_map_entries.
  - intros H [k v] Hin%elem_of_map_entries. by apply H.
Qed.

Definition pcr_or_zero (pcrs : gmap Z bytes) (index : Z) : bytes :=
  default ZERO_PCR (pcrs !! index).

Lemma pcr_or_zero_length pcrs k : doc_pcrs_ok pcrs -> length (pcr_or_zero pcrs k) = PCR_LEN.
Proof.
  intros H. unfold pcr_or_zero. destruct (pcrs !! k) as [v|] eqn:E; [simpl; by apply H in E as [_ ?]|].
  apply length_replicate.
Qed.

Lemma image_pcr_ok pcrs k :
  doc_pcrs_ok pcrs ->
  image_pcr pcrs k = match pcrs !! k with
                     | Some _ => Ok (pcr_or_zero pcrs k) | None => Err (MissingImagePcr k) end.
Proof.
  intros H. unfold image_pcr, pcr_or_zero. destruct (pcrs !! k) as [v|] eqn:E; [|done].
  simpl. apply fixed_Ok. split; [done|]. by apply H in E as [_ ?].
Qed.

Lemma doc_user_pcrs_ok pcrs slot n :
  doc_pcrs_ok pcrs ->
  doc_user_pcrs pcrs slot n =
  Ok (pcr_or_zero pcrs <$> seqZ (USER_PCR_FIRST + slot) (Z.of_nat n)).
Proof.
  intros H. revert slot. induction n as [|n IH]; intros slot; [done|].
  rewrite seqZ_cons by lia. cbn [doc_user_pcrs]. rewrite IH.
  assert (match pcrs !! (USER_PCR_FIRST + slot) with
          | Some v => fixed (USER_PCR_FIRST + slot) v | None => Ok ZERO_PCR end
          = Ok (pcr_or_zero pcrs (USER_PCR_FIRST + slot))) as ->.
  { unfold pcr_or_zero. destruct (pcrs !! _) as [v|] eqn:E; [|done].
    apply fixed_Ok. split; [done|]. by apply H in E as [_ ?]. }
  cbn [fmap list_fmap]. repeat f_equal; lia.
Qed.

(** The identity a well-formed document denotes. *)
Definition doc_identity (pcrs : gmap Z bytes) : PinIdentity :=
  mkPinIdentity (pcr_or_zero pcrs <$> [0; 1; 2]) (pcr_or_zero pcrs <$> seqZ 16 16).

Lemma from_doc_pcrs_ok pcrs :
  doc_pcrs_ok pcrs ->
  from_doc_pcrs pcrs =
  match pcrs !! 0, pcrs !! 1, pcrs !! 2 with
  | Some _, Some _, Some _ => Ok (doc_identity pcrs)
  | None, _, _ => Err (MissingImagePcr 0)
  | _, None, _ => Err (MissingImagePcr 1)
  | _, _, None => Err (MissingImagePcr 2)
  end.
Proof.
  intros H. unfold from_doc_pcrs. rewrite (proj2 (check_doc_entries_map pcrs) H).
  rewrite !image_pcr_ok, doc_user_pcrs_ok by done.
  by destruct (pcrs !! 0), (pcrs !! 1), (pcrs !! 2).
Qed.

Lemma doc_identity_wf pcrs : doc_pcrs_ok pcrs -> pin_identity_wf (doc_identity pcrs).
Proof.
  intros H. split; [done|done|]. cbn [pi_image pi_user doc_identity].
  rewrite <-fmap_app. apply Forall_fmap, Forall_true. intros k. by apply pcr_or_zero_length.
Qed.

Lemma from_doc_pcrs_Ok_inv pcrs i :
  from_doc_pcrs pcrs = Ok i -> doc_pcrs_ok pcrs /\ i = doc_identity pcrs.
Proof.
  intros H. assert (Hok : doc_pcrs_ok pcrs).
  { apply check_doc_entries_map. unfold from_doc_pcrs in H.
    destruct (check_doc_entries _) as [[]|]; done. }
  rewrite from_doc_pcrs_ok in H by done. split; [done|].
  by destruct (pcrs !! 0), (pcrs !! 1), (pcrs !! 2); result_inv.
Qed.

Lemma doc_identity_pcr pcrs index :
  index ∈ PIN_IDENTITY_PCR_INDICES ->
  pcr (doc_identity pcrs) index = Some (pcr_or_zero pcrs index).
Proof. unfold PIN_IDENTITY_PCR_INDICES. rewrite !elem_of_cons, elem_of_nil.
  intros Hi; repeat destruct Hi as [->|Hi]; done. Qed.

(** ** The wire form *)

Lemma find_zip (names vals : list string) k n v :
  NoDup names -> names !! k = Some n -> vals !! k = Some v ->
  List.find (fun e => String.eqb e.1 n) (zip names vals) = Some (n, v).
Proof.
  revert vals k. induction names as [|m names IH]; intros vals k Hnd Hn Hv; [done|].
  apply NoDup_cons in Hnd as [Hm Hnd]. destruct vals as [|w vals]; [done|]. simpl.
  destruct k as [|k]; simplify_eq/=.
  - by rewrite String.eqb_refl.
  - destruct (String.eqb_spec m n) as [->|]; [|by eapply IH].
    destruct Hm. by eapply list_elem_of_lookup_2.
Qed.

Lemma pin_wire_names_NoDup : NoDup pin_wire_names.
Proof. apply (bool_decide_unpack _). vm_compute. exact I. Qed.

Lemma pin_wire_zip vals :
  length vals = 19%nat -> pin_wire (zip pin_wire_names vals) = Some vals.
Proof.
  intros Hl. unfold pin_wire.
  assert (E : (zip pin_wire_names vals).*1 = pin_wire_names) by (by apply fst_zip; rewrite Hl).
  rewrite E, decide_True.
  2:{ split; [apply pin_wire_names_NoDup|]. by apply Forall_forall. }
  apply mapM_Some, Forall2_same_length_lookup. split; [done|].
  intros k n v Hn Hv. by rewrite (find_zip _ _ k n v pin_wire_names_NoDup).
Qed.

Lemma from_hexes_encode hex_encode hex_decode indices (vs : list bytes) :
  Forall (fun v => hex_decode (hex_encode v) = Some v /\ length v = PCR_LEN) vs ->
  length indices = length vs ->
  from_hexes hex_decode indices (hex_encode <$> vs) = Ok vs.
Proof.
  intros H. revert indices. induction H as [|v vs [Hv Hl] _ IH]; intros [|i indices] Hlen;
    try done; try discriminate. cbn [from_hexes fmap list_fmap].
  unfold from_hex. rewrite Hv. simpl. rewrite (proj2 (fixed_Ok i v v)) by done.
  rewrite IH; [done|]. by injection Hlen.
Qed.

(** Two different enclave identities share a pin slot only through a
    SHA-256 collision, which the two canonical encodings (949 bytes each)
    exhibit.  Image PCRs and every user PCR are part of the slot's name. *)
Theorem pin_slot_names_one_identity sha256 i1 i2
    (Hwf1 : pin_identity_wf i1) (Hwf2 : pin_identity_wf i2)
    (Hne : i1 <> i2) (Hkey : pin_key sha256 i1 = pin_key sha256 i2) :
  canonical_bytes i1 <> canonical_bytes i2 /\
  sha256 (canonical_bytes i1) = sha256 (canonical_bytes i2) /\
  length (canonical_bytes i1) = 949%nat /\ length (canonical_bytes i2) = 949%nat.
Proof.
  split_and!; [|exact Hkey|by apply canonical_bytes_length|by apply canonical_bytes_length].
  intros Hc. by apply Hne, canonical_bytes_inj.
Qed.

(** A document yields an identity exactly when every PCR it carries is in
    range and 48 bytes long and PCR0-2 are present; the identity then holds,
    at each of its nineteen indices, the document's value or 48 zero bytes
    when the document has none.  PCRs outside those indices have no effect. *)
Theorem document_identity_is_read_exactly pcrs :
  (forall i, from_doc_pcrs pcrs = Ok i ->
     pin_identity_wf i /\
     forall index, index ∈ PIN_IDENTITY_PCR_INDICES ->
       pcr i index = Some (pcr_or_zero pcrs index)) /\
  (is_ok (from_doc_pcrs pcrs) = true <->
     doc_pcrs_ok pcrs /\ is_Some (pcrs !! 0) /\ is_Some (pcrs !! 1) /\ is_Some (pcrs !! 2)) /\
  (forall pcrs', doc_pcrs_ok pcrs -> doc_pcrs_ok pcrs' ->
     (forall index, index ∈ PIN_IDENTITY_PCR_INDICES -> pcrs !! index = pcrs' !! index) ->
     from_doc_pcrs pcrs = from_doc_pcrs pcrs').
Proof.
  split_and!.
  - intros i Hi. destruct (from_doc_pcrs_Ok_inv _ _ Hi) as [Hok ->].
    split; [by apply doc_identity_wf|]. intros. by apply doc_identity_pcr.
  - split.
    + intros H. destruct (from_doc_pcrs pcrs) as [i|] eqn:E; [|done].
      pose proof (from_doc_pcrs_Ok_inv _ _ E) as [Hok _]. rewrite from_doc_pcrs_ok in E by done.
      destruct (pcrs !! 0), (pcrs !! 1), (pcrs !! 2); eauto; done.
    + intros (Hok & [? E0] & [? E1] & [? E2]).
      rewrite from_doc_pcrs_ok by done. by rewrite E0, E1, E2.
  - intros pcrs' H H' Heq. rewrite !from_doc_pcrs_ok by done.
    change PIN_IDENTITY_PCR_INDICES with ([0; 1; 2] ++ seqZ 16 16) in Heq.
    assert (Hid : doc_identity pcrs = doc_identity pcrs').
    { unfold doc_identity. f_equal; apply list_fmap_ext; intros k x Hx;
        unfold pcr_or_zero; rewrite Heq; try done;
        apply list_elem_of_lookup_2 in Hx; apply elem_of_app; auto. }
    rewrite Hid, !Heq; [done|..]; apply elem_of_app; left; set_solver.
Qed.

(** The wire form of an identity round-trips: decoding the nineteen hex
    fields an identity serializes to gives the identity back, for any hex
    codec that decodes what it encoded. *)
Theorem pin_identity_wire_roundtrip hex_encode hex_decode i
    (Hhex : forall b, forallb is_byte b = true -> hex_decode (hex_encode b) = Some b)
    (Hwf : pin_identity_wf i)
    (Hbytes : Forall (fun p => forallb is_byte p = true) (pi_image i ++ pi_user i)) :
  pin_deserialize hex_decode (pin_serialize hex_encode i) = Ok i.
Proof.
  destruct Hwf as [Hi Hu Hp]. unfold pin_deserialize, pin_serialize.
  rewrite pin_wire_zip by (by rewrite length_fmap, length_app, Hi, Hu). cbn [ok_or].
  rewrite from_hexes_encode.
  - cbn [map_err]. rewrite <-Hi, take_app_length, drop_app_length. by destruct i.
  - rewrite Forall_forall in Hp, Hbytes |- *. intros v Hv. split; [apply Hhex|]; auto.
  - by rewrite length_app, Hi, Hu.
Qed.

(** ** Witnesses *)

Definition demo_identity (a b : Z) : PinIdentity :=
  mkPinIdentity (replicate 3 (replicate 48 a)) (replicate 16 (replicate 48 b)).

Lemma demo_identity_wf a b : pin_identity_wf (demo_identity a b).
Proof. split; [done|done|]. repeat constructor. Qed.

(** A digest with a collision: it keeps the length only. *)
Lemma pin_slot_names_one_identity_witness :
  canonical_bytes (demo_identity 1 0) <> canonical_bytes (demo_identity 1 2) /\
  [949] = [949] /\ length (canonical_bytes (demo_identity 1 0)) = 949%nat /\
  length (canonical_bytes (demo_identity 1 2)) = 949%nat.
Proof.
  apply (pin_slot_names_one_identity (fun l => [Z.of_nat (length l)])
           (demo_identity 1 0) (demo_identity 1 2)
           (demo_identity_wf 1 0) (demo_identity_wf 1 2)); [|vm_compute; reflexivity].
  intros H. vm_compute in H. discriminate.
Defined.

(** Lower-case hexadecimal. *)
Definition hex_digit (n : Z) : Ascii.ascii :=
  Ascii.ascii_of_N (Z.to_N (if n <? 10 then 48 + n else 87 + n)).
Definition hex_value (a : Ascii.ascii) : option Z :=
  let n := Z.of_N (Ascii.N_of_ascii a) in
  if (48 <=? n) && (n <=? 57) then Some (n - 48)
  else if (97 <=? n) && (n <=? 102) then Some (n - 87)
  else if (65 <=? n) && (n <=? 70) then Some (n - 55)
  else None.
Fixpoint demo_hex_encode (b : bytes) : string :=
  match b with
  | [] => EmptyString
  | x :: r => String (hex_digit (x / 16)) (String (hex_digit (x mod 16)) (demo_hex_encode r))
  end.
Fixpoint demo_hex_decode (s : string) : option bytes :=
  match s with
  | EmptyString => Some []
  | String a (String b r) =>
      match hex_value a, hex_value b, demo_hex_decode r with
      | Some x, Some y, Some t => Some (x * 16 + y :: t)
      | _, _, _ => None
      end
  | _ => None
  end.

Lemma hex_digit_value n : 0 <= n < 16 -> hex_value (hex_digit n) = Some n.
Proof.
  intros H.
  assert (Hall : forallb (fun n => bool_decide (hex_value (hex_digit n) = Some n)) (seqZ 0 16)
                 = true) by (vm_compute; reflexivity).
  rewrite forallb_forall in Hall. apply (bool_decide_eq_true_1 _), Hall, list_elem_of_In, elem_of_seqZ.
  lia.
Qed.

Lemma demo_hex_roundtrip b :
  forallb is_byte b = true -> demo_hex_decode (demo_hex_encode b) = Some b.
Proof.
  induction b as [|x b IH]; [done|]. cbn [forallb]. intros [Hx Hb]%andb_true_iff.
  unfold is_byte in Hx. cbn [demo_hex_encode demo_hex_decode].
  rewrite !hex_digit_value, IH by first [done | Z.to_euclidean_division_equations; lia].
  f_equal. f_equal. Z.to_euclidean_division_equations; lia.
Qed.

Lemma pin_identity_wire_roundtrip_witness :
  pin_deserialize demo_hex_decode (pin_serialize demo_hex_encode (demo_identity 255 7))
  = Ok (demo_identity 255 7).
Proof.
  apply (pin_identity_wire_roundtrip demo_hex_encode demo_hex_decode (demo_identity 255 7)
           demo_hex_roundtrip (demo_identity_wf 255 7)).
  vm_compute. repeat constructor.
Defined.
