(* ===== verification/Signing.v ===== *)
(** Control-key signatures ([enclavia-protocol/src/signing.rs]): domain
    separation and canonical encoding.

    The ECDSA P-256 implementation is the class [P256] and a type's CBOR codec
    the class [Cbor]; their documented laws are the classes [P256Laws] and
    [CborLaws].  The results: a signed message determines its domain and its
    payload, a signature made in one domain for one payload is a signature
    over a message no other domain or payload has, a software signature
    verifies, and a canonically decoded value has exactly one encoding. *)
From stdpp Require Import base list strings.
From S2P Require Import Prelude.
#[local] Open Scope Z_scope.

Inductive ChainLinkKind : Type := Boot | Upgrade | Revocation.

#[global] Instance ChainLinkKind_eq_dec : EqDecision ChainLinkKind.
Proof. solve_decision. Defined.

Inductive SignedDomain : Type :=
| Dom_UpgradePayload
| Dom_RevocationPayload
| Dom_ControlCommand.

#[global] Instance SignedDomain_eq_dec : EqDecision SignedDomain.
Proof. solve_decision. Defined.

(** The NUL-terminated context strings. *)
Definition context (d : SignedDomain) : bytes :=
  match d with
  | Dom_UpgradePayload => bytes_of_string "enclavia/upgrade-payload/v1" ++ [0]
  | Dom_RevocationPayload => bytes_of_string "enclavia/revocation-payload/v1" ++ [0]
  | Dom_ControlCommand => bytes_of_string "enclavia/control-command/v1" ++ [0]
  end.

Definition for_link (kind : ChainLinkKind) : option SignedDomain :=
  match kind with
  | Upgrade => Some Dom_UpgradePayload
  | Revocation => Some Dom_RevocationPayload
  | Boot => None
  end.

Definition signed_message (domain : SignedDomain) (bs : bytes) : bytes := context domain ++ bs.

(** The p256 crate. *)
Class P256 := {
  SigningKey : Type;
  VerifyingKey : Type;
  Signature : Type;
  sk_verifying_key : SigningKey -> VerifyingKey;
  sk_sign : SigningKey -> bytes -> Signature;
  normalize_s : Signature -> option Signature;
  sig_to_bytes : Signature -> bytes;
  sig_from_slice : bytes -> option Signature;
  vk_from_sec1_bytes : bytes -> result VerifyingKey string;
  vk_verify : VerifyingKey -> bytes -> Signature -> bool;
}.

Class P256Laws `{P256} : Prop := {
  sig_bytes_roundtrip s : sig_from_slice (sig_to_bytes s) = Some s;
  sig_bytes_length s : length (sig_to_bytes s) = 64%nat;
  sign_verifies sk m s :
    (s = sk_sign sk m \/ normalize_s (sk_sign sk m) = Some s) ->
    vk_verify (sk_verifying_key sk) m s = true;
}.

Inductive ControlSignatureError : Type := Sig_Shape | Sig_Invalid.

Section Signatures.
Context `{P256}.

Definition sign_control (signing_key : SigningKey) (domain : SignedDomain) (bs : bytes) : bytes :=
  let sig := sk_sign signing_key (signed_message domain bs) in
  let sig := default sig (normalize_s sig) in
  sig_to_bytes sig.

Definition verify_control_signature (verifying_key : VerifyingKey) (domain : SignedDomain)
    (bs signature : bytes) : result unit ControlSignatureError :=
  let? sig := ok_or (sig_from_slice signature) Sig_Shape in
  if vk_verify verifying_key (signed_message domain bs) sig then Ok tt else Err Sig_Invalid.
End Signatures.

(** The CBOR codec of a type (ciborium with the type's serde instance). *)
Class Cbor (T : Type) := {
  encode : T -> bytes;
  from_reader : bytes -> result T string;
}.

Class CborLaws (T : Type) `{Cbor T} : Prop :=
  cbor_roundtrip : forall v : T, from_reader (encode v) = Ok v.

Inductive CanonicalDecodeError : Type :=
| Decode (detail : string)
| NotCanonical.

Definition decode_canonical {T} `{Cbor T} (bs : bytes) : result T CanonicalDecodeError :=
  let? value := map_err Decode (from_reader bs) in
  if decide (encode value = bs) then Ok value else Err NotCanonical.

(** ** Domain separation *)

Lemma app_cons_inj {A} (x : A) (l1 l2 r1 r2 : list A) :
  x ∉ l1 -> x ∉ l2 -> l1 ++ x :: r1 = l2 ++ x :: r2 -> l1 = l2 /\ r1 = r2.
Proof.
  revert l2. induction l1 as [|a l1 IH]; intros [|b l2] H1 H2 Heq; simplify_eq/=; [done|..].
  - destruct H2. left.
  - destruct H1. left.
  - apply not_elem_of_cons in H1 as [_ H1], H2 as [_ H2].
    by destruct (IH l2 H1 H2) as [-> ->].
Qed.

(** Each context is a NUL-free string followed by NUL, so none is a prefix of
    another. *)
Lemma signed_message_inj d1 d2 b1 b2 :
  signed_message d1 b1 = signed_message d2 b2 -> d1 = d2 /\ b1 = b2.
Proof.
  unfold signed_message, context.
  assert (Hnul : forall d, exists s, context d = s ++ [0] /\ 0 ∉ s).
  { intros d; destruct d; eexists; (split; [reflexivity|]);
      apply (bool_decide_unpack _); vm_compute; exact I. }
  fold (context d1) (context d2). intros Heq.
  destruct (Hnul d1) as (s1 & E1 & N1), (Hnul d2) as (s2 & E2 & N2).
  rewrite E1, E2, <-!app_assoc in Heq. apply app_cons_inj in Heq as [Hs ->]; [|done|done].
  split; [|done]. rewrite Hs, <-E2 in E1. clear -E1.
  destruct d1, d2; try done; vm_compute in E1; discriminate.
Qed.

Lemma verify_control_signature_Ok `{P256} vk d bs sig :
  verify_control_signature vk d bs sig = Ok tt <->
  exists s, sig_from_slice sig = Some s /\ vk_verify vk (signed_message d bs) s = true.
Proof.
  unfold verify_control_signature. destruct (sig_from_slice sig) as [s|]; simpl.
  - destruct (vk_verify vk _ s) eqn:E; split; try done; [eauto|].
    intros (s' & ? & ?). simplify_eq. congruence.
  - split; [done|]. by intros (? & ? & _).
Qed.

Lemma decode_canonical_Ok {T} `{Cbor T} bs (v : T) :
  decode_canonical bs = Ok v <-> from_reader bs = Ok v /\ encode v = bs.
Proof.
  unfold decode_canonical. destruct (from_reader bs) as [w|]; simpl; [|split; [done|by intros []]].
  destruct (decide _); split; intros; result_inv; done.
Qed.

(** A control-key signature authorizes one kind of action on one payload.
    If the same signature bytes verify for two (domain, payload) pairs under
    one key, then either the pairs are equal or the signature scheme accepts
    one signature for two different messages, which the two signed messages
    exhibit; no choice of payload bytes makes the messages of two domains
    coincide. *)
Theorem signature_names_one_domain_and_payload `{P256} vk d1 d2 b1 b2 sig
    (H1 : verify_control_signature vk d1 b1 sig = Ok tt)
    (H2 : verify_control_signature vk d2 b2 sig = Ok tt) :
  (d1 = d2 /\ b1 = b2) \/
  (signed_message d1 b1 <> signed_message d2 b2 /\
   exists s, vk_verify vk (signed_message d1 b1) s = true /\
             vk_verify vk (signed_message d2 b2) s = true).
Proof.
  apply verify_control_signature_Ok in H1 as (s & Hs & Hv1), H2 as (s' & Hs' & Hv2).
  simplify_eq. destruct (decide (signed_message d1 b1 = signed_message d2 b2)) as [He|Hne].
  - left. by apply signed_message_inj.
  - right. eauto.
Qed.

(** What a software key signs in a domain verifies in that domain under
    its public key, and the signature has the 64-byte wire shape. *)
Theorem sign_then_verify `{P256Laws} sk d bs :
  verify_control_signature (sk_verifying_key sk) d bs (sign_control sk d bs) = Ok tt /\
  length (sign_control sk d bs) = 64%nat.
Proof.
  unfold sign_control. split; [|apply sig_bytes_length].
  apply verify_control_signature_Ok. eexists. split; [apply sig_bytes_roundtrip|].
  apply sign_verifies. destruct (normalize_s _); simpl; auto.
Qed.

(** A signed or hashed value has exactly one accepted encoding: bytes that
    decode canonically are the encoder's output for the value, so two byte
    strings decoding to one value are equal, and the encoder's output is
    accepted. *)
Theorem canonical_encoding_is_unique {T} `{CborLaws T} (v : T) bs :
  decode_canonical bs = Ok v <-> bs = encode v.
Proof.
  rewrite decode_canonical_Ok. split; [by intros [_ ->]|].
  intros ->. split; [apply cbor_roundtrip|done].
Qed.

(** ** Witnesses *)

(** A toy scheme: the signature repeats the message's length and sum. *)
Definition toy_tag (key : Z) (m : bytes) : bytes :=
  take 64 ([key; Z.of_nat (length m); fold_right Z.add 0 m] ++ replicate 64 0).

#[global] Instance toy_P256 : P256 := {|
  SigningKey := Z; VerifyingKey := Z; Signature := { l : bytes | length l = 64%nat };
  sk_verifying_key := id;
  sk_sign key m := exist _ (toy_tag key m) eq_refl;
  normalize_s _ := None;
  sig_to_bytes s := proj1_sig s;
  sig_from_slice l := match Nat.eq_dec (length l) 64%nat with
                      | left e => Some (exist _ l e) | right _ => None end;
  vk_from_sec1_bytes l := match l with [k] => Ok k | _ => Err "length"%string end;
  vk_verify key m s := bool_decide (proj1_sig s = toy_tag key m);
|}.

#[global] Instance toy_P256Laws : P256Laws.
Proof.
  split.
  - intros [l Hl]. simpl. destruct (Nat.eq_dec _ _) as [e|]; [|done]. do 2 f_equal.
    apply Eqdep_dec.UIP_dec, Nat.eq_dec.
  - intros [l Hl]. exact Hl.
  - intros sk m s [->|?]; [|done]. by apply bool_decide_eq_true.
Qed.

Lemma signature_names_one_domain_and_payload_witness :
  (Dom_UpgradePayload = Dom_UpgradePayload /\ [1; 2] = [2; 1]) \/
  (signed_message Dom_UpgradePayload [1; 2] <> signed_message Dom_UpgradePayload [2; 1] /\
   exists s, vk_verify 5 (signed_message Dom_UpgradePayload [1; 2]) s = true /\
             vk_verify 5 (signed_message Dom_UpgradePayload [2; 1]) s = true).
Proof.
  apply (signature_names_one_domain_and_payload (H := toy_P256) 5 _ _ _ _
           (toy_tag 5 (signed_message Dom_UpgradePayload [1; 2])));
    vm_compute; reflexivity.
Defined.

Lemma sign_then_verify_witness :
  verify_control_signature (H := toy_P256) 7 Dom_ControlCommand [1; 2; 3]
    (sign_control (H := toy_P256) 7 Dom_ControlCommand [1; 2; 3]) = Ok tt /\
  length (sign_control (H := toy_P256) 7 Dom_ControlCommand [1; 2; 3]) = 64%nat.
Proof. exact (sign_then_verify (H := toy_P256) 7 Dom_ControlCommand [1; 2; 3]). Defined.

#[local] Instance toy_Cbor : Cbor Z := {|
  encode z := [z];
  from_reader l := match l with z :: _ => Ok z | [] => Err "eof"%string end;
|}.
#[local] Instance toy_CborLaws : CborLaws Z := fun v => eq_refl.

Lemma canonical_encoding_is_unique_witness : decode_canonical [5] = Ok 5 <-> [5] = encode 5.
Proof. exact (canonical_encoding_is_unique 5 [5]). Defined.
