(* ===== verification/Attestation.v ===== *)
(** Attestation documents ([enclavia-protocol/src/attestation.rs] and
    [nitro_verify.rs]).

    A document received from outside is validated in a named context: on a
    live session its nonce must be the session's handshake hash, on a chain
    link its user data must be the SHA-256 of the link's payload.  The decoders
    (COSE, X.509, base64), the certificate-path check of webpki and the COSE
    signature check are the class [NitroLib]; the structure around them, the
    order of the checks and the error each returns are definitions.

    The results: validation succeeds exactly when every check of the context
    holds; a document is bound to one session, and to one payload up to a
    SHA-256 collision; the policy checks compare the whole identity. *)
From stdpp Require Import gmap list strings.
From S2P Require Import Prelude Identity.
#[local] Open Scope Z_scope.

Inductive RejectionReason : Type :=
| Malformed
| RR_NotYetValid
| RR_Expired
| UntrustedChain
| RR_Signature
| ClockSkew
| NonceMismatch
| RR_PayloadBindingMismatch
| RR_PcrMismatch
| RR_SkipChainNotCompiled.

Inductive AttestationError : Type :=
| Validation (reason : RejectionReason)
| InvalidPcrLength (idx : Z) (len : nat)
| InvalidPcrHex (idx : Z)
| InvalidControlPubkey
| PayloadBindingMismatch
| InvalidControlNonce
| PcrsNotExpected
| InvalidIdentity (e : PinIdentityError)
| SkipChainNotCompiled.

Definition reason (e : AttestationError) : RejectionReason :=
  match e with
  | Validation r => r
  | InvalidPcrLength _ _ | InvalidPcrHex _ | InvalidControlPubkey | InvalidControlNonce
  | InvalidIdentity _ => Malformed
  | PayloadBindingMismatch => RR_PayloadBindingMismatch
  | PcrsNotExpected => RR_PcrMismatch
  | SkipChainNotCompiled => RR_SkipChainNotCompiled
  end.

Definition CONTROL_PUBKEY_LEN : nat := 65.

Definition NON_UPGRADABLE_CONTROL_KEY : bytes := [
  4; 34; 24; 173; 41; 23; 125; 154; 92; 179; 82; 196; 120; 100; 6; 250; 118; 87; 170; 193; 108;
  228; 178; 232; 25; 205; 189; 127; 110; 189; 250; 90; 142; 177; 26; 247; 104; 105; 58; 214;
  95; 197; 178; 33; 16; 63; 16; 138; 233; 80; 135; 179; 29; 104; 84; 232; 19; 81; 96; 109; 196;
  226; 212; 247; 218].

Definition AWS_NITRO_ROOT_CA_DER : bytes := [
  48; 130; 2; 17; 48; 130; 1; 150; 160; 3; 2; 1; 2; 2; 17; 0; 249; 49; 117; 104; 27; 144; 175;
  225; 29; 70; 204; 180; 228; 231; 248; 86; 48; 10; 6; 8; 42; 134; 72; 206; 61; 4; 3; 3; 48;
  73; 49; 11; 48; 9; 6; 3; 85; 4; 6; 19; 2; 85; 83; 49; 15; 48; 13; 6; 3; 85; 4; 10; 12; 6; 65;
  109; 97; 122; 111; 110; 49; 12; 48; 10; 6; 3; 85; 4; 11; 12; 3; 65; 87; 83; 49; 27; 48; 25;
  6; 3; 85; 4; 3; 12; 18; 97; 119; 115; 46; 110; 105; 116; 114; 111; 45; 101; 110; 99; 108; 97;
  118; 101; 115; 48; 30; 23; 13; 49; 57; 49; 48; 50; 56; 49; 51; 50; 56; 48; 53; 90; 23; 13;
  52; 57; 49; 48; 50; 56; 49; 52; 50; 56; 48; 53; 90; 48; 73; 49; 11; 48; 9; 6; 3; 85; 4; 6;
  19; 2; 85; 83; 49; 15; 48; 13; 6; 3; 85; 4; 10; 12; 6; 65; 109; 97; 122; 111; 110; 49; 12;
  48; 10; 6; 3; 85; 4; 11; 12; 3; 65; 87; 83; 49; 27; 48; 25; 6; 3; 85; 4; 3; 12; 18; 97; 119;
  115; 46; 110; 105; 116; 114; 111; 45; 101; 110; 99; 108; 97; 118; 101; 115; 48; 118; 48; 16;
  6; 7; 42; 134; 72; 206; 61; 2; 1; 6; 5; 43; 129; 4; 0; 34; 3; 98; 0; 4; 252; 2; 84; 235; 166;
  8; 193; 243; 104; 112; 226; 154; 218; 144; 190; 70; 56; 50; 146; 115; 110; 137; 75; 255; 246;
  114; 217; 137; 68; 75; 80; 81; 229; 52; 164; 177; 246; 219; 227; 192; 188; 88; 26; 50; 183;
  177; 118; 7; 14; 222; 18; 214; 154; 63; 234; 33; 27; 102; 231; 82; 207; 125; 209; 221; 9; 95;
  111; 19; 112; 244; 23; 8; 67; 217; 220; 16; 1; 33; 228; 207; 99; 1; 40; 9; 102; 68; 135; 201;
  121; 98; 132; 48; 77; 197; 63; 244; 163; 66; 48; 64; 48; 15; 6; 3; 85; 29; 19; 1; 1; 255; 4;
  5; 48; 3; 1; 1; 255; 48; 29; 6; 3; 85; 29; 14; 4; 22; 4; 20; 144; 37; 181; 13; 217; 5; 71;
  231; 150; 195; 150; 250; 114; 157; 207; 153; 169; 223; 75; 150; 48; 14; 6; 3; 85; 29; 15; 1;
  1; 255; 4; 4; 3; 2; 1; 134; 48; 10; 6; 8; 42; 134; 72; 206; 61; 4; 3; 3; 3; 105; 0; 48; 102;
  2; 49; 0; 163; 127; 47; 145; 161; 201; 189; 94; 231; 184; 98; 124; 22; 152; 210; 85; 3; 142;
  31; 3; 67; 249; 91; 99; 169; 98; 140; 61; 57; 128; 149; 69; 161; 30; 188; 191; 46; 59; 85;
  216; 174; 238; 113; 180; 195; 214; 173; 243; 2; 49; 0; 162; 243; 155; 22; 5; 178; 112; 40;
  165; 221; 75; 160; 105; 181; 1; 110; 101; 180; 251; 222; 143; 224; 6; 29; 106; 83; 25; 127;
  156; 218; 245; 217; 67; 188; 97; 252; 43; 235; 3; 203; 111; 238; 141; 35; 2; 243; 223; 246].

(** The fields of the NSM document the code reads. *)
Record AttestationDoc := mkAttestationDoc {
  doc_timestamp : Z;
  doc_pcrs : gmap Z bytes;
  doc_certificate : bytes;
  doc_cabundle : list bytes;
  doc_user_data : option bytes;
  doc_nonce : option bytes;
}.

(** The leaf's subject public key info. *)
Record Spki := mkSpki {
  spki_algorithm_oid : string;
  spki_curve : option string;
  spki_key_bytes : option bytes;
}.

(** The errors of webpki the code distinguishes. *)
Inductive WebpkiError : Type :=
| CertNotValidYet
| CertExpired
| InvalidSignatureForPublicKey
| SignatureAlgorithmMismatch
| UnsupportedSignatureAlgorithm
| UnsupportedSignatureAlgorithmForPublicKey
| BadDer
| BadDerTime
| WebpkiOther.

(** The libraries the validation calls. *)
Class NitroLib := {
  CoseSign1 : Type;
  EndEntityCert : Type;
  TrustAnchor : Type;
  P384Key : Type;
  decode_attestation_document : bytes -> result (CoseSign1 * AttestationDoc) string;
  end_entity_cert : bytes -> option EndEntityCert;
  trust_anchor : bytes -> option TrustAnchor;
  verify_is_valid_tls_server_cert :
    EndEntityCert -> TrustAnchor -> list bytes -> Z -> result unit WebpkiError;
  certificate_from_der : bytes -> option Spki;
  p384_from_sec1_bytes : bytes -> option P384Key;
  validate_cose_signature : P384Key -> CoseSign1 -> bool;
  base64_encode : bytes -> string;
  validate_expected_nonce : AttestationDoc -> string -> bool;
}.

Definition OID_EC_PUBLIC_KEY : string := "1.2.840.10045.2.1".
Definition OID_SECP384R1 : string := "1.3.132.0.34".

Definition chain_rejection_reason (e : WebpkiError) : RejectionReason :=
  match e with
  | CertNotValidYet => RR_NotYetValid
  | CertExpired => RR_Expired
  | InvalidSignatureForPublicKey | SignatureAlgorithmMismatch
  | UnsupportedSignatureAlgorithm | UnsupportedSignatureAlgorithmForPublicKey => RR_Signature
  | BadDer | BadDerTime => Malformed
  | WebpkiOther => UntrustedChain
  end.

(** 24 hours. *)
Definition MAX_SESSION_DOC_CLOCK_SKEW_MS : Z := 24 * 60 * 60 * 1000.

Inductive Chain : Type := Verify | Skip.

Inductive Provenance : Type :=
| Local
| Session (chain_verified : bool)
| ChainLinkDoc (chain_verified : bool).

Record ValidatedAttestation := mkValidated {
  va_bytes : bytes;
  va_identity : PinIdentity;
  va_timestamp_ms : Z;
  va_user_data : option bytes;
  va_provenance : Provenance;
}.

Definition from_doc (bs : bytes) (doc : AttestationDoc) (provenance : Provenance)
    : result ValidatedAttestation AttestationError :=
  let? identity := map_err InvalidIdentity (from_doc_pcrs (doc_pcrs doc)) in
  Ok (mkValidated bs identity (doc_timestamp doc) (doc_user_data doc) provenance).

(** [user_data] read as an uncompressed SEC1 control key. *)
Definition control_pubkey (v : ValidatedAttestation) : result bytes AttestationError :=
  let? key := ok_or (va_user_data v) InvalidControlPubkey in
  if negb (Nat.eqb (length key) CONTROL_PUBKEY_LEN) then Err InvalidControlPubkey
  else if negb (default 0 (key !! 0%nat) =? 4) then Err InvalidControlPubkey
  else Ok key.

Definition control_nonce (v : ValidatedAttestation) : result bytes AttestationError :=
  let? n := ok_or (va_user_data v) InvalidControlNonce in
  if Nat.eqb (length n) 32 then Ok n else Err InvalidControlNonce.

Definition va_pcrs (v : ValidatedAttestation) : Pcrs := image_pcrs (va_identity v).

Definition require_pcrs (v : ValidatedAttestation) (expected : Pcrs)
    : result unit AttestationError :=
  if decide (va_pcrs v = expected) then Ok tt else Err (Validation RR_PcrMismatch).

Definition require_pcrs_in (v : ValidatedAttestation) (expected : list Pcrs)
    : result Pcrs AttestationError :=
  if decide (va_pcrs v ∈ expected) then Ok (va_pcrs v) else Err PcrsNotExpected.

Definition require_identity (v : ValidatedAttestation) (expected : PinIdentity)
    : result unit AttestationError :=
  let? _ := require_pcrs v (image_pcrs expected) in
  if decide (va_identity v = expected) then Ok tt else Err (Validation RR_PcrMismatch).

Section Validation.
Context `{NitroLib} (sha256 : bytes -> bytes).

(** [LeafKey::from_cert_der]: only an EC key on P-384 is a leaf key. *)
Definition leaf_key_from_cert_der (cert : bytes) : option P384Key :=
  spki ← certificate_from_der cert;
  if negb (String.eqb (spki_algorithm_oid spki) OID_EC_PUBLIC_KEY) then None
  else if negb (bool_decide (spki_curve spki = Some OID_SECP384R1)) then None
  else point ← spki_key_bytes spki; p384_from_sec1_bytes point.

Definition validate_at_doc_timestamp (data root_der : bytes)
    : result AttestationDoc RejectionReason :=
  let? (cose, doc) := map_err (fun _ => Malformed) (decode_attestation_document data) in
  let at_ := doc_timestamp doc / 1000 in
  let? leaf := ok_or (end_entity_cert (doc_certificate doc)) Malformed in
  let? anchor := ok_or (trust_anchor root_der) UntrustedChain in
  let? _ := map_err chain_rejection_reason
              (verify_is_valid_tls_server_cert leaf anchor (doc_cabundle doc) at_) in
  let? key := ok_or (leaf_key_from_cert_der (doc_certificate doc)) Malformed in
  if validate_cose_signature key cose then Ok doc else Err RR_Signature.

Definition decode_only (bs : bytes) : result AttestationDoc AttestationError :=
  let? (_, doc) := map_err (fun _ => Validation Malformed) (decode_attestation_document bs) in
  Ok doc.

(** The document under the chosen chain mode, and whether it was verified. *)
Definition open_document (bs : bytes) (chain : Chain) (root_der : bytes)
    : result (AttestationDoc * bool) AttestationError :=
  match chain with
  | Verify =>
      let? doc := map_err Validation (validate_at_doc_timestamp bs root_der) in Ok (doc, true)
  | Skip => let? doc := decode_only bs in Ok (doc, false)
  end.

Definition check_nonce (doc : AttestationDoc) (handshake_hash : bytes)
    : result unit AttestationError :=
  if validate_expected_nonce doc (base64_encode handshake_hash) then Ok tt
  else Err (Validation NonceMismatch).

Definition validate_session_with (bs handshake_hash : bytes) (chain : Chain)
    (root_der : bytes) (now_ms : Z) : result ValidatedAttestation AttestationError :=
  let? (doc, chain_verified) := open_document bs chain root_der in
  let skew := Z.abs (doc_timestamp doc - now_ms) in
  if MAX_SESSION_DOC_CLOCK_SKEW_MS <? skew then Err (Validation ClockSkew)
  else
    let? _ := check_nonce doc handshake_hash in
    from_doc bs doc (Session chain_verified).

Definition validate_session_at (bs handshake_hash : bytes) (now_ms : Z)
    : result ValidatedAttestation AttestationError :=
  validate_session_with bs handshake_hash Verify AWS_NITRO_ROOT_CA_DER now_ms.

Definition validate_session_skip_chain_at (bs handshake_hash : bytes) (now_ms : Z)
    : result ValidatedAttestation AttestationError :=
  validate_session_with bs handshake_hash Skip AWS_NITRO_ROOT_CA_DER now_ms.

Definition validate_chain_link_with (bs payload : bytes) (chain : Chain) (root_der : bytes)
    : result ValidatedAttestation AttestationError :=
  let? (doc, chain_verified) := open_document bs chain root_der in
  let? user_data := ok_or (doc_user_data doc) PayloadBindingMismatch in
  if negb (bool_decide (user_data = sha256 payload)) then Err PayloadBindingMismatch
  else from_doc bs doc (ChainLinkDoc chain_verified).

(** [UnvalidatedAttestation::validate_chain_link]. *)
Definition validate_link_document (bs payload : bytes)
    : result ValidatedAttestation AttestationError :=
  validate_chain_link_with bs payload Verify AWS_NITRO_ROOT_CA_DER.

Definition validate_chain_link_skip_chain (bs payload : bytes)
    : result ValidatedAttestation AttestationError :=
  validate_chain_link_with bs payload Skip AWS_NITRO_ROOT_CA_DER.
End Validation.

(** ** Properties *)

Lemma require_pcrs_Ok v e : require_pcrs v e = Ok tt <-> va_pcrs v = e.
Proof. unfold require_pcrs. destruct (decide _); naive_solver. Qed.

(** The image check of [require_identity] only refines the error. *)
Lemma require_identity_Ok v e : require_identity v e = Ok tt <-> va_identity v = e.
Proof.
  unfold require_identity. split.
  - intros Hr. destruct (require_pcrs _ _); [|done]. by destruct (decide _).
  - intros <-. rewrite (proj2 (require_pcrs_Ok v _)) by done. by rewrite decide_True.
Qed.

Lemma control_pubkey_Ok v k :
  control_pubkey v = Ok k <->
  va_user_data v = Some k /\ length k = CONTROL_PUBKEY_LEN /\ k !! 0%nat = Some 4.
Proof.
  unfold control_pubkey. destruct (va_user_data v) as [u|]; simpl; [|naive_solver].
  destruct (Nat.eqb_spec (length u) CONTROL_PUBKEY_LEN) as [Hl|Hl]; simpl; [|naive_solver].
  destruct u as [|b u]; [done|]. simpl.
  destruct (Z.eqb_spec b 4) as [->|]; simpl; naive_solver.
Qed.

Lemma from_doc_Ok bs doc p v :
  from_doc bs doc p = Ok v <->
  exists i, from_doc_pcrs (doc_pcrs doc) = Ok i /\
            v = mkValidated bs i (doc_timestamp doc) (doc_user_data doc) p.
Proof.
  unfold from_doc. destruct (from_doc_pcrs _) as [i|]; simpl; split.
  - intros; result_inv; eauto.
  - intros (? & ? & ->); by result_inv.
  - done.
  - by intros (? & ? & _).
Qed.

Section Properties.
Context `{NitroLib} (sha256 : bytes -> bytes).

(** Genuine Nitro hardware signed this document: it decodes, the leaf
    certificate chains to the root at the document's own timestamp (whole
    seconds), the leaf key is on P-384, and the COSE signature verifies
    under that key. *)
Definition genuine_document (root_der bs : bytes) (doc : AttestationDoc) : Prop :=
  exists cose leaf anchor key,
    decode_attestation_document bs = Ok (cose, doc) /\
    end_entity_cert (doc_certificate doc) = Some leaf /\
    trust_anchor root_der = Some anchor /\
    verify_is_valid_tls_server_cert leaf anchor (doc_cabundle doc)
      (doc_timestamp doc / 1000) = Ok tt /\
    leaf_key_from_cert_der (doc_certificate doc) = Some key /\
    validate_cose_signature key cose = true.

Lemma validate_at_doc_timestamp_Ok bs root doc :
  validate_at_doc_timestamp bs root = Ok doc <-> genuine_document root bs doc.
Proof.
  unfold validate_at_doc_timestamp. split.
  - intros Hv. destruct (decode_attestation_document bs) as [[cose d]|] eqn:E1; [|done].
    cbn [map_err] in Hv.
    destruct (end_entity_cert _) as [leaf|] eqn:E2; [|done]. cbn [ok_or] in Hv.
    destruct (trust_anchor root) as [anchor|] eqn:E3; [|done]. cbn [ok_or] in Hv.
    destruct (verify_is_valid_tls_server_cert _ _ _ _) as [[]|] eqn:E4; [|done].
    cbn [map_err] in Hv.
    destruct (leaf_key_from_cert_der _) as [key|] eqn:E5; [|done]. cbn [ok_or] in Hv.
    destruct (validate_cose_signature key cose) eqn:E6; [|done]. result_inv.
    exists cose, leaf, anchor, key. done.
  - intros (cose & leaf & anchor & key & -> & E2 & E3 & E4 & E5 & E6).
    cbn [map_err]. rewrite E2, E3. cbn [ok_or]. rewrite E4. cbn [map_err].
    rewrite E5. cbn [ok_or]. by rewrite E6.
Qed.

Definition decodes (bs : bytes) (doc : AttestationDoc) : Prop :=
  exists cose, decode_attestation_document bs = Ok (cose, doc).

Lemma open_document_Ok bs chain root doc b :
  open_document bs chain root = Ok (doc, b) <->
  match chain with
  | Verify => b = true /\ genuine_document root bs doc
  | Skip => b = false /\ decodes bs doc
  end.
Proof.
  unfold open_document, decode_only, decodes. destruct chain.
  - rewrite <-validate_at_doc_timestamp_Ok.
    destruct (validate_at_doc_timestamp _ _); simpl; split; intros; result_inv; done.
  - destruct (decode_attestation_document bs) as [[c d]|]; simpl; split.
    + intros; result_inv. eauto.
    + intros [-> [? ?]]. by result_inv.
    + done.
    + by intros [_ [? ?]].
Qed.

Lemma open_document_decodes bs chain root doc b :
  open_document bs chain root = Ok (doc, b) -> decodes bs doc.
Proof.
  intros Ho. apply open_document_Ok in Ho. destruct chain; destruct Ho as [_ Ho]; [|done].
  destruct Ho as (cose & _ & _ & _ & Ho & _). by exists cose.
Qed.

Lemma decodes_fun bs d1 d2 : decodes bs d1 -> decodes bs d2 -> d1 = d2.
Proof. intros [c1 E1] [c2 E2]. congruence. Qed.

Lemma validate_session_with_Ok bs hh chain root now v :
  validate_session_with bs hh chain root now = Ok v <->
  exists doc b, open_document bs chain root = Ok (doc, b) /\
    Z.abs (doc_timestamp doc - now) <= MAX_SESSION_DOC_CLOCK_SKEW_MS /\
    validate_expected_nonce doc (base64_encode hh) = true /\
    from_doc bs doc (Session b) = Ok v.
Proof.
  unfold validate_session_with, check_nonce. split.
  - intros Hv. destruct (open_document _ _ _) as [[doc b]|] eqn:E; [|done].
    destruct (Z.ltb_spec MAX_SESSION_DOC_CLOCK_SKEW_MS (Z.abs (doc_timestamp doc - now)));
      [done|].
    destruct (validate_expected_nonce _ _) eqn:En; [|done]. eauto 10.
  - intros (doc & b & -> & Hs & -> & Hf). by rewrite (proj2 (Z.ltb_ge _ _) Hs).
Qed.

Lemma validate_chain_link_with_Ok bs payload chain root v :
  validate_chain_link_with sha256 bs payload chain root = Ok v <->
  exists doc b, open_document bs chain root = Ok (doc, b) /\
    doc_user_data doc = Some (sha256 payload) /\ from_doc bs doc (ChainLinkDoc b) = Ok v.
Proof.
  unfold validate_chain_link_with. split.
  - intros Hv. destruct (open_document _ _ _) as [[doc b]|] eqn:E; [|done].
    destruct (doc_user_data doc) as [u|] eqn:Eu; [|done]. cbn [ok_or] in Hv.
    destruct (bool_decide _) eqn:Eb; [|done]. apply bool_decide_eq_true in Eb as ->. eauto.
  - intros (doc & b & -> & -> & Hf). cbn [ok_or]. by rewrite bool_decide_eq_true_2.
Qed.

(** A session document is accepted exactly when genuine Nitro hardware
    signed it, its timestamp is within 24 hours of the verifier's clock, its
    nonce is this session's handshake hash, and its PCR map is a valid
    identity; the accepted document exposes that identity, timestamp and
    user data. *)
Theorem session_validation_is_exact bs hh now v :
  validate_session_at bs hh now = Ok v <->
  exists doc i,
    genuine_document AWS_NITRO_ROOT_CA_DER bs doc /\
    Z.abs (doc_timestamp doc - now) <= 24 * 60 * 60 * 1000 /\
    validate_expected_nonce doc (base64_encode hh) = true /\
    from_doc_pcrs (doc_pcrs doc) = Ok i /\
    v = mkValidated bs i (doc_timestamp doc) (doc_user_data doc) (Session true).
Proof.
  unfold validate_session_at. rewrite validate_session_with_Ok. split.
  - intros (doc & b & Ho & Hs & Hn & Hf).
    apply open_document_Ok in Ho as [-> Hg]. apply from_doc_Ok in Hf as (i & Hi & ->).
    by exists doc, i.
  - intros (doc & i & Hg & Hs & Hn & Hi & ->). exists doc, true.
    rewrite open_document_Ok, from_doc_Ok. eauto 10.
Qed.

(** A chain link's document is accepted exactly when genuine Nitro
    hardware signed it, its user data is the SHA-256 of the link's payload
    and its PCR map is a valid identity; the verifier's clock plays no
    part. *)
Theorem link_validation_is_exact bs payload v :
  validate_link_document sha256 bs payload = Ok v <->
  exists doc i,
    genuine_document AWS_NITRO_ROOT_CA_DER bs doc /\
    doc_user_data doc = Some (sha256 payload) /\
    from_doc_pcrs (doc_pcrs doc) = Ok i /\
    v = mkValidated bs i (doc_timestamp doc) (Some (sha256 payload)) (ChainLinkDoc true).
Proof.
  unfold validate_link_document. rewrite validate_chain_link_with_Ok. split.
  - intros (doc & b & Ho & Hu & Hf).
    apply open_document_Ok in Ho as [-> Hg]. apply from_doc_Ok in Hf as (i & Hi & ->).
    exists doc, i. by rewrite <-Hu.
  - intros (doc & i & Hg & Hu & Hi & ->). exists doc, true.
    rewrite open_document_Ok, from_doc_Ok. rewrite <-Hu. eauto 10.
Qed.

(** An attestation document cannot be moved between payloads: if one
    document validates on two links, the links' payloads have the same
    SHA-256, whichever chain mode either verifier used. *)
Theorem link_document_binds_its_payload bs p1 p2 c1 c2 r1 r2 v1 v2
    (H1 : validate_chain_link_with sha256 bs p1 c1 r1 = Ok v1)
    (H2 : validate_chain_link_with sha256 bs p2 c2 r2 = Ok v2) :
  sha256 p1 = sha256 p2 /\ va_identity v1 = va_identity v2.
Proof.
  apply validate_chain_link_with_Ok in H1 as (d1 & b1 & Ho1 & Hu1 & Hf1).
  apply validate_chain_link_with_Ok in H2 as (d2 & b2 & Ho2 & Hu2 & Hf2).
  apply open_document_decodes in Ho1, Ho2. pose proof (decodes_fun _ _ _ Ho1 Ho2) as ->.
  apply from_doc_Ok in Hf1 as (i1 & Hi1 & ->), Hf2 as (i2 & Hi2 & ->). simpl.
  split; congruence.
Qed.

(** The nonce check compares the base64 of the document's nonce, and
    base64 encoding is injective on byte strings. *)
Class NonceLaws : Prop := {
  expected_nonce_spec doc s :
    validate_expected_nonce doc s = true -> base64_encode <$> doc_nonce doc = Some s;
  base64_inj b1 b2 :
    forallb is_byte b1 = true -> forallb is_byte b2 = true ->
    base64_encode b1 = base64_encode b2 -> b1 = b2;
}.

(** A session document is accepted on one session only: if the same
    bytes validate against two handshake hashes, by whatever verifiers and
    at whatever times, the hashes are equal. *)
Theorem session_document_is_not_replayable (Hlaws : NonceLaws) bs h1 h2 c1 c2 r1 r2 n1 n2 v1 v2
    (Hb1 : forallb is_byte h1 = true) (Hb2 : forallb is_byte h2 = true)
    (H1 : validate_session_with bs h1 c1 r1 n1 = Ok v1)
    (H2 : validate_session_with bs h2 c2 r2 n2 = Ok v2) :
  h1 = h2.
Proof.
  apply validate_session_with_Ok in H1 as (d1 & b1 & Ho1 & _ & Hn1 & _).
  apply validate_session_with_Ok in H2 as (d2 & b2 & Ho2 & _ & Hn2 & _).
  apply open_document_decodes in Ho1, Ho2. pose proof (decodes_fun _ _ _ Ho1 Ho2) as ->.
  apply expected_nonce_spec in Hn1, Hn2. apply base64_inj; [done|done|congruence].
Qed.
End Properties.

(** ** Witnesses *)

(** A toy library: a document is a nonce byte, a seed byte that fills PCR0-2,
    and the user data; certificates always chain. *)
Definition toy_doc (bs : bytes) : AttestationDoc :=
  let seed := default 0 (bs !! 1%nat) in
  mkAttestationDoc 1000000
    (list_to_map [(0, replicate 48 seed); (1, replicate 48 seed); (2, replicate 48 seed)])
    [1] [] (Some (drop 2 bs)) (Some (take 1 bs)).

#[global] Instance toy_NitroLib : NitroLib := {|
  CoseSign1 := bytes; EndEntityCert := unit; TrustAnchor := unit; P384Key := bytes;
  decode_attestation_document bs :=
    match bs with [] => Err "eof"%string | _ => Ok (bs, toy_doc bs) end;
  end_entity_cert _ := Some tt;
  trust_anchor _ := Some tt;
  verify_is_valid_tls_server_cert _ _ _ _ := Ok tt;
  certificate_from_der _ := Some (mkSpki OID_EC_PUBLIC_KEY (Some OID_SECP384R1) (Some [4]));
  p384_from_sec1_bytes bs := Some bs;
  validate_cose_signature _ _ := true;
  base64_encode bs := demo_hex_encode bs;
  validate_expected_nonce d s :=
    match doc_nonce d with
    | Some n => String.eqb (demo_hex_encode n) s && forallb is_byte n | None => false end;
|}.

(** The toy document for a handshake byte, a seed and a user-data list. *)
Definition toy_document (nonce seed : Z) (user_data : bytes) : bytes :=
  nonce :: seed :: user_data.

Definition toy_sha256 (l : bytes) : bytes := take 32 (l ++ replicate 32 0).

Lemma link_document_binds_its_payload_witness :
  toy_sha256 [5] = toy_sha256 [5; 0] /\ demo_identity 0 0 = demo_identity 0 0.
Proof.
  destruct (link_document_binds_its_payload (H := toy_NitroLib) toy_sha256
              (toy_document 9 1 (toy_sha256 [5])) [5] [5; 0] Verify Skip [] []
              (mkValidated (toy_document 9 1 (toy_sha256 [5]))
                 (doc_identity (doc_pcrs (toy_doc [9; 1]))) 1000000 (Some (toy_sha256 [5]))
                 (ChainLinkDoc true))
              (mkValidated (toy_document 9 1 (toy_sha256 [5]))
                 (doc_identity (doc_pcrs (toy_doc [9; 1]))) 1000000 (Some (toy_sha256 [5]))
                 (ChainLinkDoc false))) as [? ?];
    [vm_compute; reflexivity | vm_compute; reflexivity | split; done].
Defined.

#[global] Instance toy_NonceLaws : NonceLaws (H := toy_NitroLib).
Proof.
  split.
  - intros d s. simpl. destruct (doc_nonce d) as [n|]; [|done].
    intros [E%String.eqb_eq _]%andb_true_iff. cbn. by rewrite <-E.
  - simpl. intros b1 b2 H1 H2 E. apply demo_hex_roundtrip in H1, H2. congruence.
Qed.

Lemma session_document_is_not_replayable_witness : [9] = [9].
Proof.
  exact (session_document_is_not_replayable (H := toy_NitroLib) toy_NonceLaws
           (toy_document 9 1 [4]) [9] [9] Verify Skip [] [] 0 1000
           (mkValidated (toy_document 9 1 [4]) (doc_identity (doc_pcrs (toy_doc [9; 1])))
              1000000 (Some [4]) (Session true))
           (mkValidated (toy_document 9 1 [4]) (doc_identity (doc_pcrs (toy_doc [9; 1])))
              1000000 (Some [4]) (Session false))
           eq_refl eq_refl ltac:(vm_compute; reflexivity) ltac:(vm_compute; reflexivity)).
Defined.

(** Validation also succeeds on a concrete document, and refuses it on another
    session. *)
Example toy_session_accepted :
  is_ok (validate_session_at (H := toy_NitroLib) (toy_document 9 1 [4]) [9] 500) = true /\
  validate_session_at (H := toy_NitroLib) (toy_document 9 1 [4]) [8] 500
    = Err (Validation NonceMismatch) /\
  validate_session_at (H := toy_NitroLib) (toy_document 9 1 [4]) [9] 100000000
    = Err (Validation ClockSkew).
Proof. vm_compute. auto. Qed.
