(* ===== verification/LocalAttestation.v ===== *)
(** Documents of the enclave's own security module:
    [ValidatedAttestation::request_local] of
    [enclavia-protocol/src/attestation.rs], and the trusted time the
    synchronizer reads from such a document ([synchronizer/src/trusted_time.rs]).

    The device is an argument, the function from a request to its answer. *)
From stdpp Require Import base list strings.
From S2P Require Import Prelude Identity Attestation.
#[local] Open Scope Z_scope.

(** What [/dev/nsm] answers to an attestation request. *)
Inductive NsmResponse : Type :=
| Nsm_InitFailed
| Nsm_Document (document : bytes)
| Nsm_Error
| Nsm_Other.

Inductive LocalAttestationError : Type :=
| LA_Device (detail : string)
| LA_Document (e : AttestationError).

(** The device: nonce, then user data. *)
Abbreviation NsmDevice := (option bytes -> option bytes -> NsmResponse).

Section Local.
Context `{NitroLib} (nsm : NsmDevice).

Definition request_local (nonce user_data : option bytes)
    : result ValidatedAttestation LocalAttestationError :=
  let? bs := match nsm nonce user_data with
             | Nsm_InitFailed => Err (LA_Device "nsm_init failed"%string)
             | Nsm_Document document => Ok document
             | Nsm_Error => Err (LA_Device "NSM attestation error"%string)
             | Nsm_Other => Err (LA_Device "unexpected NSM response"%string)
             end in
  let? doc := map_err LA_Document (decode_only bs) in
  map_err LA_Document (from_doc bs doc Local).

(** [trusted_time::now_ms] of an enclave build. *)
Definition now_ms : result Z LocalAttestationError :=
  let? doc := request_local None None in Ok (va_timestamp_ms doc).

(** A returned document is the device's, decoded. *)
Lemma request_local_Ok nonce user_data v :
  request_local nonce user_data = Ok v <->
  exists bs doc id, nsm nonce user_data = Nsm_Document bs /\ decode_only bs = Ok doc /\
    from_doc_pcrs (doc_pcrs doc) = Ok id /\
    v = mkValidated bs id (doc_timestamp doc) (doc_user_data doc) Local.
Proof.
  unfold request_local. split.
  - destruct (nsm nonce user_data) as [|bs| |] eqn:En; try done.
    destruct (decode_only bs) as [doc|] eqn:Ed; [|done]. cbn [map_err].
    unfold from_doc. destruct (from_doc_pcrs _) as [id|] eqn:Ei; [|done]. cbn [map_err].
    intros [= <-]. by eexists _, _, _.
  - intros (bs & doc & id & -> & -> & Hid & ->). cbn [map_err]. unfold from_doc. by rewrite Hid.
Qed.
End Local.
