(* ===== verification/Chain.v ===== *)
(** The public upgrade chain ([enclavia-protocol/src/chain.rs]).

    A chain is the audit trail of an enclave: boot, upgrade and revocation
    links, each bound to an attestation document and, for the signed kinds, to
    a control-key signature.  [validate_chain_link] is the ingest rule for one
    link, [validate_chain] re-walks a stored chain rebuilding the context each
    link saw, and [verify_pcr_descent] decides whether the chain's tip descends
    from pinned measurements.

    A [DateTime<Utc>] is its nanoseconds since the Unix epoch and a [Uuid] its
    128-bit value.  The CBOR codecs of the payloads, the signature scheme, the
    attestation libraries, SHA-256, hex and base64 are parameters; whether the
    build has the skip-chain feature is [skip_chain_compiled]. *)
From stdpp Require Import gmap list strings.
From S2P Require Import Prelude Identity Signing Attestation.
#[local] Open Scope Z_scope.

(** ** Links and payloads *)

Record ChainLink := mkChainLink {
  cl_id : option Z;
  cl_sequence : option Z;
  cl_kind : ChainLinkKind;
  cl_payload : bytes;
  cl_attestation : bytes;
  cl_signature : option bytes;
}.

Record ChainLinkJson := mkChainLinkJson {
  clj_id : option Z;
  clj_kind : ChainLinkKind;
  clj_sequence : option Z;
  clj_payload : string;
  clj_attestation : string;
  clj_signature : option string;
  clj_created_at : option Z;
}.

Record RecordedLink := mkRecordedLink { rl_link : ChainLink; rl_recorded_at : option Z }.

Inductive ChainLinkDecodeError : Type :=
| Base64 (field : string)
| NegativeSequence (s : Z).

Record AntiRollbackSetting := mkAntiRollback {
  ar_enabled : bool;
  ar_upgrade_target : bool;
  ar_debug_attestation : bool;
  ar_synchronizer_pcrs : list PcrsHex;
}.

Inductive AntiRollbackChange : Type :=
| TurnedOff
| TurnedOn
| NotUpgradeTarget
| DebugAttestationChanged
| NoTrustedSynchronizer.

Definition ar_disabled : AntiRollbackSetting := mkAntiRollback false false false [].

(** Whether an image with setting [next] may succeed one with [self]. *)
Definition check_successor (self next : AntiRollbackSetting) : result unit AntiRollbackChange :=
  match ar_enabled self, ar_enabled next with
  | false, false => Ok tt
  | true, false => Err TurnedOff
  | false, true => Err TurnedOn
  | true, true =>
      if negb (ar_upgrade_target next) then Err NotUpgradeTarget
      else if negb (eqb (ar_debug_attestation next) (ar_debug_attestation self))
      then Err DebugAttestationChanged
      else match ar_synchronizer_pcrs next with [] => Err NoTrustedSynchronizer | _ => Ok tt end
  end.

Record BootPayload := mkBootPayload {
  bp_enclave_id : Z;
  bp_image_digest : string;
  bp_pcrs : PcrsHex;
  bp_booted_at : Z;
  bp_nonce : bytes;
  bp_anti_rollback : AntiRollbackSetting;
}.

Record UpgradePayload := mkUpgradePayload {
  up_enclave_id : Z;
  up_from : PinIdentity;
  up_to : PinIdentity;
  up_image_digest : string;
  up_valid_from : Z;
  up_valid_until : Z;
  up_issued_at : Z;
  up_nonce : bytes;
}.

Record RevocationPayload := mkRevocationPayload {
  rp_enclave_id : Z;
  rp_revokes : Z;
  rp_issued_at : Z;
  rp_nonce : bytes;
  rp_revokes_link : bytes;
}.

#[global] Instance AntiRollbackSetting_eq_dec : EqDecision AntiRollbackSetting.
Proof. solve_decision. Defined.

(** Durations in nanoseconds. *)
Definition seconds (n : Z) : Z := n * 1000000000.
Definition UPGRADE_WINDOW_MIN : Z := seconds 3600.
Definition CLOCK_SKEW_TOLERANCE_SECS : Z := 60.

Definition upgrade_window_is_valid (valid_from valid_until : Z) : bool :=
  UPGRADE_WINDOW_MIN <=? valid_until - valid_from.

Inductive Outcome : Type :=
| Append (sequence : Z)
| Dedup.

Inductive ChainValidationError : Type :=
| CVE_Attestation (e : AttestationError)
| EmptyAttestation
| PayloadDecode (kind : ChainLinkKind) (e : CanonicalDecodeError)
| EnclaveIdMismatch
| CVE_PcrMismatch
| UpgradeFromMismatch
| UpgradeWindowInvalid
| ImageDigestMismatch
| BootHasSignature
| SignatureMissing (kind : ChainLinkKind)
| BadControlPubkey (detail : string)
| SignatureShape
| SignatureInvalid
| NonUpgradableSigned (kind : ChainLinkKind)
| NonUpgradableSecondBoot
| AntiRollbackChanged (c : AntiRollbackChange)
| NoGenesisYet
| RevokeTargetMissing
| RevokeTargetWrongKind (kind : ChainLinkKind)
| RevokePastActivation
| AlreadyRevoked
| RevokeLinkHashMismatch
| DuplicatePayload (kind : ChainLinkKind)
| UpgradeNotYetActive
| UpgradeExpired
| PromotionIdentityMismatch
| CorruptStoredPayload (kind : ChainLinkKind) (e : CanonicalDecodeError)
| CorruptStoredPcrHex (i : Z).

Record ChainContext := mkChainContext {
  ctx_enclave_id : Z;
  ctx_enclave_pcrs : PcrsHex;
  ctx_enclave_image_digest : string;
  ctx_control_public_key : option bytes;
  ctx_upgradable : bool;
  ctx_prior_chain : list ChainLink;
}.

Inductive PcrDescentError : Type :=
| NoGenesis
| LinkInvalid (position : nat) (source : ChainValidationError)
| PinnedNotInLineage
| BootPayloadUnreadable (position : nat).

(** What the walk holds while it scans the links: the outcomes so far (most
    recent last), the links seen, and the state in force. *)
Record Walk := mkWalk {
  w_outcomes : list (result Outcome ChainValidationError);
  w_prior : list ChainLink;
  w_in_force : option (PcrsHex * string);
  w_in_force_identity : option PinIdentity;
}.

Record ChainWalk := mkChainWalk {
  cw_outcomes : list (result Outcome ChainValidationError);
  cw_final_pcrs : option PcrsHex;
  cw_final_image_digest : option string;
  cw_final_identity : option PinIdentity;
  cw_tip_matches_row : bool;
}.

Definition ascii_lower (a : Ascii.ascii) : Ascii.ascii :=
  let n := Ascii.N_of_ascii a in
  if (N.leb 65 n && N.leb n 90)%bool then Ascii.ascii_of_N (n + 32) else a.

(** [str::eq_ignore_ascii_case]. *)
Fixpoint eq_ignore_ascii_case (s t : string) : bool :=
  match s, t with
  | EmptyString, EmptyString => true
  | String a s', String b t' =>
      Ascii.eqb (ascii_lower a) (ascii_lower b) && eq_ignore_ascii_case s' t'
  | _, _ => false
  end.

Definition same_as (p q : PcrsHex) : bool :=
  eq_ignore_ascii_case (hex0 p) (hex0 q) && eq_ignore_ascii_case (hex1 p) (hex1 q) &&
  eq_ignore_ascii_case (hex2 p) (hex2 q).

(** A link of the same kind with the same payload bytes is already chained. *)
Definition signed_payload_seen (link : ChainLink) (prior : list ChainLink) : bool :=
  existsb (fun l => bool_decide (cl_kind l = cl_kind link) &&
                    bool_decide (cl_payload l = cl_payload link)) prior.

Section Chain.
Context `{P256} `{NitroLib}.
Context `{Cbor BootPayload} `{Cbor UpgradePayload} `{Cbor RevocationPayload}.
Context (sha256 : bytes -> bytes).
Context (hex_encode : bytes -> string) (hex_decode : string -> option bytes).
Context (base64_decode : string -> option bytes).
Context (skip_chain_compiled : bool).

Definition upgrade_link_hash (payload : bytes) : bytes := sha256 payload.

Definition decode_field (field s : string) : result bytes ChainLinkDecodeError :=
  ok_or (base64_decode s) (Base64 field).

Definition into_chain_link (j : ChainLinkJson) : result ChainLink ChainLinkDecodeError :=
  let? payload := decode_field "payload" (clj_payload j) in
  let? attestation := decode_field "attestation" (clj_attestation j) in
  let? signature := match clj_signature j with
                    | Some s => let? b := decode_field "signature" s in Ok (Some b)
                    | None => Ok None
                    end in
  let? sequence := match clj_sequence j with
                   | Some s => if s <? 0 then Err (NegativeSequence s) else Ok (Some s)
                   | None => Ok None
                   end in
  Ok (mkChainLink (clj_id j) sequence (clj_kind j) payload attestation signature).

Definition into_recorded_link (j : ChainLinkJson) : result RecordedLink ChainLinkDecodeError :=
  let? l := into_chain_link j in
  Ok (mkRecordedLink l (clj_created_at j)).

Definition to_pcrs (p : PcrsHex) : result Pcrs ChainValidationError :=
  let? b0 := ok_or (hex_decode (hex0 p)) (CorruptStoredPcrHex 0) in
  let? b1 := ok_or (hex_decode (hex1 p)) (CorruptStoredPcrHex 1) in
  let? b2 := ok_or (hex_decode (hex2 p)) (CorruptStoredPcrHex 2) in
  Ok (mkPcrs b0 b1 b2).

Definition skip_chain (doc payload : bytes) : result ValidatedAttestation AttestationError :=
  if skip_chain_compiled then validate_chain_link_skip_chain sha256 doc payload
  else Err SkipChainNotCompiled.

Definition link_attestation (link : ChainLink) (debug_mode : bool)
    : result ValidatedAttestation AttestationError :=
  if debug_mode then skip_chain (cl_attestation link) (cl_payload link)
  else validate_link_document sha256 (cl_attestation link) (cl_payload link).

(** The most recent boot of the chain. *)
Definition last_boot (prior : list ChainLink) : option ChainLink :=
  List.find (fun l => bool_decide (cl_kind l = Boot)) (rev prior).

Definition next_sequence (ctx : ChainContext) : Outcome :=
  Append (Z.of_nat (length (ctx_prior_chain ctx))).

Definition validate_boot (link : ChainLink) (ctx : ChainContext)
    : result Outcome ChainValidationError :=
  if bool_decide (is_Some (cl_signature link)) then Err BootHasSignature
  else
    let? parsed := map_err (PayloadDecode Boot)
                     (decode_canonical (T := BootPayload) (cl_payload link)) in
    if negb (bp_enclave_id parsed =? ctx_enclave_id ctx) then Err EnclaveIdMismatch
    else if negb (bool_decide (bp_pcrs parsed = ctx_enclave_pcrs ctx)) then Err CVE_PcrMismatch
    else if negb (bool_decide (bp_image_digest parsed = ctx_enclave_image_digest ctx))
    then Err ImageDigestMismatch
    else match last_boot (ctx_prior_chain ctx) with
    | None => Ok (next_sequence ctx)
    | Some prev =>
        let? prev_payload := map_err (CorruptStoredPayload Boot)
                               (decode_canonical (T := BootPayload) (cl_payload prev)) in
        if bool_decide (bp_image_digest prev_payload = bp_image_digest parsed) then Ok Dedup
        else if negb (ctx_upgradable ctx) then Err NonUpgradableSecondBoot
        else
          let? _ := map_err AntiRollbackChanged
                      (check_successor (bp_anti_rollback prev_payload)
                                       (bp_anti_rollback parsed)) in
          Ok (next_sequence ctx)
    end.

(** The payload checks of an upgrade link; [true]: go on to append. *)
Definition validate_upgrade (link : ChainLink) (ctx : ChainContext) (attested : PinIdentity)
    : result bool ChainValidationError :=
  let? parsed := map_err (PayloadDecode Upgrade)
                   (decode_canonical (T := UpgradePayload) (cl_payload link)) in
  if negb (up_enclave_id parsed =? ctx_enclave_id ctx) then Err EnclaveIdMismatch
  else if negb (upgrade_window_is_valid (up_valid_from parsed) (up_valid_until parsed))
  then Err UpgradeWindowInvalid
  else if negb (bool_decide (up_from parsed = attested)) then Err UpgradeFromMismatch
  else Ok (negb (signed_payload_seen link (ctx_prior_chain ctx))).

(** The scan for an earlier revocation of the same entry. *)
Fixpoint check_not_revoked (revokes : Z) (prior : list ChainLink)
    : result unit ChainValidationError :=
  match prior with
  | [] => Ok tt
  | existing :: rest =>
      if negb (bool_decide (cl_kind existing = Revocation)) then check_not_revoked revokes rest
      else
        let? p := map_err (CorruptStoredPayload Revocation)
                    (decode_canonical (T := RevocationPayload) (cl_payload existing)) in
        if rp_revokes p =? revokes then Err AlreadyRevoked else check_not_revoked revokes rest
  end.

Definition validate_revocation (link : ChainLink) (ctx : ChainContext) (now : Z)
    : result bool ChainValidationError :=
  let? revoke := map_err (PayloadDecode Revocation)
                   (decode_canonical (T := RevocationPayload) (cl_payload link)) in
  if negb (rp_enclave_id revoke =? ctx_enclave_id ctx) then Err EnclaveIdMismatch
  else if signed_payload_seen link (ctx_prior_chain ctx) then Ok false
  else
    let? target := ok_or (List.find (fun l => bool_decide (cl_id l = Some (rp_revokes revoke)))
                            (ctx_prior_chain ctx)) RevokeTargetMissing in
    if negb (bool_decide (cl_kind target = Upgrade))
    then Err (RevokeTargetWrongKind (cl_kind target))
    else if negb (bool_decide (rp_revokes_link revoke = upgrade_link_hash (cl_payload target)))
    then Err RevokeLinkHashMismatch
    else
      let? target_upgrade := map_err (CorruptStoredPayload Upgrade)
                               (decode_canonical (T := UpgradePayload) (cl_payload target)) in
      if up_valid_from target_upgrade <=? now then Err RevokePastActivation
      else
        let? _ := check_not_revoked (rp_revokes revoke) (ctx_prior_chain ctx) in
        Ok true.

(** The signature check of a signed link, in the domain of its kind. *)
Definition check_link_signature (link : ChainLink) (ctx : ChainContext) (domain : SignedDomain)
    : result unit ChainValidationError :=
  let? sig_bytes := ok_or (cl_signature link) (SignatureMissing (cl_kind link)) in
  let? pubkey_bytes := ok_or (ctx_control_public_key ctx) (BadControlPubkey "missing") in
  let? verifying := map_err BadControlPubkey (vk_from_sec1_bytes pubkey_bytes) in
  map_err (fun e => match e with Sig_Shape => SignatureShape | Sig_Invalid => SignatureInvalid end)
    (verify_control_signature verifying domain (cl_payload link) sig_bytes).

(** [domain] is the domain of the link's kind, an upgrade's or a
    revocation's; the function is not called for a boot. *)
Definition validate_signed (link : ChainLink) (ctx : ChainContext) (attested : PinIdentity)
    (domain : SignedDomain) (now : Z) : result Outcome ChainValidationError :=
  if negb (ctx_upgradable ctx) then Err (NonUpgradableSigned (cl_kind link))
  else
    let? _ := check_link_signature link ctx domain in
    let? fresh := match domain with
                  | Dom_UpgradePayload => validate_upgrade link ctx attested
                  | _ => validate_revocation link ctx now
                  end in
    if negb fresh then Ok Dedup
    else match ctx_prior_chain ctx with
         | [] => Err NoGenesisYet
         | _ => Ok (next_sequence ctx)
         end.

Definition validate_chain_link (link : ChainLink) (ctx : ChainContext) (now : Z)
    (debug_mode : bool) : result Outcome ChainValidationError :=
  match cl_attestation link with
  | [] => Err EmptyAttestation
  | _ =>
      let? recorded_pcrs := to_pcrs (ctx_enclave_pcrs ctx) in
      let? doc := map_err CVE_Attestation (link_attestation link debug_mode) in
      let? _ := map_err CVE_Attestation (require_pcrs doc recorded_pcrs) in
      match cl_kind link with
      | Boot => validate_boot link ctx
      | Upgrade => validate_signed link ctx (va_identity doc) Dom_UpgradePayload now
      | Revocation => validate_signed link ctx (va_identity doc) Dom_RevocationPayload now
      end
  end.

(** ** The walker *)

(** The entry ids the revocations of the chain name. *)
Definition revoked_ids (prior : list ChainLink) : list Z :=
  omap (fun l => if bool_decide (cl_kind l = Revocation)
                 then rp_revokes <$> result_ok (decode_canonical (T := RevocationPayload)
                                                  (cl_payload l))
                 else None) prior.

(** The scan of [promotion_target], from the last link back: [revd] is the
    part of the chain still to look at, most recent first. *)
Fixpoint promotion_scan (revoked : list Z) (revd : list ChainLink) (boot_pcrs : PcrsHex)
    (boot_image_digest : string) : option UpgradePayload :=
  match revd with
  | [] => None
  | l :: earlier =>
      let continue_ := promotion_scan revoked earlier boot_pcrs boot_image_digest in
      if negb (bool_decide (cl_kind l = Upgrade)) then continue_
      else if match cl_id l with Some id => bool_decide (id ∈ revoked) | None => false end
      then continue_
      else if signed_payload_seen l (rev earlier) then continue_
      else match decode_canonical (T := UpgradePayload) (cl_payload l) with
      | Err _ => continue_
      | Ok p =>
          if bool_decide (image_pcrs_hex hex_encode (up_to p) = boot_pcrs) &&
             bool_decide (up_image_digest p = boot_image_digest)
          then Some p else continue_
      end
  end.

Definition promotion_target (prior : list ChainLink) (boot_pcrs : PcrsHex)
    (boot_image_digest : string) : option UpgradePayload :=
  promotion_scan (revoked_ids prior) (rev prior) boot_pcrs boot_image_digest.

(** The context a link is validated in: measurements, digest, and whether
    the link advances the state in force when it validates. *)
Definition WalkContext : Type := PcrsHex * string * bool.

Definition promotion_context (link : ChainLink) (p : BootPayload) (target : UpgradePayload)
    (debug_mode : bool) : result WalkContext ChainValidationError :=
  if bp_booted_at p <? up_valid_from target - seconds CLOCK_SKEW_TOLERANCE_SECS
  then Err UpgradeNotYetActive
  else if up_valid_until target + seconds CLOCK_SKEW_TOLERANCE_SECS <? bp_booted_at p
  then Err UpgradeExpired
  else if match link_attestation link debug_mode with
          | Ok doc => negb (bool_decide (va_identity doc = up_to target))
          | Err _ => false
          end
  then Err PromotionIdentityMismatch
  else Ok (image_pcrs_hex hex_encode (up_to target), up_image_digest target, true).

Definition link_context (w : Walk) (link : ChainLink) (row_pcrs : PcrsHex)
    (row_image_digest : string) (debug_mode : bool) : result WalkContext ChainValidationError :=
  let standing := match w_in_force w with
                  | Some (pcrs, digest) => (pcrs, digest, false)
                  | None => (row_pcrs, row_image_digest, false)
                  end in
  match cl_kind link with
  | Boot =>
      match decode_canonical (T := BootPayload) (cl_payload link), w_prior w, w_in_force w with
      | Ok p, [], _ => Ok (bp_pcrs p, bp_image_digest p, true)
      | Err _, [], _ => Ok (row_pcrs, row_image_digest, false)
      | Ok p, _, Some (pcrs, digest) =>
          if bool_decide (bp_pcrs p = pcrs) then Ok (pcrs, digest, false)
          else match promotion_target (w_prior w) (bp_pcrs p) (bp_image_digest p) with
               | Some target => promotion_context link p target debug_mode
               | None => Ok (pcrs, digest, false)
               end
      | _, _, _ => Ok standing
      end
  | Upgrade | Revocation => Ok standing
  end.

Definition is_signed_kind (k : ChainLinkKind) : bool :=
  match k with Upgrade | Revocation => true | Boot => false end.

(** A link whose outcome is recorded without advancing the state. *)
Definition record_outcome (w : Walk) (link : ChainLink)
    (outcome : result Outcome ChainValidationError) : Walk :=
  mkWalk (w_outcomes w ++ [outcome]) (w_prior w ++ [link]) (w_in_force w)
         (w_in_force_identity w).

Definition is_append (outcome : result Outcome ChainValidationError) : bool :=
  match outcome with Ok (Append _) => true | _ => false end.

Section Walker.
Context (enclave_id : Z) (row_pcrs : PcrsHex) (row_image_digest : string).
Context (control_public_key : option bytes) (upgradable : bool) (now : Z)
        (debug_mode : bool).

Definition walk_step (w : Walk) (recorded : RecordedLink) : Walk :=
  let link := rl_link recorded in
  let reference := default now (rl_recorded_at recorded) in
  if is_signed_kind (cl_kind link) && signed_payload_seen link (w_prior w)
  then record_outcome w link (Err (DuplicatePayload (cl_kind link)))
  else match link_context w link row_pcrs row_image_digest debug_mode with
  | Err e => record_outcome w link (Err e)
  | Ok (ctx_pcrs, ctx_digest, promotes) =>
      let ctx := mkChainContext enclave_id ctx_pcrs ctx_digest control_public_key
                   upgradable (w_prior w) in
      let outcome := validate_chain_link link ctx reference debug_mode in
      if promotes && is_append outcome
      then mkWalk (w_outcomes w ++ [outcome]) (w_prior w ++ [link])
             (Some (ctx_pcrs, ctx_digest))
             (va_identity <$> result_ok (link_attestation link debug_mode))
      else record_outcome w link outcome
  end.

Definition walk (links : list RecordedLink) : Walk :=
  fold_left walk_step links (mkWalk [] [] None None).

Definition validate_chain (links : list RecordedLink) : ChainWalk :=
  let w := walk links in
  mkChainWalk (w_outcomes w) (fst <$> w_in_force w) (snd <$> w_in_force w)
    (w_in_force_identity w)
    (match w_in_force w with
     | Some (p, d) => bool_decide (p = row_pcrs) && bool_decide (d = row_image_digest)
     | None => false
     end).

(** Gate 1: the first failing link. *)
Fixpoint check_outcomes (position : nat)
    (outcomes : list (result Outcome ChainValidationError)) : result unit PcrDescentError :=
  match outcomes with
  | [] => Ok tt
  | Ok _ :: rest => check_outcomes (S position) rest
  | Err source :: _ => Err (LinkInvalid position source)
  end.

(** Gate 2: whether the pinned measurements are those of a boot link. *)
Fixpoint pinned_in_lineage (pinned : Pcrs) (position : nat) (links : list RecordedLink)
    : result bool PcrDescentError :=
  match links with
  | [] => Ok false
  | recorded :: rest =>
      if negb (bool_decide (cl_kind (rl_link recorded) = Boot))
      then pinned_in_lineage pinned (S position) rest
      else
        let? payload := map_err (fun _ => BootPayloadUnreadable position)
                          (decode_canonical (T := BootPayload)
                             (cl_payload (rl_link recorded))) in
        let? state := map_err (fun _ => BootPayloadUnreadable position)
                        (to_pcrs (bp_pcrs payload)) in
        let? found := pinned_in_lineage pinned (S position) rest in
        Ok (bool_decide (state = pinned) || found)
  end.

Definition verify_pcr_descent (pinned : Pcrs) (links : list RecordedLink)
    : result Pcrs PcrDescentError :=
  let cw := validate_chain links in
  let? _ := check_outcomes 0 (cw_outcomes cw) in
  let? tip_hex := ok_or (cw_final_pcrs cw) NoGenesis in
  let? tip := map_err (fun _ => BootPayloadUnreadable 0) (to_pcrs tip_hex) in
  let? found := pinned_in_lineage pinned 0 links in
  if negb found then Err PinnedNotInLineage else Ok tip.
End Walker.
End Chain.
