(* ===== verification/ChainProofs.v ===== *)
(** Properties of the upgrade chain: what an accepted link is evidence of, and
    what a chain accepted by [verify_pcr_descent] proves about the measurements
    it ends in. *)
From stdpp Require Import gmap list strings.
From S2P Require Import Prelude Identity Signing Attestation Chain.
#[local] Open Scope Z_scope.

Lemma negb_if {A} (b : bool) (x y : A) : (if negb b then x else y) = (if b then y else x).
Proof. by destruct b. Qed.

Lemma signed_payload_seen_spec link prior :
  signed_payload_seen link prior = true <->
  exists l, l ∈ prior /\ cl_kind l = cl_kind link /\ cl_payload l = cl_payload link.
Proof.
  unfold signed_payload_seen. rewrite existsb_exists. split.
  - intros (l & Hin & [Hk Hp]%andb_true_iff). exists l.
    rewrite list_elem_of_In. split; [done|]. by rewrite !bool_decide_eq_true in *.
  - intros (l & Hin & Hk & Hp). exists l. rewrite <-list_elem_of_In. split; [done|].
    by rewrite !bool_decide_eq_true_2.
Qed.

Section Links.
Context `{P256} `{NitroLib}.
Context `{Cbor BootPayload} `{Cbor UpgradePayload} `{Cbor RevocationPayload}.
Context (sha256 : bytes -> bytes).
Context (hex_encode : bytes -> string) (hex_decode : string -> option bytes).
Context (skip_chain_compiled : bool).

Abbreviation validate := (validate_chain_link sha256 hex_decode skip_chain_compiled).
Abbreviation attestation_of := (link_attestation sha256 skip_chain_compiled).

(** The link's document is valid for its payload and measures [pcrs]. *)
Definition attested (link : ChainLink) (debug : bool) (pcrs : PcrsHex) (i : PinIdentity) : Prop :=
  exists doc rp, attestation_of link debug = Ok doc /\ to_pcrs hex_decode pcrs = Ok rp /\
    va_identity doc = i /\ image_pcrs i = rp.

(** The link carries a control-key signature over its payload in [domain]. *)
Definition signed_in (link : ChainLink) (key : option bytes) (domain : SignedDomain) : Prop :=
  exists sig pk vk, cl_signature link = Some sig /\ key = Some pk /\
    vk_from_sec1_bytes pk = Ok vk /\
    verify_control_signature vk domain (cl_payload link) sig = Ok tt.

(** What acceptance of a boot link establishes. *)
Definition boot_evidence (link : ChainLink) (ctx : ChainContext) (debug : bool)
    (b : BootPayload) : Prop :=
  cl_kind link = Boot /\ cl_signature link = None /\
  decode_canonical (cl_payload link) = Ok b /\
  bp_enclave_id b = ctx_enclave_id ctx /\ bp_pcrs b = ctx_enclave_pcrs ctx /\
  bp_image_digest b = ctx_enclave_image_digest ctx /\
  exists i, attested link debug (ctx_enclave_pcrs ctx) i.

(** What acceptance of an upgrade link establishes. *)
Definition upgrade_evidence (link : ChainLink) (ctx : ChainContext) (debug : bool)
    (p : UpgradePayload) : Prop :=
  cl_kind link = Upgrade /\ ctx_upgradable ctx = true /\
  signed_in link (ctx_control_public_key ctx) Dom_UpgradePayload /\
  decode_canonical (cl_payload link) = Ok p /\
  up_enclave_id p = ctx_enclave_id ctx /\
  up_valid_from p + UPGRADE_WINDOW_MIN <= up_valid_until p /\
  attested link debug (ctx_enclave_pcrs ctx) (up_from p).

(** What acceptance of a revocation link establishes: [t] is the upgrade it
    cancels, found by entry id and matched by payload hash. *)
Definition revocation_evidence (link : ChainLink) (ctx : ChainContext) (now : Z)
    (r : RevocationPayload) (t : ChainLink) : Prop :=
  cl_kind link = Revocation /\ ctx_upgradable ctx = true /\
  signed_in link (ctx_control_public_key ctx) Dom_RevocationPayload /\
  decode_canonical (cl_payload link) = Ok r /\
  rp_enclave_id r = ctx_enclave_id ctx /\
  t ∈ ctx_prior_chain ctx /\ cl_id t = Some (rp_revokes r) /\ cl_kind t = Upgrade /\
  rp_revokes_link r = upgrade_link_hash sha256 (cl_payload t) /\
  (exists p, decode_canonical (cl_payload t) = Ok p /\ now < up_valid_from p) /\
  (forall l r', l ∈ ctx_prior_chain ctx -> cl_kind l = Revocation ->
     decode_canonical (cl_payload l) = Ok r' -> rp_revokes r' <> rp_revokes r).

Lemma validate_chain_link_inv link ctx now debug o :
  validate link ctx now debug = Ok o ->
  exists doc, attestation_of link debug = Ok doc /\
    attested link debug (ctx_enclave_pcrs ctx) (va_identity doc) /\
    match cl_kind link with
    | Boot => validate_boot link ctx = Ok o
    | Upgrade => validate_signed sha256 link ctx (va_identity doc) Dom_UpgradePayload now = Ok o
    | Revocation =>
        validate_signed sha256 link ctx (va_identity doc) Dom_RevocationPayload now = Ok o
    end.
Proof.
  unfold validate_chain_link. intros Hv.
  destruct (cl_attestation link) eqn:Ea; [done|].
  destruct (to_pcrs hex_decode (ctx_enclave_pcrs ctx)) as [rp|] eqn:Ep; [|done].
  destruct (attestation_of link debug) as [doc|] eqn:Ed; [|done]. cbn [map_err] in Hv.
  destruct (require_pcrs doc rp) as [[]|] eqn:Er; [|done]. cbn [map_err] in Hv.
  exists doc. split; [done|]. split; [|by destruct (cl_kind link)].
  exists doc, rp. apply require_pcrs_Ok in Er. done.
Qed.

Lemma validate_boot_inv link ctx o :
  validate_boot link ctx = Ok o ->
  cl_signature link = None /\ exists b,
    decode_canonical (cl_payload link) = Ok b /\
    bp_enclave_id b = ctx_enclave_id ctx /\ bp_pcrs b = ctx_enclave_pcrs ctx /\
    bp_image_digest b = ctx_enclave_image_digest ctx /\
    match last_boot (ctx_prior_chain ctx) with
    | None => o = next_sequence ctx
    | Some prev => exists pb, decode_canonical (cl_payload prev) = Ok pb /\
        (bp_image_digest pb = bp_image_digest b /\ o = Dedup \/
         bp_image_digest pb <> bp_image_digest b /\ ctx_upgradable ctx = true /\
         check_successor (bp_anti_rollback pb) (bp_anti_rollback b) = Ok tt /\
         o = next_sequence ctx)
    end.
Proof.
  unfold validate_boot. intros Hv.
  destruct (cl_signature link); [done|]. cbn in Hv. split; [done|].
  destruct (decode_canonical (cl_payload link)) as [b|] eqn:Eb; [|done]. cbn [map_err] in Hv.
  rewrite !negb_if in Hv. exists b. split; [done|].
  destruct (Z.eqb_spec (bp_enclave_id b) (ctx_enclave_id ctx)); [|done].
  destruct (bool_decide_reflect (bp_pcrs b = ctx_enclave_pcrs ctx)); [|done].
  destruct (bool_decide_reflect (bp_image_digest b = ctx_enclave_image_digest ctx)); [|done].
  split_and!; try done.
  destruct (last_boot _) as [prev|]; [|by result_inv].
  destruct (decode_canonical (cl_payload prev)) as [pb|] eqn:Epb; [|done].
  cbn [map_err] in Hv. exists pb. split; [done|].
  destruct (bool_decide_reflect (bp_image_digest pb = bp_image_digest b)); [left; by result_inv|].
  right. rewrite negb_if in Hv. destruct (ctx_upgradable ctx); [|done].
  destruct (check_successor _ _) as [[]|]; cbn [map_err] in Hv; [|done]. by result_inv.
Qed.

Lemma check_link_signature_Ok link ctx d :
  check_link_signature link ctx d = Ok tt <->
  signed_in link (ctx_control_public_key ctx) d.
Proof.
  unfold check_link_signature, signed_in. split.
  - intros Hs. destruct (cl_signature link) as [sig|]; [|done]. cbn [ok_or] in Hs.
    destruct (ctx_control_public_key ctx) as [pk|]; [|done]. cbn [ok_or] in Hs.
    destruct (vk_from_sec1_bytes pk) as [vk|] eqn:Ev; [|done]. cbn [map_err] in Hs.
    apply map_err_Ok in Hs. by exists sig, pk, vk.
  - intros (sig & pk & vk & -> & -> & Ev & Hv). cbn [ok_or]. rewrite Ev. cbn [map_err].
    by apply map_err_Ok.
Qed.

Lemma check_not_revoked_Ok id prior :
  check_not_revoked id prior = Ok tt ->
  forall l r, l ∈ prior -> cl_kind l = Revocation -> decode_canonical (cl_payload l) = Ok r ->
    rp_revokes r <> id.
Proof.
  induction prior as [|x prior IH]; intros Hc l r Hl Hk Hd; [by apply elem_of_nil in Hl|].
  cbn [check_not_revoked] in Hc. rewrite negb_if in Hc.
  apply elem_of_cons in Hl as [<-|Hl].
  - rewrite bool_decide_eq_true_2, Hd in Hc by done. cbn [map_err] in Hc.
    by destruct (Z.eqb_spec (rp_revokes r) id).
  - eapply IH; eauto. destruct (bool_decide _); [|done].
    destruct (decode_canonical (cl_payload x)) as [r'|]; [|done]. cbn [map_err] in Hc.
    by destruct (rp_revokes r' =? id).
Qed.

Lemma validate_upgrade_inv link ctx att b :
  validate_upgrade link ctx att = Ok b ->
  exists p, decode_canonical (cl_payload link) = Ok p /\
    up_enclave_id p = ctx_enclave_id ctx /\
    up_valid_from p + UPGRADE_WINDOW_MIN <= up_valid_until p /\ up_from p = att /\
    b = negb (signed_payload_seen link (ctx_prior_chain ctx)).
Proof.
  unfold validate_upgrade, upgrade_window_is_valid. intros Hv.
  destruct (decode_canonical (cl_payload link)) as [p|] eqn:Ep; [|done].
  cbn [map_err] in Hv. rewrite !negb_if in Hv. exists p.
  destruct (Z.eqb_spec (up_enclave_id p) (ctx_enclave_id ctx)); [|done].
  destruct (Z.leb_spec UPGRADE_WINDOW_MIN (up_valid_until p - up_valid_from p)); [|done].
  destruct (bool_decide_reflect (up_from p = att)); [|done].
  injection Hv as <-. split_and!; try done. lia.
Qed.

Lemma validate_revocation_inv link ctx now :
  validate_revocation sha256 link ctx now = Ok true ->
  exists r t, decode_canonical (cl_payload link) = Ok r /\
    rp_enclave_id r = ctx_enclave_id ctx /\
    t ∈ ctx_prior_chain ctx /\ cl_id t = Some (rp_revokes r) /\ cl_kind t = Upgrade /\
    rp_revokes_link r = upgrade_link_hash sha256 (cl_payload t) /\
    (exists p, decode_canonical (cl_payload t) = Ok p /\ now < up_valid_from p) /\
    check_not_revoked (rp_revokes r) (ctx_prior_chain ctx) = Ok tt.
Proof.
  unfold validate_revocation. intros Hv.
  destruct (decode_canonical (cl_payload link)) as [r|] eqn:Er; [|done].
  cbn [map_err] in Hv. rewrite !negb_if in Hv.
  destruct (Z.eqb_spec (rp_enclave_id r) (ctx_enclave_id ctx)); [|done].
  destruct (signed_payload_seen _ _); [done|].
  destruct (List.find _ _) as [t|] eqn:Et; [|done]. cbn [ok_or] in Hv.
  apply find_some in Et as [Hin Hid]. apply bool_decide_eq_true in Hid.
  rewrite !negb_if in Hv.
  destruct (bool_decide_reflect (cl_kind t = Upgrade)); [|done].
  destruct (bool_decide_reflect (rp_revokes_link r = upgrade_link_hash sha256 (cl_payload t)));
    [|done].
  destruct (decode_canonical (cl_payload t)) as [p|] eqn:Ep; [|done]. cbn [map_err] in Hv.
  destruct (Z.leb_spec (up_valid_from p) now); [done|].
  destruct (check_not_revoked _ _) as [[]|] eqn:Ec; [|done].
  exists r, t. rewrite list_elem_of_In. eauto 10.
Qed.

Lemma boot_accepted link ctx now debug o :
  cl_kind link = Boot -> validate link ctx now debug = Ok o ->
  exists b, boot_evidence link ctx debug b /\ validate_boot link ctx = Ok o.
Proof.
  intros Hk Hv. apply validate_chain_link_inv in Hv as (doc & _ & Ha & Hv). rewrite Hk in Hv.
  pose proof (validate_boot_inv _ _ _ Hv) as (Hs & b & Hd & He & Hp & Hi & _).
  exists b. split; [|done]. unfold boot_evidence. eauto 10.
Qed.

Lemma upgrade_accepted link ctx now debug o :
  cl_kind link = Upgrade -> validate link ctx now debug = Ok o ->
  exists p, upgrade_evidence link ctx debug p /\
    if signed_payload_seen link (ctx_prior_chain ctx) then o = Dedup
    else ctx_prior_chain ctx <> [] /\ o = next_sequence ctx.
Proof.
  intros Hk Hv. apply validate_chain_link_inv in Hv as (doc & _ & Ha & Hv).
  rewrite Hk in Hv. unfold validate_signed in Hv. rewrite negb_if in Hv.
  destruct (ctx_upgradable ctx) eqn:Hu; [|done].
  destruct (check_link_signature _ _ _) as [[]|] eqn:Hs; [|done].
  apply check_link_signature_Ok in Hs.
  destruct (validate_upgrade _ _ _) as [b|] eqn:Hup; [|done].
  apply validate_upgrade_inv in Hup as (p & Hd & He & Hw & Hf & ->).
  exists p. split; [rewrite <-Hf in Ha; unfold upgrade_evidence; done|].
  rewrite negb_involutive in Hv. destruct (signed_payload_seen _ _); [by result_inv|].
  destruct (ctx_prior_chain ctx); [done|]. by result_inv.
Qed.

Lemma revocation_accepted link ctx now debug n :
  cl_kind link = Revocation -> validate link ctx now debug = Ok (Append n) ->
  exists r t, revocation_evidence link ctx now r t /\ n = Z.of_nat (length (ctx_prior_chain ctx)).
Proof.
  intros Hk Hv. apply validate_chain_link_inv in Hv as (doc & _ & Ha & Hv).
  rewrite Hk in Hv. unfold validate_signed in Hv. rewrite negb_if in Hv.
  destruct (ctx_upgradable ctx) eqn:Hu; [|done].
  destruct (check_link_signature _ _ _) as [[]|] eqn:Hs; [|done].
  apply check_link_signature_Ok in Hs.
  destruct (validate_revocation _ _ _ _) as [[]|] eqn:Hr; cbn [negb] in Hv; try done.
  apply validate_revocation_inv in Hr as (r & t & Hr & He & Ht & Hid & Hkt & Hh & Hp & Hc).
  exists r, t. split.
  - unfold revocation_evidence. split_and!; try done. by apply check_not_revoked_Ok.
  - unfold next_sequence in Hv. destruct (ctx_prior_chain ctx); [done|]. by result_inv.
Qed.

(** A revocation that is already chained is the only one that dedups. *)
Lemma revocation_ok_or_seen link ctx now debug o :
  cl_kind link = Revocation -> validate link ctx now debug = Ok o ->
  signed_payload_seen link (ctx_prior_chain ctx) = false -> exists n, o = Append n.
Proof.
  intros Hk Hv Hseen. apply validate_chain_link_inv in Hv as (doc & _ & Ha & Hv).
  rewrite Hk in Hv. unfold validate_signed in Hv. rewrite negb_if in Hv.
  destruct (ctx_upgradable ctx) eqn:Hu; [|done].
  destruct (check_link_signature _ _ _) as [[]|] eqn:Hs; [|done].
  destruct (validate_revocation _ _ _ _) as [b|] eqn:Hr; [|done].
  assert (b = true) as ->.
  { unfold validate_revocation in Hr. rewrite Hseen in Hr. result_cases Hr. }
  cbn [negb] in Hv. destruct (ctx_prior_chain ctx); [done|]. result_inv. by eexists.
Qed.

(** A link the chain appends is evidence of what it claims.  It takes
    the next sequence number; its attestation is valid for its payload and
    measures the recorded PCRs; its payload names this enclave.  A boot
    names the recorded image and, after another image, keeps its
    anti-rollback setting on an upgradable enclave.  An upgrade is signed by
    the control key in the upgrade domain over exactly these bytes, has a
    window of at least an hour, is emitted by the identity it moves from and
    is not a replay.  A revocation is signed in its own domain and names, by
    entry id and by payload hash, one chained upgrade that is not yet active
    and not yet revoked. *)
Theorem appended_link_is_evidence link ctx now debug n
    (Hok : validate link ctx now debug = Ok (Append n)) :
  n = Z.of_nat (length (ctx_prior_chain ctx)) /\
  match cl_kind link with
  | Boot => exists b, boot_evidence link ctx debug b /\
      forall prev pb, last_boot (ctx_prior_chain ctx) = Some prev ->
        decode_canonical (cl_payload prev) = Ok pb ->
        bp_image_digest pb <> bp_image_digest b /\ ctx_upgradable ctx = true /\
        check_successor (bp_anti_rollback pb) (bp_anti_rollback b) = Ok tt
  | Upgrade => exists p, upgrade_evidence link ctx debug p /\ ctx_prior_chain ctx <> [] /\
      signed_payload_seen link (ctx_prior_chain ctx) = false
  | Revocation => exists r t, revocation_evidence link ctx now r t
  end.
Proof.
  destruct (cl_kind link) eqn:Hk.
  - destruct (boot_accepted _ _ _ _ _ Hk Hok) as (b & Hb & Hv).
    apply validate_boot_inv in Hv as (_ & b' & Hd & _ & _ & _ & Hlast).
    assert (b' = b) as -> by (destruct Hb as (_ & _ & Hd' & _); congruence).
    destruct (last_boot _) as [prev|].
    + destruct Hlast as (pb & Hpb & [[_ ?]|(Hne & Hu & Hs & Ho)]); [done|].
      unfold next_sequence in Ho. result_inv. split; [done|]. exists b. split; [done|].
      intros prev' pb' ? Hpb'. simplify_eq. rewrite Hpb in Hpb'. by result_inv.
    + unfold next_sequence in Hlast. simplify_eq. split; [done|]. exists b. split; [done|].
      intros; discriminate.
  - destruct (upgrade_accepted _ _ _ _ _ Hk Hok) as (p & Hp & Hs).
    destruct (signed_payload_seen _ _) eqn:Hseen; [done|]. destruct Hs as [Hne Hn].
    unfold next_sequence in Hn. simplify_eq. split; [done|]. by exists p.
  - destruct (revocation_accepted _ _ _ _ _ Hk Hok) as (r & t & Hr & ->). eauto.
Qed.

(** A replayed signed link changes nothing at ingest: a validly signed
    upgrade whose payload is already chained is answered [Dedup], never
    appended under a fresh entry id, so the revocation of the original
    still covers it. *)
Theorem replayed_upgrade_is_not_appended link ctx now debug o l
    (Hkind : cl_kind link = Upgrade)
    (Hin : l ∈ ctx_prior_chain ctx) (Hl : cl_kind l = Upgrade)
    (Hpay : cl_payload l = cl_payload link)
    (Hok : validate link ctx now debug = Ok o) :
  o = Dedup.
Proof.
  destruct (upgrade_accepted _ _ _ _ _ Hkind Hok) as (p & _ & Hs).
  rewrite (proj2 (signed_payload_seen_spec _ _)) in Hs; [done|].
  exists l. by rewrite Hl, Hkind.
Qed.

(** A non-upgradable enclave keeps one image: nothing signed is accepted
    on its chain, and a boot after the genesis is accepted only as a
    duplicate of the same image. *)
Theorem non_upgradable_chain_is_fixed link ctx now debug o
    (Hfixed : ctx_upgradable ctx = false)
    (Hok : validate link ctx now debug = Ok o) :
  cl_kind link = Boot /\
  forall prev, last_boot (ctx_prior_chain ctx) = Some prev -> o = Dedup.
Proof.
  destruct (cl_kind link) eqn:Hk.
  - split; [done|]. intros prev Hprev.
    destruct (boot_accepted _ _ _ _ _ Hk Hok) as (b & _ & Hv).
    apply validate_boot_inv in Hv as (_ & b' & _ & _ & _ & _ & Hlast).
    rewrite Hprev in Hlast. destruct Hlast as (pb & _ & [[_ ->]|(_ & Hu & _)]); [done|congruence].
  - destruct (upgrade_accepted _ _ _ _ _ Hk Hok) as (p & (_ & Hu & _) & _). congruence.
  - apply validate_chain_link_inv in Hok as (doc & _ & _ & Hv). rewrite Hk in Hv.
    unfold validate_signed in Hv. by rewrite Hfixed in Hv.
Qed.
End Links.

(** ** The walk *)

Section Walks.
Context `{P256} `{NitroLib}.
Context `{Cbor BootPayload} `{Cbor UpgradePayload} `{Cbor RevocationPayload}.
Context (sha256 : bytes -> bytes).
Context (hex_encode : bytes -> string) (hex_decode : string -> option bytes).
Context (skip_chain_compiled : bool).
Context (enclave_id : Z) (row_pcrs : PcrsHex) (row_image_digest : string).
Context (control_public_key : option bytes) (upgradable : bool) (now : Z) (debug : bool).

Abbreviation attestation_of := (link_attestation sha256 skip_chain_compiled).
Abbreviation step := (walk_step sha256 hex_encode hex_decode skip_chain_compiled enclave_id
  row_pcrs row_image_digest control_public_key upgradable now debug).
Abbreviation walk_of := (walk sha256 hex_encode hex_decode skip_chain_compiled enclave_id
  row_pcrs row_image_digest control_public_key upgradable now debug).
Abbreviation descent := (verify_pcr_descent sha256 hex_encode hex_decode skip_chain_compiled
  enclave_id row_pcrs row_image_digest control_public_key upgradable now debug).
Abbreviation context_of := (link_context sha256 hex_encode skip_chain_compiled).

(** The context a link of the walk is validated in, at a state in force. *)
Definition ctx_at (links : list RecordedLink) (s : PcrsHex * string) : ChainContext :=
  mkChainContext enclave_id s.1 s.2 control_public_key upgradable (rl_link <$> links).

Definition all_ok (w : Walk) : Prop := Forall (fun o => is_ok o = true) (w_outcomes w).

Lemma walk_snoc links r : walk_of (links ++ [r]) = step (walk_of links) r.
Proof. unfold walk. by rewrite fold_left_app. Qed.

Lemma record_outcome_outcomes w l o : w_outcomes (record_outcome w l o) = w_outcomes w ++ [o].
Proof. done. Qed.

(** One step of the walk that records a good outcome. *)
Lemma step_ok w r :
  all_ok (step w r) ->
  all_ok w /\
  (is_signed_kind (cl_kind (rl_link r)) = true ->
     signed_payload_seen (rl_link r) (w_prior w) = false) /\
  exists p d promotes o,
    context_of w (rl_link r) row_pcrs row_image_digest debug = Ok (p, d, promotes) /\
    validate_chain_link sha256 hex_decode skip_chain_compiled (rl_link r)
      (mkChainContext enclave_id p d control_public_key upgradable (w_prior w))
      (default now (rl_recorded_at r)) debug = Ok o /\
    w_in_force (step w r) =
      if promotes && is_append (Ok o) then Some (p, d) else w_in_force w.
Proof.
  unfold all_ok, walk_step.
  destruct (is_signed_kind _ && _) eqn:Hdup.
  { rewrite record_outcome_outcomes. intros [_ Hl]%Forall_app.
    apply Forall_cons in Hl as [Hl _]. done. }
  destruct (context_of w (rl_link r) row_pcrs row_image_digest debug)
    as [[[p d] promotes]|e] eqn:Hctx.
  2:{ rewrite record_outcome_outcomes. intros [_ Hl]%Forall_app.
      apply Forall_cons in Hl as [Hl _]. done. }
  set (o := validate_chain_link _ _ _ _ _ _ _). intros Hall.
  assert (Hw : Forall (fun o => is_ok o = true) (w_outcomes w ++ [o]))
    by (destruct (promotes && is_append o); exact Hall).
  apply Forall_app in Hw as [Hw Ho]. apply Forall_cons in Ho as [Ho _].
  destruct o as [oo|] eqn:Eo; [|done]. split; [done|]. split.
  - intros Hk. rewrite Hk in Hdup. exact Hdup.
  - exists p, d, promotes, oo. split; [done|]. split; [done|].
    by destruct (promotes && is_append (Ok oo)).
Qed.

Lemma step_prior w r : w_prior (step w r) = w_prior w ++ [rl_link r].
Proof.
  unfold walk_step. destruct (is_signed_kind _ && _); [done|].
  destruct (context_of _ _ _ _ _) as [[[p d] promotes]|]; [|done].
  by destruct (promotes && _).
Qed.

Lemma walk_prior links : w_prior (walk_of links) = rl_link <$> links.
Proof.
  induction links as [|r links IH] using rev_ind; [done|].
  by rewrite walk_snoc, step_prior, IH, fmap_app.
Qed.

Lemma all_ok_prefix links links' : all_ok (walk_of (links ++ links')) -> all_ok (walk_of links).
Proof.
  induction links' as [|r links' IH] using rev_ind; [by rewrite app_nil_r|].
  rewrite app_assoc, walk_snoc. intros Hw. apply IH. by apply step_ok in Hw as [? _].
Qed.

Lemma all_ok_take links n : all_ok (walk_of links) -> all_ok (walk_of (take n links)).
Proof. intros Hw. eapply all_ok_prefix. by rewrite take_drop. Qed.

(** An upgrade link at position [i], validated when [s] was in force. *)
Definition authorized (links : list RecordedLink) (i : nat) (u : RecordedLink)
    (p : UpgradePayload) (s : PcrsHex * string) : Prop :=
  links !! i = Some u /\
  upgrade_evidence sha256 hex_decode skip_chain_compiled (rl_link u)
    (ctx_at (take i links) s) debug p.

Definition not_revoked (links : list RecordedLink) (u : RecordedLink) : Prop :=
  forall r rp, r ∈ links -> cl_kind (rl_link r) = Revocation ->
    decode_canonical (cl_payload (rl_link r)) = Ok rp -> cl_id (rl_link u) <> Some (rp_revokes rp).

(** The boot [r] of payload [b] is what the upgrade [p] announced: its
    measurements and image, inside the window widened by the skew
    tolerance, under exactly the identity signed in [up_to]. *)
Definition explains (p : UpgradePayload) (r : RecordedLink) (b : BootPayload) : Prop :=
  bp_pcrs b = image_pcrs_hex hex_encode (up_to p) /\ bp_image_digest b = up_image_digest p /\
  up_valid_from p - seconds 60 <= bp_booted_at b <= up_valid_until p + seconds 60 /\
  exists doc, attestation_of (rl_link r) debug = Ok doc /\ va_identity doc = up_to p.

(** [lineage links s]: the state [s] (measurements and image digest) is in
    force after [links], derived from the genesis boot through upgrades the
    enclave in force at the time attested and the control key signed. *)
Inductive lineage : list RecordedLink -> PcrsHex * string -> Prop :=
| lin_genesis r b :
    boot_evidence sha256 hex_decode skip_chain_compiled (rl_link r)
      (ctx_at [] (bp_pcrs b, bp_image_digest b)) debug b ->
    lineage [r] (bp_pcrs b, bp_image_digest b)
| lin_same links s r : lineage links s -> lineage (links ++ [r]) s
| lin_promote links s r b i u p s0 :
    lineage links s ->
    boot_evidence sha256 hex_decode skip_chain_compiled (rl_link r)
      (ctx_at links (bp_pcrs b, bp_image_digest b)) debug b ->
    lineage (take i links) s0 -> authorized links i u p s0 -> not_revoked links u ->
    explains p r b ->
    lineage (links ++ [r]) (bp_pcrs b, bp_image_digest b).

Lemma elem_of_revoked_ids prior id :
  id ∈ revoked_ids prior <->
  exists l rp, l ∈ prior /\ cl_kind l = Revocation /\ decode_canonical (cl_payload l) = Ok rp /\
    rp_revokes rp = id.
Proof.
  unfold revoked_ids. rewrite list_elem_of_omap. split.
  - intros (l & Hl & He). destruct (bool_decide_reflect (cl_kind l = Revocation)); [|done].
    destruct (decode_canonical (cl_payload l)) as [rp|] eqn:Ed; [|done]. simplify_eq/=. eauto 10.
  - intros (l & rp & Hl & Hk & Hd & <-). exists l. split; [done|].
    by rewrite bool_decide_eq_true_2, Hd.
Qed.

Lemma promotion_scan_Some revoked revd bp bd p :
  promotion_scan hex_encode revoked revd bp bd = Some p ->
  exists l, l ∈ revd /\ cl_kind l = Upgrade /\
    (forall id, cl_id l = Some id -> id ∉ revoked) /\
    decode_canonical (cl_payload l) = Ok p /\
    image_pcrs_hex hex_encode (up_to p) = bp /\ up_image_digest p = bd.
Proof.
  induction revd as [|l revd IH]; [done|]. cbn [promotion_scan]. rewrite negb_if.
  assert (Hrec : promotion_scan hex_encode revoked revd bp bd = Some p ->
    exists l', l' ∈ l :: revd /\ cl_kind l' = Upgrade /\
      (forall id, cl_id l' = Some id -> id ∉ revoked) /\
      decode_canonical (cl_payload l') = Ok p /\
      image_pcrs_hex hex_encode (up_to p) = bp /\ up_image_digest p = bd).
  { intros (l' & ? & ?)%IH. exists l'. split; [by right|done]. }
  destruct (bool_decide_reflect (cl_kind l = Upgrade)) as [Hk|]; [|done].
  destruct (match cl_id l with Some id => bool_decide (id ∈ revoked) | None => false end)
    eqn:Hrev; [done|].
  destruct (signed_payload_seen _ _); [done|].
  destruct (decode_canonical (cl_payload l)) as [p'|] eqn:Hd; [|done].
  destruct (bool_decide_reflect (image_pcrs_hex hex_encode (up_to p') = bp)); [|done].
  destruct (bool_decide_reflect (up_image_digest p' = bd)); [|done].
  cbn [andb]. intros ?. simplify_eq. exists l. split_and!; try done; [left|].
  intros id Hid. rewrite Hid in Hrev. by apply bool_decide_eq_false in Hrev.
Qed.

Lemma promotion_target_Some links bp bd p :
  promotion_target hex_encode (rl_link <$> links) bp bd = Some p ->
  exists i u, links !! i = Some u /\ cl_kind (rl_link u) = Upgrade /\ not_revoked links u /\
    decode_canonical (cl_payload (rl_link u)) = Ok p /\
    image_pcrs_hex hex_encode (up_to p) = bp /\ up_image_digest p = bd.
Proof.
  intros (l & Hl & Hk & Hrev & Hd & Hp & Hi)%promotion_scan_Some.
  apply list_elem_of_In, in_rev, list_elem_of_In in Hl. apply list_elem_of_fmap in Hl as (u & -> & Hu).
  apply list_elem_of_lookup in Hu as [i Hi']. exists i, u. split_and!; try done.
  intros r rp Hr Hkr Hdr Hid. apply (Hrev _ Hid). apply elem_of_revoked_ids.
  exists (rl_link r), rp. split; [|done]. apply list_elem_of_fmap. eauto.
Qed.

(** The boot [r] after [links] is announced by an upgrade of the chain that
    no revocation of the chain names. *)
Definition promoted (links : list RecordedLink) (r : RecordedLink) (b : BootPayload) : Prop :=
  exists i u p, links !! i = Some u /\ cl_kind (rl_link u) = Upgrade /\
    decode_canonical (cl_payload (rl_link u)) = Ok p /\ not_revoked links u /\ explains p r b.

Lemma context_boot w link s p d promotes :
  w_in_force w = Some s -> w_prior w <> [] -> cl_kind link = Boot ->
  context_of w link row_pcrs row_image_digest debug = Ok (p, d, promotes) ->
  (p = s.1 /\ d = s.2 /\ promotes = false) \/
  (exists b target, decode_canonical (cl_payload link) = Ok b /\
     promotion_target hex_encode (w_prior w) (bp_pcrs b) (bp_image_digest b) = Some target /\
     promotion_context sha256 hex_encode skip_chain_compiled link b target debug
       = Ok (p, d, promotes)).
Proof.
  intros Hf Hp Hk. unfold link_context. rewrite Hk, Hf. destruct s as [sp sd].
  destruct (w_prior w) as [|x prior]; [done|].
  destruct (decode_canonical (cl_payload link)) as [b|] eqn:Hd.
  - destruct (bool_decide _); [intros; result_inv; by left|].
    destruct (promotion_target _ _ _ _) as [target|] eqn:Ht; [|intros; result_inv; by left].
    intros Hc. right. eauto.
  - intros; result_inv; by left.
Qed.

Lemma promotion_context_Ok link b target p d promotes doc :
  attestation_of link debug = Ok doc ->
  promotion_context sha256 hex_encode skip_chain_compiled link b target debug
    = Ok (p, d, promotes) ->
  p = image_pcrs_hex hex_encode (up_to target) /\ d = up_image_digest target /\
  promotes = true /\ va_identity doc = up_to target /\
  up_valid_from target - seconds 60 <= bp_booted_at b <= up_valid_until target + seconds 60.
Proof.
  intros Hdoc. unfold promotion_context, CLOCK_SKEW_TOLERANCE_SECS. rewrite Hdoc.
  destruct (Z.ltb_spec (bp_booted_at b) (up_valid_from target - seconds 60)); [done|].
  destruct (Z.ltb_spec (up_valid_until target + seconds 60) (bp_booted_at b)); [done|].
  destruct (bool_decide_reflect (va_identity doc = up_to target)); [|done].
  cbn [negb]. intros; result_inv. split_and!; done || lia.
Qed.

Lemma boot_step links r s :
  links <> [] -> all_ok (walk_of (links ++ [r])) -> w_in_force (walk_of links) = Some s ->
  cl_kind (rl_link r) = Boot ->
  exists b o,
    boot_evidence sha256 hex_decode skip_chain_compiled (rl_link r)
      (ctx_at links (bp_pcrs b, bp_image_digest b)) debug b /\
    validate_boot (rl_link r) (ctx_at links (bp_pcrs b, bp_image_digest b)) = Ok o /\
    ((bp_pcrs b, bp_image_digest b) = s /\ w_in_force (walk_of (links ++ [r])) = Some s \/
     promoted links r b /\
     w_in_force (walk_of (links ++ [r])) =
       Some (if is_append (Ok o) then (bp_pcrs b, bp_image_digest b) else s)).
Proof.
  intros Hne Hok Hf Hk. rewrite walk_snoc in *.
  apply step_ok in Hok as (_ & _ & p & d & promotes & o & Hctx & Hv & Hf').
  rewrite walk_prior in Hv.
  destruct (boot_accepted _ _ _ _ _ _ _ _ Hk Hv) as (b & Hb & Hvb).
  pose proof Hb as (_ & _ & Hd & _ & Hpc & Hdg & _). simpl in Hpc, Hdg. subst p d.
  exists b, o. split; [exact Hb|]. split; [exact Hvb|].
  assert (Hpr : w_prior (walk_of links) <> []).
  { rewrite walk_prior. by destruct links. }
  destruct (context_boot _ _ _ _ _ _ Hf Hpr Hk Hctx)
    as [(E1 & E2 & ->)|(b' & target & Hd' & Ht & Hpctx)].
  - left. rewrite Hf', Hf. cbn [andb]. split; [|done]. destruct s. simpl in *. congruence.
  - right. rewrite Hd in Hd'. injection Hd' as <-. rewrite walk_prior in Ht.
    apply promotion_target_Some in Ht as (i & u & Hi & Hku & Hnr & Hdu & Hp & Hdig).
    apply validate_chain_link_inv in Hv as (doc & Hdoc & _).
    destruct (promotion_context_Ok _ _ _ _ _ _ _ Hdoc Hpctx) as (_ & _ & -> & Hid & Hw).
    split.
    + exists i, u, target. split_and!; try done. split_and!; try done; try lia. eauto.
    + rewrite Hf'. cbn [andb]. by destruct (is_append _).
Qed.

(** A validated upgrade of the chain was emitted and signed under the state
    in force at its position, and is never the first link. *)
Lemma upgrade_at links i u p :
  all_ok (walk_of links) -> links !! i = Some u -> cl_kind (rl_link u) = Upgrade ->
  decode_canonical (cl_payload (rl_link u)) = Ok p ->
  i <> 0%nat /\
  forall s, w_in_force (walk_of (take i links)) = Some s -> authorized links i u p s.
Proof.
  intros Hok Hi Hk Hd. apply (all_ok_take _ (S i)) in Hok.
  rewrite (take_S_r _ _ _ Hi), walk_snoc in Hok.
  apply step_ok in Hok as (_ & Hseen & pc & d & promotes & o & Hctx & Hv & _).
  rewrite Hk in Hseen. specialize (Hseen eq_refl). rewrite walk_prior in Hv, Hseen.
  destruct (upgrade_accepted _ _ _ _ _ _ _ _ Hk Hv) as (p' & Hev & Ho).
  cbn [ctx_prior_chain] in Ho. rewrite Hseen in Ho. destruct Ho as [Hne _].
  split; [intros ->; by apply Hne|].
  intros s Hs. split; [done|].
  assert (pc = s.1 /\ d = s.2) as [-> ->].
  { unfold link_context in Hctx. rewrite Hk, Hs in Hctx. destruct s. by result_inv. }
  assert (p' = p) as -> by (destruct Hev as (_ & _ & _ & Hd' & _); congruence).
  exact Hev.
Qed.

Lemma genesis_step r :
  all_ok (walk_of [r]) ->
  exists b, w_in_force (walk_of [r]) = Some (bp_pcrs b, bp_image_digest b) /\
    boot_evidence sha256 hex_decode skip_chain_compiled (rl_link r)
      (ctx_at [] (bp_pcrs b, bp_image_digest b)) debug b.
Proof.
  change [r] with ([] ++ [r]) at 1 2. rewrite walk_snoc. intros Hok.
  apply step_ok in Hok as (_ & Hseen & p & d & promotes & o & Hctx & Hv & ->).
  change (w_prior (walk_of [])) with (@nil ChainLink) in *.
  destruct (cl_kind (rl_link r)) eqn:Hk.
  - destruct (boot_accepted _ _ _ _ _ _ _ _ Hk Hv) as (b & Hb & Hvb).
    pose proof Hb as (_ & _ & Hd & _ & Hpc & Hdg & _). simpl in Hpc, Hdg. subst p d.
    unfold link_context in Hctx. rewrite Hk, Hd in Hctx. cbn in Hctx. result_inv.
    apply validate_boot_inv in Hvb as (_ & b' & _ & _ & _ & _ & Ho). cbn in Ho. subst o.
    exists b. split; [done|]. exact Hb.
  - destruct (upgrade_accepted _ _ _ _ _ _ _ _ Hk Hv) as (p' & _ & [Hne _]). done.
  - destruct (revocation_ok_or_seen _ _ _ _ _ _ _ _ Hk Hv eq_refl) as [n ->].
    destruct (revocation_accepted _ _ _ _ _ _ _ _ Hk Hv) as (rv & t & Ht & _).
    destruct Ht as (_ & _ & _ & _ & _ & Ht & _). by apply elem_of_nil in Ht.
Qed.

Lemma walk_lineage n links :
  (length links <= n)%nat -> links <> [] -> all_ok (walk_of links) ->
  exists s, w_in_force (walk_of links) = Some s /\ lineage links s.
Proof.
  revert links. induction n as [|n IH]; intros links Hlen Hne Hok;
    [destruct links; simpl in Hlen; [done|lia]|].
  destruct links as [|r links _] using rev_ind; [done|].
  rewrite length_app in Hlen. simpl in Hlen.
  destruct (decide (links = [])) as [->|Hl].
  { destruct (genesis_step r Hok) as (b & Hb & He). eexists. split; [exact Hb|].
    by apply lin_genesis. }
  pose proof (all_ok_prefix _ _ Hok) as Hok'.
  destruct (IH links ltac:(lia) Hl Hok') as (s & Hs & Hlin).
  destruct (decide (cl_kind (rl_link r) = Boot)) as [Hk|Hk].
  - destruct (boot_step links r s Hl Hok Hs Hk)
      as (b & o & Hb & Hvb & [[He ->]|[Hpro ->]]); [eexists; split; [done|]; by apply lin_same|].
    destruct (is_append (Ok o)); [|eexists; split; [done|]; by apply lin_same].
    destruct Hpro as (i & u & p & Hi & Hku & Hd & Hnr & Hex).
    destruct (upgrade_at _ _ _ _ Hok' Hi Hku Hd) as [Hi0 Hauth].
    assert (Hilen : (i < length links)%nat) by (by eapply lookup_lt_Some).
    destruct (IH (take i links)) as (s0 & Hs0 & Hlin0).
    { rewrite length_take. lia. }
    { intros E. apply (f_equal length) in E. rewrite length_take in E. simpl in E. lia. }
    { by apply all_ok_take. }
    eexists. split; [done|]. eapply lin_promote; eauto.
  - rewrite walk_snoc in Hok |- *.
    apply step_ok in Hok as (_ & _ & p & d & promotes & o & Hctx & _ & ->).
    assert (promotes = false) as ->.
    { unfold link_context in Hctx. rewrite Hs in Hctx. destruct s.
      by destruct (cl_kind (rl_link r)); result_inv. }
    eexists. split; [done|]. by apply lin_same.
Qed.

Lemma check_outcomes_Ok n os : check_outcomes n os = Ok tt -> Forall (fun o => is_ok o = true) os.
Proof.
  revert n. induction os as [|o os IH]; intros n Hc; [constructor|].
  cbn [check_outcomes] in Hc. destruct o; [|done]. constructor; [done|]. by eapply IH.
Qed.

Lemma pinned_in_lineage_true pinned pos links :
  pinned_in_lineage hex_decode pinned pos links = Ok true ->
  exists n r b, links !! n = Some r /\ cl_kind (rl_link r) = Boot /\
    decode_canonical (cl_payload (rl_link r)) = Ok b /\
    to_pcrs hex_decode (bp_pcrs b) = Ok pinned.
Proof.
  revert pos. induction links as [|r links IH]; intros pos Hp; [done|].
  cbn [pinned_in_lineage] in Hp. rewrite negb_if in Hp.
  destruct (bool_decide_reflect (cl_kind (rl_link r) = Boot)).
  - destruct (decode_canonical (cl_payload (rl_link r))) as [b|] eqn:Eb; [|done].
    cbn [map_err] in Hp.
    destruct (to_pcrs hex_decode (bp_pcrs b)) as [st|] eqn:Es; [|done]. cbn [map_err] in Hp.
    destruct (pinned_in_lineage _ _ _ _) as [found|] eqn:Ef; [|done].
    destruct (bool_decide_reflect (st = pinned)) as [->|]; [by exists 0%nat, r, b|].
    cbn [orb] in Hp. injection Hp as ->. destruct (IH _ Ef) as (n' & ?). by exists (S n').
  - destruct (IH _ Hp) as (n' & ?). by exists (S n').
Qed.

Lemma descent_inv pinned links tip :
  descent pinned links = Ok tip ->
  all_ok (walk_of links) /\ links <> [] /\
  (exists s, w_in_force (walk_of links) = Some s /\ to_pcrs hex_decode s.1 = Ok tip) /\
  pinned_in_lineage hex_decode pinned 0 links = Ok true.
Proof.
  unfold verify_pcr_descent, validate_chain. cbn [cw_outcomes cw_final_pcrs]. intros Hd.
  destruct (check_outcomes _ _) as [[]|] eqn:Ec; [|done].
  destruct (w_in_force (walk_of links)) as [s|] eqn:Ef; [|done]. cbn [ok_or fmap] in Hd.
  cbn in Hd. destruct (to_pcrs hex_decode s.1) as [tp|] eqn:Et; [|done]. cbn [map_err] in Hd.
  destruct (pinned_in_lineage _ _ _ _) as [[]|] eqn:Ep; [|done|done].
  cbn [negb] in Hd. injection Hd as ->. split_and!; [by eapply check_outcomes_Ok| |by eauto|done].
  intros ->. done.
Qed.

(** The measurements of an accepted boot at position [n] were in force
    after it, or an unrevoked upgrade of the chain announced them. *)
Lemma boot_state links n r b :
  all_ok (walk_of links) -> links !! n = Some r -> cl_kind (rl_link r) = Boot ->
  decode_canonical (cl_payload (rl_link r)) = Ok b ->
  boot_evidence sha256 hex_decode skip_chain_compiled (rl_link r)
    (ctx_at (take n links) (bp_pcrs b, bp_image_digest b)) debug b /\
  (lineage (take (S n) links) (bp_pcrs b, bp_image_digest b) \/ promoted (take n links) r b).
Proof.
  intros Hok Hn Hk Hd. assert (Hlt : (n < length links)%nat) by (by eapply lookup_lt_Some).
  apply (all_ok_take _ (S n)) in Hok. rewrite (take_S_r _ _ _ Hn) in Hok |- *.
  destruct n as [|n].
  - rewrite take_0 in Hok |- *. destruct (genesis_step r Hok) as (b' & _ & Hb).
    assert (b' = b) as -> by (destruct Hb as (_ & _ & Hd' & _); congruence).
    split; [done|]. left. by apply lin_genesis.
  - assert (Hne : take (S n) links <> []).
    { destruct links; [simpl in Hlt; lia|done]. }
    destruct (walk_lineage _ (take (S n) links) (le_n _) Hne) as (s & Hs & Hlin);
      [by eapply all_ok_prefix|].
    destruct (boot_step _ _ _ Hne Hok Hs Hk) as (b' & o & Hb & _ & Hcase).
    assert (b' = b) as -> by (destruct Hb as (_ & _ & Hd' & _); congruence).
    split; [done|]. destruct Hcase as [[-> _]|[Hp _]]; [left; by apply lin_same|by right].
Qed.

(** C20: a chain that proves descent explains its tip.  When
    [verify_pcr_descent] accepts, the tip is the state in force at the end of
    a lineage: a genesis boot attested for this enclave, and then promotion
    boots, each announced by an upgrade link that the control key signed in
    the upgrade domain, that the version in force at the time attested with
    exactly the identity it moves from, that no revocation of the chain
    names, and whose target identity the promotion boot's own attestation
    carries inside the window.  The pinned measurements are those of an
    attested boot of that chain, in force after it or announced by an
    unrevoked upgrade. *)
Theorem descent_is_explained pinned links tip (Hok : descent pinned links = Ok tip) :
  (exists s, lineage links s /\ to_pcrs hex_decode s.1 = Ok tip) /\
  (exists n r b, links !! n = Some r /\ to_pcrs hex_decode (bp_pcrs b) = Ok pinned /\
     boot_evidence sha256 hex_decode skip_chain_compiled (rl_link r)
       (ctx_at (take n links) (bp_pcrs b, bp_image_digest b)) debug b /\
     (lineage (take (S n) links) (bp_pcrs b, bp_image_digest b) \/
      promoted (take n links) r b)).
Proof.
  apply descent_inv in Hok as (Hall & Hne & (s & Hs & Htip) & Hpin). split.
  - destruct (walk_lineage _ _ (le_n _) Hne Hall) as (s' & Hs' & Hlin).
    rewrite Hs in Hs'. injection Hs' as <-. by exists s.
  - apply pinned_in_lineage_true in Hpin as (n & r & b & Hn & Hk & Hd & Hp).
    destruct (boot_state _ _ _ _ Hall Hn Hk Hd) as [Hb Hst]. by exists n, r, b.
Qed.

Lemma signed_links_distinct links i j u v :
  all_ok (walk_of links) -> links !! i = Some u -> links !! j = Some v ->
  cl_kind (rl_link u) = Upgrade -> cl_kind (rl_link v) = Upgrade ->
  cl_payload (rl_link u) = cl_payload (rl_link v) -> i = j.
Proof.
  assert (Hlt : forall i j u v, (i < j)%nat -> all_ok (walk_of links) ->
    links !! i = Some u -> links !! j = Some v -> cl_kind (rl_link u) = Upgrade ->
    cl_kind (rl_link v) = Upgrade -> cl_payload (rl_link u) <> cl_payload (rl_link v)).
  { clear. intros i j u v Hij Hok Hi Hj Hu Hv Hp. apply (all_ok_take _ (S j)) in Hok.
    rewrite (take_S_r _ _ _ Hj), walk_snoc in Hok. apply step_ok in Hok as (_ & Hseen & _).
    rewrite Hv in Hseen. specialize (Hseen eq_refl). rewrite walk_prior in Hseen.
    assert (signed_payload_seen (rl_link v) (rl_link <$> take j links) = true); [|congruence].
    apply signed_payload_seen_spec. exists (rl_link u). rewrite Hu, Hv. split_and!; try done.
    apply list_elem_of_fmap. exists u. split; [done|]. apply (list_elem_of_lookup_2 _ i).
    by rewrite lookup_take_lt. }
  intros Hok Hi Hj Hu Hv Hp. destruct (lt_eq_lt_dec i j) as [[|]|]; [|done|];
    exfalso; eapply Hlt; eauto.
Qed.

(** A revocation cancels by hash, whatever entry ids the chain is served
    with.  In an accepted chain, an upgrade that can still explain a boot at
    position [n] (no earlier revocation names its entry id) has a payload
    hash no earlier revocation signed, unless the chain exhibits a SHA-256
    collision between two upgrade payloads. *)
Theorem revoked_upgrade_promotes_nothing pinned links tip n i k u rv rp
    (Hok : descent pinned links = Ok tip)
    (Hu : links !! i = Some u) (Hku : cl_kind (rl_link u) = Upgrade)
    (Hrv : links !! k = Some rv) (Hkn : (k < n)%nat)
    (Hkrv : cl_kind (rl_link rv) = Revocation)
    (Hrp : decode_canonical (cl_payload (rl_link rv)) = Ok rp)
    (Hlive : not_revoked (take n links) u)
    (Hhash : rp_revokes_link rp = upgrade_link_hash sha256 (cl_payload (rl_link u))) :
  exists t, t ∈ links /\ cl_kind (rl_link t) = Upgrade /\
    cl_payload (rl_link t) <> cl_payload (rl_link u) /\
    upgrade_link_hash sha256 (cl_payload (rl_link t)) =
    upgrade_link_hash sha256 (cl_payload (rl_link u)).
Proof.
  apply descent_inv in Hok as (Hall & _ & _ & _).
  pose proof (all_ok_take _ (S k) Hall) as Hk. rewrite (take_S_r _ _ _ Hrv), walk_snoc in Hk.
  apply step_ok in Hk as (_ & Hseen & pc & d & promotes & o & _ & Hv & _).
  rewrite Hkrv in Hseen. specialize (Hseen eq_refl). rewrite walk_prior in Hseen, Hv.
  destruct (revocation_ok_or_seen _ _ _ _ _ _ _ _ Hkrv Hv Hseen) as [m ->].
  destruct (revocation_accepted _ _ _ _ _ _ _ _ Hkrv Hv)
    as (rp' & t & (_ & _ & _ & Hd & _ & Ht & Hid & Hkt & Hth & _) & _).
  assert (rp' = rp) as -> by congruence. cbn [ctx_prior_chain] in Ht.
  apply list_elem_of_fmap in Ht as (tr & -> & Htr).
  apply list_elem_of_lookup in Htr as [j Hj].
  apply lookup_take_Some in Hj as [Hj Hjk].
  exists tr. split_and!; [by eapply list_elem_of_lookup_2|done| |congruence].
  intros Hpay. pose proof (signed_links_distinct _ _ _ _ _ Hall Hj Hu Hkt Hku Hpay) as ->.
  rewrite Hj in Hu. injection Hu as ->.
  refine (Hlive rv rp _ Hkrv Hrp Hid).
  apply (list_elem_of_lookup_2 _ k). by rewrite lookup_take_lt.
Qed.
End Walks.

(** ** Witnesses *)

Module Demo.
Definition hex (seed : Z) : PcrsHex := image_pcrs_hex demo_hex_encode (demo_identity seed 0).
Definition image (seed : Z) : Pcrs := image_pcrs (demo_identity seed 0).

Definition boot (seed : Z) (digest : string) (at_ : Z) : BootPayload :=
  mkBootPayload 7 digest (hex seed) at_ [] ar_disabled.
Definition upgrade (digest : string) (nonce : Z) : UpgradePayload :=
  mkUpgradePayload 7 (demo_identity 1 0) (demo_identity 2 0) digest
    (seconds 1000) (seconds 5000) 0 [nonce].
Definition revocation : RevocationPayload :=
  mkRevocationPayload 7 20 0 [] (toy_sha256 [20]).

#[global] Instance BootPayload_eq_dec : EqDecision BootPayload.
Proof. solve_decision. Defined.
#[global] Instance UpgradePayload_eq_dec : EqDecision UpgradePayload.
Proof. solve_decision. Defined.

(** Codecs by table: the payloads of the demonstration chains. *)
Definition boots : list (bytes * BootPayload) :=
  [([10], boot 1 "img-1" 0); ([11], boot 2 "img-2" (seconds 2000));
   ([12], boot 2 "img-1" (seconds 2000))].
Definition upgrades : list (bytes * UpgradePayload) :=
  [([20], upgrade "img-2" 1); ([20; 0], upgrade "img-2" 2); ([22], upgrade "img-1" 3)].

Definition table_encode {T} `{EqDecision T} (t : list (bytes * T)) (v : T) : bytes :=
  default [] (fst <$> List.find (fun e => bool_decide (e.2 = v)) t).
Definition table_decode {T} (t : list (bytes * T)) (bs : bytes) : result T string :=
  ok_or (snd <$> List.find (fun e => bool_decide (e.1 = bs)) t) "unknown"%string.

#[global] Instance boot_cbor : Cbor BootPayload :=
  {| encode := table_encode boots; from_reader := table_decode boots |}.
#[global] Instance upgrade_cbor : Cbor UpgradePayload :=
  {| encode := table_encode upgrades; from_reader := table_decode upgrades |}.
#[global] Instance revocation_cbor : Cbor RevocationPayload :=
  {| encode _ := [30];
     from_reader bs := if bool_decide (bs = [30]) then Ok revocation else Err "unknown"%string |}.

Definition link (kind : ChainLinkKind) (id : Z) (seed : Z) (payload : bytes)
    (sig : option SignedDomain) : RecordedLink :=
  mkRecordedLink
    (mkChainLink (Some id) None kind payload (toy_document 0 seed (toy_sha256 payload))
       ((fun d => toy_tag 5 (signed_message d payload)) <$> sig)) (Some 0).

Definition boot_link (id seed : Z) (payload : bytes) := link Boot id seed payload None.
Definition upgrade_link (id : Z) (payload : bytes) :=
  link Upgrade id 1 payload (Some Dom_UpgradePayload).
Definition revocation_link (id : Z) := link Revocation id 1 [30] (Some Dom_RevocationPayload).

(** Genesis, an upgrade to another image, and the promotion boot. *)
Definition upgraded_chain : list RecordedLink :=
  [boot_link 1 1 [10]; upgrade_link 2 [20]; boot_link 3 2 [11]].

(** Two upgrades whose payloads collide under the toy digest, one revoked. *)
Definition revoked_chain : list RecordedLink :=
  [boot_link 1 1 [10]; upgrade_link 20 [20]; upgrade_link 21 [20; 0]; revocation_link 4].

(** An upgrade that keeps the image digest (say, a new kernel under the same
    image), and the boot of its target. *)
Definition same_digest_chain : list RecordedLink :=
  [boot_link 1 1 [10]; upgrade_link 2 [22]; boot_link 3 2 [12]].

Definition descent (row : Z) (pinned : Pcrs) (links : list RecordedLink) :=
  verify_pcr_descent (H := toy_P256) (H0 := toy_NitroLib) toy_sha256 demo_hex_encode
    demo_hex_decode false 7 (hex row) "img" (Some [5]) true 0 false pinned links.

Example upgraded_chain_accepted : descent 2 (image 1) upgraded_chain = Ok (image 2).
Proof. vm_compute. reflexivity. Qed.
End Demo.

(** The context of the demonstration enclave at the end of [links]. *)
Definition demo_ctx (seed : Z) (digest : string) (upgradable : bool) (links : list RecordedLink)
    : ChainContext :=
  mkChainContext 7 (Demo.hex seed) digest (Some [5]) upgradable (rl_link <$> links).

Definition demo_validate :=
  validate_chain_link (H := toy_P256) (H0 := toy_NitroLib) toy_sha256 demo_hex_decode false.

Lemma appended_link_is_evidence_witness :
  1 = 1 /\ exists p,
    upgrade_evidence (H := toy_P256) (H0 := toy_NitroLib) toy_sha256 demo_hex_decode false
      (rl_link (Demo.upgrade_link 2 [20])) (demo_ctx 1 "img-1" true [Demo.boot_link 1 1 [10]])
      false p /\
    ctx_prior_chain (demo_ctx 1 "img-1" true [Demo.boot_link 1 1 [10]]) <> [] /\
    signed_payload_seen (rl_link (Demo.upgrade_link 2 [20]))
      (ctx_prior_chain (demo_ctx 1 "img-1" true [Demo.boot_link 1 1 [10]])) = false.
Proof.
  refine (appended_link_is_evidence (H := toy_P256) (H0 := toy_NitroLib) toy_sha256
           demo_hex_decode false (rl_link (Demo.upgrade_link 2 [20]))
           (demo_ctx 1 "img-1" true [Demo.boot_link 1 1 [10]]) 0 false 1
           _);
    vm_compute; reflexivity.
Defined.

Lemma replayed_upgrade_is_not_appended_witness :
  demo_validate (rl_link (Demo.upgrade_link 99 [20]))
    (demo_ctx 1 "img-1" true (take 2 Demo.upgraded_chain)) 0 false = Ok Dedup /\ Dedup = Dedup.
Proof.
  split; [vm_compute; reflexivity|].
  apply (replayed_upgrade_is_not_appended (H := toy_P256) (H0 := toy_NitroLib) toy_sha256
           demo_hex_decode false (rl_link (Demo.upgrade_link 99 [20]))
           (demo_ctx 1 "img-1" true (take 2 Demo.upgraded_chain)) 0 false Dedup
           (rl_link (Demo.upgrade_link 2 [20])));
    [done|right; left|done|done|vm_compute; reflexivity].
Defined.

Lemma non_upgradable_chain_is_fixed_witness :
  Boot = Boot /\
  forall prev, last_boot [rl_link (Demo.boot_link 1 1 [10])] = Some prev -> Dedup = Dedup.
Proof.
  refine (non_upgradable_chain_is_fixed (H := toy_P256) (H0 := toy_NitroLib) toy_sha256
           demo_hex_decode false (rl_link (Demo.boot_link 2 1 [10]))
           (demo_ctx 1 "img-1" false [Demo.boot_link 1 1 [10]]) 0 false Dedup
           eq_refl _);
    vm_compute; reflexivity.
Defined.

Definition demo_lineage :=
  lineage (H := toy_P256) (H0 := toy_NitroLib) toy_sha256 demo_hex_encode demo_hex_decode
    false 7 (Some [5]) true false.

Lemma descent_is_explained_witness :
  exists s, demo_lineage Demo.upgraded_chain s /\
            to_pcrs demo_hex_decode s.1 = Ok (Demo.image 2).
Proof.
  refine (proj1 (descent_is_explained (H := toy_P256) (H0 := toy_NitroLib) toy_sha256
           demo_hex_encode demo_hex_decode false 7 (Demo.hex 2) "img" (Some [5]) true 0 false
           (Demo.image 1) Demo.upgraded_chain (Demo.image 2) _));
    vm_compute; reflexivity.
Defined.

Lemma demo_live :
  not_revoked (take 4 Demo.revoked_chain) (Demo.upgrade_link 21 [20; 0]).
Proof.
  intros r rp Hr Hk Hd Hid. unfold Demo.revoked_chain in Hr. cbn [take] in Hr.
  rewrite !elem_of_cons, elem_of_nil in Hr.
  destruct Hr as [->|[->|[->|[->|[]]]]]; try discriminate Hk.
  vm_compute in Hd. injection Hd as <-. vm_compute in Hid. discriminate.
Qed.

Lemma revoked_upgrade_promotes_nothing_witness :
  exists t, t ∈ Demo.revoked_chain /\ cl_kind (rl_link t) = Upgrade /\
    cl_payload (rl_link t) <> [20; 0] /\
    upgrade_link_hash toy_sha256 (cl_payload (rl_link t)) =
    upgrade_link_hash toy_sha256 [20; 0].
Proof.
  apply (revoked_upgrade_promotes_nothing (H := toy_P256) (H0 := toy_NitroLib) toy_sha256
           demo_hex_encode demo_hex_decode false 7 (Demo.hex 1) "img" (Some [5]) true 0 false
           (Demo.image 1) Demo.revoked_chain (Demo.image 1) 4 2 3
           (Demo.upgrade_link 21 [20; 0]) (Demo.revocation_link 4) Demo.revocation);
    [vm_compute; reflexivity|done|done|done|lia|done|vm_compute; reflexivity|exact demo_live|done].
Defined.

(** The tip can precede the pin.  A boot whose image digest equals the
    previous boot's is a duplicate for [validate_boot], so a promotion to new
    measurements under an unchanged digest validates without advancing the
    state in force, while the lineage gate still counts its measurements: for
    the chain [genesis; upgrade 1 -> 2 keeping the digest; boot of 2], pinning
    the measurements of version 2 returns the measurements of version 1, the
    version the upgrade replaced. *)
Theorem descent_can_return_the_replaced_version :
  Demo.descent 1 (Demo.image 2) Demo.same_digest_chain = Ok (Demo.image 1) /\
  Demo.image 1 <> Demo.image 2 /\
  cw_outcomes (validate_chain (H := toy_P256) (H0 := toy_NitroLib) toy_sha256 demo_hex_encode
    demo_hex_decode false 7 (Demo.hex 1) "img" (Some [5]) true 0 false Demo.same_digest_chain)
  = [Ok (Append 0); Ok (Append 1); Ok Dedup].
Proof.
  split; [vm_compute; reflexivity|]. split; [|vm_compute; reflexivity].
  intros E. vm_compute in E. discriminate.
Qed.
