(* ===== verification/Wire.v ===== *)
(** The synchronizer's RPC surface ([synchronizer/src/wire.rs], with the
    attestation entry points of [attest.rs]): requests, responses, error
    folding, capability negotiation, the server-attestation policy, and the
    verifiers of the two signed credentials, an upgrade link presented by a
    [Transition] and a revocation link presented by a [Revoke].

    [now_ms] arguments are the verifier's trusted time; times of a payload are
    nanoseconds, [timestamp_millis] being their floor to milliseconds. *)
From stdpp Require Import gmap sets list strings.
From S2P Require Import Prelude StateMachine Store Membership Identity Signing Attestation Chain ChainProofs.
#[local] Open Scope Z_scope.

Inductive Request : Type :=
| Rq_Get (key : PcrKey)
| Rq_Register (key : PcrKey) (commitment : Commitment)
| Rq_Pin (key : PcrKey) (expected_version : Version) (commitment : Commitment)
| Rq_Transition (link : ChainLink) (commitment : Commitment)
| Rq_Revoke (link : ChainLink).

Inductive RpcError : Type :=
| Rpc_Unauthorized
| Rpc_NotFound
| Rpc_AlreadyRegistered
| Rpc_TransitionRejected
| Rpc_OperationRejected
| Rpc_VersionConflict
| Rpc_Unavailable
| Rpc_TransitionRevoked
| Rpc_RevocationRejected
| Rpc_TransitionCommitmentMismatch.

#[global] Instance RpcError_eq_dec : EqDecision RpcError.
Proof. solve_decision. Defined.

Inductive Response : Type :=
| GetOk (commitment : Commitment) (version : Version)
| RegisterOk
| PinOk (version : Version)
| TransitionOk (version : Version)
| RevokeOk
| RespErr (error : RpcError).

#[global] Instance Response_eq_dec : EqDecision Response.
Proof. solve_decision. Defined.

(** [impl From<ValidationError> for RpcError]. *)
Definition rpc_error_of (e : ValidationError) : RpcError :=
  match e with
  | NotAttested | NewKeyNotAttested | NoTransitionAuthorization | NewKeyAlreadyExists
  | OldKeyEqualsNew => Rpc_TransitionRejected
  | TransitionRevoked => Rpc_TransitionRevoked
  | CommitmentMismatch => Rpc_TransitionCommitmentMismatch
  | KeyNotCurrent => Rpc_NotFound
  | StalePin _ _ => Rpc_VersionConflict
  | AlreadyRegistered => Rpc_AlreadyRegistered
  | KeyRetired => Rpc_OperationRejected
  end.

(** ** Version and capabilities *)

Definition MAX_FRAME_SIZE : Z := 65535.
Definition PROTOCOL_VERSION : Z := 1.
Definition SUPPORTED_CAPABILITIES : list string := ["revocation"%string].
Definition supported_capabilities : gset string := list_to_set SUPPORTED_CAPABILITIES.

Definition negotiate_capabilities (peer : gset string) : gset string :=
  list_to_set (filter (fun c => c ∈ peer) SUPPORTED_CAPABILITIES).

Record PeerProtocol := mkPeerProtocol { pp_version : Z; pp_capabilities : gset string }.

Definition from_advertised (version : Z) (capabilities : gset string) : PeerProtocol :=
  mkPeerProtocol version (negotiate_capabilities capabilities).

Definition supports (p : PeerProtocol) (capability : string) : bool :=
  bool_decide (capability ∈ pp_capabilities p).

Inductive Frame : Type :=
| Authenticate (nsm_doc : bytes) (protocol_version : Z) (capabilities : gset string)
| Rpc (request : Request).

(** [Frame::authenticate]. *)
Definition authenticate (nsm_doc : bytes) : Frame :=
  Authenticate nsm_doc PROTOCOL_VERSION supported_capabilities.

(** ** Verification errors *)

Inductive ServerAuthError : Type :=
| SA_Attestation (e : AttestationError)
| PcrRejected.

Inductive TransitionLinkError : Type :=
| NotAnUpgradeLink (kind : ChainLinkKind)
| TL_MissingSignature
| TL_SignatureShape
| TL_BadControlPubkey
| TL_SignatureInvalid
| TL_PayloadDecode (e : CanonicalDecodeError)
| TL_Attestation (e : AttestationError)
| SessionKeyMismatch
| SelfTransition
| TL_NotYetValid (valid_from_ms now_ms : Z)
| TL_Expired (valid_until_ms now_ms : Z)
| WindowInvalid.

Inductive RevocationLinkError : Type :=
| NotARevocationLink (kind : ChainLinkKind)
| RL_MissingSignature
| RL_SignatureShape
| RL_BadControlPubkey
| RL_SignatureInvalid
| RL_PayloadDecode (e : CanonicalDecodeError).

Definition attestation_reason (e : TransitionLinkError) : option RejectionReason :=
  match e with TL_Attestation e => Some (reason e) | _ => None end.

Record DecodedTransition := mkDecoded { dt_old_key : PcrKey; dt_new_key : PcrKey }.

Record VerifiedTransition := mkVerifiedTransition {
  vt_old_key : PcrKey;
  vt_new_key : PcrKey;
  vt_link_hash : bytes;
  vt_valid_until_ms : Z;
}.

Definition TRANSITION_CLOCK_TOLERANCE_MS : Z := 60000.

(** [DateTime::timestamp_millis]. *)
Definition timestamp_millis (t : Z) : Z := t / 1000000.

Definition past_valid_until (now_ms valid_until_ms : Z) : bool :=
  valid_until_ms + TRANSITION_CLOCK_TOLERANCE_MS <? now_ms.

Definition admits (expected : list Pcrs) (pcrs : Pcrs) : bool :=
  existsb (fun e => bool_decide (e = pcrs)) expected.

Section Wire.
Context `{P256} `{NitroLib}.
Context `{Cbor BootPayload} `{Cbor UpgradePayload} `{Cbor RevocationPayload}.
Context (sha256 : bytes -> bytes).
Context (skip_chain_compiled : bool).

(** ** [attest.rs] *)

Definition attest_session_at (nsm_doc handshake_hash : bytes) (debug_mode : bool) (now_ms : Z)
    : result ValidatedAttestation AttestationError :=
  if debug_mode then
    if skip_chain_compiled then validate_session_skip_chain_at nsm_doc handshake_hash now_ms
    else Err SkipChainNotCompiled
  else validate_session_at nsm_doc handshake_hash now_ms.

Definition attest_chain_link (attestation payload : bytes) (debug_mode : bool)
    : result ValidatedAttestation AttestationError :=
  if debug_mode then
    if skip_chain_compiled then validate_chain_link_skip_chain sha256 attestation payload
    else Err SkipChainNotCompiled
  else validate_link_document sha256 attestation payload.

(** [now_ms] is the system clock here. *)
Definition verify_server_attestation (nsm_doc handshake_hash : bytes) (expected : list Pcrs)
    (debug_mode : bool) (now_ms : Z) : result Pcrs ServerAuthError :=
  let? doc := map_err SA_Attestation
                (attest_session_at nsm_doc handshake_hash debug_mode now_ms) in
  match require_pcrs_in doc expected with
  | Ok pcrs => Ok pcrs
  | Err PcrsNotExpected => Err PcrRejected
  | Err e => Err (SA_Attestation e)
  end.

(** ** Transition links *)

Definition decode_transition_link (link : ChainLink)
    : result DecodedTransition TransitionLinkError :=
  if negb (bool_decide (cl_kind link = Upgrade)) then Err (NotAnUpgradeLink (cl_kind link))
  else if negb (bool_decide (is_Some (cl_signature link))) then Err TL_MissingSignature
  else
    let? payload := map_err TL_PayloadDecode
                      (decode_canonical (T := UpgradePayload) (cl_payload link)) in
    Ok (mkDecoded (mkPcrKey (pin_key sha256 (up_from payload)))
                  (mkPcrKey (pin_key sha256 (up_to payload)))).

Definition verify_transition_link (link : ChainLink) (decoded : DecodedTransition)
    (session_key : PcrKey) (old_control_pubkey : bytes) (debug_mode : bool) (now_ms : Z)
    : result VerifiedTransition TransitionLinkError :=
  if negb (bool_decide (dt_new_key decoded = session_key)) then Err SessionKeyMismatch
  else if bool_decide (dt_new_key decoded = dt_old_key decoded) then Err SelfTransition
  else
    let? sig_bytes := ok_or (cl_signature link) TL_MissingSignature in
    let? verifying := map_err (fun _ => TL_BadControlPubkey)
                        (vk_from_sec1_bytes old_control_pubkey) in
    let? _ := map_err (fun e => match e with
                                | Sig_Shape => TL_SignatureShape
                                | Sig_Invalid => TL_SignatureInvalid
                                end)
                (verify_control_signature verifying Dom_UpgradePayload (cl_payload link)
                   sig_bytes) in
    let? payload := map_err TL_PayloadDecode
                      (decode_canonical (T := UpgradePayload) (cl_payload link)) in
    if negb (upgrade_window_is_valid (up_valid_from payload) (up_valid_until payload))
    then Err WindowInvalid
    else
      let valid_from_ms := timestamp_millis (up_valid_from payload) in
      if now_ms <? valid_from_ms - TRANSITION_CLOCK_TOLERANCE_MS
      then Err (TL_NotYetValid valid_from_ms now_ms)
      else
        let valid_until_ms := timestamp_millis (up_valid_until payload) in
        if past_valid_until now_ms valid_until_ms then Err (TL_Expired valid_until_ms now_ms)
        else
          let? _ := map_err TL_Attestation
                      (let? doc := attest_chain_link (cl_attestation link) (cl_payload link)
                                     debug_mode in
                       require_identity doc (up_from payload)) in
          Ok (mkVerifiedTransition (dt_old_key decoded) (dt_new_key decoded)
                (upgrade_link_hash sha256 (cl_payload link)) valid_until_ms).

(** ** Revocation links *)

(** The verified revocation is the revoked link's hash. *)
Definition verify_revocation_link (link : ChainLink) (control_pubkey : bytes)
    : result bytes RevocationLinkError :=
  if negb (bool_decide (cl_kind link = Revocation)) then Err (NotARevocationLink (cl_kind link))
  else
    let? sig_bytes := ok_or (cl_signature link) RL_MissingSignature in
    let? verifying := map_err (fun _ => RL_BadControlPubkey)
                        (vk_from_sec1_bytes control_pubkey) in
    let? _ := map_err (fun e => match e with
                                | Sig_Shape => RL_SignatureShape
                                | Sig_Invalid => RL_SignatureInvalid
                                end)
                (verify_control_signature verifying Dom_RevocationPayload (cl_payload link)
                   sig_bytes) in
    let? payload := map_err RL_PayloadDecode
                      (decode_canonical (T := RevocationPayload) (cl_payload link)) in
    Ok (rp_revokes_link payload).
End Wire.

(** ** What the verifiers accept *)

Section Authority.
Context `{P256} `{NitroLib}.
Context `{Cbor UpgradePayload} `{Cbor RevocationPayload}.
Context (sha256 : bytes -> bytes).
Context (skip_chain_compiled : bool).

(** The key [pubkey] signed the link's payload in [domain]. *)
Definition control_signed (link : ChainLink) (pubkey : bytes) (domain : SignedDomain) : Prop :=
  signed_in link (Some pubkey) domain.

(** An upgrade link that lets session [session_key] take over the pin of the
    identity [up_from p], [pubkey] being that pin's frozen control key. *)
Record transition_authority (link : ChainLink) (session_key : PcrKey) (pubkey : bytes)
    (debug_mode : bool) (now_ms : Z) (p : UpgradePayload) : Prop := {
  ta_kind : cl_kind link = Upgrade;
  ta_signed : control_signed link pubkey Dom_UpgradePayload;
  ta_payload : decode_canonical (cl_payload link) = Ok p;
  ta_session : session_key = mkPcrKey (pin_key sha256 (up_to p));
  ta_moves : pin_key sha256 (up_to p) <> pin_key sha256 (up_from p);
  ta_window : up_valid_from p + UPGRADE_WINDOW_MIN <= up_valid_until p;
  ta_active : timestamp_millis (up_valid_from p) <= now_ms + TRANSITION_CLOCK_TOLERANCE_MS;
  ta_not_expired : now_ms <= timestamp_millis (up_valid_until p) + TRANSITION_CLOCK_TOLERANCE_MS;
  ta_attested : exists doc,
    attest_chain_link sha256 skip_chain_compiled (cl_attestation link) (cl_payload link)
      debug_mode = Ok doc /\ va_identity doc = up_from p;
}.

Lemma decode_transition_link_Ok link d :
  decode_transition_link sha256 link = Ok d <->
  cl_kind link = Upgrade /\ is_Some (cl_signature link) /\
  exists p, decode_canonical (cl_payload link) = Ok p /\
    d = mkDecoded (mkPcrKey (pin_key sha256 (up_from p))) (mkPcrKey (pin_key sha256 (up_to p))).
Proof.
  unfold decode_transition_link. rewrite !negb_if.
  destruct (bool_decide_reflect (cl_kind link = Upgrade)); [|naive_solver].
  destruct (bool_decide_reflect (is_Some (cl_signature link))); [|naive_solver].
  destruct (decode_canonical (cl_payload link)) as [p|]; cbn [map_err]; [|naive_solver].
  split; [intros; result_inv; eauto 10|]. intros (_ & _ & p' & ? & ->). by result_inv.
Qed.

Lemma verify_transition_link_inv link d sk pk debug now v :
  verify_transition_link sha256 skip_chain_compiled link d sk pk debug now = Ok v ->
  dt_new_key d = sk /\ dt_new_key d <> dt_old_key d /\
  control_signed link pk Dom_UpgradePayload /\
  exists p doc, decode_canonical (cl_payload link) = Ok p /\
    up_valid_from p + UPGRADE_WINDOW_MIN <= up_valid_until p /\
    timestamp_millis (up_valid_from p) <= now + TRANSITION_CLOCK_TOLERANCE_MS /\
    now <= timestamp_millis (up_valid_until p) + TRANSITION_CLOCK_TOLERANCE_MS /\
    attest_chain_link sha256 skip_chain_compiled (cl_attestation link) (cl_payload link)
      debug = Ok doc /\ va_identity doc = up_from p /\
    v = mkVerifiedTransition (dt_old_key d) (dt_new_key d)
          (upgrade_link_hash sha256 (cl_payload link)) (timestamp_millis (up_valid_until p)).
Proof.
  unfold verify_transition_link. rewrite !negb_if. intros Hv.
  destruct (bool_decide_reflect (dt_new_key d = sk)); [|done].
  destruct (bool_decide_reflect (dt_new_key d = dt_old_key d)); [done|].
  destruct (cl_signature link) as [sig|] eqn:Es; [|done]. cbn [ok_or] in Hv.
  destruct (vk_from_sec1_bytes pk) as [vk|] eqn:Ev; [|done]. cbn [map_err] in Hv.
  destruct (verify_control_signature _ _ _ _) as [[]|] eqn:Ec; [|done]. cbn [map_err] in Hv.
  destruct (decode_canonical (cl_payload link)) as [p|] eqn:Ep; [|done]. cbn [map_err] in Hv.
  unfold upgrade_window_is_valid, past_valid_until in Hv. rewrite negb_if in Hv.
  destruct (Z.leb_spec UPGRADE_WINDOW_MIN (up_valid_until p - up_valid_from p)); [|done].
  destruct (Z.ltb_spec now (timestamp_millis (up_valid_from p) - TRANSITION_CLOCK_TOLERANCE_MS));
    [done|].
  destruct (Z.ltb_spec (timestamp_millis (up_valid_until p) + TRANSITION_CLOCK_TOLERANCE_MS) now);
    [done|].
  destruct (attest_chain_link _ _ _ _ _) as [doc|] eqn:Ea; [|done].
  destruct (require_identity doc (up_from p)) as [[]|] eqn:Er; [|done]. cbn [map_err] in Hv.
  apply require_identity_Ok in Er. result_inv.
  split_and!; try done; [by exists sig, pk, vk|]. exists p, doc. split_and!; try done; lia.
Qed.

Lemma verify_transition_link_complete link d sk pk debug now p doc :
  dt_new_key d = sk -> dt_new_key d <> dt_old_key d ->
  control_signed link pk Dom_UpgradePayload ->
  decode_canonical (cl_payload link) = Ok p ->
  up_valid_from p + UPGRADE_WINDOW_MIN <= up_valid_until p ->
  timestamp_millis (up_valid_from p) <= now + TRANSITION_CLOCK_TOLERANCE_MS ->
  now <= timestamp_millis (up_valid_until p) + TRANSITION_CLOCK_TOLERANCE_MS ->
  attest_chain_link sha256 skip_chain_compiled (cl_attestation link) (cl_payload link) debug
    = Ok doc ->
  va_identity doc = up_from p ->
  verify_transition_link sha256 skip_chain_compiled link d sk pk debug now =
  Ok (mkVerifiedTransition (dt_old_key d) (dt_new_key d)
        (upgrade_link_hash sha256 (cl_payload link)) (timestamp_millis (up_valid_until p))).
Proof.
  intros <- Hne (sig & pk' & vk & Es & ? & Ev & Ec) Ep Hw Ha Hx Hdoc Hid. simplify_eq.
  unfold verify_transition_link, upgrade_window_is_valid, past_valid_until.
  rewrite bool_decide_eq_true_2, bool_decide_eq_false_2 by done. cbn [negb].
  rewrite Es. cbn [ok_or]. rewrite Ev. cbn [map_err]. rewrite Ec. cbn [map_err].
  rewrite Ep. cbn [map_err].
  rewrite (proj2 (Z.leb_le _ _)) by lia. cbn [negb].
  rewrite (proj2 (Z.ltb_ge _ _)) by lia. rewrite (proj2 (Z.ltb_ge _ _)) by lia.
  rewrite Hdoc, (proj2 (require_identity_Ok _ _)) by done. done.
Qed.

(** C10: a transition link is accepted exactly when it is an upgrade link
    whose payload the frozen control key of the old identity signed in the
    upgrade domain, whose target is the submitting session and not the
    source itself, whose window is at least an hour and contains the
    trusted time up to a minute, and whose attestation carries exactly the
    identity it moves from.  The verified keys and link hash are those of
    the signed payload. *)
Theorem transition_link_is_exact link sk pk debug now v :
  (exists d, decode_transition_link sha256 link = Ok d /\
     verify_transition_link sha256 skip_chain_compiled link d sk pk debug now = Ok v) <->
  (exists p, transition_authority link sk pk debug now p /\
     v = mkVerifiedTransition (mkPcrKey (pin_key sha256 (up_from p)))
           (mkPcrKey (pin_key sha256 (up_to p)))
           (upgrade_link_hash sha256 (cl_payload link)) (timestamp_millis (up_valid_until p))).
Proof.
  split.
  - intros (d & Hd & Hv). apply decode_transition_link_Ok in Hd as (Hk & _ & p & Hp & ->).
    apply verify_transition_link_inv in Hv
      as (Hs & Hne & Hsig & p' & doc & Hp' & Hw & Ha & Hx & Hdoc & Hid & ->).
    rewrite Hp in Hp'. injection Hp' as <-. exists p. simpl in *. split; [|done].
    split; try done; [congruence|]. eauto.
  - intros (p & [Hk Hsig Hp Hsk Hne Hw Ha Hx (doc & Hdoc & Hid)] & ->).
    eexists. split.
    + apply decode_transition_link_Ok. split_and!; [done| |by eauto].
      destruct Hsig as (sig & _ & _ & -> & _). by eexists.
    + erewrite verify_transition_link_complete; eauto; simpl; congruence.
Qed.

(** A revocation link is accepted exactly when it is a revocation link
    whose payload the pin's frozen control key signed in the revocation
    domain; what it revokes is the link hash in that signed payload. *)
Theorem revocation_link_is_exact link pk h :
  verify_revocation_link link pk = Ok h <->
  cl_kind link = Revocation /\ control_signed link pk Dom_RevocationPayload /\
  exists r, decode_canonical (cl_payload link) = Ok r /\ h = rp_revokes_link r.
Proof.
  unfold verify_revocation_link. rewrite negb_if. split.
  - intros Hv. destruct (bool_decide_reflect (cl_kind link = Revocation)); [|done].
    destruct (cl_signature link) as [sig|] eqn:Es; [|done]. cbn [ok_or] in Hv.
    destruct (vk_from_sec1_bytes pk) as [vk|] eqn:Ev; [|done]. cbn [map_err] in Hv.
    destruct (verify_control_signature _ _ _ _) as [[]|] eqn:Ec; [|done]. cbn [map_err] in Hv.
    destruct (decode_canonical (cl_payload link)) as [r|] eqn:Er; [|done].
    cbn [map_err] in Hv. result_inv. split; [done|]. split; [by exists sig, pk, vk|]. eauto.
  - intros (Hk & (sig & pk' & vk & Es & ? & Ev & Ec) & r & Hr & ->). simplify_eq.
    rewrite bool_decide_eq_true_2 by done. rewrite Es. cbn [ok_or]. rewrite Ev.
    cbn [map_err]. rewrite Ec. cbn [map_err]. by rewrite Hr.
Qed.

(** The client accepts a server exactly when its document validates for
    this session and its image measurements are in the measured trust list;
    an empty list accepts nobody. *)
Theorem server_policy_is_exact doc hh expected debug now pcrs :
  (verify_server_attestation skip_chain_compiled doc hh expected debug now = Ok pcrs <->
   exists v, attest_session_at skip_chain_compiled doc hh debug now = Ok v /\
     va_pcrs v = pcrs /\ pcrs ∈ expected) /\
  is_ok (verify_server_attestation skip_chain_compiled doc hh [] debug now) = false.
Proof.
  unfold verify_server_attestation, require_pcrs_in. split.
  - destruct (attest_session_at _ _ _ _ _) as [v|]; cbn [map_err]; [|naive_solver].
    destruct (decide (va_pcrs v ∈ expected)); naive_solver.
  - destruct (attest_session_at _ _ _ _ _) as [v|]; cbn [map_err]; [|done].
    destruct (decide (va_pcrs v ∈ [])) as [Hin|]; [|done]. by apply elem_of_nil in Hin.
Qed.
End Authority.
