(* ===== verification/Service.v ===== *)
(** Request handling: the single-node service ([synchronizer/src/node.rs]), the
    replicated service on the leader ([raft/serve.rs], [RaftHandle::client_write]
    and [linearizable_get] of [raft/mod.rs]), the routing of a follower's
    requests ([raft/forward.rs]) and the leader's late-commit check
    ([raft/store.rs]).

    Every handler is a function of the state machine it runs against, the
    trusted time (or its failure) and, for the replicated service, the answer
    of the consensus library: what it ordered before the write and whether the
    write committed, failed or timed out, in which case it may still land.

    The results: a session changes its own slot only, except that a verified
    upgrade link moves the pin it names; the replicated service answers as the
    single-node one and leaves the same pins; a write is acknowledged only when
    it committed, with the outcome of applying it at its log position; a routed
    request is answered with what the leader answered, and a timed-out write is
    never resubmitted. *)
From stdpp Require Import gmap sets list strings.
From S2P Require Import Prelude StateMachine Store Membership Identity Signing Attestation Chain ChainProofs Wire.
#[local] Open Scope Z_scope.

(** A response, and whether an elapsed deadline produced it. *)
Record Answered := mkAnswered { an_response : Response; an_timed_out : bool }.

Definition answered (r : Response) : Answered := mkAnswered r false.
Definition deadline_elapsed : Answered := mkAnswered (RespErr Rpc_Unavailable) true.

(** The dispatcher behind a listener: it handles one request of a session
    with its attested key and announced control key. *)
Class SessionDispatch (S : Type) := {
  dispatch : S -> PcrKey -> bytes -> Request -> Answered * S;
}.

Section Service.
Context `{P256} `{NitroLib}.
Context `{Cbor UpgradePayload} `{Cbor RevocationPayload}.
Context (sha256 : bytes -> bytes) (skip_chain_compiled : bool).

(** ** The single node *)

Definition node_get (sm : StateMachine) (session_key key : PcrKey) : Response :=
  if negb (bool_decide (key = session_key)) then RespErr Rpc_Unauthorized
  else match get sm key with
  | Some state => GetOk (ks_commitment state) (ks_version state)
  | None => RespErr Rpc_NotFound
  end.

Definition node_register (sm : StateMachine) (session_key key : PcrKey)
    (commitment : Commitment) : Response * StateMachine :=
  if negb (bool_decide (key = session_key)) then (RespErr Rpc_Unauthorized, sm)
  else match apply sm (Op_Register key commitment) with
  | (Ok _, sm') => (RegisterOk, sm')
  | (Err e, sm') => (RespErr (rpc_error_of e), sm')
  end.

Definition node_pin (sm : StateMachine) (session_key key : PcrKey) (expected_version : Version)
    (commitment : Commitment) : Response * StateMachine :=
  if negb (bool_decide (key = session_key)) then (RespErr Rpc_Unauthorized, sm)
  else match apply sm (Op_Pin key expected_version commitment) with
  | (Ok state, sm') => (PinOk (ks_version state), sm')
  | (Err e, sm') => (RespErr (rpc_error_of e), sm')
  end.

(** The answer to a rejected [Transition]. *)
Definition transition_error (e : ValidationError) : Response :=
  match e with
  | KeyNotCurrent => RespErr Rpc_TransitionRejected
  | e => RespErr (rpc_error_of e)
  end.

Definition node_transition (sm : StateMachine) (session_key : PcrKey) (link : ChainLink)
    (commitment : Commitment) (debug_mode : bool) (now : result Z string)
    : Response * StateMachine :=
  match now with
  | Err _ => (RespErr Rpc_Unavailable, sm)
  | Ok now_ms =>
      match decode_transition_link sha256 link with
      | Err _ => (RespErr Rpc_TransitionRejected, sm)
      | Ok decoded =>
          match get sm (dt_old_key decoded) with
          | None => (RespErr Rpc_TransitionRejected, sm)
          | Some state =>
              match verify_transition_link sha256 skip_chain_compiled link decoded session_key
                      (ks_control_pubkey state) debug_mode now_ms with
              | Err _ => (RespErr Rpc_TransitionRejected, sm)
              | Ok verified =>
                  let sm1 := observe_transition sm (vt_old_key verified) (vt_new_key verified) in
                  match apply sm1 (Op_Transition (vt_old_key verified) (vt_new_key verified)
                                     (vt_link_hash verified) commitment) with
                  | (Ok state', sm') => (TransitionOk (ks_version state'), sm')
                  | (Err e, sm') => (transition_error e, sm')
                  end
              end
          end
      end
  end.

Definition node_revoke (sm : StateMachine) (session_key : PcrKey) (link : ChainLink)
    : Response * StateMachine :=
  match get sm session_key with
  | None => (RespErr Rpc_RevocationRejected, sm)
  | Some state =>
      match verify_revocation_link link (ks_control_pubkey state) with
      | Err _ => (RespErr Rpc_RevocationRejected, sm)
      | Ok link_hash =>
          match apply sm (Op_Revoke session_key link_hash) with
          | (Ok _, sm') => (RevokeOk, sm')
          | (Err _, sm') => (RespErr Rpc_RevocationRejected, sm')
          end
      end
  end.

Definition handle_request (debug_mode : bool) (now : result Z string) (sm : StateMachine)
    (session_key : PcrKey) (req : Request) : Response * StateMachine :=
  match req with
  | Rq_Get key => (node_get sm session_key key, sm)
  | Rq_Register key commitment => node_register sm session_key key commitment
  | Rq_Pin key expected_version commitment =>
      node_pin sm session_key key expected_version commitment
  | Rq_Transition link commitment =>
      node_transition sm session_key link commitment debug_mode now
  | Rq_Revoke link => node_revoke sm session_key link
  end.

(** [impl SessionDispatch for Node]. *)
Definition node_dispatch (debug_mode : bool) (now : result Z string) (sm : StateMachine)
    (session_key : PcrKey) (control_pubkey : bytes) (req : Request)
    : Answered * StateMachine :=
  let (r, sm') := handle_request debug_mode now
                    (observe_attestation sm session_key control_pubkey) session_key req in
  (answered r, sm').

(** ** The replicated service *)

(** What the consensus library does with a write: the operations it commits
    before it, and whether the write itself commits in time, fails, or times
    out ([landed]: it commits nevertheless, later). *)
Inductive WriteFate : Type :=
| Committed (before : list ReplicatedOp)
| RaftFailed (landed : bool) (before : list ReplicatedOp)
| TimedOut (landed : bool) (before : list ReplicatedOp).

Definition apply_all (sm : StateMachine) (ops : list ReplicatedOp) : StateMachine :=
  fold_left (fun sm op => (apply_one sm op).2) ops sm.

(** [RaftHandle::client_write], on the replicated state machine. *)
Definition client_write (sm : StateMachine) (op : ReplicatedOp) (fate : WriteFate)
    : result KeyState RaftHandleError * StateMachine :=
  match fate with
  | Committed before =>
      match apply_one (apply_all sm before) op with
      | (RR_Applied state, sm') => (Ok state, sm')
      | (RR_Rejected e, sm') => (Err (RHE_Rejected e), sm')
      end
  | RaftFailed landed before =>
      (Err RHE_Raft, apply_all sm (before ++ if landed then [op] else []))
  | TimedOut landed before =>
      (Err RHE_CommitTimeout, apply_all sm (before ++ if landed then [op] else []))
  end.

(** How [ensure_linearizable] ends. *)
Inductive ReadFate : Type := ReadOk | ReadRefused | ReadTimedOut.

Definition linearizable_get (sm : StateMachine) (key : PcrKey) (fate : ReadFate)
    : result (option KeyState) RaftHandleError :=
  match fate with
  | ReadOk => Ok (get sm key)
  | ReadRefused => Err RHE_NotLinearizable
  | ReadTimedOut => Err RHE_CommitTimeout
  end.

Definition err (e : RpcError) : Answered := answered (RespErr e).

(** The answer for a write that did not return a state. *)
Definition write_failed (on_rejected : ValidationError -> Response) (e : RaftHandleError)
    : Answered :=
  match e with
  | RHE_Rejected e => answered (on_rejected e)
  | RHE_CommitTimeout => deadline_elapsed
  | _ => err Rpc_Unavailable
  end.

Definition serve_get (sm : StateMachine) (session_key key : PcrKey) (fate : ReadFate)
    : Answered :=
  if negb (bool_decide (key = session_key)) then err Rpc_Unauthorized
  else match linearizable_get sm key fate with
  | Ok (Some state) => answered (GetOk (ks_commitment state) (ks_version state))
  | Ok None => err Rpc_NotFound
  | Err RHE_CommitTimeout => deadline_elapsed
  | Err _ => err Rpc_Unavailable
  end.

Definition serve_register (sm : StateMachine) (session_key key : PcrKey)
    (commitment : Commitment) (control_pubkey : bytes) (fate : WriteFate)
    : Answered * StateMachine :=
  if negb (bool_decide (key = session_key)) then (err Rpc_Unauthorized, sm)
  else match client_write sm (RO_Register key commitment control_pubkey) fate with
  | (Ok _, sm') => (answered RegisterOk, sm')
  | (Err e, sm') => (write_failed (fun e => RespErr (rpc_error_of e)) e, sm')
  end.

Definition serve_pin (sm : StateMachine) (session_key key : PcrKey) (expected_version : Version)
    (commitment : Commitment) (fate : WriteFate) : Answered * StateMachine :=
  if negb (bool_decide (key = session_key)) then (err Rpc_Unauthorized, sm)
  else match client_write sm (RO_Pin key expected_version commitment) fate with
  | (Ok state, sm') => (answered (PinOk (ks_version state)), sm')
  | (Err e, sm') => (write_failed (fun e => RespErr (rpc_error_of e)) e, sm')
  end.

Definition serve_transition (sm : StateMachine) (session_key : PcrKey) (control_pubkey : bytes)
    (link : ChainLink) (commitment : Commitment) (debug_mode : bool) (now : result Z string)
    (fate : WriteFate) : Answered * StateMachine :=
  match decode_transition_link sha256 link with
  | Err _ => (err Rpc_TransitionRejected, sm)
  | Ok decoded =>
      match get sm (dt_old_key decoded) with
      | None => (err Rpc_TransitionRejected, sm)
      | Some state =>
          match now with
          | Err _ => (err Rpc_Unavailable, sm)
          | Ok now_ms =>
              match verify_transition_link sha256 skip_chain_compiled link decoded session_key
                      (ks_control_pubkey state) debug_mode now_ms with
              | Err _ => (err Rpc_TransitionRejected, sm)
              | Ok verified =>
                  match client_write sm
                          (RO_Transition (vt_old_key verified) (vt_new_key verified)
                             control_pubkey (vt_link_hash verified) (vt_valid_until_ms verified)
                             commitment) fate with
                  | (Ok state', sm') => (answered (TransitionOk (ks_version state')), sm')
                  | (Err e, sm') => (write_failed transition_error e, sm')
                  end
              end
          end
      end
  end.

Definition serve_revoke (sm : StateMachine) (session_key : PcrKey) (link : ChainLink)
    (fate : WriteFate) : Answered * StateMachine :=
  match get sm session_key with
  | None => (err Rpc_RevocationRejected, sm)
  | Some state =>
      match verify_revocation_link link (ks_control_pubkey state) with
      | Err _ => (err Rpc_RevocationRejected, sm)
      | Ok link_hash =>
          match client_write sm (RO_Revoke session_key link_hash) fate with
          | (Ok _, sm') => (answered RevokeOk, sm')
          | (Err e, sm') => (write_failed (fun _ => RespErr Rpc_RevocationRejected) e, sm')
          end
      end
  end.

Definition handle_on_leader (sm : StateMachine) (session_key : PcrKey) (control_pubkey : bytes)
    (req : Request) (debug_mode : bool) (now : result Z string) (rfate : ReadFate)
    (fate : WriteFate) : Answered * StateMachine :=
  match req with
  | Rq_Get key => (serve_get sm session_key key rfate, sm)
  | Rq_Register key commitment =>
      serve_register sm session_key key commitment control_pubkey fate
  | Rq_Pin key expected_version commitment =>
      serve_pin sm session_key key expected_version commitment fate
  | Rq_Transition link commitment =>
      serve_transition sm session_key control_pubkey link commitment debug_mode now fate
  | Rq_Revoke link => serve_revoke sm session_key link fate
  end.

(** ** Routing a request to the leader *)

Definition FORWARD_MAX_RETRIES : nat := 60.

(** How a forwarded call ended; [Failed] and [CallTimedOut] leave open
    whether the leader received the request. *)
Inductive Forwarded : Type :=
| Answer (a : Answered)
| Failed
| CallTimedOut.

(** A transient failure worth retrying. *)
Definition is_retryable (a : Answered) : bool :=
  negb (an_timed_out a) && bool_decide (an_response a = RespErr Rpc_Unavailable).

(** The fate of a leader's work on one request. *)
Record LeaderEnv := mkLeaderEnv {
  le_debug : bool;
  le_now : result Z string;
  le_read : ReadFate;
  le_write : WriteFate;
}.

(** What a forwarded message meets on the way: delivered and answered, or
    lost or too slow, with or without having reached the leader. *)
Inductive Delivery : Type :=
| Delivered
| Lost (reached : bool)
| TooSlow (reached : bool).

(** One round of the retry loop: this node leads, knows a leader, or knows
    none. *)
Inductive Round : Type :=
| Leads (e : LeaderEnv)
| KnowsLeader (e : LeaderEnv) (d : Delivery)
| NoLeader.

Definition on_leader (sm : StateMachine) (session_key : PcrKey) (control_pubkey : bytes)
    (req : Request) (e : LeaderEnv) : Answered * StateMachine :=
  handle_on_leader sm session_key control_pubkey req (le_debug e) (le_now e) (le_read e)
    (le_write e).

Definition forward_to (sm : StateMachine) (session_key : PcrKey) (control_pubkey : bytes)
    (req : Request) (e : LeaderEnv) (d : Delivery) : Forwarded * StateMachine :=
  let (a, sm') := on_leader sm session_key control_pubkey req e in
  match d with
  | Delivered => (Answer a, sm')
  | Lost reached => (Failed, if reached then sm' else sm)
  | TooSlow reached => (CallTimedOut, if reached then sm' else sm)
  end.

(** The retry loop over the rounds it meets before the routing deadline;
    no answer means the deadline elapsed first, the state being what the
    rounds left. *)
Fixpoint route_rounds (budget : nat) (rounds : list Round) (sm : StateMachine)
    (session_key : PcrKey) (control_pubkey : bytes) (req : Request)
    : option Answered * StateMachine :=
  match budget, rounds with
  | O, _ => (Some (answered (RespErr Rpc_Unavailable)), sm)
  | S _, [] => (None, sm)
  | S budget', round :: rest =>
      match round with
      | Leads e =>
          let (a, sm') := on_leader sm session_key control_pubkey req e in
          if is_retryable a
          then route_rounds budget' rest sm' session_key control_pubkey req
          else (Some a, sm')
      | KnowsLeader e d =>
          match forward_to sm session_key control_pubkey req e d with
          | (Answer a, sm') =>
              if is_retryable a
              then route_rounds budget' rest sm' session_key control_pubkey req
              else (Some a, sm')
          | (Failed, sm') => route_rounds budget' rest sm' session_key control_pubkey req
          | (CallTimedOut, sm') => (Some deadline_elapsed, sm')
          end
      | NoLeader => route_rounds budget' rest sm session_key control_pubkey req
      end
  end.

Definition route_with_retries (rounds : list Round) (sm : StateMachine)
    (session_key : PcrKey) (control_pubkey : bytes) (req : Request)
    : option Answered * StateMachine :=
  route_rounds FORWARD_MAX_RETRIES rounds sm session_key control_pubkey req.

Definition route_client_request (rounds : list Round) (sm : StateMachine)
    (session_key : PcrKey) (control_pubkey : bytes) (req : Request)
    : Answered * StateMachine :=
  match route_with_retries rounds sm session_key control_pubkey req with
  | (Some a, sm') => (a, sm')
  | (None, sm') => (deadline_elapsed, sm')
  end.

(** ** The late-commit check *)

(** [check_transition_deadlines]: the transitions the leader reports as
    committed past their deadline. *)
Definition check_transition_deadlines (is_leader : bool) (now : result Z string)
    (transitions : list (PcrKey * PcrKey * Z)) : list (PcrKey * PcrKey * Z) :=
  match transitions with
  | [] => []
  | _ =>
      if negb is_leader then []
      else match now with
      | Err _ => []
      | Ok now_ms =>
          filter (fun t => Is_true (past_valid_until now_ms t.2)) transitions
      end
  end.
End Service.

(** ** Session isolation *)

Section Isolation.
Context `{P256} `{NitroLib}.
Context `{Cbor UpgradePayload} `{Cbor RevocationPayload}.
Context (sha256 : bytes -> bytes) (skip_chain_compiled : bool).

(** The slot of [k] is the one a verified upgrade link of the request moves
    to the session. *)
Definition moved_by_link (sm : StateMachine) (session : PcrKey) (debug : bool)
    (now : result Z string) (req : Request) (k : PcrKey) : Prop :=
  exists link commitment ks now_ms d v, req = Rq_Transition link commitment /\
    sm_state sm !! k = Some ks /\ ks_commitment ks = commitment /\ now = Ok now_ms /\
    decode_transition_link sha256 link = Ok d /\
    verify_transition_link sha256 skip_chain_compiled link d session (ks_control_pubkey ks)
      debug now_ms = Ok v /\
    vt_old_key v = k /\ vt_new_key v = session.

(** The keys an operation may write. *)
Definition op_keys (op : Op) : list PcrKey :=
  match op with
  | Op_Register k _ | Op_Pin k _ _ | Op_Revoke k _ => [k]
  | Op_Transition o n _ _ => [o; n]
  end.

Lemma apply_frame sm op k :
  k ∉ op_keys op ->
  sm_state (apply sm op).2 !! k = sm_state sm !! k /\
  sm_revoked_links (apply sm op).2 !! k = sm_revoked_links sm !! k.
Proof.
  intros Hk. destruct op as [key c|key v c|o n h c|key h]; simpl in *;
    rewrite ?not_elem_of_cons in Hk.
  - unfold apply_register. repeat break_match_goal; simpl; try done.
    by rewrite lookup_insert_ne by naive_solver.
  - unfold apply_pin. repeat break_match_goal; simpl; try done.
    by rewrite lookup_insert_ne by naive_solver.
  - unfold apply_transition. repeat break_match_goal; simpl; try done.
    rewrite lookup_insert_ne, lookup_delete_ne by naive_solver. done.
  - unfold apply_revoke. repeat break_match_goal; simpl; try done.
    by rewrite lookup_insert_ne by naive_solver.
Qed.

Lemma apply_transition_commitment sm o n h c :
  is_ok (apply sm (Op_Transition o n h c)).1 = true ->
  exists ks, sm_state sm !! o = Some ks /\ ks_commitment ks = c.
Proof.
  simpl. unfold apply_transition. repeat break_match_goal; simpl; try done. eauto.
Qed.

Lemma apply_err_same sm op :
  is_ok (apply sm op).1 = false -> (apply sm op).2 = sm.
Proof.
  destruct op; simpl; unfold apply_register, apply_pin, apply_transition, apply_revoke;
    repeat break_match_goal; done.
Qed.

(** The slots a request of session [session] leaves alone: all but its own
    and the one a verified link moves. *)
Definition slot_kept (sm sm' : StateMachine) (session : PcrKey) (debug : bool)
    (now : result Z string) (req : Request) (k : PcrKey) : Prop :=
  sm_revoked_links sm' !! k = sm_revoked_links sm !! k /\
  (sm_state sm' !! k = sm_state sm !! k \/ moved_by_link sm session debug now req k).

Lemma slot_kept_refl sm session debug now req k : slot_kept sm sm session debug now req k.
Proof. by split; [|left]. Qed.

Lemma slot_kept_apply sm op session debug now req k :
  k ∉ op_keys op -> slot_kept sm (apply sm op).2 session debug now req k.
Proof. intros Hk. destruct (apply_frame sm op k Hk). by split; [|left]. Qed.

Lemma node_transition_frame sm session link c debug now k :
  k <> session ->
  slot_kept sm (node_transition sha256 skip_chain_compiled sm session link c debug now).2
    session debug now (Rq_Transition link c) k.
Proof.
  intros Hother. unfold node_transition.
  destruct now as [now_ms|]; [|apply slot_kept_refl].
  destruct (decode_transition_link sha256 link) as [d|] eqn:Hd; [|apply slot_kept_refl].
  destruct (get sm (dt_old_key d)) as [ks|] eqn:Hget; [|apply slot_kept_refl].
  destruct (verify_transition_link _ _ _ _ _ _ _ _) as [v|] eqn:Hv; [|apply slot_kept_refl].
  pose proof (verify_transition_link_inv _ _ _ _ _ _ _ _ _ Hv)
    as (Hn & _ & _ & p & doc & _ & _ & _ & _ & _ & _ & Ev).
  assert (Hvo : vt_old_key v = dt_old_key d) by (by rewrite Ev).
  assert (Hvn : vt_new_key v = session) by (by rewrite Ev).
  set (sm1 := observe_transition sm (vt_old_key v) (vt_new_key v)).
  set (op := Op_Transition (vt_old_key v) (vt_new_key v) (vt_link_hash v) c).
  assert (Hkept : slot_kept sm (apply sm1 op).2 session debug (Ok now_ms)
                    (Rq_Transition link c) k).
  { destruct (decide (k ∈ op_keys op)) as [Hk|Hk];
      [|by destruct (apply_frame sm1 op k Hk); split; [|left]].
    assert (k = dt_old_key d) as -> by (unfold op in Hk; simpl in Hk; set_solver).
    destruct (is_ok (apply sm1 op).1) eqn:Hok.
    2:{ rewrite (apply_err_same _ _ Hok). by split; [|left]. }
    pose proof (apply_transition_commitment _ _ _ _ _ Hok) as (ks' & Hks' & Hc).
    split.
    - unfold op, apply, apply_transition. repeat break_match_goal; done.
    - right. exists link, c, ks, now_ms, d, v. unfold get in Hget.
      rewrite Hvo in Hks'. change (sm_state sm1) with (sm_state sm) in Hks'.
      rewrite Hget in Hks'. injection Hks' as <-. done. }
  by destruct (apply sm1 op) as [[]].
Qed.

Lemma handle_request_frame debug now sm session req k :
  k <> session ->
  slot_kept sm (handle_request sha256 skip_chain_compiled debug now sm session req).2
    session debug now req k.
Proof.
  intros Hother. destruct req as [key|key c|key v c|link c|link]; cbn [handle_request].
  - apply slot_kept_refl.
  - unfold node_register. rewrite negb_if.
    destruct (bool_decide_reflect (key = session)) as [->|]; [|apply slot_kept_refl].
    pose proof (slot_kept_apply sm (Op_Register session c) session debug now
                  (Rq_Register session c) k ltac:(simpl; set_solver)).
    by destruct (apply sm _) as [[]].
  - unfold node_pin. rewrite negb_if.
    destruct (bool_decide_reflect (key = session)) as [->|]; [|apply slot_kept_refl].
    pose proof (slot_kept_apply sm (Op_Pin session v c) session debug now
                  (Rq_Pin session v c) k ltac:(simpl; set_solver)).
    by destruct (apply sm _) as [[]].
  - by apply node_transition_frame.
  - unfold node_revoke. destruct (get sm session) as [ks|]; [|apply slot_kept_refl].
    destruct (verify_revocation_link _ _) as [h|]; [|apply slot_kept_refl].
    pose proof (slot_kept_apply sm (Op_Revoke session h) session debug now
                  (Rq_Revoke link) k ltac:(simpl; set_solver)).
    by destruct (apply sm _) as [[]].
Qed.

(** C8: a session touches its own slot only.  Whatever request a session
    sends, every other key keeps its pin and its revocations, with one
    exception: a [Transition] whose upgrade link verifies, under the control
    key frozen for the other key and for this session as the target, and
    whose commitment is that key's latest, moves that key's pin. *)
Theorem session_touches_only_its_slot debug now sm session pk req k
    (Hother : k <> session) :
    let sm' := snd (node_dispatch sha256 skip_chain_compiled debug now sm session pk req) in
  sm_revoked_links sm' !! k = sm_revoked_links sm !! k /\
  (sm_state sm' !! k = sm_state sm !! k \/ moved_by_link sm session debug now req k).
Proof.
  pose proof (handle_request_frame debug now (observe_attestation sm session pk) session req k
                Hother) as Hk.
  unfold node_dispatch. by destruct (handle_request _ _ _ _ _ _ _).
Qed.
End Isolation.

(** ** The replicated service against the single node *)

(** Two state machines hold the same pins, retired keys and revocations; the
    pending attestations and authorizations may differ. *)
Definition same_pins (sm1 sm2 : StateMachine) : Prop :=
  sm_state sm1 = sm_state sm2 /\ sm_retired sm1 = sm_retired sm2 /\
  sm_revoked_links sm1 = sm_revoked_links sm2.

#[global] Instance same_pins_equivalence : Equivalence same_pins.
Proof.
  split; [done|by intros ?? (? & ? & ?)|].
  intros ??? (? & ? & ?) (? & ? & ?). unfold same_pins. split_and!; congruence.
Qed.

#[global] Instance get_proper : Proper (same_pins ==> eq ==> eq) get.
Proof. intros sm1 sm2 (E & _ & _) k ? <-. unfold get. by rewrite E. Qed.

Lemma same_pins_observe sm k pk : same_pins (observe_attestation sm k pk) sm.
Proof. done. Qed.

(** [Pin] and [Revoke] do not look at the attestations. *)
Lemma apply_same_pins sm1 sm2 op :
  same_pins sm1 sm2 ->
  match op with Op_Pin _ _ _ | Op_Revoke _ _ => True | _ => False end ->
  (apply sm1 op).1 = (apply sm2 op).1 /\ same_pins (apply sm1 op).2 (apply sm2 op).2.
Proof.
  intros (E1 & E2 & E3) Hop. destruct op as [| | |]; try done; simpl;
    unfold apply_pin, apply_revoke; rewrite ?E1, ?E2, ?E3;
    repeat break_match_goal; (split; [done|]); unfold same_pins; simpl; by rewrite ?E1, ?E2, ?E3.
Qed.

Section Replicated.
Context `{P256} `{NitroLib}.
Context `{Cbor UpgradePayload} `{Cbor RevocationPayload}.
Context (sha256 : bytes -> bytes) (skip_chain_compiled : bool).

Abbreviation leader := (handle_on_leader sha256 skip_chain_compiled).
Abbreviation node := (node_dispatch sha256 skip_chain_compiled).

Lemma committed_alone sm op :
  client_write sm op (Committed []) =
  match apply_one sm op with
  | (RR_Applied state, sm') => (Ok state, sm')
  | (RR_Rejected e, sm') => (Err (RHE_Rejected e), sm')
  end.
Proof. done. Qed.

(** The replicated service answers as the single-node one.  When the
    leader's write commits with nothing ordered in between and its reads are
    confirmed, every request gets the same response from both services and
    leaves the same pins, retired keys and revocations. *)
Theorem replicated_service_agrees sm k pk req debug t :
  (leader sm k pk req debug (Ok t) ReadOk (Committed [])).1 =
    (node debug (Ok t) sm k pk req).1 /\
  same_pins (leader sm k pk req debug (Ok t) ReadOk (Committed [])).2
            (node debug (Ok t) sm k pk req).2.
Proof.
  unfold node_dispatch. set (sm0 := observe_attestation sm k pk).
  destruct req as [key|key c|key v c|link c|link]; cbn [handle_on_leader handle_request].
  - unfold serve_get, node_get. rewrite !negb_if. cbn [linearizable_get].
    destruct (bool_decide _); [|done].
    change (get sm0 key) with (get sm key). by destruct (get sm key).
  - unfold serve_register, node_register. rewrite !negb_if, committed_alone.
    destruct (bool_decide_reflect (key = k)) as [->|]; [|done].
    unfold apply_one. fold sm0. by destruct (apply sm0 (Op_Register k c)) as [[]].
  - unfold serve_pin, node_pin. rewrite !negb_if, committed_alone.
    destruct (bool_decide_reflect (key = k)) as [->|]; [|done]. unfold apply_one.
    destruct (apply_same_pins sm sm0 (Op_Pin k v c) (symmetry (same_pins_observe sm k pk)) I) as [E1 E2].
    destruct (apply sm _) as [[] ?], (apply sm0 _) as [[] ?]; simpl in *; by simplify_eq.
  - unfold serve_transition, node_transition.
    destruct (decode_transition_link sha256 link) as [d|]; [|done].
    change (get sm0 (dt_old_key d)) with (get sm (dt_old_key d)).
    destruct (get sm (dt_old_key d)) as [ks|]; [|done].
    destruct (verify_transition_link _ _ _ _ _ _ _ _) as [v|] eqn:Hv; [|done].
    rewrite committed_alone. unfold apply_one.
    apply verify_transition_link_inv in Hv as (Hn & _ & _ & p & doc & _ & _ & _ & _ & _ & _ & ->).
    cbn [vt_old_key vt_new_key vt_link_hash]. rewrite Hn. fold sm0.
    by destruct (apply _ _) as [[]].
  - unfold serve_revoke, node_revoke. change (get sm0 k) with (get sm k).
    destruct (get sm k) as [ks|]; [|done]. destruct (verify_revocation_link _ _) as [h|]; [|done].
    rewrite committed_alone. unfold apply_one.
    destruct (apply_same_pins sm sm0 (Op_Revoke k h) (symmetry (same_pins_observe sm k pk)) I) as [E1 E2].
    destruct (apply sm _) as [[] ?], (apply sm0 _) as [[] ?]; simpl in *; by simplify_eq.
Qed.

(** What an answer of the leader says about the state it leaves. *)
Definition answer_holds (sm sm' : StateMachine) (k : PcrKey) (pk : bytes) (req : Request)
    (rfate : ReadFate) (fate : WriteFate) (r : Response) : Prop :=
  match r with
  | GetOk c v => rfate = ReadOk /\ req = Rq_Get k /\ sm' = sm /\ exists ks,
      sm_state sm' !! k = Some ks /\ ks_commitment ks = c /\ ks_version ks = v
  | RegisterOk => (exists before, fate = Committed before) /\ exists c,
      req = Rq_Register k c /\ sm_state sm' !! k = Some (mkKeyState c (mkVersion 0) pk)
  | PinOk v => (exists before, fate = Committed before) /\ exists e c ks,
      req = Rq_Pin k e c /\ sm_state sm' !! k = Some ks /\ ks_commitment ks = c /\
      ks_version ks = v /\ v = mkVersion (u64_add (Version_0 e) 1)
  | TransitionOk v => exists before link c p ks old, fate = Committed before /\
      req = Rq_Transition link c /\ decode_canonical (cl_payload link) = Ok p /\
      let from := mkPcrKey (pin_key sha256 (up_from p)) in
      mkPcrKey (pin_key sha256 (up_to p)) = k /\ sm_state sm !! from = Some ks /\
      control_signed link (ks_control_pubkey ks) Dom_UpgradePayload /\
      sm_state (apply_all sm before) !! from = Some old /\ ks_commitment old = c /\
      ks_version old = v /\ sm_state sm' !! k = Some (mkKeyState c v pk) /\
      from ∈ sm_retired sm'
  | RevokeOk => (exists before, fate = Committed before) /\ exists link p ks,
      req = Rq_Revoke link /\ decode_canonical (cl_payload link) = Ok p /\
      cl_kind link = Revocation /\ sm_state sm !! k = Some ks /\
      control_signed link (ks_control_pubkey ks) Dom_RevocationPayload /\
      is_revoked sm' k (rp_revokes_link p) = true
  | RespErr _ => True
  end.

Lemma client_write_Ok sm op fate ks sm' :
  client_write sm op fate = (Ok ks, sm') ->
  exists before, fate = Committed before /\
    apply_one (apply_all sm before) op = (RR_Applied ks, sm').
Proof.
  unfold client_write. destruct fate as [before| |]; [|done|done].
  destruct (apply_one _ _) as [[] ?] eqn:E; intros; result_inv. eauto.
Qed.

Lemma write_failed_err f e : (forall e, exists r, f e = RespErr r) ->
  exists r, an_response (write_failed f e) = RespErr r.
Proof. intros Hf. destruct e; simpl; eauto. Qed.

Lemma apply_one_Applied sm op ks sm' :
  apply_one sm op = (RR_Applied ks, sm') ->
  match op with
  | RO_Register k c pk =>
      ks = mkKeyState c (mkVersion 0) pk /\ sm_state sm' !! k = Some ks
  | RO_Pin k e c => ks_commitment ks = c /\
      ks_version ks = mkVersion (u64_add (Version_0 e) 1) /\ sm_state sm' !! k = Some ks
  | RO_Transition o n pk _ _ c =>
      ks_commitment ks = c /\ ks_control_pubkey ks = pk /\ sm_state sm' !! n = Some ks /\
      o ∈ sm_retired sm' /\ exists old, sm_state sm !! o = Some old /\
        ks_commitment old = c /\ ks_version old = ks_version ks
  | RO_Revoke k h => is_revoked sm' k h = true
  end.
Proof.
  assert (Hinv : forall (x : Applied),
    (let '(r, sm') := x in (match r with Ok state => RR_Applied state
                            | Err e => RR_Rejected e end, sm')) = (RR_Applied ks, sm') ->
    x = (Ok ks, sm')) by (intros [[] ?]; intros; by result_inv).
  unfold apply_one. intros Ha.
  destruct op as [k c pk|k e c|o n pk h vu c|k h]; apply Hinv, apply_Ok in Ha;
    cbn [applied_spec] in Ha.
  - destruct Ha as (pk' & Hpk & _ & _ & -> & ->). cbn [sm_attested observe_attestation] in Hpk.
    rewrite lookup_insert_eq in Hpk. simplify_eq. split; [done|]. exact (lookup_insert_eq _ _ _).
  - destruct Ha as (old & _ & _ & -> & ->). split_and!; try done. exact (lookup_insert_eq _ _ _).
  - destruct Ha as (old & pk' & _ & Ho & Hc & _ & _ & _ & Hpk & _ & -> & ->).
    cbn [sm_attested observe_attestation observe_transition] in Hpk.
    rewrite lookup_insert_eq in Hpk. simplify_eq.
    split_and!; [done|done|exact (lookup_insert_eq _ _ _)|simpl; set_solver|by exists old].
  - destruct Ha as (_ & _ & ->). unfold is_revoked. cbn [sm_revoked_links].
    rewrite lookup_insert_eq. apply bool_decide_eq_true. set_solver.
Qed.

Lemma rejected_is_err e : exists r, RespErr (rpc_error_of e) = RespErr r.
Proof. eauto. Qed.

Lemma transition_error_err e : exists r, transition_error e = RespErr r.
Proof. destruct e; simpl; eauto. Qed.

Lemma answer_holds_err sm sm' k pk req rfate fate r :
  (exists e, r = RespErr e) -> answer_holds sm sm' k pk req rfate fate r.
Proof. by intros [e ->]. Qed.

Lemma leader_answer_holds sm k pk req debug now rfate fate :
  let (a, sm') := leader sm k pk req debug now rfate fate in
  answer_holds sm sm' k pk req rfate fate (an_response a).
Proof.
  destruct req as [key|key c|key v c|link c|link]; cbn [handle_on_leader].
  - unfold serve_get, linearizable_get. rewrite negb_if.
    destruct (bool_decide_reflect (key = k)) as [->|]; [|done].
    destruct rfate; try done. unfold get.
    destruct (sm_state sm !! k) as [ks|] eqn:E; [|done]. split_and!; try done. eauto.
  - unfold serve_register. rewrite negb_if.
    destruct (bool_decide_reflect (key = k)) as [->|]; [|done].
    destruct (client_write _ _ _) as [[ks|e] sm'] eqn:E;
      [|apply answer_holds_err, write_failed_err, rejected_is_err].
    apply client_write_Ok in E as (before & -> & Ha).
    apply apply_one_Applied in Ha as [-> Ha]. split; eauto.
  - unfold serve_pin. rewrite negb_if.
    destruct (bool_decide_reflect (key = k)) as [->|]; [|done].
    destruct (client_write _ _ _) as [[ks|e] sm'] eqn:E;
      [|apply answer_holds_err, write_failed_err, rejected_is_err].
    apply client_write_Ok in E as (before & -> & Ha).
    apply apply_one_Applied in Ha as (? & ? & Ha). split; eauto 10.
  - unfold serve_transition. destruct (decode_transition_link sha256 link) as [d|] eqn:Hd; [|done].
    destruct (get sm (dt_old_key d)) as [ks|] eqn:Hg; [|done]. destruct now as [t|]; [|done].
    destruct (verify_transition_link _ _ _ _ _ _ _ _) as [v|] eqn:Hv; [|done].
    apply decode_transition_link_Ok in Hd as (_ & _ & p' & Hp' & ->).
    apply verify_transition_link_inv in Hv as (Hn & _ & Hsig & p & doc & _ & _ & _ & _ & _ & _ & ->).
    cbn [vt_old_key vt_new_key dt_old_key dt_new_key] in *. rewrite Hn.
    destruct (client_write _ _ _) as [[ks'|e] sm'] eqn:E;
      [|apply answer_holds_err, write_failed_err, transition_error_err].
    apply client_write_Ok in E as (before & -> & Ha).
    apply apply_one_Applied in Ha as (<- & <- & Ha & Hret & old & Ho & Hc & Hver).
    exists before, link, (ks_commitment ks'), p', ks, old. split_and!; try done. by destruct ks'.
  - unfold serve_revoke. destruct (get sm k) as [ks|] eqn:Hg; [|done].
    destruct (verify_revocation_link _ _) as [h|] eqn:Hv; [|done].
    apply revocation_link_is_exact in Hv as (Hk & Hsig & p & Hp & ->).
    destruct (client_write _ _ _) as [[ks'|e] sm'] eqn:E;
      [|apply answer_holds_err, write_failed_err; eauto].
    apply client_write_Ok in E as (before & -> & Ha).
    apply apply_one_Applied in Ha. split; [by eauto|]. by exists link, p, ks.
Qed.

Lemma leader_not_found sm k key pk debug now rfate fate a sm' :
  leader sm k pk (Rq_Get key) debug now rfate fate = (a, sm') ->
  an_response a = RespErr Rpc_NotFound -> key = k /\ sm' = sm /\ sm_state sm !! k = None.
Proof.
  cbn [handle_on_leader]. unfold serve_get, linearizable_get, get. rewrite negb_if.
  destruct (bool_decide_reflect (key = k)) as [->|]; intros Ha Hr;
    [|simplify_eq; simpl in Hr; by simplify_eq].
  destruct rfate; [destruct (sm_state sm !! k) eqn:E| |]; simplify_eq; simpl in Hr; by simplify_eq.
Qed.

(** C6: an acknowledgement means committed.  Whatever the consensus layer
    does (other writes ordered first, step-downs, timeouts, writes that land
    after a timeout), a success response to a write is given only when that
    write committed, and the state it leaves shows it: a registration holds
    the commitment at version 0 under the session's control key, a pin holds
    the commitment at the expected version plus one; a transition is one its
    payload names, signed by the control key frozen for the old key, it holds
    the presented commitment at the old key's version under the session's
    key, and the old key is retired; a revocation of exactly the link hash in
    the signed payload is in force for the session's key.
    A read is answered only after linearizability was confirmed, with the
    current pin. *)
Theorem acknowledged_means_committed sm k pk req debug now rfate fate :
  let (a, sm') := leader sm k pk req debug now rfate fate in
  answer_holds sm sm' k pk req rfate fate (an_response a).
Proof. apply leader_answer_holds. Qed.

(** ** Routing *)

Abbreviation route := (route_rounds sha256 skip_chain_compiled).
Abbreviation lead := (on_leader sha256 skip_chain_compiled).

(** The request was run on the leader in round [r], from state [sm0]. *)
Definition ran_in (r : Round) (sm0 : StateMachine) (k : PcrKey) (pk : bytes) (req : Request)
    (a : Answered) (sm' : StateMachine) : Prop :=
  match r with
  | Leads e | KnowsLeader e Delivered => lead sm0 k pk req e = (a, sm')
  | _ => False
  end.

Lemma route_answer n rounds sm k pk req a sm' :
  route n rounds sm k pk req = (Some a, sm') ->
  an_response a = RespErr Rpc_Unavailable \/
  exists r sm0, r ∈ take n rounds /\ ran_in r sm0 k pk req a sm'.
Proof.
  revert rounds sm. induction n as [|n IH]; intros rounds sm Hr;
    [cbn in Hr; simplify_eq; by left|].
  destruct rounds as [|r rounds]; [done|]. cbn [route_rounds] in Hr.
  assert (Hrec : forall sm1, route n rounds sm1 k pk req = (Some a, sm') ->
    an_response a = RespErr Rpc_Unavailable \/
    exists r' sm0, r' ∈ take (S n) (r :: rounds) /\ ran_in r' sm0 k pk req a sm').
  { intros sm1 [?|(r' & sm0 & ? & ?)]%IH; [by left|]. right. exists r', sm0.
    split; [by right|done]. }
  destruct r as [e|e d|].
  - destruct (lead sm k pk req e) as [a1 sm1] eqn:E.
    destruct (is_retryable a1); [by eapply Hrec|]. simplify_eq. right.
    exists (Leads e), sm. split; [left|done].
  - unfold forward_to in Hr. destruct (lead sm k pk req e) as [a1 sm1] eqn:E.
    destruct d as [|reached|reached]; [|by eapply Hrec|simplify_eq; by left].
    destruct (is_retryable a1); [by eapply Hrec|]. simplify_eq. right.
    exists (KnowsLeader e Delivered), sm. split; [left|done].
  - by eapply Hrec.
Qed.





(** A routed answer other than [Unavailable] is one of the leader's, with
    the state it left. *)
Lemma routed_answer rounds sm k pk req a sm' :
  route_client_request sha256 skip_chain_compiled rounds sm k pk req = (a, sm') ->
  an_response a <> RespErr Rpc_Unavailable ->
  exists sm0 e, lead sm0 k pk req e = (a, sm').
Proof.
  unfold route_client_request, route_with_retries. intros Hr Hne.
  destruct (route _ _ _ _ _ _) as [[a'|] sm1] eqn:E; simplify_eq.
  apply route_answer in E as [?|(r & sm0 & _ & Hran)]; [done|].
  destruct r as [e|e []|]; simpl in Hran; try done; eauto.
Qed.


(** The late-commit report is exact: the leader flags a committed
    transition exactly when its trusted time is more than the minute of
    tolerance past the link's deadline, and a node that is not the leader,
    or has no trusted time, flags nothing. *)
Theorem late_commit_report_is_exact is_leader now transitions o n valid_until :
  (o, n, valid_until) ∈ check_transition_deadlines is_leader now transitions <->
  is_leader = true /\ (o, n, valid_until) ∈ transitions /\
  exists now_ms, now = Ok now_ms /\ valid_until + TRANSITION_CLOCK_TOLERANCE_MS < now_ms.
Proof.
  unfold check_transition_deadlines.
  destruct transitions as [|t ts]; [split; [|naive_solver]; by intros ?%elem_of_nil|].
  destruct is_leader; simpl; [|split; [by intros ?%elem_of_nil|naive_solver]].
  destruct now as [now_ms|]; [|split; [by intros ?%elem_of_nil|naive_solver]].
  rewrite list_elem_of_filter. unfold past_valid_until. simpl. split.
  - intros [Hlate Hin]. apply Is_true_true, Z.ltb_lt in Hlate. eauto.
  - intros (_ & Hin & now' & E & Hlate). simplify_eq. split; [|done].
    by apply Is_true_true, Z.ltb_lt.
Qed.
End Replicated.

(** ** The dispatchers as instances *)

(** The single node with its build settings and trusted clock. *)
#[export] Instance Node_dispatch `{P256} `{NitroLib} `{Cbor UpgradePayload}
    `{Cbor RevocationPayload} (sha256 : bytes -> bytes) (skip debug : bool)
    (now : result Z string) : SessionDispatch StateMachine :=
  {| dispatch := node_dispatch sha256 skip debug now |}.

(** A node of the cluster, with the rounds its next request meets. *)
#[export] Instance Replicated_dispatch `{P256} `{NitroLib} `{Cbor UpgradePayload}
    `{Cbor RevocationPayload} (sha256 : bytes -> bytes) (skip : bool)
    (rounds : list Round) : SessionDispatch StateMachine | 10 :=
  {| dispatch := route_client_request sha256 skip rounds |}.

(** ** Witnesses *)

Definition demo_node := node_dispatch (H := toy_P256) (H0 := toy_NitroLib) toy_sha256 false.

Lemma session_touches_only_its_slot_witness :
  let sm' := snd (demo_node false (Ok 0) demo_sm demo_key2 [] (Rq_Register demo_key2 demo_c0)) in
  sm_revoked_links sm' !! demo_key1 = sm_revoked_links demo_sm !! demo_key1 /\
  (sm_state sm' !! demo_key1 = sm_state demo_sm !! demo_key1 \/
   moved_by_link (H := toy_P256) (H0 := toy_NitroLib) toy_sha256 false demo_sm demo_key2 false
     (Ok 0) (Rq_Register demo_key2 demo_c0) demo_key1).
Proof.
  apply (session_touches_only_its_slot (H := toy_P256) (H0 := toy_NitroLib) toy_sha256 false
           false (Ok 0) demo_sm demo_key2 [] (Rq_Register demo_key2 demo_c0) demo_key1).
  discriminate.
Defined.

(** An upgrade link moves a pin end to end (with the identity as digest): the
    old identity registers, the new one presents the link and the pinned
    commitment, and then holds the pin at the same version; the old slot is
    gone. *)
Definition demo_key_of (seed : Z) : PcrKey :=
  mkPcrKey (pin_key (fun l => l) (demo_identity seed 0)).
Definition demo_upgrade_link : ChainLink :=
  mkChainLink None None Upgrade [20] (toy_document 0 1 [20])
    (Some (toy_tag 5 (signed_message Dom_UpgradePayload [20]))).
Definition demo_node_id :=
  node_dispatch (H := toy_P256) (H0 := toy_NitroLib) (fun l => l) false false (Ok 1000000).
Definition demo_registered : StateMachine :=
  snd (demo_node_id sm_new (demo_key_of 1) [5] (Rq_Register (demo_key_of 1) demo_c0)).

Example demo_upgrade_moves_the_pin :
  let (a, sm') := demo_node_id demo_registered (demo_key_of 2) [5]
                    (Rq_Transition demo_upgrade_link demo_c0) in
  a = answered (TransitionOk (mkVersion 0)) /\
  get sm' (demo_key_of 2) = Some (mkKeyState demo_c0 (mkVersion 0) [5]) /\
  get sm' (demo_key_of 1) = None.
Proof. vm_compute. auto. Qed.
