(* ===== verification/Nbd.v ===== *)
(** The NBD data path of the storage client ([nbd-client/src/main.rs],
    [nbd.rs] and the geometry of [rollback.rs]): the wire headers, the
    negotiation, the superblock window, the chunked payload copies, the direct
    boot-time reads and the LUKS2 data-offset cross-check.

    A byte stream is what is still to be read from it and what was written to
    it; [read_exact] past the end is the stream's end-of-file error.  Payload
    positions are [Z]s as in the source ([u64] and [usize]). *)
From stdpp Require Import gmap sets list list_numbers strings.
From S2P Require Import Prelude StateMachine Chain.
#[local] Open Scope Z_scope.

(** ** Constants *)

Definition NBD_MAGIC : Z := 0x4e42444d41474943.
Definition IHAVEOPT : Z := 0x49484156454F5054.
Definition NBD_FLAG_NO_ZEROES : Z := 2.
Definition NBD_FLAG_C_FIXED_NEWSTYLE : Z := 1.
Definition NBD_FLAG_C_NO_ZEROES : Z := 2.
Definition NBD_OPT_EXPORT_NAME : Z := 1.

Definition NBD_FLAG_HAS_FLAGS : Z := Z.shiftl 1 0.
Definition NBD_FLAG_READ_ONLY : Z := Z.shiftl 1 1.
Definition NBD_FLAG_SEND_FLUSH : Z := Z.shiftl 1 2.
Definition NBD_FLAG_SEND_FUA : Z := Z.shiftl 1 3.
Definition NBD_FLAG_SEND_TRIM : Z := Z.shiftl 1 5.
Definition NBD_FLAG_SEND_WRITE_ZEROES : Z := Z.shiftl 1 6.
Definition NBD_FLAGS_PASSTHROUGH : Z :=
  Z.lor (Z.lor (Z.lor NBD_FLAG_HAS_FLAGS NBD_FLAG_READ_ONLY) NBD_FLAG_SEND_FLUSH)
    NBD_FLAG_SEND_FUA.

Definition NBD_REQUEST_MAGIC : Z := 0x25609513.
Definition NBD_SIMPLE_REPLY_MAGIC : Z := 0x67446698.

Definition NBD_CMD_READ : Z := 0.
Definition NBD_CMD_WRITE : Z := 1.
Definition NBD_CMD_DISC : Z := 2.
Definition NBD_CMD_FLUSH : Z := 3.
Definition NBD_CMD_TRIM : Z := 4.
Definition NBD_CMD_WRITE_ZEROES : Z := 6.

(** The flags the kernel is given ([run], step 4). *)
Definition kernel_flags (synchronizer_enabled : bool) (host_flags : Z) : Z :=
  if synchronizer_enabled then Z.land host_flags NBD_FLAGS_PASSTHROUGH else host_flags.

(** ** The wiring flag *)

(** [parse_synchronizer_flag]; an unrecognized value is the error. *)
Definition parse_synchronizer_flag (value : option string) : result bool string :=
  match value with
  | None => Ok false
  | Some v =>
      if String.eqb v "1" || eq_ignore_ascii_case v "true" then Ok true
      else if String.eqb v "" || String.eqb v "0" || eq_ignore_ascii_case v "false" then Ok false
      else Err v
  end.

(** ** Geometry *)

Definition SB_PRIMARY_FS_OFFSET : Z := 0x10000.
Definition SB_REGION_LEN : Z := 4096.

Inductive SbOverlap : Type :=
| SbNone
| SbFull (payload_offset : Z)
| SbPartial.

#[global] Instance SbOverlap_eq_dec : EqDecision SbOverlap.
Proof. solve_decision. Defined.

Definition primary_sb_overlap (offset length data_offset : Z) : SbOverlap :=
  let region_start := u64_add data_offset SB_PRIMARY_FS_OFFSET in
  let region_end := u64_add region_start SB_REGION_LEN in
  let write_end := u64_saturating_add offset length in
  if (write_end <=? region_start) || (region_end <=? offset) then SbNone
  else if (offset <=? region_start) && (region_end <=? write_end)
  then SbFull (region_start - offset)
  else SbPartial.

Definition BTRFS_SUPERBLOCKS : list (Z * string) :=
  [(0x10000, "btrfs sb#0 (64 KiB)"%string);
   (0x4000000, "btrfs sb#1 (64 MiB)"%string);
   (0x4000000000, "btrfs sb#2 (256 GiB)"%string)].

Definition classify_superblock_write (offset length data_offset : Z) : option string :=
  if offset <? data_offset then None
  else
    let fs_offset := offset - data_offset in
    let fs_end := u64_saturating_add fs_offset length in
    snd <$> List.find (fun sb : Z * string =>
              (fs_offset <? sb.1 + 0x1000) && (sb.1 <? fs_end)) BTRFS_SUPERBLOCKS.

(** ** Streams and wire headers *)

Inductive NbdError : Type :=
| UnexpectedEof
| BadMagic (m : Z)
| UnexpectedHandle (h : Z)
| ReadFailed (error : Z)
| WindowExceedsPayload
| LuksVersion (v : Z)
| LuksHdrSize (n : Z)
| LuksTruncated
| LuksJson
| LuksNoSegments
| LuksNoCryptSegment
| LuksNoOffset
| LuksOffsetNotANumber (s : string)
| LuksHeaderLost
| LuksOffsetMismatch (actual : Z).

Record Stream := mkStream { st_in : bytes; st_out : bytes }.

Definition read_exact (n : Z) (s : Stream) : result bytes NbdError * Stream :=
  if n <=? Z.of_nat (length (st_in s))
  then (Ok (take (Z.to_nat n) (st_in s)), mkStream (drop (Z.to_nat n) (st_in s)) (st_out s))
  else (Err UnexpectedEof, mkStream [] (st_out s)).

Definition write_all (l : bytes) (s : Stream) : Stream := mkStream (st_in s) (st_out s ++ l).

Record RequestHeader := mkRequestHeader {
  rq_type : Z; rq_handle : Z; rq_offset : Z; rq_length : Z;
}.

(** The 28-byte request header, with the command flags. *)
Definition request_header (flags : Z) (r : RequestHeader) : bytes :=
  be_encode 4 NBD_REQUEST_MAGIC ++ be_encode 2 flags ++ be_encode 2 (rq_type r)
  ++ be_encode 8 (rq_handle r) ++ be_encode 8 (rq_offset r) ++ be_encode 4 (rq_length r).

Definition parse_request (header : bytes) : result RequestHeader NbdError :=
  let magic := be_decode (slice header 0 4) in
  if negb (magic =? NBD_REQUEST_MAGIC) then Err (BadMagic magic)
  else Ok (mkRequestHeader (be_decode (slice header 6 8)) (be_decode (slice header 8 16))
             (be_decode (slice header 16 24)) (be_decode (slice header 24 28))).

Record ReplyHeader := mkReplyHeader { rp_error : Z; rp_handle : Z }.

Definition parse_reply (header : bytes) : result ReplyHeader NbdError :=
  let magic := be_decode (slice header 0 4) in
  if negb (magic =? NBD_SIMPLE_REPLY_MAGIC) then Err (BadMagic magic)
  else Ok (mkReplyHeader (be_decode (slice header 4 8)) (be_decode (slice header 8 16))).

(** ** Negotiation *)

Record ExportInfo := mkExportInfo { ei_size : Z; ei_flags : Z }.

Definition read_uint (n : Z) (s : Stream) : result Z NbdError * Stream :=
  match read_exact n s with
  | (Ok l, s') => (Ok (be_decode l), s')
  | (Err e, s') => (Err e, s')
  end.

Definition negotiate (s : Stream) : result ExportInfo NbdError * Stream :=
  match read_uint 8 s with
  | (Err e, s) => (Err e, s)
  | (Ok magic, s) =>
  if negb (magic =? NBD_MAGIC) then (Err (BadMagic magic), s) else
  match read_uint 8 s with
  | (Err e, s) => (Err e, s)
  | (Ok opt_magic, s) =>
  if negb (opt_magic =? IHAVEOPT) then (Err (BadMagic opt_magic), s) else
  match read_uint 2 s with
  | (Err e, s) => (Err e, s)
  | (Ok server_flags, s) =>
  let no_zeroes := negb (Z.land server_flags NBD_FLAG_NO_ZEROES =? 0) in
  let client_flags :=
    Z.lor NBD_FLAG_C_FIXED_NEWSTYLE (if no_zeroes then NBD_FLAG_C_NO_ZEROES else 0) in
  let s := write_all (be_encode 4 client_flags) s in
  let s := write_all (be_encode 8 IHAVEOPT) s in
  let s := write_all (be_encode 4 NBD_OPT_EXPORT_NAME) s in
  let s := write_all (be_encode 4 0) s in
  match read_uint 8 s with
  | (Err e, s) => (Err e, s)
  | (Ok size, s) =>
  match read_uint 2 s with
  | (Err e, s) => (Err e, s)
  | (Ok flags, s) =>
  if no_zeroes then (Ok (mkExportInfo size flags), s)
  else match read_exact 124 s with
  | (Err e, s) => (Err e, s)
  | (Ok _, s) => (Ok (mkExportInfo size flags), s)
  end end end end end end.

(** ** Payload copies *)

Definition CHUNK : Z := 32 * 1024.

(** One copying task: the two streams, and the callback's argument with the
    number of bytes already written to [dst] when it fired. *)
Record Copy := mkCopy { cp_src : bytes; cp_dst : bytes; cp_fired : option (bytes * nat) }.

Fixpoint forward_loop (fuel : nat) (n : Z) (src dst : bytes)
    : result unit NbdError * (bytes * bytes) :=
  match fuel with
  | O => (Ok tt, (src, dst))
  | S fuel =>
      if n <=? 0 then (Ok tt, (src, dst))
      else
        let step := Z.min n CHUNK in
        if Z.of_nat (length src) <? step then (Err UnexpectedEof, ([], dst))
        else forward_loop fuel (n - step) (drop (Z.to_nat step) src)
               (dst ++ take (Z.to_nat step) src)
  end.

(** [forward_bytes]: each round copies at least one byte, so [n] rounds are
    enough. *)
Definition forward_bytes (src dst : bytes) (n : Z) : result unit NbdError * (bytes * bytes) :=
  forward_loop (Z.to_nat n) n src dst.

(** [out[at..at+len].copy_from_slice(part)]. *)
Definition copy_at (out : bytes) (at_ : Z) (part : bytes) : bytes :=
  take (Z.to_nat at_) out ++ part ++ drop (Z.to_nat at_ + length part) out.

Fixpoint extract_loop (fuel : nat) (remaining pos extract_off extract_len : Z) (out : bytes)
    (c : Copy) : result bytes NbdError * Copy :=
  match fuel with
  | O => (Ok out, c)
  | S fuel =>
      if remaining <=? 0 then (Ok out, c)
      else
        let step := Z.min remaining CHUNK in
        if Z.of_nat (length (cp_src c)) <? step
        then (Err UnexpectedEof, mkCopy [] (cp_dst c) (cp_fired c))
        else
          let buf := take (Z.to_nat step) (cp_src c) in
          let lo := Z.max pos extract_off in
          let hi := Z.min (pos + step) (extract_off + extract_len) in
          let out :=
            if lo <? hi
            then copy_at out (lo - extract_off) (slice buf (Z.to_nat (lo - pos)) (Z.to_nat (hi - pos)))
            else out in
          let pos := pos + step in
          let fired :=
            match cp_fired c with
            | Some f => Some f
            | None => if extract_off + extract_len <=? pos
                      then Some (out, length (cp_dst c)) else None
            end in
          extract_loop fuel (remaining - step) pos extract_off extract_len out
            (mkCopy (drop (Z.to_nat step) (cp_src c)) (cp_dst c ++ buf) fired)
  end.

(** [forward_bytes_extract]. *)
Definition forward_bytes_extract (src dst : bytes) (n extract_off extract_len : Z)
    : result bytes NbdError * Copy :=
  if n <? u64_saturating_add extract_off extract_len
  then (Err WindowExceedsPayload, mkCopy src dst None)
  else extract_loop (Z.to_nat n) n 0 extract_off extract_len
         (replicate (Z.to_nat extract_len) 0) (mkCopy src dst None).

(** ** Boot-time reads *)

Definition BOOT_READ_HANDLE : Z := 0x53594e43424f4f54.
Definition BOOT_HDR_READ_HANDLE : Z := 0x53594e4348445221.

Definition nbd_read_range (s : Stream) (handle offset len : Z) : result bytes NbdError * Stream :=
  let s := write_all (request_header 0 (mkRequestHeader NBD_CMD_READ handle offset len)) s in
  match read_exact 16 s with
  | (Err e, s) => (Err e, s)
  | (Ok reply, s) =>
      match parse_reply reply with
      | Err e => (Err e, s)
      | Ok r =>
          if negb (rp_handle r =? handle) then (Err (UnexpectedHandle (rp_handle r)), s)
          else if negb (rp_error r =? 0) then (Err (ReadFailed (rp_error r)), s)
          else read_exact len s
      end
  end.

Definition nbd_read_region (s : Stream) (device_offset : Z) : result bytes NbdError * Stream :=
  nbd_read_range s BOOT_READ_HANDLE device_offset SB_REGION_LEN.

(** ** The LUKS2 header *)

(** The parts of [serde_json::Value] the parser looks at. *)
Inductive Json : Type :=
| JString (s : string)
| JObject (fields : list (string * Json))
| JOther.

Definition json_get (j : Json) (key : string) : option Json :=
  match j with
  | JObject fields => snd <$> List.find (fun f : string * Json => String.eqb f.1 key) fields
  | _ => None
  end.

Definition as_object (j : Json) : option (list (string * Json)) :=
  match j with JObject fields => Some fields | _ => None end.

Definition as_str (j : Json) : option string :=
  match j with JString s => Some s | _ => None end.

(** [str::parse::<u64>]: an optional [+], then decimal digits. *)
Definition digit_of (b : Z) : option Z :=
  if (48 <=? b) && (b <=? 57) then Some (b - 48) else None.

Fixpoint parse_digits (l : bytes) (acc : Z) : option Z :=
  match l with
  | [] => Some acc
  | b :: l =>
      match digit_of b with
      | Some d => if acc * 10 + d <=? u64_max then parse_digits l (acc * 10 + d) else None
      | None => None
      end
  end.

Definition parse_u64 (s : string) : option Z :=
  match bytes_of_string s with
  | [] => None
  | [43] => None
  | 43 :: l => parse_digits l 0
  | l => parse_digits l 0
  end.

Definition LUKS2_BINARY_HEADER_LEN : Z := 4096.
Definition LUKS2_MAGIC : bytes := [0x4c; 0x55; 0x4b; 0x53; 0xba; 0xbe].
Definition LUKS2_MAX_HDR_SIZE : Z := Z.shiftl 1 20.

Definition hdr_size_ok (n : Z) : bool :=
  (LUKS2_BINARY_HEADER_LEN <=? n) && (n <=? LUKS2_MAX_HDR_SIZE).

(** The bytes before the first NUL. *)
Fixpoint until_nul (l : bytes) : bytes :=
  match l with
  | [] => []
  | b :: l => if b =? 0 then [] else b :: until_nul l
  end.

(** [serde_json::from_slice]. *)
Class JsonLib := { from_slice : bytes -> option Json }.

Section Luks.
Context `{JsonLib}.

Fixpoint crypt_segment_offset (segments : list (string * Json)) : result Z NbdError :=
  match segments with
  | [] => Err LuksNoCryptSegment
  | (_, seg) :: rest =>
      if bool_decide ((json_get seg "type" ≫= as_str) = Some "crypt"%string)
      then match json_get seg "offset" ≫= as_str with
           | None => Err LuksNoOffset
           | Some offset => ok_or (parse_u64 offset) (LuksOffsetNotANumber offset)
           end
      else crypt_segment_offset rest
  end.

Definition parse_luks2_data_offset (header : bytes) : result (option Z) NbdError :=
  if (Z.of_nat (length header) <? LUKS2_BINARY_HEADER_LEN)
     || negb (bool_decide (slice header 0 6 = LUKS2_MAGIC))
  then Ok None
  else
    let version := be_decode (slice header 6 8) in
    if negb (version =? 2) then Err (LuksVersion version)
    else
      let hdr_size := be_decode (slice header 8 16) in
      if negb (hdr_size_ok hdr_size) then Err (LuksHdrSize hdr_size)
      else if Z.of_nat (length header) <? hdr_size then Err LuksTruncated
      else
        let json_area :=
          slice header (Z.to_nat LUKS2_BINARY_HEADER_LEN) (Z.to_nat hdr_size) in
        let? json := ok_or (from_slice (until_nul json_area)) LuksJson in
        let? segments := ok_or (json_get json "segments" ≫= as_object) LuksNoSegments in
        match crypt_segment_offset segments with
        | Ok offset => Ok (Some offset)
        | Err e => Err e
        end.

Definition verify_luks_data_offset (s : Stream) (expected : Z)
    : result unit NbdError * Stream :=
  match nbd_read_range s BOOT_HDR_READ_HANDLE 0 LUKS2_BINARY_HEADER_LEN with
  | (Err e, s) => (Err e, s)
  | (Ok binary, s) =>
      if negb (bool_decide (slice binary 0 6 = LUKS2_MAGIC)) then (Ok tt, s)
      else
        let hdr_size := be_decode (slice binary 8 16) in
        if negb (hdr_size_ok hdr_size) then (Err (LuksHdrSize hdr_size), s)
        else
          let (more, s) :=
            if LUKS2_BINARY_HEADER_LEN <? hdr_size
            then nbd_read_range s BOOT_HDR_READ_HANDLE LUKS2_BINARY_HEADER_LEN
                   (hdr_size - LUKS2_BINARY_HEADER_LEN)
            else (Ok [], s) in
          match more with
          | Err e => (Err e, s)
          | Ok json =>
              match parse_luks2_data_offset (binary ++ json) with
              | Err e => (Err e, s)
              | Ok None => (Err LuksHeaderLost, s)
              | Ok (Some actual) =>
                  if negb (actual =? expected) then (Err (LuksOffsetMismatch actual), s)
                  else (Ok tt, s)
              end
          end
  end.
End Luks.

(** ** The superblock window *)

(** The bytes of the pinned region, and those of a request. *)
Definition in_region (data_offset b : Z) : Prop :=
  data_offset + SB_PRIMARY_FS_OFFSET <= b < data_offset + SB_PRIMARY_FS_OFFSET + SB_REGION_LEN.
Definition in_request (offset length b : Z) : Prop := offset <= b < offset + length.

(** The region lies inside the 64-bit device address space. *)
Definition region_fits (data_offset : Z) : Prop :=
  0 <= data_offset /\ data_offset + SB_PRIMARY_FS_OFFSET + SB_REGION_LEN <= u64_max.

Lemma sb_overlap_cases offset len data_offset :
  region_fits data_offset -> 0 <= offset -> 0 <= len ->
  let rs := data_offset + SB_PRIMARY_FS_OFFSET in
  match primary_sb_overlap offset len data_offset with
  | SbNone => offset + len <= rs \/ rs + SB_REGION_LEN <= offset
  | SbFull p => offset <= rs /\ rs + SB_REGION_LEN <= offset + len /\ p = rs - offset
  | SbPartial => offset < rs + SB_REGION_LEN /\ rs < offset + len /\
                 (rs < offset \/ offset + len < rs + SB_REGION_LEN)
  end.
Proof.
  intros [Hd Hfit] Ho Hl rs. unfold primary_sb_overlap, u64_saturating_add.
  assert (Ers : u64_add data_offset SB_PRIMARY_FS_OFFSET = rs).
  { apply u64_add_small. unfold u64_max, SB_REGION_LEN, SB_PRIMARY_FS_OFFSET in *. lia. }
  assert (Ere : u64_add rs SB_REGION_LEN = rs + SB_REGION_LEN).
  { apply u64_add_small. unfold rs, u64_max, SB_REGION_LEN, SB_PRIMARY_FS_OFFSET in *. lia. }
  rewrite Ers, Ere. clear Ers Ere.
  assert (Hfit' : rs + SB_REGION_LEN <= u64_max) by done.
  assert (SB_REGION_LEN = 4096) by done.
  destruct (_ || _) eqn:E1; [lia|]. destruct (_ && _) eqn:E2; lia.
Qed.

(** The superblock classification is exact for every request, those whose
    end overflows 64 bits included.  [None] means the request and the region
    share no byte; [Full] means it covers the region, which is the 4096 bytes
    of its payload at the returned offset; [Partial] means it touches the
    region and leaves part of it uncovered. *)
Theorem superblock_overlap_is_exact offset len data_offset
    (Hfit : region_fits data_offset) (Ho : 0 <= offset) (Hl : 0 < len) :
  match primary_sb_overlap offset len data_offset with
  | SbNone => forall b, in_request offset len b -> in_region data_offset b -> False
  | SbFull p => (forall b, in_region data_offset b -> in_request offset len b) /\
      0 <= p /\ p + SB_REGION_LEN <= len /\
      offset + p = data_offset + SB_PRIMARY_FS_OFFSET
  | SbPartial => (exists b, in_request offset len b /\ in_region data_offset b) /\
      (exists b, in_region data_offset b /\ ~ in_request offset len b)
  end.
Proof.
  pose proof (sb_overlap_cases offset len data_offset Hfit Ho ltac:(lia)) as Hc.
  unfold in_region, in_request. assert (SB_REGION_LEN = 4096) by done.
  set (rs := data_offset + SB_PRIMARY_FS_OFFSET) in *. cbv zeta in Hc.
  destruct (primary_sb_overlap offset len data_offset).
  - intros b. lia.
  - split; [intros b|]; lia.
  - split; [exists (Z.max offset rs); lia|].
    destruct Hc as (? & ? & [?|?]); [exists rs|exists (rs + SB_REGION_LEN - 1)]; lia.
Qed.

Lemma superblock_overlap_is_exact_witness :
  primary_sb_overlap (16777216 + 0x10000 - 512) 8192 16777216 = SbFull 512 /\
  (forall b, in_region 16777216 b -> in_request (16777216 + 0x10000 - 512) 8192 b).
Proof.
  split; [vm_compute; reflexivity|].
  exact (proj1 (superblock_overlap_is_exact (16777216 + 0x10000 - 512) 8192 16777216
    ltac:(unfold region_fits; vm_compute; split; discriminate) ltac:(lia) ltac:(lia))).
Defined.

(** A request without payload never covers the region. *)
Lemma empty_request_not_full offset data_offset p :
  region_fits data_offset -> 0 <= offset ->
  primary_sb_overlap offset 0 data_offset <> SbFull p.
Proof.
  intros Hfit Ho E. pose proof (sb_overlap_cases offset 0 data_offset Hfit Ho ltac:(lia)) as Hc.
  rewrite E in Hc. assert (SB_REGION_LEN = 4096) by done. cbv zeta in Hc. lia.
Qed.

(** ** Copies *)

Lemma slice_drop {A} (l : list A) p a b :
  slice (drop p l) a b = slice l (p + a) (p + b).
Proof. unfold slice. rewrite drop_drop. f_equal. lia. Qed.

Lemma slice_take {A} (l : list A) s a b : (b <= s)%nat -> slice (take s l) a b = slice l a b.
Proof.
  intros Hb. unfold slice. rewrite !take_drop_commute, take_take.
  destruct (decide (a <= b)%nat).
  - do 2 f_equal. lia.
  - rewrite !drop_ge; [done| |]; rewrite length_take; lia.
Qed.

Lemma slice_slice {A} (l : list A) a b a' b' :
  (b' <= b - a)%nat -> slice (slice l a b) a' b' = slice l (a + a') (a + b').
Proof. intros. unfold slice at 2. by rewrite slice_take, slice_drop. Qed.

(** The window as filled up to the [k]-th byte. *)
Definition filled (w : bytes) (k : nat) : bytes := take k w ++ replicate (length w - k) 0.

Lemma filled_all w k : (length w <= k)%nat -> filled w k = w.
Proof.
  intros. unfold filled. rewrite take_ge by lia.
  replace (length w - k)%nat with 0%nat by lia. by rewrite app_nil_r.
Qed.

Lemma copy_at_filled w (k k' : nat) :
  (k <= k' <= length w)%nat -> copy_at (filled w k) (Z.of_nat k) (slice w k k') = filled w k'.
Proof.
  intros Hk. unfold copy_at, filled. rewrite Nat2Z.id, slice_length by lia.
  rewrite take_app_le by (rewrite length_take; lia). rewrite take_take.
  replace (k `min` k)%nat with k by lia.
  rewrite drop_app_ge by (rewrite length_take; lia). rewrite length_take.
  replace (k `min` length w)%nat with k by lia.
  rewrite drop_replicate. unfold slice.
  replace (length w - k - (k + (k' - k) - k))%nat with (length w - k')%nat by lia.
  rewrite app_assoc. f_equal.
  replace k' with (k + (k' - k))%nat at 2 by lia. by rewrite take_take_drop.
Qed.

Lemma forward_loop_spec fuel n src dst :
  (Z.to_nat n <= fuel)%nat -> n <= Z.of_nat (length src) ->
  forward_loop fuel n src dst = (Ok tt, (drop (Z.to_nat n) src, dst ++ take (Z.to_nat n) src)).
Proof.
  revert n src dst. induction fuel as [|fuel IH]; intros n src dst Hf Hn; cbn [forward_loop].
  { replace (Z.to_nat n) with 0%nat by lia. by rewrite drop_0, take_0, app_nil_r. }
  destruct (Z.leb_spec n 0) as [?|Hp].
  { replace (Z.to_nat n) with 0%nat by lia. by rewrite drop_0, take_0, app_nil_r. }
  assert (Hs : 0 < Z.min n CHUNK <= n) by (unfold CHUNK; lia).
  set (step := Z.min n CHUNK) in *.
  destruct (Z.ltb_spec (Z.of_nat (length src)) step); [lia|].
  rewrite IH by (rewrite ?length_drop; lia). rewrite drop_drop, <- app_assoc, take_take_drop.
  by replace (Z.to_nat step + Z.to_nat (n - step))%nat with (Z.to_nat n) by lia.
Qed.

Section Extract.
Context (src0 : bytes) (off len : Z) (Hoff : 0 <= off) (Hlen : 0 < len).
Context (Hw : off + len <= Z.of_nat (length src0)).

Abbreviation window := (slice src0 (Z.to_nat off) (Z.to_nat (off + len))).

(** How much of the window the first [pos] bytes hold. *)
Definition covered (pos : Z) : nat := Z.to_nat (Z.min pos (off + len) - off).

Lemma window_length : length window = Z.to_nat len.
Proof using All. rewrite slice_length by lia. lia. Qed.

(** One round extends the filled part of the window to the new position. *)
Lemma extract_round pos step :
  0 <= pos -> 0 < step -> pos + step <= Z.of_nat (length src0) ->
  let lo := Z.max pos off in
  let hi := Z.min (pos + step) (off + len) in
  (if lo <? hi
   then copy_at (filled window (covered pos)) (lo - off)
          (slice (take (Z.to_nat step) (drop (Z.to_nat pos) src0))
             (Z.to_nat (lo - pos)) (Z.to_nat (hi - pos)))
   else filled window (covered pos)) = filled window (covered (pos + step)).
Proof using All.
  intros Hpos Hstep Hin lo hi. subst lo hi.
  destruct (Z.ltb_spec (Z.max pos off) (Z.min (pos + step) (off + len))) as [Hlt|Hge].
  - rewrite slice_take by lia. rewrite slice_drop.
    replace (Z.max pos off - off) with (Z.of_nat (covered pos)) by (unfold covered; lia).
    rewrite <- (copy_at_filled window (covered pos) (covered (pos + step)))
      by (rewrite window_length; unfold covered; lia).
    f_equal. symmetry. rewrite slice_slice by (unfold covered; lia).
    f_equal; unfold covered; lia.
  - destruct (decide (pos + step <= off)).
    + f_equal. unfold covered. lia.
    + rewrite !filled_all; [done| |]; rewrite window_length; unfold covered; lia.
Qed.

Lemma extract_loop_spec fuel remaining pos dst fired :
  (Z.to_nat remaining <= fuel)%nat -> 0 <= pos -> 0 <= remaining ->
  off + len <= pos + remaining <= Z.of_nat (length src0) ->
  (fired = None -> pos < off + len) ->
  exists fired',
    extract_loop fuel remaining pos off len (filled window (covered pos))
      (mkCopy (drop (Z.to_nat pos) src0) dst fired) =
    (Ok window, mkCopy (drop (Z.to_nat (pos + remaining)) src0)
                  (dst ++ take (Z.to_nat remaining) (drop (Z.to_nat pos) src0)) fired') /\
    match fired with
    | Some f => fired' = Some f
    | None => exists at_, fired' = Some (window, at_) /\
                (length dst <= at_)%nat /\ Z.of_nat at_ - Z.of_nat (length dst) < off + len - pos
    end.
Proof using All.
  revert remaining pos dst fired.
  induction fuel as [|fuel IH]; intros remaining pos dst fired Hf Hpos Hrem Hb Hfired;
    cbn [extract_loop].
  { assert (remaining = 0) by lia. exists fired. split.
    - rewrite filled_all by (rewrite window_length; unfold covered; lia).
      replace (pos + remaining) with pos by lia.
      replace (Z.to_nat remaining) with 0%nat by lia. by rewrite take_0, app_nil_r.
    - destruct fired; [done|]. specialize (Hfired eq_refl). lia. }
  destruct (Z.leb_spec remaining 0) as [?|Hp].
  { assert (remaining = 0) by lia. exists fired. split.
    - rewrite filled_all by (rewrite window_length; unfold covered; lia).
      replace (pos + remaining) with pos by lia.
      replace (Z.to_nat remaining) with 0%nat by lia. by rewrite take_0, app_nil_r.
    - destruct fired; [done|]. specialize (Hfired eq_refl). lia. }
  assert (Hs : 0 < Z.min remaining CHUNK <= remaining) by (unfold CHUNK; lia).
  set (step := Z.min remaining CHUNK) in *. cbn [cp_src cp_dst cp_fired].
  destruct (Z.ltb_spec (Z.of_nat (length (drop (Z.to_nat pos) src0))) step) as [Hc|_];
    [rewrite length_drop in Hc; lia|].
  pose proof (extract_round pos step Hpos ltac:(lia) ltac:(lia)) as Hround.
  cbv zeta in Hround. rewrite Hround.
  set (fired1 := match fired with Some f => Some f | None => _ end).
  assert (Hlater : fired1 = None -> pos + step < off + len).
  { unfold fired1. destruct fired; [done|].
    destruct (Z.leb_spec (off + len) (pos + step)); [done|lia]. }
  rewrite drop_drop.
  replace (Z.to_nat pos + Z.to_nat step)%nat with (Z.to_nat (pos + step)) by lia.
  destruct (IH (remaining - step) (pos + step)
              (dst ++ take (Z.to_nat step) (drop (Z.to_nat pos) src0)) fired1)
    as (fired' & Hrun & Hspec); [lia|lia|lia|lia|done|].
  exists fired'. split.
  - rewrite Hrun. f_equal. f_equal.
    + f_equal. lia.
    + rewrite <- app_assoc. f_equal.
      replace (drop (Z.to_nat (pos + step)) src0)
        with (drop (Z.to_nat step) (drop (Z.to_nat pos) src0))
        by (rewrite drop_drop; f_equal; lia).
      rewrite take_take_drop. f_equal. lia.
  - unfold fired1 in Hspec, Hlater. destruct fired as [f|]; [done|].
    destruct (Z.leb_spec (off + len) (pos + step)).
    + subst fired'. eexists. split; [by rewrite filled_all by
        (rewrite window_length; unfold covered; lia)|].
      specialize (Hfired eq_refl). lia.
    + destruct Hspec as (at_ & ? & Hat & Hat'). exists at_. split; [done|].
      rewrite length_app, length_take, length_drop in Hat, Hat'. lia.
Qed.
End Extract.

Lemma forward_bytes_extract_spec src dst n off len
    (Hoff : 0 <= off) (Hlen : 0 < len) (Hwin : off + len <= n) (Hn : n <= u64_max)
    (Hsrc : n <= Z.of_nat (length src)) :
  exists at_,
    forward_bytes_extract src dst n off len =
      (Ok (slice src (Z.to_nat off) (Z.to_nat (off + len))),
       mkCopy (drop (Z.to_nat n) src) (dst ++ take (Z.to_nat n) src)
         (Some (slice src (Z.to_nat off) (Z.to_nat (off + len)), at_))) /\
    (length dst <= at_)%nat /\ Z.of_nat at_ < Z.of_nat (length dst) + off + len.
Proof.
  unfold forward_bytes_extract, u64_saturating_add.
  destruct (Z.ltb_spec n (Z.min (off + len) u64_max)); [lia|].
  destruct (extract_loop_spec src off len Hoff Hlen ltac:(lia) (Z.to_nat n) n 0 dst None)
    as (fired & Hrun & at_ & -> & ? & ?); [lia|lia|lia|lia|lia|].
  exists at_. split; [|lia]. change (drop (Z.to_nat 0) src) with src in Hrun.
  rewrite Z.add_0_l in Hrun. rewrite <- Hrun. f_equal.
  unfold filled, covered. rewrite (window_length src off len) by lia.
  replace (Z.to_nat (Z.min 0 (off + len) - off)) with 0%nat by lia.
  rewrite take_0, Nat.sub_0_r. done.
Qed.

(** A superblock write is forwarded unchanged and captured exactly.  When
    the payload arrives, the copy in 32 KiB chunks passes every byte on,
    returns the bytes of the window, and fires the callback once, with those
    bytes, before the last byte of the window was written to the host. *)
Theorem superblock_capture_is_exact src dst n off len
    (Hoff : 0 <= off) (Hlen : 0 < len) (Hwin : off + len <= n) (Hn : n <= u64_max)
    (Hsrc : n <= Z.of_nat (length src)) :
  exists at_,
    forward_bytes_extract src dst n off len =
      (Ok (slice src (Z.to_nat off) (Z.to_nat (off + len))),
       mkCopy (drop (Z.to_nat n) src) (dst ++ take (Z.to_nat n) src)
         (Some (slice src (Z.to_nat off) (Z.to_nat (off + len)), at_))) /\
    (length dst <= at_)%nat /\ Z.of_nat at_ < Z.of_nat (length dst) + off + len.
Proof. by apply forward_bytes_extract_spec. Qed.

Lemma superblock_capture_is_exact_witness :
  exists at_,
    forward_bytes_extract (repeat 7 60) [] 50 20 16 =
      (Ok (slice (repeat 7 60) (Z.to_nat 20) (Z.to_nat (20 + 16))),
       mkCopy (drop (Z.to_nat 50) (repeat 7 60)) ([] ++ take (Z.to_nat 50) (repeat 7 60))
         (Some (slice (repeat 7 60) (Z.to_nat 20) (Z.to_nat (20 + 16)), at_))) /\
    (length (@nil Z) <= at_)%nat /\ Z.of_nat at_ < Z.of_nat (length (@nil Z)) + 20 + 16.
Proof.
  apply (superblock_capture_is_exact (repeat 7 60) [] 50 20 16); try lia;
    vm_compute; discriminate.
Defined.

Lemma forward_bytes_copies src dst n :
  n <= Z.of_nat (length src) ->
  forward_bytes src dst n = (Ok tt, (drop (Z.to_nat n) src, dst ++ take (Z.to_nat n) src)).
Proof. intros. unfold forward_bytes. by apply forward_loop_spec. Qed.

(** ** Headers *)

Definition header_in_range (r : RequestHeader) : Prop :=
  0 <= rq_type r < 2 ^ 16 /\ 0 <= rq_handle r < 2 ^ 64 /\ 0 <= rq_offset r < 2 ^ 64 /\
  0 <= rq_length r < 2 ^ 32.

(** The second of three consecutive parts. *)
Lemma slice_mid {A} (l1 l2 l3 : list A) a b :
  length l1 = a -> length l2 = (b - a)%nat -> (a <= b)%nat -> slice (l1 ++ l2 ++ l3) a b = l2.
Proof.
  intros <- H2 Hab. replace b with (length l1 + length l2)%nat by lia. apply slice_app_mid.
Qed.

Lemma slice_head {A} (l1 l2 : list A) b : length l1 = b -> slice (l1 ++ l2) 0 b = l1.
Proof. intros <-. unfold slice. by rewrite drop_0, Nat.sub_0_r, take_app_length. Qed.

(** The reader of kernel requests reads back what the writer of boot-time
    requests encodes. *)
Lemma request_header_roundtrip flags r :
  header_in_range r -> parse_request (request_header flags r) = Ok r.
Proof.
  intros (Ht & Hh & Ho & Hl). unfold parse_request, request_header.
  rewrite slice_head by (by rewrite be_encode_length).
  rewrite be_decode_encode_id by (unfold NBD_REQUEST_MAGIC; lia). rewrite Z.eqb_refl. cbn [negb].
  rewrite (app_assoc (be_encode 4 NBD_REQUEST_MAGIC)).
  rewrite (slice_mid _ (be_encode 2 (rq_type r))) by
    (rewrite ?length_app, ?be_encode_length; simpl; lia).
  rewrite (app_assoc _ (be_encode 2 (rq_type r))).
  rewrite (slice_mid _ (be_encode 8 (rq_handle r))) by
    (rewrite ?length_app, ?be_encode_length; simpl; lia).
  rewrite (app_assoc _ (be_encode 8 (rq_handle r))).
  rewrite (slice_mid _ (be_encode 8 (rq_offset r))) by
    (rewrite ?length_app, ?be_encode_length; simpl; lia).
  rewrite (app_assoc _ (be_encode 8 (rq_offset r))).
  rewrite <- (app_nil_r (be_encode 4 (rq_length r))).
  rewrite (slice_mid _ (be_encode 4 (rq_length r))) by
    (rewrite ?length_app, ?be_encode_length; simpl; lia).
  rewrite !be_decode_encode_id by lia. by destruct r.
Qed.

(** With the wiring on, the kernel is never offered a command that changes the
    device without a payload to pin. *)
Lemma no_payloadless_commands host_flags :
  Z.land (kernel_flags true host_flags) NBD_FLAG_SEND_TRIM = 0 /\
  Z.land (kernel_flags true host_flags) NBD_FLAG_SEND_WRITE_ZEROES = 0.
Proof.
  unfold kernel_flags. rewrite <- !Z.land_assoc.
  change (Z.land NBD_FLAGS_PASSTHROUGH NBD_FLAG_SEND_TRIM) with 0.
  change (Z.land NBD_FLAGS_PASSTHROUGH NBD_FLAG_SEND_WRITE_ZEROES) with 0.
  by rewrite Z.land_0_r.
Qed.

(** ** The LUKS2 cross-check *)

Section LuksProofs.
Context `{JsonLib}.

(** The header's crypt segment starts at [offset]. *)
Definition luks_says (header : bytes) (offset : Z) : Prop :=
  slice header 0 6 = LUKS2_MAGIC /\ be_decode (slice header 6 8) = 2 /\
  exists json segments before id seg after s,
    let hdr_size := be_decode (slice header 8 16) in
    LUKS2_BINARY_HEADER_LEN <= hdr_size <= LUKS2_MAX_HDR_SIZE /\
    hdr_size <= Z.of_nat (length header) /\
    from_slice (until_nul (slice header (Z.to_nat LUKS2_BINARY_HEADER_LEN)
                             (Z.to_nat hdr_size))) = Some json /\
    json_get json "segments" = Some (JObject segments) /\
    segments = before ++ (id, seg) :: after /\
    Forall (fun f => (json_get f.2 "type" ≫= as_str) <> Some "crypt"%string) before /\
    json_get seg "type" = Some (JString "crypt") /\
    json_get seg "offset" = Some (JString s) /\ parse_u64 s = Some offset.

Lemma as_str_Some o s : o ≫= as_str = Some s -> o = Some (JString s).
Proof. destruct o as [[]|]; simpl; congruence. Qed.

Lemma crypt_segment_offset_inv segments offset :
  crypt_segment_offset segments = Ok offset ->
  exists before id seg after s, segments = before ++ (id, seg) :: after /\
    Forall (fun f => (json_get f.2 "type" ≫= as_str) <> Some "crypt"%string) before /\
    json_get seg "type" = Some (JString "crypt") /\
    json_get seg "offset" = Some (JString s) /\ parse_u64 s = Some offset.
Proof.
  induction segments as [|[id seg] rest IH]; cbn [crypt_segment_offset]; [done|].
  case_bool_decide as Ht.
  - destruct (json_get seg "offset" ≫= as_str) as [s|] eqn:Es; [|done].
    intros Hs%ok_or_Ok. apply as_str_Some in Ht, Es. exists [], id, seg, rest, s. done.
  - intros (before & id' & seg' & after & s & -> & Hb & ?)%IH.
    exists ((id, seg) :: before), id', seg', after, s. split; [done|].
    split; [by constructor|done].
Qed.

Lemma parse_luks_inv header offset :
  parse_luks2_data_offset header = Ok (Some offset) -> luks_says header offset.
Proof.
  unfold parse_luks2_data_offset, hdr_size_ok. intros Hp.
  destruct (_ || _) eqn:E1; [done|]. apply orb_false_iff in E1 as [_ E1].
  apply negb_false_iff, bool_decide_eq_true in E1.
  destruct (negb (_ =? 2)) eqn:E2; [done|]. apply negb_false_iff, Z.eqb_eq in E2.
  destruct (negb (_ && _)) eqn:E3; [done|]. apply negb_false_iff, andb_true_iff in E3 as [E3 E4].
  destruct (Z.ltb_spec (Z.of_nat (length header)) (be_decode (slice header 8 16))); [done|].
  destruct (ok_or (from_slice _) LuksJson) as [json|] eqn:Ej; [|done].
  apply ok_or_Ok in Ej.
  destruct (ok_or (_ ≫= as_object) _) as [segments|] eqn:Es; [|done]. apply ok_or_Ok in Es.
  destruct (crypt_segment_offset segments) as [o|] eqn:Ec; [|done]. result_inv.
  apply crypt_segment_offset_inv in Ec as (before & id & seg & after & s & ? & ? & ? & ? & ?).
  split; [done|]. split; [done|].
  exists json, segments, before, id, seg, after, s. cbv zeta. apply Z.leb_le in E3, E4.
  split_and!; try done. destruct (json_get json "segments") as [[]|]; simpl in Es; congruence.
Qed.

(** The data offset is checked against the device.  When the boot-time
    cross-check accepts a configured offset, either the device answered a
    first block that is not a LUKS2 header (a volume never formatted), or the
    header it answered names exactly that offset for its first crypt
    segment, so the watched window is the one the filesystem uses. *)
Theorem luks_offset_is_checked s expected s' :
  verify_luks_data_offset s expected = (Ok tt, s') ->
  exists binary s1,
    nbd_read_range s BOOT_HDR_READ_HANDLE 0 LUKS2_BINARY_HEADER_LEN = (Ok binary, s1) /\
    (slice binary 0 6 <> LUKS2_MAGIC \/ exists rest, luks_says (binary ++ rest) expected).
Proof.
  unfold verify_luks_data_offset.
  destruct (nbd_read_range s _ _ _) as [[binary|] s1]; [|done].
  intros Hv. exists binary, s1. split; [done|].
  destruct (bool_decide_reflect (slice binary 0 6 = LUKS2_MAGIC)) as [E|]; [right|by left].
  cbn [negb] in Hv. destruct (negb (hdr_size_ok _)); [done|].
  destruct (if LUKS2_BINARY_HEADER_LEN <? _ then _ else _) as [[json|] s2]; [|done].
  exists json. destruct (parse_luks2_data_offset _) as [[actual|]|] eqn:Ep; [|done|done].
  destruct (Z.eqb_spec actual expected) as [->|]; [|done]. by apply parse_luks_inv.
Qed.
End LuksProofs.

(** A device formatted with its data at 16 MiB, answering the header read. *)
Definition demo_json : JsonLib := {| from_slice := fun _ =>
  Some (JObject [("segments"%string, JObject [("0"%string,
    JObject [("type"%string, JString "crypt"); ("offset"%string, JString "16777216")])])]) |}.
Definition demo_luks_header : bytes :=
  LUKS2_MAGIC ++ be_encode 2 2 ++ be_encode 8 4096 ++ repeat 0 (Z.to_nat 4080).
Definition demo_luks_stream : Stream :=
  mkStream (be_encode 4 NBD_SIMPLE_REPLY_MAGIC ++ be_encode 4 0
            ++ be_encode 8 BOOT_HDR_READ_HANDLE ++ demo_luks_header) [].

Lemma luks_offset_is_checked_witness :
  exists binary s1,
    nbd_read_range demo_luks_stream BOOT_HDR_READ_HANDLE 0 LUKS2_BINARY_HEADER_LEN
      = (Ok binary, s1) /\
    (slice binary 0 6 <> LUKS2_MAGIC \/
     exists rest, luks_says (H := demo_json) (binary ++ rest) 16777216).
Proof.
  apply (luks_offset_is_checked (H := demo_json) demo_luks_stream 16777216
           (snd (verify_luks_data_offset (H := demo_json) demo_luks_stream 16777216))).
  vm_compute. reflexivity.
Defined.
