(* ===== verification/Client.v ===== *)
(** The synchronizer's client side: the session client
    ([synchronizer/src/client.rs]) and the anti-rollback logic of the storage
    client that runs on it ([nbd-client/src/rollback.rs]): boot verification,
    the staged-upgrade transition, a pin with its conflict disambiguation, the
    retry policy and the pinner.

    A call is made under a timeout: it completes with a result, or the timeout
    elapses.  [BootOracle] is the source's trait of the same name;
    [BootOracleLaws] says what its answers mean for the slot the oracle holds.
    The theorems on booting and pinning are proved against it.  [World] is the
    implementation: a session on a cluster node whose requests are routed and
    served by the definitions of [Service], with other writers' operations,
    lost answers, broken connections and the passing of time.

    Error messages are constructors carrying the values the text shows. *)
From stdpp Require Import gmap sets list strings.
From S2P Require Import Prelude StateMachine Store Membership Identity Signing Attestation Chain ChainProofs Wire Service Nbd.
#[local] Open Scope Z_scope.

(** ** The session client *)

Inductive ClientError : Type :=
| CE_Io
| CE_Handshake
| CE_Crypto
| CE_CborEncode
| CE_Cbor
| CE_FrameTooLarge (len : Z)
| CE_ConnectionClosed
| CE_Rpc (e : RpcError)
| CE_UnexpectedResponse (expected : string)
| CE_ServerAttestation (e : AttestationError)
| CE_ServerPcrRejected
| CE_ServerAuthMissing
| CE_MissingCapability (capability : string).

(** The outcome of a call under a timeout. *)
Inductive Timed (A : Type) : Type :=
| Completed (r : result A ClientError)
| Elapsed.
Arguments Completed {A} r.
Arguments Elapsed {A}.

(** [Client::rpc] under the caller's timeout. *)
Class RpcChannel (S : Type) := { rpc : S -> Request -> Timed Response * S }.

(** The typed part of a response: [Err] answers are structured errors, another
    variant is a protocol violation. *)
Definition expect {A} (expected : string) (f : Response -> option A) (r : Timed Response)
    : Timed A :=
  match r with
  | Elapsed => Elapsed
  | Completed (Err e) => Completed (Err e)
  | Completed (Ok (RespErr e)) => Completed (Err (CE_Rpc e))
  | Completed (Ok resp) => Completed (ok_or (f resp) (CE_UnexpectedResponse expected))
  end.

Section RpcClient.
Context {S : Type} `{RpcChannel S}.

Definition client_register (s : S) (key : PcrKey) (commitment : Commitment) : Timed unit * S :=
  let (r, s') := rpc s (Rq_Register key commitment) in
  (expect "expected RegisterOk"
     (fun resp => match resp with RegisterOk => Some tt | _ => None end) r, s').

Definition client_pin (s : S) (key : PcrKey) (expected_version : Version)
    (commitment : Commitment) : Timed Version * S :=
  let (r, s') := rpc s (Rq_Pin key expected_version commitment) in
  (expect "expected PinOk"
     (fun resp => match resp with PinOk v => Some v | _ => None end) r, s').

Definition client_get (s : S) (key : PcrKey) : Timed (Commitment * Version) * S :=
  let (r, s') := rpc s (Rq_Get key) in
  (expect "expected GetOk"
     (fun resp => match resp with GetOk c v => Some (c, v) | _ => None end) r, s').

Definition client_transition (s : S) (link : ChainLink) (commitment : Commitment)
    : Timed Version * S :=
  let (r, s') := rpc s (Rq_Transition link commitment) in
  (expect "expected TransitionOk"
     (fun resp => match resp with TransitionOk v => Some v | _ => None end) r, s').

Definition CAPABILITY_REVOCATION : string := "revocation".

(** Nothing is sent to a server without the capability. *)
Definition client_revoke (server_protocol : PeerProtocol) (s : S) (link : ChainLink)
    : Timed unit * S :=
  if negb (supports server_protocol CAPABILITY_REVOCATION)
  then (Completed (Err (CE_MissingCapability CAPABILITY_REVOCATION)), s)
  else
    let (r, s') := rpc s (Rq_Revoke link) in
    (expect "expected RevokeOk"
       (fun resp => match resp with RevokeOk => Some tt | _ => None end) r, s').
End RpcClient.

(** [Handshake::authenticate]: [sent] is how sending the client's document
    ended, [received] the server's first frame. *)
Definition handshake_authenticate `{NitroLib} (skip_chain_compiled : bool)
    (sent : result unit ClientError) (received : result Frame ClientError)
    (handshake_hash : bytes) (server_policy : list Pcrs) (debug_mode : bool) (now_ms : Z)
    : result PeerProtocol ClientError :=
  let? _ := sent in
  let? frame := received in
  match frame with
  | Authenticate nsm_doc protocol_version capabilities =>
      let? _ := map_err (fun e => match e with
                                  | SA_Attestation e => CE_ServerAttestation e
                                  | PcrRejected => CE_ServerPcrRejected
                                  end)
                  (verify_server_attestation skip_chain_compiled nsm_doc handshake_hash
                     server_policy debug_mode now_ms) in
      Ok (from_advertised protocol_version capabilities)
  | Rpc _ => Err CE_ServerAuthMissing
  end.

(** ** The oracle of the boot verification *)

Class BootOracle (S : Type) := {
  orc_get : S -> PcrKey -> Timed (Commitment * Version) * S;
  orc_register : S -> PcrKey -> Commitment -> Timed unit * S;
  orc_pin : S -> PcrKey -> Version -> Commitment -> Timed Version * S;
  orc_transition : S -> ChainLink -> Commitment -> Timed Version * S;
}.

(** [impl BootOracle for Client]. *)
#[export] Instance Client_oracle {S} `{RpcChannel S} : BootOracle S := {|
  orc_get := client_get;
  orc_register := client_register;
  orc_pin := client_pin;
  orc_transition := client_transition;
|}.

(** What the answers of an oracle say about the slot of a key when they are
    given. *)
Class BootOracleLaws (S : Type) `{BootOracle S}
    (held : S -> PcrKey -> option (Commitment * Version)) : Prop := {
  oracle_get_found s key c v s' :
    orc_get s key = (Completed (Ok (c, v)), s') -> held s' key = Some (c, v);
  oracle_get_not_found s key s' :
    orc_get s key = (Completed (Err (CE_Rpc Rpc_NotFound)), s') -> held s' key = None;
  oracle_register_ok s key c s' :
    orc_register s key c = (Completed (Ok tt), s') -> held s' key = Some (c, mkVersion 0);
  oracle_pin_ok s key e c v s' :
    orc_pin s key e c = (Completed (Ok v), s') -> held s' key = Some (c, v);
}.

(** ** Boot decision *)

Inductive GetOutcome : Type :=
| Found (commitment : bytes) (version : Version)
| NotFound.

Inductive ImageRole : Type := Genesis | UpgradeTarget.

#[global] Instance ImageRole_eq_dec : EqDecision ImageRole.
Proof. solve_decision. Defined.

(** The operator-facing reasons of the decision table. *)
Inductive StopReason : Type :=
| SR_CommitmentMismatch
| SR_UpgradeTargetUnpinned
| SR_HistoryErased.

Inductive BootDecision : Type :=
| Serve
| RegisterThenServe
| TransitionOrFailStop (reason : StopReason)
| FailStop (reason : StopReason).

Definition region_is_blank (region : bytes) : bool := forallb (fun b => b =? 0) region.

(** How the pin retry loop may respond to a failed attempt. *)
Inductive PinFailure : Type := PF_Fatal | PF_Session | PF_Unavailable.

Inductive PinError : Type :=
| PE_UnexpectedVersion (expected answered : Version)
| PE_KeyUnknown
| PE_Rpc (e : ClientError)
| PE_TimedOut
| PE_Fork (version : Version)
| PE_DisambiguationFailed (e : ClientError)
| PE_DisambiguationTimedOut
| PE_NoReconnector
| PE_ReconnectFailed
| PE_DifferentKey (key : PcrKey)
| PE_BudgetExpired (last : PinError)
| PE_ReconnectsExhausted (last : PinError).

Inductive ConfigError : Type :=
| CannotRead
| CannotParse
| ControlKeyBase64
| ControlKeyShape
| NoSynchronizerSection
| NoExpectedPcrs
| BadExpectedPcrs (index : nat) (e : ChainValidationError)
| WrongBuild (configured : bool).

Inductive FatalError : Type :=
| FE_GetTimedOut
| FE_GetFailed (e : ClientError)
| FE_RegisterTimedOut
| FE_RegisterFailed (e : ClientError)
| FE_RegisteredByAnother (e : PinError)
| FE_RegistrationRaced (v : Version)
| FE_FailStop (reason : StopReason)
| FE_NoLink (reason : StopReason)
| FE_NotAnUpgradeLink (reason : StopReason) (kind : ChainLinkKind)
| FE_LinkForAnotherIdentity (reason : StopReason)
| FE_LinkPayload (reason : StopReason) (e : CanonicalDecodeError)
| FE_TransitionTimedOut
| FE_WrongVolume (reason : StopReason)
| FE_TransitionUnconfirmed (reason : StopReason)
| FE_TransitionRejected (reason : StopReason) (e : ClientError)
| FE_ReverifyTimedOut
| FE_ReverifyFailed (e : ClientError)
| FE_InconsistentOracle
| FE_Device (e : NbdError)
| FE_Config (e : ConfigError)
| FE_ConnectTimedOut
| FE_ConnectFailed
| FE_SetupTimedOut
| FE_OwnAttestation
| FE_Client (e : ClientError).

Definition pin_error_is_retryable (e : ClientError) : bool :=
  match e with CE_Io | CE_ConnectionClosed => true | _ => false end.

Definition pin_error_is_unavailable (e : ClientError) : bool :=
  match e with CE_Rpc Rpc_Unavailable => true | _ => false end.

Definition classify_pin_error (e : ClientError) : PinFailure :=
  if pin_error_is_unavailable e then PF_Unavailable
  else if pin_error_is_retryable e then PF_Session
  else PF_Fatal.

Definition get_outcome (r : result (Commitment * Version) ClientError)
    : result GetOutcome ClientError :=
  match r with
  | Ok (commitment, version) => Ok (Found (Commitment_0 commitment) version)
  | Err (CE_Rpc Rpc_NotFound) => Ok NotFound
  | Err e => Err e
  end.

Section Boot.
Context (sha256 : bytes -> bytes).
Context `{Cbor UpgradePayload}.

Definition commitment_of_region (region : bytes) : bytes := sha256 region.

Definition boot_decision (region : bytes) (outcome : GetOutcome) (role : ImageRole)
    : BootDecision :=
  match outcome with
  | Found commitment _ =>
      if bool_decide (commitment_of_region region = commitment) then Serve
      else FailStop SR_CommitmentMismatch
  | NotFound =>
      if region_is_blank region
      then match role with
           | Genesis => RegisterThenServe
           | UpgradeTarget => TransitionOrFailStop SR_UpgradeTargetUnpinned
           end
      else TransitionOrFailStop SR_HistoryErased
  end.

Section Oracle.
Context {S : Type} `{BootOracle S}.

Definition disambiguate_conflict (s : S) (key : PcrKey) (commitment : bytes)
    : result Version (PinFailure * PinError) * S :=
  match orc_get s key with
  | (Completed (Ok (current, version)), s') =>
      if bool_decide (current = mkCommitment commitment) then (Ok version, s')
      else (Err (PF_Fatal, PE_Fork version), s')
  | (Completed (Err e), s') => (Err (classify_pin_error e, PE_DisambiguationFailed e), s')
  | (Elapsed, s') => (Err (PF_Session, PE_DisambiguationTimedOut), s')
  end.

(** The link the fetch returned can be ours. *)
Definition check_upgrade_link (key : PcrKey) (upgrade_link : option ChainLink)
    (fail_reason : StopReason) : result ChainLink FatalError :=
  match upgrade_link with
  | None => Err (FE_NoLink fail_reason)
  | Some link =>
      if negb (bool_decide (cl_kind link = Upgrade))
      then Err (FE_NotAnUpgradeLink fail_reason (cl_kind link))
      else match decode_canonical (T := UpgradePayload) (cl_payload link) with
      | Ok payload =>
          if bool_decide (mkPcrKey (pin_key sha256 (up_to payload)) = key) then Ok link
          else Err (FE_LinkForAnotherIdentity fail_reason)
      | Err e => Err (FE_LinkPayload fail_reason e)
      end
  end.

Definition transition_refused (fail_reason : StopReason) (e : ClientError) : FatalError :=
  match e with
  | CE_Rpc Rpc_TransitionCommitmentMismatch => FE_WrongVolume fail_reason
  | CE_Rpc Rpc_Unavailable => FE_TransitionUnconfirmed fail_reason
  | e => FE_TransitionRejected fail_reason e
  end.

Definition transition_and_reverify (s : S) (key : PcrKey) (region : bytes)
    (upgrade_link : option ChainLink) (fail_reason : StopReason)
    : result Version FatalError * S :=
  match check_upgrade_link key upgrade_link fail_reason with
  | Err e => (Err e, s)
  | Ok link =>
      match orc_transition s link (mkCommitment (commitment_of_region region)) with
      | (Elapsed, s) => (Err FE_TransitionTimedOut, s)
      | (Completed (Err e), s) => (Err (transition_refused fail_reason e), s)
      | (Completed (Ok _), s) =>
          match orc_get s key with
          | (Elapsed, s) => (Err FE_ReverifyTimedOut, s)
          | (Completed r, s) =>
              match get_outcome r with
              | Err e => (Err (FE_ReverifyFailed e), s)
              | Ok outcome =>
                  match boot_decision region outcome UpgradeTarget with
                  | Serve =>
                      match outcome with
                      | Found _ version => (Ok version, s)
                      | NotFound => (Err FE_InconsistentOracle, s)
                      end
                  | FailStop reason => (Err (FE_FailStop reason), s)
                  | RegisterThenServe | TransitionOrFailStop _ =>
                      (Err FE_InconsistentOracle, s)
                  end
              end
          end
      end
  end.

(** The fresh-device branch: register, settling an [AlreadyRegistered]. *)
Definition register_fresh (s : S) (key : PcrKey) (region : bytes)
    : result Version FatalError * S :=
  let commitment := mkCommitment (commitment_of_region region) in
  match orc_register s key commitment with
  | (Elapsed, s) => (Err FE_RegisterTimedOut, s)
  | (Completed (Ok _), s) => (Ok (mkVersion 0), s)
  | (Completed (Err (CE_Rpc Rpc_AlreadyRegistered)), s) =>
      match disambiguate_conflict s key (Commitment_0 commitment) with
      | (Err (_, e), s) => (Err (FE_RegisteredByAnother e), s)
      | (Ok version, s) =>
          if negb (bool_decide (version = mkVersion 0))
          then (Err (FE_RegistrationRaced version), s)
          else (Ok (mkVersion 0), s)
      end
  | (Completed (Err e), s) => (Err (FE_RegisterFailed e), s)
  end.

(** [upgrade_link] is what the chain-host fetch returns if it is made. *)
Definition verify_or_register (s : S) (key : PcrKey) (role : ImageRole) (region : bytes)
    (upgrade_link : option ChainLink) : result Version FatalError * S :=
  match orc_get s key with
  | (Elapsed, s) => (Err FE_GetTimedOut, s)
  | (Completed r, s) =>
      match get_outcome r with
      | Err e => (Err (FE_GetFailed e), s)
      | Ok outcome =>
          match boot_decision region outcome role with
          | Serve =>
              match outcome with
              | Found _ version => (Ok version, s)
              | NotFound => (Err FE_InconsistentOracle, s)
              end
          | RegisterThenServe => register_fresh s key region
          | TransitionOrFailStop reason =>
              transition_and_reverify s key region upgrade_link reason
          | FailStop reason => (Err (FE_FailStop reason), s)
          end
      end
  end.

(** ** One pin *)

Definition pin_once_on (s : S) (key : PcrKey) (expected : Version) (commitment : bytes)
    : result unit (PinFailure * PinError) * (S * Version) :=
  match orc_pin s key expected (mkCommitment commitment) with
  | (Completed (Ok version), s) =>
      if Version_0 version =? u64_add (Version_0 expected) 1
      then (Ok tt, (s, version))
      else (Err (PF_Fatal, PE_UnexpectedVersion expected version), (s, expected))
  | (Completed (Err (CE_Rpc Rpc_NotFound)), s) =>
      (Err (PF_Fatal, PE_KeyUnknown), (s, expected))
  | (Completed (Err (CE_Rpc Rpc_VersionConflict)), s) =>
      match disambiguate_conflict s key commitment with
      | (Ok version, s) => (Ok tt, (s, version))
      | (Err e, s) => (Err e, (s, expected))
      end
  | (Completed (Err e), s) => (Err (classify_pin_error e, PE_Rpc e), (s, expected))
  | (Elapsed, s) => (Err (PF_Session, PE_TimedOut), (s, expected))
  end.
End Oracle.
End Boot.

(** ** The retry policy *)

Definition SYNC_RECONNECT_ATTEMPTS : nat := 3.
Definition SYNC_RECONNECT_BACKOFF : Z := 2000.
Definition SYNC_UNAVAILABLE_BUDGET : Z := 300000.
Definition SYNC_UNAVAILABLE_BACKOFF : Z := 2000.

(** The monotonic clock, in milliseconds. *)
Class Clock (T : Type) := { instant_now : T -> Z; sleep : Z -> T -> T }.

Class PinAttempt (T : Type) := {
  pin_once : T -> bytes -> result unit (PinFailure * PinError) * T;
  can_reconnect : T -> bool;
  reconnect_session : T -> result unit (PinFailure * PinError) * T;
}.

Section Retry.
Context {T : Type} `{Clock T} `{PinAttempt T}.

(** The re-establishment loop, with [reconnects_left] attempts left. *)
Fixpoint reconnect_loop (reconnects_left : nat) (last_err : PinError) (t : T)
    : result nat PinError * T :=
  match reconnects_left with
  | O => (Err (PE_ReconnectsExhausted last_err), t)
  | Datatypes.S reconnects_left =>
      match reconnect_session (sleep SYNC_RECONNECT_BACKOFF t) with
      | (Ok _, t) => (Ok reconnects_left, t)
      | (Err (PF_Fatal, e), t) => (Err e, t)
      | (Err (_, e), t) => reconnect_loop reconnects_left e t
      end
  end.

(** One round of the loop per unit of fuel; [None] is running out of it. *)
Fixpoint pin_loop (fuel : nat) (reconnects_left : nat) (unavailable_deadline : option Z) (t : T)
    (commitment : bytes) : option (result unit PinError * T) :=
  match fuel with
  | O => None
  | Datatypes.S fuel =>
      match pin_once t commitment with
      | (Ok _, t) => Some (Ok tt, t)
      | (Err (PF_Fatal, msg), t) => Some (Err msg, t)
      | (Err (PF_Unavailable, msg), t) =>
          let deadline := match unavailable_deadline with
                          | Some d => d
                          | None => instant_now t + SYNC_UNAVAILABLE_BUDGET
                          end in
          if deadline <=? instant_now t + SYNC_UNAVAILABLE_BACKOFF
          then Some (Err (PE_BudgetExpired msg), t)
          else pin_loop fuel reconnects_left (Some deadline) (sleep SYNC_UNAVAILABLE_BACKOFF t) commitment
      | (Err (PF_Session, msg), t) =>
          if negb (can_reconnect t) then Some (Err msg, t)
          else match reconnect_loop reconnects_left msg t with
          | (Err e, t) => Some (Err e, t)
          | (Ok reconnects_left, t) => pin_loop fuel reconnects_left unavailable_deadline t commitment
          end
      end
  end.

(** Attempts one pin can make: every reconnect and every pause inside the
    budget allows one more. *)
Definition PIN_ATTEMPTS : nat :=
  (1 + SYNC_RECONNECT_ATTEMPTS
     + Z.to_nat (SYNC_UNAVAILABLE_BUDGET / SYNC_UNAVAILABLE_BACKOFF))%nat.

Definition pin_with_retries (t : T) (commitment : bytes) : option (result unit PinError * T) :=
  pin_loop PIN_ATTEMPTS SYNC_RECONNECT_ATTEMPTS None t commitment.
End Retry.

(** ** The production pinner *)

(** A full new session: the attested key, or the failure. *)
Class Reconnect (S : Type) := { reconnect : S -> result PcrKey unit * S }.

Record SyncPinner (S : Type) := mkSyncPinner {
  sp_client : S;
  sp_key : PcrKey;
  sp_expected : Version;
  sp_reconnect : bool;   (* a reconnector is configured *)
}.
Arguments mkSyncPinner {S}. Arguments sp_client {S}. Arguments sp_key {S}.
Arguments sp_expected {S}. Arguments sp_reconnect {S}.

Section Pinner.
Context {S : Type} `{BootOracle S} `{Reconnect S} `{Clock S}.

Definition pinner_pin_once (p : SyncPinner S) (commitment : bytes)
    : result unit (PinFailure * PinError) * SyncPinner S :=
  match pin_once_on (sp_client p) (sp_key p) (sp_expected p) commitment with
  | (r, (s, v)) => (r, mkSyncPinner s (sp_key p) v (sp_reconnect p))
  end.

Definition pinner_reconnect_session (p : SyncPinner S)
    : result unit (PinFailure * PinError) * SyncPinner S :=
  if negb (sp_reconnect p) then (Err (PF_Fatal, PE_NoReconnector), p)
  else
    let (r, s) := reconnect (sp_client p) in
    let p' := mkSyncPinner s (sp_key p) (sp_expected p) (sp_reconnect p) in
    match r with
    | Err _ => (Err (PF_Session, PE_ReconnectFailed), p')
    | Ok key =>
        if negb (bool_decide (key = sp_key p)) then (Err (PF_Fatal, PE_DifferentKey key), p')
        else (Ok tt, p')
    end.

#[export] Instance SyncPinner_attempt : PinAttempt (SyncPinner S) := {|
  pin_once := pinner_pin_once;
  can_reconnect := sp_reconnect;
  reconnect_session := pinner_reconnect_session;
|}.

#[export] Instance SyncPinner_clock : Clock (SyncPinner S) := {|
  instant_now p := instant_now (sp_client p);
  sleep d p := mkSyncPinner (sleep d (sp_client p)) (sp_key p) (sp_expected p) (sp_reconnect p);
|}.

(** [impl Pinner for SyncPinner]. *)
Definition pinner_pin (p : SyncPinner S) (commitment : bytes)
    : option (result unit PinError * SyncPinner S) := pin_with_retries p commitment.
End Pinner.

(** ** The measured configuration *)

Record RawSynchronizerSection := mkRawSection {
  rs_enabled : bool;
  rs_expected_pcrs : list PcrsHex;
  rs_debug_attestation : bool;
  rs_upgrade_target : bool;
}.

Record RawConfig := mkRawConfig {
  rc_control_public_key : option string;
  rc_synchronizer : option RawSynchronizerSection;
}.

Record SynchronizerTrust := mkTrust {
  tr_control_pubkey : bytes;
  tr_server_policy : list Pcrs;
  tr_debug_attestation : bool;
  tr_role : ImageRole;
}.

Section Config.
(** [serde_json::from_slice::<RawConfig>], the codecs, and whether the binary
    contains the skip-chain path. *)
Context (parse_config : bytes -> option RawConfig).
Context (base64_decode hex_decode : string -> option bytes).
Context (SKIPS_CERTIFICATE_CHAIN : bool).

(** [file] is the content of the configuration file, [None] when it cannot
    be read. *)
Definition read_config (file : option bytes) : result RawConfig ConfigError :=
  let? bs := ok_or file CannotRead in
  ok_or (parse_config bs) CannotParse.

Definition load_control_pubkey (file : option bytes) : result bytes ConfigError :=
  let? raw := read_config file in
  match rc_control_public_key raw with
  | None => Ok NON_UPGRADABLE_CONTROL_KEY
  | Some b64 =>
      let? decoded := ok_or (base64_decode b64) ControlKeyBase64 in
      if negb (length decoded =? 65)%nat || negb (bool_decide (decoded !! 0%nat = Some 4))
      then Err ControlKeyShape
      else Ok decoded
  end.

Fixpoint load_expected (i : nat) (l : list PcrsHex) : result (list Pcrs) ConfigError :=
  match l with
  | [] => Ok []
  | h :: l =>
      let? pcrs := map_err (BadExpectedPcrs i) (to_pcrs hex_decode h) in
      let? rest := load_expected (S i) l in
      Ok (pcrs :: rest)
  end.

Definition load_synchronizer_trust (file : option bytes)
    : result SynchronizerTrust ConfigError :=
  let? control_pubkey := load_control_pubkey file in
  let? raw := read_config file in
  let? section := ok_or (rc_synchronizer raw) NoSynchronizerSection in
  match rs_expected_pcrs section with
  | [] => Err NoExpectedPcrs
  | _ =>
      let? expected := load_expected 0 (rs_expected_pcrs section) in
      if negb (Bool.eqb (rs_debug_attestation section) SKIPS_CERTIFICATE_CHAIN)
      then Err (WrongBuild (rs_debug_attestation section))
      else Ok (mkTrust control_pubkey expected (rs_debug_attestation section)
                 (if rs_upgrade_target section then UpgradeTarget else Genesis))
  end.
End Config.

(** ** Session setup and boot *)

(** What a connection attempt meets: the connect, the Noise handshake, this
    enclave's own attestation device (nonce, then user data), the two
    [Authenticate] frames, the clock, and whether the whole setup timed out. *)
Record Dialing := mkDialing {
  di_connect : option bool;   (* [None]: timed out; [Some false]: refused *)
  di_handshake : result bytes ClientError;
  di_document : bytes -> bytes -> result ValidatedAttestation unit;
  di_sent : result unit ClientError;
  di_received : result Frame ClientError;
  di_now_ms : Z;
  di_setup_elapsed : bool;
}.

Definition connect_and_authenticate `{NitroLib} (sha256 : bytes -> bytes) (skip : bool)
    (trust : result SynchronizerTrust ConfigError) (d : Dialing)
    : result (PcrKey * ImageRole * PeerProtocol) FatalError :=
  let? trust := map_err FE_Config trust in
  match di_connect d with
  | None => Err FE_ConnectTimedOut
  | Some false => Err FE_ConnectFailed
  | Some true =>
      if di_setup_elapsed d then Err FE_SetupTimedOut
      else
        let? nonce := map_err FE_Client (di_handshake d) in
        let? doc := map_err (fun _ => FE_OwnAttestation)
                      (di_document d nonce (tr_control_pubkey trust)) in
        let key := mkPcrKey (pin_key sha256 (va_identity doc)) in
        let? client := map_err FE_Client
                         (handshake_authenticate skip (di_sent d) (di_received d) nonce
                            (tr_server_policy trust) (tr_debug_attestation trust)
                            (di_now_ms d)) in
        Ok (key, tr_role trust, client)
  end.

(** Cap on the fetch response frame. *)
Definition CHAIN_FETCH_MAX_FRAME : Z := 256 * 1024.

(** [fetch_link_over]: every failure collapses to no link. *)
Definition fetch_link_over `{Cbor ChainLink} (s : Stream) : option ChainLink * Stream :=
  let s := write_all (be_encode 4 0) s in
  match read_exact 4 s with
  | (Err _, s) => (None, s)
  | (Ok len_bytes, s) =>
      let len := be_decode len_bytes in
      if len =? 0 then (None, s)
      else if CHAIN_FETCH_MAX_FRAME <? len then (None, s)
      else match read_exact len s with
      | (Err _, s) => (None, s)
      | (Ok buf, s) => (result_ok (from_reader buf), s)
      end
  end.

Record BootResult (S : Type) := mkBootResult {
  br_session : S;
  br_key : PcrKey;
  br_commitment : bytes;
  br_version : Version;
}.
Arguments mkBootResult {S}. Arguments br_session {S}. Arguments br_key {S}.
Arguments br_commitment {S}. Arguments br_version {S}.

(** [boot]: [session] is the session set up (with its oracle) or the failure,
    [upgrade_link] what the chain-host fetch returns if it is made. *)
Definition boot {S} `{BootOracle S} `{Cbor UpgradePayload} `{HJ : JsonLib} (sha256 : bytes -> bytes)
    (session : result (S * PcrKey * ImageRole) FatalError) (host : Stream) (data_offset : Z)
    (upgrade_link : option ChainLink) : result (BootResult S) FatalError * Stream :=
  match session with
  | Err e => (Err e, host)
  | Ok (s, key, role) =>
      match verify_luks_data_offset host data_offset with
      | (Err e, host) => (Err (FE_Device e), host)
      | (Ok _, host) =>
          match nbd_read_region host (u64_add data_offset SB_PRIMARY_FS_OFFSET) with
          | (Err e, host) => (Err (FE_Device e), host)
          | (Ok region, host) =>
              match verify_or_register sha256 s key role region upgrade_link with
              | (Err e, _) => (Err e, host)
              | (Ok version, s) =>
                  (Ok (mkBootResult s key (commitment_of_region sha256 region) version), host)
              end
          end
      end
  end.

Definition into_pinner {S} (b : BootResult S) : SyncPinner S :=
  mkSyncPinner (br_session b) (br_key b) (br_version b) true.
