(* ===== verification/ClientProofs.v ===== *)
(** Correctness of the storage client's use of the oracle: what a successful
    boot and a successful pin mean for the slot the oracle holds, which calls a
    boot may make, the termination of the pin retry loop, and the cluster as an
    implementation of the oracle. *)
From stdpp Require Import gmap sets list strings.
From S2P Require Import Prelude StateMachine Store Membership Identity Signing Attestation Chain ChainProofs Wire Service Nbd Client.
#[local] Open Scope Z_scope.

(** ** The cluster behind a session *)

(** The errors a connection can end in. *)
Inductive TransportError : Type :=
| TE_Io | TE_Crypto | TE_CborEncode | TE_Cbor | TE_FrameTooLarge (len : Z) | TE_Closed.

Definition client_error (e : TransportError) : ClientError :=
  match e with
  | TE_Io => CE_Io
  | TE_Crypto => CE_Crypto
  | TE_CborEncode => CE_CborEncode
  | TE_Cbor => CE_Cbor
  | TE_FrameTooLarge n => CE_FrameTooLarge n
  | TE_Closed => CE_ConnectionClosed
  end.

(** How an exchange ends; [reached] says whether the request took effect. *)
Inductive Fate : Type :=
| F_Answered
| F_Broken (e : TransportError) (reached : bool)
| F_TooSlow (reached : bool).

(** One exchange: the operations of others ordered before it, the rounds its
    routing meets, how it ends and how long it takes. *)
Record Exchange := mkExchange {
  x_before : list ReplicatedOp;
  x_rounds : list Round;
  x_fate : Fate;
  x_ms : nat;
}.

(** A session with the cluster, the exchanges and re-dials to come, and the
    clock. *)
Record World := mkWorld {
  w_sm : StateMachine;
  w_clock : Z;
  w_session : PcrKey;
  w_control : bytes;
  w_script : list Exchange;
  w_dials : list (option PcrKey * nat);
}.

Definition held (w : World) (key : PcrKey) : option (Commitment * Version) :=
  (fun ks => (ks_commitment ks, ks_version ks)) <$> sm_state (w_sm w) !! key.

Section World.
Context `{P256} `{NitroLib}.
Context `{Cbor UpgradePayload} `{Cbor RevocationPayload}.
Context (sha256 : bytes -> bytes) (skip_chain_compiled : bool).

Definition world_rpc (w : World) (req : Request) : Timed Response * World :=
  match w_script w with
  | [] => (Elapsed, mkWorld (w_sm w) (w_clock w + 30000) (w_session w) (w_control w) []
                      (w_dials w))
  | x :: rest =>
      let sm0 := apply_all (w_sm w) (x_before x) in
      let (a, sm1) := route_client_request sha256 skip_chain_compiled (x_rounds x) sm0
                        (w_session w) (w_control w) req in
      let after sm := mkWorld sm (w_clock w + Z.of_nat (x_ms x)) (w_session w) (w_control w)
                        rest (w_dials w) in
      match x_fate x with
      | F_Answered => (Completed (Ok (an_response a)), after sm1)
      | F_Broken e reached =>
          (Completed (Err (client_error e)), after (if reached then sm1 else sm0))
      | F_TooSlow reached => (Elapsed, after (if reached then sm1 else sm0))
      end
  end.

#[local] Instance World_channel : RpcChannel World := {| rpc := world_rpc |}.

Definition world_reconnect (w : World) : result PcrKey unit * World :=
  match w_dials w with
  | [] => (Err tt, mkWorld (w_sm w) (w_clock w + 30000) (w_session w) (w_control w)
                     (w_script w) [])
  | (dialed, ms) :: rest =>
      (ok_or dialed tt, mkWorld (w_sm w) (w_clock w + Z.of_nat ms)
         (default (w_session w) dialed) (w_control w) (w_script w) rest)
  end.

#[local] Instance World_reconnect : Reconnect World := {| reconnect := world_reconnect |}.

#[local] Instance World_clock : Clock World := {|
  instant_now := w_clock;
  sleep d w := mkWorld (w_sm w) (w_clock w + d) (w_session w) (w_control w) (w_script w)
                 (w_dials w);
|}.

(** An answer of a channel that carries a definite response is the leader's,
    given in the state the exchange leaves. *)
Lemma world_rpc_answer w req resp w' :
  world_rpc w req = (Completed (Ok resp), w') -> resp <> RespErr Rpc_Unavailable ->
  exists sm0 e a, on_leader sha256 skip_chain_compiled sm0 (w_session w) (w_control w) req e
                    = (a, w_sm w') /\ an_response a = resp.
Proof.
  unfold world_rpc. destruct (w_script w) as [|x rest]; [done|].
  destruct (route_client_request _ _ _ _ _ _ _) as [a sm1] eqn:E.
  intros Hr Hne. destruct (x_fate x); try done. simplify_eq.
  apply routed_answer in E as (sm0 & e & E); [|done]. cbn [w_sm]. eauto.
Qed.

Lemma expect_Ok {A} msg (f : Response -> option A) (r : Timed Response) a :
  expect msg f r = Completed (Ok a) -> exists resp, r = Completed (Ok resp) /\ f resp = Some a.
Proof.
  unfold expect. destruct r as [[resp|e]|]; [|done|done].
  destruct resp; intros E; simplify_eq; try (apply ok_or_Ok in E; eauto).
Qed.

Lemma expect_Rpc {A} msg (f : Response -> option A) (r : Timed Response) e :
  expect msg f r = Completed (Err (CE_Rpc e)) ->
  r = Completed (Ok (RespErr e)) \/ r = Completed (Err (CE_Rpc e)).
Proof.
  unfold expect. destruct r as [[resp|e']|]; [|naive_solver|done].
  destruct resp; intros E; simplify_eq; try (by left); destruct (f _); done.
Qed.

(** The cluster is an oracle: what it answers is what its slots hold. *)
#[local] Instance World_oracle_laws : BootOracleLaws World held.
Proof.
  split.
  - intros w key c v w'. cbn [orc_get Client_oracle]. unfold client_get. cbn [rpc World_channel].
    destruct (world_rpc w _) as [r w1] eqn:E. intros [= Hx ->].
    apply expect_Ok in Hx as (resp & -> & Hf). destruct resp; simplify_eq.
    apply world_rpc_answer in E as (sm0 & e & a & Hl & Ha); [|done].
    pose proof (leader_answer_holds sha256 skip_chain_compiled sm0 (w_session w) (w_control w)
      (Rq_Get key) (le_debug e) (le_now e) (le_read e) (le_write e)) as Hh.
    unfold on_leader in Hl. rewrite Hl, Ha in Hh.
    destruct Hh as (_ & [= ->] & _ & ks & Hks & <- & <-). unfold held. by rewrite Hks.
  - intros w key w'. cbn [orc_get Client_oracle]. unfold client_get. cbn [rpc World_channel].
    destruct (world_rpc w _) as [r w1] eqn:E. intros [= Hx ->].
    apply expect_Rpc in Hx as [->| ->].
    + apply world_rpc_answer in E as (sm0 & e & a & Hl & Ha); [|done].
      unfold on_leader in Hl. apply leader_not_found in Hl as (-> & Esm & Hn); [|done].
      unfold held. by rewrite Esm, Hn.
    + exfalso. unfold world_rpc in E. destruct (w_script w) as [|x rest]; [done|].
      destruct (route_client_request _ _ _ _ _ _ _).
      destruct (x_fate x) as [|te ?|]; simplify_eq. by destruct te.
  - intros w key c w'. cbn [orc_register Client_oracle]. unfold client_register.
    cbn [rpc World_channel]. destruct (world_rpc w _) as [r w1] eqn:E. intros [= Hx ->].
    apply expect_Ok in Hx as (resp & -> & Hf). destruct resp; simplify_eq.
    apply world_rpc_answer in E as (sm0 & e & a & Hl & Ha); [|done].
    pose proof (leader_answer_holds sha256 skip_chain_compiled sm0 (w_session w) (w_control w)
      (Rq_Register key c) (le_debug e) (le_now e) (le_read e) (le_write e)) as Hh.
    unfold on_leader in Hl. rewrite Hl, Ha in Hh.
    destruct Hh as (_ & c' & [= -> ->] & Hks). unfold held. by rewrite Hks.
  - intros w key ev c v w'. cbn [orc_pin Client_oracle]. unfold client_pin.
    cbn [rpc World_channel]. destruct (world_rpc w _) as [r w1] eqn:E. intros [= Hx ->].
    apply expect_Ok in Hx as (resp & -> & Hf). destruct resp; simplify_eq.
    apply world_rpc_answer in E as (sm0 & e & a & Hl & Ha); [|done].
    pose proof (leader_answer_holds sha256 skip_chain_compiled sm0 (w_session w) (w_control w)
      (Rq_Pin key ev c) (le_debug e) (le_now e) (le_read e) (le_write e)) as Hh.
    unfold on_leader in Hl. rewrite Hl, Ha in Hh.
    destruct Hh as (_ & ev' & c' & ks & [= -> -> ->] & Hks & <- & <- & _).
    unfold held. by rewrite Hks.
Qed.
End World.

(** ** Boot *)

(** The calls an oracle receives. *)
Inductive Call : Type :=
| Call_Get (key : PcrKey)
| Call_Register (key : PcrKey) (commitment : Commitment)
| Call_Pin (key : PcrKey) (expected : Version) (commitment : Commitment)
| Call_Transition (link : ChainLink) (commitment : Commitment).

(** An oracle that keeps the calls made to it, oldest first, each with the
    state it found. *)
Definition Traced (S : Type) : Type := S * list (S * Call).

#[global] Instance Traced_oracle {S} `{BootOracle S} : BootOracle (Traced S) := {|
  orc_get t k := let (r, s) := orc_get t.1 k in (r, (s, t.2 ++ [(t.1, Call_Get k)]));
  orc_register t k c :=
    let (r, s) := orc_register t.1 k c in (r, (s, t.2 ++ [(t.1, Call_Register k c)]));
  orc_pin t k e c :=
    let (r, s) := orc_pin t.1 k e c in (r, (s, t.2 ++ [(t.1, Call_Pin k e c)]));
  orc_transition t l c :=
    let (r, s) := orc_transition t.1 l c in (r, (s, t.2 ++ [(t.1, Call_Transition l c)]));
|}.

Section BootProofs.
Context (sha256 : bytes -> bytes).
Context `{Cbor UpgradePayload}.
Context {S : Type} `{BootOracle S} (slot : S -> PcrKey -> option (Commitment * Version)).
Context `{!BootOracleLaws S slot}.

Abbreviation commit region := (mkCommitment (commitment_of_region sha256 region)).

(** A decision to serve comes from an answered [Get] of the device's own
    commitment. *)
Lemma boot_decision_serve region outcome role :
  boot_decision sha256 region outcome role = Serve ->
  exists v, outcome = Found (commitment_of_region sha256 region) v.
Proof.
  unfold boot_decision. destruct outcome as [c v|].
  - case_bool_decide; [|done]. subst. eauto.
  - destruct (region_is_blank region), role; done.
Qed.

Lemma get_outcome_found r c v : get_outcome r = Ok (Found c v) -> r = Ok (mkCommitment c, v).
Proof.
  destruct r as [[[c'] v']|e]; cbn [get_outcome]; intros E; [by simplify_eq|].
  destruct e as [| | | | | | |[]| | | | |]; done.
Qed.

Lemma get_outcome_not_found r : get_outcome r = Ok NotFound -> r = Err (CE_Rpc Rpc_NotFound).
Proof.
  destruct r as [[[c'] v']|e]; cbn [get_outcome]; intros E; [done|].
  destruct e as [| | | | | | |[]| | | | |]; done.
Qed.

Lemma disambiguate_ok s key c v s' :
  disambiguate_conflict s key c = (Ok v, s') -> slot s' key = Some (mkCommitment c, v).
Proof.
  unfold disambiguate_conflict. destruct (orc_get s key) as [[[[cur ver]|e]|] s1] eqn:E; try done.
  case_bool_decide; [|done]. intros [= -> ->]. subst. by apply oracle_get_found in E.
Qed.

Lemma transition_ok s key region link reason v s' :
  transition_and_reverify sha256 s key region link reason = (Ok v, s') ->
  slot s' key = Some (commit region, v).
Proof.
  unfold transition_and_reverify.
  destruct (check_upgrade_link _ _ _ _) as [l|]; [|done].
  destruct (orc_transition s l _) as [[[v1|e]|] s1]; try done.
  destruct (orc_get s1 key) as [[r|] s2] eqn:E; [|done].
  destruct (get_outcome r) as [outcome|] eqn:Eo; [|done].
  destruct (boot_decision _ _ _ _) eqn:Ed; try done.
  apply boot_decision_serve in Ed as [v2 ->]. intros [= -> ->].
  apply get_outcome_found in Eo as ->. by apply oracle_get_found in E.
Qed.

Lemma register_fresh_ok s key region v s' :
  register_fresh sha256 s key region = (Ok v, s') ->
  slot s' key = Some (commit region, v).
Proof.
  unfold register_fresh. destruct (orc_register s key _) as [[[[]|e]|] s1] eqn:E; try done.
  - intros [= <- <-]. by apply oracle_register_ok in E.
  - destruct e as [| | | | | | |[]| | | | |]; try done.
    destruct (disambiguate_conflict _ _ _) as [[ver|[]] s2] eqn:Ed; try done.
    case_bool_decide; [|done]. intros [= <- <-]. subst. by apply disambiguate_ok in Ed.
Qed.

Lemma verify_or_register_ok s key role region link v s' :
  verify_or_register sha256 s key role region link = (Ok v, s') ->
  slot s' key = Some (commit region, v).
Proof.
  unfold verify_or_register. destruct (orc_get s key) as [[r|] s1] eqn:E; [|done].
  destruct (get_outcome r) as [outcome|] eqn:Eo; [|done].
  destruct (boot_decision _ _ _ _) eqn:Ed; try done.
  - apply boot_decision_serve in Ed as [v2 ->]. intros [= -> ->].
    apply get_outcome_found in Eo as ->. by apply oracle_get_found in E.
  - apply register_fresh_ok.
  - apply transition_ok.
Qed.

Lemma boot_Ok `{HJ : JsonLib} session host data_offset link r host' :
  boot sha256 session host data_offset link = (Ok r, host') ->
  exists s role region host1 host2,
    session = Ok (s, br_key r, role) /\
    verify_luks_data_offset host data_offset = (Ok tt, host1) /\
    nbd_read_region host1 (u64_add data_offset SB_PRIMARY_FS_OFFSET) = (Ok region, host2) /\
    br_commitment r = sha256 region /\
    slot (br_session r) (br_key r) = Some (mkCommitment (sha256 region), br_version r).
Proof.
  unfold boot. destruct session as [[[s key] role]|]; [|done].
  destruct (verify_luks_data_offset _ _) as [[[]|] host1] eqn:El; [|done].
  destruct (nbd_read_region _ _) as [[region|] host2] eqn:Er; [|done].
  destruct (verify_or_register _ _ _ _ _ _) as [[v|] s'] eqn:Ev; [|done].
  intros [= <- <-]. exists s, role, region, host1, host2.
  apply verify_or_register_ok in Ev. done.
Qed.

(** C3: only the pinned state is served.  When a boot succeeds, the region it
    read from the device at the primary superblock is the one whose digest
    the oracle held for this enclave's key at that moment, at the version the
    pinner starts from; the LUKS2 cross-check passed first. *)
Theorem boot_serves_only_pinned_state `{HJ : JsonLib} session host data_offset link r host'
    (Hboot : boot sha256 session host data_offset link = (Ok r, host')) :
  exists s role region host1 host2,
    session = Ok (s, br_key r, role) /\
    verify_luks_data_offset host data_offset = (Ok tt, host1) /\
    nbd_read_region host1 (u64_add data_offset SB_PRIMARY_FS_OFFSET) = (Ok region, host2) /\
    br_commitment r = sha256 region /\
    slot (br_session r) (br_key r) = Some (mkCommitment (sha256 region), br_version r).
Proof. by eapply boot_Ok. Qed.

(** ** The calls of a boot *)

(** What a boot may have asked the oracle. *)
Definition call_allowed (key : PcrKey) (role : ImageRole) (region : bytes)
    (link : option ChainLink) (call : S * Call) : Prop :=
  match call.2 with
  | Call_Get k => k = key
  | Call_Register k c => k = key /\ c = commit region /\ role = Genesis /\
      region_is_blank region = true /\ slot call.1 key = None
  | Call_Pin _ _ _ => False
  | Call_Transition l c => c = commit region /\ link = Some l /\ cl_kind l = Upgrade /\
      slot call.1 key = None /\ exists payload,
      decode_canonical (cl_payload l) = Ok payload /\
      mkPcrKey (pin_key sha256 (up_to payload)) = key
  end.

Lemma check_upgrade_link_ok key link reason l :
  check_upgrade_link sha256 key link reason = Ok l ->
  link = Some l /\ cl_kind l = Upgrade /\ exists payload,
    decode_canonical (cl_payload l) = Ok payload /\
    mkPcrKey (pin_key sha256 (up_to payload)) = key.
Proof.
  unfold check_upgrade_link. destruct link as [l'|]; [|done].
  destruct (bool_decide_reflect (cl_kind l' = Upgrade)); [|done]. cbn [negb].
  destruct (decode_canonical _) as [p|] eqn:E; [|done].
  case_bool_decide; [|done]. intros [= ->]. eauto.
Qed.

(** The first component of a traced run is the run without the trace. *)
Lemma disambiguate_calls key role region link t k c r t' :
  k = key ->
  disambiguate_conflict (S := Traced S) t k c = (r, t') ->
  Forall (call_allowed key role region link) t.2 ->
  Forall (call_allowed key role region link) t'.2.
Proof.
  intros -> Hd Ht. unfold disambiguate_conflict in Hd. cbn [orc_get Traced_oracle] in Hd.
  destruct (orc_get t.1 key) as [r1 s1].
  assert (t'.2 = t.2 ++ [(t.1, Call_Get key)]) as ->.
  { destruct r1 as [[[] |]|]; [case_bool_decide| |]; by simplify_eq. }
  apply Forall_app; split; [done|]. by repeat constructor.
Qed.

Lemma register_calls key link t region r t' :
  register_fresh (S := Traced S) sha256 t key region = (r, t') ->
  region_is_blank region = true -> slot t.1 key = None ->
  Forall (call_allowed key Genesis region link) t.2 ->
  Forall (call_allowed key Genesis region link) t'.2.
Proof.
  intros Hr Hb Hn Ht. unfold register_fresh in Hr. cbn [orc_register Traced_oracle] in Hr.
  destruct (orc_register t.1 key _) as [r1 s1].
  assert (Ht1 : Forall (call_allowed key Genesis region link)
                  (t.2 ++ [(t.1, Call_Register key (commit region))])).
  { apply Forall_app; split; [done|]. by repeat constructor. }
  destruct r1 as [[[]|e]|]; simplify_eq; try done.
  destruct e as [| | | | | | |[]| | | | |]; simplify_eq; try done.
  destruct (disambiguate_conflict _ _ _) as [r2 t2] eqn:Ed.
  apply (disambiguate_calls key Genesis region link) in Ed; [|done|done].
  destruct r2 as [v|[]]; [destruct (negb _)|]; by simplify_eq.
Qed.

Lemma transition_calls key role region link t reason r t' :
  transition_and_reverify (S := Traced S) sha256 t key region link reason = (r, t') ->
  slot t.1 key = None ->
  Forall (call_allowed key role region link) t.2 ->
  Forall (call_allowed key role region link) t'.2.
Proof.
  intros Hr Hn Ht. unfold transition_and_reverify in Hr.
  destruct (check_upgrade_link _ _ _ _) as [l|] eqn:El; [|by simplify_eq].
  apply check_upgrade_link_ok in El. cbn [orc_transition Traced_oracle] in Hr.
  destruct (orc_transition t.1 l _) as [r1 s1].
  assert (Ht1 : Forall (call_allowed key role region link)
                  (t.2 ++ [(t.1, Call_Transition l (commit region))])).
  { apply Forall_app; split; [done|]. constructor; [|done]. unfold call_allowed. naive_solver. }
  destruct r1 as [[v|e]|]; [|by simplify_eq|by simplify_eq].
  cbn [orc_get Traced_oracle fst snd] in Hr. destruct (orc_get s1 key) as [r2 s2].
  assert (Ht2 : Forall (call_allowed key role region link)
                  ((t.2 ++ [(t.1, Call_Transition l (commit region))]) ++ [(s1, Call_Get key)])).
  { apply Forall_app; split; [done|]. by repeat constructor. }
  destruct r2 as [r2|]; [|by simplify_eq].
  destruct (get_outcome r2) as [[]|]; simplify_eq; try done;
    destruct (boot_decision _ _ _ _); by simplify_eq.
Qed.

(** C4: a boot never overwrites history.  Whatever the oracle answers, the
    boot makes no pin; it registers only a blank region of an image that is
    not an upgrade target, under its own key and while the oracle holds no
    slot for it; it submits a transition only with the fetched upgrade link,
    if that link's payload is canonical and targets this enclave's own key,
    with the device's own commitment, and only while the key has no slot. *)
Theorem boot_calls_are_allowed s key role region link r t
    (Hrun : verify_or_register (S := Traced S) sha256 (s, []) key role region link = (r, t)) :
  Forall (call_allowed key role region link) t.2.
Proof.
  unfold verify_or_register in Hrun. cbn [orc_get Traced_oracle fst snd app] in Hrun.
  destruct (orc_get s key) as [r1 s1] eqn:E.
  assert (Ht1 : Forall (call_allowed key role region link) [(s, Call_Get key)])
    by (by repeat constructor).
  destruct r1 as [r1|]; [|by simplify_eq].
  destruct (get_outcome r1) as [outcome|] eqn:Eo; [|by simplify_eq].
  unfold boot_decision in Hrun. destruct outcome as [c v|].
  { case_bool_decide; by simplify_eq. }
  apply get_outcome_not_found in Eo as ->. apply oracle_get_not_found in E.
  destruct (region_is_blank region) eqn:Eb; [destruct role|].
  - by eapply register_calls.
  - by eapply transition_calls.
  - by eapply transition_calls.
Qed.
End BootProofs.

(** ** Pins *)

Section PinProofs.
Context {S : Type} `{BootOracle S} (slot : S -> PcrKey -> option (Commitment * Version)).
Context `{!BootOracleLaws S slot} `{Reconnect S} `{Clock S}.

Lemma pin_once_on_ok s key expected c s' v :
  pin_once_on s key expected c = (Ok tt, (s', v)) -> slot s' key = Some (mkCommitment c, v).
Proof.
  unfold pin_once_on. destruct (orc_pin s key expected _) as [[[ver|e]|] s1] eqn:E; try done.
  - destruct (Z.eqb _ _); [|done]. intros [= -> ->]. by apply oracle_pin_ok in E.
  - destruct e as [| | | | | | |[]| | | | |]; try done.
    destruct (disambiguate_conflict _ _ _) as [[ver|] s2] eqn:Ed; [|done].
    intros [= -> ->]. by eapply disambiguate_ok.
Qed.

Lemma pin_once_on_key (p : SyncPinner S) c : sp_key (pin_once p c).2 = sp_key p.
Proof.
  cbn [pin_once SyncPinner_attempt]. unfold pinner_pin_once.
  by destruct (pin_once_on _ _ _ _) as [? []].
Qed.

Lemma reconnect_session_key (p : SyncPinner S) : sp_key (reconnect_session p).2 = sp_key p.
Proof.
  cbn [reconnect_session SyncPinner_attempt]. unfold pinner_reconnect_session.
  destruct (negb _); [done|]. destruct (reconnect _) as [[]]; [|done].
  by destruct (negb _).
Qed.

Lemma reconnect_loop_key n e (p : SyncPinner S) : sp_key (reconnect_loop n e p).2 = sp_key p.
Proof.
  revert e p. induction n as [|n IH]; intros e p; cbn [reconnect_loop]; [done|].
  pose proof (reconnect_session_key (sleep SYNC_RECONNECT_BACKOFF p)) as Hk.
  destruct (reconnect_session _) as [[|[[] ?]] p1]; simpl in *; rewrite ?IH; done.
Qed.

Lemma pin_loop_ok fuel n dl (p : SyncPinner S) c p' :
  pin_loop fuel n dl p c = Some (Ok tt, p') ->
  sp_key p' = sp_key p /\
  slot (sp_client p') (sp_key p') = Some (mkCommitment c, sp_expected p').
Proof.
  revert n dl p. induction fuel as [|fuel IH]; intros n dl p; cbn [pin_loop]; [done|].
  pose proof (pin_once_on_key p c) as Hk.
  destruct (pin_once p c) as [[[]|[[] e]] p1] eqn:E; simpl in Hk; try done.
  - intros [= <-]. split; [done|]. cbn [pin_once SyncPinner_attempt] in E.
    unfold pinner_pin_once in E.
    destruct (pin_once_on _ _ _ _) as [r [s v]] eqn:Ep. simplify_eq. simpl.
    by eapply pin_once_on_ok.
  - destruct (negb (can_reconnect p1)); [done|].
    pose proof (reconnect_loop_key n e p1) as Hk1.
    destruct (reconnect_loop n e p1) as [[n'|] p2]; [|done]. simpl in Hk1.
    intros Hr. destruct (IH _ _ _ Hr). split; [congruence|done].
  - destruct (Z.leb _ _); [done|]. intros Hr. destruct (IH _ _ _ Hr).
    split; [|done]. simpl in *. congruence.
Qed.

Lemma pin_loop_key fuel n dl (p : SyncPinner S) c r p' :
  pin_loop fuel n dl p c = Some (r, p') -> sp_key p' = sp_key p.
Proof.
  revert n dl p. induction fuel as [|fuel IH]; intros n dl p; cbn [pin_loop]; [done|].
  pose proof (pin_once_on_key p c) as Hk.
  destruct (pin_once p c) as [[[]|[[] e]] p1]; simpl in Hk; [by intros [= <- <-]..| |].
  - destruct (negb (can_reconnect p1)); [by intros [= <- <-]|].
    pose proof (reconnect_loop_key n e p1) as Hk1.
    destruct (reconnect_loop n e p1) as [[n'|] p2]; simpl in Hk1; [|intros [= <- <-]; congruence].
    intros Hr%IH. congruence.
  - destruct (Z.leb _ _); [by intros [= <- <-]|]. intros Hr%IH. simpl in Hr. congruence.
Qed.

(** C9: a pin that returns success is held.  Whatever answers were lost and
    however often the pin was retried or the session re-established, when the
    pinner reports success the oracle's slot for its key holds exactly the
    commitment, at the version the pinner will name next; the key the pinner
    works for has not changed. *)
Theorem successful_pin_is_held (p : SyncPinner S) c p'
    (Hpin : pinner_pin p c = Some (Ok tt, p')) :
  sp_key p' = sp_key p /\
  slot (sp_client p') (sp_key p) = Some (mkCommitment c, sp_expected p').
Proof.
  apply pin_loop_ok in Hpin as [Hk Hs]. split; [done|]. by rewrite <- Hk.
Qed.
End PinProofs.

(** The clock only moves forward. *)
Class ForwardClock (T : Type) `{Clock T, PinAttempt T} : Prop := {
  sleep_forward d t : 0 <= d -> instant_now t + d <= instant_now (sleep d t);
  pin_forward t c : instant_now t <= instant_now (pin_once t c).2;
  reconnect_forward t : instant_now t <= instant_now (reconnect_session t).2;
}.

Section Termination.
Context {T : Type} `{ForwardClock T}.

Lemma reconnect_loop_forward n e (t : T) :
  instant_now t <= instant_now (reconnect_loop n e t).2.
Proof.
  revert e t. induction n as [|n IH]; intros e t; cbn [reconnect_loop]; [simpl; lia|].
  pose proof (sleep_forward SYNC_RECONNECT_BACKOFF t ltac:(done)) as Hs.
  unfold SYNC_RECONNECT_BACKOFF in *.
  pose proof (reconnect_forward (sleep 2000 t)) as Hr.
  destruct (reconnect_session (sleep 2000 t)) as [[|[[] e']] t1]; simpl in *;
    try lia; pose proof (IH e' t1); lia.
Qed.

Lemma reconnect_loop_spends n e (t : T) n' t' :
  reconnect_loop n e t = (Ok n', t') -> (n' < n)%nat.
Proof.
  revert e t. induction n as [|n IH]; intros e t; cbn [reconnect_loop]; [done|].
  destruct (reconnect_session _) as [[|[[] e']] t1]; try done.
  - intros [= <- <-]. lia.
  - intros Hr%IH. lia.
  - intros Hr%IH. lia.
Qed.

(** The pauses the budget still allows. *)
Definition pauses_left (dl : option Z) (t : T) : Z :=
  match dl with
  | None => SYNC_UNAVAILABLE_BUDGET / SYNC_UNAVAILABLE_BACKOFF
  | Some d => Z.max 0 (d - instant_now t) / SYNC_UNAVAILABLE_BACKOFF
  end.

Lemma pauses_left_forward dl t t' :
  instant_now t <= instant_now t' -> pauses_left dl t' <= pauses_left dl t.
Proof.
  intros. destruct dl as [d|]; simpl; [|done].
  apply Z.div_le_mono; [done|]. lia.
Qed.

Lemma pause_spends dl t :
  let d := match dl with Some d => d | None => instant_now t + SYNC_UNAVAILABLE_BUDGET end in
  instant_now t + SYNC_UNAVAILABLE_BACKOFF < d ->
  pauses_left (Some d) (sleep SYNC_UNAVAILABLE_BACKOFF t) < pauses_left dl t.
Proof.
  intros d Hd. pose proof (sleep_forward SYNC_UNAVAILABLE_BACKOFF t ltac:(done)) as Hs.
  set (t' := sleep _ t) in *.
  assert (Hd' : pauses_left (Some d) t' + 1 <= Z.max 0 (d - instant_now t) / SYNC_UNAVAILABLE_BACKOFF).
  { cbn [pauses_left]. rewrite <- Z.div_add by done. apply Z.div_le_mono; [done|].
    unfold SYNC_UNAVAILABLE_BACKOFF in *. lia. }
  destruct dl as [d'|]; subst d; [cbn [pauses_left] in Hd' |- *; lia|].
  replace (Z.max 0 (instant_now t + SYNC_UNAVAILABLE_BUDGET - instant_now t))
    with SYNC_UNAVAILABLE_BUDGET in Hd' by (unfold SYNC_UNAVAILABLE_BUDGET; lia).
  cbn [pauses_left] in *. lia.
Qed.

Lemma pauses_left_nonneg dl t : 0 <= pauses_left dl t.
Proof.
  destruct dl; cbn [pauses_left]; [|done]. apply Z.div_pos; [lia|done].
Qed.

Lemma pin_loop_total fuel n dl t c :
  Z.of_nat n + pauses_left dl t < Z.of_nat fuel -> is_Some (pin_loop fuel n dl t c).
Proof.
  revert n dl t. induction fuel as [|fuel IH]; intros n dl t Hf.
  { pose proof (pauses_left_nonneg dl t). lia. }
  cbn [pin_loop]. pose proof (pin_forward t c) as Hp.
  destruct (pin_once t c) as [[[]|[[] e]] t1]; simpl in Hp; try done.
  - destruct (negb _); [done|]. pose proof (reconnect_loop_forward n e t1) as Hl.
    destruct (reconnect_loop n e t1) as [[n'|] t2] eqn:El; [|done]. simpl in Hl.
    apply reconnect_loop_spends in El. apply IH.
    pose proof (pauses_left_forward dl t t2 ltac:(lia)). lia.
  - destruct (Z.leb_spec (match dl with Some d => d | None => instant_now t1
      + SYNC_UNAVAILABLE_BUDGET end) (instant_now t1 + SYNC_UNAVAILABLE_BACKOFF)) as [|Hd]; [done|].
    apply IH. pose proof (pause_spends dl t1 Hd).
    pose proof (pauses_left_forward dl t t1 ltac:(lia)). lia.
Qed.

(** C34: a pin always ends.  However the oracle, the sessions and the clock
    behave, the retry loop returns a verdict after at most three
    re-establishments and 150 pauses, 154 attempts in all: no write stays
    gated for ever on a live client. *)
Theorem pin_always_ends (t : T) c :
  exists r, pin_with_retries t c = Some r.
Proof.
  destruct (pin_loop_total PIN_ATTEMPTS SYNC_RECONNECT_ATTEMPTS None t c) as [r Hr].
  - vm_compute. reflexivity.
  - exists r. exact Hr.
Qed.
End Termination.

(** ** Trust anchors *)

Section Trust.
Context `{NitroLib} (sha256 : bytes -> bytes).
Context (parse_config : bytes -> option RawConfig).
Context (base64_decode hex_decode : string -> option bytes).
Context (skips_chain : bool).

Lemma load_expected_length i l expected :
  load_expected hex_decode i l = Ok expected -> length expected = length l.
Proof.
  revert i expected. induction l as [|h l IH]; intros i expected; cbn [load_expected].
  - by intros [= <-].
  - destruct (map_err _ _) as [p|]; [|done].
    destruct (load_expected hex_decode (S i) l) as [rest|] eqn:E; [|done].
    intros [= <-]. simpl. f_equal. by eapply IH.
Qed.

(** The control key of a configuration is the well-formed key it names, or
    the one nobody can sign for. *)
Definition control_key_of (raw : RawConfig) (pk : bytes) : Prop :=
  match rc_control_public_key raw with
  | None => pk = NON_UPGRADABLE_CONTROL_KEY
  | Some b64 => base64_decode b64 = Some pk /\ length pk = 65%nat /\ pk !! 0%nat = Some 4
  end.

Lemma load_trust_inv file trust :
  load_synchronizer_trust parse_config base64_decode hex_decode skips_chain file = Ok trust ->
  exists bs raw section, file = Some bs /\ parse_config bs = Some raw /\
    rc_synchronizer raw = Some section /\ control_key_of raw (tr_control_pubkey trust) /\
    tr_server_policy trust <> [] /\ tr_debug_attestation trust = skips_chain /\
    (tr_role trust = Genesis <-> rs_upgrade_target section = false).
Proof.
  unfold load_synchronizer_trust, load_control_pubkey, read_config.
  destruct file as [bs|]; [|done]. cbn [ok_or]. destruct (parse_config bs) as [raw|] eqn:Ep; [|done].
  cbn [ok_or]. intros Hl.
  destruct (match rc_control_public_key raw with Some _ => _ | None => _ end) as [pk|] eqn:Ek;
    [|done].
  destruct (rc_synchronizer raw) as [section|] eqn:Es; [|done]. cbn [ok_or] in Hl.
  destruct (rs_expected_pcrs section) as [|e es] eqn:Ee; [done|].
  destruct (load_expected hex_decode 0 (e :: es)) as [expected|] eqn:Ex; [|done].
  destruct (Bool.eqb (rs_debug_attestation section) skips_chain) eqn:Ed; [|done].
  cbn [negb] in Hl. injection Hl as <-. cbn. apply Bool.eqb_prop in Ed.
  exists bs, raw, section. split_and!; try done.
  - unfold control_key_of. destruct (rc_control_public_key raw) as [b64|]; [|by injection Ek as <-].
    destruct (base64_decode b64) as [d|]; [|done]. cbn [ok_or] in Ek.
    destruct (Nat.eqb_spec (length d) 65); [|done].
    destruct (bool_decide_reflect (d !! 0%nat = Some 4)); [|done].
    cbn [negb orb] in Ek. by injection Ek as <-.
  - apply load_expected_length in Ex. by destruct expected.
  - by destruct (rs_upgrade_target section).
Qed.

(** The oracle is authenticated from the measured configuration.  A
    session exists only if the configuration parses with a synchronizer
    section, a non-empty list of expected measurements and the verification
    mode this build has, and if the server's first frame carries a document
    that verifies for this very handshake with one of the expected
    measurements; this enclave attests the configured control key on it, and
    works under the key of its own attested identity. *)
Theorem oracle_session_is_authenticated file d key role peer
    (Hconn : connect_and_authenticate sha256 skips_chain
       (load_synchronizer_trust parse_config base64_decode hex_decode skips_chain file) d
       = Ok (key, role, peer)) :
  exists bs raw section trust nonce doc server_doc version caps pcrs,
    file = Some bs /\ parse_config bs = Some raw /\ rc_synchronizer raw = Some section /\
    control_key_of raw (tr_control_pubkey trust) /\ tr_server_policy trust <> [] /\
    (role = Genesis <-> rs_upgrade_target section = false) /\
    di_handshake d = Ok nonce /\ di_document d nonce (tr_control_pubkey trust) = Ok doc /\
    key = mkPcrKey (pin_key sha256 (va_identity doc)) /\
    di_received d = Ok (Authenticate server_doc version caps) /\
    verify_server_attestation skips_chain server_doc nonce (tr_server_policy trust) skips_chain
      (di_now_ms d) = Ok pcrs /\
    peer = from_advertised version caps.
Proof.
  unfold connect_and_authenticate in Hconn.
  destruct (load_synchronizer_trust _ _ _ _ _) as [trust|] eqn:Et; [|done].
  apply load_trust_inv in Et as (bs & raw & section & ? & ? & ? & ? & ? & Hdebug & ?).
  cbn [map_err] in Hconn. destruct (di_connect d) as [[]|]; [|done|done].
  destruct (di_setup_elapsed d); [done|].
  destruct (di_handshake d) as [nonce|]; [|done]. cbn [map_err] in Hconn.
  destruct (di_document d nonce _) as [doc|] eqn:Edoc; [|done]. cbn [map_err] in Hconn.
  unfold handshake_authenticate in Hconn. destruct (di_sent d) as [[]|]; [|done].
  destruct (di_received d) as [[server_doc version caps|]|]; [|done|done].
  rewrite Hdebug in Hconn.
  destruct (verify_server_attestation _ _ _ _ _ _) as [pcrs|] eqn:Ev; [|done].
  cbn [map_err] in Hconn. injection Hconn as <- <- <-.
  exists bs, raw, section, trust, nonce, doc, server_doc, version, caps, pcrs.
  split_and!; done.
Qed.
End Trust.

(** ** The pinner on the cluster *)

Section WorldPinner.
Context `{P256} `{NitroLib}.
Context `{Cbor UpgradePayload} `{Cbor RevocationPayload}.
Context (sha256 : bytes -> bytes) (skip_chain_compiled : bool).

#[local] Existing Instance World_channel.
#[local] Existing Instance World_reconnect.
#[local] Existing Instance World_clock.

Lemma world_rpc_forward w req :
  w_clock w <= w_clock (world_rpc sha256 skip_chain_compiled w req).2.
Proof.
  unfold world_rpc. destruct (w_script w) as [|x rest]; [simpl; lia|].
  destruct (route_client_request _ _ _ _ _ _ _). destruct (x_fate x); simpl; lia.
Qed.

Lemma world_get_forward w key :
  w_clock w <= w_clock (orc_get (BootOracle := Client_oracle
    (H := World_channel sha256 skip_chain_compiled)) w key).2.
Proof.
  cbn [orc_get Client_oracle]. unfold client_get. cbn [rpc World_channel].
  pose proof (world_rpc_forward w (Rq_Get key)). by destruct (world_rpc _ _ _ _).
Qed.

(** The pinner of a cluster session. *)
Definition world_attempt : PinAttempt (SyncPinner World) :=
  SyncPinner_attempt (H := Client_oracle (H := World_channel sha256 skip_chain_compiled)).

#[global] Instance World_forward :
  ForwardClock (SyncPinner World) (H0 := world_attempt).
Proof.
  split.
  - intros d p Hd. simpl. lia.
  - intros p c. cbn [pin_once world_attempt SyncPinner_attempt instant_now SyncPinner_clock
      World_clock]. unfold pinner_pin_once, pin_once_on.
    cbn [orc_pin Client_oracle]. unfold client_pin. cbn [rpc World_channel].
    pose proof (world_rpc_forward (sp_client p) (Rq_Pin (sp_key p) (sp_expected p)
      (mkCommitment c))) as Hf.
    destruct (world_rpc _ _ _ _) as [r w1]. simpl in Hf.
    destruct (expect _ _ r) as [[v|e]|]; [destruct (Z.eqb _ _); simpl; lia| |simpl; lia].
    destruct e as [| | | | | | |[]| | | | |]; try (simpl; lia).
    unfold disambiguate_conflict. pose proof (world_get_forward w1 (sp_key p)) as Hg.
    destruct (orc_get _ _) as [[[[cur ver]|]|] w2]; simpl in Hg;
      [case_bool_decide| |]; simpl; lia.
  - intros p. cbn [reconnect_session world_attempt SyncPinner_attempt instant_now
      SyncPinner_clock World_clock]. unfold pinner_reconnect_session, reconnect, World_reconnect,
      world_reconnect.
    destruct (negb (sp_reconnect p)); [done|].
    destruct (w_dials (sp_client p)) as [|[[k|] ms] ds]; cbn; [lia| |lia].
    destruct (negb _); simpl; lia.
Qed.
End WorldPinner.

(** ** Witnesses *)

Module ClientDemo.
Import ChainProofs.Demo.

#[global] Instance demo_channel : RpcChannel World :=
  World_channel (H := toy_P256) (H0 := toy_NitroLib) toy_sha256 false.
#[global] Instance demo_reconnect : Reconnect World := World_reconnect.
#[global] Instance demo_clock : Clock World := World_clock.
#[global] Instance demo_laws : BootOracleLaws World held :=
  World_oracle_laws (H := toy_P256) (H0 := toy_NitroLib) toy_sha256 false.

(** A node that leads, commits at once and confirms its reads. *)
Definition quorum : list Round := [Leads (mkLeaderEnv false (Ok 0) ReadOk (Committed []))].
Definition answered_in (ms : nat) : Exchange := mkExchange [] quorum F_Answered ms.

Definition demo_world (script : list Exchange) (sm : StateMachine) : World :=
  mkWorld sm 0 demo_key1 [5] script [(Some demo_key1, 10%nat)].

Definition blank : bytes := repeat 0 (Z.to_nat 4096).
Definition reply (handle : Z) (payload : bytes) : bytes :=
  be_encode 4 NBD_SIMPLE_REPLY_MAGIC ++ be_encode 4 0 ++ be_encode 8 handle ++ payload.

(** A new volume: no LUKS2 header, a blank superblock region. *)
Definition new_volume : Stream :=
  mkStream (reply BOOT_HDR_READ_HANDLE blank ++ reply BOOT_READ_HANDLE blank) [].

Definition demo_session : result (World * PcrKey * ImageRole) FatalError :=
  Ok (demo_world [answered_in 1; answered_in 1] sm_new, demo_key1, Genesis).

Definition demo_boot := Client.boot (HJ := demo_json) toy_sha256 demo_session new_volume 16777216 None.

(** A pin whose first answer is lost after it committed: the retry conflicts
    and the disambiguating [Get] finds the commitment. *)
Definition lossy : list Exchange :=
  [mkExchange [] quorum (F_Broken TE_Io true) 5; answered_in 5; answered_in 5].
Definition pinned_sm : StateMachine :=
  snd (demo_node false (Ok 0) sm_new demo_key1 [5] (Rq_Register demo_key1 demo_c0)).
Definition demo_pinner : SyncPinner World :=
  mkSyncPinner (demo_world lossy pinned_sm) demo_key1 (mkVersion 0) true.
End ClientDemo.

Definition demo_boot_result : BootResult World :=
  match fst ClientDemo.demo_boot with
  | Ok r => r
  | Err _ => mkBootResult (ClientDemo.demo_world [] sm_new) demo_key2 [] (mkVersion 7)
  end.

Lemma boot_serves_only_pinned_state_witness :
  br_key demo_boot_result = demo_key1 /\
  exists s role region host1 host2,
    ClientDemo.demo_session = Ok (s, br_key demo_boot_result, role) /\
    verify_luks_data_offset (H := demo_json) ClientDemo.new_volume 16777216 = (Ok tt, host1) /\
    nbd_read_region host1 (u64_add 16777216 SB_PRIMARY_FS_OFFSET) = (Ok region, host2) /\
    br_commitment demo_boot_result = toy_sha256 region /\
    held (br_session demo_boot_result) (br_key demo_boot_result)
      = Some (mkCommitment (toy_sha256 region), br_version demo_boot_result).
Proof.
  split; [vm_compute; reflexivity|].
  refine (boot_serves_only_pinned_state toy_sha256 held (HJ := demo_json)
            ClientDemo.demo_session ClientDemo.new_volume 16777216 None demo_boot_result
            (snd ClientDemo.demo_boot) _).
  vm_compute. reflexivity.
Defined.

Definition demo_traced_boot :=
  verify_or_register (S := Traced World) toy_sha256
    (ClientDemo.demo_world [ClientDemo.answered_in 1; ClientDemo.answered_in 1] sm_new, [])
    demo_key1 Genesis [0; 0] None.

Lemma boot_calls_are_allowed_witness :
  snd <$> (snd (snd demo_traced_boot)) =
    [Call_Get demo_key1; Call_Register demo_key1 (mkCommitment (toy_sha256 [0; 0]))] /\
  Forall (call_allowed toy_sha256 held demo_key1 Genesis [0; 0] None) (snd (snd demo_traced_boot)).
Proof.
  split; [vm_compute; reflexivity|].
  exact (boot_calls_are_allowed toy_sha256 held
           (ClientDemo.demo_world [ClientDemo.answered_in 1; ClientDemo.answered_in 1] sm_new)
           demo_key1 Genesis [0; 0] None (fst demo_traced_boot) (snd demo_traced_boot)
           (surjective_pairing demo_traced_boot)).
Defined.

Definition demo_pinned : SyncPinner World :=
  match pinner_pin ClientDemo.demo_pinner [42] with
  | Some (_, p) => p
  | None => ClientDemo.demo_pinner
  end.

Lemma successful_pin_is_held_witness :
  sp_expected demo_pinned = mkVersion 1 /\
  sp_key demo_pinned = demo_key1 /\
  held (sp_client demo_pinned) demo_key1 = Some (mkCommitment [42], sp_expected demo_pinned).
Proof.
  split; [vm_compute; reflexivity|].
  refine (successful_pin_is_held held ClientDemo.demo_pinner [42] demo_pinned _).
  vm_compute. reflexivity.
Defined.

Lemma pin_always_ends_witness :
  exists r, pin_with_retries (T := SyncPinner World)
              (H0 := world_attempt (H := toy_P256) (H0 := toy_NitroLib) toy_sha256 false)
              ClientDemo.demo_pinner [42] = Some r.
Proof.
  exact (pin_always_ends (T := SyncPinner World)
    (H1 := World_forward (H := toy_P256) (H0 := toy_NitroLib) toy_sha256 false)
    ClientDemo.demo_pinner [42]).
Defined.

(** A configuration with the image's own measurements as the expected ones, and
    an oracle that attests them on this handshake. *)
Definition demo_config : RawConfig :=
  mkRawConfig None (Some (mkRawSection true [mkPcrsHex "" "" ""] false true)).
Definition demo_hex (_ : string) : option bytes := Some (replicate 48 3).
Definition demo_dialing : Dialing :=
  mkDialing (Some true) (Ok [9])
    (fun nonce ud => Ok (mkValidated [] (demo_identity 1 0) 1000000 (Some ud) (Session true)))
    (Ok tt) (Ok (Authenticate (toy_document 9 3 []) 1 ∅)) 500 false.
Lemma oracle_session_is_authenticated_witness :
  exists bs raw section trust nonce doc server_doc version caps pcrs,
    Some (@nil Z) = Some bs /\ Some demo_config = Some raw /\
    rc_synchronizer raw = Some section /\
    control_key_of (fun _ => None) raw (tr_control_pubkey trust) /\ tr_server_policy trust <> [] /\
    (UpgradeTarget = Genesis <-> rs_upgrade_target section = false) /\
    di_handshake demo_dialing = Ok nonce /\
    di_document demo_dialing nonce (tr_control_pubkey trust) = Ok doc /\
    demo_key_of 1 = mkPcrKey (pin_key (fun l => l) (va_identity doc)) /\
    di_received demo_dialing = Ok (Authenticate server_doc version caps) /\
    verify_server_attestation (H0 := toy_NitroLib) false server_doc nonce (tr_server_policy trust)
      false 500 = Ok pcrs /\
    from_advertised 1 ∅ = from_advertised version caps.
Proof.
  refine (oracle_session_is_authenticated (H := toy_NitroLib) (fun l => l)
            (fun _ => Some demo_config) (fun _ => None) demo_hex false (Some []) demo_dialing
            (demo_key_of 1) UpgradeTarget (from_advertised 1 ∅) _).
  vm_compute. reflexivity.
Defined.
