(* ===== verification/Watch.v ===== *)
(** The runtime region watch of the storage client ([RegionWatch] in
    [nbd-client/src/rollback.rs]).

    [AbsWatch] is what the watch promises: the contents the superblock region
    has been given (the boot-verified one first, then every captured write in
    order), how many of the writes are pinned, and for every watched read the
    position it must not go behind.  [watch_rep] relates it to the pruned deque
    and the two maps of the code; every operation is shown to implement its
    abstract counterpart, and the reply-time check to accept exactly the
    contents the abstract watch allows. *)
From stdpp Require Import gmap sets list list_numbers strings fin_maps.
From S2P Require Import Prelude StateMachine Nbd.
#[local] Open Scope Z_scope.

Record ReadWatch := mkReadWatch { rw_payload_offset : Z; rw_accept_from_seq : Z }.

Record RegionWatch := mkRegionWatch {
  rw_history : list (Z * bytes);          (* oldest first *)
  rw_pending : gmap Z (Z * bytes);
  rw_reads : gmap Z ReadWatch;
  rw_next_seq : Z;
}.

Definition watch_new (boot_commitment : bytes) : RegionWatch :=
  mkRegionWatch [(0, boot_commitment)] ∅ ∅ 1.

Definition newest_seq (history : list (Z * bytes)) : Z := default 0 (fst <$> last history).

Definition watch_read (w : RegionWatch) (handle payload_offset : Z) : RegionWatch :=
  mkRegionWatch (rw_history w) (rw_pending w)
    (<[handle := mkReadWatch payload_offset (newest_seq (rw_history w))]> (rw_reads w))
    (rw_next_seq w).

Definition begin_pending (w : RegionWatch) (handle : Z) (commitment : bytes) : RegionWatch :=
  mkRegionWatch (rw_history w) (<[handle := (rw_next_seq w, commitment)]> (rw_pending w))
    (rw_reads w) (u64_add (rw_next_seq w) 1).

(** [Iterator::min]. *)
Definition min_seq (l : list Z) : option Z :=
  foldr (fun a acc => Some (match acc with Some b => Z.min a b | None => a end)) None l.

(** [while history.len() > 1 { if history[0].0 >= floor { break } pop_front }]. *)
Fixpoint prune (floor : Z) (history : list (Z * bytes)) : list (Z * bytes) :=
  match history with
  | [] => []
  | [e] => [e]
  | (s, c) :: ((_ :: _) as rest) => if floor <=? s then (s, c) :: rest else prune floor rest
  end.

Definition watch_commit (w : RegionWatch) (handle : Z) : RegionWatch :=
  match rw_pending w !! handle with
  | None => w
  | Some (seq, c) =>
      let floor := default seq (min_seq (rw_accept_from_seq <$> (map_to_list (rw_reads w)).*2)) in
      mkRegionWatch (prune floor (rw_history w ++ [(seq, c)])) (delete handle (rw_pending w))
        (rw_reads w) (rw_next_seq w)
  end.

Definition read_payload_offset (w : RegionWatch) (handle : Z) : option Z :=
  rw_payload_offset <$> rw_reads w !! handle.

Definition drop_read (w : RegionWatch) (handle : Z) : RegionWatch :=
  mkRegionWatch (rw_history w) (rw_pending w) (delete handle (rw_reads w)) (rw_next_seq w).

Section Watch.
Context (sha256 : bytes -> bytes).

(** The error is the rollback verdict. *)
Definition verify_read (w : RegionWatch) (handle : Z) (region : bytes)
    : result unit unit * RegionWatch :=
  match rw_reads w !! handle with
  | None => (Ok tt, w)
  | Some r =>
      let hash := sha256 region in
      let fresh_entry (e : Z * bytes) : bool :=
        (rw_accept_from_seq r <=? e.1) && bool_decide (e.2 = hash) in
      let fresh := existsb fresh_entry (rw_history w)
                   || existsb fresh_entry (map_to_list (rw_pending w)).*2 in
      (if fresh then Ok tt else Err tt, drop_read w handle)
end.
End Watch.

(** ** What the watch promises *)

Record AbsWatch := mkAbsWatch {
  aw_contents : list bytes;      (* [0] is the boot content *)
  aw_pinned : nat;               (* contents up to this index are pinned *)
  aw_reads : gmap Z (Z * nat);   (* payload offset, first acceptable content *)
}.

Definition aw_new (boot_commitment : bytes) : AbsWatch := mkAbsWatch [boot_commitment] 0 ∅.
Definition aw_watch (a : AbsWatch) (handle payload_offset : Z) : AbsWatch :=
  mkAbsWatch (aw_contents a) (aw_pinned a)
    (<[handle := (payload_offset, aw_pinned a)]> (aw_reads a)).
Definition aw_capture (a : AbsWatch) (commitment : bytes) : AbsWatch :=
  mkAbsWatch (aw_contents a ++ [commitment]) (aw_pinned a) (aw_reads a).
Definition aw_commit (a : AbsWatch) : AbsWatch :=
  mkAbsWatch (aw_contents a) (S (aw_pinned a)) (aw_reads a).
Definition aw_drop (a : AbsWatch) (handle : Z) : AbsWatch :=
  mkAbsWatch (aw_contents a) (aw_pinned a) (delete handle (aw_reads a)).

(** A region content is acceptable for a read: some content at least as new as
    the newest pinned one when the read was issued has its digest. *)
Definition aw_accepts (a : AbsWatch) (from : nat) (hash : bytes) : Prop :=
  exists j, (from <= j)%nat /\ aw_contents a !! j = Some hash.

(** ** The representation *)

(** The deque entries of contents [lo .. hi]. *)
Definition entries (contents : list bytes) (lo hi : nat) : list (Z * bytes) :=
  (fun i => (Z.of_nat i, default [] (contents !! i))) <$> seq lo (S hi - lo).

Record watch_rep (w : RegionWatch) (a : AbsWatch) : Prop := {
  rep_next : rw_next_seq w = Z.of_nat (length (aw_contents a));
  rep_pinned : (aw_pinned a < length (aw_contents a))%nat;
  rep_history : exists lo, (lo <= aw_pinned a)%nat /\
    rw_history w = entries (aw_contents a) lo (aw_pinned a) /\
    forall h off from, aw_reads a !! h = Some (off, from) -> (lo <= from)%nat;
  rep_pending h s c : rw_pending w !! h = Some (s, c) ->
    exists i, s = Z.of_nat i /\ (aw_pinned a < i)%nat /\ aw_contents a !! i = Some c;
  rep_unpinned i c : (aw_pinned a < i)%nat -> aw_contents a !! i = Some c ->
    exists h, rw_pending w !! h = Some (Z.of_nat i, c);
  rep_inj h1 h2 s c1 c2 : rw_pending w !! h1 = Some (s, c1) ->
    rw_pending w !! h2 = Some (s, c2) -> h1 = h2;
  rep_reads : rw_reads w =
    (fun r : Z * nat => mkReadWatch r.1 (Z.of_nat r.2)) <$> aw_reads a;
  rep_from h off from : aw_reads a !! h = Some (off, from) -> (from <= aw_pinned a)%nat;
}.

Lemma elem_of_entries contents lo hi s c :
  (hi < length contents)%nat ->
  (s, c) ∈ entries contents lo hi <->
  exists i, s = Z.of_nat i /\ (lo <= i <= hi)%nat /\ contents !! i = Some c.
Proof.
  intros Hhi. unfold entries. rewrite list_elem_of_fmap. split.
  - intros (i & [= -> ->] & Hi%elem_of_seq). exists i.
    destruct (lookup_lt_is_Some_2 contents i ltac:(lia)) as [x Hx]. rewrite Hx. simpl.
    split_and!; [done|lia|lia|done].
  - intros (i & -> & Hi & Hx). exists i. rewrite Hx. split; [done|]. apply elem_of_seq. lia.
Qed.

Lemma entries_snoc contents lo hi :
  (lo <= S hi)%nat ->
  entries contents lo (S hi)
    = entries contents lo hi ++ [(Z.of_nat (S hi), default [] (contents !! S hi))].
Proof.
  intros. unfold entries. replace (S (S hi) - lo)%nat with (S (S hi - lo))%nat by lia.
  rewrite seq_S, fmap_app. simpl. do 3 f_equal; repeat f_equal; lia.
Qed.

Lemma entries_app contents x lo hi :
  (hi < length contents)%nat -> entries (contents ++ [x]) lo hi = entries contents lo hi.
Proof.
  intros Hhi. unfold entries. apply list_fmap_ext. intros i j Hj.
  assert (j ∈ seq lo (S hi - lo)) as Hin%elem_of_seq by (by eapply list_elem_of_lookup_2).
  by rewrite lookup_app_l by lia.
Qed.

Lemma newest_entries contents lo hi :
  (lo <= hi)%nat -> newest_seq (entries contents lo hi) = Z.of_nat hi.
Proof.
  intros. unfold newest_seq, entries.
  replace (S hi - lo)%nat with (S (hi - lo)) by lia.
  rewrite seq_S, fmap_app. simpl. rewrite last_snoc. simpl. lia.
Qed.

Lemma prune_cons floor s c rest :
  rest <> [] ->
  prune floor ((s, c) :: rest) = if floor <=? s then (s, c) :: rest else prune floor rest.
Proof. by destruct rest. Qed.

(** Pruning to a floor keeps a suffix that starts at the floor, and always the
    newest entry. *)
Lemma prune_entries contents lo hi floor :
  (lo <= hi)%nat -> exists lo', (lo <= lo' <= hi)%nat /\
    prune floor (entries contents lo hi) = entries contents lo' hi /\
    (Z.of_nat lo' <= floor \/ lo' = lo \/ Z.of_nat hi < floor).
Proof.
  intros Hle. remember (hi - lo)%nat as n eqn:En. revert lo Hle En.
  induction n as [|n IH]; intros lo Hle En.
  - exists lo. assert (lo = hi) as -> by lia. split; [lia|]. split; [|tauto].
    unfold entries. by replace (S hi - hi)%nat with 1%nat by lia.
  - assert (E : entries contents lo hi =
      (Z.of_nat lo, default [] (contents !! lo)) :: entries contents (S lo) hi).
    { unfold entries. by replace (S hi - lo)%nat with (S (S hi - S lo)) by lia. }
    rewrite E, prune_cons.
    2:{ unfold entries. by replace (S hi - S lo)%nat with (S n) by lia. }
    destruct (Z.leb_spec floor (Z.of_nat lo)).
    + exists lo. rewrite E. split; [lia|]. split; [done|tauto].
    + destruct (IH (S lo) ltac:(lia) ltac:(lia)) as (lo' & ? & -> & Hor).
      exists lo'. split; [lia|]. split; [done|]. lia.
Qed.

Lemma min_seq_le l m : min_seq l = Some m -> Forall (fun a => m <= a) l.
Proof.
  revert m. induction l as [|a l IH]; intros m; cbn [min_seq foldr]; [done|].
  fold (min_seq l). intros [= <-]. destruct (min_seq l) as [b|] eqn:E.
  - constructor; [lia|]. eapply Forall_impl; [by apply IH|]. simpl. lia.
  - constructor; [lia|]. destruct l; [constructor|done].
Qed.

Lemma min_seq_elem l m : min_seq l = Some m -> m ∈ l.
Proof.
  revert m. induction l as [|a l IH]; intros m; cbn [min_seq foldr]; [done|].
  fold (min_seq l). intros [= <-]. destruct (min_seq l) as [b|] eqn:E; [|by left].
  destruct (Z.min_spec a b) as [[? ->]|[? ->]]; [by left|right; by apply IH].
Qed.

(** ** Each operation implements its abstract counterpart *)

Lemma watch_new_rep c : watch_rep (watch_new c) (aw_new c).
Proof.
  split; cbn [watch_new aw_new rw_next_seq rw_history rw_pending rw_reads aw_contents aw_pinned
    aw_reads length].
  - done.
  - lia.
  - exists 0%nat. split; [done|]. split; [done|]. intros h off from H. by rewrite lookup_empty in H.
  - intros h s c' H. by rewrite lookup_empty in H.
  - intros i c' Hi Hc. destruct i; [lia|done].
  - intros h1 h2 s c1 c2 H. by rewrite lookup_empty in H.
  - by rewrite fmap_empty.
  - intros h off from H. by rewrite lookup_empty in H.
Qed.

Lemma watch_read_rep w a h off :
  watch_rep w a -> watch_rep (watch_read w h off) (aw_watch a h off).
Proof.
  intros [Hn Hp (lo & Hlo & Hh & Hfrom) Hpend Hun Hinj Hr Hf]. split; cbn; try done.
  - exists lo. split; [done|]. split; [done|]. intros h' off' from.
    rewrite lookup_insert_Some. intros [[_ [= <- <-]]|[_ ?]]; [done|eauto].
  - rewrite fmap_insert, Hh, newest_entries by done. by rewrite Hr.
  - intros h' off' from. rewrite lookup_insert_Some.
    intros [[_ [= <- <-]]|[_ ?]]; [done|eauto].
Qed.

Lemma begin_pending_rep w a h c :
  watch_rep w a -> rw_pending w !! h = None ->
  Z.of_nat (length (aw_contents a)) < u64_max ->
  watch_rep (begin_pending w h c) (aw_capture a c).
Proof.
  intros [Hn Hp (lo & Hlo & Hh & Hfrom) Hpend Hun Hinj Hr Hf] Hfree Hbound. split; cbn; try done.
  - rewrite length_app, Hn, u64_add_small by (unfold u64_max in *; simpl; lia). simpl. lia.
  - rewrite length_app. simpl. lia.
  - exists lo. rewrite entries_app by done. done.
  - intros h' s c'. rewrite lookup_insert_Some. intros [[_ [= <- <-]]|[_ Hx]].
    + exists (length (aw_contents a)). split; [done|]. split; [done|].
      by rewrite lookup_app_r, Nat.sub_diag by lia.
    + destruct (Hpend _ _ _ Hx) as (i & ? & ? & Hi). exists i. split_and!; try done.
      by apply lookup_app_l_Some.
  - intros i c' Hi. rewrite lookup_app_Some. intros [Hx|[Hl Hx]].
    + destruct (Hun i c' Hi Hx) as [h' Hh']. exists h'. rewrite lookup_insert_ne; [done|].
      intros ->. congruence.
    + exists h. destruct (i - length (aw_contents a))%nat as [|?] eqn:Ei; [|done].
      simpl in Hx. simplify_eq. rewrite Hn. assert (i = length (aw_contents a)) as -> by lia.
      apply lookup_insert_eq.
  - assert (Hnew : forall h' c', rw_pending w !! h' = Some (rw_next_seq w, c') -> False).
    { intros h' c' Hx. destruct (Hpend _ _ _ Hx) as (i & Ei & _ & Hi).
      apply lookup_lt_Some in Hi. lia. }
    intros h1 h2 s c1 c2. rewrite !lookup_insert_Some.
    intros [[<- [= <- <-]]|[? Hx]] [[<- E]|[? Hy]]; simplify_eq; try done;
      [by destruct (Hnew h2 c2)|by destruct (Hnew h1 c1)|by eapply Hinj].
Qed.

Lemma watch_commit_rep w a h c :
  watch_rep w a -> rw_pending w !! h = Some (Z.of_nat (S (aw_pinned a)), c) ->
  watch_rep (watch_commit w h) (aw_commit a).
Proof.
  intros [Hn Hp (lo & Hlo & Hh & Hfrom) Hpend Hun Hinj Hr Hf] Hhead. unfold watch_commit.
  rewrite Hhead. destruct (Hpend _ _ _ Hhead) as (i & Ei & _ & Hi).
  assert (i = S (aw_pinned a)) as -> by lia.
  assert (Hlt : (S (aw_pinned a) < length (aw_contents a))%nat) by (by eapply lookup_lt_Some).
  set (floor := default _ _).
  assert (E : rw_history w ++ [(Z.of_nat (S (aw_pinned a)), c)]
              = entries (aw_contents a) lo (S (aw_pinned a))).
  { rewrite entries_snoc by lia. by rewrite Hh, Hi. }
  destruct (prune_entries (aw_contents a) lo (S (aw_pinned a)) floor ltac:(lia))
    as (lo' & Hlo' & Hprune & Hor).
  split; cbn; try done.
  - exists lo'. split; [lia|]. rewrite E. split; [done|].
    intros h' off from Hread. pose proof (Hfrom _ _ _ Hread).
    assert (Hfloor : floor <= Z.of_nat from /\ floor <= Z.of_nat (S (aw_pinned a))).
    { unfold floor. assert (Hin : Z.of_nat from ∈
        rw_accept_from_seq <$> (map_to_list (rw_reads w)).*2).
      { apply list_elem_of_fmap. exists (mkReadWatch off (Z.of_nat from)). split; [done|].
        apply list_elem_of_fmap. exists (h', mkReadWatch off (Z.of_nat from)). split; [done|].
        apply elem_of_map_to_list. rewrite Hr, lookup_fmap, Hread. done. }
      destruct (min_seq _) as [m|] eqn:Em; simpl.
      - apply min_seq_le in Em. rewrite Forall_forall in Em. specialize (Em _ Hin).
        pose proof (Hf _ _ _ Hread). lia.
      - destruct (rw_accept_from_seq <$> _); [by apply not_elem_of_nil in Hin|done]. }
    lia.
  - intros h' s c'. rewrite lookup_delete_Some. intros [Hne Hx].
    destruct (Hpend _ _ _ Hx) as (i & -> & ? & Hc'). exists i. split; [done|]. split; [|done].
    destruct (decide (i = S (aw_pinned a))) as [->|]; [|lia].
    by destruct (Hne (Hinj _ _ _ _ _ Hhead Hx)).
  - intros i c' Hlt' Hc'. destruct (Hun i c' ltac:(lia) Hc') as [h' Hh']. exists h'.
    rewrite lookup_delete_ne; [done|]. intros ->. simplify_eq. lia.
  - intros h1 h2 s c1 c2. rewrite !lookup_delete_Some. intros [_ Hx] [_ Hy]. by eapply Hinj.
  - intros h' off from Hread. pose proof (Hf _ _ _ Hread). lia.
Qed.

Lemma drop_read_rep w a h : watch_rep w a -> watch_rep (drop_read w h) (aw_drop a h).
Proof.
  intros [Hn Hp (lo & Hlo & Hh & Hfrom) Hpend Hun Hinj Hr Hf]. split; cbn; try done.
  - exists lo. split; [done|]. split; [done|]. intros h' off from [_ ?]%lookup_delete_Some. eauto.
  - by rewrite Hr, fmap_delete.
  - intros h' off from [_ ?]%lookup_delete_Some. eauto.
Qed.

Section Verify.
Context (sha256 : bytes -> bytes).

Lemma verify_read_rep w a h off from region :
  watch_rep w a -> aw_reads a !! h = Some (off, from) ->
  (verify_read sha256 w h region).2 = drop_read w h /\
  ((verify_read sha256 w h region).1 = Ok tt <-> aw_accepts a from (sha256 region)).
Proof.
  intros [Hn Hp (lo & Hlo & Hh & Hfrom) Hpend Hun Hinj Hr Hf] Hread. unfold verify_read.
  rewrite Hr, lookup_fmap, Hread. cbn [fmap option_fmap option_map rw_accept_from_seq fst snd].
  split; [done|].
  set (fresh := _ || _). transitivity (fresh = true); [by destruct fresh|].
  unfold fresh. rewrite orb_true_iff, !existsb_exists. unfold aw_accepts. split.
  - intros [([s c] & Hin & Hok)|([s c] & Hin & Hok)];
      apply andb_true_iff in Hok as [Hle Hc%bool_decide_eq_true]; simpl in Hle, Hc; subst c;
      apply Z.leb_le in Hle; apply list_elem_of_In in Hin.
    + rewrite Hh in Hin. apply elem_of_entries in Hin as (i & -> & Hi & Hc); [|done].
      exists i. split; [lia|done].
    + apply list_elem_of_fmap in Hin as ([h' [s' c']] & [= -> ->] & Hin).
      apply elem_of_map_to_list in Hin. destruct (Hpend _ _ _ Hin) as (i & -> & _ & Hc).
      exists i. split; [lia|done].
  - intros (j & Hj & Hc). destruct (decide (j <= aw_pinned a)%nat).
    + left. exists (Z.of_nat j, sha256 region). split.
      * apply list_elem_of_In. rewrite Hh. apply elem_of_entries; [done|].
        pose proof (Hfrom _ _ _ Hread). exists j. split; [done|]. split; [lia|done].
      * rewrite bool_decide_true by done. simpl. lia.
    + right. destruct (Hun j _ ltac:(lia) Hc) as [h' Hh'].
      exists (Z.of_nat j, sha256 region). split.
      * apply list_elem_of_In, list_elem_of_fmap. exists (h', (Z.of_nat j, sha256 region)).
        split; [done|]. by apply elem_of_map_to_list.
      * rewrite bool_decide_true by done. simpl. lia.
Qed.
End Verify.

(** ** The watch as it is used *)

(** Runs of the watch next to its abstraction, as the proxies use it: a gated
    write's handle has no other pending entry, and pins complete in the order
    the writes were captured. *)
Inductive watch_run (boot : bytes) : RegionWatch -> AbsWatch -> Prop :=
| wr_new : watch_run boot (watch_new boot) (aw_new boot)
| wr_read w a h off :
    watch_run boot w a -> watch_run boot (watch_read w h off) (aw_watch a h off)
| wr_capture w a h c :
    watch_run boot w a -> rw_pending w !! h = None ->
    Z.of_nat (length (aw_contents a)) < u64_max ->
    watch_run boot (begin_pending w h c) (aw_capture a c)
| wr_commit w a h c :
    watch_run boot w a -> rw_pending w !! h = Some (Z.of_nat (S (aw_pinned a)), c) ->
    watch_run boot (watch_commit w h) (aw_commit a)
| wr_drop w a h :
    watch_run boot w a -> watch_run boot (drop_read w h) (aw_drop a h).

Lemma watch_run_rep boot w a : watch_run boot w a -> watch_rep w a.
Proof.
  induction 1; eauto using watch_new_rep, watch_read_rep, begin_pending_rep, watch_commit_rep,
    drop_read_rep.
Qed.

(** C33: the region watch is exact in spite of its pruning.  After any use of
    the watch, the reply to a watched read is accepted if and only if its
    region's digest is one of the contents the region was given at or after the
    newest one that was pinned when the read was issued: nothing older passes,
    and no content that is still possible was pruned away. *)
Theorem region_watch_is_exact (sha256 : bytes -> bytes) boot w a h off from region
    (Hrun : watch_run boot w a) (Hread : aw_reads a !! h = Some (off, from)) :
  read_payload_offset w h = Some off /\
  ((verify_read sha256 w h region).1 = Ok tt <->
   exists j, (from <= j)%nat /\ aw_contents a !! j = Some (sha256 region)).
Proof.
  apply watch_run_rep in Hrun. split.
  - unfold read_payload_offset. by rewrite (rep_reads w a Hrun), lookup_fmap, Hread.
  - by apply (verify_read_rep sha256 w a h off from region).
Qed.

Lemma region_watch_is_exact_witness :
  read_payload_offset (watch_commit (watch_read (begin_pending (watch_new [1]) 7 [2]) 9 512) 7) 9
    = Some 512 /\
  ((verify_read (fun l => l)
      (watch_commit (watch_read (begin_pending (watch_new [1]) 7 [2]) 9 512) 7) 9 [1]).1 = Ok tt <->
   exists j, (0 <= j)%nat /\ [[1]; [2]] !! j = Some [1]).
Proof.
  apply (region_watch_is_exact (fun l => l) [1]
           (watch_commit (watch_read (begin_pending (watch_new [1]) 7 [2]) 9 512) 7)
           (aw_commit (aw_watch (aw_capture (aw_new [1]) [2]) 9 512)) 9 512 0 [1]).
  - apply (wr_commit _ _ _ _ [2]); [|vm_compute; reflexivity].
    apply wr_read, wr_capture; [apply wr_new|vm_compute; reflexivity|vm_compute; reflexivity].
  - vm_compute. reflexivity.
Defined.

(** A read issued while a superblock write is in flight can be refused although
    the device is honest: the write's pin completes before the device applies
    it, the read is issued, and the device answers it first, with the content
    of before the write. *)
Lemma concurrent_read_can_be_refused :
  let w := watch_commit (begin_pending (watch_new [1]) 7 [2]) 7 in
  (verify_read (fun l => l) (watch_read w 9 0) 9 [1]).1 = Err tt.
Proof. vm_compute. reflexivity. Qed.
