(* ===== verification/Pump.v ===== *)
(** The running storage client with the anti-rollback wiring on: the request
    proxy ([request_proxy] of [nbd-client/src/main.rs]), the pin gate, the pin
    actor and the gated reply pump ([rollback.rs]), as concurrent tasks between
    the kernel and an untrusted host.

    [Sys] holds the shared objects (the read lengths in flight, the gate, the
    region watch), each task's position, the channels, and what the kernel
    knows; [step] has one rule per atomic action of a task.  A task's error is
    fail-stop: it has no step.  The host is arbitrary: it may send any reply at
    any time.  The kernel does not reuse the handle of a request that is
    outstanding, and drops a reply to a handle that is not; a reply is delivered
    to it when the pump writes it. *)
From stdpp Require Import gmap sets list list_numbers strings.
From S2P Require Import Prelude StateMachine Store Membership Identity Signing Attestation Chain ChainProofs Wire Service Nbd Client ClientProofs Watch.
#[local] Open Scope Z_scope.

(** ** The pin gate *)

Inductive PinStatus : Type :=
| PS_Pending
| PS_Ok
| PS_Failed (reason : PinError).

Abbreviation PinGate := (gmap Z PinStatus).

Inductive GateCheck : Type :=
| GC_NotGated
| GC_Hold
| GC_Pass
| GC_Fail (reason : PinError).

Definition gate_new : PinGate := ∅.
Definition gate_begin (g : PinGate) (handle : Z) : PinGate := <[handle := PS_Pending]> g.
Definition finish_ok (g : PinGate) (handle : Z) : PinGate := <[handle := PS_Ok]> g.
Definition finish_err (g : PinGate) (handle : Z) (reason : PinError) : PinGate :=
  <[handle := PS_Failed reason]> g.

Definition gate_check (g : PinGate) (handle : Z) : GateCheck * PinGate :=
  match g !! handle with
  | None => (GC_NotGated, g)
  | Some PS_Pending => (GC_Hold, g)
  | Some PS_Ok => (GC_Pass, delete handle g)
  | Some (PS_Failed reason) => (GC_Fail reason, g)
  end.

Record PinJob := mkPinJob { pj_handle : Z; pj_commitment : bytes }.

Inductive PumpError : Type :=
| PU_Nbd (e : NbdError)
| PU_PartialWrite
| PU_NoPayloadToPin (cmd : Z)
| PU_HostFailedWrite (error : Z)
| PU_PinFailed (reason : PinError)
| PU_Rollback
| PU_GateVanished (handle : Z).

(** ** The handlers *)

Record Shared := mkShared {
  sh_inflight : gmap Z Z;
  sh_gate : PinGate;
  sh_watch : RegionWatch;
}.

(** What [request_proxy] does with a header before forwarding it; the result
    holds the payload offset of a superblock to capture. *)
Definition request_accept (data_offset : Z) (sh : Shared) (r : RequestHeader)
    : result (Shared * option Z) PumpError :=
  let overlap := primary_sb_overlap (rq_offset r) (rq_length r) data_offset in
  if rq_type r =? NBD_CMD_READ then
    let inflight := <[rq_handle r := rq_length r]> (sh_inflight sh) in
    let watch := match overlap with
                 | SbFull off => watch_read (sh_watch sh) (rq_handle r) off
                 | _ => sh_watch sh
                 end in
    Ok (mkShared inflight (sh_gate sh) watch, None)
  else if rq_type r =? NBD_CMD_WRITE then
    match overlap with
    | SbNone => Ok (sh, None)
    | SbFull off =>
        Ok (mkShared (sh_inflight sh) (gate_begin (sh_gate sh) (rq_handle r)) (sh_watch sh),
            Some off)
    | SbPartial => Err PU_PartialWrite
    end
  else if (rq_type r =? NBD_CMD_TRIM) || (rq_type r =? NBD_CMD_WRITE_ZEROES) then
    match overlap with
    | SbNone => Ok (sh, None)
    | _ => Err (PU_NoPayloadToPin (rq_type r))
    end
  else Ok (sh, None).

(** What the pump does with a reply header. *)
Inductive ReplyAct : Type :=
| RA_Forward (payload_len : Z)          (* the header, then that many bytes *)
| RA_Verify (handle len off : Z)        (* a watched read: verify its payload first *)
| RA_Park (handle : Z).                 (* hold the reply *)

Definition reply_accept (sh : Shared) (header : bytes) : result (ReplyAct * Shared) PumpError :=
  let? r := map_err PU_Nbd (parse_reply header) in
  let handle := rp_handle r in
  match sh_inflight sh !! handle with
  | Some len =>
      let sh := mkShared (delete handle (sh_inflight sh)) (sh_gate sh) (sh_watch sh) in
      match read_payload_offset (sh_watch sh) handle with
      | Some off =>
          if negb (rp_error r =? 0)
          then Ok (RA_Forward 0,
                   mkShared (sh_inflight sh) (sh_gate sh) (drop_read (sh_watch sh) handle))
          else Ok (RA_Verify handle len off, sh)
      | None => Ok (RA_Forward (if rp_error r =? 0 then len else 0), sh)
      end
  | None =>
      let (check, gate) := gate_check (sh_gate sh) handle in
      let sh := mkShared (sh_inflight sh) gate (sh_watch sh) in
      match check with
      | GC_NotGated => Ok (RA_Forward 0, sh)
      | GC_Pass =>
          if negb (rp_error r =? 0) then Err (PU_HostFailedWrite (rp_error r))
          else Ok (RA_Forward 0, sh)
      | GC_Hold =>
          if negb (rp_error r =? 0) then Err (PU_HostFailedWrite (rp_error r))
          else Ok (RA_Park handle, sh)
      | GC_Fail reason => Err (PU_PinFailed reason)
      end
  end.

(** ** The kernel's side *)

Inductive KReq : Type :=
| K_Read (acked : list nat) (region_at : option Z)
    (* the superblock writes acknowledged when it was issued, and where its
       payload holds the whole region *)
| K_Superblock (index : nat)
| K_Other.

Record Kernel := mkKernel {
  k_out : gmap Z KReq;               (* outstanding requests *)
  k_writes : list bytes;             (* commitments of the superblock writes issued *)
  k_acked : list nat;                (* superblock writes seen acknowledged *)
  k_read : list (list nat * bytes);  (* whole regions read, with [acked] at issue *)
}.

Section Pump.
Context (sha256 : bytes -> bytes) (data_offset : Z).

Definition region_of (payload : bytes) (off : Z) : bytes :=
  slice payload (Z.to_nat off) (Z.to_nat (off + SB_REGION_LEN)).

Definition kernel_issue (k : Kernel) (r : RequestHeader) (payload : bytes) : Kernel :=
  let overlap := primary_sb_overlap (rq_offset r) (rq_length r) data_offset in
  let '(req, writes) :=
    if rq_type r =? NBD_CMD_READ
    then (K_Read (k_acked k) (match overlap with SbFull off => Some off | _ => None end),
          k_writes k)
    else if rq_type r =? NBD_CMD_WRITE
    then match overlap with
         | SbFull off => (K_Superblock (length (k_writes k)),
                          k_writes k ++ [sha256 (region_of payload off)])
         | _ => (K_Other, k_writes k)
         end
    else (K_Other, k_writes k) in
  mkKernel (<[rq_handle r := req]> (k_out k)) writes (k_acked k) (k_read k).

Definition kernel_receive (k : Kernel) (header payload : bytes) : Kernel :=
  match parse_reply header with
  | Err _ => k
  | Ok r =>
      let out := delete (rp_handle r) (k_out k) in
      match k_out k !! rp_handle r with
      | None => k
      | Some (K_Superblock i) =>
          mkKernel out (k_writes k)
            (if rp_error r =? 0 then k_acked k ++ [i] else k_acked k) (k_read k)
      | Some (K_Read acked (Some off)) =>
          mkKernel out (k_writes k) (k_acked k)
            (if rp_error r =? 0 then k_read k ++ [(acked, region_of payload off)]
             else k_read k)
      | Some _ => mkKernel out (k_writes k) (k_acked k) (k_read k)
      end
  end.

(** [flush_stashed], over the stashed handles in the given order. *)
Fixpoint flush_stashed (handles : list Z) (stashed : gmap Z bytes) (gate : PinGate)
    (k : Kernel) : result (gmap Z bytes * PinGate * Kernel) PumpError :=
  match handles with
  | [] => Ok (stashed, gate, k)
  | handle :: handles =>
      let (check, gate) := gate_check gate handle in
      match check with
      | GC_Hold => flush_stashed handles stashed gate k
      | GC_Pass =>
          match stashed !! handle with
          | Some hdr =>
              flush_stashed handles (delete handle stashed) gate (kernel_receive k hdr [])
          | None => Err (PU_GateVanished handle)
          end
      | GC_Fail reason => Err (PU_PinFailed reason)
      | GC_NotGated => Err (PU_GateVanished handle)
      end
  end.

(** ** Tasks *)

Inductive ReqTask : Type :=
| RQ_Idle
| RQ_Forwarding (handle off : Z) (payload : bytes)  (* header sent, payload next *)
| RQ_Captured (handle : Z) (commitment : bytes)     (* payload sent, job not queued *)
| RQ_Closed.

Inductive ActorTask : Type :=
| AC_Idle
| AC_Pinning (job : PinJob)
| AC_Pinned (job : PinJob)       (* the pin returned *)
| AC_Committed (job : PinJob)    (* the watch knows *)
| AC_Failed (job : PinJob).

Inductive ReplyTask : Type :=
| RP_Idle
| RP_Payload (header : bytes) (handle len off : Z).

Context {S : Type} `{BootOracle S} `{Reconnect S} `{Clock S}.

Record Sys := mkSys {
  s_shared : Shared;
  s_request : ReqTask;
  s_queue : list PinJob;
  s_actor : ActorTask;
  s_pinner : SyncPinner S;
  s_reply : ReplyTask;
  s_stashed : gmap Z bytes;
  s_nudges : nat;
  s_kernel : Kernel;
  s_pins : list (bytes * S);   (* pins that returned, with the oracle then *)
}.

Definition PIN_QUEUE_CAPACITY : nat := 64.

(** Where the request proxy goes after a header. *)
Definition after_header (r : RequestHeader) (payload : bytes) (capture : option Z) : ReqTask :=
  if (rq_type r =? NBD_CMD_WRITE) && (0 <? rq_length r)
  then match capture with
       | Some off => RQ_Forwarding (rq_handle r) off payload
       | None => RQ_Idle
       end
  else if rq_type r =? NBD_CMD_DISC then RQ_Closed else RQ_Idle.

Definition with_watch (sh : Shared) (w : RegionWatch) : Shared :=
  mkShared (sh_inflight sh) (sh_gate sh) w.
Definition with_gate (sh : Shared) (g : PinGate) : Shared :=
  mkShared (sh_inflight sh) g (sh_watch sh).

Definition actor_failed (a : ActorTask) : bool :=
  match a with AC_Failed _ => true | _ => false end.

Inductive step : Sys -> Sys -> Prop :=
(** [request_proxy]: a header arrives and is forwarded. *)
| S_request sh q ac pn rp st nd k pins r payload sh' capture :
    k_out k !! rq_handle r = None ->
    0 <= rq_offset r -> 0 <= rq_length r < 2 ^ 32 ->
    (rq_type r = NBD_CMD_WRITE -> Z.of_nat (length payload) = rq_length r) ->
    request_accept data_offset sh r = Ok (sh', capture) ->
    step (mkSys sh RQ_Idle q ac pn rp st nd k pins)
         (mkSys sh' (after_header r payload capture) q ac pn rp st nd
            (kernel_issue k r payload) pins)
(** [forward_bytes_extract], its callback registering the captured region. *)
| S_capture sh h off payload q ac pn rp st nd k pins region cp captured at_ :
    forward_bytes_extract payload [] (Z.of_nat (length payload)) off SB_REGION_LEN
      = (Ok region, cp) ->
    cp_fired cp = Some (captured, at_) ->
    step (mkSys sh (RQ_Forwarding h off payload) q ac pn rp st nd k pins)
         (mkSys (with_watch sh (begin_pending (sh_watch sh) h (sha256 captured)))
            (RQ_Captured h (sha256 region)) q ac pn rp st nd k pins)
(** The job is queued, when the channel has room and the actor lives. *)
| S_enqueue sh h c q ac pn rp st nd k pins :
    (length q < PIN_QUEUE_CAPACITY)%nat -> actor_failed ac = false ->
    step (mkSys sh (RQ_Captured h c) q ac pn rp st nd k pins)
         (mkSys sh RQ_Idle (q ++ [mkPinJob h c]) ac pn rp st nd k pins)
(** [pin_actor]. *)
| S_take sh rq job q pn rp st nd k pins :
    step (mkSys sh rq (job :: q) AC_Idle pn rp st nd k pins)
         (mkSys sh rq q (AC_Pinning job) pn rp st nd k pins)
| S_pinned sh rq q job pn rp st nd k pins pn' :
    pinner_pin pn (pj_commitment job) = Some (Ok tt, pn') ->
    step (mkSys sh rq q (AC_Pinning job) pn rp st nd k pins)
         (mkSys sh rq q (AC_Pinned job) pn' rp st nd k
            (pins ++ [(pj_commitment job, sp_client pn')]))
| S_commit sh rq q job pn rp st nd k pins :
    step (mkSys sh rq q (AC_Pinned job) pn rp st nd k pins)
         (mkSys (with_watch sh (watch_commit (sh_watch sh) (pj_handle job))) rq q
            (AC_Committed job) pn rp st nd k pins)
| S_finish_ok sh rq q job pn rp st nd k pins :
    step (mkSys sh rq q (AC_Committed job) pn rp st nd k pins)
         (mkSys (with_gate sh (finish_ok (sh_gate sh) (pj_handle job))) rq q AC_Idle pn rp st
            (Datatypes.S nd) k pins)
| S_finish_err sh rq q job pn rp st nd k pins e pn' :
    pinner_pin pn (pj_commitment job) = Some (Err e, pn') ->
    step (mkSys sh rq q (AC_Pinning job) pn rp st nd k pins)
         (mkSys (with_gate sh (finish_err (sh_gate sh) (pj_handle job) e)) rq q
            (AC_Failed job) pn' rp st (Datatypes.S nd) k pins)
(** [gated_reply_proxy]: a header from the host. *)
| S_forward sh rq q ac pn st nd k pins header payload len sh' :
    reply_accept sh header = Ok (RA_Forward len, sh') ->
    Z.of_nat (length payload) = len ->
    step (mkSys sh rq q ac pn RP_Idle st nd k pins)
         (mkSys sh' rq q ac pn RP_Idle st nd (kernel_receive k header payload) pins)
| S_verify sh rq q ac pn st nd k pins header h len off sh' :
    reply_accept sh header = Ok (RA_Verify h len off, sh') ->
    step (mkSys sh rq q ac pn RP_Idle st nd k pins)
         (mkSys sh' rq q ac pn (RP_Payload header h len off) st nd k pins)
| S_payload sh rq q ac pn st nd k pins header h len off payload w' :
    Z.of_nat (length payload) = len ->
    verify_read sha256 (sh_watch sh) h (region_of payload off) = (Ok tt, w') ->
    step (mkSys sh rq q ac pn (RP_Payload header h len off) st nd k pins)
         (mkSys (with_watch sh w') rq q ac pn RP_Idle st nd
            (kernel_receive k header payload) pins)
| S_park sh rq q ac pn st nd k pins header h sh' :
    reply_accept sh header = Ok (RA_Park h, sh') ->
    step (mkSys sh rq q ac pn RP_Idle st nd k pins)
         (mkSys sh' rq q ac pn RP_Idle (<[h := header]> st) nd k pins)
(** A nudge while the pump waits for a header. *)
| S_nudge sh rq q ac pn st nd k pins order st' gate' k' :
    order ≡ₚ (map_to_list st).*1 ->
    flush_stashed order st (sh_gate sh) k = Ok (st', gate', k') ->
    step (mkSys sh rq q ac pn RP_Idle st (Datatypes.S nd) k pins)
         (mkSys (with_gate sh gate') rq q ac pn RP_Idle st' nd k' pins).

(** The client as [run] starts it after a successful boot. *)
Definition started (b : BootResult S) : Sys :=
  mkSys (mkShared ∅ gate_new (watch_new (br_commitment b))) RQ_Idle [] AC_Idle (into_pinner b)
    RP_Idle ∅ 0 (mkKernel ∅ [] [] []) [].

Definition reachable (b : BootResult S) (s : Sys) : Prop := rtc step (started b) s.
End Pump.
