(* ===== verification/PumpProofs.v ===== *)
(** Safety of the running storage client, by invariants over its steps. *)
From stdpp Require Import gmap sets list list_numbers strings.
From S2P Require Import Prelude StateMachine Store Membership Identity Signing Attestation Chain ChainProofs Wire Service Nbd Client ClientProofs Watch Pump.
#[local] Open Scope Z_scope.

(** ** The gate and the writes in progress *)

(** [pipe] are the superblock writes whose pin is not released, oldest first,
    after [f] finished ones. *)
Record gate_inv (gate : PinGate) (k : Kernel) (pipe : list PinJob) (f : nat)
    (stash : gmap Z bytes) (nudges : nat) : Prop := {
  ga_pipe i j : pipe !! i = Some j ->
    k_out k !! pj_handle j = Some (K_Superblock (f + i)) /\
    k_writes k !! (f + i)%nat = Some (pj_commitment j) /\
    exists s, gate !! pj_handle j = Some s /\ s <> PS_Ok;
  ga_len : length (k_writes k) = (f + length pipe)%nat;
  ga_out h i : k_out k !! h = Some (K_Superblock i) ->
    ((i < f)%nat /\ gate !! h = Some PS_Ok) \/
    exists n j, i = (f + n)%nat /\ pipe !! n = Some j /\ pj_handle j = h;
  ga_gate h s : gate !! h = Some s -> exists i, k_out k !! h = Some (K_Superblock i);
  ga_acked i : i ∈ k_acked k -> (i < f)%nat;
  ga_stash h hdr : stash !! h = Some hdr -> parse_reply hdr = Ok (mkReplyHeader 0 h);
  ga_nudge h hdr : stash !! h = Some hdr -> gate !! h = Some PS_Ok -> (0 < nudges)%nat;
}.

Lemma pipe_injective gate k pipe f stash nudges n m j j' :
  gate_inv gate k pipe f stash nudges ->
  pipe !! n = Some j -> pipe !! m = Some j' -> pj_handle j = pj_handle j' -> n = m.
Proof.
  intros Hi Hn Hm Hh. destruct (ga_pipe _ _ _ _ _ _ Hi _ _ Hn) as (Ho & _).
  destruct (ga_pipe _ _ _ _ _ _ Hi _ _ Hm) as (Ho' & _). rewrite Hh, Ho' in Ho.
  simplify_eq. lia.
Qed.

(** The outstanding requests change at a handle that is not gated, and the
    superblock writes and acknowledgements stay. *)
Lemma gate_inv_ungated gate k k' pipe f stash nudges h :
  gate_inv gate k pipe f stash nudges ->
  gate !! h = None ->
  (forall h', h' <> h -> k_out k' !! h' = k_out k !! h') ->
  (forall i, k_out k' !! h <> Some (K_Superblock i)) ->
  k_writes k' = k_writes k -> k_acked k' = k_acked k ->
  gate_inv gate k' pipe f stash nudges.
Proof.
  intros Hi Hg Hout Hnot Hw Ha. split; rewrite ?Hw, ?Ha; try apply Hi.
  - intros i j Hj. destruct (ga_pipe _ _ _ _ _ _ Hi _ _ Hj) as (Ho & Hc & s & Hs & Hne).
    split_and!; [|done|eauto]. rewrite Hout; [done|]. congruence.
  - intros h' i Ho. destruct (decide (h' = h)) as [->|Hne]; [by destruct (Hnot i)|].
    rewrite Hout in Ho by done. by eapply ga_out.
  - intros h' s Hs. rewrite Hout; [by eapply ga_gate|]. congruence.
Qed.

(** A superblock write is issued. *)
Lemma gate_inv_issue gate k pipe f stash nudges h c :
  gate_inv gate k pipe f stash nudges -> k_out k !! h = None ->
  gate_inv (gate_begin gate h)
    (mkKernel (<[h := K_Superblock (length (k_writes k))]> (k_out k)) (k_writes k ++ [c])
       (k_acked k) (k_read k))
    (pipe ++ [mkPinJob h c]) f stash nudges.
Proof.
  intros Hi Hfree. pose proof (ga_len _ _ _ _ _ _ Hi) as Hlen.
  assert (Hgate : gate !! h = None).
  { destruct (gate !! h) eqn:E; [|done]. destruct (ga_gate _ _ _ _ _ _ Hi _ _ E). congruence. }
  unfold gate_begin. split; cbn.
  - intros i j Hj. apply lookup_app_Some in Hj as [Hj|[Hge Hj]].
    + destruct (ga_pipe _ _ _ _ _ _ Hi _ _ Hj) as (Ho & Hc & s & Hs & Hne).
      rewrite lookup_insert_ne by congruence.
      split_and!; [done|by apply lookup_app_l_Some|].
      exists s. by rewrite lookup_insert_ne by congruence.
    + destruct (i - length pipe)%nat eqn:Ei; [|done]. simpl in Hj. simplify_eq. cbn.
      rewrite !lookup_insert_eq, Hlen. assert (i = length pipe) as -> by lia.
      split_and!; [done| |by exists PS_Pending]. rewrite <- Hlen.
      by rewrite lookup_app_r, Nat.sub_diag by lia.
  - rewrite !length_app. simpl. lia.
  - intros h' i. rewrite lookup_insert_Some. intros [[<- [= <-]]|[Hne Ho]].
    + right. exists (length pipe), (mkPinJob h c). split_and!; [done| |done].
      by rewrite lookup_app_r, Nat.sub_diag by lia.
    + destruct (ga_out _ _ _ _ _ _ Hi _ _ Ho) as [[? ?]|(n & j & ? & Hn & ?)].
      * left. by rewrite lookup_insert_ne.
      * right. exists n, j. split_and!; [done| |done]. by apply lookup_app_l_Some.
  - intros h' s. rewrite lookup_insert_Some. intros [[<- <-]|[Hne Hs]].
    + rewrite lookup_insert_eq. eauto.
    + rewrite lookup_insert_ne by done. by eapply ga_gate.
  - intros i Hin. by eapply ga_acked.
  - intros h' hdr Hst. by eapply ga_stash.
  - intros h' hdr Hst. rewrite lookup_insert_Some. intros [[_ [=]]|[_ ?]].
    by eapply ga_nudge.
Qed.

(** The oldest pin is released. *)
Lemma gate_inv_finish gate k job pipe f stash nudges :
  gate_inv gate k (job :: pipe) f stash nudges ->
  gate_inv (finish_ok gate (pj_handle job)) k pipe (S f) stash (S nudges).
Proof.
  intros Hi. destruct (ga_pipe _ _ _ _ _ _ Hi 0 job eq_refl) as (Ho0 & _ & s0 & Hs0 & _).
  rewrite Nat.add_0_r in Ho0. unfold finish_ok. split.
  - intros i j Hj.
    destruct (ga_pipe _ _ _ _ _ _ Hi (S i) j Hj) as (Ho & Hc & s & Hs & Hne).
    replace (S f + i)%nat with (f + S i)%nat by lia. split_and!; [done|done|].
    exists s. split; [|done]. rewrite lookup_insert_ne; [done|].
    intros E. pose proof (pipe_injective _ _ _ _ _ _ 0 (S i) job j Hi eq_refl Hj E). lia.
  - pose proof (ga_len _ _ _ _ _ _ Hi) as E. simpl in E. lia.
  - intros h i Ho. destruct (ga_out _ _ _ _ _ _ Hi _ _ Ho) as [[Hlt Hg]|(n & j & -> & Hn & <-)].
    + left. split; [lia|]. destruct (decide (h = pj_handle job)) as [->|];
        [by rewrite lookup_insert_eq|by rewrite lookup_insert_ne].
    + destruct n as [|n]; simpl in Hn.
      * left. simplify_eq. split; [lia|]. by rewrite lookup_insert_eq.
      * right. exists n, j. split_and!; [lia|done|done].
  - intros h s. rewrite lookup_insert_Some. intros [[<- _]|[_ ?]]; [eauto|by eapply ga_gate].
  - intros i Hin. pose proof (ga_acked _ _ _ _ _ _ Hi i Hin). lia.
  - intros h hdr Hst. by eapply ga_stash.
  - lia.
Qed.

(** The oldest pin fails. *)
Lemma gate_inv_fail gate k job pipe f stash nudges e :
  gate_inv gate k (job :: pipe) f stash nudges ->
  gate_inv (finish_err gate (pj_handle job) e) k (job :: pipe) f stash (S nudges).
Proof.
  intros Hi. destruct (ga_pipe _ _ _ _ _ _ Hi 0 job eq_refl) as (Ho0 & _ & s0 & Hs0 & _).
  unfold finish_err. split; try apply Hi.
  - intros i j Hj. destruct (ga_pipe _ _ _ _ _ _ Hi i j Hj) as (Ho & Hc & s & Hs & Hne).
    split_and!; [done|done|]. destruct (decide (pj_handle j = pj_handle job)) as [->|];
      [rewrite lookup_insert_eq|rewrite lookup_insert_ne by done]; eauto.
  - intros h i Ho. destruct (ga_out _ _ _ _ _ _ Hi _ _ Ho) as [[Hlt Hg]|?]; [|by right].
    left. split; [done|]. rewrite lookup_insert_ne; [done|]. intros <-.
    rewrite Ho in Ho0. simplify_eq. lia.
  - intros h s. rewrite lookup_insert_Some. intros [[<- _]|[_ ?]]; [eauto|by eapply ga_gate].
  - lia.
Qed.

(** The reply of a finished write is released: the kernel sees it
    acknowledged. *)
Lemma gate_inv_pass gate k k' pipe f stash nudges h :
  gate_inv gate k pipe f stash nudges -> gate !! h = Some PS_Ok ->
  (exists i, k_out k !! h = Some (K_Superblock i) /\ k_acked k' = k_acked k ++ [i]) ->
  k_out k' = delete h (k_out k) -> k_writes k' = k_writes k ->
  gate_inv (delete h gate) k' pipe f stash nudges.
Proof.
  intros Hi Hg (i0 & Ho0 & Ha) Hout Hw.
  assert (Hi0 : (i0 < f)%nat).
  { destruct (ga_out _ _ _ _ _ _ Hi _ _ Ho0) as [[? _]|(n & j & _ & Hj & <-)]; [done|].
    destruct (ga_pipe _ _ _ _ _ _ Hi _ _ Hj) as (_ & _ & s & Hs & Hne). congruence. }
  split; rewrite ?Hout, ?Hw, ?Ha.
  - intros i j Hj. destruct (ga_pipe _ _ _ _ _ _ Hi _ _ Hj) as (Ho & Hc & s & Hs & Hne).
    rewrite lookup_delete_ne by congruence. split_and!; [done|done|].
    exists s. by rewrite lookup_delete_ne by congruence.
  - apply Hi.
  - intros h' i [Hne Ho]%lookup_delete_Some.
    destruct (ga_out _ _ _ _ _ _ Hi _ _ Ho) as [[? ?]|?]; [left|by right].
    by rewrite lookup_delete_ne.
  - intros h' s [Hne Hs]%lookup_delete_Some. rewrite lookup_delete_ne by done.
    by eapply ga_gate.
  - intros i [Hin| ->%list_elem_of_singleton]%elem_of_app; [by eapply ga_acked|done].
  - apply Hi.
  - intros h' hdr Hst [Hne Hg']%lookup_delete_Some. by eapply ga_nudge.
Qed.

(** A held reply is parked. *)
Lemma gate_inv_park gate k pipe f stash nudges h hdr :
  gate_inv gate k pipe f stash nudges -> gate !! h = Some PS_Pending ->
  parse_reply hdr = Ok (mkReplyHeader 0 h) ->
  gate_inv gate k pipe f (<[h := hdr]> stash) nudges.
Proof.
  intros Hi Hg Hp. split; try apply Hi.
  - intros h' hdr'. rewrite lookup_insert_Some. intros [[<- <-]|[_ ?]]; [done|].
    by eapply ga_stash.
  - intros h' hdr'. rewrite lookup_insert_Some. intros [[<- <-]|[_ ?]]; [congruence|].
    by eapply ga_nudge.
Qed.

(** ** Reads *)

Record read_inv (sha256 : bytes -> bytes) (boot : bytes) (inflight : gmap Z Z) (k : Kernel)
    (aw : AbsWatch) (rp : ReplyTask) : Prop := {
  rd_inflight h len : inflight !! h = Some len ->
    exists acked at_, k_out k !! h = Some (K_Read acked at_);
  rd_out h acked at_ : k_out k !! h = Some (K_Read acked at_) ->
    is_Some (inflight !! h) \/ exists header len off, rp = RP_Payload header h len off;
  rd_watch h off from : aw_reads aw !! h = Some (off, from) ->
    exists acked, k_out k !! h = Some (K_Read acked (Some off)) /\
      forall i, i ∈ acked -> (i < from)%nat;
  rd_cover h acked off : k_out k !! h = Some (K_Read acked (Some off)) ->
    exists from, aw_reads aw !! h = Some (off, from);
  rd_task header h len off : rp = RP_Payload header h len off ->
    parse_reply header = Ok (mkReplyHeader 0 h) /\ inflight !! h = None /\
    exists from, aw_reads aw !! h = Some (off, from);
  rd_done acked region : (acked, region) ∈ k_read k ->
    exists j, (boot :: k_writes k) !! j = Some (sha256 region) /\
      forall i, i ∈ acked -> (i < j)%nat;
}.

Definition not_read (r : option KReq) : Prop := forall a o, r <> Some (K_Read a o).

(** The outstanding requests change at a handle that is no read's; superblock
    writes may be added. *)
Lemma read_inv_other sha256 boot inflight k k' aw rp h :
  read_inv sha256 boot inflight k aw rp ->
  (forall h', h' <> h -> k_out k' !! h' = k_out k !! h') ->
  not_read (k_out k !! h) -> not_read (k_out k' !! h) ->
  k_writes k `prefix_of` k_writes k' -> k_read k' = k_read k ->
  read_inv sha256 boot inflight k' aw rp.
Proof.
  intros Hi Hout Hn Hn' Hw Hr.
  assert (Hsame : forall h' a o, k_out k !! h' = Some (K_Read a o) <->
                                 k_out k' !! h' = Some (K_Read a o)).
  { intros h' a o. destruct (decide (h' = h)) as [->|Hne]; [|by rewrite Hout].
    split; intros E; [by destruct (Hn a o)|by destruct (Hn' a o)]. }
  split; try apply Hi.
  - intros h' len Hl. destruct (rd_inflight _ _ _ _ _ _ Hi _ _ Hl) as (a & o & E).
    exists a, o. by apply Hsame.
  - intros h' a o Ho. apply Hsame in Ho. by eapply rd_out.
  - intros h' off from Hl. destruct (rd_watch _ _ _ _ _ _ Hi _ _ _ Hl) as (a & E & ?).
    exists a. split; [by apply Hsame|done].
  - intros h' a off Ho. apply Hsame in Ho. by eapply rd_cover.
  - intros a region. rewrite Hr. intros Hin.
    destruct (rd_done _ _ _ _ _ _ Hi _ _ Hin) as (j & Hj & Hlt). exists j. split; [|done].
    destruct j; [done|]. simpl in *. by eapply prefix_lookup_Some.
Qed.

(** Only the abstract watch's contents or pinned count change. *)
Lemma read_inv_watch sha256 boot inflight k aw aw' rp :
  read_inv sha256 boot inflight k aw rp -> aw_reads aw' = aw_reads aw ->
  read_inv sha256 boot inflight k aw' rp.
Proof. intros [] E. split; rewrite ?E; done. Qed.

(** A read is issued; it is watched if it covers the region. *)
Lemma read_inv_issue sha256 boot inflight k aw rp h len (at_ : option Z) :
  read_inv sha256 boot inflight k aw rp -> k_out k !! h = None ->
  (forall i, i ∈ k_acked k -> (i < aw_pinned aw)%nat) ->
  read_inv sha256 boot (<[h := len]> inflight)
    (mkKernel (<[h := K_Read (k_acked k) at_]> (k_out k)) (k_writes k) (k_acked k) (k_read k))
    (match at_ with Some off => aw_watch aw h off | None => aw end) rp.
Proof.
  intros Hi Hfree Hacked.
  assert (Hnone : aw_reads aw !! h = None).
  { destruct (aw_reads aw !! h) as [[off from]|] eqn:E; [|done].
    destruct (rd_watch _ _ _ _ _ _ Hi _ _ _ E) as (a & ? & _). congruence. }
  assert (Hreads : forall h' off from,
    aw_reads (match at_ with Some off => aw_watch aw h off | None => aw end) !! h'
      = Some (off, from) <->
    (h' <> h /\ aw_reads aw !! h' = Some (off, from)) \/
    (h' = h /\ at_ = Some off /\ from = aw_pinned aw)).
  { intros h' off from. destruct at_ as [off0|]; cbn.
    - rewrite lookup_insert_Some. naive_solver.
    - naive_solver. }
  split; cbn.
  - intros h' len' [[<- _]|[Hne Hl]]%lookup_insert_Some; [rewrite lookup_insert_eq; eauto|].
    rewrite lookup_insert_ne by done. by eapply rd_inflight.
  - intros h' a o. rewrite lookup_insert_Some. intros [[<- _]|[Hne Ho]].
    + left. rewrite lookup_insert_eq. eauto.
    + rewrite lookup_insert_ne by done. by eapply rd_out.
  - intros h' off from [[Hne Hl]|(-> & -> & ->)]%Hreads.
    + rewrite lookup_insert_ne by done. by eapply rd_watch.
    + exists (k_acked k). by rewrite lookup_insert_eq.
  - intros h' a off. rewrite lookup_insert_Some. intros [[<- [= <- ->]]|[Hne Ho]].
    + exists (aw_pinned aw). apply Hreads. by right.
    + destruct (rd_cover _ _ _ _ _ _ Hi _ _ _ Ho) as [from Hf]. exists from. apply Hreads.
      by left.
  - intros header h' len' off ->. destruct (rd_task _ _ _ _ _ _ Hi _ _ _ _ eq_refl)
      as (? & ? & from & Hf). rewrite lookup_insert_ne by congruence. split_and!; [done|done|].
    exists from. apply Hreads. left. split; [congruence|done].
  - intros a region Hin. by eapply rd_done.
Qed.

(** A read is answered: it leaves the tables, and what the kernel got is fresh
    if it covers the region. *)
Lemma read_inv_answer sha256 boot inflight k k' aw rp h :
  read_inv sha256 boot inflight k aw rp ->
  (rp = RP_Idle \/ exists header len off, rp = RP_Payload header h len off) ->
  k_out k' = delete h (k_out k) -> k_writes k' = k_writes k ->
  (forall acked region, (acked, region) ∈ k_read k' ->
     (acked, region) ∈ k_read k \/
     exists j, (boot :: k_writes k) !! j = Some (sha256 region) /\
       forall i, i ∈ acked -> (i < j)%nat) ->
  read_inv sha256 boot (delete h inflight) k' (aw_drop aw h) RP_Idle.
Proof.
  intros Hi Hrp Hout Hw Hr. split; rewrite ?Hout, ?Hw; cbn.
  - intros h' len [Hne Hl]%lookup_delete_Some. rewrite lookup_delete_ne by done.
    by eapply rd_inflight.
  - intros h' a o [Hne Ho]%lookup_delete_Some. rewrite lookup_delete_ne by done.
    destruct (rd_out _ _ _ _ _ _ Hi _ _ _ Ho) as [?|(header & len & off & ->)]; [by left|].
    destruct Hrp as [|(? & ? & ? & ?)]; simplify_eq.
  - intros h' off from [Hne Hl]%lookup_delete_Some. rewrite lookup_delete_ne by done.
    by eapply rd_watch.
  - intros h' a off [Hne Ho]%lookup_delete_Some.
    rewrite lookup_delete_ne by done. by eapply rd_cover.
  - done.
  - intros a region [Hin|?]%Hr; [by eapply rd_done|done].
Qed.

(** ** The invariant of the system *)

Section Safety.
Context (sha256 : bytes -> bytes) (data_offset : Z) (Hfit : region_fits data_offset).
Context {S : Type} `{BootOracle S} (slot : S -> PcrKey -> option (Commitment * Version)).
Context `{!BootOracleLaws S slot} `{Reconnect S} `{Clock S}.

Abbreviation step := (Pump.step (S := S) sha256 data_offset).

Definition actor_jobs (a : ActorTask) : list PinJob :=
  match a with
  | AC_Idle => []
  | AC_Pinning j | AC_Pinned j | AC_Committed j | AC_Failed j => [j]
  end.
Definition request_jobs (r : ReqTask) : list PinJob :=
  match r with
  | RQ_Forwarding h off payload => [mkPinJob h (sha256 (region_of payload off))]
  | RQ_Captured h c => [mkPinJob h c]
  | _ => []
  end.
Definition pipeline (r : ReqTask) (q : list PinJob) (a : ActorTask) : list PinJob :=
  actor_jobs a ++ q ++ request_jobs r.

(** Of the pipeline: pins returned, pins known to the watch, writes whose
    payload is not captured. *)
Definition returned (a : ActorTask) : nat :=
  match a with AC_Pinned _ | AC_Committed _ => 1 | _ => 0 end.
Definition committed (a : ActorTask) : nat := match a with AC_Committed _ => 1 | _ => 0 end.
Definition uncaptured (r : ReqTask) : nat := match r with RQ_Forwarding _ _ _ => 1 | _ => 0 end.

Record watch_inv (boot : bytes) (w : RegionWatch) (aw : AbsWatch) (pipe : list PinJob)
    (f c u : nat) (writes : list bytes) : Prop := {
  wa_rep : watch_rep w aw;
  wa_contents : aw_contents aw = boot :: take (f + length pipe - u) writes;
  wa_pinned : aw_pinned aw = (f + c)%nat;
  wa_pending h s x : rw_pending w !! h = Some (s, x) ->
    exists n j, pipe !! n = Some j /\ pj_handle j = h /\ s = Z.of_nat (f + n + 1);
}.

Record pins_inv (key : PcrKey) (pins : list (bytes * S)) (pn : SyncPinner S)
    (f c : nat) (writes : list bytes) : Prop := {
  pi_len : length pins = (f + c)%nat;
  pi_pin i x o : pins !! i = Some (x, o) ->
    writes !! i = Some x /\ exists v, slot o key = Some (mkCommitment x, v);
  pi_key : sp_key pn = key;
}.

Record inv (b : BootResult S) (s : Sys) (f : nat) (aw : AbsWatch) : Prop := {
  in_gate : gate_inv (sh_gate (s_shared s)) (s_kernel s)
    (pipeline (s_request s) (s_queue s) (s_actor s)) f (s_stashed s) (s_nudges s);
  in_read : read_inv sha256 (br_commitment b) (sh_inflight (s_shared s)) (s_kernel s) aw
    (s_reply s);
  in_watch : watch_inv (br_commitment b) (sh_watch (s_shared s)) aw
    (pipeline (s_request s) (s_queue s) (s_actor s)) f (committed (s_actor s))
    (uncaptured (s_request s)) (k_writes (s_kernel s));
  in_pins : pins_inv (br_key b) (s_pins s) (s_pinner s) f (returned (s_actor s))
    (k_writes (s_kernel s));
  in_payload h off payload : s_request s = RQ_Forwarding h off payload ->
    0 <= off /\ off + SB_REGION_LEN <= Z.of_nat (length payload) < 2 ^ 32;
}.

Definition bounded (s : Sys (S := S)) : Prop :=
  Z.of_nat (length (k_writes (s_kernel s))) + 1 < u64_max.

Lemma started_inv b : inv b (started b) 0 (aw_new (br_commitment b)).
Proof.
  split; cbn.
  - split; cbn; try done; try set_solver.
  - split; cbn; try done; set_solver.
  - split; cbn; try done; apply watch_new_rep.
  - by split.
  - done.
Qed.

(** A request that is no superblock write leaves the watch side alone. *)
Lemma watch_inv_reads boot w aw pipe f c u writes w' aw' :
  watch_inv boot w aw pipe f c u writes -> watch_rep w' aw' ->
  aw_contents aw' = aw_contents aw -> aw_pinned aw' = aw_pinned aw ->
  rw_pending w' = rw_pending w ->
  watch_inv boot w' aw' pipe f c u writes.
Proof. intros [] Hrep Ec Ep Epend. split; rewrite ?Ec, ?Ep, ?Epend; done. Qed.

Lemma request_jobs_idle r payload : rq_type r <> NBD_CMD_WRITE ->
  request_jobs (after_header r payload None) = [] /\
  uncaptured (after_header r payload None) = 0%nat /\
  forall h off p, after_header r payload None <> RQ_Forwarding h off p.
Proof.
  intros Hne. unfold after_header. rewrite (proj2 (Z.eqb_neq _ _) Hne). simpl.
  by destruct (rq_type r =? NBD_CMD_DISC).
Qed.

(** A request that is neither a read nor a superblock write. *)
Lemma other_inv b sh q ac pn rp st nd k pins f aw h req :
  inv b (mkSys sh RQ_Idle q ac pn rp st nd k pins) f aw -> k_out k !! h = None ->
  request_jobs req = [] -> uncaptured req = 0%nat ->
  (forall h off p, req <> RQ_Forwarding h off p) ->
  inv b (mkSys sh req q ac pn rp st nd
           (mkKernel (<[h := K_Other]> (k_out k)) (k_writes k) (k_acked k) (k_read k)) pins) f aw.
Proof.
  intros [Hg Hr Hw Hp Hf] Hfree Hj Hu Hne. cbn in *.
  assert (Hpipe : pipeline req q ac = pipeline RQ_Idle q ac) by (unfold pipeline; by rewrite Hj).
  split; cbn; rewrite ?Hpipe, ?Hu; try done.
  - eapply (gate_inv_ungated _ _ _ _ _ _ _ h Hg); cbn; try done.
    + destruct (sh_gate sh !! h) eqn:E; [|done].
      destruct (ga_gate _ _ _ _ _ _ Hg _ _ E). congruence.
    + intros h' Hh'. by rewrite lookup_insert_ne.
    + intros i. by rewrite lookup_insert_eq.
  - eapply (read_inv_other _ _ _ _ _ _ _ h Hr); cbn; try done.
    + intros h' Hh'. by rewrite lookup_insert_ne.
    + intros a o. by rewrite Hfree.
    + intros a o. by rewrite lookup_insert_eq.
  - intros h' off payload E. by destruct (Hne h' off payload).
Qed.

Lemma read_request_inv b sh q ac pn rp st nd k pins f aw h len at_ :
  inv b (mkSys sh RQ_Idle q ac pn rp st nd k pins) f aw -> k_out k !! h = None ->
  inv b (mkSys (mkShared (<[h := len]> (sh_inflight sh)) (sh_gate sh)
                  (match at_ with Some off => watch_read (sh_watch sh) h off
                   | None => sh_watch sh end)) RQ_Idle q ac pn rp st nd
           (mkKernel (<[h := K_Read (k_acked k) at_]> (k_out k)) (k_writes k) (k_acked k)
              (k_read k)) pins) f
        (match at_ with Some off => aw_watch aw h off | None => aw end).
Proof.
  intros [Hg Hr Hw Hp Hf] Hfree. cbn in *.
  assert (Hacked : forall i, i ∈ k_acked k -> (i < aw_pinned aw)%nat).
  { intros i Hin. pose proof (ga_acked _ _ _ _ _ _ Hg i Hin).
    rewrite (wa_pinned _ _ _ _ _ _ _ _ Hw). lia. }
  split; cbn; try done.
  - eapply (gate_inv_ungated _ _ _ _ _ _ _ h Hg); cbn; try done.
    + destruct (sh_gate sh !! h) eqn:E; [|done].
      destruct (ga_gate _ _ _ _ _ _ Hg _ _ E). congruence.
    + intros h' Hh'. by rewrite lookup_insert_ne.
    + intros i. by rewrite lookup_insert_eq.
  - by apply read_inv_issue.
  - pose proof (wa_rep _ _ _ _ _ _ _ _ Hw) as Hrep.
    destruct at_ as [off|]; [|done].
    eapply watch_inv_reads; [done|by apply watch_read_rep|done|done|done].
Qed.

Lemma superblock_request_inv b sh q ac pn rp st nd k pins f aw h off payload :
  inv b (mkSys sh RQ_Idle q ac pn rp st nd k pins) f aw -> k_out k !! h = None ->
  0 <= off /\ off + SB_REGION_LEN <= Z.of_nat (length payload) < 2 ^ 32 ->
  inv b (mkSys (mkShared (sh_inflight sh) (gate_begin (sh_gate sh) h) (sh_watch sh))
           (RQ_Forwarding h off payload) q ac pn rp st nd
           (mkKernel (<[h := K_Superblock (length (k_writes k))]> (k_out k))
              (k_writes k ++ [sha256 (region_of payload off)]) (k_acked k) (k_read k)) pins) f aw.
Proof.
  intros [Hg Hr Hw Hp Hf] Hfree Hoff. cbn in *.
  set (job := mkPinJob h (sha256 (region_of payload off))).
  assert (Hpipe : pipeline (RQ_Forwarding h off payload) q ac = pipeline RQ_Idle q ac ++ [job]).
  { unfold pipeline. simpl. by rewrite app_nil_r, <- app_assoc. }
  pose proof (ga_len _ _ _ _ _ _ Hg) as Hlen.
  split; cbn [s_shared s_request s_queue s_actor s_stashed s_nudges s_kernel s_reply s_pins
    s_pinner sh_gate sh_inflight sh_watch k_writes uncaptured]; rewrite ?Hpipe.
  - by apply gate_inv_issue.
  - eapply (read_inv_other _ _ _ _ _ _ _ h Hr); cbn; try done.
    + intros h' Hh'. by rewrite lookup_insert_ne.
    + intros a o. by rewrite Hfree.
    + intros a o. by rewrite lookup_insert_eq.
    + by apply prefix_app_r.
  - destruct Hw as [Hrep Hc Hpin Hpend]. split; try done.
    + rewrite Hc. simpl uncaptured. rewrite length_app. simpl length. f_equal.
      rewrite take_app_le by lia. f_equal. lia.
    + intros h' s x Hx. destruct (Hpend _ _ _ Hx) as (n & j & Hn & ? & ?).
      exists n, j. split; [by apply lookup_app_l_Some|done].
  - destruct Hp as [Hl Hpi Hk]. split; try done. intros i x o Hx.
    destruct (Hpi _ _ _ Hx) as [? ?]. split; [by apply lookup_app_l_Some|done].
  - intros h' off' payload' [= -> -> ->]. done.
Qed.

Lemma request_inv b sh q ac pn rp st nd k pins f aw r payload sh' capture :
  inv b (mkSys sh RQ_Idle q ac pn rp st nd k pins) f aw -> k_out k !! rq_handle r = None ->
  0 <= rq_offset r -> 0 <= rq_length r < 2 ^ 32 ->
  (rq_type r = NBD_CMD_WRITE -> Z.of_nat (length payload) = rq_length r) ->
  request_accept data_offset sh r = Ok (sh', capture) ->
  exists aw', inv b (mkSys sh' (after_header r payload capture) q ac pn rp st nd
                       (kernel_issue sha256 data_offset k r payload) pins) f aw'.
Proof.
  intros Hi Hfree Ho Hl Hpay Hacc. unfold request_accept in Hacc. unfold kernel_issue.
  destruct (Z.eqb_spec (rq_type r) NBD_CMD_READ) as [Et|Hnr].
  - injection Hacc as <- <-.
    assert (after_header r payload None = RQ_Idle) as -> by
      (unfold after_header; by rewrite Et).
    set (at_ := match primary_sb_overlap _ _ _ with SbFull off => Some off | _ => None end).
    exists (match at_ with Some off => aw_watch aw (rq_handle r) off | None => aw end).
    pose proof (read_request_inv _ _ _ _ _ _ _ _ _ _ _ _ (rq_handle r) (rq_length r) at_
      Hi Hfree) as Hri. unfold at_ in *. by destruct (primary_sb_overlap _ _ _).
  - destruct (Z.eqb_spec (rq_type r) NBD_CMD_WRITE) as [Et|Hnw].
    + pose proof (sb_overlap_cases (rq_offset r) (rq_length r) data_offset Hfit Ho ltac:(lia))
        as Hover. cbv zeta in Hover. specialize (Hpay Et).
      destruct (primary_sb_overlap _ _ _) as [|off|] eqn:Eo; [| |done]; injection Hacc as <- <-.
      * exists aw. assert (after_header r payload None = RQ_Idle) as ->.
        { unfold after_header. rewrite Et. by destruct (0 <? rq_length r). }
        by apply other_inv.
      * exists aw. assert (SB_REGION_LEN = 4096) by done.
        assert (after_header r payload (Some off) = RQ_Forwarding (rq_handle r) off payload) as ->.
        { unfold after_header. rewrite Et.
          destruct (Z.ltb_spec 0 (rq_length r)); [done|lia]. }
        apply superblock_request_inv; [done|done|lia].
    + exists aw. destruct (request_jobs_idle r payload Hnw) as (Hj & Hu & Hne).
      assert (sh' = sh /\ capture = None) as [-> ->].
      { destruct (_ || _); [destruct (primary_sb_overlap _ _ _)|]; by simplify_eq. }
      by apply other_inv.
Qed.
(** ** The write path *)

Lemma capture_inv b sh h off payload q ac pn rp st nd k pins region cp captured at_ f aw :
  inv b (mkSys sh (RQ_Forwarding h off payload) q ac pn rp st nd k pins) f aw ->
  bounded (mkSys sh (RQ_Forwarding h off payload) q ac pn rp st nd k pins) ->
  forward_bytes_extract payload [] (Z.of_nat (length payload)) off SB_REGION_LEN
    = (Ok region, cp) ->
  cp_fired cp = Some (captured, at_) ->
  inv b (mkSys (with_watch sh (begin_pending (sh_watch sh) h (sha256 captured)))
           (RQ_Captured h (sha256 region)) q ac pn rp st nd k pins) f
    (aw_capture aw (sha256 region)).
Proof.
  intros [Hg Hr Hw Hp Hf] Hb Hx Hfired. cbn in *. unfold bounded in Hb. cbn in Hb.
  destruct (Hf _ _ _ eq_refl) as [Hoff Hlen].
  destruct (forward_bytes_extract_spec payload [] (Z.of_nat (length payload)) off SB_REGION_LEN)
    as (at' & Hspec & _); try done; [lia|unfold u64_max; lia|].
  rewrite Hx in Hspec. injection Hspec as -> ->. cbn in Hfired. injection Hfired as <- _.
  fold (region_of payload off) in *.
  set (pre := actor_jobs ac ++ q). set (job := mkPinJob h (sha256 (region_of payload off))).
  assert (Hpipe : forall r, request_jobs r = [job] -> pipeline r q ac = pre ++ [job]).
  { intros r E. unfold pipeline. by rewrite E, app_assoc. }
  rewrite (Hpipe (RQ_Forwarding h off payload)) in Hg, Hw by done.
  pose proof (ga_len _ _ _ _ _ _ Hg) as Hlw. rewrite length_app in Hlw. simpl in Hlw.
  destruct (ga_pipe _ _ _ _ _ _ Hg (length pre) job) as (_ & Hlast & _).
  { by rewrite lookup_app_r, Nat.sub_diag by lia. }
  split; cbn [s_shared s_request s_queue s_actor s_stashed s_nudges s_kernel s_reply s_pins
    s_pinner sh_gate sh_inflight sh_watch with_watch uncaptured];
    rewrite ?(Hpipe (RQ_Captured h (sha256 (region_of payload off)))) by done; try done.
  - by eapply read_inv_watch.
  - destruct Hw as [Hrep Hc Hpin Hpend]. rewrite length_app in Hc. simpl in Hc.
    assert (Hfree : rw_pending (sh_watch sh) !! h = None).
    { destruct (rw_pending (sh_watch sh) !! h) as [[s x]|] eqn:E; [|done].
      destruct (Hpend _ _ _ E) as (n & j & Hn & Hh & ->).
      assert (n = length pre) as ->.
      { eapply (pipe_injective _ _ _ _ _ _ n (length pre) j job Hg Hn); [|done].
        by rewrite lookup_app_r, Nat.sub_diag by lia. }
      destruct (rep_pending _ _ Hrep _ _ _ E) as (i & Ei & _ & Hi).
      apply lookup_lt_Some in Hi. rewrite Hc in Hi. simpl in Hi. rewrite length_take in Hi. lia. }
    split.
    + apply begin_pending_rep; [done|done|]. rewrite Hc. simpl. rewrite length_take. lia.
    + cbn. rewrite Hc, length_app. simpl.
      replace (f + (length pre + 1) - 0)%nat with (Datatypes.S (f + length pre)) by lia.
      rewrite (take_S_r _ _ _ Hlast). do 2 f_equal. f_equal. lia.
    + done.
    + cbn. intros h' s x. rewrite lookup_insert_Some. intros [[<- [= <- <-]]|[_ Hx']].
      * exists (length pre), job. split; [by rewrite lookup_app_r, Nat.sub_diag by lia|].
        split; [done|]. rewrite (rep_next _ _ Hrep), Hc. simpl. rewrite length_take. lia.
      * by apply Hpend in Hx'.
Qed.

(** Moving a job along the pipeline changes nothing else. *)
Lemma shift_inv b sh rq rq' q q' ac ac' pn rp st nd k pins f aw :
  inv b (mkSys sh rq q ac pn rp st nd k pins) f aw ->
  pipeline rq' q' ac' = pipeline rq q ac ->
  returned ac' = returned ac -> committed ac' = committed ac ->
  uncaptured rq' = uncaptured rq ->
  (forall h off p, rq' = RQ_Forwarding h off p -> rq' = rq) ->
  inv b (mkSys sh rq' q' ac' pn rp st nd k pins) f aw.
Proof.
  intros [Hg Hr Hw Hp Hf] Epipe Er Ec Eu Hrq. cbn in *.
  split; cbn; rewrite ?Epipe, ?Er, ?Ec, ?Eu; try done.
  intros h off payload E. apply (Hf h). rewrite <- (Hrq _ _ _ E). done.
Qed.

Lemma pinned_inv b sh rq q job pn rp st nd k pins pn' f aw :
  inv b (mkSys sh rq q (AC_Pinning job) pn rp st nd k pins) f aw ->
  pinner_pin pn (pj_commitment job) = Some (Ok tt, pn') ->
  inv b (mkSys sh rq q (AC_Pinned job) pn' rp st nd k
           (pins ++ [(pj_commitment job, sp_client pn')])) f aw.
Proof.
  intros [Hg Hr Hw Hp Hf] Hpin. cbn in Hg, Hr, Hw, Hp, Hf.
  destruct (pin_loop_ok slot _ _ _ _ _ _ Hpin) as [Hk' Hs]. clear Hpin.
  split; cbn; try done. destruct Hp as [Hl Hpi Hk].
  split.
  - rewrite length_app. simpl in *. lia.
  - intros i x o [Hx|[Hge Hx]]%lookup_app_Some; [by apply Hpi in Hx|].
    destruct (i - length pins)%nat eqn:Ei; [|done]. simpl in Hx. simplify_eq.
    assert (i = f) as -> by (simpl in Hl; lia).
    destruct (ga_pipe _ _ _ _ _ _ Hg 0 job eq_refl) as (_ & Hc & _).
    rewrite Nat.add_0_r in Hc. split; [done|]. exists (sp_expected pn'). congruence.
  - congruence.
Qed.

Lemma commit_inv b sh rq q job pn rp st nd k pins f aw :
  inv b (mkSys sh rq q (AC_Pinned job) pn rp st nd k pins) f aw ->
  inv b (mkSys (with_watch sh (watch_commit (sh_watch sh) (pj_handle job))) rq q
           (AC_Committed job) pn rp st nd k pins) f (aw_commit aw).
Proof.
  intros [Hg Hr Hw Hp Hf]. cbn in *.
  change (pipeline rq q (AC_Pinned job)) with (job :: (q ++ request_jobs rq)) in *.
  split; cbn [s_shared s_request s_queue s_actor s_stashed s_nudges s_kernel s_reply s_pins
    s_pinner sh_gate sh_inflight sh_watch with_watch committed returned];
    change (pipeline rq q (AC_Committed job)) with (job :: (q ++ request_jobs rq)); try done.
  - by eapply read_inv_watch.
  - destruct Hw as [Hrep Hc Hpin Hpend]. simpl in Hpin. rewrite Nat.add_0_r in Hpin.
    destruct (ga_pipe _ _ _ _ _ _ Hg 0 job eq_refl) as (_ & Hw0 & _).
    rewrite Nat.add_0_r in Hw0.
    assert (Hcap : (f < f + length (job :: (q ++ request_jobs rq)) - uncaptured rq)%nat).
    { destruct rq; simpl; rewrite ?length_app; simpl; lia. }
    assert (Hnext : aw_contents aw !! Datatypes.S (aw_pinned aw) = Some (pj_commitment job)).
    { rewrite Hc, Hpin. simpl lookup. by rewrite lookup_take_lt. }
    destruct (rep_unpinned _ _ Hrep _ _ (Nat.lt_succ_diag_r _) Hnext) as [h Hh].
    destruct (Hpend _ _ _ Hh) as (n & j & Hn & <- & En).
    assert (n = 0)%nat as -> by lia. simpl in Hn. injection Hn as <-.
    split.
    + by eapply watch_commit_rep.
    + done.
    + cbn. rewrite Hpin. lia.
    + unfold watch_commit. rewrite Hh. cbn. intros h' s x [_ Hx]%lookup_delete_Some.
      by apply Hpend in Hx.
Qed.

Lemma finish_ok_inv b sh rq q job pn rp st nd k pins f aw :
  inv b (mkSys sh rq q (AC_Committed job) pn rp st nd k pins) f aw ->
  inv b (mkSys (with_gate sh (finish_ok (sh_gate sh) (pj_handle job))) rq q AC_Idle pn rp st
           (Datatypes.S nd) k pins) (Datatypes.S f) aw.
Proof.
  intros [Hg Hr Hw Hp Hf]. cbn in *.
  change (pipeline rq q (AC_Committed job)) with (job :: pipeline rq q AC_Idle) in *.
  split; cbn [s_shared s_request s_queue s_actor s_stashed s_nudges s_kernel s_reply s_pins
    s_pinner sh_gate sh_inflight sh_watch with_gate committed returned]; try done.
  - by apply gate_inv_finish.
  - destruct Hw as [Hrep Hc Hpin Hpend]. split; [done| |simpl in Hpin; lia|].
    + rewrite Hc. do 2 f_equal. cbn [length]. unfold pipeline. simpl app. lia.
    + intros h s x Hx. destruct (Hpend _ _ _ Hx) as (n & j & Hn & Hh & ->).
      destruct (rep_pending _ _ Hrep _ _ _ Hx) as (i & Ei & Hi & _).
      destruct n as [|n]; [exfalso; simpl in Hpin; lia|]. simpl in Hn. exists n, j.
      split_and!; [done|done|lia].
  - destruct Hp as [Hl Hpi Hk]. split; [simpl in *; lia|done|done].
Qed.

Lemma finish_err_inv b sh rq q job pn rp st nd k pins e pn' f aw :
  inv b (mkSys sh rq q (AC_Pinning job) pn rp st nd k pins) f aw ->
  sp_key pn' = sp_key pn ->
  inv b (mkSys (with_gate sh (finish_err (sh_gate sh) (pj_handle job) e)) rq q
           (AC_Failed job) pn' rp st (Datatypes.S nd) k pins) f aw.
Proof.
  intros [Hg Hr Hw Hp Hf] Hk. cbn in *. split; cbn; try done.
  - change (pipeline rq q (AC_Failed job)) with (job :: (q ++ request_jobs rq)).
    by apply gate_inv_fail.
  - destruct Hp as [Hl Hpi Hk']. split; [done|done|congruence].
Qed.
(** ** The reply path *)

Lemma aw_drop_absent aw h : aw_reads aw !! h = None -> aw_drop aw h = aw.
Proof. intros E. unfold aw_drop. rewrite delete_id by done. by destruct aw. Qed.

(** A read is answered: [k'] is the kernel after it. *)
Lemma read_answer_inv b sh rq q ac pn rp st nd k k' pins f aw h w' :
  inv b (mkSys sh rq q ac pn rp st nd k pins) f aw ->
  (rp = RP_Idle \/ exists header len off, rp = RP_Payload header h len off) ->
  (exists a o, k_out k !! h = Some (K_Read a o)) ->
  watch_rep w' (aw_drop aw h) -> rw_pending w' = rw_pending (sh_watch sh) ->
  k_out k' = delete h (k_out k) -> k_writes k' = k_writes k -> k_acked k' = k_acked k ->
  (forall acked region, (acked, region) ∈ k_read k' ->
     (acked, region) ∈ k_read k \/
     exists j, (br_commitment b :: k_writes k) !! j = Some (sha256 region) /\
       forall i, i ∈ acked -> (i < j)%nat) ->
  inv b (mkSys (mkShared (delete h (sh_inflight sh)) (sh_gate sh) w') rq q ac pn RP_Idle st nd
           k' pins) f (aw_drop aw h).
Proof.
  intros [Hg Hr Hw Hp Hf] Hrp (a & o & Ho) Hrep Hpend Hout Hwr Hack Hread. cbn in *.
  split; cbn; rewrite ?Hwr; try done.
  - eapply (gate_inv_ungated _ _ _ _ _ _ _ h Hg); rewrite ?Hout; try done.
    + destruct (sh_gate sh !! h) eqn:E; [|done].
      destruct (ga_gate _ _ _ _ _ _ Hg _ _ E). congruence.
    + intros h' Hne. by rewrite lookup_delete_ne.
    + intros i. by rewrite lookup_delete_eq.
  - by eapply read_inv_answer.
  - by eapply watch_inv_reads.
Qed.

(** A reply to a handle that is neither a read in flight nor gated. *)
Lemma ungated_reply_inv b sh rq q ac pn st nd k pins f aw r header payload :
  inv b (mkSys sh rq q ac pn RP_Idle st nd k pins) f aw ->
  parse_reply header = Ok r -> sh_inflight sh !! rp_handle r = None ->
  sh_gate sh !! rp_handle r = None ->
  inv b (mkSys sh rq q ac pn RP_Idle st nd (kernel_receive k header payload) pins) f aw.
Proof.
  intros Hi Hparse Hin Hgate. pose proof Hi as [Hg Hr Hw Hp Hf]. cbn in Hg, Hr, Hw, Hp, Hf.
  unfold kernel_receive. rewrite Hparse.
  destruct (k_out k !! rp_handle r) as [[a o|i|]|] eqn:Ho; [| | |done].
  - destruct (rd_out _ _ _ _ _ _ Hr _ _ _ Ho) as [[? ?]|(? & ? & ? & ?)]; congruence.
  - destruct (ga_out _ _ _ _ _ _ Hg _ _ Ho) as [[_ ?]|(n & j & _ & Hn & Hh)]; [congruence|].
    destruct (ga_pipe _ _ _ _ _ _ Hg _ _ Hn) as (_ & _ & s & Hs & _). congruence.
  - split; cbn; try done.
    + eapply (gate_inv_ungated _ _ _ _ _ _ _ (rp_handle r) Hg); cbn; try done.
      * intros h' Hne. by rewrite lookup_delete_ne.
      * intros i. by rewrite lookup_delete_eq.
    + eapply (read_inv_other _ _ _ _ _ _ _ (rp_handle r) Hr); cbn; try done.
      * intros h' Hne. by rewrite lookup_delete_ne.
      * intros a o. by rewrite Ho.
      * intros a o. by rewrite lookup_delete_eq.
Qed.

(** The reply of a gated write whose pin was released, from the host or out
    of the stash. *)
Lemma pass_inv b sh rq q ac pn st nd k pins f aw h hdr payload :
  inv b (mkSys sh rq q ac pn RP_Idle st nd k pins) f aw ->
  parse_reply hdr = Ok (mkReplyHeader 0 h) -> sh_gate sh !! h = Some PS_Ok ->
  inv b (mkSys (with_gate sh (delete h (sh_gate sh))) rq q ac pn RP_Idle st nd
           (kernel_receive k hdr payload) pins) f aw.
Proof.
  intros [Hg Hr Hw Hp Hf] Hparse Hok. cbn in *.
  destruct (ga_gate _ _ _ _ _ _ Hg _ _ Hok) as [i Ho].
  unfold kernel_receive. rewrite Hparse. cbn [rp_handle rp_error]. rewrite Ho.
  split; cbn; try done.
  - eapply gate_inv_pass; cbn; try done. eauto.
  - eapply (read_inv_other _ _ _ _ _ _ _ h Hr); cbn; try done.
    + intros h' Hne. by rewrite lookup_delete_ne.
    + intros a o. by rewrite Ho.
    + intros a o. by rewrite lookup_delete_eq.
Qed.

(** A stash entry can be dropped. *)
Lemma unstash_inv b sh rq q ac pn rp st st' nd k pins f aw :
  inv b (mkSys sh rq q ac pn rp st nd k pins) f aw -> st' ⊆ st ->
  inv b (mkSys sh rq q ac pn rp st' nd k pins) f aw.
Proof.
  intros [Hg Hr Hw Hp Hf] Hsub. cbn in *. split; cbn; try done. split; try apply Hg.
  - intros h hdr Hl. eapply ga_stash; [done|]. by eapply lookup_weaken.
  - intros h hdr Hl. eapply ga_nudge; [done|]. by eapply lookup_weaken.
Qed.
Lemma flush_inv b order sh rq q ac pn st nd k pins f aw st' gate' k' :
  inv b (mkSys sh rq q ac pn RP_Idle st nd k pins) f aw ->
  flush_stashed order st (sh_gate sh) k = Ok (st', gate', k') ->
  inv b (mkSys (with_gate sh gate') rq q ac pn RP_Idle st' nd k' pins) f aw /\
  st' ⊆ st /\
  (forall h, sh_gate sh !! h = Some PS_Pending -> gate' !! h = Some PS_Pending) /\
  (forall h hdr, h ∈ order -> st' !! h = Some hdr -> gate' !! h = Some PS_Pending).
Proof.
  revert sh st k. induction order as [|h order IH]; intros sh st k Hi Hf; cbn [flush_stashed] in Hf.
  { injection Hf as <- <- <-. destruct sh. split_and!; [done|done|done|].
    intros h hdr Hin. by apply not_elem_of_nil in Hin. }
  unfold gate_check in Hf. destruct (sh_gate sh !! h) as [[| |e]|] eqn:Eg; try done.
  - destruct (IH sh st k Hi Hf) as (Hi' & Hsub & Hp & Hall). split_and!; [done|done|done|].
    intros h' hdr [->|Hin]%elem_of_cons; [by auto|eauto].
  - destruct (st !! h) as [hdr|] eqn:Est; [|done].
    pose proof (ga_stash _ _ _ _ _ _ (in_gate _ _ _ _ Hi) _ _ Est) as Hparse.
    pose proof (pass_inv _ _ _ _ _ _ _ _ _ _ _ _ _ _ [] Hi Hparse Eg) as Hi1.
    apply (unstash_inv _ _ _ _ _ _ _ _ (delete h st)) in Hi1; [|apply delete_subseteq].
    destruct (IH _ _ _ Hi1 Hf) as (Hi' & Hsub & Hp & Hall). split_and!.
    + done.
    + etrans; [done|apply delete_subseteq].
    + intros h' Hh'. apply Hp. cbn. rewrite lookup_delete_ne; [done|]. congruence.
    + intros h' hdr' [->|Hin]%elem_of_cons Hst'; [|eauto].
      exfalso. pose proof (lookup_weaken _ _ _ _ Hst' Hsub) as Hd.
      by rewrite lookup_delete_eq in Hd.
Qed.

Lemma nudge_inv b sh rq q ac pn st nd k pins f aw order st' gate' k' :
  inv b (mkSys sh rq q ac pn RP_Idle st (Datatypes.S nd) k pins) f aw ->
  order ≡ₚ (map_to_list st).*1 ->
  flush_stashed order st (sh_gate sh) k = Ok (st', gate', k') ->
  inv b (mkSys (with_gate sh gate') rq q ac pn RP_Idle st' nd k' pins) f aw.
Proof.
  intros Hi Hord Hfl. destruct (flush_inv _ _ _ _ _ _ _ _ _ _ _ _ _ _ _ _ Hi Hfl)
    as ([Hg Hr Hw Hp Hf] & Hsub & _ & Hall). cbn in *.
  split; cbn; try done. split; try apply Hg.
  intros h hdr Hst Hok. exfalso.
  assert (Hin : h ∈ order).
  { rewrite Hord. apply list_elem_of_fmap. exists (h, hdr). split; [done|].
    apply elem_of_map_to_list. by eapply lookup_weaken. }
  rewrite (Hall _ _ Hin Hst) in Hok. done.
Qed.

Lemma forward_reply_inv b sh rq q ac pn st nd k pins f aw header payload len sh' :
  inv b (mkSys sh rq q ac pn RP_Idle st nd k pins) f aw ->
  reply_accept sh header = Ok (RA_Forward len, sh') ->
  exists aw', inv b (mkSys sh' rq q ac pn RP_Idle st nd (kernel_receive k header payload) pins)
                f aw'.
Proof.
  intros Hi Hacc. unfold reply_accept in Hacc.
  destruct (parse_reply header) as [r|] eqn:Hparse; [|done]. cbn [map_err] in Hacc.
  destruct (sh_inflight sh !! rp_handle r) as [len'|] eqn:Hin.
  - pose proof Hi as [Hg Hr Hw Hp Hf]. cbn in Hg, Hr, Hw, Hp, Hf.
    pose proof (wa_rep _ _ _ _ _ _ _ _ Hw) as Hrep.
    destruct (rd_inflight _ _ _ _ _ _ Hr _ _ Hin) as (a & o & Ho).
    exists (aw_drop aw (rp_handle r)). unfold kernel_receive. rewrite Hparse, Ho.
    unfold read_payload_offset in Hacc. cbn [sh_watch] in Hacc.
    rewrite (rep_reads _ _ Hrep), lookup_fmap in Hacc.
    destruct (aw_reads aw !! rp_handle r) as [[off from]|] eqn:Ea; cbn in Hacc.
    + destruct (Z.eqb_spec (rp_error r) 0) as [|Hne]; [done|]. cbn in Hacc.
      injection Hacc as _ <-.
      eapply (read_answer_inv _ _ _ _ _ _ _ _ _ _ _ _ _ _ (rp_handle r)); [done|by left|eauto
        |by apply drop_read_rep|done|..]; destruct o; cbn; try done; eauto.
    + injection Hacc as _ <-.
      assert (o = None) as ->.
      { destruct o as [off|]; [|done].
        destruct (rd_cover _ _ _ _ _ _ Hr _ _ _ Ho) as [from ?]. congruence. }
      eapply (read_answer_inv _ _ _ _ _ _ _ _ _ _ _ _ _ _ (rp_handle r)); [done|by left|eauto
        |by rewrite aw_drop_absent|done|..]; cbn; try done; eauto.
  - exists aw. unfold gate_check in Hacc.
    destruct (sh_gate sh !! rp_handle r) as [[| |e]|] eqn:Eg; try done.
    + by destruct (negb _).
    + destruct (Z.eqb_spec (rp_error r) 0) as [He|]; [|done]. injection Hacc as _ <-.
      destruct r as [err h]. simpl in He, Eg, Hin. subst err. by apply (pass_inv _ _ _ _ _ _ _ _ _ _ _ _ h).
    + injection Hacc as _ <-. destruct sh. by eapply ungated_reply_inv.
Qed.

Lemma verify_reply_inv b sh rq q ac pn st nd k pins f aw header h len off sh' :
  inv b (mkSys sh rq q ac pn RP_Idle st nd k pins) f aw ->
  reply_accept sh header = Ok (RA_Verify h len off, sh') ->
  inv b (mkSys sh' rq q ac pn (RP_Payload header h len off) st nd k pins) f aw.
Proof.
  intros [Hg Hr Hw Hp Hf] Hacc. unfold reply_accept in Hacc. cbn in Hg, Hr, Hw, Hp, Hf.
  destruct (parse_reply header) as [[err h']|] eqn:Hparse; [|done].
  cbn [map_err rp_handle rp_error] in Hacc.
  destruct (sh_inflight sh !! h') as [len'|] eqn:Hin.
  2:{ unfold gate_check in Hacc. destruct (sh_gate sh !! h') as [[| |]|]; try done;
      by destruct (negb _). }
  pose proof (wa_rep _ _ _ _ _ _ _ _ Hw) as Hrep.
  unfold read_payload_offset in Hacc. cbn [sh_watch] in Hacc.
  rewrite (rep_reads _ _ Hrep), lookup_fmap in Hacc.
  destruct (aw_reads aw !! h') as [[off' from]|] eqn:Ea; cbn in Hacc; [|done].
  destruct (Z.eqb_spec err 0) as [->|]; [|done]. cbn in Hacc. injection Hacc as <- <- <- <-.
  split; cbn; try done. split; try apply Hr.
  - intros h len [Hne Hl]%lookup_delete_Some. by eapply rd_inflight.
  - intros h a o Ho. destruct (decide (h = h')) as [->|Hne]; [right; eauto|].
    rewrite lookup_delete_ne by done.
    destruct (rd_out _ _ _ _ _ _ Hr _ _ _ Ho) as [?|(? & ? & ? & ?)]; [by left|done].
  - intros header' h len off [= <- <- <- <-]. rewrite lookup_delete_eq. eauto.
Qed.

Lemma payload_inv b sh rq q ac pn st nd k pins header h len off payload w' f aw :
  inv b (mkSys sh rq q ac pn (RP_Payload header h len off) st nd k pins) f aw ->
  verify_read sha256 (sh_watch sh) h (region_of payload off) = (Ok tt, w') ->
  inv b (mkSys (with_watch sh w') rq q ac pn RP_Idle st nd (kernel_receive k header payload) pins)
    f (aw_drop aw h).
Proof.
  intros Hi Hv. pose proof Hi as [Hg Hr Hw Hp Hf]. cbn in Hg, Hr, Hw, Hp, Hf.
  pose proof (wa_rep _ _ _ _ _ _ _ _ Hw) as Hrep.
  destruct (rd_task _ _ _ _ _ _ Hr _ _ _ _ eq_refl) as (Hparse & Hinf & from & Hfrom).
  destruct (rd_watch _ _ _ _ _ _ Hr _ _ _ Hfrom) as (a & Ho & Hacked).
  destruct (verify_read_rep sha256 _ _ _ _ _ (region_of payload off) Hrep Hfrom) as [Hw' Hacc].
  rewrite Hv in Hw', Hacc. simpl in Hw'. subst w'.
  destruct (proj1 Hacc eq_refl) as (j & Hj & Hc).
  replace (with_watch sh (drop_read (sh_watch sh) h))
    with (mkShared (delete h (sh_inflight sh)) (sh_gate sh) (drop_read (sh_watch sh) h))
    by (unfold with_watch; by rewrite delete_id).
  unfold kernel_receive. rewrite Hparse. cbn [rp_handle rp_error]. rewrite Ho.
  eapply (read_answer_inv _ _ _ _ _ _ _ _ _ _ _ _ _ _ h); [done|eauto|eauto
    |by apply drop_read_rep|done|done|done|done|].
  cbn. intros acked region [Hin|Hin]%elem_of_app; [by left|right].
  apply list_elem_of_singleton in Hin. injection Hin as -> ->. exists j. split.
  - rewrite (wa_contents _ _ _ _ _ _ _ _ Hw) in Hc. destruct j; [done|]. simpl in *.
    by apply lookup_take_Some in Hc as [? _].
  - intros i Hi'. specialize (Hacked i Hi'). lia.
Qed.

Lemma park_inv b sh rq q ac pn st nd k pins f aw header h sh' :
  inv b (mkSys sh rq q ac pn RP_Idle st nd k pins) f aw ->
  reply_accept sh header = Ok (RA_Park h, sh') ->
  inv b (mkSys sh' rq q ac pn RP_Idle (<[h := header]> st) nd k pins) f aw.
Proof.
  intros [Hg Hr Hw Hp Hf] Hacc. unfold reply_accept in Hacc. cbn in Hg, Hr, Hw, Hp, Hf.
  destruct (parse_reply header) as [[err h']|] eqn:Hparse; [|done].
  cbn [map_err rp_handle rp_error] in Hacc.
  destruct (sh_inflight sh !! h') as [len'|] eqn:Hin.
  { destruct (read_payload_offset _ _); [by destruct (negb _)|done]. }
  unfold gate_check in Hacc.
  destruct (sh_gate sh !! h') as [[| |]|] eqn:Eg; try done; [|by destruct (negb _)].
  destruct (Z.eqb_spec err 0) as [->|]; [|done]. injection Hacc as <- <-.
  split; cbn; try done. by apply gate_inv_park.
Qed.

(** ** All steps *)

Lemma bounded_back s s' : step s s' -> bounded s' -> bounded s.
Proof.
  assert (Hrecv : forall k hdr p, k_writes (kernel_receive k hdr p) = k_writes k).
  { intros k hdr p. unfold kernel_receive. destruct (parse_reply hdr); [|done].
    destruct (k_out k !! _) as [[? []|?|]|]; done. }
  assert (Hfl : forall order st g k st' g' k',
    flush_stashed order st g k = Ok (st', g', k') -> k_writes k' = k_writes k).
  { induction order as [|h order IH]; intros st g k st' g' k'; cbn [flush_stashed].
    - by intros [= _ _ <-].
    - destruct (gate_check g h) as [[] g1]; try done; [by apply IH|].
      destruct (st !! h); [|done]. intros Hf%IH. by rewrite Hf, Hrecv. }
  intros Hs Hb. destruct Hs; try done; unfold bounded in *; cbn in *; rewrite ?Hrecv in Hb; try done.
  - unfold kernel_issue in Hb. destruct (Z.eqb _ _); [done|]. destruct (Z.eqb _ _); [|done].
    destruct (primary_sb_overlap _ _ _); cbn in Hb; [done| |done]. rewrite length_app in Hb.
    simpl in Hb. lia.
  - by rewrite (Hfl _ _ _ _ _ _ _ H3) in Hb.
Qed.

Lemma step_inv b s s' f aw :
  inv b s f aw -> bounded s -> step s s' -> exists f' aw', inv b s' f' aw'.
Proof.
  intros Hi Hb Hs. destruct Hs.
  - edestruct request_inv as [aw' ?]; eauto.
  - exists f, (aw_capture aw (sha256 region)). by eapply capture_inv.
  - exists f, aw. eapply shift_inv; [done| |done|done|done|done].
    unfold pipeline. simpl. by rewrite app_nil_r.
  - exists f, aw. by eapply shift_inv.
  - exists f, aw. by eapply pinned_inv.
  - exists f, (aw_commit aw). by eapply commit_inv.
  - exists (Datatypes.S f), aw. by eapply finish_ok_inv.
  - exists f, aw. eapply finish_err_inv; [done|]. by eapply pin_loop_key.
  - edestruct forward_reply_inv as [aw' ?]; eauto.
  - exists f, aw. by eapply verify_reply_inv.
  - exists f, (aw_drop aw h). by eapply payload_inv.
  - exists f, aw. by eapply park_inv.
  - exists f, aw. by eapply nudge_inv.
Qed.

Lemma reachable_inv b s :
  Pump.reachable sha256 data_offset b s -> bounded s -> exists f aw, inv b s f aw.
Proof.
  intros Hr. refine (rtc_ind_r (fun s => bounded s -> exists f aw, inv b s f aw) _ _ _ s Hr);
    clear s Hr.
  - intros _. exists 0%nat, (aw_new (br_commitment b)). apply started_inv.
  - intros s1 s2 _ Hs IH Hb. destruct IH as (f & aw & Hi); [by eapply bounded_back|].
    by eapply step_inv; [|eapply bounded_back|].
Qed.

Lemma inv_acked b s f aw i :
  inv b s f aw -> i ∈ k_acked (s_kernel s) ->
  exists c o v, k_writes (s_kernel s) !! i = Some c /\ s_pins s !! i = Some (c, o) /\
    slot o (br_key b) = Some (mkCommitment c, v).
Proof.
  intros [Hg Hr Hw Hp Hf] Hacked. destruct Hp as [Hl Hpi _]. pose proof (ga_acked _ _ _ _ _ _ Hg i Hacked) as Hlt.
  destruct (lookup_lt_is_Some_2 (s_pins s) i ltac:(lia)) as [[c o] Hx].
  destruct (Hpi _ _ _ Hx) as [Hc [v Hv]]. by exists c, o, v.
Qed.

Lemma inv_read b s f aw acked region (Hi : inv b s f aw) (Hread : (acked, region) ∈ k_read (s_kernel s)) :
  exists j, (br_commitment b :: k_writes (s_kernel s)) !! j = Some (sha256 region) /\
    forall i, i ∈ acked -> (i < j)%nat.
Proof. destruct Hi as [Hg Hr Hw Hp Hf]. by eapply rd_done. Qed.

(** C1: no acknowledgement before the pin.  In every state the running client
    can reach, under any interleaving of its tasks and any behaviour of the
    host and the oracle, a superblock write the kernel has seen acknowledged
    has its pin: the pinner returned for exactly the digest of the region that
    write carries, and the oracle then held that commitment under the
    enclave's key. *)
Theorem acknowledged_write_is_pinned b s i
    (Hreach : Pump.reachable sha256 data_offset b s) (Hbound : bounded s)
    (Hacked : i ∈ k_acked (s_kernel s)) :
  exists c o v, k_writes (s_kernel s) !! i = Some c /\ s_pins s !! i = Some (c, o) /\
    slot o (br_key b) = Some (mkCommitment c, v).
Proof.
  destruct (reachable_inv b s Hreach Hbound) as (f & aw & Hi). by eapply inv_acked.
Qed.

(** C2: reads are never rolled back.  A whole superblock region delivered to
    the kernel is the boot-verified content or the content of a superblock
    write, and not older than any write that was acknowledged when the read
    was issued, whatever the host answers. *)
Theorem delivered_read_is_fresh b s acked region
    (Hreach : Pump.reachable sha256 data_offset b s) (Hbound : bounded s)
    (Hread : (acked, region) ∈ k_read (s_kernel s)) :
  exists j, (br_commitment b :: k_writes (s_kernel s)) !! j = Some (sha256 region) /\
    forall i, i ∈ acked -> (i < j)%nat.
Proof.
  destruct (reachable_inv b s Hreach Hbound) as (f & aw & Hi). by eapply inv_read.
Qed.

(** No parked reply is forgotten.  Whenever a parked reply could be
    released because its pin completed, a nudge is waiting for the pump. *)
Theorem parked_reply_is_woken b s h hdr
    (Hreach : Pump.reachable sha256 data_offset b s) (Hbound : bounded s)
    (Hparked : s_stashed s !! h = Some hdr)
    (Hok : sh_gate (s_shared s) !! h = Some PS_Ok) :
  (0 < s_nudges s)%nat.
Proof.
  destruct (reachable_inv b s Hreach Hbound) as (f & aw & [Hg Hr Hw Hp Hf]).
  by eapply ga_nudge.
Qed.
End Safety.

(** ** Running the client *)

(** The actions of the tasks, the kernel and the host, as a script. *)
Inductive Action : Type :=
| A_request (r : RequestHeader) (payload : bytes)
| A_capture
| A_enqueue
| A_take
| A_pin
| A_commit
| A_finish
| A_reply (header payload : bytes)
| A_payload (payload : bytes)
| A_nudge.

Section Exec.
Context (sha256 : bytes -> bytes) (data_offset : Z).
Context {S : Type} `{BootOracle S} `{Reconnect S} `{Clock S}.

(** The pump's actions, in its idle and its waiting position. *)
Definition exec_reply (sh : Shared) rq q ac (pn : SyncPinner S) st nd k pins
    (header payload : bytes) : option Sys :=
  match reply_accept sh header with
  | Ok (RA_Forward len, sh') =>
      if Z.of_nat (length payload) =? len
      then Some (mkSys sh' rq q ac pn RP_Idle st nd (kernel_receive k header payload) pins)
      else None
  | Ok (RA_Verify h len off, sh') =>
      Some (mkSys sh' rq q ac pn (RP_Payload header h len off) st nd k pins)
  | Ok (RA_Park h, sh') => Some (mkSys sh' rq q ac pn RP_Idle (<[h := header]> st) nd k pins)
  | Err _ => None
  end.

Definition exec_payload (sh : Shared) rq q ac (pn : SyncPinner S) st nd k pins header h len off
    (payload : bytes) : option Sys :=
  if Z.of_nat (length payload) =? len
  then match verify_read sha256 (sh_watch sh) h (region_of payload off) with
       | (Ok _, w') =>
           Some (mkSys (with_watch sh w') rq q ac pn RP_Idle st nd
                   (kernel_receive k header payload) pins)
       | (Err _, _) => None
       end
  else None.

Definition exec_nudge (sh : Shared) rq q ac (pn : SyncPinner S) st nd k pins : option Sys :=
  match nd with
  | Datatypes.S nd =>
      match flush_stashed (map_to_list st).*1 st (sh_gate sh) k with
      | Ok (st', gate', k') =>
          Some (mkSys (with_gate sh gate') rq q ac pn RP_Idle st' nd k' pins)
      | Err _ => None
      end
  | O => None
  end.

Definition exec_request (sh : Shared) q ac (pn : SyncPinner S) rp st nd k pins
    (r : RequestHeader) (payload : bytes) : option Sys :=
  if bool_decide (k_out k !! rq_handle r = None) && (0 <=? rq_offset r)
     && (0 <=? rq_length r) && (rq_length r <? 2 ^ 32)
     && (negb (rq_type r =? NBD_CMD_WRITE) || (Z.of_nat (length payload) =? rq_length r))
  then match request_accept data_offset sh r with
       | Ok (sh', capture) =>
           Some (mkSys sh' (after_header r payload capture) q ac pn rp st nd
                   (kernel_issue sha256 data_offset k r payload) pins)
       | Err _ => None
       end
  else None.

(** One action on a state, if the task it belongs to can take it. *)
Definition exec (s : Sys (S := S)) (a : Action) : option Sys :=
  let 'mkSys sh rq q ac pn rp st nd k pins := s in
  match a, rq, ac, rp with
  | A_request r payload, RQ_Idle, _, _ => exec_request sh q ac pn rp st nd k pins r payload
  | A_capture, RQ_Forwarding h off payload, _, _ =>
      match forward_bytes_extract payload [] (Z.of_nat (length payload)) off SB_REGION_LEN with
      | (Ok region, mkCopy _ _ (Some (captured, _))) =>
          Some (mkSys (with_watch sh (begin_pending (sh_watch sh) h (sha256 captured)))
                  (RQ_Captured h (sha256 region)) q ac pn rp st nd k pins)
      | _ => None
      end
  | A_enqueue, RQ_Captured h c, _, _ =>
      if (length q <? PIN_QUEUE_CAPACITY)%nat && negb (actor_failed ac)
      then Some (mkSys sh RQ_Idle (q ++ [mkPinJob h c]) ac pn rp st nd k pins) else None
  | A_take, _, AC_Idle, _ =>
      match q with
      | job :: q => Some (mkSys sh rq q (AC_Pinning job) pn rp st nd k pins)
      | [] => None
      end
  | A_pin, _, AC_Pinning job, _ =>
      match pinner_pin pn (pj_commitment job) with
      | Some (Ok _, pn') =>
          Some (mkSys sh rq q (AC_Pinned job) pn' rp st nd k
                  (pins ++ [(pj_commitment job, sp_client pn')]))
      | Some (Err e, pn') =>
          Some (mkSys (with_gate sh (finish_err (sh_gate sh) (pj_handle job) e)) rq q
                  (AC_Failed job) pn' rp st (Datatypes.S nd) k pins)
      | None => None
      end
  | A_commit, _, AC_Pinned job, _ =>
      Some (mkSys (with_watch sh (watch_commit (sh_watch sh) (pj_handle job))) rq q
              (AC_Committed job) pn rp st nd k pins)
  | A_finish, _, AC_Committed job, _ =>
      Some (mkSys (with_gate sh (finish_ok (sh_gate sh) (pj_handle job))) rq q AC_Idle pn rp st
              (Datatypes.S nd) k pins)
  | A_reply header payload, _, _, RP_Idle =>
      exec_reply sh rq q ac pn st nd k pins header payload
  | A_payload payload, _, _, RP_Payload header h len off =>
      exec_payload sh rq q ac pn st nd k pins header h len off payload
  | A_nudge, _, _, RP_Idle => exec_nudge sh rq q ac pn st nd k pins
  | _, _, _, _ => None
  end.

Abbreviation steps_to s s' := (Pump.step sha256 data_offset s s').

Lemma exec_reply_sound sh rq q ac pn st nd k pins header payload s' :
  exec_reply sh rq q ac pn st nd k pins header payload = Some s' ->
  steps_to (mkSys sh rq q ac pn RP_Idle st nd k pins) s'.
Proof.
  unfold exec_reply.
  destruct (reply_accept sh header) as [[[len|h len off|h] sh']|] eqn:Ea; try done.
  - destruct (Z.eqb_spec (Z.of_nat (length payload)) len); [|done]. intros [= <-].
    by eapply S_forward.
  - intros [= <-]. by eapply S_verify.
  - intros [= <-]. by eapply S_park.
Qed.

Lemma exec_payload_sound sh rq q ac pn st nd k pins header h len off payload s' :
  exec_payload sh rq q ac pn st nd k pins header h len off payload = Some s' ->
  steps_to (mkSys sh rq q ac pn (RP_Payload header h len off) st nd k pins) s'.
Proof.
  unfold exec_payload. destruct (Z.eqb_spec (Z.of_nat (length payload)) len); [|done].
  destruct (verify_read _ _ _ _) as [[[]|] w'] eqn:Ev; [|done]. intros [= <-].
  by eapply S_payload.
Qed.

Lemma exec_nudge_sound sh rq q ac pn st nd k pins s' :
  exec_nudge sh rq q ac pn st nd k pins = Some s' ->
  steps_to (mkSys sh rq q ac pn RP_Idle st nd k pins) s'.
Proof.
  unfold exec_nudge. destruct nd as [|nd]; [done|].
  destruct (flush_stashed _ _ _ _) as [[[st' gate'] k']|] eqn:Ef; [|done]. intros [= <-].
  by eapply S_nudge.
Qed.

Lemma exec_request_sound sh q ac pn rp st nd k pins r payload s' :
  exec_request sh q ac pn rp st nd k pins r payload = Some s' ->
  steps_to (mkSys sh RQ_Idle q ac pn rp st nd k pins) s'.
Proof.
  unfold exec_request. case_bool_decide as Hfree; [|done]. simpl.
  destruct (Z.leb_spec 0 (rq_offset r)); [|done]. destruct (Z.leb_spec 0 (rq_length r)); [|done].
  destruct (Z.ltb_spec (rq_length r) (2 ^ 32)); [|done]. simpl.
  destruct (negb _ || _) eqn:Hp; [|done].
  destruct (request_accept _ _ _) as [[sh' capture]|] eqn:Ea; [|done]. intros [= <-].
  eapply S_request; try done. intros Hw. rewrite Hw in Hp. simpl in Hp. lia.
Qed.

Lemma exec_sound s a s' : exec s a = Some s' -> steps_to s s'.
Proof.
  destruct s as [sh rq q ac pn rp st nd k pins], a; cbn [exec].
  - destruct rq; try done. apply exec_request_sound.
  - destruct rq; try done.
    destruct (forward_bytes_extract _ _ _ _ _) as [[region|] [? ? [[cap ?]|]]] eqn:Ef; try done.
    intros [= <-]. by eapply S_capture.
  - destruct rq; try done. destruct (Nat.ltb_spec (length q) PIN_QUEUE_CAPACITY); [|done].
    destruct (actor_failed ac) eqn:Ea; [done|]. intros [= <-]. by apply S_enqueue.
  - destruct rq, ac, q; try done; intros [= <-]; apply S_take.
  - destruct rq, ac; try done; destruct (pinner_pin _ _) as [[[[]|] pn']|] eqn:Ep; try done;
      intros [= <-]; (by apply S_pinned) || by apply S_finish_err.
  - destruct rq, ac; try done; intros [= <-]; apply S_commit.
  - destruct rq, ac; try done; intros [= <-]; apply S_finish_ok.
  - destruct rq, ac, rp; try done; apply exec_reply_sound.
  - destruct rq, ac, rp; try done; apply exec_payload_sound.
  - destruct rq, ac, rp; try done; apply exec_nudge_sound.
Qed.

Fixpoint run (s : Sys (S := S)) (script : list Action) : option Sys :=
  match script with
  | [] => Some s
  | a :: script => exec s a ≫= fun s => run s script
  end.

Lemma run_reachable b script s :
  run (started b) script = Some s -> Pump.reachable sha256 data_offset b s.
Proof.
  unfold reachable. generalize (started b). induction script as [|a script IH]; intros s0 Hr.
  - simpl in Hr. simplify_eq. constructor.
  - simpl in Hr. destruct (exec s0 a) as [s1|] eqn:E; [|done].
    eapply rtc_l; [by apply exec_sound in E|by apply IH].
Qed.
End Exec.

(** ** Witnesses *)

Module PumpDemo.
Import ClientDemo.

(** A digest that keeps the length and the first byte. *)
Definition digest (l : bytes) : bytes := [Z.of_nat (length l); default 0 (head l)].

Definition demo_boot_of (script : list Exchange) : BootResult World :=
  mkBootResult (demo_world script pinned_sm) demo_key1 (digest blank) (mkVersion 0).

Definition at_region : Z := 16777216 + SB_PRIMARY_FS_OFFSET.
Definition sb_write : RequestHeader := mkRequestHeader NBD_CMD_WRITE 5 at_region 4096.
Definition sb_read : RequestHeader := mkRequestHeader NBD_CMD_READ 6 at_region 4096.
Definition superblock : bytes := repeat 9 (Z.to_nat 4096).
Definition reply_ok (handle : Z) : bytes := reply handle [].

(** A superblock write whose reply arrives before its pin: it is parked, and
    the script stops when the pin is released. *)
Definition parked_script : list Action :=
  [A_request sb_write superblock; A_reply (reply_ok 5) []; A_capture; A_enqueue; A_take; A_pin;
   A_commit; A_finish].

(** The nudge releases it; then the region is read back. *)
Definition full_script : list Action :=
  parked_script ++ [A_nudge; A_request sb_read []; A_reply (reply_ok 6) [];
                    A_payload superblock].

Definition demo_run (script : list Action) : option (Sys (S := World)) :=
  run digest 16777216 (started (demo_boot_of lossy)) script.

Definition idle : Sys (S := World) := started (demo_boot_of []).
Definition parked : Sys (S := World) := default idle (demo_run parked_script).
Definition done_ : Sys (S := World) := default idle (demo_run full_script).

Lemma demo_fits : region_fits 16777216.
Proof. unfold region_fits. vm_compute. split; discriminate. Qed.

Lemma parked_reachable : Pump.reachable digest 16777216 (demo_boot_of lossy) parked.
Proof.
  apply (run_reachable _ _ _ parked_script). unfold parked.
  destruct (demo_run parked_script) eqn:E; [exact E|]. vm_compute in E. discriminate.
Qed.

Lemma done_reachable : Pump.reachable digest 16777216 (demo_boot_of lossy) done_.
Proof.
  apply (run_reachable _ _ _ full_script). unfold done_.
  destruct (demo_run full_script) eqn:E; [exact E|]. vm_compute in E. discriminate.
Qed.

Lemma done_bounded : bounded done_.
Proof. unfold bounded. vm_compute. reflexivity. Qed.

Lemma parked_bounded : bounded parked.
Proof. unfold bounded. vm_compute. reflexivity. Qed.
End PumpDemo.

Lemma acknowledged_write_is_pinned_witness :
  k_acked (s_kernel PumpDemo.done_) = [0%nat] /\
  exists c o v, k_writes (s_kernel PumpDemo.done_) !! 0%nat = Some c /\
    s_pins PumpDemo.done_ !! 0%nat = Some (c, o) /\
    held o demo_key1 = Some (mkCommitment c, v).
Proof.
  assert (E : k_acked (s_kernel PumpDemo.done_) = [0%nat]) by (vm_compute; reflexivity).
  split; [exact E|].
  refine (acknowledged_write_is_pinned PumpDemo.digest 16777216 PumpDemo.demo_fits held
            (PumpDemo.demo_boot_of ClientDemo.lossy) PumpDemo.done_ 0 PumpDemo.done_reachable
            PumpDemo.done_bounded _).
  rewrite E. left.
Defined.

Lemma delivered_read_is_fresh_witness :
  exists acked region, (acked, region) ∈ k_read (s_kernel PumpDemo.done_) /\
    exists j, (PumpDemo.digest ClientDemo.blank :: k_writes (s_kernel PumpDemo.done_)) !! j
                = Some (PumpDemo.digest region) /\
      forall i, i ∈ acked -> (i < j)%nat.
Proof.
  assert (E : k_read (s_kernel PumpDemo.done_) = [([0%nat], PumpDemo.superblock)])
    by (vm_compute; reflexivity).
  exists [0%nat], PumpDemo.superblock.
  assert (Hin : ([0%nat], PumpDemo.superblock) ∈ k_read (s_kernel PumpDemo.done_))
    by (rewrite E; left).
  split; [exact Hin|].
  exact (delivered_read_is_fresh PumpDemo.digest 16777216 PumpDemo.demo_fits held
           (PumpDemo.demo_boot_of ClientDemo.lossy) PumpDemo.done_ [0%nat] PumpDemo.superblock
           PumpDemo.done_reachable PumpDemo.done_bounded Hin).
Defined.

Lemma parked_reply_is_woken_witness :
  s_stashed PumpDemo.parked !! 5 = Some (PumpDemo.reply_ok 5) /\ (0 < s_nudges PumpDemo.parked)%nat.
Proof.
  assert (E : s_stashed PumpDemo.parked !! 5 = Some (PumpDemo.reply_ok 5))
    by (vm_compute; reflexivity).
  split; [exact E|].
  refine (parked_reply_is_woken PumpDemo.digest 16777216 PumpDemo.demo_fits held
            (PumpDemo.demo_boot_of ClientDemo.lossy) PumpDemo.parked 5 (PumpDemo.reply_ok 5)
            PumpDemo.parked_reachable PumpDemo.parked_bounded E _).
  vm_compute. reflexivity.
Defined.
