(* ===== verification/Text.v ===== *)
(** The string and address primitives of Rust's standard library that the
    egress configuration, the key policy check and the key tool use.

    A [str] is the list of its Unicode scalar values, so that [chars], [trim]
    and [split] are list functions; [str_len] is the length in bytes, which is
    what [str::len] returns.  Numbers and addresses are parsed as
    [core::num] and [core::net::parser] do: the parser is a function from the
    remaining input to a value and the rest, and a failed attempt leaves the
    input where it was. *)
From stdpp Require Import base list strings.
From S2P Require Import Prelude.
#[local] Open Scope Z_scope.

(** Closes an equation between closed terms by evaluating its sides; unlike
    [vm_compute], it does not build the normal form of type arguments. *)
Ltac by_vm := lazymatch goal with |- @eq ?T ?a ?b => exact (@eq_refl T b <: @eq T a b) end.

(** A [str], as its scalar values. *)
Abbreviation str := (list Z) (only parsing).

(** An ASCII literal. *)
Definition lit (s : string) : str := bytes_of_string s.

(** ** Characters *)

(** [char::is_whitespace]: the Unicode property White_Space. *)
Definition is_whitespace (c : Z) : bool :=
  (9 <=? c) && (c <=? 13) || (c =? 32) || (c =? 133) || (c =? 160) || (c =? 5760)
  || (8192 <=? c) && (c <=? 8202) || (c =? 8232) || (c =? 8233) || (c =? 8239)
  || (c =? 8287) || (c =? 12288).

(** [u8::is_ascii_whitespace]. *)
Definition is_ascii_whitespace (b : Z) : bool :=
  (b =? 9) || (b =? 10) || (b =? 12) || (b =? 13) || (b =? 32).

Definition is_upper (c : Z) : bool := (65 <=? c) && (c <=? 90).
Definition is_lower (c : Z) : bool := (97 <=? c) && (c <=? 122).
Definition is_digit (c : Z) : bool := (48 <=? c) && (c <=? 57).

(** [char::is_ascii_alphanumeric]. *)
Definition is_ascii_alphanumeric (c : Z) : bool := is_upper c || is_lower c || is_digit c.

(** [char::to_digit]. *)
Definition to_digit (radix c : Z) : option Z :=
  let d := if is_digit c then c - 48
           else if is_lower c then c - 87
           else if is_upper c then c - 55 else radix in
  if d <? radix then Some d else None.

Definition to_lower (c : Z) : Z := if is_upper c then c + 32 else c.

(** [str::to_ascii_lowercase]. *)
Definition to_ascii_lowercase (s : str) : str := to_lower <$> s.

(** [String::from_utf8]: the scalar values of well-formed UTF-8. *)
Definition is_continuation (b : Z) : bool := (128 <=? b) && (b <? 192).

Fixpoint from_utf8 (l : bytes) : option str :=
  match l with
  | [] => Some []
  | b0 :: r0 =>
      if b0 <? 128 then cons b0 <$> from_utf8 r0
      else match r0 with
      | [] => None
      | b1 :: r1 =>
          if negb (is_continuation b1) then None
          else if (194 <=? b0) && (b0 <? 224)
          then cons ((b0 - 192) * 64 + (b1 - 128)) <$> from_utf8 r1
          else match r1 with
          | [] => None
          | b2 :: r2 =>
              if negb (is_continuation b2) then None
              else if (224 <=? b0) && (b0 <? 240) then
                let c := (b0 - 224) * 4096 + (b1 - 128) * 64 + (b2 - 128) in
                if (c <? 2048) || ((55296 <=? c) && (c <? 57344)) then None
                else cons c <$> from_utf8 r2
              else match r2 with
              | [] => None
              | b3 :: r3 =>
                  let c := (b0 - 240) * 262144 + (b1 - 128) * 4096 + (b2 - 128) * 64 + (b3 - 128) in
                  if negb (is_continuation b3) || negb ((240 <=? b0) && (b0 <? 245)) ||
                     (c <? 65536) || (1114112 <=? c) then None
                  else cons c <$> from_utf8 r3
              end
          end
      end
  end.

(** [char::len_utf8] and [str::len]. *)
Definition len_utf8 (c : Z) : Z :=
  if c <? 128 then 1 else if c <? 2048 then 2 else if c <? 65536 then 3 else 4.
Definition str_len (s : str) : Z := foldr (fun c n => len_utf8 c + n) 0 s.

(** ** Slicing *)

Fixpoint trim_start (s : str) : str :=
  match s with
  | c :: s' => if is_whitespace c then trim_start s' else s
  | [] => []
  end.

Definition trim_end (s : str) : str := reverse (trim_start (reverse s)).

(** [str::trim]. *)
Definition trim (s : str) : str := trim_end (trim_start s).

(** [str::split_once] at the first [sep]. *)
Fixpoint split_once (sep : Z) (s : str) : option (str * str) :=
  match s with
  | [] => None
  | c :: s' =>
      if c =? sep then Some ([], s')
      else match split_once sep s' with
           | Some (a, b) => Some (c :: a, b)
           | None => None
           end
  end.

(** [str::rsplit_once], at the last [sep]. *)
Definition rsplit_once (sep : Z) (s : str) : option (str * str) :=
  match split_once sep (reverse s) with
  | Some (b, a) => Some (reverse a, reverse b)
  | None => None
  end.

(** [str::split]. *)
Fixpoint split_on (sep : Z) (s : str) : list str :=
  match s with
  | [] => [[]]
  | c :: s' =>
      if c =? sep then [] :: split_on sep s'
      else match split_on sep s' with
           | l :: ls => (c :: l) :: ls
           | [] => [[c]]
           end
  end.

Definition contains_char (s : str) (c : Z) : bool := bool_decide (c ∈ s).
Definition starts_with (s : str) (c : Z) : bool := bool_decide (head s = Some c).
Definition ends_with (s : str) (c : Z) : bool := bool_decide (last s = Some c).

(** ** Numbers *)

Inductive ParseIntError : Type := PIE_Empty | PIE_InvalidDigit | PIE_PosOverflow.

#[global] Instance ParseIntError_eq_dec : EqDecision ParseIntError.
Proof. solve_decision. Defined.

(** The digit loop of [from_str_radix]: at each digit the invalid-digit error
    comes before the overflow of the multiplication. *)
Fixpoint parse_digits (max acc : Z) (s : str) : result Z ParseIntError :=
  match s with
  | [] => Ok acc
  | c :: s' =>
      match to_digit 10 c with
      | None => Err PIE_InvalidDigit
      | Some d =>
          if max <? acc * 10 then Err PIE_PosOverflow
          else if max <? acc * 10 + d then Err PIE_PosOverflow
          else parse_digits max (acc * 10 + d) s'
      end
  end.

(** [uN::from_str], with [max] the largest value of the type. *)
Definition parse_uint (max : Z) (s : str) : result Z ParseIntError :=
  match s with
  | [] => Err PIE_Empty
  | [c] => if (c =? 43) || (c =? 45) then Err PIE_InvalidDigit else parse_digits max 0 s
  | c :: s' => if c =? 43 then parse_digits max 0 s' else parse_digits max 0 s
  end.

Definition u16_max : Z := 2 ^ 16 - 1.

(** Decimal digits of a number, as [Display] prints them. *)
Fixpoint print_digits (fuel : nat) (n : Z) (acc : str) : str :=
  match fuel with
  | O => acc
  | S fuel' =>
      let acc := (48 + n mod 10) :: acc in
      if n <? 10 then acc else print_digits fuel' (n / 10) acc
  end.
Definition print_uint (n : Z) : str := print_digits 20 n [].

(** ** Addresses *)

(** An [Ipv4Addr] is its 32-bit number. *)
Abbreviation Ipv4Addr := Z (only parsing).

Inductive IpAddr : Type :=
| V4 (a : Ipv4Addr)
| V6 (groups : list Z).

Definition ip_of_octets (octets : bytes) : Ipv4Addr := be_decode octets.
Definition octets (a : Ipv4Addr) : bytes := be_encode 4 a.

(** Reads digits while there are any; [None] once there are more than [left]. *)
Fixpoint read_digits (radix : Z) (left : nat) (acc : Z) (count : nat) (s : str)
    {struct s} : option (Z * nat * str) :=
  match s with
  | c :: s' =>
      match to_digit radix c with
      | Some d => match left with
                  | O => None
                  | S left' => read_digits radix left' (acc * radix + d) (S count) s'
                  end
      | None => Some (acc, count, s)
      end
  | [] => Some (acc, count, [])
  end.

(** [Parser::read_number], for a type whose largest value is [max]. *)
Definition read_number (max radix : Z) (max_digits : nat) (allow_zero_prefix : bool) (s : str)
    : option (Z * str) :=
  match read_digits radix max_digits 0 0 s with
  | None => None
  | Some (v, count, rest) =>
      if (count =? 0)%nat then None
      else if negb allow_zero_prefix && starts_with s 48 && (1 <? count)%nat then None
      else if max <? v then None
      else Some (v, rest)
  end.

Definition read_given_char (c : Z) (s : str) : option str :=
  match s with
  | c' :: s' => if c' =? c then Some s' else None
  | [] => None
  end.

(** [Parser::read_separator]: the separator first, except at index 0. *)
Definition read_separator {A} (sep : Z) (index : nat) (inner : str -> option (A * str)) (s : str)
    : option (A * str) :=
  if (index =? 0)%nat then inner s
  else match read_given_char sep s with
       | Some s' => inner s'
       | None => None
       end.

Fixpoint read_octets (n index : nat) (s : str) : option (bytes * str) :=
  match n with
  | O => Some ([], s)
  | S n' =>
      match read_separator 46 index (read_number 255 10 3 false) s with
      | None => None
      | Some (o, s') =>
          match read_octets n' (S index) s' with
          | Some (os, s'') => Some (o :: os, s'')
          | None => None
          end
      end
  end.

Definition read_ipv4_addr (s : str) : option (Ipv4Addr * str) :=
  match read_octets 4 0 s with
  | Some (os, rest) => Some (ip_of_octets os, rest)
  | None => None
  end.

(** [read_groups] of the IPv6 parser: at most [limit - i] further groups from
    index [i]; the flag says whether the last two came from a dotted quad. *)
Fixpoint read_groups (left i limit : nat) (s : str) : list Z * bool * str :=
  match left with
  | O => ([], false, s)
  | S left' =>
      match (if (i <? limit - 1)%nat then read_separator 58 i read_ipv4_addr s else None) with
      | Some (v4, rest) => ([v4 / 65536; v4 mod 65536], true, rest)
      | None =>
          match read_separator 58 i (read_number 65535 16 4 true) s with
          | None => ([], false, s)
          | Some (g, rest) =>
              let '(gs, v4, rest) := read_groups left' (S i) limit rest in
              (g :: gs, v4, rest)
          end
      end
  end.

Definition read_ipv6_addr (s : str) : option (list Z * str) :=
  let '(hd, head_ipv4, rest) := read_groups 8 0 8 s in
  if (length hd =? 8)%nat then Some (hd, rest)
  else if head_ipv4 then None
  else match read_given_char 58 rest with
  | None => None
  | Some rest =>
      match read_given_char 58 rest with
      | None => None
      | Some rest =>
          let limit := (8 - (length hd + 1))%nat in
          let '(tl, _, rest) := read_groups limit 0 limit rest in
          Some (hd ++ repeat 0 (8 - length hd - length tl) ++ tl, rest)
      end
  end.

Definition read_ip_addr (s : str) : option (IpAddr * str) :=
  match read_ipv4_addr s with
  | Some (a, rest) => Some (V4 a, rest)
  | None => match read_ipv6_addr s with
            | Some (g, rest) => Some (V6 g, rest)
            | None => None
            end
  end.

(** [parse_with]: the whole input must be read. *)
Definition parse_with {A} (p : str -> option (A * str)) (s : str) : option A :=
  match p s with
  | Some (a, []) => Some a
  | _ => None
  end.

(** [Ipv4Addr::from_str]. *)
Definition parse_ipv4 (s : str) : option Ipv4Addr :=
  if 15 <? str_len s then None else parse_with read_ipv4_addr s.

(** [IpAddr::from_str]. *)
Definition parse_ip (s : str) : option IpAddr := parse_with read_ip_addr s.

Example parse_ip_examples :
  parse_ip (lit "1.2.3.4") = Some (V4 16909060) /\ parse_ip (lit "1.2.3.04") = None /\
  parse_ip (lit "1.2.3.256") = None /\ parse_ip (lit "1.2.3.4:80") = None /\
  parse_ip (lit "::1") = Some (V6 [0; 0; 0; 0; 0; 0; 0; 1]) /\
  parse_ip (lit "2606:4700::1111") = Some (V6 [9734; 18176; 0; 0; 0; 0; 0; 4369]) /\
  parse_ip (lit "::ffff:1.2.3.4") = Some (V6 [0; 0; 0; 0; 0; 65535; 258; 772]) /\
  parse_ip (lit "1:2:3:4:5:6:7:8:9") = None /\ parse_ip (lit "api.example.com") = None.
Proof. by vm_compute. Qed.

Example parse_uint_examples :
  parse_uint u16_max (lit "443") = Ok 443 /\ parse_uint u16_max (lit "+443") = Ok 443 /\
  parse_uint u16_max (lit "65536") = Err PIE_PosOverflow /\
  parse_uint u16_max (lit "-1") = Err PIE_InvalidDigit /\
  parse_uint u16_max (lit "") = Err PIE_Empty /\
  print_uint 65535 = lit "65535" /\ print_uint 0 = lit "0".
Proof. by vm_compute. Qed.

(** ** Facts *)

Lemma trim_start_head s c s' : trim_start s = c :: s' -> is_whitespace c = false.
Proof. induction s as [|a s IH]; simpl; [done|]. destruct (is_whitespace a) eqn:E; naive_solver. Qed.

Lemma trim_start_fixed s : (forall c, head s = Some c -> is_whitespace c = false) -> trim_start s = s.
Proof. destruct s as [|c s]; simpl; [done|]. intros H. by rewrite (H c). Qed.

Lemma trim_start_suffix s : exists p, s = p ++ trim_start s.
Proof.
  induction s as [|c s [p IH]]; simpl; [by exists []|].
  destruct (is_whitespace c); [exists (c :: p)|by exists []]. simpl. congruence.
Qed.

Lemma trim_end_prefix s : exists p, s = trim_end s ++ p.
Proof.
  unfold trim_end. destruct (trim_start_suffix (reverse s)) as [p Hp].
  exists (reverse p). by rewrite <-reverse_app, <-Hp, reverse_involutive.
Qed.

Lemma trim_start_white s c : head (trim_start s) = Some c -> is_whitespace c = false.
Proof.
  destruct (trim_start s) as [|c' r] eqn:E; simpl; [done|]. intros [= <-]. by eapply trim_start_head.
Qed.

Lemma trim_end_head s c : head (trim_end s) = Some c -> head s = Some c.
Proof. destruct (trim_end_prefix s) as [p Hp]. rewrite Hp at 2. by destruct (trim_end s). Qed.

(** Trimming leaves neither end white. *)
Lemma trim_idemp s : trim (trim s) = trim s.
Proof.
  unfold trim. rewrite (trim_start_fixed (trim_end _)).
  - unfold trim_end. rewrite reverse_involutive. f_equal. apply trim_start_fixed.
    apply trim_start_white.
  - intros c Hc%trim_end_head. by eapply trim_start_white.
Qed.

Lemma parse_digits_range max acc s n :
  0 <= acc <= max -> parse_digits max acc s = Ok n -> 0 <= n <= max.
Proof.
  revert acc. induction s as [|c s IH]; simpl; intros acc Ha H; [by simplify_eq|].
  destruct (to_digit 10 c) as [d|] eqn:Ed; [|done].
  destruct (max <? acc * 10) eqn:E1; [done|]. destruct (max <? acc * 10 + d) eqn:E2; [done|].
  apply IH in H; [done|]. unfold to_digit in Ed.
  assert (0 <= d) by (unfold is_digit, is_lower, is_upper in Ed; repeat case_match; simplify_eq; lia).
  lia.
Qed.

Lemma parse_uint_range max s n : 0 <= max -> parse_uint max s = Ok n -> 0 <= n <= max.
Proof.
  intros Hm. unfold parse_uint. destruct s as [|c [|c' s]]; [done| |]; case_match; try done;
    apply parse_digits_range; lia.
Qed.

Lemma to_digit_ascii c d radix : radix <= 36 -> to_digit radix c = Some d -> 0 <= d /\ len_utf8 c = 1.
Proof.
  intros Hr. unfold to_digit, len_utf8, is_digit, is_lower, is_upper.
  intros H. destruct ((48 <=? c) && (c <=? 57)) eqn:E1; [|destruct ((97 <=? c) && (c <=? 122)) eqn:E2;
    [|destruct ((65 <=? c) && (c <=? 90)) eqn:E3]]; simpl in H.
  4: by rewrite Z.ltb_irrefl in H.
  all: destruct (_ <? radix) eqn:?; simplify_eq; split; [lia|]; rewrite (proj2 (Z.ltb_lt c 128)); lia.
Qed.

(** What [read_digits] consumed: at most [left] ASCII digits. *)
Lemma read_digits_consumed radix left acc count s v n rest :
  radix <= 36 -> read_digits radix left acc count s = Some (v, n, rest) ->
  str_len s <= str_len rest + Z.of_nat left.
Proof.
  intros Hr. revert left acc count. induction s as [|c s IH]; simpl; intros left acc count H.
  { simplify_eq. simpl. lia. }
  destruct (to_digit radix c) as [d|] eqn:Ed; [|simplify_eq; simpl; lia].
  destruct left as [|left]; [done|]. apply IH in H.
  apply to_digit_ascii in Ed as [_ ->]; [|done]. lia.
Qed.

Lemma read_number_consumed max radix digits zp s v rest :
  radix <= 36 -> read_number max radix digits zp s = Some (v, rest) ->
  str_len s <= str_len rest + Z.of_nat digits.
Proof.
  unfold read_number. intros Hr H. destruct (read_digits _ _ _ _ _) as [[[v' n] r']|] eqn:E; [|done].
  apply read_digits_consumed in E; [|done]. repeat case_match; by simplify_eq.
Qed.

Lemma read_digits_range radix left acc count s v n rest :
  0 < radix <= 36 -> 0 <= acc -> read_digits radix left acc count s = Some (v, n, rest) -> 0 <= v.
Proof.
  intros Hr. revert left acc count. induction s as [|c s IH]; simpl; intros left acc count Ha H.
  { by simplify_eq. }
  destruct (to_digit radix c) as [d|] eqn:Ed; [|by simplify_eq].
  destruct left as [|left]; [done|]. apply IH in H; [done|].
  apply to_digit_ascii in Ed as [? _]; [|lia]. nia.
Qed.

Lemma read_octets_spec n i s os rest :
  read_octets n i s = Some (os, rest) ->
  length os = n /\ forallb is_byte os = true /\
  str_len s <= str_len rest + Z.of_nat (4 * n) - (if (i =? 0)%nat then Z.min 1 (Z.of_nat n) else 0).
Proof.
  revert i s os. induction n as [|n IH]; intros i s os H; simpl in H.
  { simplify_eq. split_and!; [done|done|]. destruct (i =? 0)%nat; simpl; lia. }
  destruct (read_separator _ _ _ s) as [[o s']|] eqn:E; [|done].
  destruct (read_octets n (S i) s') as [[os' s'']|] eqn:E'; [|done]. simplify_eq.
  apply IH in E' as (Hl & Hb & Hs). cbn [Nat.eqb] in Hs. simpl length. simpl forallb.
  unfold read_separator in E.
  assert (Hn : exists t, read_number 255 10 3 false t = Some (o, s') /\
    str_len s <= str_len t + (if (i =? 0)%nat then 0 else 1)).
  { destruct (i =? 0)%nat; [exists s; split; [done|lia]|].
    destruct s as [|c s]; [done|]. simpl in E. destruct (c =? 46) eqn:Ec; [|done].
    exists s. split; [done|]. assert (c = 46) as -> by lia. simpl. unfold len_utf8. simpl. lia. }
  destruct Hn as (t & Ht & Hst). pose proof (read_number_consumed 255 10 3 false _ _ _ ltac:(lia) Ht) as Hc.
  split_and!; [lia| |].
  - rewrite Hb, andb_true_r. unfold read_number in Ht.
    destruct (read_digits _ _ _ _ t) as [[[v c] r]|] eqn:Er; [|done].
    apply read_digits_range in Er; [|lia..]. unfold is_byte. repeat case_match; simplify_eq; lia.
  - destruct (i =? 0)%nat; lia.
Qed.

Lemma be_decode_range l : forallb is_byte l = true -> 0 <= be_decode l < 256 ^ Z.of_nat (length l).
Proof.
  induction l as [|b l IH] using rev_ind; intros Hb; [done|].
  rewrite forallb_app in Hb. apply andb_true_iff in Hb as [Hl Hb]. simpl in Hb. unfold is_byte in Hb.
  rewrite be_decode_app, length_app. simpl length.
  replace (Z.of_nat (length l + 1)) with (Z.succ (Z.of_nat (length l))) by lia.
  rewrite Z.pow_succ_r by lia. specialize (IH Hl). lia.
Qed.

Lemma read_ipv4_range s a rest : read_ipv4_addr s = Some (a, rest) -> 0 <= a < 2 ^ 32.
Proof.
  unfold read_ipv4_addr. destruct (read_octets 4 0 s) as [[os r]|] eqn:E; [|done].
  intros; simplify_eq. apply read_octets_spec in E as (Hl & Hb & _).
  apply be_decode_range in Hb. by rewrite Hl in Hb.
Qed.

(** [Ipv4Addr::from_str] and the V4 half of [IpAddr::from_str] agree. *)
Lemma parse_ip_V4 s a : parse_ip s = Some (V4 a) <-> parse_ipv4 s = Some a.
Proof.
  unfold parse_ip, parse_ipv4, parse_with, read_ip_addr.
  destruct (read_ipv4_addr s) as [[b r]|] eqn:E.
  - assert (r = [] -> (15 <? str_len s) = false) as Hlen.
    { intros ->. unfold read_ipv4_addr in E. destruct (read_octets 4 0 s) as [[os r]|] eqn:E'; [|done].
      apply read_octets_spec in E' as (_ & _ & Hs). simplify_eq. simpl in Hs. lia. }
    destruct r; [rewrite Hlen by done; naive_solver|]. destruct (15 <? _); naive_solver.
  - destruct (read_ipv6_addr s) as [[g r]|]; [destruct r|]; destruct (15 <? _); naive_solver.
Qed.

Lemma parse_ipv4_range s a : parse_ipv4 s = Some a -> 0 <= a < 2 ^ 32.
Proof.
  unfold parse_ipv4, parse_with. case_match; [done|].
  destruct (read_ipv4_addr s) as [[b [|]]|] eqn:E; [|done|done].
  intros; simplify_eq. by eapply read_ipv4_range.
Qed.

(** A character of a string is the separator or is in one of the pieces. *)
Lemma split_on_elem sep s c :
  c ∈ s -> c = sep \/ exists l, l ∈ split_on sep s /\ c ∈ l.
Proof.
  induction s as [|a s IH]; simpl; [by intros ?%elem_of_nil|].
  intros [->|H]%elem_of_cons.
  - destruct (a =? sep) eqn:E; [left; lia|]. right.
    destruct (split_on sep s) as [|l ls]; eexists; (split; [left|left]).
  - destruct (IH H) as [->|(l & Hl & Hc)]; [by left|right].
    destruct (a =? sep) eqn:E; [exists l; split; [by right|done]|].
    destruct (split_on sep s) as [|l' ls]; [by apply elem_of_nil in Hl|].
    apply elem_of_cons in Hl as [->|Hl]; [exists (a :: l'); split; [left|by right]|].
    exists l. split; [by right|done].
Qed.

Lemma split_once_app c a b : c ∉ a -> split_once c (a ++ c :: b) = Some (a, b).
Proof.
  induction a as [|x a IH]; intros Hc; cbn [app split_once]; [by rewrite Z.eqb_refl|].
  apply not_elem_of_cons in Hc as [Hne Hc]. rewrite (proj2 (Z.eqb_neq x c)) by congruence. by rewrite IH.
Qed.

Lemma to_lower_lower c : to_lower (to_lower c) = to_lower c.
Proof. unfold to_lower, is_upper. repeat case_match; lia. Qed.

Lemma to_ascii_lowercase_idemp s : to_ascii_lowercase (to_ascii_lowercase s) = to_ascii_lowercase s.
Proof.
  unfold to_ascii_lowercase. rewrite <-list_fmap_compose. apply list_fmap_ext.
  intros. apply to_lower_lower.
Qed.
