(* ===== verification/EgressConfig.v ===== *)
(** The egress allowlist ([enclavia-protocol/src/egress_config.rs]): the
    document the command line tool and the backend write and the daemon in the
    enclave enforces, its parser, its validation and its matchers.

    The ipnet crate (CIDR blocks) is the class [Ipnet]; serde's JSON decoders
    are arguments.  The results: what [from_raw] accepts and the
    well-formedness of what it builds, and that what the command line accepts
    is what the daemon enforces. *)
From stdpp Require Import base list strings.
From S2P Require Import Prelude Text.
#[local] Open Scope Z_scope.

(** ** The document *)

Inductive Protocol : Type := Tcp | Udp.

#[global] Instance Protocol_eq_dec : EqDecision Protocol.
Proof. solve_decision. Defined.

Inductive RawPort : Type :=
| Num (n : Z)
| Str (s : str).

Inductive PortMatcher : Type :=
| Any
| Single (p : Z).

#[global] Instance PortMatcher_eq_dec : EqDecision PortMatcher.
Proof. solve_decision. Defined.

Record RawEgressEntry := mkRawEgressEntry {
  re_host : str;
  re_port : RawPort;
  re_protocol : Protocol;
}.

Inductive DnsMode : Type := Allowlist | Open.

#[global] Instance DnsMode_eq_dec : EqDecision DnsMode.
Proof. solve_decision. Defined.

Definition SCHEMA_VERSION : Z := 1.

Record RawAllowlist := mkRawAllowlist {
  raw_version : Z;
  raw_resolvers : list str;
  raw_egress : list RawEgressEntry;
  raw_dns : DnsMode;
}.

Definition new_v1 : RawAllowlist := mkRawAllowlist SCHEMA_VERSION [] [] Allowlist.

(** The ipnet crate's [Ipv4Net]: [FromStr] and [contains]. *)
Class Ipnet := {
  Ipv4Net : Type;
  net_from_str : str -> option Ipv4Net;
  net_contains : Ipv4Net -> Ipv4Addr -> bool;
}.

(** ** Errors *)

Inductive HostnameFault : Type :=
| HF_Empty
| HF_TooLong
| HF_DotAtEnd
| HF_EmptyLabel
| HF_LabelTooLong
| HF_HyphenAtEnd
| HF_BadCharacter.

Inductive AllowlistLoadError : Type :=
| AL_Io (detail : string)
| AL_Json (detail : string)
| UnsupportedVersion (version : Z)
| UdpNotSupported (host port : str)
| BadPort (port : str)
| DnsOpenWithoutResolvers
| AL_InvalidHostname (host : str) (reason : HostnameFault).

Inductive AllowlistFlagError : Type :=
| BadEntryShape (spec : str)
| MissingPort (spec : str)
| InvalidPort (spec : str) (e : ParseIntError)
| PortZero (spec : str)
| UnsupportedProtocol (spec proto : str)
| EmptyHost (spec : str)
| IpV6Host (spec : str)
| AF_InvalidHostname (spec host : str) (reason : HostnameFault)
| InvalidResolver (spec : str)
| InvalidDnsMode (spec : str)
| Validation (e : AllowlistLoadError).

(** ** Ports *)

Definition WILDCARD : str := lit "*".

(** [RawPort]'s [Display]. *)
Definition raw_port_display (p : RawPort) : str :=
  match p with Num n => print_uint n | Str s => s end.

Definition to_matcher (p : RawPort) : result PortMatcher AllowlistLoadError :=
  match p with
  | Num n => if n =? 0 then Err (BadPort (lit "0")) else Ok (Single n)
  | Str s => if bool_decide (s = WILDCARD) then Ok Any else Err (BadPort s)
  end.

Definition port_matches (m : PortMatcher) (port : Z) : bool :=
  match m with Any => true | Single p => p =? port end.

(** [DnsMode::from_str]. *)
Definition dns_mode_from_str (s : str) : result DnsMode AllowlistFlagError :=
  let l := to_ascii_lowercase (trim s) in
  if bool_decide (l = lit "allowlist") then Ok Allowlist
  else if bool_decide (l = lit "open") then Ok Open
  else Err (InvalidDnsMode s).

(** ** Host names *)

Definition validate_label (label : str) : result unit HostnameFault :=
  if bool_decide (label = []) then Err HF_EmptyLabel
  else if 63 <? str_len label then Err HF_LabelTooLong
  else if starts_with label 45 || ends_with label 45 then Err HF_HyphenAtEnd
  else if negb (forallb (fun c => is_ascii_alphanumeric c || (c =? 45)) label)
  then Err HF_BadCharacter
  else Ok tt.

Fixpoint validate_labels (labels : list str) : result unit HostnameFault :=
  match labels with
  | [] => Ok tt
  | label :: labels => let? _ := validate_label label in validate_labels labels
  end.

Definition validate_hostname (host : str) : result unit HostnameFault :=
  if bool_decide (host = []) then Err HF_Empty
  else if 253 <? str_len host then Err HF_TooLong
  else if starts_with host 46 || ends_with host 46 then Err HF_DotAtEnd
  else validate_labels (split_on 46 host).

Section Egress.
Context `{Ipnet}.

(** ** The typed configuration *)

Inductive HostMatcher : Type :=
| Literal (a : Ipv4Addr)
| Cidr (net : Ipv4Net).

Definition host_contains (m : HostMatcher) (ip : Ipv4Addr) : bool :=
  match m with
  | Literal a => a =? ip
  | Cidr net => net_contains net ip
  end.

Record AllowlistEntry := mkAllowlistEntry {
  ae_host : HostMatcher;
  ae_port : PortMatcher;
  ae_protocol : Protocol;
  ae_trusted_source_only : bool;
}.

Record HostnameEntry := mkHostnameEntry {
  he_host : str;
  he_port : PortMatcher;
  he_protocol : Protocol;
}.

Record AllowlistConfig := mkAllowlistConfig {
  ac_entries : list AllowlistEntry;
  ac_resolvers : list Ipv4Addr;
  ac_hostnames : list HostnameEntry;
  ac_dns : DnsMode;
}.

Definition empty : AllowlistConfig := mkAllowlistConfig [] [] [] Allowlist.

(** The body of the entry loop of [from_raw]: the two vectors it pushes to. *)
Definition add_entry (raw_entry : RawEgressEntry)
    (acc : list AllowlistEntry * list HostnameEntry)
    : result (list AllowlistEntry * list HostnameEntry) AllowlistLoadError :=
  let (entries, hostnames) := acc in
  match re_protocol raw_entry with
  | Udp => Err (UdpNotSupported (trim (re_host raw_entry)) (raw_port_display (re_port raw_entry)))
  | Tcp =>
      let? port := to_matcher (re_port raw_entry) in
      let host := trim (re_host raw_entry) in
      match net_from_str host with
      | Some net => Ok (entries ++ [mkAllowlistEntry (Cidr net) port Tcp false], hostnames)
      | None =>
          match parse_ip host with
          | Some (V4 v4) =>
              Ok (entries ++ [mkAllowlistEntry (Literal v4) port Tcp false], hostnames)
          | Some (V6 _) => Ok (entries, hostnames)
          | None =>
              match validate_hostname host with
              | Err reason => Err (AL_InvalidHostname host reason)
              | Ok _ => Ok (entries, hostnames ++ [mkHostnameEntry (to_ascii_lowercase host) port Tcp])
              end
          end
      end
  end.

Fixpoint add_entries (raw : list RawEgressEntry)
    (acc : list AllowlistEntry * list HostnameEntry)
    : result (list AllowlistEntry * list HostnameEntry) AllowlistLoadError :=
  match raw with
  | [] => Ok acc
  | r :: raw => let? acc := add_entry r acc in add_entries raw acc
  end.

(** The resolver loop of [from_raw]. *)
Definition usable_resolver (r : str) : option Ipv4Addr :=
  match parse_ip (trim r) with
  | Some (V4 v4) => Some v4
  | _ => None
  end.

Definition from_raw (raw : RawAllowlist) : result AllowlistConfig AllowlistLoadError :=
  if negb (raw_version raw =? 1) then Err (UnsupportedVersion (raw_version raw))
  else
    let? (entries, hostnames) := add_entries (raw_egress raw) ([], []) in
    let resolvers := omap usable_resolver (raw_resolvers raw) in
    if bool_decide (raw_dns raw = Open) && bool_decide (resolvers = [])
    then Err DnsOpenWithoutResolvers
    else Ok (mkAllowlistConfig entries resolvers hostnames (raw_dns raw)).

Definition push_entry (cfg : AllowlistConfig) (entry : AllowlistEntry) : AllowlistConfig :=
  mkAllowlistConfig (ac_entries cfg ++ [entry]) (ac_resolvers cfg) (ac_hostnames cfg) (ac_dns cfg).

(** The predicate [allows_tcp] folds over the entries. *)
Definition entry_allows (ip port : Z) (trusted_src : bool) (e : AllowlistEntry) : bool :=
  bool_decide (ae_protocol e = Tcp) && port_matches (ae_port e) port &&
  host_contains (ae_host e) ip && (negb (ae_trusted_source_only e) || trusted_src).

Definition allows_tcp (cfg : AllowlistConfig) (ip port : Z) (trusted_src : bool) : bool :=
  existsb (entry_allows ip port trusted_src) (ac_entries cfg).

Definition tcp_hostnames_for_port (cfg : AllowlistConfig) (port : Z) : list HostnameEntry :=
  base.filter (fun h => bool_decide (he_protocol h = Tcp) && port_matches (he_port h) port = true)
    (ac_hostnames cfg).

(** ** Loading *)

(** What [fs::read] returns. *)
Inductive FileRead : Type :=
| FR_Bytes (bs : bytes)
| FR_NotFound
| FR_Error (detail : string).

Section Json.
(** [serde_json::from_slice] and [from_value] at [RawAllowlist]. *)
Context (Value : Type) (from_slice : bytes -> result RawAllowlist string)
  (from_value : Value -> result RawAllowlist string).

Definition from_bytes (bs : bytes) : result AllowlistConfig AllowlistLoadError :=
  let? raw := map_err AL_Json (from_slice bs) in
  from_raw raw.

Definition load_or_empty (file : FileRead) : result AllowlistConfig AllowlistLoadError :=
  match file with
  | FR_NotFound => Ok empty
  | FR_Error detail => Err (AL_Io detail)
  | FR_Bytes bs =>
      if forallb is_ascii_whitespace bs then Ok empty else from_bytes bs
  end.

Definition validate_json (value : Value) : result RawAllowlist AllowlistFlagError :=
  let? raw := map_err (fun e => Validation (AL_Json e)) (from_value value) in
  let? _ := map_err Validation (from_raw raw) in
  Ok raw.
End Json.

(** ** The command line *)

(** The protocol suffix: only a tail without a colon is one. *)
Definition split_protocol (spec trimmed : str) : result (str * Protocol) AllowlistFlagError :=
  match rsplit_once 47 trimmed with
  | Some (head, tail) =>
      if contains_char tail 58 then Ok (trimmed, Tcp)
      else
        let l := to_ascii_lowercase tail in
        if bool_decide (l = lit "tcp") then Ok (head, Tcp)
        else if bool_decide (l = lit "udp") then Ok (head, Udp)
        else Err (UnsupportedProtocol spec tail)
  | None => Ok (trimmed, Tcp)
  end.

Definition cli_port (spec port_str : str) : result RawPort AllowlistFlagError :=
  if bool_decide (trim port_str = WILDCARD) then Ok (Str WILDCARD)
  else
    let? n := map_err (InvalidPort spec) (parse_uint u16_max (trim port_str)) in
    if n =? 0 then Err (PortZero spec) else Ok (Num n).

Definition is_none {A} (o : option A) : bool := match o with None => true | Some _ => false end.

(** The up-front check of the host. *)
Definition cli_host (spec host : str) : result unit AllowlistFlagError :=
  if is_none (net_from_str host) && is_none (parse_ipv4 host) then
    match parse_ip host with
    | Some (V6 _) => Err (IpV6Host spec)
    | _ => map_err (AF_InvalidHostname spec host) (validate_hostname host)
    end
  else Ok tt.

Definition parse_cli_entry (spec : str) : result RawEgressEntry AllowlistFlagError :=
  let trimmed := trim spec in
  if bool_decide (trimmed = []) then Err (BadEntryShape spec)
  else
    let? (head, protocol) := split_protocol spec trimmed in
    let? (host, port_str) := ok_or (rsplit_once 58 head) (MissingPort spec) in
    let host := trim host in
    if bool_decide (host = []) then Err (EmptyHost spec)
    else
      let? port := cli_port spec port_str in
      let? _ := cli_host spec host in
      Ok (mkRawEgressEntry host port protocol).

Definition parse_cli_resolver (spec : str) : result str AllowlistFlagError :=
  let trimmed := trim spec in
  match parse_ip trimmed with
  | Some (V4 _) => Ok trimmed
  | _ => Err (InvalidResolver spec)
  end.

(** A loop that pushes each parsed element and stops at the first error. *)
Fixpoint parse_all {A B E} (f : A -> result B E) (l : list A) : result (list B) E :=
  match l with
  | [] => Ok []
  | a :: l => let? b := f a in let? bs := parse_all f l in Ok (b :: bs)
  end.

Definition assemble_from_cli (allow_specs resolver_specs : list str) (dns : option DnsMode)
    : result RawAllowlist AllowlistFlagError :=
  let? egress := parse_all parse_cli_entry allow_specs in
  let? resolvers := parse_all parse_cli_resolver resolver_specs in
  let raw := mkRawAllowlist (raw_version new_v1) resolvers egress (default (raw_dns new_v1) dns) in
  let? _ := map_err Validation (from_raw raw) in
  Ok raw.
End Egress.

(** ** What [from_raw] accepts *)

(** A character of a canonical host name: lower-case letter, digit, hyphen or
    dot; in particular no white space and no control character. *)
Definition host_char (c : Z) : bool := is_lower c || is_digit c || (c =? 45) || (c =? 46).

Record canonical_hostname (h : str) : Prop := {
  ch_nonempty : h <> [];
  ch_length : str_len h <= 253;
  ch_chars : Forall (fun c => host_char c = true) h;
  ch_lower : to_ascii_lowercase h = h;
  ch_labels : Forall (fun l => l <> [] /\ str_len l <= 63) (split_on 46 h);
}.

Definition port_wf (m : PortMatcher) : Prop :=
  match m with Any => True | Single p => 1 <= p <= u16_max end.

(** The JSON decoder reads a numeric port as a [u16]. *)
Definition port_u16 (p : RawPort) : Prop :=
  match p with Num n => 0 <= n <= u16_max | Str _ => True end.

Lemma to_matcher_wf p m : port_u16 p -> to_matcher p = Ok m -> port_wf m.
Proof.
  destruct p as [n|s]; simpl; intros Hp H.
  - destruct (n =? 0) eqn:E; [done|]. simplify_eq. simpl. lia.
  - case_bool_decide; by simplify_eq.
Qed.

Lemma validate_labels_Ok ls :
  validate_labels ls = Ok tt <-> Forall (fun l => validate_label l = Ok tt) ls.
Proof.
  induction ls as [|l ls IH]; simpl; [done|]. rewrite Forall_cons, <-IH.
  destruct (validate_label l) as [[]|]; naive_solver.
Qed.

Lemma validate_label_Ok l :
  validate_label l = Ok tt ->
  l <> [] /\ str_len l <= 63 /\
  Forall (fun c => is_ascii_alphanumeric c = true \/ c = 45) l.
Proof.
  unfold validate_label. intros H. case_bool_decide; [done|].
  destruct (63 <? str_len l) eqn:E; [done|]. destruct (_ || _); [done|].
  destruct (forallb _ l) eqn:Ef; [|done]. split_and!; [done|lia|].
  apply Forall_forall. intros c Hc.
  rewrite forallb_forall in Ef. specialize (Ef c (proj1 (list_elem_of_In _ _) Hc)).
  apply orb_true_iff in Ef as [?|?]; [by left|right; lia].
Qed.

Lemma to_lower_host_char c :
  is_ascii_alphanumeric c = true \/ c = 45 \/ c = 46 -> host_char (to_lower c) = true.
Proof.
  unfold is_ascii_alphanumeric, host_char, to_lower, is_upper, is_lower, is_digit.
  intros Hc. destruct ((65 <=? c) && (c <=? 90)) eqn:E; lia.
Qed.

Lemma len_utf8_lower c : len_utf8 (to_lower c) = len_utf8 c.
Proof.
  unfold len_utf8, to_lower, is_upper. destruct ((65 <=? c) && (c <=? 90)) eqn:E; [|done].
  rewrite !(proj2 (Z.ltb_lt _ 128)); lia.
Qed.

Lemma str_len_lower s : str_len (to_ascii_lowercase s) = str_len s.
Proof.
  unfold str_len, to_ascii_lowercase. induction s as [|c s IH]; [done|].
  cbn [fmap list_fmap foldr]. by rewrite len_utf8_lower, IH.
Qed.

Lemma split_on_lower sep s :
  is_upper sep = false -> is_lower sep = false ->
  split_on sep (to_ascii_lowercase s) = to_ascii_lowercase <$> split_on sep s.
Proof.
  intros Hu Hl. unfold to_ascii_lowercase. induction s as [|c s IH]; [done|]. cbn [fmap list_fmap split_on].
  rewrite IH. assert ((to_lower c =? sep) = (c =? sep)) as ->.
  { unfold to_lower. destruct (is_upper c) eqn:E; [|done]. unfold is_upper, is_lower in *. lia. }
  destruct (c =? sep); [done|]. by destruct (split_on sep s).
Qed.

Lemma validate_hostname_canonical h :
  validate_hostname h = Ok tt -> canonical_hostname (to_ascii_lowercase h).
Proof.
  unfold validate_hostname. intros Hv. case_bool_decide as Hne; [done|].
  destruct (253 <? str_len h) eqn:El; [done|]. destruct (_ || _); [done|].
  apply validate_labels_Ok in Hv. split.
  - by destruct h.
  - rewrite str_len_lower. lia.
  - apply Forall_fmap, Forall_forall. intros c Hc. apply to_lower_host_char.
    destruct (split_on_elem 46 h c Hc) as [->|(l & Hl & Hcl)]; [by do 2 right|].
    rewrite Forall_forall in Hv. apply Hv, validate_label_Ok in Hl as (_ & _ & Hch).
    rewrite Forall_forall in Hch. destruct (Hch c Hcl); auto.
  - apply to_ascii_lowercase_idemp.
  - rewrite split_on_lower by done. apply Forall_fmap. eapply Forall_impl; [exact Hv|].
    intros l (Hl & Hlen & _)%validate_label_Ok. cbn. rewrite str_len_lower. split; [|done].
    by destruct l.
Qed.

Section Loaded.
Context `{Ipnet}.

Inductive HostClass : Type :=
| HC_Net (net : Ipv4Net)
| HC_V4 (a : Ipv4Addr)
| HC_V6
| HC_Name.

(** How the loader reads a host. *)
Definition host_class (host : str) : HostClass :=
  match net_from_str host with
  | Some net => HC_Net net
  | None => match parse_ip host with
            | Some (V4 a) => HC_V4 a
            | Some (V6 _) => HC_V6
            | None => HC_Name
            end
  end.

(** The rule an entry stands for. *)
Definition ip_rule (e : RawEgressEntry) : option AllowlistEntry :=
  match to_matcher (re_port e), host_class (trim (re_host e)) with
  | Ok port, HC_Net net => Some (mkAllowlistEntry (Cidr net) port Tcp false)
  | Ok port, HC_V4 a => Some (mkAllowlistEntry (Literal a) port Tcp false)
  | _, _ => None
  end.

Definition name_rule (e : RawEgressEntry) : option HostnameEntry :=
  match to_matcher (re_port e), host_class (trim (re_host e)) with
  | Ok port, HC_Name => Some (mkHostnameEntry (to_ascii_lowercase (trim (re_host e))) port Tcp)
  | _, _ => None
  end.

Record entry_ok (e : RawEgressEntry) : Prop := {
  eo_tcp : re_protocol e = Tcp;
  eo_port : is_ok (to_matcher (re_port e)) = true;
  eo_name : host_class (trim (re_host e)) = HC_Name ->
            validate_hostname (trim (re_host e)) = Ok tt;
}.

Definition add_rules (e : RawEgressEntry) (acc : list AllowlistEntry * list HostnameEntry) :=
  (acc.1 ++ option_list (ip_rule e), acc.2 ++ option_list (name_rule e)).

Lemma add_entry_Ok e acc acc' :
  add_entry e acc = Ok acc' <-> entry_ok e /\ acc' = add_rules e acc.
Proof.
  destruct acc as [es hs]. unfold add_entry, add_rules, ip_rule, name_rule.
  assert (Hok : entry_ok e <-> re_protocol e = Tcp /\ is_ok (to_matcher (re_port e)) = true /\
    (host_class (trim (re_host e)) = HC_Name -> validate_hostname (trim (re_host e)) = Ok tt))
    by (split; [intros []; done|intros (? & ? & ?); by split]).
  rewrite Hok. unfold host_class. clear Hok. simpl.
  destruct (re_protocol e); [|naive_solver].
  destruct (to_matcher (re_port e)) as [port|]; [|naive_solver].
  destruct (net_from_str _) as [net|]; [rewrite app_nil_r; naive_solver|].
  destruct (parse_ip _) as [[a|g]|]; rewrite ?app_nil_r; [naive_solver..|].
  destruct (validate_hostname _) as [[]|]; naive_solver.
Qed.

Lemma add_entries_Ok raws acc acc' :
  add_entries raws acc = Ok acc' <->
  Forall entry_ok raws /\
  acc' = (acc.1 ++ omap ip_rule raws, acc.2 ++ omap name_rule raws).
Proof.
  revert acc. induction raws as [|e raws IH]; intros [es hs]; cbn [add_entries fst snd].
  { simpl. rewrite !app_nil_r, Forall_nil. naive_solver. }
  assert (Hcons : forall A (f : RawEgressEntry -> option A) l,
    l ++ omap f (e :: raws) = (l ++ option_list (f e)) ++ omap f raws).
  { intros A f l. cbn. destruct (f e); simpl; rewrite ?app_nil_r, <-?app_assoc; done. }
  rewrite !Hcons, Forall_cons.
  destruct (add_entry e (es, hs)) as [acc|err] eqn:E.
  - apply add_entry_Ok in E as [Ho ->]. rewrite IH. unfold add_rules. simpl. naive_solver.
  - split; [done|]. intros [[Ho _] _].
    assert (add_entry e (es, hs) = Ok (add_rules e (es, hs))) by (by apply add_entry_Ok). congruence.
Qed.

(** Exact acceptance of a raw document. *)
Lemma from_raw_Ok raw cfg :
  from_raw raw = Ok cfg <->
  raw_version raw = 1 /\ Forall entry_ok (raw_egress raw) /\
  (raw_dns raw = Open -> omap usable_resolver (raw_resolvers raw) <> []) /\
  cfg = mkAllowlistConfig (omap ip_rule (raw_egress raw)) (omap usable_resolver (raw_resolvers raw))
          (omap name_rule (raw_egress raw)) (raw_dns raw).
Proof.
  unfold from_raw. destruct (raw_version raw =? 1) eqn:Ev; simpl; [|split; [done|]; lia].
  destruct (add_entries _ _) as [[es hs]|] eqn:E.
  - apply add_entries_Ok in E as [Ho E]. simplify_eq/=.
    destruct (decide (raw_dns raw = Open)) as [->|Hd].
    + rewrite bool_decide_true by done. simpl. case_bool_decide; naive_solver lia.
    + rewrite bool_decide_false by done. simpl. naive_solver lia.
  - split; [done|]. intros (_ & Ho & _).
    pose proof (proj2 (add_entries_Ok (raw_egress raw) ([], []) _) (conj Ho eq_refl)). congruence.
Qed.

Record entry_wf (e : AllowlistEntry) : Prop := {
  ew_tcp : ae_protocol e = Tcp;
  ew_port : port_wf (ae_port e);
  ew_user : ae_trusted_source_only e = false;
  ew_addr : match ae_host e with Literal a => 0 <= a < 2 ^ 32 | Cidr _ => True end;
}.

Record config_wf (cfg : AllowlistConfig) : Prop := {
  cw_entries : Forall entry_wf (ac_entries cfg);
  cw_names : Forall (fun h => canonical_hostname (he_host h) /\ port_wf (he_port h) /\
                              he_protocol h = Tcp) (ac_hostnames cfg);
  cw_resolvers : Forall (fun a => 0 <= a < 2 ^ 32) (ac_resolvers cfg);
  cw_open : ac_dns cfg = Open -> ac_resolvers cfg <> [];
}.

Lemma host_class_V4 host a : host_class host = HC_V4 a -> 0 <= a < 2 ^ 32.
Proof.
  unfold host_class. destruct (net_from_str host); [done|].
  destruct (parse_ip host) as [[b|g]|] eqn:E; intros; simplify_eq.
  by eapply parse_ipv4_range, parse_ip_V4.
Qed.

Lemma ip_rule_wf e r : port_u16 (re_port e) -> ip_rule e = Some r -> entry_wf r.
Proof.
  unfold ip_rule. intros Hp. destruct (to_matcher (re_port e)) as [m|] eqn:Em; [|done].
  apply to_matcher_wf in Em; [|done].
  destruct (host_class _) eqn:Ec; intros; simplify_eq; split; simpl; try done.
  by eapply host_class_V4.
Qed.

Lemma name_rule_wf e r :
  port_u16 (re_port e) -> entry_ok e -> name_rule e = Some r ->
  canonical_hostname (he_host r) /\ port_wf (he_port r) /\ he_protocol r = Tcp.
Proof.
  unfold name_rule. intros Hp Ho. destruct (to_matcher (re_port e)) as [m|] eqn:Em; [|done].
  destruct (host_class _) eqn:Ec; intros; simplify_eq. split_and!; simpl; [|by eapply to_matcher_wf|done].
  apply validate_hostname_canonical, eo_name; done.
Qed.

Lemma Forall_omap {A B} (P : B -> Prop) (f : A -> option B) l :
  (forall a b, a ∈ l -> f a = Some b -> P b) -> Forall P (omap f l).
Proof. intros Hf. apply Forall_forall. intros b (a & Ha & Hb)%list_elem_of_omap. eauto. Qed.

Lemma from_raw_wf raw cfg :
  Forall (fun e => port_u16 (re_port e)) (raw_egress raw) ->
  from_raw raw = Ok cfg -> config_wf cfg.
Proof.
  intros Hp (_ & Ho & Hd & ->)%from_raw_Ok. rewrite Forall_forall in Hp, Ho. split; simpl; [..|done].
  - apply Forall_omap. eauto using ip_rule_wf.
  - apply Forall_omap. eauto using name_rule_wf.
  - apply Forall_omap. unfold usable_resolver. intros r a _.
    destruct (parse_ip _) as [[b|g]|] eqn:E; intros; simplify_eq.
    by eapply parse_ipv4_range, parse_ip_V4.
Qed.

(** C32: a loaded configuration is well formed. Whatever document passes
    [from_raw], every rule of the configuration is a TCP rule on a port in
    1..65535 or on every port, none is reserved to the trusted source, every
    host name is canonical (lower case letters, digits, hyphens and dots in
    labels of 1 to 63 bytes, 253 in total, so no control character reaches the
    resolver's configuration), and open resolution has a resolver. *)
Theorem loaded_config_is_well_formed raw cfg :
  Forall (fun e => port_u16 (re_port e)) (raw_egress raw) ->
  from_raw raw = Ok cfg -> config_wf cfg.
Proof. apply from_raw_wf. Qed.


(** ** What the command line accepts *)

Lemma parse_all_Ok {A B E} (f : A -> result B E) l bs :
  parse_all f l = Ok bs <-> Forall2 (fun a b => f a = Ok b) l bs.
Proof.
  revert bs. induction l as [|a l IH]; intros bs; simpl.
  { split; [intros; by simplify_eq|]. by intros ->%Forall2_nil_inv_l. }
  destruct (f a) as [b|] eqn:Eb.
  - destruct (parse_all f l) as [bs'|].
    + split; [intros; simplify_eq; constructor; [done|by apply IH]|].
      intros (b' & l' & Hb & Hl & ->)%Forall2_cons_inv_l. apply IH in Hl. congruence.
    + split; [done|]. intros (b' & l' & Hb & Hl & ->)%Forall2_cons_inv_l. by apply IH in Hl.
  - split; [done|]. intros (b' & l' & Hb & Hl & ->)%Forall2_cons_inv_l. congruence.
Qed.

Lemma is_none_true {A} (o : option A) : is_none o = true <-> o = None.
Proof. by destruct o. Qed.

(** A host the command line accepts is never an IPv6 literal, and is a valid
    host name when it is not an address. *)
Lemma cli_host_class spec host :
  cli_host spec host = Ok tt ->
  host_class host <> HC_V6 /\ (host_class host = HC_Name -> validate_hostname host = Ok tt).
Proof.
  unfold cli_host, host_class. destruct (net_from_str host) as [net|]; [done|]. simpl.
  destruct (parse_ip host) as [[a|g]|] eqn:E.
  - split; [done|]. intros; done.
  - destruct (parse_ipv4 host) as [a|] eqn:E4; simpl; [|done].
    apply parse_ip_V4 in E4. congruence.
  - destruct (parse_ipv4 host) as [a|] eqn:E4; simpl.
    { apply parse_ip_V4 in E4. congruence. }
    destruct (validate_hostname host) as [[]|]; done.
Qed.

Lemma cli_port_Ok spec ps p : cli_port spec ps = Ok p -> is_ok (to_matcher p) = true /\ port_u16 p.
Proof.
  unfold cli_port. case_bool_decide; [intros; by simplify_eq|].
  destruct (parse_uint u16_max (trim ps)) as [n|] eqn:E; simpl; [|done].
  apply parse_uint_range in E; [|done].
  destruct (n =? 0) eqn:En; [done|]. intros; simplify_eq. simpl. by rewrite En.
Qed.

(** What an accepted entry is: trimmed, and acceptable to the loader but for
    the protocol. *)
Lemma parse_cli_entry_Ok spec e :
  parse_cli_entry spec = Ok e ->
  trim (re_host e) = re_host e /\ port_u16 (re_port e) /\
  (re_protocol e = Tcp -> entry_ok e) /\ host_class (trim (re_host e)) <> HC_V6.
Proof.
  unfold parse_cli_entry. intros Hp. case_bool_decide; [done|].
  destruct (split_protocol _ _) as [[hd proto]|]; [|done].
  destruct (rsplit_once 58 hd) as [[host ps]|]; simpl in Hp; [|done].
  case_bool_decide; [done|].
  destruct (cli_port spec ps) as [port|] eqn:Ep; [|done].
  destruct (cli_host spec _) as [[]|] eqn:Eh; [|done]. simplify_eq. simpl.
  apply cli_host_class in Eh as [Hc Hn]. apply cli_port_Ok in Ep as [Hok Hu].
  rewrite trim_idemp. split_and!; try done. intros Ht. split; simpl; rewrite ?trim_idemp; done.
Qed.

(** An acceptable entry that is not an IPv6 literal is exactly one rule. *)
Lemma entry_one_rule e :
  entry_ok e -> host_class (trim (re_host e)) <> HC_V6 ->
  (length (option_list (ip_rule e)) + length (option_list (name_rule e)) = 1)%nat.
Proof.
  intros Ho Hc. pose proof (eo_port e Ho) as Hp. unfold ip_rule, name_rule.
  destruct (to_matcher (re_port e)); [|done]. by destruct (host_class _).
Qed.

Lemma omap_rules_length l :
  Forall (fun e => entry_ok e /\ host_class (trim (re_host e)) <> HC_V6) l ->
  (length (omap ip_rule l) + length (omap name_rule l) = length l)%nat.
Proof.
  induction 1 as [|e l [Ho Hc] _ IH]; [done|].
  pose proof (entry_one_rule e Ho Hc) as H1. cbn.
  destruct (ip_rule e), (name_rule e); simpl in *; lia.
Qed.

Lemma usable_cli_resolver spec r :
  parse_cli_resolver spec = Ok r -> exists a, usable_resolver r = Some a.
Proof.
  unfold parse_cli_resolver, usable_resolver. intros Hp.
  destruct (parse_ip (trim spec)) as [[a|g]|] eqn:E; [|done|done]. simplify_eq.
  rewrite trim_idemp, E. eauto.
Qed.

(** What [assemble_from_cli] returns is what its arguments parse to, and the
    loader accepts it. *)
Lemma assemble_Ok specs rspecs dns raw :
  assemble_from_cli specs rspecs dns = Ok raw ->
  Forall2 (fun s e => parse_cli_entry s = Ok e) specs (raw_egress raw) /\
  Forall2 (fun s r => parse_cli_resolver s = Ok r) rspecs (raw_resolvers raw) /\
  exists cfg, from_raw raw = Ok cfg.
Proof.
  unfold assemble_from_cli. intros Ha.
  destruct (parse_all parse_cli_entry specs) as [es|] eqn:Ee; [|done].
  destruct (parse_all parse_cli_resolver rspecs) as [rs|] eqn:Er; [|done].
  destruct (from_raw _) as [cfg|] eqn:Ef; simpl in Ha; [|done]. simplify_eq. simpl.
  split_and!; [by apply parse_all_Ok|by apply parse_all_Ok|eauto].
Qed.

(** What the command line accepts is what the daemon enforces. A document
    assembled from flags loads, and nothing of it is dropped on the way: every
    [--egress-allow] flag is exactly one rule (an address, a block or a host
    name) in the loaded configuration, and every [--egress-resolver] flag is
    one resolver; the rules are those its entries denote, in order. *)
Theorem cli_entries_are_enforced specs rspecs dns raw :
  assemble_from_cli specs rspecs dns = Ok raw ->
  exists cfg, from_raw raw = Ok cfg /\ config_wf cfg /\
    ac_entries cfg = omap ip_rule (raw_egress raw) /\
    ac_hostnames cfg = omap name_rule (raw_egress raw) /\
    (length (ac_entries cfg) + length (ac_hostnames cfg) = length specs)%nat /\
    length (ac_resolvers cfg) = length rspecs.
Proof.
  intros (He & Hr & cfg & Hc)%assemble_Ok. exists cfg.
  pose proof (proj1 (from_raw_Ok _ _) Hc) as (_ & Ho & _ & ->). rewrite Forall_forall in Ho.
  assert (Hcli : forall e, e ∈ raw_egress raw -> exists s, parse_cli_entry s = Ok e).
  { intros e [i Hi]%list_elem_of_lookup.
    destruct (Forall2_lookup_r _ _ _ _ _ He Hi) as (s & _ & Hs). eauto. }
  split_and!; [done| |done|done| |].
  - eapply from_raw_wf; [|done]. apply Forall_forall. intros e [s Hs]%Hcli.
    by apply parse_cli_entry_Ok in Hs as (_ & ? & _).
  - simpl. rewrite omap_rules_length; [by rewrite (Forall2_length _ _ _ He)|].
    apply Forall_forall. intros e Hin. split; [by apply Ho|].
    apply Hcli in Hin as [s Hs]. by apply parse_cli_entry_Ok in Hs as (_ & _ & _ & ?).
  - simpl. rewrite (Forall2_length _ _ _ Hr). clear -Hr. induction Hr as [|s r ss rs Hs _ IH]; [done|].
    apply usable_cli_resolver in Hs as [a Ha]. cbn. rewrite Ha. simpl. by rewrite IH.
Qed.
End Loaded.
