(* ===== verification/EgressPolicy.v ===== *)
(** The connect-time policy of the egress daemon ([enclavia-egress/src]:
    [policy.rs], [resolver.rs], [config.rs], the flow forwarder of [lib.rs]) and
    the opener frame it sends to the host ([enclavia-protocol/src/egress.rs]).

    The resolver is the class [Resolver] (a call may change the resolver's
    state and may fail); [MockResolver] is the instance the repository ships
    for tests, and [unbound_resolve] is the DNS client over the hickory crate,
    the class [Hickory].  The results: the decision is exact, the injected
    resolver entries open nothing to the workload, a denied flow never reaches
    the host and an allowed one announces its own destination. *)
From stdpp Require Import base gmap list strings.
From S2P Require Import Prelude Text Signing EgressConfig.
#[local] Open Scope Z_scope.

Record SocketAddrV4 := mkSocketAddrV4 { sa_ip : Ipv4Addr; sa_port : Z }.

#[global] Instance SocketAddrV4_eq_dec : EqDecision SocketAddrV4.
Proof. solve_decision. Defined.

(** ** Resolving names *)

Class Resolver (R : Type) := resolve : R -> str -> result (list Ipv4Addr) string * R.

(** [MockResolver]: canned answers, names that fail, and a call count. *)
Record MockState := mkMockState {
  mock_answers : gmap (list Z) (list Ipv4Addr);
  mock_fail : gset (list Z);
  mock_calls : nat;
}.

Definition mock_new : MockState := mkMockState ∅ ∅ 0.
Definition mock_set_answer (m : MockState) (host : str) (ips : list Ipv4Addr) : MockState :=
  mkMockState (<[to_ascii_lowercase host := ips]> (mock_answers m)) (mock_fail m) (mock_calls m).
Definition mock_fail_for (m : MockState) (host : str) : MockState :=
  mkMockState (mock_answers m) ({[to_ascii_lowercase host]} ∪ mock_fail m) (mock_calls m).

Definition mock_resolve (m : MockState) (host : str) : result (list Ipv4Addr) string * MockState :=
  let m' := mkMockState (mock_answers m) (mock_fail m) (S (mock_calls m)) in
  let key := to_ascii_lowercase host in
  if bool_decide (key ∈ mock_fail m) then (Err "mock resolver: simulated failure"%string, m')
  else (Ok (default [] (mock_answers m !! key)), m').

#[global] Instance MockResolver : Resolver MockState := mock_resolve.

(** The hickory-proto crate: names, the A query and the answer's records
    ([None] for a record that is not an A record). *)
Record DnsMessage := mkDnsMessage {
  dm_id : Z;
  dm_no_error : bool;
  dm_answers : list (option Ipv4Addr);
}.

Class Hickory := {
  DnsName : Type;
  name_from_ascii : str -> result DnsName string;
  a_query_to_vec : Z -> DnsName -> result bytes string;
  message_from_bytes : bytes -> result DnsMessage string;
}.

Inductive DnsError : Type :=
| DE_Name (detail : string)
| DE_Encode (detail : string)
| DE_RequestTooLarge
| DE_Io (detail : string)
| DE_EmptyResponse
| DE_ResponseTooLarge (len : Z)
| DE_Decode (detail : string)
| DE_IdMismatch
| DE_TimedOut.

Definition MAX_RESPONSE_BYTES : Z := 16 * 1024.

(** [read_exact] on what the peer sent. *)
Definition read_exact (n : nat) (stream : bytes) : result (bytes * bytes) DnsError :=
  if (n <=? length stream)%nat then Ok (take n stream, drop n stream)
  else Err (DE_Io "unexpected end of file"%string).

(** [query_a]: [exchange] sends the framed request on a fresh connection and
    returns the bytes the resolver answers with. *)
Definition query_a `{Hickory} (exchange : bytes -> result bytes string) (request_id : Z) (host : str)
    : result (list Ipv4Addr) DnsError :=
  let? name := map_err DE_Name (name_from_ascii host) in
  let? request_bytes := map_err DE_Encode (a_query_to_vec request_id name) in
  if u16_max <? Z.of_nat (length request_bytes) then Err DE_RequestTooLarge
  else
    let framed := be_encode 2 (Z.of_nat (length request_bytes)) ++ request_bytes in
    let? stream := map_err DE_Io (exchange framed) in
    let? (len_buf, stream) := read_exact 2 stream in
    let resp_len := be_decode len_buf in
    if resp_len =? 0 then Err DE_EmptyResponse
    else if MAX_RESPONSE_BYTES <? resp_len then Err (DE_ResponseTooLarge resp_len)
    else
      let? (resp_buf, _) := read_exact (Z.to_nat resp_len) stream in
      let? response := map_err DE_Decode (message_from_bytes resp_buf) in
      if negb (dm_id response =? request_id) then Err DE_IdMismatch
      else if negb (dm_no_error response) then Ok []
      else Ok (omap id (dm_answers response)).

(** [UnboundClient::resolve]; [elapsed] says whether the two-second timeout
    fired first. *)
Definition unbound_resolve `{Hickory} (exchange : bytes -> result bytes string) (request_id : Z)
    (elapsed : bool) (host : str) : result (list Ipv4Addr) DnsError :=
  if elapsed then Err DE_TimedOut else query_a exchange request_id host.

(** ** The policy *)

Inductive PolicyDecision : Type := Allow | Deny.

#[global] Instance PolicyDecision_eq_dec : EqDecision PolicyDecision.
Proof. solve_decision. Defined.

(** [AllowAll]. *)
Definition allow_all (src : Ipv4Addr) (dst : SocketAddrV4) : PolicyDecision := Allow.

Section Policy.
Context `{Ipnet}.

Definition inject_resolver_entries (cfg : AllowlistConfig) : AllowlistConfig * list SocketAddrV4 :=
  fold_left
    (fun acc resolver =>
       (push_entry acc.1 (mkAllowlistEntry (Literal resolver) (Single 53) Tcp true),
        acc.2 ++ [mkSocketAddrV4 resolver 53]))
    (ac_resolvers cfg) (cfg, []).

Section Decide.
Context {R : Type} `{Resolver R}.

Record StaticAllowlistPolicy := mkPolicy {
  pol_config : AllowlistConfig;
  pol_trusted_src : Ipv4Addr;
}.

(** The cold path: one lookup per candidate, until one names the target. *)
Fixpoint try_hostnames (r : R) (target : Ipv4Addr) (entries : list HostnameEntry)
    : PolicyDecision * R :=
  match entries with
  | [] => (Deny, r)
  | e :: entries =>
      match resolve r (he_host e) with
      | (Ok ips, r') =>
          if bool_decide (target ∈ ips) then (Allow, r') else try_hostnames r' target entries
      | (Err _, r') => try_hostnames r' target entries
      end
  end.

Definition allow_tcp (p : StaticAllowlistPolicy) (r : R) (src : Ipv4Addr) (dst : SocketAddrV4)
    : PolicyDecision * R :=
  if allows_tcp (pol_config p) (sa_ip dst) (sa_port dst) (src =? pol_trusted_src p) then (Allow, r)
  else try_hostnames r (sa_ip dst) (tcp_hostnames_for_port (pol_config p) (sa_port dst)).
End Decide.
End Policy.

(** ** The opener frame *)

Inductive EgressOpen : Type := OpenTcp (host : Ipv4Addr) (port : Z).

#[global] Instance EgressOpen_eq_dec : EqDecision EgressOpen.
Proof. solve_decision. Defined.

Definition MAX_OPEN_FRAME_SIZE : Z := 4096.

Inductive ReadOpenError : Type :=
| RO_Io
| FrameTooLarge (len : Z)
| RO_Decode (detail : string).

Section Frame.
Context `{Cbor EgressOpen}.

(** The bytes [write_open_frame] puts on the stream. *)
Definition open_frame (open : EgressOpen) : bytes :=
  let buf := encode open in be_encode 4 (Z.of_nat (length buf)) ++ buf.

(** Reads the frame off the stream and returns what follows it. *)
Definition read_open_frame (stream : bytes) : result (EgressOpen * bytes) ReadOpenError :=
  if (length stream <? 4)%nat then Err RO_Io
  else
    let len := be_decode (take 4 stream) in
    let rest := drop 4 stream in
    if MAX_OPEN_FRAME_SIZE <? len then Err (FrameTooLarge len)
    else if (length rest <? Z.to_nat len)%nat then Err RO_Io
    else
      let? open := map_err RO_Decode (from_reader (take (Z.to_nat len) rest)) in
      Ok (open, drop (Z.to_nat len) rest).
End Frame.

(** ** Forwarding a flow *)

Inductive ForwardError : Type :=
| Denied (dst : SocketAddrV4)
| FE_Transport
| FE_Frame
| FE_Splice.

(** How the calls to the transport end: whether the dial succeeds, after how
    many bytes the frame write fails if it does, how the splice ends. *)
Record TransportFate := mkTransportFate {
  tf_connect : bool;
  tf_frame_cut : option nat;
  tf_splice : bool;
}.

(** What the host observes of one flow. *)
Inductive HostEvent : Type :=
| HE_Connected
| HE_Received (bs : bytes)
| HE_Spliced.

Section Forward.
Context `{Ipnet} {R : Type} `{Resolver R} `{Cbor EgressOpen}.

Definition forward_flow (p : StaticAllowlistPolicy) (r : R) (src dst : SocketAddrV4)
    (fate : TransportFate) : result unit ForwardError * list HostEvent * R :=
  match allow_tcp p r (sa_ip src) dst with
  | (Deny, r') => (Err (Denied dst), [], r')
  | (Allow, r') =>
      if negb (tf_connect fate) then (Err FE_Transport, [], r')
      else
        let frame := open_frame (OpenTcp (sa_ip dst) (sa_port dst)) in
        match tf_frame_cut fate with
        | Some n => (Err FE_Frame, [HE_Connected; HE_Received (take n frame)], r')
        | None =>
            let ev := [HE_Connected; HE_Received frame; HE_Spliced] in
            if tf_splice fate then (Ok tt, ev, r') else (Err FE_Splice, ev, r')
        end
  end.
End Forward.

(** ** The daemon's environment *)

Record EgressEnv := mkEgressEnv {
  cfg_tun_name : str;
  cfg_tun_local_ip : Ipv4Addr;
  cfg_tun_prefix_len : Z;
  cfg_mtu : Z;
  cfg_vsock_port : Z;
  cfg_allowlist_path : str;
  cfg_trusted_src : Ipv4Addr;
}.

(** [Config::from_env]; [None] is a panic on an invalid value.  The address of
    the resolver is left out. *)
Definition config_from_env (var : string -> option str) : option EgressEnv :=
  let tun_name := default (lit "tun0") (var "EGRESS_TUN_NAME"%string) in
  tun_local_ip ← parse_ipv4 (default (lit "10.99.0.1") (var "EGRESS_TUN_LOCAL_IP"%string));
  tun_prefix_len ← result_ok (parse_uint 255 (default (lit "24") (var "EGRESS_TUN_PREFIX_LEN"%string)));
  mtu ← result_ok (parse_uint u64_max (default (lit "1500") (var "EGRESS_MTU"%string)));
  vsock_port ← result_ok (parse_uint u32_max (default (lit "5006") (var "EGRESS_VSOCK_PORT"%string)));
  let allowlist_path := default (lit "/etc/enclavia/egress.json") (var "EGRESS_CONFIG_PATH"%string) in
  trusted_src ← match var "EGRESS_TRUSTED_SRC"%string with
                | Some s => parse_ipv4 s
                | None => Some tun_local_ip
                end;
  Some (mkEgressEnv tun_name tun_local_ip tun_prefix_len mtu vsock_port allowlist_path trusted_src).

(** [prefix_to_netmask]: [32 - prefix_len] wraps at 32 bits in a release build,
    and [checked_shl] by 32 or more is [None]. *)
Definition prefix_to_netmask (prefix_len : Z) : Ipv4Addr :=
  if prefix_len =? 0 then 0
  else
    let shift := (32 - prefix_len) mod 2 ^ 32 in
    if shift <? 32 then Z.land (Z.shiftl u32_max shift) u32_max else 0.

(** The daemon's policy at start: the file, the injected resolvers and the
    trusted source. *)
Definition daemon_policy `{Ipnet} (from_slice : bytes -> result RawAllowlist string)
    (file : FileRead) (trusted_src : Ipv4Addr) : result StaticAllowlistPolicy AllowlistLoadError :=
  let? allowlist := load_or_empty from_slice file in
  Ok (mkPolicy (inject_resolver_entries allowlist).1 trusted_src).

(** ** The decision is exact *)

Section PolicyFacts.
Context `{Ipnet} {R : Type} `{Resolver R}.

(** What the lookups of a list of entries answer, each from the state the
    previous one left. *)
Fixpoint lookups (r : R) (entries : list HostnameEntry)
    : list (HostnameEntry * result (list Ipv4Addr) string) :=
  match entries with
  | [] => []
  | e :: entries => (e, (resolve r (he_host e)).1) :: lookups (resolve r (he_host e)).2 entries
  end.

(** Some lookup answers with the target. *)
Definition names_target (r : R) (target : Ipv4Addr) (entries : list HostnameEntry) : Prop :=
  exists e ips, (e, Ok ips) ∈ lookups r entries /\ target ∈ ips.

Lemma try_hostnames_Allow r target entries :
  (try_hostnames r target entries).1 = Allow <-> names_target r target entries.
Proof.
  unfold names_target. revert r. induction entries as [|e es IH]; intros r; simpl.
  { split; [done|]. by intros (? & ? & ?%elem_of_nil & _). }
  destruct (resolve r (he_host e)) as [[ips|err] r'] eqn:E; simpl.
  - case_bool_decide as Hin; simpl.
    + split; [|done]. intros _. exists e, ips. split; [left|done].
    + rewrite IH. split; intros (e' & ips' & Hl & Ht).
      * exists e', ips'. split; [by right|done].
      * apply elem_of_cons in Hl as [?|Hl]; [by simplify_eq|eauto].
  - rewrite IH. split; intros (e' & ips' & Hl & Ht).
    + exists e', ips'. split; [by right|done].
    + apply elem_of_cons in Hl as [?|Hl]; [done|eauto].
Qed.

Lemma allows_tcp_iff cfg ip port trusted :
  allows_tcp cfg ip port trusted = true <->
  exists e, e ∈ ac_entries cfg /\ entry_allows ip port trusted e = true.
Proof. unfold allows_tcp. rewrite existsb_exists. by setoid_rewrite list_elem_of_In. Qed.

Lemma allow_tcp_Allow p r src dst :
  (allow_tcp p r src dst).1 = Allow <->
  (exists e, e ∈ ac_entries (pol_config p) /\
     entry_allows (sa_ip dst) (sa_port dst) (src =? pol_trusted_src p) e = true) \/
  names_target r (sa_ip dst) (tcp_hostnames_for_port (pol_config p) (sa_port dst)).
Proof.
  unfold allow_tcp. destruct (allows_tcp _ _ _ _) eqn:E; simpl.
  - split; [|done]. intros _. left. by apply allows_tcp_iff.
  - rewrite try_hostnames_Allow. split; [by right|]. intros [He|Hn]; [|done].
    apply allows_tcp_iff in He. congruence.
Qed.

(** ** Injected entries *)

Definition resolver_entry (a : Ipv4Addr) : AllowlistEntry :=
  mkAllowlistEntry (Literal a) (Single 53) Tcp true.

Lemma inject_fold cfg0 rs acc :
  fold_left
    (fun acc resolver =>
       (push_entry acc.1 (resolver_entry resolver), acc.2 ++ [mkSocketAddrV4 resolver 53]))
    rs (cfg0, acc) =
  (mkAllowlistConfig (ac_entries cfg0 ++ (resolver_entry <$> rs)) (ac_resolvers cfg0)
     (ac_hostnames cfg0) (ac_dns cfg0), acc ++ ((fun a => mkSocketAddrV4 a 53) <$> rs)).
Proof.
  revert cfg0 acc. induction rs as [|a rs IH]; intros cfg0 acc; simpl.
  { rewrite !app_nil_r. by destruct cfg0. }
  rewrite IH. simpl. by rewrite <-!app_assoc.
Qed.

Lemma inject_entries cfg :
  inject_resolver_entries cfg =
  (mkAllowlistConfig (ac_entries cfg ++ (resolver_entry <$> ac_resolvers cfg)) (ac_resolvers cfg)
     (ac_hostnames cfg) (ac_dns cfg), (fun a => mkSocketAddrV4 a 53) <$> ac_resolvers cfg).
Proof. apply (inject_fold cfg (ac_resolvers cfg) []). Qed.

Lemma resolver_entry_allows ip port trusted a :
  entry_allows ip port trusted (resolver_entry a) = (53 =? port) && (a =? ip) && trusted.
Proof. done. Qed.

Lemma allows_tcp_injected cfg ip port trusted :
  allows_tcp (inject_resolver_entries cfg).1 ip port trusted =
  allows_tcp cfg ip port trusted ||
  (trusted && (port =? 53) && bool_decide (ip ∈ ac_resolvers cfg)).
Proof.
  rewrite inject_entries. unfold allows_tcp at 1. simpl. rewrite existsb_app.
  fold (allows_tcp cfg ip port trusted). f_equal. apply eq_true_iff_eq.
  rewrite existsb_exists, !andb_true_iff, bool_decide_eq_true. split.
  - intros (e & Hin%list_elem_of_In & He). apply list_elem_of_fmap in Hin as (a & -> & Ha).
    rewrite resolver_entry_allows, !andb_true_iff in He. destruct He as [[Hp Hi] ->].
    assert (a = ip) as <- by lia. split_and!; [done|lia|done].
  - intros [[-> Hp] Hin]. exists (resolver_entry ip). split.
    + apply list_elem_of_In, list_elem_of_fmap. eauto.
    + rewrite resolver_entry_allows. lia.
Qed.

Lemma list_filter_iff' {A} (P Q : A -> Prop) `{forall x, Decision (P x), forall x, Decision (Q x)} (l : list A) :
  (forall x, x ∈ l -> P x <-> Q x) -> base.filter P l = base.filter Q l.
Proof.
  induction l as [|x l IH]; intros HPQ; [done|]. rewrite !filter_cons, IH.
  - destruct (decide (P x)) as [HP|HP], (decide (Q x)) as [HQ|HQ]; try done.
    + destruct HQ. apply HPQ; [left|done].
    + destruct HP. apply HPQ; [left|done].
  - intros. apply HPQ. by right.
Qed.

(** The address rules of a document that match, read off its entries. *)
Lemma document_rules (raws : list RawEgressEntry) ip port :
  (exists e, e ∈ omap ip_rule raws /\ entry_allows ip port false e = true) <->
  (exists e rule, e ∈ raws /\ ip_rule e = Some rule /\
     port_matches (ae_port rule) port = true /\ host_contains (ae_host rule) ip = true).
Proof.
  assert (Hr : forall e rule, ip_rule e = Some rule ->
    entry_allows ip port false rule =
    port_matches (ae_port rule) port && host_contains (ae_host rule) ip).
  { intros e rule. unfold ip_rule, entry_allows. repeat case_match; intros; simplify_eq;
      simpl; by rewrite andb_true_r. }
  split.
  - intros (rule & (e & He & Hrule)%list_elem_of_omap & Ha). rewrite (Hr e) in Ha by done.
    apply andb_true_iff in Ha as [??]. eauto 6.
  - intros (e & rule & He & Hrule & Hp & Hh). exists rule. split; [apply list_elem_of_omap; eauto|].
    rewrite (Hr e) by done. by rewrite Hp, Hh.
Qed.

Lemma lookups_elem r es e ans : (e, ans) ∈ lookups r es -> e ∈ es.
Proof.
  revert r. induction es as [|e' es IH]; intros r; simpl; [by intros ?%elem_of_nil|].
  intros [?|?]%elem_of_cons; [simplify_eq; left|right; eauto].
Qed.

(** The host name rules of a document. *)
Lemma document_names (raws : list RawEgressEntry) r ip port :
  names_target r ip
    (base.filter (fun h => bool_decide (he_protocol h = Tcp) && port_matches (he_port h) port = true)
       (omap name_rule raws)) <->
  (exists e rule ips, e ∈ raws /\ name_rule e = Some rule /\
     port_matches (he_port rule) port = true /\ ip ∈ ips /\
     (rule, Ok ips) ∈ lookups r
        (base.filter (fun h => port_matches (he_port h) port = true) (omap name_rule raws))).
Proof.
  assert (Hf : base.filter (fun h => bool_decide (he_protocol h = Tcp) && port_matches (he_port h) port = true)
       (omap name_rule raws) =
    base.filter (fun h => port_matches (he_port h) port = true) (omap name_rule raws)).
  { apply list_filter_iff'. intros h (e & _ & Hh)%list_elem_of_omap.
    assert (he_protocol h = Tcp) as -> by (unfold name_rule in Hh; repeat case_match; by simplify_eq).
    done. }
  rewrite Hf. unfold names_target. split.
  - intros (h & ips & Hl & Hi). pose proof (lookups_elem _ _ _ _ Hl) as Hh.
    apply list_elem_of_filter in Hh as [Hp (e & He & Hn)%list_elem_of_omap]. eauto 10.
  - intros (e & h & ips & _ & _ & _ & Hi & Hl). eauto.
Qed.

(** ** The daemon *)

Section Daemon.
Context (from_slice : bytes -> result RawAllowlist string).

Lemma daemon_policy_Ok bs raw trusted p :
  from_slice bs = Ok raw -> forallb is_ascii_whitespace bs = false ->
  daemon_policy from_slice (FR_Bytes bs) trusted = Ok p ->
  exists cfg, from_raw raw = Ok cfg /\ p = mkPolicy (inject_resolver_entries cfg).1 trusted.
Proof.
  unfold daemon_policy, load_or_empty, from_bytes. intros -> ->. simpl.
  destruct (from_raw raw) as [cfg|]; [|done]. intros; simplify_eq. eauto.
Qed.

(** C25: the daemon lets the workload reach exactly what its document allows.
    For a daemon started on a document, a connection whose source is not the
    trusted address is allowed iff the destination matches an address or block
    entry of the document on that port, or the lookup of one of the document's
    host name entries for that port answers with the destination address; the
    resolvers' entries play no part. *)
Theorem daemon_allows_exactly_the_document bs raw trusted p r src dst :
  from_slice bs = Ok raw -> forallb is_ascii_whitespace bs = false ->
  daemon_policy from_slice (FR_Bytes bs) trusted = Ok p -> src <> trusted ->
  (allow_tcp p r src dst).1 = Allow <->
  (exists e rule, e ∈ raw_egress raw /\ ip_rule e = Some rule /\
     port_matches (ae_port rule) (sa_port dst) = true /\
     host_contains (ae_host rule) (sa_ip dst) = true) \/
  (exists e rule ips, e ∈ raw_egress raw /\ name_rule e = Some rule /\
     port_matches (he_port rule) (sa_port dst) = true /\ sa_ip dst ∈ ips /\
     (rule, Ok ips) ∈ lookups r
        (base.filter (fun h => port_matches (he_port h) (sa_port dst) = true)
           (omap name_rule (raw_egress raw)))).
Proof.
  intros Hbs Hw Hp Hsrc. destruct (daemon_policy_Ok _ _ _ _ Hbs Hw Hp) as (cfg & Hc & ->).
  apply from_raw_Ok in Hc as (_ & _ & _ & ->). rewrite <-document_names, <-document_rules.
  rewrite allow_tcp_Allow, inject_entries. simpl.
  assert ((src =? trusted) = false) as -> by lia. apply or_iff_compat_r. split.
  - intros (e & [He|He]%elem_of_app & Ha); [eauto|].
    apply list_elem_of_fmap in He as (a & -> & _).
    by rewrite resolver_entry_allows, andb_false_r in Ha.
  - intros (e & He & Ha). exists e. split; [|done]. apply elem_of_app. by left.
Qed.

(** The injected resolver entries are confined to the trusted source.
    Injecting the resolvers changes nothing for a connection from any other
    source (same decision, same lookups), and for the trusted source it adds
    exactly port 53 of the configured resolvers. *)
Theorem resolver_injection_is_confined cfg trusted r src dst :
  (src <> trusted ->
   allow_tcp (mkPolicy (inject_resolver_entries cfg).1 trusted) r src dst =
   allow_tcp (mkPolicy cfg trusted) r src dst) /\
  ((allow_tcp (mkPolicy (inject_resolver_entries cfg).1 trusted) r trusted dst).1 = Allow <->
   (allow_tcp (mkPolicy cfg trusted) r trusted dst).1 = Allow \/
   (sa_port dst = 53 /\ sa_ip dst ∈ ac_resolvers cfg)).
Proof.
  unfold allow_tcp. simpl. rewrite !allows_tcp_injected.
  assert (Hn : ac_hostnames (inject_resolver_entries cfg).1 = ac_hostnames cfg)
    by (by rewrite inject_entries).
  unfold tcp_hostnames_for_port. rewrite Hn. split.
  - intros Hs. assert ((src =? trusted) = false) as -> by lia. simpl. by rewrite orb_false_r.
  - rewrite Z.eqb_refl. simpl. destruct (allows_tcp cfg _ _ true); simpl; [naive_solver|].
    destruct (sa_port dst =? 53) eqn:Ep; simpl; [|naive_solver lia].
    case_bool_decide; simpl; naive_solver lia.
Qed.

(** No document, no network. Without a readable document (the file is
    missing or blank) every connection from every source is denied, and no
    name is looked up. *)
Theorem no_document_denies_everything file trusted :
  file = FR_NotFound \/ (exists bs, file = FR_Bytes bs /\ forallb is_ascii_whitespace bs = true) ->
  exists p, daemon_policy from_slice file trusted = Ok p /\
    forall (r : R) src dst, allow_tcp p r src dst = (Deny, r).
Proof.
  intros Hf. exists (mkPolicy (inject_resolver_entries empty).1 trusted). split; [|done].
  unfold daemon_policy, load_or_empty. destruct Hf as [->|(bs & -> & ->)]; done.
Qed.
End Daemon.

(** ** Flows and frames *)

Section Flows.
Context `{Cbor EgressOpen, !CborLaws EgressOpen}.

Lemma open_frame_roundtrip_aux open rest :
  Z.of_nat (length (encode open)) <= MAX_OPEN_FRAME_SIZE ->
  read_open_frame (open_frame open ++ rest) = Ok (open, rest).
Proof.
  intros Hlen. unfold read_open_frame, open_frame, MAX_OPEN_FRAME_SIZE in *.
  rewrite <-app_assoc.
  set (hd := be_encode 4 (Z.of_nat (length (encode open)))).
  assert (Hhd : length hd = 4%nat) by apply be_encode_length.
  assert (Hdec : be_decode hd = Z.of_nat (length (encode open)))
    by (unfold hd; apply be_decode_encode_id; lia).
  rewrite length_app, Hhd, (proj2 (Nat.ltb_ge (4 + _) 4)) by lia. rewrite <-Hhd, take_app_length, drop_app_length, Hdec, Nat2Z.id.
  destruct (4096 <? _) eqn:Em; [lia|].
  rewrite length_app, (proj2 (Nat.ltb_ge (_ + _) _)) by lia.
  by rewrite take_app_length, drop_app_length, cbor_roundtrip.
Qed.

(** The host sees only allowed flows, each under its own destination. A
    denied connection opens nothing on the host; whatever the host receives of
    an allowed one begins with (a prefix of) its opener frame, and once bytes
    are spliced the host has decoded exactly the flow's destination, leaving
    the flow's bytes unread. *)
Theorem host_sees_only_allowed_flows p r src dst fate res ev r' :
  Z.of_nat (length (encode (OpenTcp (sa_ip dst) (sa_port dst)))) <= MAX_OPEN_FRAME_SIZE ->
  forward_flow p r src dst fate = (res, ev, r') ->
  ((allow_tcp p r (sa_ip src) dst).1 = Deny -> res = Err (Denied dst) /\ ev = []) /\
  (ev <> [] -> (allow_tcp p r (sa_ip src) dst).1 = Allow) /\
  (forall bs, HE_Received bs ∈ ev -> bs `prefix_of` open_frame (OpenTcp (sa_ip dst) (sa_port dst))) /\
  (HE_Spliced ∈ ev -> exists frame, HE_Received frame ∈ ev /\
     forall rest, read_open_frame (frame ++ rest) = Ok (OpenTcp (sa_ip dst) (sa_port dst), rest)).
Proof.
  intros Hlen. unfold forward_flow. destruct (allow_tcp p r (sa_ip src) dst) as [[] r1]; simpl.
  2: { intros; simplify_eq. split_and!; [done|done|by intros ? ?%elem_of_nil|by intros ?%elem_of_nil]. }
  destruct (tf_connect fate); simpl.
  2: { intros; simplify_eq. split_and!; [done|done|by intros ? ?%elem_of_nil|by intros ?%elem_of_nil]. }
  destruct (tf_frame_cut fate) as [n|].
  - intros; simplify_eq. split_and!; [done|done| |].
    + intros bs Hin. rewrite !elem_of_cons in Hin. destruct Hin as [?|[?|[]%elem_of_nil]]; simplify_eq.
      exists (drop n (open_frame (OpenTcp (sa_ip dst) (sa_port dst)))). by rewrite take_drop.
    + intros Hin. rewrite !elem_of_cons in Hin. by destruct Hin as [?|[?|[]%elem_of_nil]].
  - intros Hres. assert (ev = [HE_Connected; HE_Received (open_frame (OpenTcp (sa_ip dst) (sa_port dst)));
      HE_Spliced]) as -> by (destruct (tf_splice fate); by simplify_eq).
    split_and!; [done|done| |].
    + intros bs Hin. rewrite !elem_of_cons in Hin.
      destruct Hin as [?|[?|[?|[]%elem_of_nil]]]; by simplify_eq.
    + intros _. eexists. split; [right; left|]. intros rest. by apply open_frame_roundtrip_aux.
Qed.
End Flows.
End PolicyFacts.

(** ** A concrete daemon *)

Module EgressDemo.

(** Blocks as address and prefix length. *)
#[export] Instance toy_Ipnet : Ipnet := {|
  Ipv4Net := Z * Z;
  net_from_str s :=
    match split_once 47 s with
    | Some (a, p) =>
        match parse_ipv4 a, parse_uint 32 p with
        | Some a, Ok p => Some (a, p)
        | _, _ => None
        end
    | None => None
    end;
  net_contains net ip := net.1 / 2 ^ (32 - net.2) =? ip / 2 ^ (32 - net.2);
|}.

#[export] Instance toy_open_cbor : Cbor EgressOpen := {|
  encode o := match o with OpenTcp h p => [h; p] end;
  from_reader l := match l with [h; p] => Ok (OpenTcp h p) | _ => Err "open"%string end;
|}.

#[export] Instance toy_open_cbor_laws : CborLaws EgressOpen.
Proof. by intros []. Qed.

Definition specs : list str :=
  [lit "10.0.0.0/8:443"; lit " 1.2.3.4:*/tcp "; lit "API.example.com:443"].
Definition rspecs : list str := [lit "1.1.1.1"].

Definition document : RawAllowlist :=
  mkRawAllowlist 1 rspecs
    [mkRawEgressEntry (lit "10.0.0.0/8") (Num 443) Tcp;
     mkRawEgressEntry (lit "1.2.3.4") (Str WILDCARD) Tcp;
     mkRawEgressEntry (lit "API.example.com") (Num 443) Tcp] Allowlist.

Definition config : AllowlistConfig :=
  mkAllowlistConfig
    [mkAllowlistEntry (Cidr (167772160, 8)) (Single 443) Tcp false;
     mkAllowlistEntry (Literal 16909060) Any Tcp false]
    [16843009] [mkHostnameEntry (lit "api.example.com") (Single 443) Tcp] Allowlist.

Definition from_slice (bs : bytes) : result RawAllowlist string :=
  if bool_decide (bs = [1]) then Ok document else Err "json"%string.

Definition resolver : MockState := mock_set_answer mock_new (lit "api.example.com") [84215045].
Definition trusted : Ipv4Addr := 174260225.
Definition workload : Ipv4Addr := 174260482.
Definition policy : StaticAllowlistPolicy := mkPolicy (inject_resolver_entries config).1 trusted.

Example assembled : assemble_from_cli specs rspecs None = Ok document.
Proof. by_vm. Qed.

Example loaded : from_raw document = Ok config.
Proof. by_vm. Qed.

Example decisions :
  (allow_tcp policy resolver workload (mkSocketAddrV4 167837953 443)).1 = Allow /\
  (allow_tcp policy resolver workload (mkSocketAddrV4 84215045 443)).1 = Allow /\
  (allow_tcp policy resolver workload (mkSocketAddrV4 84215045 80)) = (Deny, resolver) /\
  (allow_tcp policy resolver workload (mkSocketAddrV4 16843009 53)).1 = Deny /\
  (allow_tcp policy resolver trusted (mkSocketAddrV4 16843009 53)).1 = Allow.
Proof. by vm_compute. Qed.

Example netmasks : prefix_to_netmask 24 = 4294967040 /\ prefix_to_netmask 32 = u32_max /\
  prefix_to_netmask 0 = 0 /\ prefix_to_netmask 33 = 0.
Proof. by vm_compute. Qed.
End EgressDemo.
#[local] Existing Instances EgressDemo.toy_Ipnet EgressDemo.toy_open_cbor EgressDemo.toy_open_cbor_laws.

Lemma loaded_config_is_well_formed_witness : config_wf EgressDemo.config.
Proof.
  apply (loaded_config_is_well_formed EgressDemo.document).
  - repeat constructor; vm_compute; done.
  - by_vm.
Defined.

Lemma cli_entries_are_enforced_witness :
  exists cfg, from_raw EgressDemo.document = Ok cfg /\
    (length (ac_entries cfg) + length (ac_hostnames cfg) = 3)%nat.
Proof.
  destruct (cli_entries_are_enforced EgressDemo.specs EgressDemo.rspecs None EgressDemo.document)
    as (cfg & Hc & _ & _ & _ & Hl & _).
  - by_vm.
  - exists cfg. split; [exact Hc|exact Hl].
Defined.

Lemma daemon_allows_exactly_the_document_witness :
  (allow_tcp EgressDemo.policy EgressDemo.resolver EgressDemo.workload
     (mkSocketAddrV4 84215045 443)).1 = Allow.
Proof.
  apply (proj2 (daemon_allows_exactly_the_document EgressDemo.from_slice [1] EgressDemo.document
      EgressDemo.trusted EgressDemo.policy EgressDemo.resolver EgressDemo.workload
      (mkSocketAddrV4 84215045 443) ltac:(by_vm) ltac:(by_vm)
      ltac:(by_vm) ltac:(vm_compute; discriminate))).
  right. exists (mkRawEgressEntry (lit "API.example.com") (Num 443) Tcp),
    (mkHostnameEntry (lit "api.example.com") (Single 443) Tcp), [84215045].
  split; [right; right; left|]. split; [by_vm|]. split; [reflexivity|].
  split; [left|]. apply list_elem_of_In. vm_compute. left. reflexivity.
Defined.

Lemma resolver_injection_is_confined_witness :
  (allow_tcp (mkPolicy (inject_resolver_entries EgressDemo.config).1 EgressDemo.trusted)
     EgressDemo.resolver EgressDemo.workload (mkSocketAddrV4 16843009 53)).1 = Deny.
Proof.
  rewrite (proj1 (resolver_injection_is_confined EgressDemo.config EgressDemo.trusted
    EgressDemo.resolver EgressDemo.workload (mkSocketAddrV4 16843009 53)) ltac:(vm_compute; discriminate)).
  by_vm.
Defined.

Lemma no_document_denies_everything_witness :
  exists p, daemon_policy EgressDemo.from_slice FR_NotFound EgressDemo.trusted = Ok p /\
    forall src dst, allow_tcp p EgressDemo.resolver src dst = (Deny, EgressDemo.resolver).
Proof.
  destruct (no_document_denies_everything (R := MockState) EgressDemo.from_slice FR_NotFound
    EgressDemo.trusted) as (p & Hp & Hd); [by left|]. exists p. split; [exact Hp|].
  intros src dst. exact (Hd EgressDemo.resolver src dst).
Defined.

Lemma host_sees_only_allowed_flows_witness :
  exists frame, forall rest,
    read_open_frame (frame ++ rest) = Ok (OpenTcp 16909060 8080, rest).
Proof.
  destruct (host_sees_only_allowed_flows EgressDemo.policy EgressDemo.resolver
    (mkSocketAddrV4 EgressDemo.workload 40000) (mkSocketAddrV4 16909060 8080)
    (mkTransportFate true None true) (Ok tt)
    [HE_Connected; HE_Received (open_frame (OpenTcp 16909060 8080)); HE_Spliced] EgressDemo.resolver)
    as (_ & _ & _ & Hs).
  - vm_compute. discriminate.
  - by_vm.
  - destruct Hs as (frame & _ & Hf); [right; right; left|]. exists frame. exact Hf.
Defined.
