(* ===== verification/EgressStack.v ===== *)
(** The userspace TCP stack of the egress daemon
    ([enclavia-egress/src/stack.rs]): the byte streams between a smoltcp socket
    and the forwarder, and the creation of one flow per TCP connection.

    smoltcp is the class [Smoltcp] with the documented effect of its calls on a
    socket's receive buffer and on the bytes it accepted to send
    ([SmoltcpLaws]); a bounded tokio channel is a queue with a capacity and the
    liveness of its two ends.  The shared channels of a flow are one record
    [Flow], which the stack task ([step_flow]) and the forwarder's stream
    ([poll_read], [poll_write]) both act on. *)
From stdpp Require Import base gmap sets list strings.
From S2P Require Import Prelude Text EgressPolicy.
#[local] Open Scope Z_scope.

(** ** smoltcp *)

Inductive TcpState : Type :=
| Closed | Listen | SynSent | SynReceived | Established | FinWait1 | FinWait2
| CloseWait | Closing | LastAck | TimeWait.

#[global] Instance TcpState_eq_dec : EqDecision TcpState.
Proof. solve_decision. Defined.

Record Ipv4Header := mkIpv4Header {
  ip_is_tcp : bool;
  ip_src : Ipv4Addr;
  ip_dst : Ipv4Addr;
  ip_payload : bytes;
}.

Record TcpHeader := mkTcpHeader {
  tcp_syn : bool;
  tcp_ack : bool;
  tcp_src_port : Z;
  tcp_dst_port : Z;
}.

Class Smoltcp := {
  Socket : Type;
  sock_state : Socket -> TcpState;
  rx_buffer : Socket -> bytes;
  tx_accepted : Socket -> bytes;
  can_recv : Socket -> bool;
  can_send : Socket -> bool;
  recv_slice : Socket -> nat -> option bytes * Socket;
  send_slice : Socket -> bytes -> option nat * Socket;
  sock_close : Socket -> Socket;
  sock_listen : Ipv4Addr -> Z -> option Socket;
  fresh_handle : gmap Z Socket -> Z;
  ipv4_new_checked : bytes -> option Ipv4Header;
  tcp_new_checked : bytes -> option TcpHeader;
}.

(** [recv_slice] dequeues, [send_slice] enqueues a prefix and returns its
    length, a failed call changes neither buffer, [close] leaves them, and
    [SocketSet::add] uses a free slot. *)
Class SmoltcpLaws `{Smoltcp} : Prop := {
  recv_slice_law s n :
    match recv_slice s n with
    | (Some bs, s') => bs = take n (rx_buffer s) /\ rx_buffer s' = drop n (rx_buffer s)
    | (None, s') => rx_buffer s' = rx_buffer s
    end /\ tx_accepted (recv_slice s n).2 = tx_accepted s;
  send_slice_law s bs :
    match send_slice s bs with
    | (Some n, s') => (n <= length bs)%nat /\ tx_accepted s' = tx_accepted s ++ take n bs
    | (None, s') => tx_accepted s' = tx_accepted s
    end /\ rx_buffer (send_slice s bs).2 = rx_buffer s;
  close_law s : rx_buffer (sock_close s) = rx_buffer s /\ tx_accepted (sock_close s) = tx_accepted s;
  fresh_handle_law ss : ss !! fresh_handle ss = None;
}.

(** ** Channels *)

(** A bounded [mpsc] channel of byte vectors. *)
Record Chan := mkChan {
  ch_queue : list bytes;
  ch_capacity : nat;
  ch_sender_alive : bool;
  ch_receiver_alive : bool;
}.

Definition set_queue (c : Chan) (q : list bytes) : Chan :=
  mkChan q (ch_capacity c) (ch_sender_alive c) (ch_receiver_alive c).

Inductive TrySend : Type := TS_Sent | TS_Full | TS_Closed.

Definition try_send (c : Chan) (data : bytes) : TrySend * Chan :=
  if negb (ch_receiver_alive c) then (TS_Closed, c)
  else if (ch_capacity c <=? length (ch_queue c))%nat then (TS_Full, c)
  else (TS_Sent, set_queue c (ch_queue c ++ [data])).

Inductive TryRecv : Type := TR_Data (data : bytes) | TR_Empty | TR_Disconnected.

Definition try_recv (c : Chan) : TryRecv * Chan :=
  match ch_queue c with
  | data :: q => (TR_Data data, set_queue c q)
  | [] => (if ch_sender_alive c then TR_Empty else TR_Disconnected, c)
  end.

Definition FLOW_CHANNEL_BYTES : Z := 64 * 1024.
Definition flow_channel : Chan := mkChan [] (Z.to_nat (FLOW_CHANNEL_BYTES / 1024)) true true.

(** ** The forwarder's end *)

(** [read_carry]: the vector and the offset already read. *)
Record FlowStream := mkFlowStream { fs_read_carry : option (bytes * nat) }.

Inductive PollRead : Type :=
| PR_Ready (data : bytes)
| PR_Pending.

(** [poll_read] into a buffer with [remaining] free bytes. *)
Definition poll_read (st : FlowStream) (from_socket : Chan) (remaining : nat)
    : PollRead * FlowStream * Chan :=
  match fs_read_carry st with
  | Some (bs, offset) =>
      let n := Nat.min remaining (length bs - offset) in
      let st' := mkFlowStream
                   (if (offset + n <? length bs)%nat then Some (bs, offset + n)%nat else None) in
      (PR_Ready (slice bs offset (offset + n)), st', from_socket)
  | None =>
      match try_recv from_socket with
      | (TR_Data bs, c') =>
          let n := Nat.min remaining (length bs) in
          (PR_Ready (take n bs),
           mkFlowStream (if (n <? length bs)%nat then Some (bs, n) else None), c')
      | (TR_Disconnected, c') => (PR_Ready [], st, c')
      | (TR_Empty, c') => (PR_Pending, st, c')
      end
  end.

Inductive PollWrite : Type :=
| PW_Written (n : nat)
| PW_Pending
| PW_BrokenPipe.

Definition poll_write (to_socket : Chan) (data : bytes) : PollWrite * Chan :=
  match try_send to_socket data with
  | (TS_Sent, c') => (PW_Written (length data), c')
  | (TS_Full, c') => (PW_Pending, c')
  | (TS_Closed, c') => (PW_BrokenPipe, c')
  end.

(** ** The stack's end *)

Record StackFlow := mkStackFlow {
  sf_to_forwarder : Chan;
  sf_from_forwarder : Chan;
  sf_pending_send : option bytes;
  sf_saw_established : bool;
  sf_src : SocketAddrV4;
  sf_dst : SocketAddrV4;
}.

Record AcceptedFlow := mkAcceptedFlow { af_src : SocketAddrV4; af_dst : SocketAddrV4 }.

Section Stack.
Context `{Smoltcp}.

Definition RECV_CHUNK : nat := Z.to_nat (16 * 1024).

(** Drain what the workload sent into the forwarder's channel. *)
Definition drain_socket (s : Socket) (to_forwarder : Chan) : Socket * Chan :=
  if can_recv s then
    match recv_slice s RECV_CHUNK with
    | (Some (b :: bs), s') =>
        match try_send to_forwarder (b :: bs) with
        | (TS_Closed, c') => (sock_close s', c')
        | (_, c') => (s', c')
        end
    | (_, s') => (s', to_forwarder)
    end
  else (s, to_forwarder).

(** [send_slice] and what is left to send. *)
Definition send_carry (s : Socket) (data : bytes) : Socket * option bytes :=
  match send_slice s data with
  | (Some n, s') => (s', if (n <? length data)%nat then Some (drop n data) else None)
  | (None, s') => (s', Some data)
  end.

Definition send_pending (s : Socket) (pending : option bytes) : Socket * option bytes :=
  match pending with
  | None => (s, None)
  | Some data => if can_send s then send_carry s data else (s, Some data)
  end.

(** The loop that drains the channel while the socket takes bytes; each round
    takes one vector, so the queue's length bounds the rounds. *)
Fixpoint send_queue (fuel : nat) (s : Socket) (pending : option bytes) (c : Chan)
    : Socket * option bytes * Chan :=
  match fuel, pending with
  | S fuel', None =>
      if can_send s then
        match try_recv c with
        | (TR_Data data, c') =>
            let (s', pending') := send_carry s data in send_queue fuel' s' pending' c'
        | (TR_Empty, c') => (s, None, c')
        | (TR_Disconnected, c') => (sock_close s, None, c')
        end
      else (s, None, c)
  | _, _ => (s, pending, c)
  end.

(** The body of the loop over the flows in [step]; the boolean asks for the
    flow's removal. *)
Definition step_flow (s : Socket) (flow : StackFlow) : Socket * StackFlow * bool :=
  let saw := sf_saw_established flow || bool_decide (sock_state s = Established) in
  let (s, to_forwarder) := drain_socket s (sf_to_forwarder flow) in
  let (s, pending) := send_pending s (sf_pending_send flow) in
  let '(s, pending, from_forwarder) :=
    send_queue (S (length (ch_queue (sf_from_forwarder flow)))) s pending (sf_from_forwarder flow) in
  let flow := mkStackFlow to_forwarder from_forwarder pending saw (sf_src flow) (sf_dst flow) in
  if saw && bool_decide (sock_state s = Closed \/ sock_state s = TimeWait \/ sock_state s = CloseWait)
  then (sock_close s, flow, true)
  else (s, flow, false).

Record StackState := mkStackState {
  ss_sockets : gmap Z Socket;
  ss_flows : gmap Z StackFlow;
  ss_accepted : list AcceptedFlow;  (* sent on [accepted_tx], in order *)
  ss_inbound : list bytes;          (* the device's queue *)
}.

(** One iteration after smoltcp's own [poll] left the sockets [polled]; the
    handles are visited in the given order. *)
Fixpoint step_flows (handles : list Z) (sockets : gmap Z Socket) (flows : gmap Z StackFlow)
    (closed : list Z) : gmap Z Socket * gmap Z StackFlow * list Z :=
  match handles with
  | [] => (sockets, flows, closed)
  | h :: handles =>
      match sockets !! h, flows !! h with
      | Some s, Some flow =>
          let '(s', flow', done) := step_flow s flow in
          step_flows handles (<[h := s']> sockets) (<[h := flow']> flows)
            (if done then closed ++ [h] else closed)
      | _, _ => step_flows handles sockets flows closed
      end
  end.

Definition step (polled : gmap Z Socket) (consumed : nat) (st : StackState) : StackState :=
  let '(sockets, flows, closed) :=
    step_flows (map_to_list (ss_flows st)).*1 polled (ss_flows st) [] in
  mkStackState
    (foldr delete sockets closed) (foldr delete flows closed)
    (ss_accepted st) (drop consumed (ss_inbound st)).

(** ** New connections *)

Definition parse_new_tcp_syn (packet : bytes) : option (SocketAddrV4 * SocketAddrV4) :=
  ipv4 ← ipv4_new_checked packet;
  if negb (ip_is_tcp ipv4) then None
  else
    tcp ← tcp_new_checked (ip_payload ipv4);
    if negb (tcp_syn tcp) || tcp_ack tcp then None
    else Some (mkSocketAddrV4 (ip_dst ipv4) (tcp_dst_port tcp),
               mkSocketAddrV4 (ip_src ipv4) (tcp_src_port tcp)).

Definition flow_already_exists (st : StackState) (dst src : SocketAddrV4) : bool :=
  existsb (fun f => bool_decide (sf_dst f = dst) && bool_decide (sf_src f = src))
    (map_to_list (ss_flows st)).*2.

Definition allocate_flow (st : StackState) (dst src : SocketAddrV4) : option StackState :=
  match sock_listen (sa_ip dst) (sa_port dst) with
  | None => None
  | Some socket =>
      let handle := fresh_handle (ss_sockets st) in
      let flow := mkStackFlow flow_channel flow_channel None false src dst in
      Some (mkStackState (<[handle := socket]> (ss_sockets st)) (<[handle := flow]> (ss_flows st))
              (ss_accepted st) (ss_inbound st))
  end.

Definition push_inbound (st : StackState) (packet : bytes) : StackState :=
  mkStackState (ss_sockets st) (ss_flows st) (ss_accepted st) (ss_inbound st ++ [packet]).

Definition push_accepted (st : StackState) (f : AcceptedFlow) : StackState :=
  mkStackState (ss_sockets st) (ss_flows st) (ss_accepted st ++ [f]) (ss_inbound st).

Definition is_ipv4 (packet : bytes) : bool :=
  match packet with b :: _ => Z.shiftr b 4 =? 4 | [] => false end.

Definition handle_inbound (st : StackState) (packet : bytes) : StackState :=
  if negb (is_ipv4 packet) then st
  else
    let st :=
      match parse_new_tcp_syn packet with
      | Some (dst, src) =>
          if flow_already_exists st dst src then st
          else match allocate_flow st dst src with
               | Some st' => push_accepted st' (mkAcceptedFlow src dst)
               | None => st
               end
      | None => st
      end in
    push_inbound st packet.
End Stack.

(** ** Streams lose no order *)

(** What the reading end still has to see of a channel and a carry. *)
Definition unread (st : FlowStream) (c : Chan) : bytes :=
  match fs_read_carry st with Some (bs, off) => drop off bs | None => [] end ++ concat (ch_queue c).

Lemma slice_then_drop {A} (l : list A) off n :
  slice l off (off + n) ++ drop (off + n) l = drop off l.
Proof.
  unfold slice. replace (off + n - off)%nat with n by lia.
  rewrite <-drop_drop. apply take_drop.
Qed.

(** A read returns the next bytes of the stream and leaves the rest. *)
Lemma poll_read_unread st c remaining data st' c' :
  poll_read st c remaining = (PR_Ready data, st', c') ->
  unread st c = data ++ unread st' c' /\ (length data <= remaining)%nat.
Proof.
  unfold poll_read, unread. destruct (fs_read_carry st) as [[bs off]|] eqn:Ec.
  - intros; simplify_eq. simpl.
    set (n := Nat.min remaining (length bs - off)).
    assert (Hd : drop off bs = slice bs off (off + n) ++
              match (if (off + n <? length bs)%nat then Some (bs, (off + n)%nat) else None) with
              | Some (bs, off) => drop off bs | None => [] end).
    { rewrite <-(slice_then_drop bs off n). f_equal. destruct (off + n <? length bs)%nat eqn:E; [done|].
      apply Nat.ltb_ge in E. by rewrite drop_ge. }
    rewrite Hd at 1. rewrite <-app_assoc. split; [done|].
    unfold slice. rewrite length_take. lia.
  - unfold try_recv. destruct (ch_queue c) as [|bs q] eqn:Eq.
    + destruct (ch_sender_alive c); intros; simplify_eq. rewrite Ec, Eq. simpl. split; [done|lia].
    + intros; simplify_eq. simpl. set (n := Nat.min remaining (length bs)). split.
      * rewrite app_assoc. f_equal. rewrite <-(take_drop n bs) at 1. f_equal.
        destruct (n <? length bs)%nat eqn:E; [done|]. apply Nat.ltb_ge in E. by rewrite drop_ge.
      * rewrite length_take. lia.
Qed.

Lemma try_send_Sent c data c' :
  try_send c data = (TS_Sent, c') -> concat (ch_queue c') = concat (ch_queue c) ++ data.
Proof.
  unfold try_send. intros Hs. repeat case_match; simplify_eq. simpl.
  by rewrite concat_app, concat_cons, concat_nil, app_nil_r.
Qed.

Section StackFacts.
Context `{Smoltcp, !SmoltcpLaws}.
#[local] Opaque RECV_CHUNK.

(** Bytes on their way to the workload: what the socket accepted, what was cut
    off, what waits in the channel. *)
Definition downstream (s : Socket) (pending : option bytes) (c : Chan) : bytes :=
  tx_accepted s ++ default [] pending ++ concat (ch_queue c).

Lemma send_carry_spec s data s' pending :
  send_carry s data = (s', pending) ->
  tx_accepted s' ++ default [] pending = tx_accepted s ++ data.
Proof.
  unfold send_carry. pose proof (send_slice_law s data) as [Hl _].
  destruct (send_slice s data) as [[n|] s1]; intros; simplify_eq; simpl; [|by rewrite Hl].
  destruct Hl as [Hn ->]. rewrite <-app_assoc. f_equal.
  destruct (n <? length data)%nat eqn:E; simpl; [apply take_drop|].
  apply Nat.ltb_ge in E. by rewrite app_nil_r, take_ge.
Qed.

Lemma send_pending_spec s pending s' pending' :
  send_pending s pending = (s', pending') ->
  tx_accepted s' ++ default [] pending' = tx_accepted s ++ default [] pending.
Proof.
  unfold send_pending. destruct pending as [data|]; [|by intros; simplify_eq].
  destruct (can_send s); [apply send_carry_spec|by intros; simplify_eq].
Qed.

Lemma send_queue_spec fuel s pending c s' pending' c' :
  send_queue fuel s pending c = (s', pending', c') ->
  downstream s' pending' c' = downstream s pending c /\
  ((length (ch_queue c) < fuel)%nat ->
   pending' <> None \/ can_send s' = false \/ ch_queue c' = []).
Proof.
  unfold downstream. revert s pending c. induction fuel as [|fuel IH]; intros s pending c Hq; simpl in Hq.
  { simplify_eq. split; [done|lia]. }
  destruct pending as [d|]; [simplify_eq; split; [done|by left]|].
  destruct (can_send s) eqn:Ecs; [|simplify_eq; split; [done|by right; left]].
  unfold try_recv in Hq. destruct (ch_queue c) as [|data q] eqn:Eq.
  - destruct (ch_sender_alive c); simplify_eq; rewrite Eq; (split; [|by right; right]); [done|].
    by rewrite (proj2 (close_law s)).
  - destruct (send_carry s data) as [s1 p1] eqn:Ec. apply IH in Hq as [Hd Hf].
    apply send_carry_spec in Ec. rewrite Hd. simpl. split; [by rewrite !app_assoc, Ec|].
    intros Hl. apply Hf. simpl. simpl in Hl. lia.
Qed.

(** Draining the socket does not touch what it accepted to send. *)
Lemma drain_socket_tx s c s' c' : drain_socket s c = (s', c') -> tx_accepted s' = tx_accepted s.
Proof.
  unfold drain_socket. destruct (can_recv s); [|by intros; simplify_eq].
  pose proof (recv_slice_law s RECV_CHUNK) as [_ Ht].
  destruct (recv_slice s RECV_CHUNK) as [[[|b bs]|] s1]; simpl in Ht; try by intros; simplify_eq.
  destruct (try_send c (b :: bs)) as [[] c1]; intros; simplify_eq; try done.
  by rewrite (proj2 (close_law s1)).
Qed.

(** Bytes to the workload are neither lost, duplicated nor reordered. One
    iteration over a flow keeps the concatenation of what the socket accepted,
    the cut-off remainder and the queued vectors, and it stops only when the
    socket takes no more or the queue is empty. *)
Theorem downstream_is_conserved s flow s' flow' torn :
  step_flow s flow = (s', flow', torn) ->
  downstream s' (sf_pending_send flow') (sf_from_forwarder flow') =
  downstream s (sf_pending_send flow) (sf_from_forwarder flow) /\
  (torn = false -> sf_pending_send flow' <> None \/ can_send s' = false \/
                   ch_queue (sf_from_forwarder flow') = []).
Proof.
  unfold step_flow. destruct (drain_socket s _) as [s1 tf] eqn:E1.
  destruct (send_pending s1 _) as [s2 p2] eqn:E2.
  destruct (send_queue _ s2 p2 _) as [[s3 p3] c3] eqn:E3.
  apply drain_socket_tx in E1. apply send_pending_spec in E2. apply send_queue_spec in E3 as [Hd Hf].
  assert (Hall : downstream s3 p3 c3 = downstream s (sf_pending_send flow) (sf_from_forwarder flow)).
  { rewrite Hd. unfold downstream. by rewrite !app_assoc, E2, E1. }
  destruct (_ && _); intros; simplify_eq; simpl; (split; [|done || (intros _; apply Hf; lia)]); [|done].
  rewrite <-Hall. unfold downstream. by rewrite (proj2 (close_law s3)).
Qed.

(** Bytes from the workload reach the forwarder unless its channel is
    full. With a free slot (or nothing to read) draining moves bytes from the
    socket's buffer to the channel and keeps their order; with the channel full
    the bytes taken from the socket, up to 16 KiB, are in neither afterwards. *)
Theorem upstream_is_conserved_unless_full s c s' c' :
  ch_receiver_alive c = true -> drain_socket s c = (s', c') ->
  ((length (ch_queue c) < ch_capacity c)%nat ->
   concat (ch_queue c') ++ rx_buffer s' = concat (ch_queue c) ++ rx_buffer s) /\
  ((ch_capacity c <= length (ch_queue c))%nat ->
   c' = c /\ (rx_buffer s' = rx_buffer s \/ rx_buffer s' = drop RECV_CHUNK (rx_buffer s))).
Proof.
  unfold drain_socket. intros Ha. destruct (can_recv s); [|intros; simplify_eq; auto].
  pose proof (recv_slice_law s RECV_CHUNK) as [Hr _].
  destruct (recv_slice s RECV_CHUNK) as [[bs|] s1]; [|intros; simplify_eq; rewrite Hr; auto].
  destruct Hr as [Hbs Hrx]. unfold try_send. rewrite Ha. simpl.
  destruct bs as [|b bs].
  - intros; simplify_eq. rewrite Hrx. split; [intros _; f_equal|by auto].
    pose proof (take_drop RECV_CHUNK (rx_buffer s)) as Htd. rewrite <-Hbs in Htd. exact Htd.
  - destruct (ch_capacity c <=? length (ch_queue c))%nat eqn:Ef; intros; simplify_eq.
    + apply Nat.leb_le in Ef. split; [lia|auto].
    + apply Nat.leb_gt in Ef. split; [|lia]. intros _. simpl.
      rewrite concat_app, concat_cons, concat_nil, app_nil_r, <-app_assoc, Hbs, Hrx. f_equal.
      apply take_drop.
Qed.

(** ** One flow per connection *)

(** Every flow has its socket and every socket its flow, no two flows have the
    same endpoints, and each was handed to the supervisor. *)
Record stack_wf (st : StackState) : Prop := {
  sw_dom : forall h, is_Some (ss_sockets st !! h) <-> is_Some (ss_flows st !! h);
  sw_unique : forall h1 h2 f1 f2, ss_flows st !! h1 = Some f1 -> ss_flows st !! h2 = Some f2 ->
    sf_src f1 = sf_src f2 -> sf_dst f1 = sf_dst f2 -> h1 = h2;
  sw_accepted : forall h f, ss_flows st !! h = Some f ->
    mkAcceptedFlow (sf_src f) (sf_dst f) ∈ ss_accepted st;
}.

Definition stack_new : StackState := mkStackState ∅ ∅ [] [].

(** [poll] changes sockets in place. *)
Definition same_handles {A B} (m1 : gmap Z A) (m2 : gmap Z B) : Prop :=
  forall h, is_Some (m1 !! h) <-> is_Some (m2 !! h).

Inductive stack_reachable : StackState -> Prop :=
| sr_new : stack_reachable stack_new
| sr_inbound st packet : stack_reachable st -> stack_reachable (handle_inbound st packet)
| sr_step st polled consumed :
    stack_reachable st -> same_handles polled (ss_sockets st) ->
    stack_reachable (step polled consumed st).

Lemma flow_already_exists_true st dst src :
  flow_already_exists st dst src = true <->
  exists h f, ss_flows st !! h = Some f /\ sf_dst f = dst /\ sf_src f = src.
Proof.
  unfold flow_already_exists. rewrite existsb_exists. setoid_rewrite <-list_elem_of_In. split.
  - intros (f & ([h f'] & -> & Hin)%list_elem_of_fmap & Hb). apply elem_of_map_to_list in Hin.
    apply andb_true_iff in Hb as [?%bool_decide_eq_true ?%bool_decide_eq_true]. eauto.
  - intros (h & f & Hf & <- & <-). exists f. split.
    + apply list_elem_of_fmap. exists (h, f). split; [done|]. by apply elem_of_map_to_list.
    + by rewrite !bool_decide_true.
Qed.

Lemma same_handles_insert {A B} (m1 : gmap Z A) (m2 : gmap Z B) h a b :
  same_handles m1 m2 -> same_handles (<[h := a]> m1) (<[h := b]> m2).
Proof.
  intros Hs h'. destruct (decide (h = h')) as [->|Hne].
  - rewrite !lookup_insert_eq. split; eauto.
  - rewrite !lookup_insert_ne by done. apply Hs.
Qed.

Lemma allocate_flow_wf st dst src st' :
  stack_wf st -> flow_already_exists st dst src = false ->
  allocate_flow st dst src = Some st' -> stack_wf (push_accepted st' (mkAcceptedFlow src dst)).
Proof.
  intros [Hd Hu Ha] Hno. unfold allocate_flow. destruct (sock_listen _ _) as [s|]; [|done].
  intros; simplify_eq. set (h0 := fresh_handle (ss_sockets st)).
  assert (Hnew : forall h f, ss_flows st !! h = Some f -> ~ (sf_dst f = dst /\ sf_src f = src)).
  { intros h f Hf Heq. assert (flow_already_exists st dst src = true); [|congruence].
    apply flow_already_exists_true. eauto. }
  split; simpl.
  - apply same_handles_insert. exact Hd.
  - intros h1 h2 f1 f2 [(<- & <-)|(Hn1 & H1)]%lookup_insert_Some [(<- & <-)|(Hn2 & H2)]%lookup_insert_Some;
      simpl; intros Hs Hdst; [done| | |eauto].
    + destruct (Hnew _ _ H2); auto.
    + destruct (Hnew _ _ H1); auto.
  - intros h f [(_ & <-)|(_ & Hf)]%lookup_insert_Some; simpl; apply elem_of_app; [right; left|].
    left. eauto.
Qed.

Lemma push_inbound_wf st packet : stack_wf st -> stack_wf (push_inbound st packet).
Proof. by intros []. Qed.

(** The loop keeps the endpoints of every flow. *)
Lemma step_flow_endpoints s flow s' flow' torn :
  step_flow s flow = (s', flow', torn) -> sf_src flow' = sf_src flow /\ sf_dst flow' = sf_dst flow.
Proof.
  unfold step_flow. repeat (match goal with |- context [let (_, _) := ?x in _] => destruct x end).
  destruct (_ && _); intros; by simplify_eq.
Qed.

Lemma step_flows_spec handles sockets flows closed sockets' flows' closed' :
  step_flows handles sockets flows closed = (sockets', flows', closed') ->
  same_handles sockets flows ->
  same_handles sockets' flows' /\
  (forall h f', flows' !! h = Some f' ->
     exists f, flows !! h = Some f /\ sf_src f' = sf_src f /\ sf_dst f' = sf_dst f).
Proof.
  revert sockets flows closed. induction handles as [|h hs IH]; intros sockets flows closed Hs Hd.
  { simpl in Hs. simplify_eq. split; [done|eauto]. }
  cbn [step_flows] in Hs. destruct (sockets !! h) as [s|] eqn:Es; [|by eapply IH].
  destruct (flows !! h) as [f|] eqn:Ef; [|by eapply IH].
  destruct (step_flow s f) as [[s1 f1] torn] eqn:E.
  apply step_flow_endpoints in E as [E1 E2].
  apply IH in Hs as [Hd' Hf']; [|by apply same_handles_insert]. split; [done|].
  intros h' f' (f2 & [(<- & <-)|(Hne & H2)]%lookup_insert_Some & Ha & Hb)%Hf'.
  - exists f. split; [done|]. split; congruence.
  - eauto.
Qed.

Lemma foldr_delete_lookup {A} (m : gmap Z A) l h a :
  foldr delete m l !! h = Some a <-> m !! h = Some a /\ h ∉ l.
Proof.
  induction l as [|x l IH]; simpl; [set_solver|].
  rewrite lookup_delete_Some, IH, not_elem_of_cons. naive_solver.
Qed.

Lemma step_wf polled consumed st :
  stack_wf st -> same_handles polled (ss_sockets st) -> stack_wf (step polled consumed st).
Proof.
  intros [Hd Hu Ha] Hp. unfold step.
  destruct (step_flows _ polled _ []) as [[sockets flows] closed] eqn:E.
  apply step_flows_spec in E as [Hd' Hf].
  2: { intros h. rewrite (Hp h). apply Hd. }
  split; simpl.
  - intros h. assert (Hdel : forall A (m : gmap Z A), is_Some (foldr delete m closed !! h) <->
        is_Some (m !! h) /\ h ∉ closed).
    { intros A m. unfold is_Some. setoid_rewrite foldr_delete_lookup. naive_solver. }
    rewrite !Hdel, (Hd' h). done.
  - intros h1 h2 f1 f2 [H1 _]%foldr_delete_lookup [H2 _]%foldr_delete_lookup Hs Hdst.
    apply Hf in H1 as (g1 & H1 & ? & ?), H2 as (g2 & H2 & ? & ?).
    eapply Hu; [done|done|congruence|congruence].
  - intros h f [Hh _]%foldr_delete_lookup. apply Hf in Hh as (g & Hg & -> & ->). eauto.
Qed.

Lemma handle_inbound_wf st packet : stack_wf st -> stack_wf (handle_inbound st packet).
Proof.
  intros Hw. unfold handle_inbound. destruct (negb (is_ipv4 packet)); [done|].
  apply push_inbound_wf. destruct (parse_new_tcp_syn packet) as [[dst src]|]; [|done].
  destruct (flow_already_exists st dst src) eqn:E; [done|].
  destruct (allocate_flow st dst src) as [st'|] eqn:Ea; [|done]. by eapply allocate_flow_wf.
Qed.

Lemma stack_reachable_wf st : stack_reachable st -> stack_wf st.
Proof.
  induction 1; eauto using handle_inbound_wf, step_wf.
  split; intros *; simpl; rewrite !lookup_empty; [split; by intros [? ?]|done|done].
Qed.

(** Each TCP connection is one flow. In every reachable state the flows and
    the sockets correspond one to one, no two flows share both endpoints, and
    every flow was handed to the supervisor; the first segment of a new
    connection creates and hands over exactly one flow with the segment's
    endpoints, and its retransmission creates none. *)
Theorem each_connection_is_one_flow st packet dst src socket :
  stack_reachable st -> is_ipv4 packet = true -> parse_new_tcp_syn packet = Some (dst, src) ->
  sock_listen (sa_ip dst) (sa_port dst) = Some socket ->
  let st' := handle_inbound st packet in
  stack_wf st /\
  (exists h f, ss_flows st' !! h = Some f /\ sf_dst f = dst /\ sf_src f = src) /\
  ss_accepted st' = ss_accepted st ++
    (if flow_already_exists st dst src then [] else [mkAcceptedFlow src dst]) /\
  ss_flows (handle_inbound st' packet) = ss_flows st' /\
  ss_accepted (handle_inbound st' packet) = ss_accepted st'.
Proof.
  intros Hr Hip Hsyn Hl st'. split; [by apply stack_reachable_wf|].
  assert (Hst : (exists h f, ss_flows st' !! h = Some f /\ sf_dst f = dst /\ sf_src f = src) /\
    ss_accepted st' = ss_accepted st ++
      (if flow_already_exists st dst src then [] else [mkAcceptedFlow src dst])).
  { unfold st', handle_inbound. rewrite Hip, Hsyn. simpl.
    destruct (flow_already_exists st dst src) eqn:E.
    - apply flow_already_exists_true in E. by rewrite app_nil_r.
    - unfold allocate_flow. rewrite Hl. simpl. split; [|done].
      eexists _, _. rewrite lookup_insert_eq. split_and!; [done|done|done]. }
  destruct Hst as [Hex Hacc]. split_and!; [done|done|..];
    (unfold handle_inbound at 1; rewrite Hip, Hsyn; simpl;
     rewrite (proj2 (flow_already_exists_true st' dst src) Hex); done).
Qed.
End StackFacts.

(** ** A concrete stack *)

Module StackDemo.

(** A socket that accepts everything and buffers what it received. *)
Record ToySocket := mkToySocket { ts_rx : bytes; ts_tx : bytes; ts_state : TcpState }.

#[export] Instance toy_smoltcp : Smoltcp := {|
  Socket := ToySocket;
  sock_state := ts_state;
  rx_buffer := ts_rx;
  tx_accepted := ts_tx;
  can_recv s := negb (bool_decide (ts_rx s = []));
  can_send s := true;
  recv_slice s n := (Some (take n (ts_rx s)), mkToySocket (drop n (ts_rx s)) (ts_tx s) (ts_state s));
  send_slice s bs :=
    let n := Nat.min 4 (length bs) in
    (Some n, mkToySocket (ts_rx s) (ts_tx s ++ take n bs) (ts_state s));
  sock_close s := mkToySocket (ts_rx s) (ts_tx s) Closed;
  sock_listen a p := Some (mkToySocket [] [] Listen);
  fresh_handle ss := fresh (dom ss : gset Z);
  ipv4_new_checked l :=
    match l with
    | _ :: src :: dst :: payload => Some (mkIpv4Header true src dst payload)
    | _ => None
    end;
  tcp_new_checked l :=
    match l with
    | sport :: dport :: _ => Some (mkTcpHeader true false sport dport)
    | _ => None
    end;
|}.

#[export] Instance toy_smoltcp_laws : SmoltcpLaws.
Proof.
  split; simpl; try done.
  - intros s bs. split; [split; [apply (Nat.le_min_r 4)|done]|done].
  - intros ss. apply not_elem_of_dom, is_fresh.
Qed.

Definition packet : bytes := [69; 100; 200; 4000; 443].
Definition dst : SocketAddrV4 := mkSocketAddrV4 200 443.
Definition src : SocketAddrV4 := mkSocketAddrV4 100 4000.
Definition started : StackState := stack_new.
Definition flow : StackFlow :=
  mkStackFlow flow_channel (mkChan [[1; 2; 3; 4; 5; 6]; [7]] 64 true true) (Some [0]) true src dst.
Definition socket (rx tx : bytes) (st : TcpState) : Socket := mkToySocket rx tx st.
Definition sock : Socket := socket [9] [] Established.

(** A channel whose forwarder does not keep up. *)
Definition full : Chan := mkChan (repeat [0] 64) 64 true true.
End StackDemo.
#[local] Existing Instances StackDemo.toy_smoltcp StackDemo.toy_smoltcp_laws.

(** The byte a slow forwarder never sees: it left the socket's buffer and is
    not in the channel. *)
Example full_channel_loses_bytes :
  (drain_socket StackDemo.sock StackDemo.full).2 = StackDemo.full /\
  rx_buffer (drain_socket StackDemo.sock StackDemo.full).1 = [].
Proof. split; by_vm. Qed.

Lemma downstream_is_conserved_witness :
  downstream (StackDemo.socket [] [0; 1; 2; 3; 4] Established) (Some [5; 6]) (mkChan [[7]] 64 true true) =
  [0; 1; 2; 3; 4; 5; 6; 7].
Proof.
  destruct (downstream_is_conserved StackDemo.sock StackDemo.flow
    (StackDemo.socket [] [0; 1; 2; 3; 4] Established)
    (mkStackFlow (set_queue flow_channel [[9]]) (mkChan [[7]] 64 true true) (Some [5; 6]) true
       StackDemo.src StackDemo.dst) false) as [Hd _].
  - by_vm.
  - exact Hd.
Defined.

Lemma upstream_is_conserved_unless_full_witness :
  concat (ch_queue (set_queue flow_channel [[9]])) ++ [] = [9].
Proof.
  apply (upstream_is_conserved_unless_full StackDemo.sock flow_channel
    (StackDemo.socket [] [] Established) (set_queue flow_channel [[9]])).
  - reflexivity.
  - by_vm.
  - vm_compute. lia.
Defined.

Lemma each_connection_is_one_flow_witness :
  ss_accepted (handle_inbound StackDemo.started StackDemo.packet) =
    [mkAcceptedFlow StackDemo.src StackDemo.dst].
Proof.
  destruct (each_connection_is_one_flow StackDemo.started StackDemo.packet StackDemo.dst
    StackDemo.src (StackDemo.socket [] [] Listen)) as (_ & _ & Ha & _).
  - constructor.
  - reflexivity.
  - by_vm.
  - reflexivity.
  - exact Ha.
Defined.
