(* ===== verification/KmsPolicy.v ===== *)
(** The in-enclave check of a KMS key policy
    ([enclavia-protocol/src/kms_policy.rs]).

    The policy document is a JSON value; [verify_decrypt_policy] is the check.
    What it must guarantee is stated against the documented evaluation of an
    IAM policy: [iam_allows] says when a statement allows an action in a request
    context, with glob patterns for actions and the string condition operators.
    The result is soundness: a policy that passes lets nobody decrypt outside
    an attestation with the expected measurements, and lets nobody loosen the
    policy. *)
From stdpp Require Import base gmap list strings.
From S2P Require Import Prelude Text Identity.
#[local] Open Scope Z_scope.

(** ** JSON *)

(** [serde_json::Value]; numbers, booleans and null are not looked at. *)
Inductive Value : Type :=
| VString (s : str)
| VArray (l : list Value)
| VObject (fields : list (str * Value))
| VOther.

(** [Value::get] at a key. *)
Definition vget (v : Value) (key : string) : option Value :=
  match v with
  | VObject fields => snd <$> List.find (fun f => bool_decide (f.1 = lit key)) fields
  | _ => None
  end.

Definition as_str (v : Value) : option str := match v with VString s => Some s | _ => None end.
Definition as_object (v : Value) : option (list (str * Value)) :=
  match v with VObject fields => Some fields | _ => None end.

Definition strip_prefix (p s : str) : option str :=
  if bool_decide (take (length p) s = p) then Some (drop (length p) s) else None.

Definition str_starts_with (s p : str) : bool := bool_decide (take (length p) s = p).

(** [str::eq_ignore_ascii_case]. *)
Definition eq_ignore_ascii_case (a b : str) : bool :=
  bool_decide (to_ascii_lowercase a = to_ascii_lowercase b).

(** ** The check *)

Definition EQ_OPERATORS : list str := [lit "StringEquals"; lit "StringEqualsIgnoreCase"].

Definition FORBIDDEN_ACTIONS : list str :=
  [lit "kms:putkeypolicy"; lit "kms:creategrant"; lit "kms:replicatekey"].

Inductive PolicyError : Type :=
| PE_Json (detail : string)
| NoStatements
| NotAction
| WildcardAction (action : str)
| ForbiddenAction (action : str)
| UngatedDecrypt
| PcrMismatch (index : Z) (found expected : str).

Definition normalize_actions (action : option Value) : list str :=
  match action with
  | Some (VString s) => [to_ascii_lowercase s]
  | Some (VArray arr) => to_ascii_lowercase <$> omap as_str arr
  | _ => []
  end.

Definition PCR_KEY : str := lit "kms:RecipientAttestation:PCR".
Definition PCR_KEY_LOWER : str := lit "kms:RecipientAttestation:pcr".

(** The suffix of a PCR condition key. *)
Definition pcr_suffix (key : str) : option str :=
  match strip_prefix PCR_KEY key with
  | Some s => Some s
  | None => strip_prefix PCR_KEY_LOWER key
  end.

(** The inner loop over one operator's keys: a later key overwrites. *)
Definition bind_keys (kv_map : list (str * Value)) (out : gmap (list Z) str) : gmap (list Z) str :=
  fold_left
    (fun out '(key, val) =>
       match pcr_suffix key, val with
       | Some suffix, VString s => <[suffix := s]> out
       | _, _ => out
       end) kv_map out.

Definition collect_pcr_bindings (stmt : Value) : gmap (list Z) str :=
  match vget stmt "Condition" ≫= as_object with
  | None => ∅
  | Some cond =>
      fold_left
        (fun out '(op, kv) =>
           if bool_decide (op ∈ EQ_OPERATORS) then
             match as_object kv with
             | Some kv_map => bind_keys kv_map out
             | None => out
             end
           else out) cond ∅
  end.

(** The loop over the actions of a statement. *)
Fixpoint check_actions (actions : list str) : result unit PolicyError :=
  match actions with
  | [] => Ok tt
  | action :: actions =>
      if contains_char action 42 || contains_char action 63 then Err (WildcardAction action)
      else if bool_decide (action ∈ FORBIDDEN_ACTIONS) || str_starts_with action (lit "kms:reencrypt")
      then Err (ForbiddenAction action)
      else check_actions actions
  end.

(** The loop over the three expected values. *)
Fixpoint check_bindings (bound : gmap (list Z) str) (want : list (str * Z * str))
    : result unit PolicyError :=
  match want with
  | [] => Ok tt
  | (suffix, index, expected) :: want =>
      match bound !! suffix with
      | None => Err UngatedDecrypt
      | Some found =>
          if eq_ignore_ascii_case found expected then check_bindings bound want
          else Err (PcrMismatch index found expected)
      end
  end.

Section Check.
(** The hex crate, and [serde_json::from_str]. *)
Context (hex_encode : bytes -> str) (from_str : str -> result Value string).

Definition wanted (own : Pcrs) : list (str * Z * str) :=
  [(lit "0", 0, hex_encode (pcr0 own)); (lit "1", 1, hex_encode (pcr1 own));
   (lit "2", 2, hex_encode (pcr2 own))].

Definition check_statement (own : Pcrs) (stmt : Value) : result unit PolicyError :=
  if negb (bool_decide ((vget stmt "Effect" ≫= as_str) = Some (lit "Allow"))) then Ok tt
  else if bool_decide (is_Some (vget stmt "NotAction")) then Err NotAction
  else
    let actions := normalize_actions (vget stmt "Action") in
    let? _ := check_actions actions in
    if bool_decide (lit "kms:decrypt" ∈ actions)
    then check_bindings (collect_pcr_bindings stmt) (wanted own)
    else Ok tt.

Fixpoint check_statements (own : Pcrs) (stmts : list Value) : result unit PolicyError :=
  match stmts with
  | [] => Ok tt
  | stmt :: stmts => let? _ := check_statement own stmt in check_statements own stmts
  end.

Definition policy_statements (doc : Value) : option (list Value) :=
  match vget doc "Statement" with
  | Some (VArray arr) => Some arr
  | Some other => Some [other]
  | None => None
  end.

Definition verify_decrypt_policy (policy_json : str) (own : Pcrs) : result unit PolicyError :=
  let? doc := map_err PE_Json (from_str policy_json) in
  let? statements := ok_or (policy_statements doc) NoStatements in
  check_statements own statements.

(** ** What a policy allows *)

(** Glob matching of an action pattern: [*] is any run, [?] any character. *)
Fixpoint glob (p : str) : str -> bool :=
  fix go (s : str) : bool :=
    match p, s with
    | [], [] => true
    | [], _ => false
    | c :: p', _ =>
        if c =? 42 then glob p' s || match s with [] => false | _ :: s' => go s' end
        else match s with
             | [] => false
             | d :: s' => ((c =? 63) || (c =? d)) && glob p' s'
             end
    end.

(** A request: the action, and the value of each condition key (keys compare
    without case). *)
Record Request := mkRequest {
  rq_action : str;
  rq_context : gmap (list Z) str;
}.

Definition context_value (r : Request) (key : str) : option str :=
  rq_context r !! to_ascii_lowercase key.

(** The values of a condition: a string or any of an array. *)
Definition condition_values (v : Value) : list str :=
  match v with
  | VString s => [s]
  | VArray arr => omap as_str arr
  | _ => []
  end.

(** Operators other than the two string equalities hold as [other] says. *)
Definition operator_holds (other : str -> str -> Value -> Request -> bool) (r : Request)
    (op key : str) (val : Value) : bool :=
  match context_value r key with
  | Some x =>
      if bool_decide (op = lit "StringEquals") then bool_decide (x ∈ condition_values val)
      else if bool_decide (op = lit "StringEqualsIgnoreCase")
      then existsb (eq_ignore_ascii_case x) (condition_values val)
      else other op key val r
  | None =>
      if bool_decide (op ∈ EQ_OPERATORS) then false else other op key val r
  end.

(** Every key of every operator must hold. *)
Definition condition_holds (other : str -> str -> Value -> Request -> bool) (r : Request)
    (stmt : Value) : bool :=
  match vget stmt "Condition" ≫= as_object with
  | None => true
  | Some cond =>
      forallb (fun '(op, kv) =>
        match as_object kv with
        | Some kv_map => forallb (fun '(key, val) => operator_holds other r op key val) kv_map
        | None => true
        end) cond
  end.

(** Action patterns of a statement; [NotAction] allows everything else. *)
Definition action_patterns (stmt : Value) : list str :=
  match vget stmt "Action" with
  | Some (VString s) => [s]
  | Some (VArray arr) => omap as_str arr
  | _ => []
  end.

Definition pattern_matches (pattern action : str) : bool :=
  glob (to_ascii_lowercase pattern) (to_ascii_lowercase action).

Definition statement_allows (other : str -> str -> Value -> Request -> bool) (r : Request)
    (stmt : Value) : bool :=
  bool_decide ((vget stmt "Effect" ≫= as_str) = Some (lit "Allow")) &&
  (bool_decide (is_Some (vget stmt "NotAction")) ||
   existsb (fun p => pattern_matches p (rq_action r)) (action_patterns stmt)) &&
  condition_holds other r stmt.

(** Some statement allows the request (explicit denials only restrict). *)
Definition iam_allows (other : str -> str -> Value -> Request -> bool) (doc : Value) (r : Request)
    : bool :=
  existsb (statement_allows other r) (default [] (policy_statements doc)).
End Check.

(** ** Facts *)

(** A pattern without wildcards matches only itself. *)
Lemma glob_literal p s : 42 ∉ p -> 63 ∉ p -> glob p s = true -> p = s.
Proof.
  revert s. induction p as [|c p IH]; intros s H1 H2 Hg.
  { by destruct s. }
  apply not_elem_of_cons in H1 as [Hc1 H1], H2 as [Hc2 H2].
  destruct s as [|d s]; simpl in Hg; rewrite (proj2 (Z.eqb_neq c 42)) in Hg by done; [done|].
  rewrite (proj2 (Z.eqb_neq c 63)) in Hg by done. simpl in Hg.
  apply andb_true_iff in Hg as [Hd Hg]. apply Z.eqb_eq in Hd as ->. f_equal. by apply IH.
Qed.

Lemma check_actions_Ok actions :
  check_actions actions = Ok tt ->
  Forall (fun a => (42 ∉ a) /\ (63 ∉ a) /\ (a ∉ FORBIDDEN_ACTIONS) /\
                   str_starts_with a (lit "kms:reencrypt") = false) actions.
Proof.
  induction actions as [|a actions IH]; simpl; [done|]. intros Hc.
  unfold contains_char in Hc. case_bool_decide; [done|]. case_bool_decide; [done|]. simpl in Hc.
  case_bool_decide; [done|]. simpl in Hc.
  destruct (str_starts_with a (lit "kms:reencrypt")) eqn:E; [done|]. constructor; auto.
Qed.

Lemma normalized_action p stmt :
  p ∈ action_patterns stmt -> to_ascii_lowercase p ∈ normalize_actions (vget stmt "Action").
Proof.
  unfold action_patterns, normalize_actions. destruct (vget stmt "Action") as [[s|arr|f|]|]; set_solver.
Qed.

Lemma bind_keys_lookup kv out suffix v :
  bind_keys kv out !! suffix = Some v ->
  out !! suffix = Some v \/
  exists key, (key, VString v) ∈ kv /\ pcr_suffix key = Some suffix.
Proof.
  unfold bind_keys. revert out. induction kv as [|[key val] kv IH]; intros out; simpl; [by left|].
  intros Hb. apply IH in Hb as [Hb|(key' & Hk & Hs)]; [|right; exists key'; split; [by right|done]].
  destruct (pcr_suffix key) as [suf|] eqn:Es; [|by left].
  destruct val as [s|l|f|]; try by left.
  apply lookup_insert_Some in Hb as [[-> ->]|[_ Hb]]; [|by left].
  right. exists key. split; [left|done].
Qed.

(** A collected binding is a key of an equality operator of the condition. *)
Lemma collect_lookup stmt suffix v :
  collect_pcr_bindings stmt !! suffix = Some v ->
  exists cond op kv_map key, (vget stmt "Condition" ≫= as_object) = Some cond /\
    (op, VObject kv_map) ∈ cond /\ op ∈ EQ_OPERATORS /\
    (key, VString v) ∈ kv_map /\ pcr_suffix key = Some suffix.
Proof.
  unfold collect_pcr_bindings. destruct (vget stmt "Condition" ≫= as_object) as [cond|]; [|done].
  assert (Hgen : forall out, fold_left
      (fun out '(op, kv) => if bool_decide (op ∈ EQ_OPERATORS) then
         match as_object kv with Some kv_map => bind_keys kv_map out | None => out end else out)
      cond out !! suffix = Some v ->
    out !! suffix = Some v \/
    exists op kv_map key, (op, VObject kv_map) ∈ cond /\ op ∈ EQ_OPERATORS /\
      (key, VString v) ∈ kv_map /\ pcr_suffix key = Some suffix).
  { induction cond as [|[op kv] cond IH]; intros out Hf; simpl in Hf; [by left|].
    apply IH in Hf as [Hf|(op' & m & key & Hin & Hr)].
    2: { right. exists op', m, key. split; [by right|done]. }
    case_bool_decide as Hop; [|by left]. destruct kv as [s|l|f|]; try by left.
    apply bind_keys_lookup in Hf as [Hf|(key & Hk & Hs)]; [by left|].
    right. exists op, f, key. split_and!; [left|done..]. }
  intros [?|(op & m & key & H1 & H2 & H3 & H4)]%Hgen; [done|]. exists cond, op, m, key. done.
Qed.

Lemma strip_prefix_Some p s r : strip_prefix p s = Some r -> s = p ++ r.
Proof.
  unfold strip_prefix. case_bool_decide as Hp; [|done]. intros; simplify_eq.
  rewrite <-(take_drop (length p) s) at 1. by rewrite Hp.
Qed.

Lemma pcr_suffix_lower key suffix :
  pcr_suffix key = Some suffix -> to_ascii_lowercase key = to_ascii_lowercase (PCR_KEY ++ suffix).
Proof.
  unfold pcr_suffix. destruct (strip_prefix PCR_KEY key) as [s|] eqn:E.
  - intros; simplify_eq. by apply strip_prefix_Some in E as ->.
  - intros ->%strip_prefix_Some. unfold to_ascii_lowercase. rewrite !fmap_app. f_equal.
Qed.

Lemma check_bindings_Ok bound want :
  check_bindings bound want = Ok tt ->
  Forall (fun '(suffix, _, expected) => exists found, bound !! suffix = Some found /\
            eq_ignore_ascii_case found expected = true) want.
Proof.
  induction want as [|[[suffix i] expected] want IH]; simpl; [done|]. intros Hc.
  destruct (bound !! suffix) as [found|] eqn:E; [|done].
  destruct (eq_ignore_ascii_case found expected) eqn:Ee; [|done]. constructor; eauto.
Qed.

Lemma eq_ignore_ascii_case_true a b :
  eq_ignore_ascii_case a b = true <-> to_ascii_lowercase a = to_ascii_lowercase b.
Proof. apply bool_decide_eq_true. Qed.

Section Soundness.
Context (hex_encode : bytes -> str) (from_str : str -> result Value string)
  (other : str -> str -> Value -> Request -> bool).

(** A request satisfying the condition has every bound value in its context. *)
Lemma binding_forces_context stmt suffix found r :
  collect_pcr_bindings stmt !! suffix = Some found -> condition_holds other r stmt = true ->
  exists x, context_value r (PCR_KEY ++ suffix) = Some x /\ eq_ignore_ascii_case x found = true.
Proof.
  intros (cond & op & m & key & Hcond & Hin & Hop & Hkey & Hsuf)%collect_lookup Hc.
  unfold condition_holds in Hc. rewrite Hcond in Hc.
  rewrite forallb_forall in Hc. specialize (Hc _ (proj1 (list_elem_of_In _ _) Hin)). simpl in Hc.
  rewrite forallb_forall in Hc. specialize (Hc _ (proj1 (list_elem_of_In _ _) Hkey)). simpl in Hc.
  unfold operator_holds in Hc. unfold context_value in Hc |- *.
  rewrite (pcr_suffix_lower _ _ Hsuf) in Hc.
  destruct (rq_context r !! _) as [x|]; [|by rewrite bool_decide_true in Hc].
  exists x. split; [done|].
  unfold EQ_OPERATORS in Hop. rewrite !elem_of_cons in Hop.
  destruct Hop as [->|[->|[]%elem_of_nil]].
  - rewrite bool_decide_true in Hc by done. apply bool_decide_eq_true in Hc.
    simpl in Hc. apply list_elem_of_singleton in Hc as ->. by apply eq_ignore_ascii_case_true.
  - rewrite bool_decide_false in Hc by done. rewrite bool_decide_true in Hc by done.
    simpl in Hc. by rewrite orb_false_r in Hc.
Qed.

(** What a statement that passes lets through. *)
Lemma checked_statement_sound own stmt r :
  check_statement hex_encode own stmt = Ok tt -> statement_allows other r stmt = true ->
  let action := to_ascii_lowercase (rq_action r) in
  (action ∉ FORBIDDEN_ACTIONS) /\ str_starts_with action (lit "kms:reencrypt") = false /\
  (action = lit "kms:decrypt" ->
   Forall (fun '(suffix, _, expected) => exists x, context_value r (PCR_KEY ++ suffix) = Some x /\
             eq_ignore_ascii_case x expected = true) (wanted hex_encode own)).
Proof.
  intros Hc Ha action. unfold check_statement in Hc. unfold statement_allows in Ha.
  apply andb_true_iff in Ha as [[He Ha]%andb_true_iff Hcond]. rewrite He in Hc. cbn [negb] in Hc.
  case_bool_decide; [done|]. simpl in Ha.
  apply existsb_exists in Ha as (p & Hp%list_elem_of_In & Hm). unfold pattern_matches in Hm.
  apply normalized_action in Hp.
  destruct (check_actions _) as [[]|] eqn:Eca; [|done]. apply check_actions_Ok in Eca.
  rewrite Forall_forall in Eca. destruct (Eca _ Hp) as (Hs & Hq & Hf & Hre).
  apply glob_literal in Hm; [|done|done]. rewrite Hm in *. split_and!; [done|done|].
  unfold action. intros Hd. rewrite Hd in Hp. rewrite bool_decide_true in Hc by done.
  apply check_bindings_Ok in Hc. eapply Forall_impl; [exact Hc|].
  intros [[suffix i] expected] (found & Hb & Heq).
  destruct (binding_forces_context _ _ _ _ Hb Hcond) as (x & Hx & Hxf).
  exists x. split; [done|]. rewrite eq_ignore_ascii_case_true in *. congruence.
Qed.

Lemma check_statements_Ok own stmts :
  check_statements hex_encode own stmts = Ok tt <->
  Forall (fun s => check_statement hex_encode own s = Ok tt) stmts.
Proof.
  induction stmts as [|s stmts IH]; simpl; [done|]. rewrite Forall_cons, <-IH.
  destruct (check_statement hex_encode own s) as [[]|]; naive_solver.
Qed.

Lemma accepted_policy_sound_aux policy doc own r :
  from_str policy = Ok doc -> verify_decrypt_policy hex_encode from_str policy own = Ok tt ->
  iam_allows other doc r = true ->
  let action := to_ascii_lowercase (rq_action r) in
  (action ∉ FORBIDDEN_ACTIONS) /\ str_starts_with action (lit "kms:reencrypt") = false /\
  (action = lit "kms:decrypt" ->
   Forall (fun '(suffix, _, expected) => exists x, context_value r (PCR_KEY ++ suffix) = Some x /\
             eq_ignore_ascii_case x expected = true) (wanted hex_encode own)).
Proof.
  unfold verify_decrypt_policy, iam_allows. intros -> Hv Ha. simpl in Hv.
  destruct (policy_statements doc) as [stmts|]; simpl in *; [|done].
  apply existsb_exists in Ha as (s & Hs%list_elem_of_In & Hal).
  apply check_statements_Ok in Hv. rewrite Forall_forall in Hv.
  exact (checked_statement_sound own s r (Hv s Hs) Hal).
Qed.

(** C24: an accepted key policy is sound. Under the documented evaluation of
    IAM policies, if a policy passes the check then every request it allows is
    neither one of the actions that could loosen the gate (rewriting the policy,
    granting, replicating) nor a re-encryption, and a request to decrypt it
    allows carries an attestation whose PCR0, PCR1 and PCR2 are the expected
    ones, whatever the other operators of its conditions mean. *)
Theorem accepted_policy_is_sound policy doc own r :
  from_str policy = Ok doc -> verify_decrypt_policy hex_encode from_str policy own = Ok tt ->
  iam_allows other doc r = true ->
  let action := to_ascii_lowercase (rq_action r) in
  (action ∉ FORBIDDEN_ACTIONS) /\ str_starts_with action (lit "kms:reencrypt") = false /\
  (action = lit "kms:decrypt" ->
   Forall (fun '(suffix, _, expected) => exists x, context_value r (PCR_KEY ++ suffix) = Some x /\
             eq_ignore_ascii_case x expected = true) (wanted hex_encode own)).
Proof. apply accepted_policy_sound_aux. Qed.
End Soundness.

(** ** A concrete policy *)

Module PolicyDemo.
Definition hex (b : bytes) : str := (fun x => 97 + x mod 6) <$> b.
Definition own : Pcrs := mkPcrs [0; 1] [2; 3] [4; 5].

Definition pcr_condition : Value :=
  VObject [(lit "StringEqualsIgnoreCase", VObject
    [(lit "kms:RecipientAttestation:PCR0", VString (lit "AB"));
     (lit "kms:RecipientAttestation:PCR1", VString (lit "cd"));
     (lit "kms:RecipientAttestation:PCR2", VString (lit "ef"))])].

Definition statement (action : string) : Value :=
  VObject [(lit "Effect", VString (lit "Allow"));
           (lit "Action", VArray [VString (lit "kms:GetPublicKey"); VString (lit action)]);
           (lit "Condition", pcr_condition)].

Definition doc (action : string) : Value := VObject [(lit "Statement", VArray [statement action])].
Definition parse (action : string) (s : str) : result Value string := Ok (doc action).

Definition request : Request :=
  mkRequest (lit "kms:Decrypt")
    (list_to_map [(to_ascii_lowercase (PCR_KEY ++ lit "0"), lit "ab");
                  (to_ascii_lowercase (PCR_KEY ++ lit "1"), lit "cd");
                  (to_ascii_lowercase (PCR_KEY ++ lit "2"), lit "ef")]).
Definition no_other (_ _ : str) (_ : Value) (_ : Request) : bool := false.

Example verdicts :
  verify_decrypt_policy hex (parse "kms:Decrypt") [] own = Ok tt /\
  verify_decrypt_policy hex (parse "kms:Decryp?") [] own = Err (WildcardAction (lit "kms:decryp?")) /\
  verify_decrypt_policy hex (parse "kms:CreateGrant") [] own =
    Err (ForbiddenAction (lit "kms:creategrant")) /\
  verify_decrypt_policy hex (parse "kms:Decrypt") [] (mkPcrs [0; 2] [2; 3] [4; 5]) =
    Err (PcrMismatch 0 (lit "AB") (lit "ac")).
Proof. by vm_compute. Qed.
End PolicyDemo.

Lemma accepted_policy_is_sound_witness :
  Forall (fun '(suffix, _, expected) => exists x,
    context_value PolicyDemo.request (PCR_KEY ++ suffix) = Some x /\
    eq_ignore_ascii_case x expected = true) (wanted PolicyDemo.hex PolicyDemo.own).
Proof.
  apply (accepted_policy_is_sound PolicyDemo.hex (PolicyDemo.parse "kms:Decrypt") PolicyDemo.no_other
    [] (PolicyDemo.doc "kms:Decrypt") PolicyDemo.own PolicyDemo.request).
  - reflexivity.
  - by_vm.
  - by_vm.
  - by_vm.
Defined.
