(* ===== verification/Crypto.v ===== *)
(** The key tool of a storage enclave ([enclavia-crypto/src/main.rs]) and the
    host CID it relies on ([enclavia-vsock/src/lib.rs]).

    The tool unlocks the volume's passphrase through KMS at boot ([init]),
    stages a second passphrase for an upgrade ([prepare_upgrade]) and undoes the
    staging ([revoke_upgrade]).  Its world is the LUKS volume, the key blob on
    the host, the rollback stash and the key files; the operations run in a
    state and error monad over it.  cryptsetup is the class [Cryptsetup], with
    the documented effect of its commands on the keyslots as [CryptsetupLaws];
    KMS, RSA-OAEP, base64, JSON and hex are arguments, and every call may fail:
    the record [Env] says how each ends. *)
From stdpp Require Import base gmap list strings.
From S2P Require Import Prelude Text Identity KmsPolicy.
#[local] Open Scope Z_scope.

(** ** The host CID *)

Definition NITRO_PARENT_CID : Z := 3.
Definition QEMU_HOST_CID : Z := 2.

Definition parse_host_cid (raw : str) : option Z :=
  match parse_uint u32_max (trim raw) with
  | Ok cid => if (cid =? NITRO_PARENT_CID) || (cid =? QEMU_HOST_CID) then Some cid else None
  | Err _ => None
  end.

(** [init_recorded_host_cid], from the file's contents if it can be read. *)
Definition init_recorded_host_cid (file : option str) : option Z := file ≫= parse_host_cid.

(** [host_cid], with the answer of the reachability probe. *)
Definition host_cid (file : option str) (probe : bool) : Z :=
  match init_recorded_host_cid file with
  | Some cid => cid
  | None => if probe then NITRO_PARENT_CID else QEMU_HOST_CID
  end.

(** ** The KMS transport *)

Inductive TransportSelection : Type := TS_Mock | TS_Aws (region : str).

Definition select_transport (region : option str) (init_recorded_cid : option Z)
    : result TransportSelection string :=
  let mock := if bool_decide (init_recorded_cid = Some 2) then Ok TS_Mock
              else Err "refusing the plaintext mock-KMS transport"%string in
  match region with
  | Some region => if bool_decide (trim region = []) then mock else Ok (TS_Aws (trim region))
  | None => mock
  end.

Record Credentials := mkCredentials {
  access_key_id : str;
  secret_access_key : str;
  session_token : option str;
}.

Inductive KmsTransport : Type :=
| KT_Mock
| KT_Aws (region host : str) (creds : Credentials).

Definition kms_transport (var : string -> option str) (cid_file : option str)
    : result KmsTransport string :=
  let? sel := select_transport (var "KMS_AWS_REGION"%string) (init_recorded_host_cid cid_file) in
  match sel with
  | TS_Mock => Ok KT_Mock
  | TS_Aws region =>
      let host := lit "kms." ++ region ++ lit ".amazonaws.com" in
      let? access := ok_or (var "AWS_ACCESS_KEY_ID"%string) "AWS_ACCESS_KEY_ID required"%string in
      let? secret := ok_or (var "AWS_SECRET_ACCESS_KEY"%string) "AWS_SECRET_ACCESS_KEY required"%string in
      let token := match var "AWS_SESSION_TOKEN"%string with
                   | Some [] => None
                   | t => t
                   end in
      Ok (KT_Aws region host (mkCredentials access secret token))
  end.

(** ** Keyslots *)

(** [str::lines]: split at line feeds, a trailing carriage return dropped, no
    last empty line. *)
Definition strip_cr (l : str) : str :=
  match reverse l with 13 :: r => reverse r | _ => l end.

Definition lines (s : str) : list str :=
  let ls := split_on 10 s in
  strip_cr <$> match reverse ls with [] :: r => reverse r | _ => ls end.

Record KeyslotScan := mkKeyslotScan {
  ks_in_keyslots : bool;
  ks_seen_section : bool;
  ks_slots : list Z;
}.

Definition scan_line (st : KeyslotScan) (line : str) : KeyslotScan :=
  if negb (bool_decide (line = [])) && negb (starts_with line 32 || starts_with line 9) then
    let in_keyslots := bool_decide (trim_end line = lit "Keyslots:") in
    mkKeyslotScan in_keyslots (ks_seen_section st || in_keyslots) (ks_slots st)
  else if negb (ks_in_keyslots st) then st
  else match split_once 58 (trim_start line) with
  | Some (idx, _) =>
      match parse_uint u32_max idx with
      | Ok n => mkKeyslotScan true (ks_seen_section st) (ks_slots st ++ [n])
      | Err _ => st
      end
  | None => st
  end.

Definition scan_lines (st : KeyslotScan) (ls : list str) : KeyslotScan := fold_left scan_line ls st.

Definition parse_occupied_keyslots (dump : str) : option (list Z) :=
  let st := scan_lines (mkKeyslotScan false false []) (lines dump) in
  if ks_seen_section st then Some (ks_slots st) else None.

(** The [while] loop; a slot below the number of occupied ones is free, so that
    number bounds the rounds. *)
Fixpoint first_free_loop (fuel : nat) (n : Z) (occupied : list Z) : Z :=
  match fuel with
  | O => n
  | S fuel' => if bool_decide (n ∈ occupied) then first_free_loop fuel' (n + 1) occupied else n
  end.

Definition first_free_from_occupied (occupied : list Z) : Z :=
  first_free_loop (S (length occupied)) 0 occupied.

(** ** cryptsetup *)

Inductive Exit : Type := Exit_Success | Exit_Failure | Spawn_Failed.

#[global] Instance Exit_eq_dec : EqDecision Exit.
Proof. solve_decision. Defined.

(** A volume and its commands: [luksDump], [luksAddKey --new-key-slot],
    [luksOpen --test-passphrase] with or without [--key-slot], [luksKillSlot]. *)
Class Cryptsetup := {
  Volume : Type;
  keyslots : Volume -> gmap Z bytes;
  luks_dump : Volume -> Exit * str;
  luks_add_key : Volume -> bytes -> Z -> bytes -> Exit * Volume;
  luks_test : Volume -> option Z -> bytes -> Exit;
  luks_kill_slot : Volume -> bytes -> Z -> Exit * Volume;
}.

(** [p] opens the volume by some slot. *)
Definition opens `{Cryptsetup} (v : Volume) (p : bytes) : Prop :=
  exists slot, keyslots v !! slot = Some p.

(** Adding needs a valid passphrase and a free slot; killing needs the
    passphrase of a remaining slot; a command that fails changes nothing; the
    dump lists the occupied slots. *)
Class CryptsetupLaws `{Cryptsetup} : Prop := {
  luks_dump_law v text : luks_dump v = (Exit_Success, text) ->
    exists occupied, parse_occupied_keyslots text = Some occupied /\
      forall n, n ∈ occupied <-> is_Some (keyslots v !! n);
  luks_add_key_law v cur slot new v' :
    luks_add_key v cur slot new = (Exit_Success, v') ->
    opens v cur /\ keyslots v !! slot = None /\ keyslots v' = <[slot := new]> (keyslots v);
  luks_add_key_fail v cur slot new e v' :
    luks_add_key v cur slot new = (e, v') -> e <> Exit_Success -> keyslots v' = keyslots v;
  luks_test_law v slot p : luks_test v (Some slot) p = Exit_Success -> keyslots v !! slot = Some p;
  luks_test_any_law v p : luks_test v None p = Exit_Success -> opens v p;
  luks_kill_slot_law v cur slot v' :
    luks_kill_slot v cur slot = (Exit_Success, v') ->
    (exists other, other <> slot /\ keyslots v !! other = Some cur) /\
    keyslots v' = delete slot (keyslots v);
  luks_kill_slot_fail v cur slot e v' :
    luks_kill_slot v cur slot = (e, v') -> e <> Exit_Success -> keyslots v' = keyslots v;
}.

(** The commands do their work when they can: what a functioning volume adds
    to the laws. *)
Class CryptsetupWorks `{Cryptsetup} : Prop := {
  luks_test_works v slot p :
    luks_test v (Some slot) p = if decide (keyslots v !! slot = Some p) then Exit_Success
                                else Exit_Failure;
  luks_test_any_works v p : opens v p -> luks_test v None p = Exit_Success;
  luks_kill_slot_works v cur slot other :
    is_Some (keyslots v !! slot) -> other <> slot -> keyslots v !! other = Some cur ->
    (luks_kill_slot v cur slot).1 = Exit_Success;
  luks_kill_slot_inactive v cur slot :
    keyslots v !! slot = None -> (luks_kill_slot v cur slot).1 = Exit_Failure;
}.

(** ** The blob, the stash and the world *)

Definition BLOB_VERSION : Z := 1.
Definition PASSPHRASE_BYTES : nat := 32.
Definition MAX_META_BLOB_BYTES : Z := Z.shiftl 1 20.

Record KeyBlob := mkKeyBlob {
  kb_version : Z;
  kb_kms_key_id : str;
  kb_ciphertext : option str;
  kb_prev_key_id : option str;
}.

Record UpgradeRollbackStash := mkStash {
  st_pre_prepare_blob : bytes;
  st_new_keyslot : Z;
}.

Inductive CryptoError : Type :=
| CE_EmptyKeyId
| CE_BadPcr (index : Z)
| CE_PcrLength (index : Z) (len : nat)
| CE_StashExists
| CE_NoStash
| CE_BlobMissing
| CE_BlobDecode (detail : string)
| CE_BlobVersion (version : Z)
| CE_SameKeyId
| CE_NoCiphertext
| CE_Base64
| CE_Kms (detail : string)
| CE_Origin (origin : str)
| CE_Policy (e : PolicyError)
| CE_PublicKeyMismatch
| CE_PassphraseLength (len : nat)
| CE_Encrypt (detail : string)
| CE_Io (detail : string)
| CE_Command (what : string)
| CE_NotLuks2
| CE_NoKeyslots
| CE_SlotNotVerified (slot : Z)
| CE_SlotIsLive (slot : Z)
| CE_VolumeNoLongerOpens (slot : Z)
| CE_MetaRejected.

(** How a write of the blob ends: acknowledged, lost, or stored but not
    acknowledged. *)
Inductive PutFate : Type := Put_Ok | Put_Lost | Put_Unacked.

(** How a key file write ends: done, not opened, or cut after some bytes. *)
Inductive WriteFate : Type := Write_Ok | Write_NoFile | Write_Cut (n : nat).

(** The services and how each call to them ends. *)
Record Env := mkEnv {
  env_meta_get : bytes -> result bytes string;
  env_meta_put : bytes -> PutFate;
  env_write_current : WriteFate;
  env_write_new : WriteFate;
  env_write_key : WriteFate;
  env_stash_readable : bool;
  env_stash_writable : bool;
  env_stash_removable : bool;
  env_origin : str -> result str string;
  env_policy : str -> result str string;
  env_public_key : str -> result bytes string;
  env_decrypt : str -> bytes -> result bytes string;
  env_schedule_deletion : str -> result unit string;
  env_own_pcrs : result Pcrs string;
}.

(** The libraries: RSA-OAEP encryption, base64, the JSON of a blob and of a
    policy, hex. *)
Class Codecs := {
  rsa_oaep_encrypt : bytes -> bytes -> result bytes string;
  b64_encode : bytes -> str;
  b64_decode : str -> option bytes;
  blob_to_vec : KeyBlob -> bytes;
  blob_from_slice : bytes -> result KeyBlob string;
  utf8_lossy : bytes -> bytes;
  json_from_str : str -> result Value string;
  hex_of : bytes -> str;
  bytes_of_hex : str -> option bytes;
}.

Class CodecLaws `{Codecs} : Prop := {
  b64_roundtrip b : b64_decode (b64_encode b) = Some b;
  blob_roundtrip b : blob_from_slice (blob_to_vec b) = Ok b;
  blob_is_utf8 raw b : blob_from_slice raw = Ok b -> utf8_lossy raw = raw;
}.

Section Tool.
Context `{Cryptsetup, Codecs}.

Record CryptoWorld := mkWorld {
  w_volume : Volume;
  w_blob : bytes;
  w_stash : option UpgradeRollbackStash;
  w_current_file : option bytes;
  w_new_file : option bytes;
  w_key_file : option bytes;
  w_scheduled : list str;
}.

Definition set_volume (w : CryptoWorld) v :=
  mkWorld v (w_blob w) (w_stash w) (w_current_file w) (w_new_file w) (w_key_file w) (w_scheduled w).
Definition set_blob (w : CryptoWorld) b :=
  mkWorld (w_volume w) b (w_stash w) (w_current_file w) (w_new_file w) (w_key_file w) (w_scheduled w).
Definition set_stash (w : CryptoWorld) s :=
  mkWorld (w_volume w) (w_blob w) s (w_current_file w) (w_new_file w) (w_key_file w) (w_scheduled w).
Definition set_current_file (w : CryptoWorld) f :=
  mkWorld (w_volume w) (w_blob w) (w_stash w) f (w_new_file w) (w_key_file w) (w_scheduled w).
Definition set_new_file (w : CryptoWorld) f :=
  mkWorld (w_volume w) (w_blob w) (w_stash w) (w_current_file w) f (w_key_file w) (w_scheduled w).
Definition set_key_file (w : CryptoWorld) f :=
  mkWorld (w_volume w) (w_blob w) (w_stash w) (w_current_file w) (w_new_file w) f (w_scheduled w).
Definition add_scheduled (w : CryptoWorld) k :=
  mkWorld (w_volume w) (w_blob w) (w_stash w) (w_current_file w) (w_new_file w) (w_key_file w)
    (w_scheduled w ++ [k]).

(** ** The monad *)

Definition M (A : Type) : Type := CryptoWorld -> result A CryptoError * CryptoWorld.

Definition ret {A} (a : A) : M A := fun w => (Ok a, w).
Definition fail {A} (e : CryptoError) : M A := fun w => (Err e, w).
Definition bind {A B} (m : M A) (k : A -> M B) : M B := fun w =>
  match m w with
  | (Ok a, w') => k a w'
  | (Err e, w') => (Err e, w')
  end.
(** A pure fallible step. *)
Definition lift {A} (r : result A CryptoError) : M A := fun w => (r, w).
Definition get_world : M CryptoWorld := fun w => (Ok w, w).
Definition update (f : CryptoWorld -> CryptoWorld) : M unit := fun w => (Ok tt, f w).
(** Runs a cleanup whatever the outcome, as a guard's [Drop] does. *)
Definition finally {A} (m : M A) (cleanup : CryptoWorld -> CryptoWorld) : M A := fun w =>
  let (r, w') := m w in (r, cleanup w').
(** Ignores an error ([let _ = ...]). *)
Definition ignore {A} (m : M A) : M unit := fun w => (Ok tt, (m w).2).
End Tool.

Declare Scope crypto_scope.
Delimit Scope crypto_scope with crypto.
Notation "'let!' x ':=' m 'in' k" := (bind m (fun x => k))
  (at level 10, x pattern, m at level 100, k at level 200) : crypto_scope.
Notation "m ';!' k" := (bind m (fun _ => k)) (at level 100, k at level 200, right associativity) : crypto_scope.
Open Scope crypto_scope.

Section Operations.
Context `{Cryptsetup, Codecs} (env : Env).

(** ** Services *)

Definition meta_get : M bytes :=
  let! w := get_world in
  let! raw := lift (map_err CE_Io (env_meta_get env (w_blob w))) in
  if MAX_META_BLOB_BYTES <? Z.of_nat (length raw) then fail (CE_Io "meta blob too large"%string)
  else ret raw.

Definition meta_put (data : bytes) : M unit :=
  match env_meta_put env data with
  | Put_Ok => update (fun w => set_blob w data)
  | Put_Lost => fail CE_MetaRejected
  | Put_Unacked => update (fun w => set_blob w data);! fail CE_MetaRejected
  end.

Definition write_keyfile (fate : WriteFate) (set : option bytes -> CryptoWorld -> CryptoWorld)
    (contents : bytes) : M unit :=
  match fate with
  | Write_Ok => update (set (Some contents))
  | Write_NoFile => fail (CE_Io "open"%string)
  | Write_Cut n => update (set (Some (take n contents)));! fail (CE_Io "write"%string)
  end.

Definition write_current := write_keyfile (env_write_current env) (fun f w => set_current_file w f).
Definition write_new := write_keyfile (env_write_new env) (fun f w => set_new_file w f).
Definition write_key := write_keyfile (env_write_key env) (fun f w => set_key_file w f).

Definition read_rollback_stash : M (option UpgradeRollbackStash) :=
  if env_stash_readable env then let! w := get_world in ret (w_stash w)
  else fail (CE_Io "stash"%string).

Definition write_rollback_stash (s : UpgradeRollbackStash) : M unit :=
  if env_stash_writable env then update (fun w => set_stash w (Some s))
  else fail (CE_Io "stash"%string).

Definition remove_rollback_stash : M unit :=
  if env_stash_removable env then update (fun w => set_stash w None)
  else fail (CE_Io "stash"%string).

(** ** Key verification *)

Definition verify_key_policy_for (key_id : str) (expected : Pcrs) : M unit :=
  let! origin := lift (map_err CE_Kms (env_origin env key_id)) in
  if negb (bool_decide (origin = lit "AWS_KMS")) then fail (CE_Origin origin)
  else
    let! policy := lift (map_err CE_Kms (env_policy env key_id)) in
    lift (map_err CE_Policy (verify_decrypt_policy hex_of json_from_str policy expected)).

Definition verify_key_policy (key_id : str) : M unit :=
  let! own := lift (map_err CE_Kms (env_own_pcrs env)) in
  verify_key_policy_for key_id own.

Definition kms_decrypt (key_id : str) (ct : bytes) : M bytes :=
  lift (map_err CE_Kms (env_decrypt env key_id ct)).

(** The blob a raw value decodes to, of the supported version. *)
Definition read_blob (raw : bytes) : M KeyBlob :=
  let! blob := lift (map_err CE_BlobDecode (blob_from_slice raw)) in
  if negb (kb_version blob =? BLOB_VERSION) then fail (CE_BlobVersion (kb_version blob))
  else ret blob.

Definition decode_b64 (s : str) : M bytes := lift (ok_or (b64_decode s) CE_Base64).

Definition check_passphrase (p : bytes) : M unit :=
  if negb (length p =? PASSPHRASE_BYTES)%nat then fail (CE_PassphraseLength (length p)) else ret tt.

(** ** [init] *)

(** First boot seals the fresh passphrase; later boots recover it. *)
Definition init_passphrase (blob : KeyBlob) (fresh_passphrase : bytes) : M (bytes * KeyBlob) :=
  match kb_ciphertext blob with
  | None =>
      let! pubkey_der := lift (map_err CE_Kms (env_public_key env (kb_kms_key_id blob))) in
      let! ct := lift (map_err CE_Encrypt (rsa_oaep_encrypt pubkey_der fresh_passphrase)) in
      let blob := mkKeyBlob (kb_version blob) (kb_kms_key_id blob) (Some (b64_encode ct))
                    (kb_prev_key_id blob) in
      meta_put (blob_to_vec blob);! ret (fresh_passphrase, blob)
  | Some ct =>
      let! ct := decode_b64 ct in
      let! plaintext := kms_decrypt (kb_kms_key_id blob) ct in
      check_passphrase plaintext;! ret (plaintext, blob)
  end.

Definition init (fresh_passphrase : bytes) : M unit :=
  let! raw := meta_get in
  if bool_decide (raw = []) then fail CE_BlobMissing
  else
    let! blob := read_blob raw in
    verify_key_policy (kb_kms_key_id blob);!
    let! (passphrase, blob) := init_passphrase blob fresh_passphrase in
    write_key passphrase;!
    match kb_prev_key_id blob with
    | None => ret tt
    | Some prev =>
        match env_schedule_deletion env prev with
        | Ok _ =>
            update (fun w => add_scheduled w prev);!
            meta_put (blob_to_vec (mkKeyBlob (kb_version blob) (kb_kms_key_id blob)
                                     (kb_ciphertext blob) None))
        | Err _ => ret tt
        end
    end.

(** ** [prepare_upgrade] *)

Definition parse_pcr (index : Z) (h : str) : result bytes CryptoError :=
  let? b := ok_or (bytes_of_hex (trim h)) (CE_BadPcr index) in
  if negb (length b =? 48)%nat then Err (CE_PcrLength index (length b)) else Ok b.

Definition parse_pcrs (h0 h1 h2 : str) : result Pcrs CryptoError :=
  let? p0 := parse_pcr 0 h0 in
  let? p1 := parse_pcr 1 h1 in
  let? p2 := parse_pcr 2 h2 in
  Ok (mkPcrs p0 p1 p2).

Definition run_test (slot : option Z) (p : bytes) : M bool :=
  let! w := get_world in
  match luks_test (w_volume w) slot p with
  | Spawn_Failed => fail (CE_Command "luksOpen --test-passphrase"%string)
  | Exit_Success => ret true
  | Exit_Failure => ret false
  end.

(** Runs a command that may change the volume. *)
Definition run_volume (cmd : Volume -> Exit * Volume) : M Exit := fun w =>
  let (e, v) := cmd (w_volume w) in (Ok e, set_volume w v).

Definition first_free_keyslot : M Z :=
  let! w := get_world in
  match luks_dump (w_volume w) with
  | (Exit_Success, text) =>
      match parse_occupied_keyslots text with
      | None => fail CE_NotLuks2
      | Some [] => fail CE_NoKeyslots
      | Some occupied => ret (first_free_from_occupied occupied)
      end
  | _ => fail (CE_Command "luksDump"%string)
  end.

(** Steps 4b to 5b: stash, add the key to the recorded slot, verify it. *)
Definition stage_keyslot (raw current new : bytes) : M Z :=
  let! slot := first_free_keyslot in
  write_rollback_stash (mkStash (utf8_lossy raw) slot);!
  let! status := run_volume (fun v => luks_add_key v current slot new) in
  match status with
  | Spawn_Failed => fail (CE_Command "luksAddKey"%string)
  | Exit_Failure => ignore remove_rollback_stash;! fail (CE_Command "luksAddKey"%string)
  | Exit_Success =>
      let! verified := run_test (Some slot) new in
      if verified then ret slot
      else
        ignore (run_volume (fun v => luks_kill_slot v current slot));!
        ignore remove_rollback_stash;!
        fail (CE_SlotNotVerified slot)
  end.

Definition drop_key_files (w : CryptoWorld) : CryptoWorld :=
  set_new_file (set_current_file w None) None.

Definition prepare_upgrade (new_pubkey_b64 new_key_id h0 h1 h2 : str) (new_passphrase : bytes)
    : M unit :=
  if bool_decide (new_key_id = []) then fail CE_EmptyKeyId
  else
    let! expected_pcrs := lift (parse_pcrs h0 h1 h2) in
    let! stash := read_rollback_stash in
    if bool_decide (is_Some stash) then fail CE_StashExists
    else
      let! raw := meta_get in
      if bool_decide (raw = []) then fail CE_BlobMissing
      else
        let! blob := read_blob raw in
        if bool_decide (new_key_id = kb_kms_key_id blob) then fail CE_SameKeyId
        else
          let! current_ct_b64 := lift (ok_or (kb_ciphertext blob) CE_NoCiphertext) in
          let! new_pubkey_der := decode_b64 new_pubkey_b64 in
          verify_key_policy_for new_key_id expected_pcrs;!
          let! kms_pubkey_der := lift (map_err CE_Kms (env_public_key env new_key_id)) in
          if negb (bool_decide (kms_pubkey_der = new_pubkey_der)) then fail CE_PublicKeyMismatch
          else
            let! current_ct := decode_b64 current_ct_b64 in
            let! current_passphrase := kms_decrypt (kb_kms_key_id blob) current_ct in
            check_passphrase current_passphrase;!
            let! new_ct := lift (map_err CE_Encrypt (rsa_oaep_encrypt new_pubkey_der new_passphrase)) in
            write_current current_passphrase;!
            write_new new_passphrase;!
            finally
              (let! _ := stage_keyslot raw current_passphrase new_passphrase in
               meta_put (blob_to_vec (mkKeyBlob (kb_version blob) new_key_id
                           (Some (b64_encode new_ct)) (Some (kb_kms_key_id blob)))))
              drop_key_files.

(** ** [revoke_upgrade] *)

(** The part that runs with the passphrase staged in its key file. *)
Definition revoke_staged (stash : UpgradeRollbackStash) (passphrase : bytes) : M unit :=
  let slot := st_new_keyslot stash in
  let! live := run_test (Some slot) passphrase in
  if live then fail (CE_SlotIsLive slot)
  else
    let! status := run_volume (fun v => luks_kill_slot v passphrase slot) in
    match status with
    | Exit_Success =>
        let! still_opens := run_test None passphrase in
        if negb still_opens then fail (CE_VolumeNoLongerOpens slot)
        else meta_put (st_pre_prepare_blob stash);! remove_rollback_stash
    | _ => fail (CE_Command "luksKillSlot"%string)
    end.

Definition revoke_upgrade : M unit :=
  let! stash := read_rollback_stash in
  match stash with
  | None => fail CE_NoStash
  | Some stash =>
      let! pre_blob := lift (map_err CE_BlobDecode (blob_from_slice (st_pre_prepare_blob stash))) in
      let! ct_b64 := lift (ok_or (kb_ciphertext pre_blob) CE_NoCiphertext) in
      let! ct := decode_b64 ct_b64 in
      let! passphrase := kms_decrypt (kb_kms_key_id pre_blob) ct in
      write_current passphrase;!
      finally (revoke_staged stash passphrase) (fun w => set_current_file w None)
  end.
End Operations.
