(* ===== verification/CryptoProofs.v ===== *)
(** What the key tool guarantees ([Crypto]): staging an upgrade only adds a
    keyslot, under a key that KMS gates to the next version, and can be undone;
    undoing never removes the running version's slot; the next version's boot
    recovers the staged passphrase. *)
From stdpp Require Import base gmap list strings.
From S2P Require Import Prelude Text Identity KmsPolicy Crypto.
#[local] Open Scope Z_scope.
#[local] Open Scope crypto_scope.

Create HintDb crypto_db.

(** ** Free slots *)

Lemma first_free_loop_spec fuel n occupied :
  let m := first_free_loop fuel n occupied in
  n <= m <= n + Z.of_nat fuel /\ (forall k, n <= k < m -> k ∈ occupied) /\
  (m < n + Z.of_nat fuel -> m ∉ occupied).
Proof.
  revert n. induction fuel as [|fuel IH]; intros n; simpl.
  { split_and!; [lia|lia|intros; lia|lia]. }
  case_bool_decide as Hn.
  - specialize (IH (n + 1)) as (H1 & H2 & H3). split_and!; [lia|lia| |].
    + intros k Hk. destruct (decide (k = n)) as [->|]; [done|apply H2; lia].
    + intros Hlt. apply H3. lia.
  - split_and!; [lia|lia|intros; lia|done].
Qed.

(** The integers of an interval that are all in a list are no more than it. *)
Lemma interval_in_list (l : list Z) n m :
  n <= m -> (forall k, n <= k < m -> k ∈ l) -> m - n <= Z.of_nat (length l).
Proof.
  intros Hnm Hin. pose proof (NoDup_seqZ n (m - n)) as Hnd.
  assert (Hsub : seqZ n (m - n) ⊆ l).
  { intros k Hk%elem_of_seqZ. apply Hin. lia. }
  pose proof (submseteq_length _ _ (NoDup_submseteq _ _ Hnd Hsub)) as Hl.
  rewrite length_seqZ in Hl. lia.
Qed.

(** The least free slot. *)
Lemma first_free_spec occupied :
  let n := first_free_from_occupied occupied in
  0 <= n <= Z.of_nat (length occupied) /\ (n ∉ occupied) /\ (forall k, 0 <= k < n -> k ∈ occupied).
Proof.
  unfold first_free_from_occupied.
  destruct (first_free_loop_spec (S (length occupied)) 0 occupied) as (Hr & Hb & Hf).
  set (m := first_free_loop _ _ _) in *. simpl.
  pose proof (interval_in_list occupied 0 m ltac:(lia) Hb).
  split_and!; [lia|lia| |done]. apply Hf. lia.
Qed.

(** ** The monad *)

Section Monad.
Context `{Cryptsetup}.

Lemma bind_inv {A B} (m : M A) (k : A -> M B) w r w' :
  bind m k w = (r, w') ->
  (exists a w1, m w = (Ok a, w1) /\ k a w1 = (r, w')) \/
  (exists e, m w = (Err e, w') /\ r = Err e).
Proof.
  unfold bind. destruct (m w) as [[a|e] w1]; intros Hb; [left; eauto|right; simplify_eq; eauto].
Qed.

Lemma bind_Ok {A B} (m : M A) (k : A -> M B) w b w' :
  bind m k w = (Ok b, w') -> exists a w1, m w = (Ok a, w1) /\ k a w1 = (Ok b, w').
Proof. intros [?|(e & _ & ?)]%bind_inv; [done|done]. Qed.

(** A relation between the worlds before and after, whatever the outcome. *)
Definition keeps (R : CryptoWorld -> CryptoWorld -> Prop) {A} (m : M A) : Prop :=
  forall w, R w (m w).2.

Context (R : CryptoWorld -> CryptoWorld -> Prop) `{!PreOrder R}.

Lemma keeps_bind {A B} (m : M A) (k : A -> M B) :
  keeps R m -> (forall a, keeps R (k a)) -> keeps R (bind m k).
Proof.
  intros Hm Hk w. unfold bind. specialize (Hm w). destruct (m w) as [[a|e] w1]; simpl in *; [|done].
  etrans; [exact Hm|apply Hk].
Qed.

Lemma keeps_lift {A} (r : result A CryptoError) : keeps R (lift r).
Proof. intros w. simpl. reflexivity. Qed.

Lemma keeps_fail {A} e : keeps R (A := A) (fail e).
Proof. intros w. simpl. reflexivity. Qed.

Lemma keeps_ret {A} (a : A) : keeps R (ret a).
Proof. intros w. simpl. reflexivity. Qed.

Lemma keeps_get : keeps R get_world.
Proof. intros w. simpl. reflexivity. Qed.
End Monad.

#[export] Hint Resolve keeps_lift keeps_fail keeps_ret keeps_get : crypto_db.

(** Inverts the successful run of a sequence of steps. *)
Ltac run_inv H :=
  repeat match type of H with
  | bind _ _ _ = (Ok _, _) =>
      let a := fresh "a" in let w := fresh "w" in let E := fresh "E" in
      apply bind_Ok in H as (a & w & E & H)
  | (if ?b then _ else _) _ = _ => destruct b eqn:?; try discriminate H
  | fail _ _ = (Ok _, _) => discriminate H
  end.

Section Specs.
Context `{Cryptsetup, !CryptsetupLaws, Codecs} (env : Env).

Abbreviation slots := (fun w => keyslots (w_volume w)).

(** ** Staging a keyslot *)

Lemma first_free_keyslot_Ok w slot w' :
  first_free_keyslot w = (Ok slot, w') -> w' = w /\ slots w !! slot = None.
Proof.
  unfold first_free_keyslot, bind, get_world.
  destruct (luks_dump (w_volume w)) as [[] text] eqn:Ed; try done.
  destruct (luks_dump_law _ _ Ed) as (occ & Ho & Hocc). rewrite Ho.
  destruct occ as [|n occ]; [done|]. unfold ret. intros [= <- <-]. split; [done|].
  destruct (first_free_spec (n :: occ)) as (_ & Hnot & _).
  apply eq_None_not_Some. rewrite <-Hocc. exact Hnot.
Qed.

Lemma run_test_Ok slot p w b w' :
  run_test slot p w = (Ok b, w') ->
  w' = w /\ (b = true -> luks_test (w_volume w) slot p = Exit_Success).
Proof.
  unfold run_test, bind, get_world, ret, fail.
  destruct (luks_test (w_volume w) slot p); intros; by simplify_eq.
Qed.

(** A staged keyslot: the volume gained the new passphrase in a free slot, the
    stash records the slot and the blob of before. *)
Definition staged (raw new : bytes) (slot : Z) (w w' : CryptoWorld) : Prop :=
  slots w !! slot = None /\ slots w' = <[slot := new]> (slots w) /\
  w' = set_stash (set_volume w (w_volume w')) (Some (mkStash (utf8_lossy raw) slot)).

Lemma stage_keyslot_Ok raw cur new w slot w' :
  stage_keyslot env raw cur new w = (Ok slot, w') ->
  staged raw new slot w w' /\ opens (w_volume w) cur.
Proof.
  unfold stage_keyslot. intros Hs. apply bind_Ok in Hs as (s & w1 & E1 & Hs).
  apply first_free_keyslot_Ok in E1 as [-> Hfree].
  apply bind_Ok in Hs as ([] & w2 & E2 & Hs). unfold write_rollback_stash in E2.
  destruct (env_stash_writable env); [|done]. unfold update in E2. simplify_eq.
  apply bind_Ok in Hs as (status & w3 & E3 & Hs). unfold run_volume in E3. simpl in E3.
  destruct (luks_add_key _ cur s new) as [e v] eqn:Ea. simplify_eq.
  destruct status; [|by apply bind_Ok in Hs as (? & ? & _ & ?)|done].
  apply luks_add_key_law in Ea as (Hop & _ & Hk).
  apply bind_Ok in Hs as (b & w4 & E4 & Hs). apply run_test_Ok in E4 as [-> _].
  destruct b; [|by apply bind_Ok in Hs as (? & ? & _ & (? & ? & _ & ?)%bind_Ok)].
  unfold ret in Hs. simplify_eq. unfold staged. simpl. done.
Qed.

(** Whatever happens, staging keeps the existing keyslots, the blob and the
    files. *)
Definition same_but_staging (w w' : CryptoWorld) : Prop :=
  slots w ⊆ slots w' /\ w_blob w' = w_blob w /\ w_current_file w' = w_current_file w /\
  w_new_file w' = w_new_file w /\ w_key_file w' = w_key_file w /\ w_scheduled w' = w_scheduled w.

#[local] Instance same_but_staging_preorder : PreOrder same_but_staging.
Proof.
  split.
  - intros w. by split_and!.
  - intros w1 w2 w3 (? & ? & ? & ? & ? & ?) (? & ? & ? & ? & ? & ?). split_and!; try congruence.
    by etrans.
Qed.

Lemma same_but_stash w s : same_but_staging w (set_stash w s).
Proof. by split_and!. Qed.

Lemma remove_stash_keeps : keeps same_but_staging (remove_rollback_stash env).
Proof.
  intros w. unfold remove_rollback_stash. destruct (env_stash_removable env); simpl; [|done].
  apply same_but_stash.
Qed.

Lemma stage_keyslot_keeps raw cur new : keeps same_but_staging (stage_keyslot env raw cur new).
Proof.
  intros w. unfold stage_keyslot, bind at 1.
  destruct (first_free_keyslot w) as [[slot|e] w1] eqn:E1.
  2: { simpl. revert E1. unfold first_free_keyslot, bind, get_world, ret, fail.
       repeat case_match; intros; by simplify_eq. }
  apply first_free_keyslot_Ok in E1 as [-> Hfree]. unfold bind at 1, write_rollback_stash.
  destruct (env_stash_writable env); simpl; [|done].
  set (w1 := set_stash w _). assert (Hw1 : same_but_staging w w1) by apply same_but_stash.
  unfold bind at 1, run_volume. simpl.
  destruct (luks_add_key _ cur slot new) as [e v] eqn:Ea.
  assert (Hignore : forall e' (A : Type) w', same_but_staging w w' ->
    same_but_staging w (bind (ignore (remove_rollback_stash env)) (fun _ => fail (A := A) e') w').2).
  { intros e' A w' Hw'. unfold bind, ignore. simpl. etrans; [exact Hw'|apply remove_stash_keeps]. }
  assert (Hadd : same_but_staging w (set_volume w1 v) /\
    (e = Exit_Success -> keyslots v = <[slot := new]> (slots w))).
  { destruct (decide (e = Exit_Success)) as [->|Hne].
    - apply luks_add_key_law in Ea as (_ & _ & Hk). split; [|done]. simpl in Hk.
      split_and!; try done. simpl. rewrite Hk. by apply insert_subseteq.
    - pose proof (luks_add_key_fail _ _ _ _ _ _ Ea Hne) as Hk. simpl in Hk. split; [|done].
      split_and!; try done. simpl. by rewrite Hk. }
  destruct Hadd as [Hadd Hk]. destruct e; [|by apply (Hignore (CE_Command "luksAddKey"%string) Z)|exact Hadd].
  specialize (Hk eq_refl). unfold bind at 1.
  destruct (run_test (Some slot) new (set_volume w1 v)) as [[b|e] w2] eqn:Et.
  2: { revert Et. unfold run_test, bind, get_world, ret, fail.
       repeat case_match; intros; simplify_eq; exact Hadd. }
  apply run_test_Ok in Et as [-> _]. destruct b; [exact Hadd|].
  unfold bind at 1, ignore at 1, run_volume. simpl.
  destruct (luks_kill_slot v cur slot) as [e v'] eqn:Ek. simpl. apply (Hignore (CE_SlotNotVerified slot) Z).
  destruct (decide (e = Exit_Success)) as [->|Hne].
  - apply luks_kill_slot_law in Ek as [_ Hk']. split_and!; try done. simpl.
    rewrite Hk', Hk, delete_insert_id by done. done.
  - pose proof (luks_kill_slot_fail _ _ _ _ _ Ek Hne) as Hk'. split_and!; try done. simpl.
    rewrite Hk', Hk. by apply insert_subseteq.
Qed.

(** ** The checks of a re-key *)

(** What [prepare_upgrade] established before it touches anything: the blob it
    read, the passphrase it recovered from it, and the new key, which KMS
    generated, whose policy passed against the next version's measurements and
    whose public key is the one KMS returns. *)
Record rekey_checked (w : CryptoWorld) (new_pubkey_b64 new_key_id h0 h1 h2 : str)
    (new_passphrase : bytes) (raw : bytes) (blob : KeyBlob) (cur new_ct : bytes) : Prop := {
  rc_raw : env_meta_get env (w_blob w) = Ok raw;
  rc_blob : blob_from_slice raw = Ok blob;
  rc_version : kb_version blob = BLOB_VERSION;
  rc_stash : w_stash w = None;
  rc_key : new_key_id <> kb_kms_key_id blob;
  rc_current : exists ct_b64 ct, kb_ciphertext blob = Some ct_b64 /\ b64_decode ct_b64 = Some ct /\
    env_decrypt env (kb_kms_key_id blob) ct = Ok cur;
  rc_length : length cur = PASSPHRASE_BYTES;
  rc_origin : env_origin env new_key_id = Ok (lit "AWS_KMS");
  rc_policy : exists expected policy, parse_pcrs h0 h1 h2 = Ok expected /\
    env_policy env new_key_id = Ok policy /\
    verify_decrypt_policy hex_of json_from_str policy expected = Ok tt;
  rc_sealed : exists pub, b64_decode new_pubkey_b64 = Some pub /\
    env_public_key env new_key_id = Ok pub /\ rsa_oaep_encrypt pub new_passphrase = Ok new_ct;
}.

(** The blob that points at the new key. *)
Definition rekeyed_blob (blob : KeyBlob) (new_key_id : str) (new_ct : bytes) : KeyBlob :=
  mkKeyBlob (kb_version blob) new_key_id (Some (b64_encode new_ct)) (Some (kb_kms_key_id blob)).

(** The effects that follow the checks. *)
Definition rekey_effects (blob : KeyBlob) (raw cur new_passphrase new_ct : bytes) (new_key_id : str)
    : M unit :=
  write_current env cur;!
  write_new env new_passphrase;!
  finally
    (let! _ := stage_keyslot env raw cur new_passphrase in
     meta_put env (blob_to_vec (rekeyed_blob blob new_key_id new_ct)))
    drop_key_files.

Lemma lift_inv {A} (r : result A CryptoError) w a w' :
  lift r w = (Ok a, w') -> r = Ok a /\ w' = w.
Proof. unfold lift. intros; by simplify_eq. Qed.

Lemma bind_lift {A B} (r : result A CryptoError) (k : A -> M B) w res w' :
  bind (lift r) k w = (res, w') ->
  (exists e, res = Err e /\ w' = w) \/ (exists a, r = Ok a /\ k a w = (res, w')).
Proof. unfold bind, lift. destruct r; intros; simplify_eq; eauto. Qed.

Lemma bind_pure {A B} (m : M A) (k : A -> M B) w res w' :
  (m w).2 = w -> bind m k w = (res, w') ->
  (exists e, res = Err e /\ w' = w) \/ (exists a, m w = (Ok a, w) /\ k a w = (res, w')).
Proof. unfold bind. destruct (m w) as [[a|e] w1]; simpl; intros; simplify_eq; eauto. Qed.

Lemma meta_get_pure w : (meta_get env w).2 = w.
Proof. unfold meta_get, bind, get_world, lift, ret, fail. repeat case_match; by simplify_eq. Qed.

Lemma meta_get_Ok w raw w' : meta_get env w = (Ok raw, w') -> env_meta_get env (w_blob w) = Ok raw.
Proof.
  unfold meta_get, bind, get_world, lift, ret, fail.
  destruct (env_meta_get env (w_blob w)); simpl; [|done]. case_match; intros; by simplify_eq.
Qed.

Lemma read_stash_pure w : (read_rollback_stash env w).2 = w.
Proof. unfold read_rollback_stash. by destruct (env_stash_readable env). Qed.

Lemma read_stash_Ok w s w' : read_rollback_stash env w = (Ok s, w') -> s = w_stash w.
Proof.
  unfold read_rollback_stash, bind, get_world, ret.
  destruct (env_stash_readable env); intros; by simplify_eq.
Qed.

Lemma read_blob_pure raw w : (read_blob raw w).2 = w.
Proof. unfold read_blob, bind, lift, ret, fail. repeat case_match; by simplify_eq. Qed.

Lemma read_blob_Ok raw w b w' :
  read_blob raw w = (Ok b, w') -> blob_from_slice raw = Ok b /\ kb_version b = BLOB_VERSION.
Proof.
  unfold read_blob, bind, lift, ret, fail. destruct (blob_from_slice raw) as [b0|]; simpl; [|done].
  destruct (kb_version b0 =? BLOB_VERSION) eqn:E; simpl; [|done]. intros; simplify_eq. split; [done|lia].
Qed.

Lemma verify_policy_pure key expected w : (verify_key_policy_for env key expected w).2 = w.
Proof. unfold verify_key_policy_for, bind, lift, fail. repeat case_match; by simplify_eq. Qed.

Lemma verify_policy_Ok key expected w w' :
  verify_key_policy_for env key expected w = (Ok tt, w') ->
  env_origin env key = Ok (lit "AWS_KMS") /\
  exists policy, env_policy env key = Ok policy /\
    verify_decrypt_policy hex_of json_from_str policy expected = Ok tt.
Proof.
  unfold verify_key_policy_for, bind, lift, fail.
  destruct (env_origin env key) as [o|]; simpl; [|done].
  case_bool_decide as Ho; simpl; [|done]. subst o.
  destruct (env_policy env key) as [p|]; simpl; [|done].
  destruct (verify_decrypt_policy _ _ p expected) as [[]|] eqn:Ev; simpl; [|done].
  intros _. split; [done|]. by exists p.
Qed.

Lemma check_passphrase_pure p w : (check_passphrase p w).2 = w.
Proof. unfold check_passphrase. by case_match. Qed.

Lemma check_passphrase_Ok p w w' : check_passphrase p w = (Ok tt, w') -> length p = PASSPHRASE_BYTES.
Proof.
  unfold check_passphrase. destruct (length p =? PASSPHRASE_BYTES)%nat eqn:E; simpl; [|done].
  by apply Nat.eqb_eq in E.
Qed.

(** Either a check failed and nothing happened, or they all passed and the
    effects ran. *)
Lemma prepare_upgrade_cases new_pubkey_b64 new_key_id h0 h1 h2 new_passphrase w r w' :
  prepare_upgrade env new_pubkey_b64 new_key_id h0 h1 h2 new_passphrase w = (r, w') ->
  (exists e, r = Err e /\ w' = w) \/
  exists raw blob cur new_ct,
    rekey_checked w new_pubkey_b64 new_key_id h0 h1 h2 new_passphrase raw blob cur new_ct /\
    rekey_effects blob raw cur new_passphrase new_ct new_key_id w = (r, w').
Proof.
  unfold prepare_upgrade. intros Hp. case_bool_decide; [left; unfold fail in Hp; simplify_eq; eauto|].
  apply bind_lift in Hp as [?|(expected & Hexp & Hp)]; [by left|].
  apply (bind_pure _ _ _ _ _ (read_stash_pure w)) in Hp as [?|(st & Hst & Hp)]; [by left|].
  apply read_stash_Ok in Hst as ->.
  case_bool_decide as Hs; [left; unfold fail in Hp; simplify_eq; eauto|].
  apply (bind_pure _ _ _ _ _ (meta_get_pure w)) in Hp as [?|(raw & Hraw & Hp)]; [by left|].
  apply meta_get_Ok in Hraw.
  case_bool_decide; [left; unfold fail in Hp; simplify_eq; eauto|].
  apply (bind_pure _ _ _ _ _ (read_blob_pure raw w)) in Hp as [?|(blob & Hblob & Hp)]; [by left|].
  apply read_blob_Ok in Hblob as [Hblob Hver].
  case_bool_decide as Hkey; [left; unfold fail in Hp; simplify_eq; eauto|].
  apply bind_lift in Hp as [?|(ct_b64 & Hct%ok_or_Ok & Hp)]; [by left|].
  apply bind_lift in Hp as [?|(pub & Hpub%ok_or_Ok & Hp)]; [by left|].
  apply (bind_pure _ _ _ _ _ (verify_policy_pure _ _ w)) in Hp as [?|([] & Hpol & Hp)]; [by left|].
  apply verify_policy_Ok in Hpol as (Ho & policy & Hpol & Hv).
  apply bind_lift in Hp as [?|(kpub & Hkpub%map_err_Ok & Hp)]; [by left|].
  case_bool_decide as Heq; simpl in Hp; [|left; unfold fail in Hp; simplify_eq; eauto]. subst kpub.
  apply bind_lift in Hp as [?|(ct & Hdec%ok_or_Ok & Hp)]; [by left|].
  apply bind_lift in Hp as [?|(cur & Hcur%map_err_Ok & Hp)]; [by left|].
  apply (bind_pure _ _ _ _ _ (check_passphrase_pure cur w)) in Hp as [?|([] & Hlen & Hp)]; [by left|].
  apply check_passphrase_Ok in Hlen.
  apply bind_lift in Hp as [?|(new_ct & Henc%map_err_Ok & Hp)]; [by left|].
  right. exists raw, blob, cur, new_ct. split; [|exact Hp].
  split; eauto 10. by apply eq_None_not_Some.
Qed.


(** ** The effects of a re-key *)

Lemma meta_put_world data w :
  (meta_put env data w).2 = w \/ (meta_put env data w).2 = set_blob w data.
Proof. unfold meta_put, bind, update, fail. destruct (env_meta_put env data); simpl; auto. Qed.

Lemma meta_put_Ok data w w' : meta_put env data w = (Ok tt, w') -> w' = set_blob w data.
Proof.
  unfold meta_put, bind, update, fail. destruct (env_meta_put env data); intros; by simplify_eq.
Qed.

(** The slots and the blob after any run of the effects. *)
Lemma rekey_effects_any blob raw cur new new_ct key w r w' :
  rekey_effects blob raw cur new new_ct key w = (r, w') ->
  slots w ⊆ slots w' /\
  (w_blob w' = w_blob w \/ w_blob w' = blob_to_vec (rekeyed_blob blob key new_ct)).
Proof.
  unfold rekey_effects. unfold bind at 1.
  destruct (write_current env cur w) as [r1 w1] eqn:E1.
  assert (Hw1 : slots w1 = slots w /\ w_blob w1 = w_blob w).
  { revert E1. unfold write_current, write_keyfile, bind, update, fail.
    destruct (env_write_current env); intros; by simplify_eq. }
  destruct Hw1 as [Hs1 Hb1].
  destruct r1 as [[]|]; [|intros; simplify_eq; rewrite Hs1; auto]. unfold bind at 1.
  destruct (write_new env new w1) as [r2 w2] eqn:E2.
  assert (Hw2 : slots w2 = slots w /\ w_blob w2 = w_blob w).
  { revert E2. unfold write_new, write_keyfile, bind, update, fail. rewrite <-Hs1, <-Hb1.
    destruct (env_write_new env); intros; by simplify_eq. }
  destruct Hw2 as [Hs2 Hb2].
  destruct r2 as [[]|]; [|intros; simplify_eq; rewrite Hs2; auto].
  unfold finally, bind. destruct (stage_keyslot env raw cur new w2) as [r3 w3] eqn:E3.
  pose proof (stage_keyslot_keeps raw cur new w2) as (Hs3 & Hb3 & _). rewrite E3 in Hs3, Hb3.
  simpl in Hs3, Hb3. rewrite Hs2 in Hs3. rewrite Hb2 in Hb3.
  destruct r3 as [slot|]; [|intros; simplify_eq; simpl; auto].
  destruct (meta_put env _ w3) as [r4 w4] eqn:E4.
  destruct (meta_put_world (blob_to_vec (rekeyed_blob blob key new_ct)) w3) as [Hw|Hw];
    rewrite E4 in Hw; simpl in Hw; subst w4; intros; simplify_eq; simpl; auto.
Qed.

Lemma write_keyfile_Ok fate set contents w w' :
  write_keyfile fate set contents w = (Ok tt, w') -> w' = set (Some contents) w.
Proof. unfold write_keyfile, bind, update, fail. destruct fate; intros; by simplify_eq. Qed.

Lemma rekey_effects_Ok blob raw cur new new_ct key w w' :
  rekey_effects blob raw cur new new_ct key w = (Ok tt, w') ->
  exists slot, slots w !! slot = None /\ opens (w_volume w) cur /\
    slots w' = <[slot := new]> (slots w) /\
    w_blob w' = blob_to_vec (rekeyed_blob blob key new_ct) /\
    w_stash w' = Some (mkStash (utf8_lossy raw) slot) /\
    w_current_file w' = None /\ w_new_file w' = None /\
    w_key_file w' = w_key_file w /\ w_scheduled w' = w_scheduled w.
Proof.
  unfold rekey_effects. intros He.
  apply bind_Ok in He as ([] & w1 & E1 & He). apply write_keyfile_Ok in E1 as ->.
  apply bind_Ok in He as ([] & w2 & E2 & He). apply write_keyfile_Ok in E2 as ->.
  unfold finally in He. destruct (bind _ _ _) as [r w3] eqn:E3. simplify_eq.
  apply bind_Ok in E3 as (slot & w4 & Es & Ep).
  apply stage_keyslot_Ok in Es as [(Hfree & Hk & Hw) Hop]. apply meta_put_Ok in Ep as ->.
  exists slot. simpl in *. rewrite Hw. simpl. rewrite Hk. split_and!; done.
Qed.

(** ** Staging an upgrade *)

(** C21: staging an upgrade never harms the volume. Whatever fails on the way,
    every keyslot of the volume is still there with its passphrase, the blob is
    the old one or points at the new key, and nothing at all has changed unless
    the new key passed every check: generated by KMS, its public key as KMS
    returns it, its policy gated to the next version's measurements. *)
Theorem staging_never_harms_the_volume pub key h0 h1 h2 new w r w' :
  prepare_upgrade env pub key h0 h1 h2 new w = (r, w') ->
  slots w ⊆ slots w' /\
  (w' = w \/ exists raw blob cur new_ct,
     rekey_checked w pub key h0 h1 h2 new raw blob cur new_ct /\
     (w_blob w' = w_blob w \/ w_blob w' = blob_to_vec (rekeyed_blob blob key new_ct))).
Proof.
  intros [(e & -> & ->)|(raw & blob & cur & new_ct & Hc & He)]%prepare_upgrade_cases.
  - split; [done|by left].
  - apply rekey_effects_any in He as [Hs Hb]. split; [done|]. right. by exists raw, blob, cur, new_ct.
Qed.

(** A completed staging. *)
Lemma prepare_upgrade_Ok pub key h0 h1 h2 new w w' :
  prepare_upgrade env pub key h0 h1 h2 new w = (Ok tt, w') ->
  exists raw blob cur new_ct slot,
    rekey_checked w pub key h0 h1 h2 new raw blob cur new_ct /\
    slots w !! slot = None /\ opens (w_volume w) cur /\
    slots w' = <[slot := new]> (slots w) /\
    w_blob w' = blob_to_vec (rekeyed_blob blob key new_ct) /\
    w_stash w' = Some (mkStash (utf8_lossy raw) slot) /\
    w_current_file w' = None /\ w_new_file w' = None /\
    w_key_file w' = w_key_file w /\ w_scheduled w' = w_scheduled w.
Proof.
  intros [(e & ? & _)|(raw & blob & cur & new_ct & Hc & He)]%prepare_upgrade_cases; [done|].
  apply rekey_effects_Ok in He as (slot & He). exists raw, blob, cur, new_ct, slot. done.
Qed.

(** ** Undoing a staging *)

(** What a revocation recovered before it touches the volume: the passphrase of
    before the staging. *)
Definition recovered (st : UpgradeRollbackStash) (p : bytes) : Prop :=
  exists blob ct_b64 ct, blob_from_slice (st_pre_prepare_blob st) = Ok blob /\
    kb_ciphertext blob = Some ct_b64 /\ b64_decode ct_b64 = Some ct /\
    env_decrypt env (kb_kms_key_id blob) ct = Ok p.

Lemma revoke_upgrade_cases w r w' :
  revoke_upgrade env w = (r, w') ->
  (exists e, r = Err e /\ slots w' = slots w /\ w_blob w' = w_blob w /\ w_stash w' = w_stash w) \/
  exists st p, w_stash w = Some st /\ recovered st p /\
    finally (revoke_staged env st p) (fun w => set_current_file w None)
      (set_current_file w (Some p)) = (r, w').
Proof.
  unfold revoke_upgrade. intros Hr.
  apply (bind_pure _ _ _ _ _ (read_stash_pure w)) in Hr as [(e & -> & ->)|(st & Hst & Hr)];
    [left; by eexists|].
  apply read_stash_Ok in Hst as ->. destruct (w_stash w) as [st|] eqn:Hst.
  2: { unfold fail in Hr. simplify_eq. left. by eexists. }
  apply bind_lift in Hr as [(e & -> & ->)|(blob & Hb%map_err_Ok & Hr)]; [left; by eexists|].
  apply bind_lift in Hr as [(e & -> & ->)|(ct64 & Hc%ok_or_Ok & Hr)]; [left; by eexists|].
  apply bind_lift in Hr as [(e & -> & ->)|(ct & Hd%ok_or_Ok & Hr)]; [left; by eexists|].
  apply bind_lift in Hr as [(e & -> & ->)|(p & Hp%map_err_Ok & Hr)]; [left; by eexists|].
  unfold bind, write_current, write_keyfile, update, fail in Hr.
  destruct (env_write_current env); [|left; injection Hr as <- <-; eexists; by split_and!..].
  right. exists st, p. split_and!; [done|by exists blob, ct64, ct|exact Hr].
Qed.

Lemma run_test_pure slot p w : (run_test slot p w).2 = w.
Proof. unfold run_test, bind, get_world, ret, fail. by case_match. Qed.

(** What the part that touches the volume can do. *)
Lemma revoke_staged_any st p w r w' :
  revoke_staged env st p w = (r, w') ->
  (slots w' = slots w /\ w_blob w' = w_blob w) \/
  ((exists other, other <> st_new_keyslot st /\ slots w !! other = Some p) /\
   slots w' = delete (st_new_keyslot st) (slots w) /\
   (w_blob w' = w_blob w \/ w_blob w' = st_pre_prepare_blob st)).
Proof.
  unfold revoke_staged. intros Hr.
  apply (bind_pure _ _ _ _ _ (run_test_pure _ p w)) in Hr as [(e & -> & ->)|(b & _ & Hr)]; [by left|].
  destruct b; [unfold fail in Hr; simplify_eq; by left|].
  unfold bind at 1, run_volume in Hr.
  destruct (luks_kill_slot (w_volume w) p (st_new_keyslot st)) as [e v] eqn:Ek.
  destruct (decide (e = Exit_Success)) as [->|Hne].
  - apply luks_kill_slot_law in Ek as [Hother Hk]. right. split; [done|].
    set (w1 := set_volume w v) in Hr. change (keyslots v) with (slots w1) in Hk.
    assert (Hb1 : w_blob w1 = w_blob w) by done.
    apply (bind_pure _ _ _ _ _ (run_test_pure _ p w1)) in Hr as [(e & -> & ->)|(b & _ & Hr)]; [auto|].
    destruct b; simpl in Hr; [|unfold fail in Hr; simplify_eq; auto].
    destruct (meta_put_world (st_pre_prepare_blob st) w1) as [Hw|Hw];
      revert Hr; unfold bind; destruct (meta_put env _ w1) as [[[]|] w2]; simpl in Hw; subst w2;
      unfold remove_rollback_stash; destruct (env_stash_removable env);
      unfold update, fail; intros; simplify_eq; simpl; auto.
  - pose proof (luks_kill_slot_fail _ _ _ _ _ Ek Hne) as Hk. left.
    destruct e; [done|..]; unfold fail in Hr; simplify_eq; simpl; by rewrite Hk.
Qed.

(** A revocation never locks the running version out. Whatever fails on
    the way, the only keyslot it may remove is the staged one, and only when the
    passphrase of before the upgrade still opens another slot; the blob is
    replaced, by the one of before the upgrade, only after that. *)
Theorem revoke_keeps_the_running_slot w r w' :
  revoke_upgrade env w = (r, w') ->
  (slots w' = slots w /\ w_blob w' = w_blob w) \/
  exists st p other, w_stash w = Some st /\ recovered st p /\
    slots w' = delete (st_new_keyslot st) (slots w) /\ slots w' !! other = Some p /\
    (w_blob w' = w_blob w \/ w_blob w' = st_pre_prepare_blob st).
Proof.
  intros [(e & -> & Hs & Hb & _)|(st & p & Hst & Hrec & Hf)]%revoke_upgrade_cases; [by left|].
  unfold finally in Hf. destruct (revoke_staged env st p _) as [r0 w0] eqn:E0. simplify_eq. simpl.
  apply revoke_staged_any in E0 as [[Hs Hb]|((other & Hne & Ho) & Hs & Hb)]; [by left|].
  right. exists st, p, other. split_and!; try done. simpl in Hs, Ho. rewrite Hs.
  by rewrite lookup_delete_ne.
Qed.

(** Once the staged slot is gone while the stash remains, as after a
    revocation whose blob write was lost, no revocation and no staging can
    finish: both fail and leave the blob pointing at the new key. *)
Theorem interrupted_revocation_is_stuck `{!CryptsetupWorks} w st :
  w_stash w = Some st -> slots w !! st_new_keyslot st = None ->
  (forall r w', revoke_upgrade env w = (r, w') ->
     (exists e, r = Err e) /\ w_blob w' = w_blob w /\ w_stash w' = w_stash w) /\
  (forall pub key h0 h1 h2 new,
     exists e, prepare_upgrade env pub key h0 h1 h2 new w = (Err e, w)).
Proof.
  intros Hst Hgone. split.
  - intros r w' [(e & -> & _ & Hb & Hs)|(st' & p & Hst' & _ & Hf)]%revoke_upgrade_cases; [eauto|].
    rewrite Hst in Hst'. simplify_eq. unfold finally in Hf.
    destruct (revoke_staged env st' p _) as [r0 w0] eqn:E0. simplify_eq. simpl.
    revert E0. unfold revoke_staged, bind at 1, run_test, bind at 1, get_world. simpl.
    rewrite luks_test_works. rewrite decide_False by congruence. unfold ret at 1, bind at 1, run_volume.
    pose proof (luks_kill_slot_inactive (w_volume w) p (st_new_keyslot st') Hgone) as Hk. simpl.
    destruct (luks_kill_slot _ p _) as [e v]. simpl in Hk. subst e. unfold fail.
    intros; simplify_eq; simpl; eauto.
  - intros. destruct (prepare_upgrade env pub key h0 h1 h2 new w) as [r w'] eqn:Hp.
    apply prepare_upgrade_cases in Hp as [(e & -> & ->)|(raw & blob & cur & ct & Hc & _)]; [eauto|].
    pose proof (rc_stash _ _ _ _ _ _ _ _ _ _ _ Hc). congruence.
Qed.
End Specs.

(** ** Composition: undo and boot *)

(** The services a revocation needs answer. *)
Record revocable (env : Env) : Prop := {
  rv_readable : env_stash_readable env = true;
  rv_removable : env_stash_removable env = true;
  rv_file : env_write_current env = Write_Ok;
  rv_put : forall data, env_meta_put env data = Put_Ok;
}.

(** What the boot of a version needs: the host returns the blob it holds, the
    version's own measurements are [pcrs], and its files and the blob can be
    written. *)
Record bootable (env : Env) (pcrs : Pcrs) (data : bytes) : Prop := {
  bt_get : env_meta_get env data = Ok data;
  bt_size : Z.of_nat (length data) <= MAX_META_BLOB_BYTES;
  bt_nonempty : data <> [];
  bt_pcrs : env_own_pcrs env = Ok pcrs;
  bt_file : env_write_key env = Write_Ok;
  bt_put : forall data, env_meta_put env data = Put_Ok;
}.

(** KMS as seen by two versions: the key has one origin and policy, and KMS
    decrypts for the second what was encrypted under the key's public key. *)
Record same_kms_key (env env' : Env) (seal : bytes -> bytes -> result bytes string) (key : str)
    : Prop := {
  sk_origin : env_origin env' key = env_origin env key;
  sk_policy : env_policy env' key = env_policy env key;
  sk_decrypt pub m ct : env_public_key env key = Ok pub -> seal pub m = Ok ct ->
    env_decrypt env' key ct = Ok m;
}.

Section Composition.
Context `{Cryptsetup, !CryptsetupLaws, !CryptsetupWorks, Codecs, !CodecLaws} (env env' : Env).

Abbreviation slots := (fun w => keyslots (w_volume w)).

Lemma bind_step {A B} (m : M A) (k : A -> M B) w a w1 :
  m w = (Ok a, w1) -> bind m k w = k a w1.
Proof. unfold bind. by intros ->. Qed.

(** The run of a revocation that meets no failure. *)
Lemma revoke_staged_runs st p w other :
  revocable env' ->
  slots w !! st_new_keyslot st <> Some p -> is_Some (slots w !! st_new_keyslot st) ->
  other <> st_new_keyslot st -> slots w !! other = Some p ->
  exists v, keyslots v = delete (st_new_keyslot st) (slots w) /\
    revoke_staged env' st p w =
      (Ok tt, set_stash (set_blob (set_volume w v) (st_pre_prepare_blob st)) None).
Proof.
  intros [_ Hrem _ Hput] Hnot Hocc Hne Ho. unfold revoke_staged, bind at 1, run_test at 1, bind at 1, get_world.
  rewrite luks_test_works, decide_False by done. unfold ret at 1, bind at 1, run_volume.
  pose proof (luks_kill_slot_works (w_volume w) p _ other Hocc Hne Ho) as Hk.
  destruct (luks_kill_slot _ p _) as [e v] eqn:Ek. simpl in Hk. subst e.
  apply luks_kill_slot_law in Ek as [_ Hv]. exists v. split; [done|].
  unfold bind at 1, run_test, bind at 1, get_world. simpl.
  rewrite luks_test_any_works; [|exists other; rewrite Hv; by rewrite lookup_delete_ne].
  unfold ret, bind, meta_put, remove_rollback_stash. simpl. rewrite Hput, Hrem. done.
Qed.

(** A staged upgrade can be undone. After a completed staging, a
    revocation by the running version succeeds and brings back the keyslots and
    the blob of before, and leaves neither the stash nor a plaintext key file. *)
Theorem staged_upgrade_can_be_undone pub key h0 h1 h2 new w w1 :
  prepare_upgrade env pub key h0 h1 h2 new w = (Ok tt, w1) ->
  env_meta_get env (w_blob w) = Ok (w_blob w) ->
  (forall k ct, env_decrypt env' k ct = env_decrypt env k ct) ->
  revocable env' -> ~ opens (w_volume w) new ->
  exists w2, revoke_upgrade env' w1 = (Ok tt, w2) /\ slots w2 = slots w /\
    w_blob w2 = w_blob w /\ w_stash w2 = None /\ w_current_file w2 = None /\ w_new_file w2 = None.
Proof.
  intros (raw & blob & cur & ct & slot & Hc & Hfree & [other Ho] & Hs & Hb & Hst & Hcf & Hnf & _)%prepare_upgrade_Ok
    Hget Hdec Hrv Hnew.
  assert (raw = w_blob w) as -> by (pose proof (rc_raw _ _ _ _ _ _ _ _ _ _ _ _ Hc); congruence).
  pose proof (rc_blob _ _ _ _ _ _ _ _ _ _ _ _ Hc) as Hblob.
  destruct (rc_current _ _ _ _ _ _ _ _ _ _ _ _ Hc) as (ct64 & ct0 & Hct & Hb64 & Hcur).
  rewrite (blob_is_utf8 _ _ Hblob) in Hst.
  assert (Hne : other <> slot) by (intros ->; congruence).
  assert (Hdiff : new <> cur) by (intros ->; apply Hnew; by exists other).
  destruct (revoke_staged_runs (mkStash (w_blob w) slot) cur (set_current_file w1 (Some cur)) other)
    as (v & Hv & Hrun); simpl; rewrite ?Hs, ?lookup_insert_eq; [done|congruence|eauto|done| |].
  { by rewrite lookup_insert_ne. }
  unfold revoke_upgrade, read_rollback_stash. rewrite (rv_readable _ Hrv).
  unfold bind at 1 2, get_world, ret at 1. rewrite Hst. simpl.
  rewrite (bind_step _ _ _ blob w1) by (unfold lift; by rewrite Hblob).
  rewrite (bind_step _ _ _ ct64 w1) by (unfold lift; by rewrite Hct).
  rewrite (bind_step _ _ _ ct0 w1) by (unfold decode_b64, lift; by rewrite Hb64).
  rewrite (bind_step _ _ _ cur w1) by (unfold kms_decrypt, lift; by rewrite Hdec, Hcur).
  rewrite (bind_step _ _ _ tt (set_current_file w1 (Some cur)))
    by (unfold write_current; by rewrite (rv_file _ Hrv)).
  unfold finally. rewrite Hrun. eexists. split; [reflexivity|]. simpl.
  split_and!; try done. rewrite Hv. simpl. rewrite Hs. by rewrite delete_insert_id.
Qed.

(** The boot of a version whose blob already holds a ciphertext. *)
Lemma init_recovers pcrs w blob ct64 ct p fresh :
  bootable env' pcrs (w_blob w) -> blob_from_slice (w_blob w) = Ok blob ->
  kb_version blob = BLOB_VERSION -> kb_ciphertext blob = Some ct64 -> b64_decode ct64 = Some ct ->
  env_decrypt env' (kb_kms_key_id blob) ct = Ok p -> length p = PASSPHRASE_BYTES ->
  (verify_key_policy_for env' (kb_kms_key_id blob) pcrs w).1 = Ok tt ->
  let w1 := set_key_file w (Some p) in
  init env' fresh w =
    match kb_prev_key_id blob with
    | None => (Ok tt, w1)
    | Some prev =>
        match env_schedule_deletion env' prev with
        | Ok _ => (Ok tt, set_blob (add_scheduled w1 prev)
                     (blob_to_vec (mkKeyBlob (kb_version blob) (kb_kms_key_id blob) (Some ct64) None)))
        | Err _ => (Ok tt, w1)
        end
    end.
Proof.
  intros [Hget Hsize Hne Hpcrs Hfile Hput] Hblob Hver Hct Hb64 Hdec Hlen Hpol. cbv zeta.
  unfold init. rewrite (bind_step _ _ _ (w_blob w) w).
  2: { unfold meta_get, bind, get_world, lift, ret. rewrite Hget. simpl.
       by rewrite (proj2 (Z.ltb_ge _ _) Hsize). }
  rewrite bool_decide_false by done.
  rewrite (bind_step _ _ _ blob w)
    by (unfold read_blob, bind, lift, ret; rewrite Hblob; simpl; by rewrite Hver).
  rewrite (bind_step _ _ _ tt w).
  2: { unfold verify_key_policy, bind, lift. rewrite Hpcrs. simpl.
       pose proof (verify_policy_pure env' (kb_kms_key_id blob) pcrs w).
       destruct (verify_key_policy_for env' _ pcrs w). simpl in *. by subst. }
  rewrite (bind_step _ _ _ (p, blob) w).
  2: { unfold init_passphrase, kms_decrypt, decode_b64, check_passphrase, bind, lift, ret.
       rewrite Hct. simpl. rewrite Hb64. simpl. rewrite Hdec. simpl. by rewrite Hlen. }
  rewrite (bind_step _ _ _ tt (set_key_file w (Some p))) by (unfold write_key; by rewrite Hfile).
  rewrite Hct. destruct (kb_prev_key_id blob) as [prev|]; [|done].
  destruct (env_schedule_deletion env' prev); [|done].
  unfold bind, update, meta_put. by rewrite Hput.
Qed.

(** C22: the next version boots. After a completed staging, the boot of the
    version whose measurements the new key was checked against recovers the new
    passphrase into its key file, that passphrase opens the volume, and the old
    key is scheduled for deletion. *)
Theorem next_version_boots pub key h0 h1 h2 new fresh pcrs w w1 :
  prepare_upgrade env pub key h0 h1 h2 new w = (Ok tt, w1) ->
  length new = PASSPHRASE_BYTES -> parse_pcrs h0 h1 h2 = Ok pcrs ->
  bootable env' pcrs (w_blob w1) -> same_kms_key env env' rsa_oaep_encrypt key ->
  (forall k, env_schedule_deletion env' k = Ok tt) ->
  exists w2 old, init env' fresh w1 = (Ok tt, w2) /\
    w_key_file w2 = Some new /\ opens (w_volume w2) new /\ slots w2 = slots w1 /\
    w_scheduled w2 = w_scheduled w1 ++ [old] /\ old <> key.
Proof.
  intros (raw & blob & cur & ct & slot & Hc & Hfree & Hop & Hs & Hb & Hrest)%prepare_upgrade_Ok
    Hlen Hpcrs Hboot [Ho Hp Hd] Hsched.
  destruct (rc_sealed _ _ _ _ _ _ _ _ _ _ _ _ Hc) as (pubk & Hb64 & Hpub & Hseal).
  destruct (rc_policy _ _ _ _ _ _ _ _ _ _ _ _ Hc) as (pcrs' & policy & Hpp & Hpol & Hv).
  assert (pcrs' = pcrs) as -> by congruence.
  pose proof (init_recovers pcrs w1 (rekeyed_blob blob key ct) (b64_encode ct) ct new fresh Hboot) as Hi.
  rewrite Hi; clear Hi.
  - simpl. rewrite Hsched. eexists _, (kb_kms_key_id blob). split; [done|]. simpl.
    split_and!; try done; [|by intros <-; eapply rc_key].
    exists slot. simpl. rewrite Hs. by rewrite lookup_insert_eq.
  - rewrite Hb. apply blob_roundtrip.
  - exact (rc_version _ _ _ _ _ _ _ _ _ _ _ _ Hc).
  - done.
  - apply b64_roundtrip.
  - by eapply Hd.
  - done.
  - unfold verify_key_policy_for, bind, lift. simpl. rewrite Ho, Hp, Hpol.
    rewrite (rc_origin _ _ _ _ _ _ _ _ _ _ _ _ Hc). cbn [map_err].
    rewrite bool_decide_true by done. cbn [negb fst snd]. by rewrite Hv.
Qed.
End Composition.

(** ** Plaintext key files *)

Section KeyFiles.
Context `{Cryptsetup, !CryptsetupLaws, Codecs} (env : Env).

(** Staging leaves the key files of before, or none, unless the write of the
    second one fails: the guards that remove them start only after both are
    written. *)
Theorem prepare_removes_key_files pub key h0 h1 h2 new w r w' :
  prepare_upgrade env pub key h0 h1 h2 new w = (r, w') ->
  env_write_current env = Write_Ok -> env_write_new env = Write_Ok ->
  w' = w \/ (w_current_file w' = None /\ w_new_file w' = None).
Proof.
  intros [(e & -> & ->)|(raw & blob & cur & ct & _ & He)]%prepare_upgrade_cases Hc Hn; [by left|].
  right. revert He. unfold rekey_effects, write_current, write_new, write_keyfile, finally.
  rewrite Hc, Hn. unfold bind at 1, update at 1, bind at 1, update at 1.
  destruct (bind _ _ _) as [r0 w0]. intros; by simplify_eq.
Qed.
End KeyFiles.

(** ** The transport *)

(** Keys leave the enclave over the plaintext mock transport only under
    QEMU: it is selected only when the start-up recorded QEMU's host CID and no
    region is set; any region goes to AWS over TLS, and a probe never decides. *)
Theorem mock_kms_only_under_qemu var cid_file :
  kms_transport var cid_file = Ok KT_Mock <->
  (exists raw, cid_file = Some raw /\ parse_uint u32_max (trim raw) = Ok QEMU_HOST_CID) /\
  (forall region, var "KMS_AWS_REGION"%string = Some region -> trim region = []).
Proof.
  assert (Hcid : init_recorded_host_cid cid_file = Some 2 <->
    exists raw, cid_file = Some raw /\ parse_uint u32_max (trim raw) = Ok QEMU_HOST_CID).
  { unfold init_recorded_host_cid, parse_host_cid. destruct cid_file as [raw|]; simpl.
    2: { split; [done|by intros (? & ? & _)]. }
    split.
    - intros Hm. exists raw. split; [done|]. destruct (parse_uint _ _) as [cid|]; [|done].
      destruct (_ || _); by simplify_eq.
    - intros (raw' & [= <-] & ->). done. }
  rewrite <-Hcid. unfold kms_transport, select_transport.
  destruct (var "KMS_AWS_REGION"%string) as [region|].
  - case_bool_decide as Hr.
    + case_bool_decide as Hq; simpl.
      * split; [|done]. intros _. split; [done|]. by intros ? [= <-].
      * split; [done|by intros [? _]].
    + simpl. split; [repeat case_match; done|]. intros [_ Hall]. by destruct Hr; apply Hall.
  - case_bool_decide; simpl; [by split|]. split; [done|by intros [? _]].
Qed.

(** ** A concrete volume and KMS *)

Module CryptoDemo.
Definition render (v : gmap Z bytes) : str :=
  lit "Keyslots:" ++ [10] ++
  concat ((fun kv => [32; 32] ++ print_uint kv.1 ++ lit ": luks2" ++ [10]) <$> map_to_list v) ++
  lit "Tokens:" ++ [10].

(** The dump of a volume whose slot numbers all print and parse. *)
Definition dump (v : gmap Z bytes) : Exit * str :=
  match parse_occupied_keyslots (render v) with
  | Some occupied =>
      if decide (list_to_set occupied = (dom v : gset Z)) then (Exit_Success, render v)
      else (Exit_Failure, [])
  | None => (Exit_Failure, [])
  end.

Definition has (v : gmap Z bytes) (p : bytes) : bool := bool_decide (map_Exists (fun _ q => q = p) v).

#[export] Instance toy_cryptsetup : Cryptsetup := {|
  Volume := gmap Z bytes;
  keyslots := fun v => v;
  luks_dump := dump;
  luks_add_key := fun v cur slot new =>
    if has v cur && bool_decide (v !! slot = None) then (Exit_Success, <[slot := new]> v)
    else (Exit_Failure, v);
  luks_test := fun v slot p =>
    match slot with
    | Some s => if decide (v !! s = Some p) then Exit_Success else Exit_Failure
    | None => if has v p then Exit_Success else Exit_Failure
    end;
  luks_kill_slot := fun v cur slot =>
    if bool_decide (is_Some (v !! slot)) && has (delete slot v) cur
    then (Exit_Success, delete slot v) else (Exit_Failure, v);
|}.

Lemma has_true v p : has v p = true <-> exists slot, v !! slot = Some p.
Proof.
  unfold has. rewrite bool_decide_eq_true, map_Exists_lookup. split.
  - intros (k & q & Hq & ->). eauto.
  - intros (k & Hk). eauto.
Qed.

#[export] Instance toy_laws : CryptsetupLaws.
Proof.
  split; simpl.
  - unfold dump. intros v text Hd. destruct (parse_occupied_keyslots (render v)) as [occ|] eqn:Ep; [|done].
    case_decide as Hdom; simplify_eq. exists occ. split; [done|]. intros n.
    rewrite <-elem_of_dom, <-Hdom. by rewrite elem_of_list_to_set.
  - intros v cur slot new v'. destruct (has v cur) eqn:Eh; simpl; [|done].
    case_bool_decide; [|done]. intros; simplify_eq. split_and!; [by apply has_true|done|done].
  - intros v cur slot new e v'. destruct (has v cur && _); intros; by simplify_eq.
  - intros v slot p. by case_decide.
  - intros v p. destruct (has v p) eqn:Eh; [|done]. intros _. by apply has_true.
  - intros v cur slot v'. case_bool_decide; simpl; [|done].
    destruct (has (delete slot v) cur) eqn:Eh; [|done]. intros; simplify_eq. split; [|done].
    apply has_true in Eh as (other & [Hne Ho]%lookup_delete_Some). by exists other.
  - intros v cur slot e v'. destruct (_ && _); intros; by simplify_eq.
Qed.

#[export] Instance toy_works : CryptsetupWorks.
Proof.
  split; simpl.
  - done.
  - intros v p Ho. by rewrite (proj2 (has_true v p) Ho).
  - intros v cur slot other Hs Hne Ho. rewrite bool_decide_true by done.
    rewrite (proj2 (has_true (delete slot v) cur)); [done|]. exists other. by rewrite lookup_delete_ne.
  - intros v cur slot Hn. by rewrite Hn.
Qed.

(** A policy gated to measurements of 48 letters. *)
Definition m0 : str := replicate 48 97.
Definition m1 : str := replicate 48 98.
Definition m2 : str := replicate 48 99.
Definition policy_doc : Value :=
  VObject [(lit "Statement", VArray [VObject
    [(lit "Effect", VString (lit "Allow")); (lit "Action", VString (lit "kms:Decrypt"));
     (lit "Condition", VObject [(lit "StringEquals", VObject
       [(PCR_KEY ++ lit "0", VString m0); (PCR_KEY ++ lit "1", VString m1);
        (PCR_KEY ++ lit "2", VString m2)])])]])].

Definition flatten (b : KeyBlob) :=
  (kb_version b, kb_kms_key_id b, kb_ciphertext b, kb_prev_key_id b).
Definition of_tuple (t : Z * str * option str * option str) : KeyBlob :=
  let '(v, k, c, p) := t in mkKeyBlob v k c p.

#[export] Instance toy_codecs : Codecs := {|
  rsa_oaep_encrypt := fun pub m => Ok (pub ++ m);
  b64_encode := fun b => b;
  b64_decode := Some;
  blob_to_vec := fun b => [Zpos (encode (flatten b))];
  blob_from_slice := fun l =>
    match l with
    | [Zpos p] => match decode p with Some t => Ok (of_tuple t) | None => Err "json"%string end
    | _ => Err "json"%string
    end;
  utf8_lossy := fun b => b;
  json_from_str := fun _ => Ok policy_doc;
  hex_of := fun b => b;
  bytes_of_hex := Some;
|}.

#[export] Instance toy_codec_laws : CodecLaws.
Proof. split; [done| |done]. intros [v k c p]. simpl. by rewrite decode_encode. Qed.

Definition old_key : str := lit "old".
Definition new_key : str := lit "new".
Definition old_pass : bytes := replicate 32 1.
Definition new_pass : bytes := replicate 32 2.
(** Public keys have three bytes, so that a ciphertext without its first three
    bytes is the plaintext. *)
Definition running : Env :=
  mkEnv Ok (fun _ => Put_Ok) Write_Ok Write_Ok Write_Ok true true true
    (fun _ => Ok (lit "AWS_KMS")) (fun _ => Ok []) Ok
    (fun _ ct => Ok (drop 3 ct)) (fun _ => Ok tt) (Ok (mkPcrs m0 m1 m2)).

Definition w0 : CryptoWorld :=
  mkWorld ({[ 0 := old_pass ]} : gmap Z bytes)
    (blob_to_vec (mkKeyBlob 1 old_key (Some (old_key ++ old_pass)) None)) None None None None [].

Definition prepared := prepare_upgrade running new_key new_key m0 m1 m2 new_pass w0.
Definition w1 : CryptoWorld := prepared.2.

Lemma prepared_Ok : prepare_upgrade running new_key new_key m0 m1 m2 new_pass w0 = (Ok tt, w1).
Proof.
  change (prepared = (Ok tt, prepared.2)). assert (prepared.1 = Ok tt) by by_vm.
  destruct prepared. simpl in *. by subst.
Qed.

Lemma running_revocable : revocable running.
Proof. done. Qed.
End CryptoDemo.

#[local] Existing Instances CryptoDemo.toy_cryptsetup CryptoDemo.toy_laws CryptoDemo.toy_works
  CryptoDemo.toy_codecs CryptoDemo.toy_codec_laws.

Lemma staging_never_harms_the_volume_witness :
  keyslots (w_volume CryptoDemo.w0) ⊆ keyslots (w_volume CryptoDemo.w1).
Proof.
  exact (proj1 (staging_never_harms_the_volume CryptoDemo.running _ _ _ _ _ _ _ _ _
    CryptoDemo.prepared_Ok)).
Defined.

Lemma staged_upgrade_can_be_undone_witness :
  exists w2, revoke_upgrade CryptoDemo.running CryptoDemo.w1 = (Ok tt, w2) /\
    keyslots (w_volume w2) = keyslots (w_volume CryptoDemo.w0) /\
    w_blob w2 = w_blob CryptoDemo.w0 /\ w_stash w2 = None /\
    w_current_file w2 = None /\ w_new_file w2 = None.
Proof.
  apply (staged_upgrade_can_be_undone CryptoDemo.running CryptoDemo.running _ _ _ _ _ _ _ _
    CryptoDemo.prepared_Ok).
  - reflexivity.
  - reflexivity.
  - exact CryptoDemo.running_revocable.
  - intros Ho%CryptoDemo.has_true. revert Ho. vm_compute. discriminate.
Defined.

Lemma next_version_boots_witness :
  exists w2 old, init CryptoDemo.running [] CryptoDemo.w1 = (Ok tt, w2) /\
    w_key_file w2 = Some CryptoDemo.new_pass /\ opens (w_volume w2) CryptoDemo.new_pass /\
    keyslots (w_volume w2) = keyslots (w_volume CryptoDemo.w1) /\
    w_scheduled w2 = w_scheduled CryptoDemo.w1 ++ [old] /\ old <> CryptoDemo.new_key.
Proof.
  apply (next_version_boots CryptoDemo.running CryptoDemo.running _ _ _ _ _ _ []
    (mkPcrs CryptoDemo.m0 CryptoDemo.m1 CryptoDemo.m2) _ _ CryptoDemo.prepared_Ok).
  - reflexivity.
  - reflexivity.
  - split; [reflexivity|vm_compute; discriminate|vm_compute; discriminate|reflexivity|reflexivity|reflexivity].
  - split; [reflexivity|reflexivity|].
    intros pub m ct Hp Hs. cbn in Hp, Hs.
    assert (length pub = 3%nat) as Hl by (injection Hp as <-; reflexivity).
    injection Hs as <-. cbn. f_equal. rewrite <-Hl. apply drop_app_length.
  - reflexivity.
Defined.

Lemma revoke_keeps_the_running_slot_witness :
  let r := revoke_upgrade CryptoDemo.running CryptoDemo.w1 in
  (keyslots (w_volume r.2) = keyslots (w_volume CryptoDemo.w1) /\ w_blob r.2 = w_blob CryptoDemo.w1) \/
  exists st p other, w_stash CryptoDemo.w1 = Some st /\ recovered CryptoDemo.running st p /\
    keyslots (w_volume r.2) = delete (st_new_keyslot st) (keyslots (w_volume CryptoDemo.w1)) /\
    keyslots (w_volume r.2) !! other = Some p /\
    (w_blob r.2 = w_blob CryptoDemo.w1 \/ w_blob r.2 = st_pre_prepare_blob st).
Proof.
  intros r. apply (revoke_keeps_the_running_slot CryptoDemo.running CryptoDemo.w1 r.1 r.2).
  apply surjective_pairing.
Defined.

(** The blob write of a revocation is lost: the staged slot is gone, the stash
    remains, and the next revocation, with every service back, fails. *)
Example interrupted_revocation_reachable :
  let lossy := mkEnv Ok (fun _ => Put_Lost) Write_Ok Write_Ok Write_Ok true true true
    (fun _ => Ok (lit "AWS_KMS")) (fun _ => Ok []) Ok
    (fun _ ct => Ok (drop 3 ct)) (fun _ => Ok tt) (Ok (mkPcrs [] [] [])) in
  let r := revoke_upgrade lossy CryptoDemo.w1 in
  r.1 = Err CE_MetaRejected /\ (st_new_keyslot <$> w_stash r.2) = Some 1 /\
  keyslots (w_volume r.2) !! 1 = None /\
  (revoke_upgrade CryptoDemo.running r.2).1 = Err (CE_Command "luksKillSlot"%string).
Proof. split_and!; by_vm. Qed.

(** The second key file cannot be opened: the first one, with the passphrase of
    the running version, stays on disk. *)
Example key_file_lingers :
  let broken := mkEnv Ok (fun _ => Put_Ok) Write_Ok Write_NoFile Write_Ok true true true
    (fun _ => Ok (lit "AWS_KMS")) (fun _ => Ok []) Ok
    (fun _ ct => Ok (drop 3 ct)) (fun _ => Ok tt) (Ok (mkPcrs [] [] [])) in
  let r := prepare_upgrade broken CryptoDemo.new_key CryptoDemo.new_key CryptoDemo.m0 CryptoDemo.m1
             CryptoDemo.m2 CryptoDemo.new_pass CryptoDemo.w0 in
  r.1 = Err (CE_Io "open"%string) /\ w_current_file r.2 = Some CryptoDemo.old_pass.
Proof. split; by_vm. Qed.
