(* ===== verification/Server.v ===== *)
(** The control plane of the enclave server ([enclavia-server/src/main.rs],
    [config.rs], [attestation.rs], [sync_revoke.rs]; the messages of
    [enclavia-protocol/src/lib.rs] and [custody.rs]).

    A signed control command prepares or revokes an upgrade.  Its handler
    rotates the single-use nonce, checks the envelope and payload signatures,
    and runs the flow: the re-key or its rollback by the key tool ([Crypto]), the
    commit of a revocation by the synchronizer ([Client]), the chain link to the
    host.  The state is the nonce, the key tool's world, the links the host
    holds and the synchronizer as the session reaches it; how the other services
    answer during one command is a record.  A panic is an outcome of its own. *)
From stdpp Require Import base gmap list strings.
From S2P Require Import Prelude Text Crypto Identity Signing Attestation LocalAttestation Chain Wire Client.
#[local] Open Scope Z_scope.

(** ** Messages *)

Record RekeyParams := mkRekeyParams { rk_new_public_key : bytes; rk_new_key_id : str }.

Inductive ControlCommand : Type :=
| PrepareUpgrade (payload payload_signature : bytes) (rekey : option RekeyParams) (nonce : bytes)
| RevokeUpgrade (payload payload_signature : bytes) (rollback : bool) (nonce : bytes).

Section Custody.
Context `{Cbor ControlCommand}.

Definition encode_command (cmd : ControlCommand) : bytes := encode cmd.

Definition encode_prepare_upgrade (payload payload_signature : bytes) (rekey : option RekeyParams)
    (nonce : bytes) : bytes :=
  encode_command (PrepareUpgrade payload payload_signature rekey nonce).

Definition encode_revoke_upgrade (payload payload_signature : bytes) (rollback : bool)
    (nonce : bytes) : bytes :=
  encode_command (RevokeUpgrade payload payload_signature rollback nonce).
End Custody.

(** [der_signature_to_raw], with the crate's DER parser. *)
Definition der_signature_to_raw `{P256} (from_der : bytes -> result Signature string) (der : bytes)
    : result bytes string :=
  let? sig := from_der der in
  Ok (sig_to_bytes (default sig (normalize_s sig))).

(** ** This enclave's attestation documents *)

Section Local.
Context `{NitroLib} (sha256 : bytes -> bytes) (nsm : NsmDevice).

Definition session_attestation (handshake_hash user_data : bytes)
    : result bytes LocalAttestationError :=
  let? v := request_local nsm (Some handshake_hash) (Some user_data) in Ok (va_bytes v).

Definition chain_attestation (user_data nonce : bytes)
    : result ValidatedAttestation LocalAttestationError :=
  request_local nsm (Some nonce) (Some user_data).

(** [random] is the nonce slot's filler. *)
Definition build_chain_attestation (payload random : bytes)
    : result ValidatedAttestation LocalAttestationError :=
  chain_attestation (sha256 payload) random.
End Local.

(** ** The measured configuration *)

Record ServerSynchronizerSection := mkServerSection {
  ss_enabled : bool;
  ss_expected_pcrs : list PcrsHex;
  ss_debug_attestation : bool;
}.

Record ServerRawConfig := mkServerRawConfig {
  src_control_public_key : option string;
  src_min_upgrade_delay_secs : Z;
  src_synchronizer : option ServerSynchronizerSection;
}.

Record RevocationTrust := mkRevocationTrust {
  rt_expected_pcrs : list Pcrs;
  rt_debug_attestation : bool;
}.

Record ServerConfig `{P256} := mkServerConfig {
  sc_control_public_key : option VerifyingKey;
  sc_min_upgrade_delay_secs : Z;
  sc_synchronizer : option RevocationTrust;
}.

Inductive LoadError : Type :=
| LE_Io
| LE_Json (detail : string)
| LE_BuildFlavourMismatch (debug_attestation : bool)
| LE_Base64
| LE_KeyShape
| LE_KeyInvalid (detail : string)
| LE_NoExpectedPcrs
| LE_BadExpectedPcrs (i : nat) (e : ChainValidationError).

(** What reading the file gives. *)
Inductive FileRead : Type := File_Bytes (bs : bytes) | File_NotFound | File_Error.

Section LoadConfig.
Context `{P256} (from_slice : bytes -> result ServerRawConfig string).
Context (base64_decode hex_decode : string -> option bytes) (SKIPS_CERTIFICATE_CHAIN : bool).

Definition default_config : ServerConfig := mkServerConfig _ None 0 None.

Definition load_control_key (key : option string) : result (option VerifyingKey) LoadError :=
  match key with
  | None => Ok None
  | Some s =>
      let? bs := ok_or (base64_decode s) LE_Base64 in
      if negb (length bs =? 65)%nat || negb (bool_decide (bs !! 0%nat = Some 4)) then Err LE_KeyShape
      else let? k := map_err LE_KeyInvalid (vk_from_sec1_bytes bs) in Ok (Some k)
  end.

Fixpoint load_pcrs (i : nat) (l : list PcrsHex) : result (list Pcrs) LoadError :=
  match l with
  | [] => Ok []
  | h :: l =>
      let? pcrs := map_err (LE_BadExpectedPcrs i) (to_pcrs hex_decode h) in
      let? rest := load_pcrs (S i) l in
      Ok (pcrs :: rest)
  end.

Definition load_trust (section : option ServerSynchronizerSection)
    : result (option RevocationTrust) LoadError :=
  match section with
  | Some section =>
      if ss_enabled section then
        match ss_expected_pcrs section with
        | [] => Err LE_NoExpectedPcrs
        | l => let? expected := load_pcrs 0 l in
               Ok (Some (mkRevocationTrust expected (ss_debug_attestation section)))
        end
      else Ok None
  | None => Ok None
  end.

Definition load (file : FileRead) : result ServerConfig LoadError :=
  match file with
  | File_NotFound => Ok default_config
  | File_Error => Err LE_Io
  | File_Bytes bs =>
      let? raw := map_err LE_Json (from_slice bs) in
      let? _ := match src_synchronizer raw with
                | Some section =>
                    if negb (Bool.eqb (ss_debug_attestation section) SKIPS_CERTIFICATE_CHAIN)
                    then Err (LE_BuildFlavourMismatch (ss_debug_attestation section)) else Ok tt
                | None => Ok tt
                end in
      let? control_public_key := load_control_key (src_control_public_key raw) in
      let? synchronizer := load_trust (src_synchronizer raw) in
      Ok (mkServerConfig _ control_public_key (src_min_upgrade_delay_secs raw) synchronizer)
  end.

(** How [main] uses the configuration: [None] is a refusal to start. *)
Definition startup_config (file : FileRead) : option ServerConfig :=
  match load file with
  | Ok c => Some c
  | Err (LE_BuildFlavourMismatch _) => None
  | Err _ => Some default_config
  end.
End LoadConfig.
Arguments default_config {_}.

(** [--container-addr] of the command line; the last one wins. *)
Definition DEFAULT_CONTAINER_ADDR : str := lit "127.0.0.1:8080".

Fixpoint container_addr_args (addr : str) (args : list str) : str :=
  match args with
  | [] => addr
  | arg :: rest =>
      if bool_decide (arg = lit "--container-addr") then
        match rest with
        | [] => addr
        | val :: rest => container_addr_args val rest
        end
      else container_addr_args addr rest
  end.

Definition container_addr (args : list str) : str :=
  container_addr_args DEFAULT_CONTAINER_ADDR (drop 1 args).

(** ** Committing a revocation ([sync_revoke.rs]) *)

(** Milliseconds. *)
Definition RETRY_BUDGET : Z := 60000.
Definition RETRY_BACKOFF : Z := 2000.

Inductive RevokeReason : Type :=
| RV_Relay
| RV_RelayTimedOut
| RV_Handshake (e : ClientError)
| RV_OwnAttestation
| RV_SessionSetup (e : ClientError)
| RV_Authentication (e : ClientError)
| RV_SetupTimedOut
| RV_NoCapability
| RV_Unavailable
| RV_Rejected (e : RpcError)
| RV_SessionDropped (e : ClientError)
| RV_Failed (e : ClientError)
| RV_RpcTimedOut.

Inductive Failure : Type := Fatal (reason : RevokeReason) | Retry (reason : RevokeReason).

Inductive CommitError : Type :=
| Commit_Fatal (reason : RevokeReason)
| Commit_BudgetSpent (last : RevokeReason).

(** What a new connection to the relay meets. *)
Class Relay (T : Type) := { dial_relay : T -> Dialing * T }.

Section SyncRevoke.
Context `{NitroLib} (skip_chain_compiled : bool).
Context {T : Type} `{RpcChannel T} `{Relay T} `{Clock T}.

Definition open_session (d : Dialing) (policy : list Pcrs) (debug_attestation : bool)
    (control_pubkey : bytes) : result PeerProtocol Failure :=
  if di_setup_elapsed d then Err (Retry RV_SetupTimedOut)
  else
    let? hash := map_err (fun e => Retry (RV_Handshake e)) (di_handshake d) in
    let? _ := map_err (fun _ => Fatal RV_OwnAttestation) (di_document d hash control_pubkey) in
    map_err (fun e => match e with
                      | CE_Io | CE_ConnectionClosed => Retry (RV_SessionSetup e)
                      | other => Fatal (RV_Authentication other)
                      end)
      (handshake_authenticate skip_chain_compiled (di_sent d) (di_received d) hash policy
         debug_attestation (di_now_ms d)).

Definition revoke_on (server : PeerProtocol) (t : T) (link : ChainLink) : result unit Failure * T :=
  match client_revoke server t link with
  | (Completed (Ok _), t) => (Ok tt, t)
  | (Completed (Err (CE_MissingCapability _)), t) => (Err (Fatal RV_NoCapability), t)
  | (Completed (Err (CE_Rpc Rpc_Unavailable)), t) => (Err (Retry RV_Unavailable), t)
  | (Completed (Err (CE_Rpc e)), t) => (Err (Fatal (RV_Rejected e)), t)
  | (Completed (Err CE_Io), t) => (Err (Retry (RV_SessionDropped CE_Io)), t)
  | (Completed (Err CE_ConnectionClosed), t) => (Err (Retry (RV_SessionDropped CE_ConnectionClosed)), t)
  | (Completed (Err e), t) => (Err (Fatal (RV_Failed e)), t)
  | (Elapsed, t) => (Err (Retry RV_RpcTimedOut), t)
  end.

(** One attempt: dial, set up the session, revoke. *)
Definition revoke_attempt (trust : RevocationTrust) (control_pubkey : bytes) (link : ChainLink) (t : T)
    : result unit Failure * T :=
  let (d, t) := dial_relay t in
  match di_connect d with
  | None => (Err (Retry RV_RelayTimedOut), t)
  | Some false => (Err (Retry RV_Relay), t)
  | Some true =>
      match open_session d (rt_expected_pcrs trust) (rt_debug_attestation trust) control_pubkey with
      | Err f => (Err f, t)
      | Ok client => revoke_on client t link
      end
  end.

(** One round per unit of fuel; [None] is running out of it. *)
Fixpoint commit_loop (fuel : nat) (deadline : Z) (trust : RevocationTrust) (control_pubkey : bytes)
    (link : ChainLink) (t : T) : option (result unit CommitError * T) :=
  match fuel with
  | O => None
  | Datatypes.S fuel =>
      match revoke_attempt trust control_pubkey link t with
      | (Ok _, t) => Some (Ok tt, t)
      | (Err (Fatal r), t) => Some (Err (Commit_Fatal r), t)
      | (Err (Retry r), t) =>
          if deadline <=? instant_now t + RETRY_BACKOFF then Some (Err (Commit_BudgetSpent r), t)
          else commit_loop fuel deadline trust control_pubkey link (sleep RETRY_BACKOFF t)
      end
  end.

(** The first attempt and one after each pause inside the budget. *)
Definition COMMIT_ATTEMPTS : nat := (1 + Z.to_nat (RETRY_BUDGET / RETRY_BACKOFF))%nat.

Definition commit_revocation (trust : RevocationTrust) (control_pubkey : bytes) (link : ChainLink)
    (t : T) : option (result unit CommitError * T) :=
  commit_loop COMMIT_ATTEMPTS (instant_now t + RETRY_BUDGET) trust control_pubkey link t.
End SyncRevoke.

(** ** Credentials for the key tool *)

Definition MAX_PAYLOAD_BYTES : Z := Z.shiftl 1 20.
Definition CREDS_ACK_BYTE : Z := 0.

Inductive CredsError : Type :=
| CR_Connect (detail : string)
| CR_LengthPrefix
| CR_OutOfRange (len : Z)
| CR_Payload
| CR_Cbor (detail : string)
| CR_UnexpectedKey (k : str)
| CR_NotUtf8 (k : str)
| CR_Nul (k : str)
| CR_NoRegion.

(** [pull_upgrade_kms_creds]: [conn] is what the relay's connection delivers
    before it ends, [decode] the CBOR decoder of the map, in key order. *)
Definition pull_upgrade_kms_creds (decode : bytes -> result (list (str * bytes)) string)
    (conn : result bytes string) : result (list (str * bytes)) CredsError :=
  let? stream := map_err CR_Connect conn in
  if (length stream <? 4)%nat then Err CR_LengthPrefix
  else
    let len := be_decode (take 4 stream) in
    if (len =? 0) || (MAX_PAYLOAD_BYTES <? len) then Err (CR_OutOfRange len)
    else
      let rest := drop 4 stream in
      if Z.of_nat (length rest) <? len then Err CR_Payload
      else map_err CR_Cbor (decode (take (Z.to_nat len) rest)).

Definition ALLOWED_CREDS_ENV : list str :=
  [lit "AWS_ACCESS_KEY_ID"; lit "AWS_SECRET_ACCESS_KEY"; lit "AWS_SESSION_TOKEN"; lit "AWS_REGION"].

Fixpoint filter_creds_env (creds : list (str * bytes)) : result (list (str * str)) CredsError :=
  match creds with
  | [] => Ok []
  | (k, v) :: creds =>
      if negb (bool_decide (k ∈ ALLOWED_CREDS_ENV)) then Err (CR_UnexpectedKey k)
      else
        let? value := ok_or (from_utf8 v) (CR_NotUtf8 k) in
        if contains_char value 0 then Err (CR_Nul k)
        else let? rest := filter_creds_env creds in Ok ((k, value) :: rest)
  end.

(** The region of the loop: the last one. *)
Definition env_region (env : list (str * str)) : option str :=
  fold_left (fun r '(k, v) => if bool_decide (k = lit "AWS_REGION") then Some v else r) env None.

(** [inject_upgrade_kms_creds]: the variables set on the command. *)
Definition inject_upgrade_kms_creds (decode : bytes -> result (list (str * bytes)) string)
    (host_cid : Z) (conn : result bytes string) : result (list (str * str)) CredsError :=
  if negb (host_cid =? 3) then Ok []
  else
    let? creds := pull_upgrade_kms_creds decode conn in
    let? env := filter_creds_env creds in
    match env_region env with
    | Some r => if bool_decide (trim r = []) then Err CR_NoRegion
                else Ok (env ++ [(lit "KMS_AWS_REGION", r)])
    | None => Err CR_NoRegion
    end.

(** ** The chain link to the host *)

(** How the submission of a link ends: no connection, a failure before or
    after the host has the whole frame, or the host's answer byte. *)
Inductive SubmitFate : Type :=
| Submit_NoConnection
| Submit_Lost
| Submit_Unacked
| Submit_Ack (ack : Z).

Inductive SubmitError : Type := SE_Connect | SE_TooLarge | SE_Io.

Definition CHAIN_LINK_ACK : Z := 6.

(** The frame [submit_chain_link] writes. *)
Definition chain_link_frame `{Cbor ChainLink} (link : ChainLink) : result bytes SubmitError :=
  let link_bytes := encode link in
  if u32_max <? Z.of_nat (length link_bytes) then Err SE_TooLarge
  else Ok (be_encode 4 (Z.of_nat (length link_bytes)) ++ link_bytes).

(** [submit_chain_link_to_host], with the frames the host has received; an
    unexpected answer byte is only logged. *)
Definition submit_chain_link_to_host `{Cbor ChainLink} (fate : SubmitFate) (link : ChainLink)
    (host : list bytes) : result unit SubmitError * list bytes :=
  match fate with
  | Submit_NoConnection => (Err SE_Connect, host)
  | _ =>
      match chain_link_frame link with
      | Err e => (Err e, host)
      | Ok frame =>
          match fate with
          | Submit_Ack _ => (Ok tt, host ++ [frame])
          | Submit_Unacked => (Err SE_Io, host ++ [frame])
          | _ => (Err SE_Io, host)
          end
      end
  end.

(** ** The control flows *)

(** The ranges of [chrono]: instants in nanoseconds, durations in seconds. *)
Class Chrono := { MIN_UTC : Z; MAX_UTC : Z; MAX_DELTA_SECS : Z }.

(** Documented facts of these ranges: a duration spans any two instants, and
    counts milliseconds in an [i64]. *)
Class ChronoRange `{Chrono} : Prop := {
  chrono_span : MAX_UTC - MIN_UTC <= seconds MAX_DELTA_SECS;
  chrono_i64 : MAX_DELTA_SECS < 2 ^ 63;
}.

Section Delay.
Context `{Chrono}.

Definition try_seconds (n : Z) : option Z :=
  if Z.abs n <=? MAX_DELTA_SECS then Some (seconds n) else None.

Definition checked_add_signed (t d : Z) : option Z :=
  if (MIN_UTC <=? t + d) && (t + d <=? MAX_UTC) then Some (t + d) else None.

Definition checked_sub_signed (t d : Z) : option Z := checked_add_signed t (- d).

(** [i64::try_from] and [as i64] of a [u64]. *)
Definition i64_try_from (n : Z) : option Z := if n <? 2 ^ 63 then Some n else None.
Definition as_i64 (n : Z) : Z := if n <? 2 ^ 63 then n else n - 2 ^ 64.

(** [CLOCK_SKEW_TOLERANCE_SECS] of the server. *)
Definition DELAY_SKEW_TOLERANCE_SECS : Z := 60.

Definition violates_min_upgrade_delay (valid_from now min_delay_secs : Z) : bool :=
  if min_delay_secs =? 0 then false
  else
    let floor := n ← i64_try_from min_delay_secs; delay ← try_seconds n;
                 t ← checked_add_signed now delay;
                 checked_sub_signed t (seconds DELAY_SKEW_TOLERANCE_SECS) in
    match floor with
    | Some floor => valid_from <? floor
    | None => true
    end.

(** The earliest instant of the error message; [None] is a panic. *)
Definition earliest_acceptable (now min_delay_secs : Z) : option Z :=
  delay ← try_seconds (as_i64 min_delay_secs);
  t ← checked_add_signed now delay;
  checked_sub_signed t (seconds DELAY_SKEW_TOLERANCE_SECS).
End Delay.

Inductive ToolError : Type :=
| TE_Creds (e : CredsError)
| TE_Spawn
| TE_Failed (e : CryptoError).

Inductive ControlMessage : Type :=
| Msg_ControlDisabled
| Msg_SignatureShape
| Msg_SignatureInvalid
| Msg_MalformedPayload (e : CanonicalDecodeError)
| Msg_StaleNonce
| Msg_PayloadSignatureShape
| Msg_PayloadSignatureInvalid
| Msg_NotUpgradePayload (e : CanonicalDecodeError)
| Msg_WindowTooShort (valid_from valid_until : Z)
| Msg_MinDelay (valid_from min_delay now earliest : Z)
| Msg_AttestationFailed (e : LocalAttestationError)
| Msg_FromMismatch (payload attested : PinIdentity)
| Msg_RekeyFailed (e : ToolError)
| Msg_SubmitFailed (e : SubmitError) (durable : bool)
| Msg_PrepareCompleted
| Msg_NotRevocationPayload (e : CanonicalDecodeError)
| Msg_NotCommitted (e : CommitError)
| Msg_RollbackFailed (e : ToolError) (durable : bool)
| Msg_RevokeCompleted.

(** The result of a command: the pair the handler returns, or a panic of its
    task. *)
Inductive Reply : Type :=
| Success (m : ControlMessage)
| Refused (m : ControlMessage)
| Panicked.

Section Flows.
Context `{P256} `{NitroLib} `{Cryptsetup} `{Codecs} `{Chrono}.
Context `{Cbor ControlCommand} `{Cbor ChainLink} `{Cbor UpgradePayload} `{Cbor RevocationPayload}.
Context (sha256 : bytes -> bytes) (hex_encode : bytes -> string) (skip_chain_compiled : bool).
(** The uncompressed SEC1 encoding of a key. *)
Context (to_encoded_point : VerifyingKey -> bytes).
(** The CBOR map of the credentials relay. *)
Context (creds_from_reader : bytes -> result (list (str * bytes)) string).
Context {T : Type} `{RpcChannel T} `{Relay T} `{Clock T}.

(** How the services answer during one command; [ev_tool] is the key tool's
    environment as a function of the variables set on it. *)
Record CommandEnv := mkCommandEnv {
  ev_fresh_nonce : bytes;
  ev_now : Z;
  ev_nsm : NsmDevice;
  ev_random : bytes;
  ev_host_cid : Z;
  ev_creds : result bytes string;
  ev_spawns : bool;
  ev_tool : list (str * str) -> Env;
  ev_new_passphrase : bytes;
  ev_submit : SubmitFate;
}.

Record ServerState := mkServerState {
  sv_nonce : bytes;
  sv_world : CryptoWorld;
  sv_host : list bytes;
  sv_sync : T;
}.

Definition set_nonce (st : ServerState) n := mkServerState n (sv_world st) (sv_host st) (sv_sync st).
Definition set_world (st : ServerState) w := mkServerState (sv_nonce st) w (sv_host st) (sv_sync st).
Definition set_host (st : ServerState) h := mkServerState (sv_nonce st) (sv_world st) h (sv_sync st).
Definition set_sync (st : ServerState) t := mkServerState (sv_nonce st) (sv_world st) (sv_host st) t.

Context (env : CommandEnv).

Definition verify_payload_signature (pubkey : VerifyingKey) (domain : SignedDomain)
    (chain_payload payload_signature : bytes) : result unit ControlMessage :=
  map_err (fun e => match e with
                    | Sig_Shape => Msg_PayloadSignatureShape
                    | Sig_Invalid => Msg_PayloadSignatureInvalid
                    end)
    (verify_control_signature pubkey domain chain_payload payload_signature).

(** Runs the key tool with the injected credentials. *)
Definition run_tool (tool : Env -> M unit) (st : ServerState) : result unit ToolError * ServerState :=
  match inject_upgrade_kms_creds creds_from_reader (ev_host_cid env) (ev_creds env) with
  | Err e => (Err (TE_Creds e), st)
  | Ok vars =>
      if ev_spawns env then
        let (r, w) := tool (ev_tool env vars) (sv_world st) in
        (map_err TE_Failed r, set_world st w)
      else (Err TE_Spawn, st)
  end.

Definition run_enclavia_crypto_prepare_upgrade (rk : RekeyParams) (to_pcrs : PcrsHex)
    (st : ServerState) : result unit ToolError * ServerState :=
  run_tool (fun e => prepare_upgrade e (b64_encode (rk_new_public_key rk)) (rk_new_key_id rk)
              (lit (hex0 to_pcrs)) (lit (hex1 to_pcrs)) (lit (hex2 to_pcrs)) (ev_new_passphrase env)) st.

Definition run_enclavia_crypto_revoke_upgrade (st : ServerState) : result unit ToolError * ServerState :=
  run_tool revoke_upgrade st.

Definition submit_to_host (link : ChainLink) (st : ServerState) : result unit SubmitError * ServerState :=
  let (r, host) := submit_chain_link_to_host (ev_submit env) link (sv_host st) in
  (r, set_host st host).

(** Everything [run_prepare_upgrade] checks before it changes anything. *)
Definition prepare_checks (pubkey : VerifyingKey) (chain_payload payload_signature : bytes)
    (min_upgrade_delay_secs : Z) : result (UpgradePayload * ValidatedAttestation) Reply :=
  let? _ := map_err Refused
              (verify_payload_signature pubkey Dom_UpgradePayload chain_payload payload_signature) in
  let? payload := map_err (fun e => Refused (Msg_NotUpgradePayload e)) (decode_canonical chain_payload) in
  if negb (upgrade_window_is_valid (up_valid_from payload) (up_valid_until payload))
  then Err (Refused (Msg_WindowTooShort (up_valid_from payload) (up_valid_until payload)))
  else if (0 <? min_upgrade_delay_secs) &&
          violates_min_upgrade_delay (up_valid_from payload) (ev_now env) min_upgrade_delay_secs
  then Err (match earliest_acceptable (ev_now env) min_upgrade_delay_secs with
            | Some earliest => Refused (Msg_MinDelay (up_valid_from payload) min_upgrade_delay_secs
                                          (ev_now env) earliest)
            | None => Panicked
            end)
  else
    let? attestation := map_err (fun e => Refused (Msg_AttestationFailed e))
                          (build_chain_attestation sha256 (ev_nsm env) chain_payload (ev_random env)) in
    if negb (bool_decide (va_identity attestation = up_from payload))
    then Err (Refused (Msg_FromMismatch (up_from payload) (va_identity attestation)))
    else Ok (payload, attestation).

Definition run_prepare_upgrade (pubkey : VerifyingKey) (chain_payload payload_signature : bytes)
    (rekey : option RekeyParams) (min_upgrade_delay_secs : Z) (st : ServerState)
    : Reply * ServerState :=
  match prepare_checks pubkey chain_payload payload_signature min_upgrade_delay_secs with
  | Err reply => (reply, st)
  | Ok (payload, attestation) =>
      let (rekeyed, st) :=
        match rekey with
        | Some rk => run_enclavia_crypto_prepare_upgrade rk (image_pcrs_hex hex_encode (up_to payload)) st
        | None => (Ok tt, st)
        end in
      match rekeyed with
      | Err e => (Refused (Msg_RekeyFailed e), st)
      | Ok _ =>
          let link := mkChainLink None None Upgrade chain_payload (va_bytes attestation)
                        (Some payload_signature) in
          match submit_to_host link st with
          | (Err e, st) => (Refused (Msg_SubmitFailed e false), st)
          | (Ok _, st) => (Success Msg_PrepareCompleted, st)
          end
      end
  end.

(** The part of [run_revoke_upgrade] after the synchronizer's step. *)
Definition finish_revoke (link : ChainLink) (rollback durable : bool) (st : ServerState)
    : Reply * ServerState :=
  let (rolled_back, st) :=
    if rollback then run_enclavia_crypto_revoke_upgrade st else (Ok tt, st) in
  match rolled_back with
  | Err e => (Refused (Msg_RollbackFailed e durable), st)
  | Ok _ =>
      match submit_to_host link st with
      | (Err e, st) => (Refused (Msg_SubmitFailed e durable), st)
      | (Ok _, st) => (Success Msg_RevokeCompleted, st)
      end
  end.

(** [None] only when the retries of [commit_revocation] run out of fuel. *)
Definition run_revoke_upgrade (synchronizer : option RevocationTrust) (pubkey : VerifyingKey)
    (chain_payload payload_signature : bytes) (rollback : bool) (st : ServerState)
    : option (Reply * ServerState) :=
  match verify_payload_signature pubkey Dom_RevocationPayload chain_payload payload_signature with
  | Err m => Some (Refused m, st)
  | Ok _ =>
      match decode_canonical (T := RevocationPayload) chain_payload with
      | Err e => Some (Refused (Msg_NotRevocationPayload e), st)
      | Ok _ =>
          match build_chain_attestation sha256 (ev_nsm env) chain_payload (ev_random env) with
          | Err e => Some (Refused (Msg_AttestationFailed e), st)
          | Ok attestation =>
              let link := mkChainLink None None Revocation chain_payload (va_bytes attestation)
                            (Some payload_signature) in
              match synchronizer with
              | None => Some (finish_revoke link rollback false st)
              | Some trust =>
                  r ← commit_revocation skip_chain_compiled trust (to_encoded_point pubkey) link
                        (sv_sync st);
                  match r with
                  | (Err e, t) => Some (Refused (Msg_NotCommitted e), set_sync st t)
                  | (Ok _, t) => Some (finish_revoke link rollback true (set_sync st t))
                  end
              end
          end
      end
  end.

(** The dispatch of a decoded command, with the nonce it must carry. *)
Definition run_command (config : ServerConfig) (pubkey : VerifyingKey) (expected : bytes)
    (cmd : ControlCommand) (st : ServerState) : option (Reply * ServerState) :=
  match cmd with
  | PrepareUpgrade chain_payload payload_signature rekey cmd_nonce =>
      if negb (bool_decide (cmd_nonce = expected)) then Some (Refused Msg_StaleNonce, st)
      else Some (run_prepare_upgrade pubkey chain_payload payload_signature rekey
                   (sc_min_upgrade_delay_secs config) st)
  | RevokeUpgrade chain_payload payload_signature rollback cmd_nonce =>
      if negb (bool_decide (cmd_nonce = expected)) then Some (Refused Msg_StaleNonce, st)
      else run_revoke_upgrade (sc_synchronizer config) pubkey chain_payload payload_signature rollback st
  end.

(** [handle_control]: the nonce rotates first, whatever follows. *)
Definition handle_control (config : ServerConfig) (payload signature : bytes) (st : ServerState)
    : option (Reply * ServerState) :=
  let expected := sv_nonce st in
  let st := set_nonce st (ev_fresh_nonce env) in
  match sc_control_public_key config with
  | None => Some (Refused Msg_ControlDisabled, st)
  | Some pubkey =>
      match verify_control_signature pubkey Dom_ControlCommand payload signature with
      | Err Sig_Shape => Some (Refused Msg_SignatureShape, st)
      | Err Sig_Invalid => Some (Refused Msg_SignatureInvalid, st)
      | Ok _ =>
          match decode_canonical payload with
          | Err e => Some (Refused (Msg_MalformedPayload e), st)
          | Ok cmd => run_command config pubkey expected cmd st
          end
      end
  end.
End Flows.
Arguments mkServerState {_ _} _ _ _ _.
