(* ===== verification/ServerProofs.v ===== *)
(** What the control plane guarantees ([Server]): a command runs at most once
    and only under the control key; an upgrade link leaves the enclave only
    after every check and the re-key, and is one the synchronizer accepts; a
    revocation is reported only once the synchronizer has committed it; the key
    tool gets no variable the host may not set. *)
From stdpp Require Import base gmap list strings.
From S2P Require Import Prelude Text Crypto CryptoProofs Identity Signing Attestation LocalAttestation Chain ChainProofs.
From S2P Require Import Wire StateMachine Store Service Client Server.
#[local] Open Scope Z_scope.

(** ** The minimum delay *)

Section Delay.
Context `{Chrono}.

(** The floor is in the range of [chrono]. *)
Definition delay_representable (now min_delay : Z) : Prop :=
  min_delay < 2 ^ 63 /\ min_delay <= MAX_DELTA_SECS /\
  MIN_UTC <= now + seconds min_delay <= MAX_UTC /\ MIN_UTC <= now + seconds (min_delay - 60).

Lemma delay_floor now min_delay :
  0 < min_delay ->
  (n ← i64_try_from min_delay; delay ← try_seconds n; t ← checked_add_signed now delay;
   checked_sub_signed t (seconds DELAY_SKEW_TOLERANCE_SECS)) = Some (now + seconds (min_delay - 60)) /\
  delay_representable now min_delay \/
  (n ← i64_try_from min_delay; delay ← try_seconds n; t ← checked_add_signed now delay;
   checked_sub_signed t (seconds DELAY_SKEW_TOLERANCE_SECS)) = None /\
  ~ delay_representable now min_delay.
Proof.
  intros Hpos. unfold i64_try_from, try_seconds, checked_sub_signed, checked_add_signed,
    delay_representable, DELAY_SKEW_TOLERANCE_SECS, seconds.
  destruct (Z.ltb_spec min_delay (2 ^ 63)); cbn -[Z.add Z.mul Z.pow]; [|right; split; [done|lia]].
  rewrite Z.abs_eq by lia.
  destruct (Z.leb_spec min_delay MAX_DELTA_SECS); cbn -[Z.add Z.mul Z.pow]; [|right; split; [done|lia]].
  destruct (Z.leb_spec MIN_UTC (now + min_delay * 1000000000)), (Z.leb_spec (now + min_delay * 1000000000) MAX_UTC);
    cbn -[Z.add Z.mul Z.pow]; [|right; split; [done|lia]..].
  destruct (Z.leb_spec MIN_UTC (now + min_delay * 1000000000 + - (60 * 1000000000))); cbn -[Z.add Z.mul Z.pow];
    [|right; split; [done|lia]].
  rewrite (proj2 (Z.leb_le _ MAX_UTC)) by lia. left. split; [f_equal; lia|lia].
Qed.

(** When the floor is representable: the activation would be in range. *)
Lemma delay_representable_iff `{!ChronoRange} now min_delay :
  0 < min_delay -> MIN_UTC + seconds DELAY_SKEW_TOLERANCE_SECS <= now ->
  delay_representable now min_delay <-> now + seconds min_delay <= MAX_UTC.
Proof.
  pose proof chrono_span. pose proof chrono_i64. unfold delay_representable, seconds, DELAY_SKEW_TOLERANCE_SECS in *.
  lia.
Qed.

Lemma violates_min_delay_false valid_from now min_delay :
  0 < min_delay ->
  violates_min_upgrade_delay valid_from now min_delay = false <->
  delay_representable now min_delay /\ now + seconds (min_delay - 60) <= valid_from.
Proof.
  intros Hpos. unfold violates_min_upgrade_delay. rewrite (proj2 (Z.eqb_neq min_delay 0)) by lia.
  destruct (delay_floor now min_delay Hpos) as [[-> Hr]|[-> Hr]].
  - rewrite Z.ltb_ge. naive_solver.
  - naive_solver.
Qed.

(** The message of a refusal can be built whenever the floor is representable. *)
Lemma earliest_acceptable_Some now min_delay :
  0 < min_delay -> delay_representable now min_delay ->
  earliest_acceptable now min_delay = Some (now + seconds (min_delay - 60)).
Proof.
  intros Hpos Hr. pose proof (delay_floor now min_delay Hpos) as [[Hf _]|[_ Hn]]; [|done].
  unfold earliest_acceptable, as_i64. unfold i64_try_from in Hf.
  destruct (min_delay <? 2 ^ 63); simpl in *; done.
Qed.
End Delay.

(** ** The flows *)

Section Flows.
Context `{P256} `{NitroLib} `{Cryptsetup} `{Codecs} `{Chrono}.
Context `{Cbor ControlCommand} `{Cbor ChainLink} `{Cbor UpgradePayload} `{Cbor RevocationPayload}.
Context (sha256 : bytes -> bytes) (hex_encode : bytes -> string) (skip_chain_compiled : bool).
Context (to_encoded_point : VerifyingKey -> bytes).
Context (creds_from_reader : bytes -> result (list (str * bytes)) string).
Context {T : Type} `{RpcChannel T} `{Relay T} `{Clock T}.

Abbreviation State := (ServerState (T := T)).
Abbreviation control := (handle_control sha256 hex_encode skip_chain_compiled to_encoded_point
  creds_from_reader).
Abbreviation prepare := (run_prepare_upgrade sha256 hex_encode creds_from_reader).
Abbreviation revoke := (run_revoke_upgrade sha256 skip_chain_compiled to_encoded_point creds_from_reader).

(** *** A command runs once *)

(** The request is a command signed by the control key and carrying [nonce]. *)
Definition authorized (config : ServerConfig) (nonce payload signature : bytes) : Prop :=
  exists pubkey cmd, sc_control_public_key config = Some pubkey /\
    verify_control_signature pubkey Dom_ControlCommand payload signature = Ok tt /\
    decode_canonical payload = Ok cmd /\
    nonce = match cmd with PrepareUpgrade _ _ _ n | RevokeUpgrade _ _ _ n => n end.

(** Nothing happened but the rotation of the nonce. *)
Definition only_rotated (fresh : bytes) (st : State) (r : Reply) (st' : State) : Prop :=
  st' = set_nonce st fresh /\ exists m, r = Refused m.

Lemma set_nonce_nonce (st : State) n : sv_nonce (set_nonce st n) = n.
Proof. done. Qed.

Lemma run_tool_nonce env tool (st : State) r st' :
  run_tool creds_from_reader env tool st = (r, st') ->
  sv_nonce st' = sv_nonce st /\ sv_host st' = sv_host st /\ sv_sync st' = sv_sync st.
Proof.
  unfold run_tool. destruct (inject_upgrade_kms_creds _ _ _); [|intros; by simplify_eq].
  destruct (ev_spawns env); [|intros; by simplify_eq].
  destruct (tool _ _). intros; by simplify_eq.
Qed.

Lemma submit_nonce env link (st : State) r st' :
  submit_to_host env link st = (r, st') ->
  sv_nonce st' = sv_nonce st /\ sv_world st' = sv_world st /\ sv_sync st' = sv_sync st.
Proof.
  unfold submit_to_host. destruct (submit_chain_link_to_host _ _ _). intros; by simplify_eq.
Qed.

Lemma prepare_nonce env pk p sig rk delay (st : State) r st' :
  prepare env pk p sig rk delay st = (r, st') -> sv_nonce st' = sv_nonce st.
Proof.
  unfold run_prepare_upgrade. destruct (prepare_checks _ _ _ _ _ _) as [[pl att]|]; [|intros; by simplify_eq].
  destruct (match rk with Some _ => _ | None => _ end) as [rekeyed st1] eqn:E1.
  assert (Hn1 : sv_nonce st1 = sv_nonce st).
  { destruct rk; [by apply run_tool_nonce in E1 as [? _]|by simplify_eq]. }
  destruct rekeyed; [|intros; by simplify_eq].
  destruct (submit_to_host env _ st1) as [[] st2] eqn:E2; apply submit_nonce in E2 as [Hn2 _];
    intros; simplify_eq; congruence.
Qed.

Lemma finish_nonce env link rb d (st : State) r st' :
  finish_revoke creds_from_reader env link rb d st = (r, st') ->
  sv_nonce st' = sv_nonce st /\ sv_sync st' = sv_sync st.
Proof.
  unfold finish_revoke. destruct (if rb then _ else _) as [rolled st1] eqn:E1.
  assert (Hn1 : sv_nonce st1 = sv_nonce st /\ sv_sync st1 = sv_sync st).
  { destruct rb; [by apply run_tool_nonce in E1 as (? & _ & ?)|by simplify_eq]. }
  destruct Hn1 as [Hn1 Hs1]. destruct rolled; [|intros; by simplify_eq].
  destruct (submit_to_host env _ st1) as [[] st2] eqn:E2; apply submit_nonce in E2 as (Hn2 & _ & Hs2);
    intros; simplify_eq; split; congruence.
Qed.

Lemma revoke_nonce env sync pk p sig rb (st : State) r st' :
  revoke env sync pk p sig rb st = Some (r, st') -> sv_nonce st' = sv_nonce st.
Proof.
  unfold run_revoke_upgrade. destruct (verify_payload_signature _ _ _ _); [|intros; by simplify_eq].
  destruct (decode_canonical p); [|intros; by simplify_eq].
  destruct (build_chain_attestation _ _ _ _); [|intros; by simplify_eq].
  destruct sync as [trust|]; [|intros [= Hf]; by apply finish_nonce in Hf as [? _]].
  destruct (commit_revocation _ _ _ _ _) as [[[] t]|]; simpl; [|intros; by simplify_eq|done].
  intros [= Hf]. by apply finish_nonce in Hf as [? _].
Qed.

(** An unauthorized request only rotates the nonce; every request does. *)
Lemma control_cases env config payload signature (st : State) r st' :
  control env config payload signature st = Some (r, st') ->
  sv_nonce st' = ev_fresh_nonce env /\
  (authorized config (sv_nonce st) payload signature \/ only_rotated (ev_fresh_nonce env) st r st').
Proof.
  unfold handle_control, only_rotated, authorized. set (st0 := set_nonce st _).
  destruct (sc_control_public_key config) as [pk|]; [|intros; simplify_eq; split; [done|right; eauto]].
  destruct (verify_control_signature pk Dom_ControlCommand payload signature) as [[]|[]] eqn:Es;
    [|intros; simplify_eq; split; [done|right; eauto]..].
  destruct (decode_canonical payload) as [cmd|] eqn:Ed; [|intros; simplify_eq; split; [done|right; eauto]].
  assert (Hn0 : sv_nonce st0 = ev_fresh_nonce env) by done. unfold run_command.
  destruct cmd as [p sig rk n|p sig rb n]; case_bool_decide as Hn; simpl;
    [|intros; simplify_eq; split; [done|right; eauto]| |intros; simplify_eq; split; [done|right; eauto]].
  - intros [= Hp]. apply prepare_nonce in Hp. split; [congruence|]. left. by eexists pk, _.
  - intros Hr. apply revoke_nonce in Hr. split; [congruence|]. left. by eexists pk, _.
Qed.

(** A control message as it was handled: the state it met, how the services
    answered, its bytes, the reply and the state it left. *)
Record Handled := mkHandled {
  hd_before : State;
  hd_env : CommandEnv;
  hd_payload : bytes;
  hd_signature : bytes;
  hd_reply : Reply;
  hd_after : State;
}.

(** The control messages of a boot, in the order they take the nonce's lock.
    Between two of them anything else may change, but not the nonce. *)
Inductive control_run (config : ServerConfig) : bytes -> list Handled -> Prop :=
| run_nil nonce : control_run config nonce []
| run_cons h l :
    control (hd_env h) config (hd_payload h) (hd_signature h) (hd_before h)
      = Some (hd_reply h, hd_after h) ->
    control_run config (sv_nonce (hd_after h)) l ->
    control_run config (sv_nonce (hd_before h)) (h :: l).

(** The nonces of a run, the first one and every fresh one. *)
Definition run_nonces (nonce : bytes) (l : list Handled) : list bytes :=
  nonce :: ((fun h => ev_fresh_nonce (hd_env h)) <$> l).

Lemma control_run_nonce config nonce l i h :
  control_run config nonce l -> l !! i = Some h -> run_nonces nonce l !! i = Some (sv_nonce (hd_before h)).
Proof.
  intros Hrun. revert i. induction Hrun as [|h0 l Hc Hrun IH]; intros i; [done|].
  destruct i as [|i]; [by intros [= <-]|]. intros Hi. specialize (IH i Hi).
  apply control_cases in Hc as [Hn _]. unfold run_nonces in *. simpl. by rewrite Hn in IH.
Qed.

Lemma control_run_handled config nonce l h :
  control_run config nonce l -> h ∈ l ->
  control (hd_env h) config (hd_payload h) (hd_signature h) (hd_before h)
    = Some (hd_reply h, hd_after h).
Proof.
  induction 1 as [|h0 l Hc _ IH]; [by intros []%elem_of_nil|].
  intros [->|]%elem_of_cons; auto.
Qed.

(** C23: a control command runs at most once. In any run of control messages
    whose nonces are distinct, once a message was authorized (signed by the
    control key and carrying the current nonce), every other message with the
    same bytes is refused and changes nothing but the nonce. *)
Theorem control_command_runs_once config nonce l i j hi hj :
  control_run config nonce l -> NoDup (run_nonces nonce l) ->
  l !! i = Some hi -> l !! j = Some hj -> i <> j -> hd_payload hi = hd_payload hj ->
  authorized config (sv_nonce (hd_before hi)) (hd_payload hi) (hd_signature hi) ->
  only_rotated (ev_fresh_nonce (hd_env hj)) (hd_before hj) (hd_reply hj) (hd_after hj).
Proof.
  intros Hrun Hnd Hi Hj Hne Hp Hauth.
  pose proof (control_run_handled _ _ _ _ Hrun (list_elem_of_lookup_2 _ _ _ Hj)) as Hc.
  apply control_cases in Hc as [_ [Hauth'|?]]; [|done]. exfalso.
  destruct Hauth as (pk & cmd & _ & _ & Hd & Hn), Hauth' as (pk' & cmd' & _ & _ & Hd' & Hn').
  rewrite Hp, Hd' in Hd. simplify_eq.
  pose proof (control_run_nonce _ _ _ _ _ Hrun Hi) as Hni.
  pose proof (control_run_nonce _ _ _ _ _ Hrun Hj) as Hnj.
  rewrite Hn, <-Hn' in Hni. by apply Hne, (NoDup_lookup _ _ _ _ Hnd Hni Hnj).
Qed.

(** *** What leaves the enclave *)

Lemma verify_payload_Ok pk d p sig :
  verify_payload_signature pk d p sig = Ok tt <-> verify_control_signature pk d p sig = Ok tt.
Proof. unfold verify_payload_signature. apply map_err_Ok. Qed.

(** What the checks of an upgrade established. *)
Record upgrade_checked (env : CommandEnv) (pk : VerifyingKey) (p sig : bytes) (delay : Z)
    (pl : UpgradePayload) (att : ValidatedAttestation) : Prop := {
  uc_signed : verify_control_signature pk Dom_UpgradePayload p sig = Ok tt;
  uc_decoded : decode_canonical p = Ok pl;
  uc_window : up_valid_from pl + UPGRADE_WINDOW_MIN <= up_valid_until pl;
  uc_delay : 0 < delay -> violates_min_upgrade_delay (up_valid_from pl) (ev_now env) delay = false;
  uc_attested : build_chain_attestation sha256 (ev_nsm env) p (ev_random env) = Ok att;
  uc_from : va_identity att = up_from pl;
}.

Lemma prepare_checks_Ok env pk p sig delay pl att :
  prepare_checks sha256 env pk p sig delay = Ok (pl, att) <-> upgrade_checked env pk p sig delay pl att.
Proof.
  unfold prepare_checks. split.
  - intros Hc. destruct (verify_payload_signature pk _ p sig) as [[]|] eqn:Es; [|done]. cbn [map_err] in Hc.
    apply verify_payload_Ok in Es. destruct (decode_canonical p) as [pl'|] eqn:Ed; [|done]. cbn [map_err] in Hc.
    unfold upgrade_window_is_valid in Hc.
    destruct (Z.leb_spec UPGRADE_WINDOW_MIN (up_valid_until pl' - up_valid_from pl')); [|done].
    cbn [negb] in Hc. destruct ((0 <? delay) && _) eqn:Edelay; [by destruct (earliest_acceptable _ _)|].
    destruct (build_chain_attestation _ _ _ _) as [att'|] eqn:Ea; [|done]. cbn [map_err] in Hc.
    case_bool_decide as Hid; [|done]. simpl in Hc. simplify_eq. split; try done; [lia|].
    intros Hpos. rewrite (proj2 (Z.ltb_lt 0 delay) Hpos) in Edelay. by simpl in Edelay.
  - intros [Hs Hd Hw Hdl Ha Hf]. rewrite (proj2 (verify_payload_Ok _ _ _ _) Hs). cbn [map_err].
    rewrite Hd. cbn [map_err]. unfold upgrade_window_is_valid.
    rewrite (proj2 (Z.leb_le _ _)) by lia. cbn [negb].
    destruct (Z.ltb_spec 0 delay) as [Hpos|]; cbn [andb].
    + rewrite (Hdl Hpos), Ha. cbn [map_err]. by rewrite bool_decide_true.
    + rewrite Ha. cbn [map_err]. by rewrite bool_decide_true.
Qed.

Lemma prepare_checks_Err env pk p sig delay reply :
  prepare_checks sha256 env pk p sig delay = Err reply -> forall m, reply <> Success m.
Proof.
  unfold prepare_checks. destruct (verify_payload_signature pk _ p sig); [|by intros [= <-]].
  destruct (decode_canonical p); [|by intros [= <-]]. cbn [map_err].
  destruct (upgrade_window_is_valid _ _); [|by intros [= <-]]. cbn [negb].
  destruct ((0 <? delay) && _); [destruct (earliest_acceptable _ _); by intros [= <-]|].
  destruct (build_chain_attestation _ _ _ _) as [att|]; [|by intros [= <-]]. cbn [map_err].
  case_bool_decide; [done|by intros [= <-]].
Qed.

(** The delay check on a payload every other check accepts. *)
Lemma prepare_checks_delayed env pk p sig delay pl att :
  0 < delay -> upgrade_checked env pk p sig 0 pl att ->
  prepare_checks sha256 env pk p sig delay =
  if violates_min_upgrade_delay (up_valid_from pl) (ev_now env) delay then
    Err (match earliest_acceptable (ev_now env) delay with
         | Some earliest => Refused (Msg_MinDelay (up_valid_from pl) delay (ev_now env) earliest)
         | None => Panicked
         end)
  else Ok (pl, att).
Proof.
  intros Hpos [Hs Hd Hw _ Ha Hf]. unfold prepare_checks.
  rewrite (proj2 (verify_payload_Ok _ _ _ _) Hs). cbn [map_err]. rewrite Hd. cbn [map_err].
  unfold upgrade_window_is_valid. rewrite (proj2 (Z.leb_le _ _)) by lia. cbn [negb].
  rewrite (proj2 (Z.ltb_lt 0 delay) Hpos). cbn [andb].
  destruct (violates_min_upgrade_delay _ _ _); [done|]. rewrite Ha. cbn [map_err].
  by rewrite bool_decide_true.
Qed.

(** C38: the measured delay is enforced, exactly. Take a payload every other
    check of [PrepareUpgrade] accepts, and a configured delay. When the
    activation is earlier than the enclave's own clock plus the delay less a
    minute of tolerance, the command is refused with that instant in its
    message and changes nothing: no re-key, no link to the host. When the delay
    runs past the last representable instant the command also fails and
    changes nothing, whatever the activation. Otherwise the delay makes no
    difference at all: the command does what it does with no delay
    configured. *)
Theorem min_delay_is_enforced `{!ChronoRange} env pk p sig rk delay pl att (st : State) r st' :
  0 < delay -> MIN_UTC + seconds DELAY_SKEW_TOLERANCE_SECS <= ev_now env ->
  upgrade_checked env pk p sig 0 pl att ->
  prepare env pk p sig rk delay st = (r, st') ->
  let floor := ev_now env + seconds delay - seconds 60 in
  if decide (MAX_UTC < ev_now env + seconds delay) then (forall m, r <> Success m) /\ st' = st
  else if decide (up_valid_from pl < floor) then
    r = Refused (Msg_MinDelay (up_valid_from pl) delay (ev_now env) floor) /\ st' = st
  else prepare env pk p sig rk 0 st = (r, st').
Proof.
  intros Hpos Hnow Hck Hp floor.
  pose proof (delay_representable_iff (ev_now env) delay Hpos Hnow) as Hrep.
  pose proof (violates_min_delay_false (up_valid_from pl) (ev_now env) delay Hpos) as Hviol.
  assert (Hfloor : ev_now env + seconds (delay - 60) = floor) by (unfold floor, seconds; lia).
  rewrite Hfloor in Hviol. unfold run_prepare_upgrade in *.
  rewrite (proj2 (prepare_checks_Ok env pk p sig 0 pl att) Hck).
  rewrite (prepare_checks_delayed _ _ _ _ _ _ _ Hpos Hck) in Hp.
  destruct (violates_min_upgrade_delay _ _ _).
  - repeat case_decide; simplify_eq.
    + split; [|done]. by destruct (earliest_acceptable _ _).
    + rewrite earliest_acceptable_Some, Hfloor; [done..|]. apply Hrep. lia.
    + exfalso. assert (true = false); [|done]. apply Hviol. split; [apply Hrep|]; lia.
  - destruct (proj1 Hviol eq_refl) as [Hr Hge]. apply Hrep in Hr.
    by rewrite !decide_False by lia.
Qed.

(** The link an upgrade emits. *)
Definition upgrade_link (p sig : bytes) (att : ValidatedAttestation) : ChainLink :=
  mkChainLink None None Upgrade p (va_bytes att) (Some sig).

Lemma submit_host env link (st : State) r st' :
  submit_to_host env link st = (r, st') ->
  sv_host st' = sv_host st \/
  exists frame, chain_link_frame link = Ok frame /\ sv_host st' = sv_host st ++ [frame].
Proof.
  unfold submit_to_host, submit_chain_link_to_host.
  destruct (ev_submit env), (chain_link_frame link); intros; simplify_eq; simpl; eauto.
Qed.

Lemma submit_Ok env link (st : State) st' :
  submit_to_host env link st = (Ok tt, st') ->
  exists frame, chain_link_frame link = Ok frame /\ sv_host st' = sv_host st ++ [frame].
Proof.
  unfold submit_to_host, submit_chain_link_to_host.
  destruct (ev_submit env), (chain_link_frame link); intros; simplify_eq; simpl; eauto.
Qed.

(** The key tool ran to completion under a re-key's parameters. *)
Definition rekeyed (env : CommandEnv) (rk : option RekeyParams) (to : PinIdentity) (st st' : State) : Prop :=
  match rk with
  | None => sv_world st' = sv_world st
  | Some rk => exists vars w,
      inject_upgrade_kms_creds creds_from_reader (ev_host_cid env) (ev_creds env) = Ok vars /\
      prepare_upgrade (ev_tool env vars) (b64_encode (rk_new_public_key rk)) (rk_new_key_id rk)
        (lit (hex_encode (pcr0 (image_pcrs to)))) (lit (hex_encode (pcr1 (image_pcrs to))))
        (lit (hex_encode (pcr2 (image_pcrs to)))) (ev_new_passphrase env) (sv_world st) = (Ok tt, w) /\
      sv_world st' = w
  end.

Lemma run_tool_Ok env tool (st : State) st' :
  run_tool creds_from_reader env tool st = (Ok tt, st') ->
  exists vars, inject_upgrade_kms_creds creds_from_reader (ev_host_cid env) (ev_creds env) = Ok vars /\
    tool (ev_tool env vars) (sv_world st) = (Ok tt, sv_world st').
Proof.
  unfold run_tool. destruct (inject_upgrade_kms_creds _ _ _) as [vars|]; [|done].
  destruct (ev_spawns env); [|done]. destruct (tool _ _) as [[[]|] w] eqn:E; [|done].
  intros; simplify_eq. exists vars. by rewrite E.
Qed.

(** C17: an upgrade link leaves the enclave only after everything else. The
    host receives a link only if the payload is an upgrade payload signed by the
    control key, whose window is at least an hour, whose activation respects the
    measured delay and whose source is this enclave's attested identity, and, for
    a storage enclave, only after the re-key completed, under a key checked
    against the payload's target; success is reported only then, and a refused
    payload changes nothing at all. *)
Theorem upgrade_link_leaves_last env pk p sig rk delay (st : State) r st' :
  prepare env pk p sig rk delay st = (r, st') ->
  (exists pl att frame, upgrade_checked env pk p sig delay pl att /\
     chain_link_frame (upgrade_link p sig att) = Ok frame /\ sv_host st' = sv_host st ++ [frame] /\
     rekeyed env rk (up_to pl) st st') \/
  ((forall m, r <> Success m) /\ sv_host st' = sv_host st /\
   ((forall pl att, ~ upgrade_checked env pk p sig delay pl att) -> st' = st)).
Proof.
  unfold run_prepare_upgrade. intros Hp.
  destruct (prepare_checks sha256 env pk p sig delay) as [[pl att]|reply] eqn:Ec.
  2: { right. simplify_eq. split; [exact (prepare_checks_Err _ _ _ _ _ _ Ec)|done]. }
  apply prepare_checks_Ok in Ec.
  destruct (match rk with Some _ => _ | None => _ end) as [res st1] eqn:E1.
  assert (Hh1 : sv_host st1 = sv_host st).
  { destruct rk; [by apply run_tool_nonce in E1 as (_ & ? & _)|by simplify_eq]. }
  destruct res as [[]|e].
  2: { simplify_eq. right. split_and!; [done|done|]. intros Hno. by destruct (Hno pl att). }
  assert (Hr1 : rekeyed env rk (up_to pl) st st1).
  { destruct rk as [rk|]; [|by simplify_eq]. apply run_tool_Ok in E1 as (vars & Hi & Ht).
    exists vars, (sv_world st1). done. }
  destruct (submit_to_host env _ st1) as [res st2] eqn:E2.
  pose proof (submit_nonce _ _ _ _ _ E2) as (_ & Hw2 & _).
  assert (Hr2 : rekeyed env rk (up_to pl) st st2).
  { destruct rk; simpl in *; [|congruence]. destruct Hr1 as (vars & w & ? & ? & ?).
    exists vars, w. split_and!; congruence. }
  destruct (submit_host _ _ _ _ _ E2) as [Hs|(frame & Hf & Hs)]; rewrite Hh1 in Hs.
  - destruct res as [[]|]; simplify_eq.
    + apply submit_Ok in E2 as (frame & _ & Hs'). rewrite Hh1, Hs in Hs'. exfalso.
      by apply (f_equal length) in Hs'; rewrite length_app in Hs'; simpl in Hs'; lia.
    + right. split_and!; [done|done|]. intros Hno. by destruct (Hno pl att).
  - left. exists pl, att, frame. destruct res as [[]|]; simplify_eq; done.
Qed.

(** *** The synchronizer accepts the link *)

(** The device signs what it is given: its documents are genuine and carry the
    requested user data. *)
Definition honest_nsm (nsm : NsmDevice) : Prop :=
  forall nonce user_data d, nsm nonce (Some user_data) = Nsm_Document d ->
    exists doc, genuine_document AWS_NITRO_ROOT_CA_DER d doc /\ doc_user_data doc = Some user_data.

Lemma chain_attestation_validates nsm payload random att :
  honest_nsm nsm -> build_chain_attestation sha256 nsm payload random = Ok att ->
  exists v, validate_link_document sha256 (va_bytes att) payload = Ok v /\
    va_identity v = va_identity att.
Proof.
  unfold build_chain_attestation, chain_attestation, request_local. intros Hn Ha.
  destruct (nsm (Some random) (Some (sha256 payload))) as [|d| |] eqn:En; try done.
  destruct (decode_only d) as [doc|] eqn:Ed; [|done]. cbn [map_err] in Ha.
  apply map_err_Ok, from_doc_Ok in Ha as (i & Hi & ->). simpl.
  destruct (Hn _ _ _ En) as (doc' & Hg & Hu).
  assert (doc' = doc) as ->.
  { destruct Hg as (cose & _ & _ & _ & Hd & _). unfold decode_only in Ed. rewrite Hd in Ed.
    cbn in Ed. by injection Ed. }
  exists (mkValidated d i (doc_timestamp doc) (doc_user_data doc) (ChainLinkDoc true)). split; [|done].
  apply validate_chain_link_with_Ok. exists doc, true.
  rewrite open_document_Ok, from_doc_Ok. eauto 10.
Qed.

(** The synchronizer accepts what the enclave emits. The link of a
    checked upgrade passes the synchronizer's verification, inside its window,
    for a session of the target identity, under the enclave's control key; so
    an emitted upgrade is never one the pin cannot follow. *)
Theorem emitted_upgrade_link_is_accepted env pk p sig delay pl att now_ms :
  upgrade_checked env pk p sig delay pl att -> honest_nsm (ev_nsm env) ->
  vk_from_sec1_bytes (to_encoded_point pk) = Ok pk ->
  pin_key sha256 (up_to pl) <> pin_key sha256 (up_from pl) ->
  timestamp_millis (up_valid_from pl) <= now_ms <= timestamp_millis (up_valid_until pl) ->
  exists decoded verified,
    decode_transition_link sha256 (upgrade_link p sig att) = Ok decoded /\
    verify_transition_link sha256 skip_chain_compiled (upgrade_link p sig att) decoded
      (mkPcrKey (pin_key sha256 (up_to pl))) (to_encoded_point pk) false now_ms = Ok verified /\
    vt_old_key verified = mkPcrKey (pin_key sha256 (va_identity att)).
Proof.
  intros [Hs Hd Hw _ Ha Hf] Hn Hpk Hne Hnow.
  destruct (chain_attestation_validates _ _ _ _ Hn Ha) as (v & Hv & Hid).
  eexists (mkDecoded _ _), _. split_and!.
  - apply decode_transition_link_Ok. split_and!; [done|done|]. exists pl. done.
  - apply verify_transition_link_complete with (p := pl) (doc := v); simpl; try done.
    + intros [=]. done.
    + by exists sig, (to_encoded_point pk), pk.
    + unfold TRANSITION_CLOCK_TOLERANCE_MS. lia.
    + unfold TRANSITION_CLOCK_TOLERANCE_MS. lia.
    + congruence.
  - simpl. congruence.
Qed.

(** *** Revocations *)

(** What the synchronizer promises the control plane: an acknowledged
    revocation is in force. *)
Class RevocationOracle (in_force : ChainLink -> T -> Prop) : Prop :=
  rpc_revoke_in_force t link t' :
    rpc t (Rq_Revoke link) = (Completed (Ok RevokeOk), t') -> in_force link t'.

Lemma revoke_on_Ok server (t : T) link t' :
  revoke_on server t link = (Ok tt, t') -> rpc t (Rq_Revoke link) = (Completed (Ok RevokeOk), t').
Proof.
  unfold revoke_on, client_revoke. destruct (negb _); [done|].
  destruct (rpc t (Rq_Revoke link)) as [resp t1]. unfold expect.
  destruct resp as [[[]|[]]|]; simpl; try done; repeat case_match; intros; by simplify_eq.
Qed.

Lemma commit_Ok trust cp link (t t' : T) :
  commit_revocation skip_chain_compiled trust cp link t = Some (Ok tt, t') ->
  exists t0, rpc t0 (Rq_Revoke link) = (Completed (Ok RevokeOk), t').
Proof.
  unfold commit_revocation. generalize COMMIT_ATTEMPTS as fuel, (instant_now t + RETRY_BUDGET) as dl.
  intros fuel dl. revert t. induction fuel as [|fuel IH]; intros t; cbn [commit_loop]; [done|].
  destruct (revoke_attempt _ trust cp link t) as [[[]|[r|r]] t1] eqn:Ea; [|done|].
  - intros; simplify_eq. unfold revoke_attempt in Ea. destruct (dial_relay t) as [d t2].
    destruct (di_connect d) as [[]|]; try done. destruct (open_session _ _ _ _) as [c|]; [|done].
    exists t2. by apply revoke_on_Ok in Ea.
  - destruct (dl <=? _); [done|apply IH].
Qed.

Lemma revocation_reported_in_force `{!RevocationOracle in_force} env trust pk p sig rb (st : State) r st' :
  revoke env (Some trust) pk p sig rb st = Some (r, st') ->
  (exists att, in_force (mkChainLink None None Revocation p (va_bytes att) (Some sig)) (sv_sync st')) \/
  ((forall m, r <> Success m) /\ sv_world st' = sv_world st /\ sv_host st' = sv_host st).
Proof.
  unfold run_revoke_upgrade. intros Hr.
  destruct (verify_payload_signature _ _ _ _); [|simplify_eq; by right].
  destruct (decode_canonical p); [|simplify_eq; by right].
  destruct (build_chain_attestation _ _ _ _) as [att|]; [|simplify_eq; by right].
  destruct (commit_revocation _ _ _ _ _) as [[[[]|e] t]|] eqn:Ec; simpl in Hr; [|simplify_eq; by right|done].
  injection Hr as Hf. apply finish_nonce in Hf as [_ Hs]. left. exists att. rewrite Hs. simpl.
  apply commit_Ok in Ec as (t0 & Hrpc). by eapply rpc_revoke_in_force.
Qed.

(** A revocation is reported only once it is in force. When the enclave
    pins its storage to the synchronizer, the rollback of the re-key, the chain
    link and the success reply all come after the synchronizer acknowledged the
    revocation of exactly this payload; without the acknowledgement nothing has
    changed. *)
Theorem revocation_is_committed_first `{!RevocationOracle in_force} env trust pk p sig rb (st : State) r st' :
  revoke env (Some trust) pk p sig rb st = Some (r, st') ->
  (exists att, in_force (mkChainLink None None Revocation p (va_bytes att) (Some sig)) (sv_sync st')) \/
  ((forall m, r <> Success m) /\ sv_world st' = sv_world st /\ sv_host st' = sv_host st).
Proof. apply revocation_reported_in_force. Qed.

(** The clock only moves forward. *)
Class ForwardRelay : Prop := {
  relay_sleep d t : 0 <= d -> instant_now t + d <= instant_now (sleep d t);
  relay_dial t : instant_now t <= instant_now (dial_relay t).2;
  relay_rpc t q : instant_now t <= instant_now (rpc t q).2;
}.

Lemma attempt_forward `{!ForwardRelay} trust cp link (t : T) :
  instant_now t <= instant_now (revoke_attempt skip_chain_compiled trust cp link t).2.
Proof.
  unfold revoke_attempt. pose proof (relay_dial t) as Hd. destruct (dial_relay t) as [d t1]. simpl in Hd.
  destruct (di_connect d) as [[]|]; try done. destruct (open_session _ _ _ _); [|done].
  unfold revoke_on, client_revoke. destruct (negb _); [done|].
  pose proof (relay_rpc t1 (Rq_Revoke link)) as Hr.
  destruct (rpc t1 _) as [resp t2]. simpl in Hr. destruct (expect _ _ resp) as [[|[]]|]; simpl; try lia.
  destruct e; simpl; lia.
Qed.

Lemma commit_loop_total `{!ForwardRelay} fuel dl trust cp link (t : T) :
  Z.max 0 (dl - instant_now t) / RETRY_BACKOFF < Z.of_nat fuel ->
  is_Some (commit_loop skip_chain_compiled fuel dl trust cp link t).
Proof.
  revert t. induction fuel as [|fuel IH]; intros t Hf.
  { assert (0 <= Z.max 0 (dl - instant_now t) / RETRY_BACKOFF) by (apply Z.div_pos; [lia|done]). lia. }
  cbn [commit_loop]. pose proof (attempt_forward trust cp link t) as Ha.
  destruct (revoke_attempt _ trust cp link t) as [[|[]] t1]; simpl in Ha; [done|done|].
  destruct (Z.leb_spec dl (instant_now t1 + RETRY_BACKOFF)); [done|]. apply IH.
  pose proof (relay_sleep RETRY_BACKOFF t1 ltac:(done)) as Hs.
  enough (Z.max 0 (dl - instant_now (sleep RETRY_BACKOFF t1)) / RETRY_BACKOFF + 1
          <= Z.max 0 (dl - instant_now t) / RETRY_BACKOFF) by lia.
  rewrite <-Z.div_add by done. apply Z.div_le_mono; [done|]. unfold RETRY_BACKOFF in *. lia.
Qed.

(** Every control message is answered. However the synchronizer and its
    sessions behave, the revocation's retries end within 31 attempts, so the
    handler always returns a reply. *)
Theorem control_always_answers `{!ForwardRelay} env config payload signature (st : State) :
  exists r st', control env config payload signature st = Some (r, st').
Proof.
  enough (Hs : is_Some (control env config payload signature st)) by (destruct Hs as [[r st'] ?]; eauto).
  unfold handle_control. destruct (sc_control_public_key config) as [pk|]; [|done].
  destruct (verify_control_signature _ _ _ _) as [[]|[]]; [|done..].
  destruct (decode_canonical payload) as [cmd|]; [|done]. unfold run_command.
  destruct cmd as [p sig rk n|p sig rb n]; destruct (negb _); try done.
  unfold run_revoke_upgrade. destruct (verify_payload_signature _ _ _ _); [|done].
  destruct (decode_canonical p); [|done]. destruct (build_chain_attestation _ _ _ _) as [att|]; [|done].
  destruct (sc_synchronizer config) as [trust|]; [|done]. simpl.
  unfold commit_revocation.
  destruct (commit_loop_total COMMIT_ATTEMPTS (instant_now (sv_sync st) + RETRY_BUDGET) trust
    (to_encoded_point pk)
    (mkChainLink None None Revocation p (va_bytes att) (Some sig)) (sv_sync st)) as [[[|] t] Hc].
  - replace (Z.max 0 _) with RETRY_BUDGET by (unfold RETRY_BUDGET; lia). by vm_compute.
  - by rewrite Hc.
  - by rewrite Hc.
Qed.
End Flows.

(** ** The key tool's environment *)

(** The variable a process sees: the last one set on it, or inherited. *)
Definition tool_var (inherited : string -> option str) (vars : list (str * str)) (name : string)
    : option str :=
  match list_find (fun kv => kv.1 = lit name) (reverse vars) with
  | Some (_, kv) => Some kv.2
  | None => inherited name
  end.

Lemma filter_creds_env_keys creds vars :
  filter_creds_env creds = Ok vars ->
  Forall (fun kv => kv.1 ∈ ALLOWED_CREDS_ENV /\ (0 ∉ kv.2)) vars /\ vars.*1 = creds.*1.
Proof.
  revert vars. induction creds as [|[k v] creds IH]; intros vars; cbn [filter_creds_env].
  { intros [= <-]. done. }
  case_bool_decide as Hk; simpl; [|done]. destruct (from_utf8 v) as [value|]; simpl; [|done].
  unfold contains_char. case_bool_decide as Hz; [done|].
  destruct (filter_creds_env creds) as [rest|]; [|done]. intros [= <-].
  destruct (IH rest eq_refl) as [Hf Hm]. split; [by constructor|]. csimpl. by rewrite Hm.
Qed.

Lemma tool_var_last inherited vars name v :
  tool_var inherited (vars ++ [(lit name, v)]) name = Some v.
Proof.
  unfold tool_var. rewrite reverse_snoc. cbn [list_find fst].
  by rewrite decide_True.
Qed.

(** The host cannot steer the key tool through its credentials. On Nitro
    the tool runs only with variables of the allowlist and the region bridge,
    none holding a NUL, the region is not blank, and whatever else the tool
    inherits it never selects the plaintext mock transport; elsewhere no
    variable of the host is set at all. *)
Theorem host_credentials_are_confined decode cid conn vars inherited cid_file :
  inject_upgrade_kms_creds decode cid conn = Ok vars ->
  (cid <> 3 -> vars = []) /\
  (cid = 3 ->
   Forall (fun kv => (kv.1 ∈ ALLOWED_CREDS_ENV) \/ kv.1 = lit "KMS_AWS_REGION") vars /\
   (exists region, tool_var inherited vars "KMS_AWS_REGION" = Some region /\ trim region <> []) /\
   kms_transport (tool_var inherited vars) cid_file <> Ok KT_Mock).
Proof.
  unfold inject_upgrade_kms_creds. destruct (Z.eqb_spec cid 3) as [->|Hne]; simpl.
  2: { intros [= <-]. split; [done|by intros ->]. }
  destruct (pull_upgrade_kms_creds decode conn) as [creds|]; [|done].
  destruct (filter_creds_env creds) as [env|] eqn:Ef; [|done].
  destruct (env_region env) as [r|]; [|done]. case_bool_decide as Hr; [done|].
  intros [= <-]. split; [done|]. intros _. apply filter_creds_env_keys in Ef as [Hf _]. split_and!.
  - apply Forall_app. split; [|constructor; [by right|done]].
    eapply Forall_impl; [exact Hf|]. intros kv [? _]. by left.
  - exists r. split; [apply tool_var_last|done].
  - unfold kms_transport, select_transport. rewrite tool_var_last, bool_decide_false by done.
    cbn [ok_or]. by repeat (case_match; try done).
Qed.

(** ** The measured configuration *)

Section Config.
Context `{P256} (from_slice : bytes -> result ServerRawConfig string).
Context (base64_decode hex_decode : string -> option bytes) (SKIPS : bool).

Abbreviation started := (startup_config from_slice base64_decode hex_decode SKIPS).

Lemma load_pcrs_nonempty i l expected : l <> [] -> load_pcrs hex_decode i l = Ok expected -> expected <> [].
Proof.
  destruct l as [|h l]; [done|]. intros _. cbn [load_pcrs]. destruct (to_pcrs _ _); [|done]. cbn [map_err].
  destruct (load_pcrs _ _ _); [|done]. by intros [= <-].
Qed.

(** A server that takes control commands knows its synchronizer. If the
    measured configuration enables the synchronizer and the control channel is
    open, the server holds a non-empty list of measurements to check it against
    and the attestation mode of its own build, so no revocation can be reported
    without the synchronizer. *)
Theorem control_channel_knows_its_synchronizer bs raw section config k :
  from_slice bs = Ok raw -> src_synchronizer raw = Some section -> ss_enabled section = true ->
  started (File_Bytes bs) = Some config -> sc_control_public_key config = Some k ->
  exists trust, sc_synchronizer config = Some trust /\ rt_expected_pcrs trust <> [] /\
    rt_debug_attestation trust = SKIPS.
Proof.
  unfold startup_config, load, default_config. intros -> Hsec Hen Hst Hk. cbn [map_err] in Hst. rewrite Hsec in Hst.
  destruct (Bool.eqb_spec (ss_debug_attestation section) SKIPS) as [Hd|]; cbn [negb] in Hst; [|done].
  destruct (load_control_key _ _) as [key|e] eqn:Ek.
  2: { by destruct e; simplify_eq/=. }
  cbn [load_trust] in Hst. rewrite Hen in Hst.
  destruct (ss_expected_pcrs section) as [|h l] eqn:El; [by simplify_eq/=|].
  destruct (load_pcrs hex_decode 0 (h :: l)) as [expected|e] eqn:Ep.
  2: { by destruct e; simplify_eq/=. }
  simplify_eq. simpl. eexists. split_and!; [done| |done]. simpl.
  exact (load_pcrs_nonempty 0 (h :: l) expected ltac:(done) Ep).
Qed.
End Config.
