(* ===== verification/ServerCluster.v ===== *)
(** The control plane on the replicated service: the interface the revocation
    flow is proved against ([ServerProofs.RevocationOracle]) is discharged by
    the cluster ([ClientProofs.World]), so a reported revocation blocks the
    upgrade for ever; and the witnesses of the control plane's theorems. *)
From stdpp Require Import base gmap list strings.
From S2P Require Import Prelude Text Crypto CryptoProofs Identity Signing Attestation Chain ChainProofs Wire.
From S2P Require Import LocalAttestation StateMachine Store Service Client ClientProofs Server ServerProofs.
#[local] Open Scope Z_scope.

Section Cluster.
Context `{P256} `{NitroLib} `{Cryptsetup} `{Codecs} `{Chrono}.
Context `{Cbor ControlCommand} `{Cbor ChainLink} `{Cbor UpgradePayload} `{Cbor RevocationPayload}.
Context (sha256 : bytes -> bytes) (hex_encode : bytes -> string) (skip_chain_compiled : bool).
Context (to_encoded_point : VerifyingKey -> bytes).
Context (creds_from_reader : bytes -> result (list (str * bytes)) string).
(** What each dial of the relay meets. *)
Context (dialing : World -> Dialing).

#[local] Existing Instance World_clock.
#[local] Instance cluster_channel : RpcChannel World := World_channel sha256 skip_chain_compiled.
#[local] Instance cluster_relay : Relay World := {| dial_relay w := (dialing w, w) |}.

(** The revocation of the link a payload names holds in the replicated state,
    for the session's key. *)
Definition revocation_in_force (link : ChainLink) (w : World) : Prop :=
  exists pl, decode_canonical (cl_payload link) = Ok pl /\
    is_revoked (w_sm w) (w_session w) (rp_revokes_link pl) = true.

Lemma world_rpc_session w req r w' :
  world_rpc sha256 skip_chain_compiled w req = (r, w') -> w_session w' = w_session w.
Proof.
  unfold world_rpc. destruct (w_script w) as [|x rest]; [intros; by simplify_eq|].
  destruct (route_client_request _ _ _ _ _ _ _). destruct (x_fate x); intros; by simplify_eq.
Qed.

#[local] Instance cluster_revocations : RevocationOracle revocation_in_force.
Proof.
  intros w link w' Hr. cbn [rpc cluster_channel World_channel] in Hr.
  pose proof (world_rpc_session _ _ _ _ Hr) as Hs.
  apply world_rpc_answer in Hr as (sm0 & e & a & Hl & Ha); [|done].
  unfold on_leader in Hl. cbn [handle_on_leader] in Hl. unfold serve_revoke in Hl.
  destruct (get sm0 (w_session w)) as [ks|]; [|by simplify_eq].
  destruct (verify_revocation_link link _) as [h|] eqn:Ev; [|by simplify_eq].
  destruct (client_write _ _ _) as [[ks'|er] sm'] eqn:Ew.
  2: { simplify_eq. destruct er; simpl in Ha; discriminate. }
  simplify_eq. apply client_write_Ok in Ew as (before & _ & Ho). apply (apply_one_Applied sha256) in Ho.
  unfold verify_revocation_link in Ev. destruct (negb _); [done|].
  destruct (cl_signature link); [|done]. cbn [ok_or] in Ev.
  destruct (vk_from_sec1_bytes _); [|done]. cbn [map_err] in Ev.
  destruct (verify_control_signature _ _ _ _); [|done]. cbn [map_err] in Ev.
  destruct (decode_canonical (cl_payload link)) as [pl|] eqn:Ed; [|done]. simpl in Ev. simplify_eq.
  exists pl. by rewrite Hs.
Qed.

#[local] Instance cluster_forward : ForwardRelay (T := World).
Proof.
  split.
  - intros d t Hd. simpl. lia.
  - intros t. simpl. lia.
  - intros w q. cbn [rpc cluster_channel World_channel instant_now World_clock]. unfold world_rpc.
    destruct (w_script w) as [|x rest]; [simpl; lia|].
    destruct (route_client_request _ _ _ _ _ _ _). destruct (x_fate x); simpl; lia.
Qed.

Abbreviation revoke := (run_revoke_upgrade sha256 skip_chain_compiled to_encoded_point creds_from_reader
  (T := World)).

(** C16: a reported revocation blocks the upgrade for ever. When a pinned
    enclave answers a revocation with success, the cluster has revoked the link
    the signed payload names, and in no later state of the cluster can a
    transition out of this enclave's key presenting that link succeed. *)
Theorem reported_revocation_blocks_the_upgrade env trust pk p sig rb st m st' :
  revoke env (Some trust) pk p sig rb st = Some (Success m, st') ->
  exists pl, decode_canonical p = Ok pl /\
    forall sm new_key c, sm_later (w_sm (sv_sync st')) sm ->
      is_ok (apply sm (Op_Transition (w_session (sv_sync st')) new_key (rp_revokes_link pl) c)).1 = false.
Proof.
  intros Hr.
  pose proof (revocation_reported_in_force sha256 skip_chain_compiled to_encoded_point creds_from_reader
    env trust pk p sig rb st _ _ Hr) as [(att & pl & Hd & Hrev)|[Hno _]]; [|by destruct (Hno m)].
  exists pl. split; [exact Hd|]. intros sm new_key c Hl.
  destruct (apply sm _) as [[ks'|e] s] eqn:Ea; [|done]. exfalso.
  apply apply_Ok in Ea as (? & ? & _ & _ & _ & Hnot & _).
  pose proof (grows_revoked _ _ (sm_later_grows _ _ Hl) _ _ Hrev). congruence.
Qed.
End Cluster.

(** ** Witnesses *)

Module ServerDemo.
Import ChainProofs.Demo.
#[export] Existing Instances CryptoDemo.toy_cryptsetup CryptoDemo.toy_laws CryptoDemo.toy_codecs.

#[export] Instance toy_chrono : Chrono :=
  {| MIN_UTC := - 10 ^ 22; MAX_UTC := 10 ^ 22; MAX_DELTA_SECS := 9223372036854775 |}.

(** With the identity as digest, as for the cluster's demonstration. *)
Definition id_sha (l : bytes) : bytes := l.
Definition nsm (_ user_data : option bytes) : NsmResponse :=
  Nsm_Document (toy_document 0 1 (default [] user_data)).
Definition sign (d : SignedDomain) (m : bytes) : bytes := toy_tag 5 (signed_message d m).

Definition prepare_cmd : ControlCommand := PrepareUpgrade [20] (sign Dom_UpgradePayload [20]) None [1].
Definition revoke_cmd : ControlCommand := RevokeUpgrade [30] (sign Dom_RevocationPayload [30]) false [1].

#[export] Instance command_cbor : Cbor ControlCommand := {|
  encode c := match c with PrepareUpgrade _ _ _ _ => [40] | RevokeUpgrade _ _ _ _ => [41] end;
  from_reader bs := match bs with
                    | [40] => Ok prepare_cmd
                    | [41] => Ok revoke_cmd
                    | _ => Err "unknown"%string
                    end;
|}.
#[export] Instance link_cbor : Cbor ChainLink := {|
  encode l := cl_payload l;
  from_reader _ := Err "unused"%string;
|}.

Definition creds_of (_ : bytes) : result (list (str * bytes)) string :=
  Ok [(lit "AWS_REGION", lit "eu-west-1")].
Definition point (k : VerifyingKey (P256 := toy_P256)) : bytes := [k].

(** A key library that accepts the 65-byte form. *)
Definition sec1_P256 : P256 := {|
  SigningKey := Z; VerifyingKey := Z; Signature := bytes;
  sk_verifying_key k := k; sk_sign _ m := m; normalize_s _ := None;
  sig_to_bytes s := s; sig_from_slice := Some;
  vk_from_sec1_bytes l := Ok (default 0 (l !! 1%nat)); vk_verify _ _ _ := false;
|}.

Definition demo_env (fresh : Z) : CommandEnv :=
  mkCommandEnv [fresh] 0 nsm [] 2 (Err "none"%string) true (fun _ => CryptoDemo.running)
    CryptoDemo.new_pass (Submit_Ack CHAIN_LINK_ACK).

Definition demo_dial (_ : World) : Dialing :=
  mkDialing (Some true) (Ok [9])
    (fun nonce ud => Ok (mkValidated [] (demo_identity 1 0) 1000000 (Some ud) (Session true)))
    (Ok tt) (Ok (Authenticate (toy_document 9 3 []) 1 {[ "revocation"%string ]})) 500 false.

Definition config : ServerConfig := mkServerConfig _ (Some 5) 600 None.
Definition trust : RevocationTrust := mkRevocationTrust [image_pcrs (demo_identity 3 0)] false.

(** The enclave's key holds a pin in the cluster. *)
Definition cluster : World :=
  mkWorld demo_registered 0 (demo_key_of 1) [5] [ClientDemo.answered_in 5] [].
Definition start : ServerState (T := World) := mkServerState [1] CryptoDemo.w0 [] cluster.

#[export] Existing Instance World_clock.
#[export] Instance demo_channel : RpcChannel World :=
  cluster_channel (H := toy_P256) (H0 := toy_NitroLib) id_sha false.
#[export] Instance demo_relay : Relay World := cluster_relay demo_dial.

Definition control (fresh : Z) :=
  handle_control (H := toy_P256) (H0 := toy_NitroLib) id_sha demo_hex_encode false point creds_of
    (demo_env fresh) config.

Definition handled (fresh : Z) (st : ServerState) : Handled :=
  let payload := [40] in
  let signature := sign Dom_ControlCommand payload in
  let rs := default (Panicked, st) (control fresh payload signature st) in
  mkHandled st (demo_env fresh) payload signature rs.1 rs.2.

Definition first_message : Handled := handled 2 start.
Definition replay : Handled := handled 3 (hd_after first_message).

Example prepared_and_replayed :
  hd_reply first_message = Success Msg_PrepareCompleted /\ hd_reply replay = Refused Msg_StaleNonce /\
  sv_host (hd_after first_message) = [be_encode 4 1 ++ [20]].
Proof. split_and!; by_vm. Qed.

Definition revoked :=
  run_revoke_upgrade (H := toy_P256) (H0 := toy_NitroLib) id_sha false point creds_of (demo_env 2)
    (Some trust) 5 [30] (sign Dom_RevocationPayload [30]) false start.

Definition after_revocation : ServerState (T := World) := default start (snd <$> revoked).

Example revoked_in_cluster :
  revoked = Some (Success Msg_RevokeCompleted, after_revocation) /\
  is_revoked (w_sm (sv_sync after_revocation)) (demo_key_of 1) (toy_sha256 [20]) = true.
Proof. split; by_vm. Qed.
End ServerDemo.

#[local] Existing Instances toy_P256 toy_NitroLib ServerDemo.toy_chrono ServerDemo.command_cbor
  ServerDemo.link_cbor ServerDemo.demo_channel ServerDemo.demo_relay World_clock
  CryptoDemo.toy_cryptsetup CryptoDemo.toy_laws CryptoDemo.toy_codecs
  ChainProofs.Demo.upgrade_cbor ChainProofs.Demo.revocation_cbor.

Lemma control_command_runs_once_witness :
  only_rotated [3] (hd_before ServerDemo.replay) (hd_reply ServerDemo.replay)
    (hd_after ServerDemo.replay).
Proof.
  apply (control_command_runs_once ServerDemo.id_sha demo_hex_encode false ServerDemo.point
    ServerDemo.creds_of ServerDemo.config [1] [ServerDemo.first_message; ServerDemo.replay] 0 1
    ServerDemo.first_message ServerDemo.replay).
  - apply (run_cons _ _ _ _ _ _ ServerDemo.first_message); [by_vm|].
    apply (run_cons _ _ _ _ _ _ ServerDemo.replay); [by_vm|apply run_nil].
  - apply (bool_decide_eq_true_1 _). by_vm.
  - reflexivity.
  - reflexivity.
  - discriminate.
  - reflexivity.
  - exists 5, ServerDemo.prepare_cmd. split_and!; by_vm.
Defined.

Definition demo_payload : UpgradePayload := ChainProofs.Demo.upgrade "img-2" 1.
Definition demo_attestation : ValidatedAttestation :=
  mkValidated (toy_document 0 1 [20]) (demo_identity 1 0) 1000000 (Some [20]) Local.

Lemma demo_upgrade_checked :
  upgrade_checked ServerDemo.id_sha (ServerDemo.demo_env 2) 5 [20]
    (ServerDemo.sign Dom_UpgradePayload [20]) 600 demo_payload demo_attestation.
Proof. apply prepare_checks_Ok. by_vm. Qed.

#[local] Instance toy_chrono_range : ChronoRange.
Proof. split; vm_compute; congruence. Qed.

(** The same upgrade under a delay of ten minutes, and of twenty: the second
    asks for an activation the payload does not wait for. *)
Definition demo_prepare (delay : Z) : Reply * ServerState (T := World) :=
  run_prepare_upgrade ServerDemo.id_sha demo_hex_encode ServerDemo.creds_of (ServerDemo.demo_env 2) 5
    [20] (ServerDemo.sign Dom_UpgradePayload [20]) None delay ServerDemo.start.

Lemma demo_upgrade_checked_0 :
  upgrade_checked ServerDemo.id_sha (ServerDemo.demo_env 2) 5 [20]
    (ServerDemo.sign Dom_UpgradePayload [20]) 0 demo_payload demo_attestation.
Proof. apply prepare_checks_Ok. by_vm. Qed.

Lemma min_delay_is_enforced_witness :
  demo_prepare 600 = demo_prepare 0 /\
  demo_prepare 1200 =
    (Refused (Msg_MinDelay (seconds 1000) 1200 0 (seconds 1140)), ServerDemo.start).
Proof.
  split.
  - destruct (demo_prepare 600) as [r st] eqn:E.
    pose proof (min_delay_is_enforced (H := toy_P256) ServerDemo.id_sha demo_hex_encode
      ServerDemo.creds_of (ServerDemo.demo_env 2) 5 [20] (ServerDemo.sign Dom_UpgradePayload [20]) None
      600 demo_payload demo_attestation ServerDemo.start r st) as Hx.
    specialize (Hx eq_refl). specialize (Hx ltac:(vm_compute; discriminate)).
    specialize (Hx demo_upgrade_checked_0). specialize (Hx E). cbv zeta in Hx. rewrite !decide_False in Hx by (vm_compute; discriminate). by symmetry.
  - destruct (demo_prepare 1200) as [r st] eqn:E.
    pose proof (min_delay_is_enforced (H := toy_P256) ServerDemo.id_sha demo_hex_encode
      ServerDemo.creds_of (ServerDemo.demo_env 2) 5 [20] (ServerDemo.sign Dom_UpgradePayload [20]) None
      1200 demo_payload demo_attestation ServerDemo.start r st) as Hx.
    specialize (Hx eq_refl). specialize (Hx ltac:(vm_compute; discriminate)).
    specialize (Hx demo_upgrade_checked_0). specialize (Hx E). cbv zeta in Hx. rewrite decide_False in Hx by (vm_compute; discriminate).
    rewrite decide_True in Hx by (vm_compute; reflexivity). destruct Hx as [-> ->]. reflexivity.
Defined.

Lemma upgrade_link_leaves_last_witness :
  let r := run_prepare_upgrade ServerDemo.id_sha demo_hex_encode ServerDemo.creds_of
    (ServerDemo.demo_env 2) 5 [20] (ServerDemo.sign Dom_UpgradePayload [20]) None 600 ServerDemo.start in
  exists pl att frame,
    upgrade_checked ServerDemo.id_sha (ServerDemo.demo_env 2) 5 [20]
      (ServerDemo.sign Dom_UpgradePayload [20]) 600 pl att /\
    chain_link_frame (upgrade_link [20] (ServerDemo.sign Dom_UpgradePayload [20]) att) = Ok frame /\
    sv_host r.2 = [] ++ [frame].
Proof.
  intros r. assert (Hne : sv_host r.2 <> []) by (vm_compute; discriminate).
  destruct (upgrade_link_leaves_last (H := toy_P256) ServerDemo.id_sha demo_hex_encode ServerDemo.creds_of
    (ServerDemo.demo_env 2) 5 [20] (ServerDemo.sign Dom_UpgradePayload [20]) None 600 ServerDemo.start
    r.1 r.2 (surjective_pairing _)) as [(pl & att & frame & Hc & Hf & Hh & _)|(_ & He & _)].
  - exact (ex_intro _ pl (ex_intro _ att (ex_intro _ frame (conj Hc (conj Hf Hh))))).
  - exact (False_ind _ (Hne He)).
Defined.

Lemma emitted_upgrade_link_is_accepted_witness :
  exists decoded verified,
    decode_transition_link ServerDemo.id_sha
      (upgrade_link [20] (ServerDemo.sign Dom_UpgradePayload [20]) demo_attestation) = Ok decoded /\
    verify_transition_link ServerDemo.id_sha false
      (upgrade_link [20] (ServerDemo.sign Dom_UpgradePayload [20]) demo_attestation) decoded
      (mkPcrKey (pin_key ServerDemo.id_sha (up_to demo_payload))) [5] false 2000000 = Ok verified /\
    vt_old_key verified = mkPcrKey (pin_key ServerDemo.id_sha (va_identity demo_attestation)).
Proof.
  apply (emitted_upgrade_link_is_accepted (H := toy_P256) ServerDemo.id_sha false ServerDemo.point
    (ServerDemo.demo_env 2) 5 [20] (ServerDemo.sign Dom_UpgradePayload [20]) 600 demo_payload
    demo_attestation 2000000 demo_upgrade_checked).
  - intros nonce ud d [= <-]. exists (toy_doc (toy_document 0 1 ud)). split; [|reflexivity].
    exists (toy_document 0 1 ud), tt, tt, [4]. split_and!; reflexivity.
  - reflexivity.
  - vm_compute. discriminate.
  - vm_compute. split; discriminate.
Defined.

Lemma revocation_is_committed_first_witness :
  (exists att, revocation_in_force (mkChainLink None None Revocation [30] (va_bytes att)
      (Some (ServerDemo.sign Dom_RevocationPayload [30]))) (sv_sync ServerDemo.after_revocation)) \/
  ((forall m, Success Msg_RevokeCompleted <> Success m) /\
   sv_world ServerDemo.after_revocation = sv_world ServerDemo.start /\
   sv_host ServerDemo.after_revocation = sv_host ServerDemo.start).
Proof.
  apply (revocation_is_committed_first (H := toy_P256) (T := World) ServerDemo.id_sha false ServerDemo.point
    ServerDemo.creds_of
    (RevocationOracle0 := cluster_revocations ServerDemo.id_sha false) (ServerDemo.demo_env 2)
    ServerDemo.trust 5 [30] (ServerDemo.sign Dom_RevocationPayload [30]) false ServerDemo.start).
  exact (proj1 ServerDemo.revoked_in_cluster).
Defined.

Lemma reported_revocation_blocks_the_upgrade_witness :
  exists pl, decode_canonical [30] = Ok pl /\
    forall sm new_key c, sm_later (w_sm (sv_sync ServerDemo.after_revocation)) sm ->
      is_ok (apply sm (Op_Transition (w_session (sv_sync ServerDemo.after_revocation)) new_key
                         (rp_revokes_link pl) c)).1 = false.
Proof.
  apply (reported_revocation_blocks_the_upgrade (H := toy_P256) ServerDemo.id_sha false ServerDemo.point
    ServerDemo.creds_of ServerDemo.demo_dial (ServerDemo.demo_env 2) ServerDemo.trust 5 [30]
    (ServerDemo.sign Dom_RevocationPayload [30]) false ServerDemo.start Msg_RevokeCompleted).
  exact (proj1 ServerDemo.revoked_in_cluster).
Defined.

Lemma control_always_answers_witness :
  exists r st', ServerDemo.control 2 [41] (ServerDemo.sign Dom_ControlCommand [41]) ServerDemo.start
    = Some (r, st').
Proof.
  apply (control_always_answers (H := toy_P256) ServerDemo.id_sha demo_hex_encode false ServerDemo.point
    ServerDemo.creds_of
    (H11 := cluster_forward ServerDemo.id_sha false ServerDemo.demo_dial)).
Defined.

Lemma host_credentials_are_confined_witness :
  let vars := [(lit "AWS_REGION", lit "eu-west-1"); (lit "KMS_AWS_REGION", lit "eu-west-1")] in
  kms_transport (tool_var (fun _ => None) vars) (Some (lit "2")) <> Ok KT_Mock.
Proof.
  apply (host_credentials_are_confined ServerDemo.creds_of 3 (Ok [0; 0; 0; 1; 9])
    [(lit "AWS_REGION", lit "eu-west-1"); (lit "KMS_AWS_REGION", lit "eu-west-1")] (fun _ => None)
    (Some (lit "2"))).
  - by_vm.
  - reflexivity.
Defined.

Lemma control_channel_knows_its_synchronizer_witness :
  exists trust, Some (mkRevocationTrust [mkPcrs [3] [3] [3]] false) = Some trust /\
    rt_expected_pcrs trust <> [] /\ rt_debug_attestation trust = false.
Proof.
  pose (section := mkServerSection true [mkPcrsHex "" "" ""] false).
  apply (control_channel_knows_its_synchronizer (H := ServerDemo.sec1_P256)
    (fun _ => Ok (mkServerRawConfig (Some "key"%string) 0 (Some section)))
    (fun _ => Some (4 :: replicate 64 0)) (fun _ => Some [3]) false []
    (mkServerRawConfig (Some "key"%string) 0 (Some section)) section
    (mkServerConfig ServerDemo.sec1_P256 (Some 0) 0 (Some (mkRevocationTrust [mkPcrs [3] [3] [3]] false))) 0).
  all: reflexivity.
Defined.

(** A delay inside [i64] but beyond the range of durations: the refusal's own
    message panics, and the command gets no reply. *)
Example unrepresentable_delay_panics :
  prepare_checks ServerDemo.id_sha (ServerDemo.demo_env 2) 5 [20]
    (ServerDemo.sign Dom_UpgradePayload [20]) (10 ^ 16) = Err Panicked /\
  violates_min_upgrade_delay (seconds 1000) 0 (10 ^ 16) = true.
Proof. split; by_vm. Qed.
