(* ===== verification/Transport.v ===== *)
(** The encrypted CBOR transport of [enclavia-protocol/src/noise.rs]: Noise
    messages behind a four-byte length, written in pieces a vsock accepts.

    The Noise library is the class [Noise], with what a pair of transport states
    promises as [NoiseLaws].  [send] yields the writes of one message.  The
    receiving side is a state machine over the bytes in the socket and the bytes
    the current call of [receive] has already taken from it: the bytes arrive in
    any pieces, a call is polled when some are there, and a call may be dropped
    before it returns, as [tokio::select!] drops the branch that lost. *)
From stdpp Require Import base list strings.
From S2P Require Import Prelude Text Signing.
#[local] Open Scope Z_scope.

(** ** The library *)

Class Noise := {
  NoiseState : Type;
  write_message : NoiseState -> bytes -> option (bytes * NoiseState);
  read_message : NoiseState -> bytes -> option (bytes * NoiseState);
}.

(** A sender and a receiver of one direction stay in step as long as the
    receiver reads what the sender wrote, in order; a message is at most 65535
    bytes, and a longer one is refused. *)
Class NoiseLaws `{Noise} (paired : NoiseState -> NoiseState -> Prop) : Prop := {
  noise_roundtrip s r p c s' : paired s r -> write_message s p = Some (c, s') ->
    exists r', read_message r c = Some (p, r') /\ paired s' r';
  noise_length s p c s' : write_message s p = Some (c, s') -> Z.of_nat (length c) <= 65535;
}.

(** ** Sending *)

Definition VSOCK_WRITE_CHUNK : nat := 32 * 1024.
Definition READ_BUFFER : Z := 65535.

(** [slice::chunks]; every chunk takes at least one byte. *)
Fixpoint chunks_fuel (fuel : nat) (n : nat) (l : bytes) : list bytes :=
  match fuel, l with
  | S fuel, _ :: _ => take n l :: chunks_fuel fuel n (drop n l)
  | _, _ => []
  end.
Definition chunks (n : nat) (l : bytes) : list bytes := chunks_fuel (length l) n l.

(** [write_all_vsock], as its writes. *)
Definition write_all_vsock (bs : bytes) : list bytes := chunks VSOCK_WRITE_CHUNK bs.

Section Send.
Context `{Noise} {A : Type} `{Cbor A}.

(** The frame of a message, or no frame when Noise refuses it. *)
Definition seal (st : NoiseState) (message : A) : option (bytes * NoiseState) :=
  write_message st (encode message).

(** The writes of [send]. *)
Definition send (st : NoiseState) (message : A) : option (list bytes * NoiseState) :=
  match seal st message with
  | Some (ct, st) => Some (be_encode 4 (Z.of_nat (length ct)) :: write_all_vsock ct, st)
  | None => None
  end.

(** Consecutive messages. *)
Fixpoint send_all (st : NoiseState) (messages : list A) : option (list bytes * NoiseState) :=
  match messages with
  | [] => Some ([], st)
  | m :: messages =>
      match send st m with
      | Some (w, st) =>
          match send_all st messages with
          | Some (ws, st) => Some (w ++ ws, st)
          | None => None
          end
      | None => None
      end
  end.
End Send.

(** ** Receiving *)

Inductive ReceiveError : Type :=
| RE_TooLarge (len : Z)
| RE_Decrypt
| RE_Decode (detail : string).

(** The receiving end: the Noise state, the bytes in the socket, the bytes the
    current call has read, the messages returned so far, and the error that
    ended the connection. *)
Record Receiver `{Noise} (A : Type) := mkReceiver {
  rx_noise : NoiseState;
  rx_socket : bytes;
  rx_taken : bytes;
  rx_messages : list A;
  rx_error : option ReceiveError;
}.
Arguments mkReceiver {_ _}.
Arguments rx_noise {_ _}.
Arguments rx_socket {_ _}.
Arguments rx_taken {_ _}.
Arguments rx_messages {_ _}.
Arguments rx_error {_ _}.

Inductive RxEvent : Type :=
| Arrive (segment : bytes)
| Poll
| Cancel.

Section Receive.
Context `{Noise} {A : Type} `{Cbor A}.

Abbreviation Rx := (Receiver A).

(** The end of [receive], on a whole frame. *)
Definition open_frame (st : NoiseState) (frame : bytes) : result (A * NoiseState) ReceiveError :=
  match read_message st frame with
  | None => Err RE_Decrypt
  | Some (payload, st) => let? m := map_err RE_Decode (from_reader payload) in Ok (m, st)
  end.

(** One poll of [receive]: [read_exact] of the length, then of the body. A
    pending call keeps what it took. *)
Definition poll (rx : Rx) : Rx :=
  let all := rx_taken rx ++ rx_socket rx in
  let pending := mkReceiver (rx_noise rx) [] all (rx_messages rx) None in
  if (length all <? 4)%nat then pending
  else
    let len := be_decode (take 4 all) in
    let rest := drop 4 all in
    if READ_BUFFER <? len
    then mkReceiver (rx_noise rx) rest [] (rx_messages rx) (Some (RE_TooLarge len))
    else if Z.of_nat (length rest) <? len then pending
    else
      match open_frame (rx_noise rx) (take (Z.to_nat len) rest) with
      | Ok (m, st) => mkReceiver st (drop (Z.to_nat len) rest) [] (rx_messages rx ++ [m]) None
      | Err e => mkReceiver (rx_noise rx) (drop (Z.to_nat len) rest) [] (rx_messages rx) (Some e)
      end.

(** A connection that failed takes no further step. *)
Definition rx_step (rx : Rx) (e : RxEvent) : Rx :=
  match rx_error rx with
  | Some _ => rx
  | None =>
      match e with
      | Arrive seg => mkReceiver (rx_noise rx) (rx_socket rx ++ seg) (rx_taken rx) (rx_messages rx) None
      | Poll => poll rx
      | Cancel => mkReceiver (rx_noise rx) (rx_socket rx) [] (rx_messages rx) None
      end
  end.

Definition rx_run (rx : Rx) (es : list RxEvent) : Rx := fold_left rx_step es rx.

Definition fresh (st : NoiseState) : Rx := mkReceiver st [] [] [] None.
End Receive.

Definition arrivals (es : list RxEvent) : bytes :=
  concat (omap (fun e => match e with Arrive seg => Some seg | _ => None end) es).

(** ** Writes *)

Lemma chunks_fuel_spec fuel n l :
  (length l <= fuel)%nat -> (0 < n)%nat ->
  concat (chunks_fuel fuel n l) = l /\
  Forall (fun c => (0 < length c <= n)%nat) (chunks_fuel fuel n l).
Proof.
  revert l. induction fuel as [|fuel IH]; intros l Hl Hn; destruct l as [|x l]; try done; [simpl in Hl; lia|].
  cbn [chunks_fuel]. destruct (IH (drop n (x :: l))) as [Hc Hf]; [rewrite length_drop; simpl in *; lia|done|].
  split; [simpl concat; by rewrite Hc, take_drop|]. constructor; [|done].
  rewrite length_take. simpl. lia.
Qed.

Section Facts.
Context `{Noise, !NoiseLaws paired} {A : Type} `{Cbor A, !CborLaws A}.

Lemma send_writes st (m : A) ws st' :
  send st m = Some (ws, st') ->
  exists ct, seal st m = Some (ct, st') /\
    concat ws = be_encode 4 (Z.of_nat (length ct)) ++ ct /\ Z.of_nat (length ct) <= 65535 /\
    Forall (fun w => (length w <= VSOCK_WRITE_CHUNK)%nat) ws.
Proof.
  unfold send. destruct (seal st m) as [[ct s]|] eqn:Es; [|done]. intros; simplify_eq.
  exists ct. split; [done|]. unfold write_all_vsock, chunks.
  destruct (chunks_fuel_spec (length ct) VSOCK_WRITE_CHUNK ct) as [Hc Hf]; [done|unfold VSOCK_WRITE_CHUNK; lia|].
  split_and!; [cbn [concat]; by rewrite Hc|by apply noise_length in Es|].
  constructor; [rewrite be_encode_length; unfold VSOCK_WRITE_CHUNK; lia|].
  eapply Forall_impl; [exact Hf|]. simpl. lia.
Qed.

Lemma send_all_cons st (m : A) ms ws st' :
  send_all st (m :: ms) = Some (ws, st') ->
  exists ct st1 ws', seal st m = Some (ct, st1) /\ send_all st1 ms = Some (ws', st') /\
    concat ws = be_encode 4 (Z.of_nat (length ct)) ++ ct ++ concat ws' /\ Z.of_nat (length ct) <= 65535.
Proof.
  cbn [send_all]. destruct (send st m) as [[w st1]|] eqn:Es; [|done].
  destruct (send_all st1 ms) as [[ws' st2]|] eqn:Ea; [|done]. intros; simplify_eq.
  apply send_writes in Es as (ct & Hs & Hc & Hl & _). exists ct, st1, ws'.
  rewrite concat_app, Hc, <-app_assoc. done.
Qed.

(** ** The receiver keeps step with the sender *)

(** The messages received, those still on their way, and the bytes that carry
    them: taken by the call, in the socket, or to come ([future]). *)
Definition in_step (msgs : list A) (future : bytes) (rx : Receiver A) : Prop :=
  rx_error rx = None /\ exists rest s ws s', paired s (rx_noise rx) /\ send_all s rest = Some (ws, s') /\
    rx_messages rx ++ rest = msgs /\ rx_taken rx ++ rx_socket rx ++ future = concat ws.

Lemma read_whole_frame (all future ct tail : bytes) :
  Z.of_nat (length ct) <= 65535 -> (4 <= length all)%nat ->
  all ++ future = be_encode 4 (Z.of_nat (length ct)) ++ ct ++ tail ->
  be_decode (take 4 all) = Z.of_nat (length ct) /\ drop 4 all ++ future = ct ++ tail.
Proof.
  intros Hl H4 Heq. split.
  - assert (take 4 all = be_encode 4 (Z.of_nat (length ct))) as ->.
    { apply (f_equal (take 4)) in Heq. rewrite take_app_le in Heq by done. rewrite Heq.
      by rewrite take_app_length' by (by rewrite be_encode_length). }
    apply be_decode_encode_id. lia.
  - apply (f_equal (drop 4)) in Heq. rewrite drop_app_le in Heq by done. rewrite Heq.
    by rewrite drop_app_length' by (by rewrite be_encode_length).
Qed.

Lemma open_sealed s r (m : A) ct s' :
  paired s r -> seal s m = Some (ct, s') -> exists r', open_frame r ct = Ok (m, r') /\ paired s' r'.
Proof.
  intros Hp Hs. destruct (noise_roundtrip _ _ _ _ _ Hp Hs) as (r' & Hr & Hp').
  exists r'. unfold open_frame. rewrite Hr, (cbor_roundtrip m). done.
Qed.

Lemma poll_in_step msgs future rx :
  in_step msgs future rx -> in_step msgs future (poll rx).
Proof.
  intros (Herr & rest & s & ws & s' & Hp & Hs & Hm & Hb). unfold poll.
  set (all := rx_taken rx ++ rx_socket rx). rewrite app_assoc in Hb. fold all in Hb.
  assert (Hpend : in_step msgs future (mkReceiver (rx_noise rx) [] all (rx_messages rx) None)).
  { split; [done|]. exists rest, s, ws, s'. simpl. done. }
  destruct (Nat.ltb_spec (length all) 4) as [|H4]; [done|].
  destruct rest as [|m rest].
  { simpl in Hs. simplify_eq. simpl in Hb. apply (f_equal length) in Hb. rewrite length_app in Hb. simpl in Hb. lia. }
  apply send_all_cons in Hs as (ct & s1 & ws' & Hseal & Hs1 & Hc & Hl). rewrite Hc in Hb.
  destruct (read_whole_frame _ _ _ _ Hl H4 Hb) as [Hlen Hrest]. rewrite Hlen.
  rewrite (proj2 (Z.ltb_ge READ_BUFFER _)) by (unfold READ_BUFFER; lia).
  destruct (Z.ltb_spec (Z.of_nat (length (drop 4 all))) (Z.of_nat (length ct))) as [|Hge]; [done|].
  rewrite Nat2Z.id.
  assert (take (length ct) (drop 4 all) = ct) as ->.
  { apply (f_equal (take (length ct))) in Hrest. rewrite take_app_le in Hrest by lia.
    by rewrite take_app_length in Hrest. }
  destruct (open_sealed _ _ _ _ _ Hp Hseal) as (r' & -> & Hp').
  split; [done|]. exists rest, s1, ws', s'. simpl. split_and!; [done|done| |].
  - by rewrite <-app_assoc.
  - apply (f_equal (drop (length ct))) in Hrest. rewrite drop_app_le in Hrest by lia.
    by rewrite drop_app_length in Hrest.
Qed.

(** No dropped call had taken bytes. *)
Fixpoint no_loss (rx : Receiver A) (es : list RxEvent) : Prop :=
  match es with
  | [] => True
  | e :: es => (e = Cancel -> rx_taken rx = []) /\ no_loss (rx_step rx e) es
  end.

Lemma run_in_step msgs es future rx :
  in_step msgs (arrivals es ++ future) rx -> no_loss rx es -> in_step msgs future (rx_run rx es).
Proof.
  revert rx. induction es as [|e es IH]; intros rx Hin Hno; [done|].
  cbn [rx_run fold_left]. fold (rx_run (rx_step rx e) es). destruct Hno as [Hc Hno].
  apply IH; [|done]. destruct Hin as (Herr & rest & s & ws & s' & Hp & Hs & Hm & Hb).
  unfold rx_step. rewrite Herr. destruct e as [seg| |].
  - split; [done|]. exists rest, s, ws, s'. simpl. split_and!; try done.
    rewrite <-Hb. unfold arrivals. simpl. by rewrite <-!app_assoc.
  - apply poll_in_step. split; [done|]. by exists rest, s, ws, s'.
  - split; [done|]. exists rest, s, ws, s'. simpl. rewrite (Hc eq_refl) in Hb. done.
Qed.

(** With everything arrived, each poll returns the next message. *)
Lemma polls_drain msgs rx k :
  in_step msgs [] rx -> (length (rx_messages rx) + k = length msgs)%nat ->
  rx_messages (rx_run rx (replicate k Poll)) = msgs /\ rx_error (rx_run rx (replicate k Poll)) = None.
Proof.
  revert rx. induction k as [|k IH]; intros rx Hin Hk.
  - destruct Hin as (Herr & rest & s & ws & s' & _ & _ & Hm & _). cbn [replicate rx_run fold_left].
    split; [|done]. destruct rest; [by rewrite app_nil_r in Hm|].
    apply (f_equal length) in Hm. rewrite length_app in Hm. simpl in Hm. lia.
  - cbn [replicate rx_run fold_left]. fold (rx_run (rx_step rx Poll) (replicate k Poll)).
    pose proof Hin as Hin'. apply poll_in_step in Hin'.
    destruct Hin as (Herr & rest & s & ws & s' & Hp & Hs & Hm & Hb).
    unfold rx_step. rewrite Herr. apply IH; [done|].
    destruct rest as [|m rest].
    { rewrite app_nil_r in Hm. subst. lia. }
    apply send_all_cons in Hs as (ct & s1 & ws' & Hseal & Hs1 & Hc & Hl).
    rewrite app_assoc, Hc in Hb. unfold poll.
    assert (H4 : (4 <= length (rx_taken rx ++ rx_socket rx))%nat).
    { apply (f_equal length) in Hb. rewrite !length_app, be_encode_length in Hb. simpl in Hb.
      rewrite length_app. lia. }
    rewrite (proj2 (Nat.ltb_ge _ _) H4). destruct (read_whole_frame _ _ _ _ Hl H4 Hb) as [Hlen Hrest].
    rewrite Hlen, (proj2 (Z.ltb_ge READ_BUFFER _)) by (unfold READ_BUFFER; lia).
    rewrite app_nil_r in Hrest. rewrite Hrest, length_app.
    rewrite (proj2 (Z.ltb_ge (Z.of_nat _) _)) by lia. rewrite Nat2Z.id, take_app_length.
    destruct (open_sealed _ _ _ _ _ Hp Hseal) as (r' & -> & Hp'). simpl. rewrite length_app. simpl. lia.
Qed.

(** C39: messages arrive whole, once and in order, however the bytes are cut.
    If the sender's writes reach the receiver in any pieces, with polls in
    between, and no call is dropped while it holds bytes, then the messages
    returned are a prefix of those sent and there is no error; once all bytes
    have arrived, as many polls as messages are missing return them all. *)
Theorem messages_arrive_in_order s r (msgs : list A) ws s' es future :
  paired s r -> send_all s msgs = Some (ws, s') -> arrivals es ++ future = concat ws ->
  no_loss (fresh r) es ->
  let rx := rx_run (fresh r) es in
  rx_error rx = None /\ rx_messages rx `prefix_of` msgs /\
  (future = [] -> exists k, rx_messages (rx_run rx (replicate k Poll)) = msgs).
Proof.
  intros Hp Hs Ha Hno rx.
  assert (Hin : in_step msgs future rx).
  { apply run_in_step; [|done]. split; [done|]. exists msgs, s, ws, s'. by rewrite Ha. }
  pose proof Hin as (Herr & rest & _ & _ & _ & _ & _ & Hm & _). split_and!; [done|by exists rest|].
  intros ->. exists (length rest). apply polls_drain; [done|]. by rewrite <-Hm, length_app.
Qed.
End Facts.

(** ** A concrete transport *)

Module NoiseDemo.
(** Messages are numbered; the tag is the number. *)
#[export] Instance toy_noise : Noise := {|
  NoiseState := Z;
  write_message n p := if Z.of_nat (length p) <? 65535 then Some (n :: p, n + 1) else None;
  read_message n c := match c with t :: p => if t =? n then Some (p, n + 1) else None | [] => None end;
|}.

#[export] Instance toy_noise_laws : NoiseLaws (fun s r : NoiseState => s = r).
Proof.
  split.
  - intros s r p c s' ->. cbn. destruct (_ <? _); [|done]. intros [= <- <-].
    exists (r + 1). by rewrite Z.eqb_refl.
  - intros s p c s'. cbn. destruct (Z.ltb_spec (Z.of_nat (length p)) 65535); [|done].
    intros [= <- <-]. cbn [length]. lia.
Qed.

#[export] Instance toy_bytes_cbor : Cbor bytes := {| encode b := b; from_reader := Ok |}.
#[export] Instance toy_bytes_cbor_laws : CborLaws bytes := fun v => eq_refl.

Definition start : @NoiseState toy_noise := 7.
Definition finish : @NoiseState toy_noise := 9.

(** Two messages, cut inside the first length and inside the second body. *)
Definition wire : bytes := [0; 0; 0; 3; 7; 10; 11; 0; 0; 0; 2; 8; 12].
Definition pieces : list RxEvent :=
  [Arrive [0; 0]; Poll; Arrive [0; 3; 7; 10; 11; 0; 0; 0; 2; 8]; Poll; Poll; Arrive [12]].

Definition sent := send_all (A := bytes) start [[10; 11]; [12]].

Example sent_is_wire : (fun x => concat x.1) <$> sent = Some wire.
Proof. reflexivity. Qed.

(** The same bytes, when the call that took the first half of a length is
    dropped because another branch of the [select!] was ready: the receiver is
    out of step with the frames and the connection fails. *)
Example dropped_call_loses_the_frame :
  rx_error (rx_run (A := bytes) (fresh start)
    [Arrive [0; 0]; Poll; Cancel; Arrive (drop 2 wire); Poll]) = Some (RE_TooLarge 198410).
Proof. reflexivity. Qed.
End NoiseDemo.

#[local] Existing Instances NoiseDemo.toy_noise NoiseDemo.toy_noise_laws NoiseDemo.toy_bytes_cbor
  NoiseDemo.toy_bytes_cbor_laws.

Lemma messages_arrive_in_order_witness :
  let rx := rx_run (A := bytes) (fresh NoiseDemo.start) NoiseDemo.pieces in
  rx_error rx = None /\ rx_messages rx `prefix_of` [[10; 11]; [12]] /\
  (@nil Z = [] -> exists k, rx_messages (rx_run rx (replicate k Poll)) = [[10; 11]; [12]]).
Proof.
  apply (messages_arrive_in_order NoiseDemo.start NoiseDemo.start [[10; 11]; [12]]
    [[0; 0; 0; 3]; [7; 10; 11]; [0; 0; 0; 2]; [8; 12]] NoiseDemo.finish NoiseDemo.pieces []).
  - reflexivity.
  - reflexivity.
  - reflexivity.
  - by vm_compute.
Defined.
