(* ===== verification/NoiseHandshake.v ===== *)
(** The Noise_NN handshake: over a byte stream
    ([enclavia-protocol/src/noise.rs], both roles) and over WebSocket frames (the
    SDK's [enclavia/src/noise.rs]).

    The two messages have fixed sizes, and the stream readers take exactly those,
    so a handshake does not depend on how the bytes are cut and takes nothing of
    what a peer sends after its message.  The Noise library's handshake state is a
    parameter; its documented behaviour is [HandshakeLaws]. *)
From stdpp Require Import base list strings.
From S2P Require Import Prelude Transport.
#[local] Open Scope Z_scope.

Definition NOISE_NN_MSG1_LEN : nat := 32.
Definition NOISE_NN_MSG2_LEN : nat := 32 + 16.

(** Snow's [HandshakeState]; a transport state has a sending and a receiving
    direction. *)
Class HandshakeLib `{Noise} := {
  HandshakeState : Type;
  build_initiator : bytes -> HandshakeState;
  build_responder : bytes -> HandshakeState;
  hs_write : HandshakeState -> bytes -> option (bytes * HandshakeState);
  hs_read : HandshakeState -> bytes -> option (bytes * HandshakeState);
  get_handshake_hash : HandshakeState -> bytes;
  into_transport_mode : HandshakeState -> option (NoiseState * NoiseState);
}.

(** Of two honest parties, with any randomness: the first message is a 32-byte
    key, the second a key and a tag, and both end with one hash and with
    directions that are paired. *)
Class HandshakeLaws `{HandshakeLib} (paired : NoiseState -> NoiseState -> Prop) : Prop := nn_agrees :
  forall si sr, exists m1 i1 r1 m2 r2 i2 ti tr,
    hs_write (build_initiator si) [] = Some (m1, i1) /\ length m1 = NOISE_NN_MSG1_LEN /\
    hs_read (build_responder sr) m1 = Some ([], r1) /\
    hs_write r1 [] = Some (m2, r2) /\ length m2 = NOISE_NN_MSG2_LEN /\
    hs_read i1 m2 = Some ([], i2) /\ get_handshake_hash i2 = get_handshake_hash r2 /\
    into_transport_mode i2 = Some ti /\ into_transport_mode r2 = Some tr /\
    paired ti.1 tr.2 /\ paired tr.1 ti.2.

Inductive HandshakeError : Type :=
| HE_Noise
| HE_Length (written expected : nat)
| HE_Timeout
| HE_Io
| HE_Closed.

(** What arrives of the peer's stream before the deadline, and whether it then
    ended or stalled. *)
Record Incoming := mkIncoming { in_bytes : bytes; in_ended : bool }.

Definition read_handshake_message (inp : Incoming) (n : nat) : result (bytes * bytes) HandshakeError :=
  if (length (in_bytes inp) <? n)%nat then Err (if in_ended inp then HE_Io else HE_Timeout)
  else Ok (take n (in_bytes inp), drop n (in_bytes inp)).

Definition check_handshake_len (written expected : nat) : result unit HandshakeError :=
  if negb (written =? expected)%nat then Err (HE_Length written expected) else Ok tt.

Section Handshake.
Context `{HandshakeLib}.

(** The session: the two directions, the handshake's hash, and the bytes left on
    the stream. *)
Record Session := mkSession { se_transport : NoiseState * NoiseState; se_hash : bytes; se_rest : bytes }.

Definition finish_handshake (h : HandshakeState) (rest : bytes) : result Session HandshakeError :=
  let? t := ok_or (into_transport_mode h) HE_Noise in
  Ok (mkSession t (get_handshake_hash h) rest).

(** With the bytes written; [sent] is whether the write succeeded. *)
Definition perform_handshake_as_initiator (seed : bytes) (sent : bool) (inp : Incoming)
    : bytes * result Session HandshakeError :=
  match hs_write (build_initiator seed) [] with
  | None => ([], Err HE_Noise)
  | Some (m1, h) =>
      match check_handshake_len (length m1) NOISE_NN_MSG1_LEN with
      | Err e => ([], Err e)
      | Ok _ =>
          if negb sent then ([], Err HE_Io)
          else (m1, let? mr := read_handshake_message inp NOISE_NN_MSG2_LEN in
                    let? ph := ok_or (hs_read h mr.1) HE_Noise in
                    finish_handshake ph.2 mr.2)
      end
  end.

Definition perform_handshake_as_responder (seed : bytes) (sent : bool) (inp : Incoming)
    : bytes * result Session HandshakeError :=
  match read_handshake_message inp NOISE_NN_MSG1_LEN with
  | Err e => ([], Err e)
  | Ok (m1, rest) =>
      match hs_read (build_responder seed) m1 with
      | None => ([], Err HE_Noise)
      | Some (_, h) =>
          match hs_write h [] with
          | None => ([], Err HE_Noise)
          | Some (m2, h) =>
              match check_handshake_len (length m2) NOISE_NN_MSG2_LEN with
              | Err e => ([], Err e)
              | Ok _ => if negb sent then ([], Err HE_Io) else (m2, finish_handshake h rest)
              end
          end
      end
  end.

(** The SDK's initiator: one frame each way. *)
Definition sdk_perform_handshake (seed : bytes) (sent : bool) (frame : option bytes)
    : bytes * result Session HandshakeError :=
  match hs_write (build_initiator seed) [] with
  | None => ([], Err HE_Noise)
  | Some (m1, h) =>
      if negb sent then ([], Err HE_Io)
      else (m1, let? response := ok_or frame HE_Closed in
                let? ph := ok_or (hs_read h response) HE_Noise in
                finish_handshake ph.2 [])
  end.
End Handshake.

Section Agreement.
Context `{HandshakeLib} (paired : NoiseState -> NoiseState -> Prop) `{!HandshakeLaws paired}.

(** Two sessions of one handshake. *)
Definition agree (i r : Session) : Prop :=
  se_hash i = se_hash r /\ paired (se_transport i).1 (se_transport r).2 /\
  paired (se_transport r).1 (se_transport i).2.

(** A message that arrived whole. *)
Lemma read_handshake_whole m rest ended n :
  length m = n -> read_handshake_message (mkIncoming (m ++ rest) ended) n = Ok (m, rest).
Proof.
  intros <-. unfold read_handshake_message. cbn [in_bytes in_ended]. rewrite length_app.
  destruct (Nat.ltb_spec (length m + length rest) (length m)); [lia|].
  by rewrite take_app_length, drop_app_length.
Qed.

(** Both ends of a handshake agree, whatever is pipelined behind it.  With any
    randomness there are two fixed-size messages such that an initiator whose
    peer's stream starts with the second and a responder whose peer's stream
    starts with the first write each other's message and end in sessions with the
    same hash and paired directions, and everything the peer sent after its
    message is left for the session; the SDK's initiator, given the second message
    as one frame, agrees with the responder too. *)
Theorem handshake_agrees si sr :
  exists m1 m2, length m1 = NOISE_NN_MSG1_LEN /\ length m2 = NOISE_NN_MSG2_LEN /\
    forall to_i to_r ended_i ended_r, exists i r k,
      perform_handshake_as_initiator si true (mkIncoming (m2 ++ to_i) ended_i) = (m1, Ok i) /\
      perform_handshake_as_responder sr true (mkIncoming (m1 ++ to_r) ended_r) = (m2, Ok r) /\
      sdk_perform_handshake si true (Some m2) = (m1, Ok k) /\
      agree i r /\ se_rest i = to_i /\ se_rest r = to_r /\ agree k r.
Proof.
  destruct (nn_agrees si sr) as (m1 & i1 & r1 & m2 & r2 & i2 & ti & tr & Hw1 & Hl1 & Hr1 & Hw2 & Hl2 & Hr2 & Hh &
    Hti & Htr & Hp1 & Hp2).
  exists m1, m2. split_and!; [done|done|]. intros to_i to_r ended_i ended_r.
  exists (mkSession ti (get_handshake_hash i2) to_i), (mkSession tr (get_handshake_hash r2) to_r),
    (mkSession ti (get_handshake_hash i2) []).
  assert (Hfi : forall rest, finish_handshake i2 rest = Ok (mkSession ti (get_handshake_hash i2) rest))
    by (intros rest; unfold finish_handshake; by rewrite Hti).
  assert (Hfr : finish_handshake r2 to_r = Ok (mkSession tr (get_handshake_hash r2) to_r))
    by (unfold finish_handshake; by rewrite Htr).
  split_and!; try done.
  - unfold perform_handshake_as_initiator. rewrite Hw1, Hl1. unfold check_handshake_len. rewrite Nat.eqb_refl.
    cbn [negb]. rewrite read_handshake_whole by done. cbn [fst snd]. rewrite Hr2. cbn [ok_or snd]. by rewrite Hfi.
  - unfold perform_handshake_as_responder. rewrite read_handshake_whole by done. rewrite Hr1, Hw2, Hl2.
    unfold check_handshake_len. rewrite Nat.eqb_refl. cbn [negb]. by rewrite Hfr.
  - unfold sdk_perform_handshake. rewrite Hw1. cbn [negb ok_or]. rewrite Hr2. cbn [ok_or snd]. by rewrite Hfi.
Qed.
End Agreement.

(** A handshake whose keys are the randomness. *)
Module HandshakeDemo.
#[local] Instance clear_noise : Noise := {|
  NoiseState := unit;
  write_message s p := if (Z.of_nat (length p) <=? 65535) then Some (p, s) else None;
  read_message s c := Some (c, s);
|}.

Definition key (seed : bytes) : bytes := take 32 (seed ++ replicate 32 0).

(** The role and the messages so far. *)
#[local] Instance clear_handshake : HandshakeLib := {|
  HandshakeState := (bytes * bytes)%type;
  build_initiator s := (s, []);
  build_responder s := (s, []);
  hs_write h p := match h.2 with
                  | [] => Some (key h.1, (h.1, key h.1))
                  | seen => Some (key h.1 ++ replicate 16 1, (h.1, seen ++ key h.1))
                  end;
  hs_read h c := Some ([], (h.1, h.2 ++ take 32 c));
  get_handshake_hash h := h.2;
  into_transport_mode h := Some (tt, tt);
|}.

Lemma key_length s : length (key s) = 32%nat.
Proof. unfold key. rewrite length_take, length_app, length_replicate. lia. Qed.

Lemma handshake_laws : HandshakeLaws (fun _ _ => True).
Proof.
  intros si sr. pose proof (key_length si) as Hi. pose proof (key_length sr) as Hr.
  assert (Ht : take 32 (key si) = key si) by (apply take_ge; lia).
  assert (Ht2 : take 32 (key sr ++ replicate 16 1) = key sr) by (rewrite <- Hr; apply take_app_length).
  exists (key si), (si, key si), (sr, key si), (key sr ++ replicate 16 1), (sr, key si ++ key sr),
    (si, key si ++ key sr), (tt, tt), (tt, tt).
  split_and!; try done.
  - unfold hs_read, clear_handshake. cbn [fst snd build_responder]. by rewrite Ht.
  - cbn. destruct (key si); [discriminate Hi|done].
  - rewrite length_app, Hr. done.
  - unfold hs_read, clear_handshake. cbn [fst snd]. by rewrite Ht2.
Qed.

(** A session whose peer has already sent a byte. *)
Definition session (m1 m2 : bytes) : Prop :=
  exists i, perform_handshake_as_initiator [1] true (mkIncoming (m2 ++ [9]) true) = (m1, Ok i) /\ se_rest i = [9].
End HandshakeDemo.

Lemma handshake_agrees_witness : exists m1 m2 : bytes, length m2 = 48%nat /\ HandshakeDemo.session m1 m2.
Proof.
  destruct (@handshake_agrees HandshakeDemo.clear_noise HandshakeDemo.clear_handshake (fun _ _ => True)
    HandshakeDemo.handshake_laws [1] [2]) as (m1 & m2 & _ & H2 & Hall).
  destruct (Hall [9] [] true true) as (i & _ & _ & Hi & _ & _ & _ & Hrest & _).
  exists m1, m2. split; [exact H2|]. exists i. exact (conj Hi Hrest).
Defined.
