(* ===== verification/Conn.v ===== *)
(** A client connection of the enclave server ([handle_client],
    [forward_to_container], [pump_bidirectional] and the startup grace of
    [enclavia-server/src/main.rs]).

    One handler task per connection reads the client's messages, and spawns a
    task per request: a one-shot forward or the pump of a stream.  The tasks
    answer through one bounded channel that only the handler drains; a stream's
    follow-ups go to its pump through a bounded channel of its own; permits
    bound the tasks.  The state holds all of these, with what each task is
    waiting for, and an event is one step of one task, so a schedule is a list
    of events and every interleaving is one.  What the rest of the server shares
    with a connection (the control nonce and all that a control command
    touches) is abstract here. *)
From stdpp Require Import base gmap list strings.
From S2P Require Import Prelude Client.
#[local] Open Scope Z_scope.

Definition MAX_PAYLOAD_SIZE : Z := 4 * 1024 * 1024.
Definition MAX_IN_FLIGHT : nat := 64.
Definition STREAM_READ_CHUNK : nat := 16 * 1024.

Inductive ChannelKind : Type := Public | Control.

#[global] Instance ChannelKind_eq_dec : EqDecision ChannelKind.
Proof. solve_decision. Defined.

Inductive StreamHalf : Type := Half_Write | Half_Both.

#[global] Instance StreamHalf_eq_dec : EqDecision StreamHalf.
Proof. solve_decision. Defined.

Inductive ClientMessage : Type :=
| CM_RequestAttestation
| CM_Data (id : Z) (payload : bytes)
| CM_Control (payload signature : bytes)
| CM_GetControlNonce
| CM_OpenStream (id : Z) (payload : bytes)
| CM_StreamData (id : Z) (payload : bytes)
| CM_StreamClose (id : Z) (half : StreamHalf).

Inductive ErrorText : Type :=
| Text_TooLarge
| Text_UnknownStream
| Text_NoResponse
| Text_Io (detail : string).

Inductive ServerMessage : Type :=
| SM_Attestation (data control_nonce : bytes)
| SM_ControlNonce (nonce : bytes)
| SM_Data (id : Z) (payload : bytes)
| SM_Error (id : Z) (message : ErrorText)
| SM_ControlResult (success : bool)
| SM_WrongChannel (kind : ChannelKind)
| SM_StreamData (id : Z) (payload : bytes)
| SM_StreamClose (id : Z).

Inductive StreamCommand : Type :=
| Cmd_Data (bs : bytes)
| Cmd_Close (half : StreamHalf).

#[global] Instance StreamCommand_eq_dec : EqDecision StreamCommand.
Proof. solve_decision. Defined.

Definition allowed (m : ClientMessage) (kind : ChannelKind) : bool :=
  match m, kind with
  | (CM_GetControlNonce | CM_Control _ _), Public => false
  | (CM_Data _ _ | CM_OpenStream _ _ | CM_StreamData _ _ | CM_StreamClose _ _), Control => false
  | _, _ => true
  end.

(** ** Tasks *)

(** Where a pump is: dialing, inside [write_all], at its [select!], inside a
    send to the response channel (and whether it returns afterwards), or past
    its return, about to report. *)
Inductive Phase : Type :=
| P_Connecting
| P_Writing (bs : bytes)
| P_Loop
| P_Sending (m : ServerMessage) (returns : bool)
| P_Exiting.

(** [p_initial] is the payload the stream was opened with; [p_written] what the
    pump wrote to the workload. *)
Record Pump := mkPump {
  p_id : Z;
  p_initial : bytes;
  p_phase : Phase;
  p_queue : list StreamCommand;
  p_eof : bool;
  p_shut : bool;
  p_written : list bytes;
}.

Definition set_phase (p : Pump) ph :=
  mkPump (p_id p) (p_initial p) ph (p_queue p) (p_eof p) (p_shut p) (p_written p).
Definition set_queue (p : Pump) q :=
  mkPump (p_id p) (p_initial p) (p_phase p) q (p_eof p) (p_shut p) (p_written p).
Definition set_eof (p : Pump) :=
  mkPump (p_id p) (p_initial p) (p_phase p) (p_queue p) true (p_shut p) (p_written p).
Definition set_shut (p : Pump) :=
  mkPump (p_id p) (p_initial p) (p_phase p) (p_queue p) (p_eof p) true (p_written p).
Definition add_written (p : Pump) bs :=
  mkPump (p_id p) (p_initial p) (p_phase p) (p_queue p) (p_eof p) (p_shut p) (p_written p ++ [bs]).

(** A one-shot forward: waiting for the workload, or sending its answer. *)
Inductive Task : Type :=
| T_Data (id : Z) (payload : bytes) (reply : option ServerMessage)
| T_Pump (p : Pump).

(** ** The connection *)

(** What the handler is doing: at its [select!], inside a send to the response
    channel, waiting for a permit, inside a send to a pump, or returned. *)
Inductive Mode : Type :=
| Ready
| Blocked_Send (m : ServerMessage)
| Blocked_Permit (m : ClientMessage)
| Blocked_Cmd (t : nat) (id : Z) (cmd : StreamCommand)
| Closed.

Record Conn := mkConn {
  c_kind : ChannelKind;
  c_mode : Mode;
  c_streams : gmap Z nat;
  c_tasks : gmap nat Task;
  c_next : nat;
  c_permits : nat;
  c_responses : list ServerMessage;
  c_done : list Z;
  c_sent : list ServerMessage;
}.

Definition set_mode (c : Conn) m :=
  mkConn (c_kind c) m (c_streams c) (c_tasks c) (c_next c) (c_permits c) (c_responses c) (c_done c) (c_sent c).
Definition set_streams (c : Conn) s :=
  mkConn (c_kind c) (c_mode c) s (c_tasks c) (c_next c) (c_permits c) (c_responses c) (c_done c) (c_sent c).
Definition set_task (c : Conn) t task :=
  mkConn (c_kind c) (c_mode c) (c_streams c) (<[t := task]> (c_tasks c)) (c_next c) (c_permits c)
    (c_responses c) (c_done c) (c_sent c).
Definition set_responses (c : Conn) r :=
  mkConn (c_kind c) (c_mode c) (c_streams c) (c_tasks c) (c_next c) (c_permits c) r (c_done c) (c_sent c).
Definition set_done (c : Conn) d :=
  mkConn (c_kind c) (c_mode c) (c_streams c) (c_tasks c) (c_next c) (c_permits c) (c_responses c) d (c_sent c).
Definition add_sent (c : Conn) m :=
  mkConn (c_kind c) (c_mode c) (c_streams c) (c_tasks c) (c_next c) (c_permits c) (c_responses c) (c_done c)
    (c_sent c ++ [m]).

(** A task starts with a permit and ends with giving it back. *)
Definition start_task (c : Conn) (task : Task) : Conn :=
  mkConn (c_kind c) (c_mode c) (c_streams c) (<[c_next c := task]> (c_tasks c)) (S (c_next c))
    (c_permits c - 1) (c_responses c) (c_done c) (c_sent c).
Definition end_task (c : Conn) (t : nat) : Conn :=
  mkConn (c_kind c) (c_mode c) (c_streams c) (delete t (c_tasks c)) (c_next c) (S (c_permits c))
    (c_responses c) (c_done c) (c_sent c).

(** The handler returns: its ends of the channels are dropped. *)
Definition close (c : Conn) : Conn :=
  mkConn (c_kind c) Closed ∅ (c_tasks c) (c_next c) (c_permits c) [] [] (c_sent c).

Definition connected (kind : ChannelKind) : Conn :=
  mkConn kind Ready ∅ ∅ 0 MAX_IN_FLIGHT [] [] [].

Definition is_closed (c : Conn) : bool := match c_mode c with Closed => true | _ => false end.
Definition has_room (l : list ServerMessage) : bool := (length l <? MAX_IN_FLIGHT)%nat.

(** ** The handler *)

(** [response_tx.send] by the handler itself. *)
Definition handler_send (c : Conn) (m : ServerMessage) : Conn :=
  if has_room (c_responses c) then set_mode (set_responses c (c_responses c ++ [m])) Ready
  else set_mode c (Blocked_Send m).

(** The task of an admitted request. *)
Definition spawn (c : Conn) (m : ClientMessage) : Conn :=
  match m with
  | CM_Data id payload => start_task c (T_Data id payload None)
  | CM_OpenStream id payload =>
      let t := c_next c in
      set_streams (start_task c (T_Pump (mkPump id payload P_Connecting [] false false [])))
        (<[id := t]> (c_streams c))
  | _ => c
  end.

(** [in_flight.acquire_owned] and the spawn. *)
Definition admit_request (c : Conn) (m : ClientMessage) : Conn :=
  if (0 <? c_permits c)%nat then set_mode (spawn c m) Ready else set_mode c (Blocked_Permit m).

(** After a command was sent or could not be: [StreamClose] of both halves
    forgets the stream. *)
Definition after_cmd (c : Conn) (id : Z) (cmd : StreamCommand) (failed : bool) : Conn :=
  if failed || bool_decide (cmd = Cmd_Close Half_Both)
  then set_mode (set_streams c (delete id (c_streams c))) Ready else set_mode c Ready.

(** [tx.send] to pump [t]; it fails once the pump has returned. *)
Definition send_cmd (c : Conn) (t : nat) (id : Z) (cmd : StreamCommand) : Conn :=
  match c_tasks c !! t with
  | Some (T_Pump p) =>
      match p_phase p with
      | P_Exiting => after_cmd c id cmd true
      | _ =>
          if (length (p_queue p) <? MAX_IN_FLIGHT)%nat then
            after_cmd (set_task c t (T_Pump (set_queue p (p_queue p ++ [cmd])))) id cmd false
          else set_mode c (Blocked_Cmd t id cmd)
      end
  | _ => after_cmd c id cmd true
  end.

Definition too_large (payload : bytes) : bool := MAX_PAYLOAD_SIZE <? Z.of_nat (length payload).

(** What a data message does; control messages are handled with the shared
    state below. *)
Definition handle_data_message (c : Conn) (m : ClientMessage) : Conn :=
  match m with
  | CM_Data id payload | CM_OpenStream id payload =>
      if too_large payload then handler_send c (SM_Error id Text_TooLarge) else admit_request c m
  | CM_StreamData id payload =>
      match c_streams c !! id with
      | Some t =>
          if too_large payload then handler_send c (SM_Error id Text_TooLarge)
          else send_cmd c t id (Cmd_Data payload)
      | None => handler_send c (SM_Error id Text_UnknownStream)
      end
  | CM_StreamClose id half =>
      match c_streams c !! id with
      | Some t => send_cmd c t id (Cmd_Close half)
      | None => c
      end
  | _ => c
  end.

(** A blocked handler goes on when what it waits for is there. *)
Definition resume (c : Conn) : option Conn :=
  match c_mode c with
  | Blocked_Send m => if has_room (c_responses c) then Some (handler_send c m) else None
  | Blocked_Permit m => if (0 <? c_permits c)%nat then Some (admit_request c m) else None
  | Blocked_Cmd t id cmd =>
      match c_mode (send_cmd c t id cmd) with
      | Blocked_Cmd _ _ _ => None
      | _ => Some (send_cmd c t id cmd)
      end
  | _ => None
  end.

(** ** The tasks *)

(** [tx.send] of a response by a task: it waits for room, and fails once the
    handler has returned. *)
Definition push_response (c : Conn) (m : ServerMessage) : option (Conn * bool) :=
  if is_closed c then Some (c, false)
  else if has_room (c_responses c) then Some (set_responses c (c_responses c ++ [m]), true) else None.

(** The handler still holds the sending end of the pump's channel. *)
Definition sender_alive (c : Conn) (t : nat) (p : Pump) : bool :=
  bool_decide (c_streams c !! p_id p = Some t).

Inductive PumpEvent : Type :=
| Pump_Connected
| Pump_ConnectFailed (detail : string)
| Pump_Written
| Pump_WriteFailed (detail : string)
| Pump_Read (bs : bytes)
| Pump_ReadFailed (detail : string)
| Pump_Command
| Pump_Sent
| Pump_Reported.

(** The events by which the workload's connection fails. *)
Definition workload_fails (e : PumpEvent) : bool :=
  match e with Pump_ConnectFailed _ | Pump_WriteFailed _ | Pump_ReadFailed _ => true | _ => false end.

Definition pump_step (c : Conn) (t : nat) (p : Pump) (e : PumpEvent) : option Conn :=
  let go p ph := Some (set_task c t (T_Pump (set_phase p ph))) in
  let fails detail := go p (P_Sending (SM_Error (p_id p) (Text_Io detail)) true) in
  match p_phase p, e with
  | P_Connecting, Pump_Connected => go p (P_Writing (p_initial p))
  | P_Connecting, Pump_ConnectFailed detail => fails detail
  | P_Writing bs, Pump_Written => go (add_written p bs) P_Loop
  | P_Writing _, Pump_WriteFailed detail => fails detail
  | P_Loop, Pump_Read bs =>
      if p_eof p || (STREAM_READ_CHUNK <? length bs)%nat then None
      else match bs with
      | [] => go (set_eof p) (P_Sending (SM_StreamClose (p_id p)) false)
      | _ => go p (P_Sending (SM_StreamData (p_id p) bs) false)
      end
  | P_Loop, Pump_ReadFailed detail => if p_eof p then None else fails detail
  | P_Loop, Pump_Command =>
      match p_queue p with
      | Cmd_Data bs :: q => go (set_queue p q) (P_Writing bs)
      | Cmd_Close Half_Write :: q => go (set_shut (set_queue p q)) P_Loop
      | Cmd_Close Half_Both :: q => go (set_queue p q) P_Exiting
      | [] => if sender_alive c t p then None else go p P_Exiting
      end
  | P_Sending m returns, Pump_Sent =>
      match push_response c m with
      | None => None
      | Some (c, sent) =>
          let dropped := match m with SM_StreamData _ _ => negb sent | _ => false end in
          Some (set_task c t (T_Pump (set_phase p (if returns || dropped then P_Exiting else P_Loop))))
      end
  | P_Exiting, Pump_Reported =>
      if is_closed c then Some (end_task c t)
      else if (length (c_done c) <? MAX_IN_FLIGHT)%nat
      then Some (end_task (set_done c (c_done c ++ [p_id p])) t) else None
  | _, _ => None
  end.

(** A one-shot forward: the workload answered, failed or was too slow; then the
    reply is sent and the permit given back. *)
Inductive DataEvent : Type :=
| Data_Responded (bs : bytes)
| Data_Failed (e : ErrorText)
| Data_Sent.

Definition data_step (c : Conn) (t : nat) (id : Z) (payload : bytes) (reply : option ServerMessage)
    (e : DataEvent) : option Conn :=
  match reply, e with
  | None, Data_Responded bs => Some (set_task c t (T_Data id payload (Some (SM_Data id bs))))
  | None, Data_Failed text => Some (set_task c t (T_Data id payload (Some (SM_Error id text))))
  | Some m, Data_Sent =>
      match push_response c m with Some (c, _) => Some (end_task c t) | None => None end
  | _, _ => None
  end.

(** ** The whole connection *)

Section Shared.
(** The shared state, the nonce it holds, a control command on it ([None] when
    its task panics), and this session's attestation of the nonce. *)
Context {G : Type} (nonce_of : G -> bytes) (control : bytes -> bytes -> G -> option bool * G).
Context (attest : bytes -> option bytes).

Inductive Event : Type :=
| Ev_Recv (m : ClientMessage) (sent : bool)
| Ev_RecvFailed
| Ev_Deliver (sent : bool)
| Ev_Reap
| Ev_Resume
| Ev_Pump (t : nat) (e : PumpEvent)
| Ev_Data (t : nat) (e : DataEvent).

(** A message at the handler; [sent] is whether a direct answer could be
    written to the client. *)
Definition handle_message (c : Conn) (g : G) (m : ClientMessage) (sent : bool) : Conn * G :=
  let answer r := if sent then add_sent c r else c in
  if negb (allowed m (c_kind c)) then (close (answer (SM_WrongChannel (c_kind c))), g)
  else match m with
  | CM_RequestAttestation =>
      match attest (nonce_of g) with
      | Some doc => (answer (SM_Attestation doc (nonce_of g)), g)
      | None => (close c, g)
      end
  | CM_GetControlNonce => (answer (SM_ControlNonce (nonce_of g)), g)
  | CM_Control payload signature =>
      match control payload signature g with
      | (Some success, g) =>
          (if sent then add_sent c (SM_ControlResult success) else close c, g)
      | (None, g) => (close c, g)
      end
  | _ => (handle_data_message c m, g)
  end.

(** One step of the connection; [None] when the event cannot happen. *)
Definition exec (cg : Conn * G) (e : Event) : option (Conn * G) :=
  let '(c, g) := cg in
  match e with
  | Ev_Recv m sent => match c_mode c with Ready => Some (handle_message c g m sent) | _ => None end
  | Ev_RecvFailed => match c_mode c with Ready => Some (close c, g) | _ => None end
  | Ev_Deliver sent =>
      match c_mode c, c_responses c with
      | Ready, r :: rest =>
          Some (if sent then add_sent (set_responses c rest) r else close c, g)
      | _, _ => None
      end
  | Ev_Reap =>
      match c_mode c, c_done c with
      | Ready, id :: rest => Some (set_streams (set_done c rest) (delete id (c_streams c)), g)
      | _, _ => None
      end
  | Ev_Resume => c' ← resume c; Some (c', g)
  | Ev_Pump t e =>
      match c_tasks c !! t with
      | Some (T_Pump p) => c' ← pump_step c t p e; Some (c', g)
      | _ => None
      end
  | Ev_Data t e =>
      match c_tasks c !! t with
      | Some (T_Data id payload reply) => c' ← data_step c t id payload reply e; Some (c', g)
      | _ => None
      end
  end.

Fixpoint run (cg : Conn * G) (es : list Event) : option (Conn * G) :=
  match es with
  | [] => Some cg
  | e :: es => cg' ← exec cg e; run cg' es
  end.
End Shared.

(** ** Dialing the workload *)

Inductive IoKind : Type := ConnectionRefused | OtherIo (detail : string).

(** [TcpStream::connect] and the process-wide flag, which other dials may set. *)
Class Workload (T : Type) := {
  tcp_connect : T -> result unit IoKind * T;
  seen_up : T -> bool;
  store_seen_up : T -> T;
}.

(** Milliseconds. *)
Definition WORKLOAD_STARTUP_GRACE : Z := 60000.
Definition WORKLOAD_DIAL_RETRY_INTERVAL : Z := 250.

Section Dial.
Context {T : Type} `{Workload T} `{Clock T}.

Fixpoint connect_loop (fuel : nat) (retry_interval deadline : Z) (t : T)
    : option (result unit IoKind * T) :=
  match fuel with
  | O => None
  | S fuel =>
      match tcp_connect t with
      | (Ok _, t) => Some (Ok tt, store_seen_up t)
      | (Err e, t) =>
          match e with
          | ConnectionRefused =>
              if negb (seen_up t) && (instant_now t + retry_interval <=? deadline)
              then connect_loop fuel retry_interval deadline (sleep retry_interval t)
              else Some (Err e, t)
          | _ => Some (Err e, t)
          end
      end
  end.

(** The first dial, and one after each pause inside the grace. *)
Definition DIAL_ATTEMPTS : nat :=
  (2 + Z.to_nat (WORKLOAD_STARTUP_GRACE / WORKLOAD_DIAL_RETRY_INTERVAL))%nat.

Definition connect_with_startup_grace (retry_interval grace : Z) (t : T)
    : option (result unit IoKind * T) :=
  connect_loop DIAL_ATTEMPTS retry_interval (instant_now t + grace) t.

Definition connect_to_workload (t : T) : option (result unit IoKind * T) :=
  connect_with_startup_grace WORKLOAD_DIAL_RETRY_INTERVAL WORKLOAD_STARTUP_GRACE t.
End Dial.
