(* ===== verification/ConnProofs.v ===== *)
(** What a client connection guarantees ([Conn]): its buffers and tasks stay
    bounded and a stream's data reaches the workload in order; the public port
    never reaches the control state and the control port never reaches the
    workload; and two stalls from which a connection does not recover. *)
From stdpp Require Import base gmap list strings.
From S2P Require Import Prelude Client Conn.
#[local] Open Scope Z_scope.

(** ** Well-formed connections *)

Definition pump_wf (p : Pump) : Prop := (length (p_queue p) <= MAX_IN_FLIGHT)%nat.

Record conn_wf (c : Conn) : Prop := {
  wf_responses : (length (c_responses c) <= MAX_IN_FLIGHT)%nat;
  wf_done : (length (c_done c) <= MAX_IN_FLIGHT)%nat;
  wf_permits : (c_permits c + size (c_tasks c) = MAX_IN_FLIGHT)%nat;
  wf_fresh : forall t, (c_next c <= t)%nat -> c_tasks c !! t = None;
  wf_pumps : forall t p, c_tasks c !! t = Some (T_Pump p) -> pump_wf p;
  wf_control : c_kind c = Control -> c_tasks c = ∅ /\ (c_mode c = Ready \/ c_mode c = Closed);
}.

Lemma connected_wf kind : conn_wf (connected kind).
Proof. split; simpl; try done; unfold MAX_IN_FLIGHT; try lia. intros _. auto. Qed.

Lemma close_wf c : conn_wf c -> conn_wf (close c).
Proof.
  intros []. split; simpl; try done; unfold MAX_IN_FLIGHT; try lia. intros Hk.
  destruct wf_control0 as [? _]; auto.
Qed.

(** Fields the invariant does not constrain. *)
Lemma set_streams_wf c s : conn_wf c -> conn_wf (set_streams c s).
Proof. by intros []. Qed.
Lemma add_sent_wf c m : conn_wf c -> conn_wf (add_sent c m).
Proof. by intros []. Qed.
Lemma ready_wf c : conn_wf c -> conn_wf (set_mode c Ready).
Proof. intros []. split; try done. intros Hk. destruct wf_control0; auto. Qed.
Lemma blocked_wf c m : conn_wf c -> c_kind c = Public -> conn_wf (set_mode c m).
Proof. intros [] Hp. split; try done. simpl. congruence. Qed.

Lemma push_wf c m : conn_wf c -> has_room (c_responses c) = true ->
  conn_wf (set_responses c (c_responses c ++ [m])).
Proof.
  intros [] Hr%Nat.ltb_lt. split; try done. simpl. rewrite length_app. simpl. lia.
Qed.

Create HintDb conn_db.
#[export] Hint Resolve connected_wf close_wf set_streams_wf add_sent_wf ready_wf blocked_wf push_wf : conn_db.

Lemma push_response_wf c m c' b : conn_wf c -> push_response c m = Some (c', b) -> conn_wf c'.
Proof.
  unfold push_response. intros W. destruct (is_closed c); [intros; by simplify_eq|].
  destruct (has_room _) eqn:E; intros; simplify_eq; auto with conn_db.
Qed.

(** A step of one task keeps the others. *)
Lemma set_task_wf c t task task' :
  conn_wf c -> c_tasks c !! t = Some task -> (forall p, task' = T_Pump p -> pump_wf p) ->
  conn_wf (set_task c t task').
Proof.
  intros [] Ht Hp. split; try done; simpl.
  - rewrite map_size_insert_Some; [done|]. by exists task.
  - intros t' Hge. rewrite lookup_insert_ne; [auto|]. intros ->. by rewrite wf_fresh0 in Ht.
  - intros t' p. rewrite lookup_insert. case_decide; [intros; simplify_eq; auto|apply wf_pumps0].
  - intros Hk. destruct (wf_control0 Hk) as [He _]. by rewrite He in Ht.
Qed.

Lemma end_task_wf c t task : conn_wf c -> c_tasks c !! t = Some task -> conn_wf (end_task c t).
Proof.
  intros [] Ht. split; try done; simpl.
  - rewrite map_size_delete_Some by eauto.
    assert (size (c_tasks c) <> 0%nat) by (intros Hz%map_size_empty_inv; by rewrite Hz in Ht). lia.
  - intros t' Hge. rewrite lookup_delete. case_decide; auto.
  - intros t' p [_ ?]%lookup_delete_Some. by eapply wf_pumps0.
  - intros Hk. destruct (wf_control0 Hk) as [He _]. by rewrite He in Ht.
Qed.

Lemma start_task_wf c task :
  conn_wf c -> c_kind c = Public -> (0 < c_permits c)%nat -> (forall p, task = T_Pump p -> pump_wf p) ->
  conn_wf (start_task c task).
Proof.
  intros [] Hk Hpos Hp. split; try done; simpl.
  - rewrite map_size_insert_None; [lia|]. by apply wf_fresh0.
  - intros t Hge. rewrite lookup_insert_ne by lia. apply wf_fresh0. lia.
  - intros t p. rewrite lookup_insert. case_decide; [intros; simplify_eq; auto|apply wf_pumps0].
  - congruence.
Qed.

(** ** The steps of a connection *)

Lemma handler_send_wf c m : conn_wf c -> c_kind c = Public -> conn_wf (handler_send c m).
Proof. unfold handler_send. intros. destruct (has_room _) eqn:E; auto with conn_db. Qed.

Lemma admit_request_wf c m : conn_wf c -> c_kind c = Public -> conn_wf (admit_request c m).
Proof.
  unfold admit_request. intros W Hk. destruct (Nat.ltb_spec 0 (c_permits c)); [|auto with conn_db].
  apply ready_wf. destruct m; simpl; auto.
  - by apply start_task_wf.
  - apply set_streams_wf, start_task_wf; try done. intros p [= <-]. unfold pump_wf, MAX_IN_FLIGHT. simpl. lia.
Qed.

Lemma after_cmd_wf c id cmd b : conn_wf c -> conn_wf (after_cmd c id cmd b).
Proof. unfold after_cmd. intros. destruct (_ || _); auto with conn_db. Qed.

Lemma send_cmd_wf c t id cmd : conn_wf c -> c_kind c = Public -> conn_wf (send_cmd c t id cmd).
Proof.
  unfold send_cmd. intros W Hk. destruct (c_tasks c !! t) as [[|p]|] eqn:Et; [by apply after_cmd_wf| |by apply after_cmd_wf].
  assert (Hgo : conn_wf
    (if (length (p_queue p) <? MAX_IN_FLIGHT)%nat then
       after_cmd (set_task c t (T_Pump (set_queue p (p_queue p ++ [cmd])))) id cmd false
     else set_mode c (Blocked_Cmd t id cmd))).
  { destruct (Nat.ltb_spec (length (p_queue p)) MAX_IN_FLIGHT); [|auto with conn_db].
    apply after_cmd_wf. eapply set_task_wf; [done|done|]. intros p' [= <-]. unfold pump_wf. simpl.
    rewrite length_app. simpl. lia. }
  destruct (p_phase p); try by apply Hgo. by apply after_cmd_wf.
Qed.

Lemma handle_data_message_wf c m : conn_wf c -> c_kind c = Public -> conn_wf (handle_data_message c m).
Proof.
  intros W Hk. destruct m as [|id pl|pl sg| |id pl|id pl|id half]; simpl; try done.
  - destruct (too_large pl); auto using handler_send_wf, admit_request_wf.
  - destruct (too_large pl); auto using handler_send_wf, admit_request_wf.
  - destruct (c_streams c !! id); [|by apply handler_send_wf].
    destruct (too_large pl); auto using handler_send_wf, send_cmd_wf.
  - destruct (c_streams c !! id); [by apply send_cmd_wf|done].
Qed.

Lemma mode_public c m : conn_wf c -> c_mode c = m -> m <> Ready -> m <> Closed -> c_kind c = Public.
Proof.
  intros W Hm H1 H2. destruct (c_kind c) eqn:Hk; [done|].
  destruct (wf_control _ W Hk) as [_ [?|?]]; congruence.
Qed.

Lemma resume_wf c c' : conn_wf c -> resume c = Some c' -> conn_wf c'.
Proof.
  unfold resume. intros W. destruct (c_mode c) as [|m|m|t id cmd|] eqn:Hm; try done;
    (assert (Hk : c_kind c = Public) by by eapply mode_public).
  - destruct (has_room _); intros; simplify_eq. by apply handler_send_wf.
  - destruct (0 <? _)%nat; intros; simplify_eq. by apply admit_request_wf.
  - destruct (c_mode (send_cmd c t id cmd)); intros; simplify_eq; by apply send_cmd_wf.
Qed.

(** ** What a task's step changes *)

Definition queued_data (q : list StreamCommand) : list bytes :=
  omap (fun cmd => match cmd with Cmd_Data bs => Some bs | _ => None end) q.

Lemma queued_snoc q cmd : queued_data (q ++ [cmd]) = queued_data q ++ queued_data [cmd].
Proof. apply omap_app. Qed.

(** The data a pump is about to write. *)
Definition in_hand (p : Pump) : list bytes :=
  match p_phase p with
  | P_Connecting => [p_initial p]
  | P_Writing bs => [bs]
  | _ => []
  end.

(** A pump that was given [acc] and goes on writes all of it, in order; one that
    returns has written a prefix. *)
Definition upstream_ordered (p : Pump) (acc : list bytes) : Prop :=
  match p_phase p with
  | P_Sending _ true | P_Exiting => p_written p `prefix_of` acc
  | _ => p_written p ++ in_hand p ++ queued_data (p_queue p) = acc
  end.

Lemma upstream_prefix p acc : upstream_ordered p acc -> p_written p `prefix_of` acc.
Proof.
  unfold upstream_ordered. destruct (p_phase p) as [|bs| |m []|]; try done; intros <-; by eexists.
Qed.

(** A pump's own step moves on what it was given, or ends the task. *)
Definition moves (p p' : Pump) : Prop :=
  p_id p' = p_id p /\ p_initial p' = p_initial p /\ (length (p_queue p') <= length (p_queue p))%nat /\
  forall acc, upstream_ordered p acc -> upstream_ordered p' acc.

Lemma moves_returning p ph :
  match ph with P_Sending _ true | P_Exiting => True | _ => False end -> moves p (set_phase p ph).
Proof.
  intros Hph. split_and!; try done. intros acc Hu%upstream_prefix. unfold upstream_ordered. cbn [set_phase p_phase].
  by destruct ph as [|bs| |m []|].
Qed.

Lemma push_response_same c m c' b :
  push_response c m = Some (c', b) ->
  c_tasks c' = c_tasks c /\ c_streams c' = c_streams c /\ c_mode c' = c_mode c /\ c_next c' = c_next c.
Proof.
  unfold push_response. destruct (is_closed c); [intros; by simplify_eq|].
  destruct (has_room _); intros; by simplify_eq.
Qed.

Lemma pump_step_shape c t p e c' :
  pump_step c t p e = Some c' ->
  c_streams c' = c_streams c /\ c_mode c' = c_mode c /\ c_next c' = c_next c /\
  (c_tasks c' = delete t (c_tasks c) \/
   exists p', c_tasks c' = <[t := T_Pump p']> (c_tasks c) /\ moves p p').
Proof.
  assert (Hgo : forall p', moves p p' -> Some (set_task c t (T_Pump p')) = Some c' ->
    c_streams c' = c_streams c /\ c_mode c' = c_mode c /\ c_next c' = c_next c /\
    (c_tasks c' = delete t (c_tasks c) \/
     exists p', c_tasks c' = <[t := T_Pump p']> (c_tasks c) /\ moves p p')).
  { intros p' Hm [= <-]. split_and!; [done..|]. right. by exists p'. }
  unfold pump_step. destruct (p_phase p) as [|bs| |m ret|] eqn:Eph, e as [|d| |d|r|d| | |]; try done.
  - apply Hgo. split_and!; [done..|]. intros acc. unfold upstream_ordered, in_hand. by rewrite Eph.
  - apply Hgo. by apply moves_returning.
  - apply Hgo. split_and!; [done..|]. intros acc. unfold upstream_ordered, in_hand. rewrite Eph. simpl.
    by rewrite <- app_assoc.
  - apply Hgo. by apply moves_returning.
  - destruct (_ || _); [done|]. destruct r as [|x r]; apply Hgo; (split_and!; [done..|]); intros acc;
      unfold upstream_ordered, in_hand; by rewrite Eph.
  - destruct (p_eof p); [done|]. apply Hgo. by apply moves_returning.
  - destruct (p_queue p) as [|[bs|[]] q] eqn:Equ.
    + destruct (sender_alive c t p); [done|]. apply Hgo. by apply moves_returning.
    + apply Hgo. split_and!; [done|done|rewrite Equ; simpl; lia|]. intros acc.
      unfold upstream_ordered, in_hand. by rewrite Eph, Equ.
    + apply Hgo. split_and!; [done|done|rewrite Equ; simpl; lia|]. intros acc.
      unfold upstream_ordered, in_hand. by rewrite Eph, Equ.
    + apply Hgo. split_and!; [done|done|rewrite Equ; simpl; lia|]. intros acc Hu%upstream_prefix. exact Hu.
  - destruct (push_response c m) as [[c1 sent]|] eqn:Ep; [|done]. intros [= <-].
    apply push_response_same in Ep as (Et & Es & Em & En). simpl. rewrite Et. split_and!; try done. right.
    eexists. split; [done|]. destruct (ret || _) eqn:Er; [by apply moves_returning|].
    destruct ret; [done|]. split_and!; [done..|]. intros acc. unfold upstream_ordered, in_hand. by rewrite Eph.
  - destruct (is_closed c); [intros [= <-]; split_and!; auto|].
    destruct (_ <? _)%nat; [|done]. intros [= <-]. split_and!; auto.
Qed.

Lemma pump_step_wf c t p e c' :
  conn_wf c -> c_tasks c !! t = Some (T_Pump p) -> pump_step c t p e = Some c' -> conn_wf c'.
Proof.
  intros W Ht Hs. pose proof (wf_pumps _ W _ _ Ht) as Wp. unfold pump_wf in Wp.
  revert Hs. unfold pump_step.
  assert (Hgo : forall c1 p', conn_wf c1 -> c_tasks c1 !! t = Some (T_Pump p) ->
    (length (p_queue p') <= length (p_queue p))%nat -> conn_wf (set_task c1 t (T_Pump p'))).
  { intros c1 p' W1 Ht1 Hp'. eapply set_task_wf; [done|done|]. intros ? [= <-]. unfold pump_wf. lia. }
  destruct (p_phase p) as [|bs| |m ret|], e as [|d| |d|r|d| | |]; try done;
    try (intros [= <-]; by apply Hgo).
  - destruct (_ || _); [done|]. destruct r; intros [= <-]; by apply Hgo.
  - destruct (p_eof p); [done|]. intros [= <-]. by apply Hgo.
  - destruct (p_queue p) as [|[bs|[]] q] eqn:Equ; [destruct (sender_alive c t p); [done|]|..];
      intros [= <-]; (apply Hgo; [done|done|simpl; rewrite ?Equ; simpl; lia]).
  - destruct (push_response c m) as [[c1 sent]|] eqn:Ep; [|done]. intros [= <-].
    pose proof (push_response_wf _ _ _ _ W Ep) as W1. apply push_response_same in Ep as (Et & _).
    apply Hgo; [done|by rewrite Et|done].
  - destruct (is_closed c); [intros [= <-]; by eapply end_task_wf|].
    destruct (Nat.ltb_spec (length (c_done c)) MAX_IN_FLIGHT); [|done]. intros [= <-].
    eapply end_task_wf; [|done]. destruct W. split; try done. simpl. rewrite length_app. simpl. lia.
Qed.

Lemma data_step_wf c t id pl reply e c' :
  conn_wf c -> c_tasks c !! t = Some (T_Data id pl reply) -> data_step c t id pl reply e = Some c' -> conn_wf c'.
Proof.
  intros W Ht. unfold data_step. destruct reply as [m|], e; try done.
  - destruct (push_response c m) as [[c1 sent]|] eqn:Ep; [|done]. intros [= <-].
    pose proof (push_response_wf _ _ _ _ W Ep) as W1. eapply end_task_wf; [done|].
    revert Ep. unfold push_response. destruct (is_closed c); [intros; by simplify_eq|].
    destruct (has_room _); intros; by simplify_eq.
  - intros [= <-]. by eapply set_task_wf.
  - intros [= <-]. by eapply set_task_wf.
Qed.

Section Run.
Context {G : Type} (nonce_of : G -> bytes) (control : bytes -> bytes -> G -> option bool * G).
Context (attest : bytes -> option bytes).

Abbreviation step := (exec nonce_of control attest).
Abbreviation go := (run nonce_of control attest).

Lemma handle_message_wf c g m sent c' g' :
  conn_wf c -> handle_message nonce_of control attest c g m sent = (c', g') -> conn_wf c'.
Proof.
  intros W. unfold handle_message.
  destruct (allowed m (c_kind c)) eqn:Ea; cbn [negb]; [|destruct sent; intros; simplify_eq; auto with conn_db].
  assert (Hd : c_kind c = Public -> conn_wf (handle_data_message c m)) by by apply handle_data_message_wf.
  destruct m as [|id pl|pl sg| |id pl|id pl|id half];
    try (intros; simplify_eq; apply Hd; by destruct (c_kind c)).
  - destruct (attest _); destruct sent; intros; simplify_eq; auto with conn_db.
  - destruct (control pl sg g) as [[ok|] g1]; destruct sent; intros; simplify_eq; auto with conn_db.
  - destruct sent; intros; simplify_eq; auto with conn_db.
Qed.

Lemma exec_wf c g e c' g' : conn_wf c -> step (c, g) e = Some (c', g') -> conn_wf c'.
Proof.
  intros W. destruct e as [m sent| |sent| | |t e|t e]; cbn [exec].
  - destruct (c_mode c); try done. intros [= Hh]. by eapply handle_message_wf.
  - destruct (c_mode c); try done. intros; simplify_eq. auto with conn_db.
  - destruct (c_mode c); try done. destruct (c_responses c) as [|r rest] eqn:Er; [done|].
    destruct sent; intros; simplify_eq; auto with conn_db. apply add_sent_wf.
    destruct W. split; try done. simpl. rewrite Er in wf_responses0. simpl in *. lia.
  - destruct (c_mode c); try done. destruct (c_done c) as [|id rest] eqn:Ed; [done|].
    intros; simplify_eq. apply set_streams_wf. destruct W. split; try done. simpl.
    rewrite Ed in wf_done0. simpl in *. lia.
  - destruct (resume c) as [c1|] eqn:Er; simpl; [|done]. intros; simplify_eq. by eapply resume_wf.
  - destruct (c_tasks c !! t) as [[|p]|] eqn:Et; try done.
    destruct (pump_step c t p e) as [c1|] eqn:Ep; simpl; [|done]. intros; simplify_eq. by eapply pump_step_wf.
  - destruct (c_tasks c !! t) as [[id pl reply|]|] eqn:Et; try done.
    destruct (data_step c t id pl reply e) as [c1|] eqn:Ep; simpl; [|done]. intros; simplify_eq.
    by eapply data_step_wf.
Qed.

(** Induction over a schedule. *)
Lemma run_ind (P : Conn * G -> Prop) es cg cg' :
  (forall cg e cg', P cg -> step cg e = Some cg' -> P cg') ->
  P cg -> go cg es = Some cg' -> P cg'.
Proof.
  intros Hstep. revert cg. induction es as [|e es IH]; intros cg HP; cbn [run]; [intros; by simplify_eq|].
  destruct (step cg e) as [cg1|] eqn:Ee; simpl; [|done]. apply IH. by eapply Hstep.
Qed.

Lemma run_wf es c g c' g' : conn_wf c -> go (c, g) es = Some (c', g') -> conn_wf c'.
Proof.
  intros W Hr. apply (run_ind (fun cg => conn_wf cg.1) es (c, g) (c', g')); [|done|done].
  intros [c1 g1] e [c2 g2] W1 He. by eapply exec_wf.
Qed.

(** ** What the client sent on a stream *)

(** The messages read from the client, in order. *)
Definition received (es : list Event) : list ClientMessage :=
  omap (fun e => match e with Ev_Recv m _ => Some m | _ => None end) es.

(** The data of the messages for stream [id], those over the size limit (which
    are answered with an error) apart. *)
Definition stream_data (id : Z) (ms : list ClientMessage) : list bytes :=
  omap (fun m => match m with
                 | CM_StreamData i bs => if bool_decide (i = id) && negb (too_large bs) then Some bs else None
                 | _ => None
                 end) ms.

(** The data the handler is inside the send of, to pump [t]. *)
Definition pending (c : Conn) (t : nat) : list bytes :=
  match c_mode c with
  | Blocked_Cmd t' _ (Cmd_Data bs) => if bool_decide (t' = t) then [bs] else []
  | _ => []
  end.

(** A pump was given the opening payload and then the data of the client's
    messages for its stream, from the first on and in their order; all of it,
    as long as the stream is open at the handler. *)
Definition pump_fed (ms : list ClientMessage) (c : Conn) (t : nat) (p : Pump) : Prop :=
  exists pre post acc rest,
    ms = pre ++ CM_OpenStream (p_id p) (p_initial p) :: post /\
    p_initial p :: stream_data (p_id p) post = acc ++ rest /\
    upstream_ordered p acc /\ (c_streams c !! p_id p = Some t -> rest = pending c t).

Record conn_fed (ms : list ClientMessage) (c : Conn) : Prop := {
  fd_pumps : forall t p, c_tasks c !! t = Some (T_Pump p) -> pump_fed ms c t p;
  fd_streams : forall id t, c_streams c !! id = Some t -> (t < c_next c)%nat /\
    forall p, c_tasks c !! t = Some (T_Pump p) -> p_id p = id;
  fd_permit : forall m, c_mode c = Blocked_Permit m -> exists pre, ms = pre ++ [m];
  fd_cmd : forall t id cmd, c_mode c = Blocked_Cmd t id cmd -> c_streams c !! id = Some t;
}.

Lemma stream_data_snoc id ms m : stream_data id (ms ++ [m]) = stream_data id ms ++ stream_data id [m].
Proof. apply omap_app. Qed.

(** What only the streams still open and the data under way constrain. *)
Lemma pump_fed_keep ms c c' t p :
  pump_fed ms c t p ->
  (c_streams c' !! p_id p = Some t -> c_streams c !! p_id p = Some t /\ pending c' t = pending c t) ->
  pump_fed ms c' t p.
Proof.
  intros (pre & post & acc & rest & -> & Hd & Hu & Hc) Hk. exists pre, post, acc, rest.
  split_and!; try done. intros [Hs ->]%Hk. auto.
Qed.

Lemma fed_keep ms c c' :
  conn_fed ms c -> c_tasks c' = c_tasks c -> c_next c' = c_next c -> c_streams c' ⊆ c_streams c ->
  (forall t, c_streams c' <> ∅ -> pending c' t = pending c t) ->
  (forall m, c_mode c' = Blocked_Permit m -> exists pre, ms = pre ++ [m]) ->
  (forall t id cmd, c_mode c' = Blocked_Cmd t id cmd -> c_streams c' !! id = Some t) ->
  conn_fed ms c'.
Proof.
  intros [Fp Fs Fm Fc] Ht Hn Hsub Hp Hm Hc. split; [| |done|done].
  - rewrite Ht. intros t p Hl. apply (pump_fed_keep _ c); [by apply Fp|]. intros Hs.
    split; [by eapply lookup_weaken|]. apply Hp. intros He. by rewrite He in Hs.
  - rewrite Ht, Hn. intros id t Hs. apply Fs. by eapply lookup_weaken.
Qed.

Lemma fed_close ms c : conn_fed ms c -> conn_fed ms (close c).
Proof. intros F. apply (fed_keep _ c); try done. apply map_empty_subseteq. Qed.

Lemma pending_idle c t : (forall t id cmd, c_mode c <> Blocked_Cmd t id cmd) -> pending c t = [].
Proof. unfold pending. intros Hm. destruct (c_mode c) as [| | |t' id' cmd'|]; try done. by destruct (Hm t' id' cmd'). Qed.

(** A message that no open stream gets. *)
Lemma fed_other ms c m :
  conn_fed ms c -> c_mode c = Ready ->
  (forall id bs, m = CM_StreamData id bs -> too_large bs = false -> c_streams c !! id = None) ->
  conn_fed (ms ++ [m]) c.
Proof.
  intros [Fp Fs Fm Fc] Hr Ho. split; [|done|intros ?; by rewrite Hr|done].
  intros t p Hl. destruct (Fp t p Hl) as (pre & post & acc & rest & -> & Hd & Hu & Hc).
  exists pre, (post ++ [m]), acc, (rest ++ stream_data (p_id p) [m]). split_and!; [by rewrite <- app_assoc| |done|].
  - rewrite stream_data_snoc, app_comm_cons, Hd. by rewrite <- app_assoc.
  - intros Hs. rewrite (Hc Hs). replace (stream_data (p_id p) [m]) with (@nil bytes); [by rewrite app_nil_r|].
    destruct m as [| | | | |id bs|]; try done. cbn. case_bool_decide as Hid; [|done]. subst id. cbn.
    destruct (too_large bs) eqn:Hl'; [done|]. by rewrite (Ho _ _ eq_refl Hl') in Hs.
Qed.

(** A message for an open stream, once the handler is inside its send. *)
Lemma fed_message ms c t id cmd m :
  conn_fed ms c -> c_mode c = Ready -> c_streams c !! id = Some t ->
  (forall i, stream_data i [m] = if bool_decide (i = id) then queued_data [cmd] else []) ->
  conn_fed (ms ++ [m]) (set_mode c (Blocked_Cmd t id cmd)).
Proof.
  intros [Fp Fs Fm Fc] Hr Hid Hm. split; [|done|done|by intros t' id' cmd' [= <- <- <-]].
  intros t' p Hl. destruct (Fp t' p Hl) as (pre & post & acc & rest & -> & Hd & Hu & Hc).
  exists pre, (post ++ [m]), acc, (rest ++ stream_data (p_id p) [m]). split_and!; [by rewrite <- app_assoc| |done|].
  - rewrite stream_data_snoc, app_comm_cons, Hd. by rewrite <- app_assoc.
  - cbn [set_mode c_streams]. intros Hs. rewrite (Hc Hs), pending_idle by (intros; by rewrite Hr). rewrite Hm.
    unfold pending. cbn [c_mode set_mode app]. case_bool_decide as Hi.
    + assert (t = t') as <- by congruence. rewrite bool_decide_eq_true_2 by done. by destruct cmd.
    + rewrite bool_decide_eq_false_2; [by destruct cmd|]. intros ->. by rewrite (proj2 (Fs _ _ Hid) _ Hl) in Hi.
Qed.

Lemma send_cmd_mode c m t id cmd : send_cmd (set_mode c m) t id cmd = send_cmd c t id cmd.
Proof. done. Qed.

(** The send itself. *)
Lemma fed_send ms c t id cmd :
  conn_fed ms c -> c_mode c = Blocked_Cmd t id cmd -> conn_fed ms (send_cmd c t id cmd).
Proof.
  intros F Hm. pose proof F as [Fp Fs Fm Fc]. pose proof (Fc _ _ _ Hm) as Hid. destruct (Fs _ _ Hid) as [Hlt Hpid].
  assert (Hother : forall t' p, c_tasks c !! t' = Some (T_Pump p) -> p_id p <> id -> pending c t' = []).
  { intros t' p Hl Hne. unfold pending. rewrite Hm. rewrite bool_decide_eq_false_2; [by destruct cmd|].
    intros ->. by apply Hpid in Hl. }
  assert (Hgone : conn_fed ms (after_cmd c id cmd true)).
  { unfold after_cmd. cbn [orb]. split; [| |done|done].
    - cbn. intros t' p Hl. apply (pump_fed_keep _ c); [by apply Fp|]. cbn. intros [Hne Hs]%lookup_delete_Some.
      split; [done|]. symmetry. by apply (Hother _ p).
    - cbn. intros id' t' [_ Hs]%lookup_delete_Some. by apply Fs. }
  unfold send_cmd. destruct (c_tasks c !! t) as [[|p]|] eqn:Et; [done| |done].
  pose proof (Hpid p eq_refl) as Hp.
  assert (Hgo : p_phase p <> P_Exiting -> conn_fed ms
    (if (length (p_queue p) <? MAX_IN_FLIGHT)%nat then
       after_cmd (set_task c t (T_Pump (set_queue p (p_queue p ++ [cmd])))) id cmd false
     else set_mode c (Blocked_Cmd t id cmd))).
  2: { destruct (p_phase p); try done; by apply Hgo. }
  intros Hph. destruct (_ <? _)%nat.
  2: { apply (fed_keep _ c); try done.
       - intros t' _. unfold pending. by rewrite Hm.
       - by intros t' id' cmd' [= <- <- <-]. }
  assert (Hnew : pump_fed ms (set_mode c Ready) t (set_queue p (p_queue p ++ [cmd]))).
  { destruct (Fp t p Et) as (pre & post & acc & rest & -> & Hd & Hu & Hc). rewrite Hp in Hc.
    specialize (Hc Hid). exists pre, post, (acc ++ queued_data [cmd]), []. split_and!; [done| | |done].
    - cbn [set_queue p_initial p_id]. rewrite Hd, Hc, app_nil_r. f_equal. unfold pending. rewrite Hm.
      rewrite bool_decide_eq_true_2 by done. by destruct cmd.
    - revert Hu. unfold upstream_ordered, in_hand. cbn [set_queue p_phase p_written p_queue p_initial].
      rewrite queued_snoc. destruct (p_phase p) as [|bs| |m []|]; try (intros <-; by rewrite <- ?app_assoc); apply prefix_app_r. }
  assert (Hall : forall c', c_tasks c' = <[t := T_Pump (set_queue p (p_queue p ++ [cmd]))]> (c_tasks c) ->
    c_streams c' ⊆ c_streams c -> c_mode c' = Ready -> c_next c' = c_next c -> conn_fed ms c').
  { intros c' Htk Hsub Hr Hn. assert (Hpe : forall t', pending c' t' = []) by (intros; apply pending_idle; by rewrite Hr).
    split; [| |by rewrite Hr|by rewrite Hr].
    - rewrite Htk. intros t' p' [[<- [= <-]]|[Hne Hl]]%lookup_insert_Some.
      + apply (pump_fed_keep _ _ _ _ _ Hnew). intros Hs. split; [by eapply lookup_weaken|]. by rewrite Hpe.
      + apply (pump_fed_keep _ c); [by apply Fp|]. intros Hs. pose proof (lookup_weaken _ _ _ _ Hs Hsub) as Hs'.
        split; [done|]. rewrite Hpe. symmetry. apply (Hother _ p'); [done|]. intros He. rewrite He in Hs'. congruence.
    - rewrite Htk, Hn. intros id' t' Hs. pose proof (lookup_weaken _ _ _ _ Hs Hsub) as Hs'.
      destruct (Fs _ _ Hs') as [? Hq]. split; [done|].
      intros p' [[<- [= <-]]|[Hne Hl]]%lookup_insert_Some; [exact (Hq p Et)|by apply Hq]. }
  unfold after_cmd. cbn [orb]. case_bool_decide; apply Hall; try done. apply delete_subseteq.
Qed.

Lemma fed_handler_send ms c m :
  conn_fed ms c -> (forall t id cmd, c_mode c <> Blocked_Cmd t id cmd) -> conn_fed ms (handler_send c m).
Proof.
  intros F Hm. unfold handler_send. destruct (has_room _); apply (fed_keep _ c); try done;
    intros t _; by rewrite (pending_idle c t).
Qed.

Lemma fed_admit ms pre c m :
  conn_wf c -> conn_fed ms c -> (forall t id cmd, c_mode c <> Blocked_Cmd t id cmd) -> ms = pre ++ [m] ->
  conn_fed ms (admit_request c m).
Proof.
  intros W F Hm Hms. unfold admit_request. destruct (0 <? c_permits c)%nat.
  2: { apply (fed_keep _ c); try done; [intros t _; by rewrite (pending_idle c t)|]. intros m' [= <-]. eauto. }
  assert (Hfresh : c_tasks c !! c_next c = None) by (by apply (wf_fresh _ W)).
  assert (Hne : forall t task, c_tasks c !! t = Some task -> t <> c_next c) by (intros t task Hl ->; congruence).
  destruct F as [Fp Fs Fm Fc].
  assert (Hold : forall c' t p, c_tasks c !! t = Some (T_Pump p) -> c_mode c' = Ready ->
    (c_streams c' !! p_id p = Some t -> c_streams c !! p_id p = Some t) -> pump_fed ms c' t p).
  { intros c' t p Hl Hr Hs. apply (pump_fed_keep _ c); [by apply Fp|]. intros Hs'. split; [auto|].
    rewrite !pending_idle; [done|done|intros; by rewrite Hr]. }
  destruct m as [|id pl|pl sg| |id pl|id pl|id half]; cbn [spawn]; try (split; [intros t p Hl; by apply Hold|done..]).
  - split; [| |done|done]; cbn.
    + intros t p [[<- ?]|[_ Hl]]%lookup_insert_Some; [done|by apply Hold].
    + intros id' t Hs. destruct (Fs _ _ Hs) as [Hlt Hp]. split; [lia|].
      intros p [[<- ?]|[_ Hl]]%lookup_insert_Some; [done|by apply Hp].
  - split; [| |done|done]; cbn.
    + intros t p [[<- [= <-]]|[_ Hl]]%lookup_insert_Some.
      * exists pre, [], [pl], []. split_and!; try done.
      * apply Hold; [done|done|]. cbn. intros [[_ <-]|[_ Hs]]%lookup_insert_Some; [|done]. by apply Hne in Hl.
    + intros id' t [[<- <-]|[_ Hs]]%lookup_insert_Some.
      * split; [lia|]. intros p. rewrite lookup_insert_eq. by intros [= <-].
      * destruct (Fs _ _ Hs) as [Hlt Hp]. split; [lia|].
        intros p [[<- ?]|[_ Hl]]%lookup_insert_Some; [lia|by apply Hp].
Qed.

Lemma fed_data_message ms c m :
  conn_wf c -> conn_fed ms c -> c_mode c = Ready -> conn_fed (ms ++ [m]) (handle_data_message c m).
Proof.
  intros W F Hr. assert (Hno : forall t id cmd, c_mode c <> Blocked_Cmd t id cmd) by (intros; by rewrite Hr).
  destruct m as [|id pl|pl sg| |id pl|id pl|id half]; cbn [handle_data_message]; try by apply fed_other.
  - destruct (too_large pl); [apply fed_handler_send|eapply fed_admit]; try done; by apply fed_other.
  - destruct (too_large pl); [apply fed_handler_send|eapply fed_admit]; try done; by apply fed_other.
  - destruct (c_streams c !! id) as [t|] eqn:Hs.
    2: { apply fed_handler_send; [|done]. apply fed_other; try done. by intros ? ? [= <- <-]. }
    destruct (too_large pl) eqn:Hl.
    { apply fed_handler_send; [|done]. apply fed_other; try done. intros ? ? [= <- <-]. by rewrite Hl. }
    rewrite <- (send_cmd_mode c (Blocked_Cmd t id (Cmd_Data pl))). apply fed_send; [|done].
    apply fed_message; try done. intros i. cbn. rewrite Hl. cbn. rewrite andb_true_r.
    rewrite (bool_decide_ext (id = i) (i = id)) by (split; congruence). by case_bool_decide.
  - destruct (c_streams c !! id) as [t|] eqn:Hs; [|by apply fed_other].
    rewrite <- (send_cmd_mode c (Blocked_Cmd t id (Cmd_Close half))). apply fed_send; [|done].
    apply fed_message; try done. intros i. by case_bool_decide.
Qed.

Lemma fed_resume ms c c' : conn_wf c -> conn_fed ms c -> resume c = Some c' -> conn_fed ms c'.
Proof.
  intros W F. unfold resume. destruct (c_mode c) as [|m|m|t id cmd|] eqn:Hm; try done.
  - destruct (has_room _); [|done]. intros [= <-]. apply fed_handler_send; [done|]. intros; by rewrite Hm.
  - destruct (0 <? _)%nat; [|done]. intros [= <-]. destruct (fd_permit _ _ F _ Hm) as [pre Hpre].
    eapply fed_admit; try done. intros; by rewrite Hm.
  - pose proof (fed_send _ _ _ _ _ F Hm) as Hs. destruct (c_mode (send_cmd c t id cmd)); intros; by simplify_eq.
Qed.

Lemma fed_pump ms c t p e c' :
  conn_fed ms c -> c_tasks c !! t = Some (T_Pump p) -> pump_step c t p e = Some c' -> conn_fed ms c'.
Proof.
  intros [Fp Fs Fm Fc] Ht Hs. apply pump_step_shape in Hs as (Es & Em & En & Htk).
  assert (Hpe : forall t, pending c' t = pending c t) by (intros; unfold pending; by rewrite Em).
  split; [| |by rewrite Em|by rewrite Em, Es].
  - destruct Htk as [->|(p' & -> & Hid & Hin & _ & Hmv)].
    + intros t' q [_ Hl]%lookup_delete_Some. apply (pump_fed_keep _ c); [by apply Fp|]. by rewrite Es, Hpe.
    + intros t' q [[<- [= <-]]|[_ Hl]]%lookup_insert_Some.
      * destruct (Fp t p Ht) as (pre & post & acc & rest & Hms & Hd & Hu & Hc). exists pre, post, acc, rest.
        rewrite Hid, Hin, Es, Hpe. auto.
      * apply (pump_fed_keep _ c); [by apply Fp|]. by rewrite Es, Hpe.
  - rewrite Es, En. intros id t' Hl. destruct (Fs _ _ Hl) as [? Hq]. split; [done|]. intros q.
    destruct Htk as [->|(p' & -> & Hid & _)].
    + intros [_ ?]%lookup_delete_Some. auto.
    + intros [[<- [= <-]]|[_ ?]]%lookup_insert_Some; [rewrite Hid|]; auto.
Qed.

Lemma fed_data ms c t id pl reply e c' :
  conn_fed ms c -> c_tasks c !! t = Some (T_Data id pl reply) -> data_step c t id pl reply e = Some c' ->
  conn_fed ms c'.
Proof.
  intros [Fp Fs Fm Fc] Ht Hs.
  assert (Hshape : c_streams c' = c_streams c /\ c_mode c' = c_mode c /\ c_next c' = c_next c /\
    forall t' p, c_tasks c' !! t' = Some (T_Pump p) -> c_tasks c !! t' = Some (T_Pump p)).
  { revert Hs. unfold data_step. destruct reply as [m|], e; try done.
    - destruct (push_response c m) as [[c1 b]|] eqn:Ep; [|done]. apply push_response_same in Ep as (Et & ? & ? & ?).
      intros [= <-]. split_and!; try done. cbn. rewrite Et. by intros t' p [_ ?]%lookup_delete_Some.
    - intros [= <-]. split_and!; try done. cbn. by intros t' p [[_ ?]|[_ ?]]%lookup_insert_Some.
    - intros [= <-]. split_and!; try done. cbn. by intros t' p [[_ ?]|[_ ?]]%lookup_insert_Some. }
  destruct Hshape as (Es & Em & En & Htk). split; [| |by rewrite Em|by rewrite Em, Es].
  - intros t' p Hl%Htk. apply (pump_fed_keep _ c); [by apply Fp|]. unfold pending. by rewrite Es, Em.
  - rewrite Es, En. intros i t' Hl. destruct (Fs _ _ Hl). split; [done|]. eauto.
Qed.

Lemma fed_sent ms c r : conn_fed ms c -> conn_fed ms (add_sent c r).
Proof. intros F. pose proof F as [_ _ Fm Fc]. by apply (fed_keep _ c). Qed.

Lemma fed_close_after ms c m : conn_fed ms c -> conn_fed (ms ++ [m]) (close c).
Proof.
  intros [Fp _ _ _]. split; [|done|done|done]. cbn. intros t p Hl.
  destruct (Fp t p Hl) as (pre & post & acc & rest & -> & Hd & Hu & _).
  exists pre, (post ++ [m]), acc, (rest ++ stream_data (p_id p) [m]). split_and!; [by rewrite <- app_assoc| |done|done].
  rewrite stream_data_snoc, app_comm_cons, Hd. by rewrite <- app_assoc.
Qed.

Lemma fed_exec ms c g e c' g' :
  conn_wf c -> conn_fed ms c -> step (c, g) e = Some (c', g') -> conn_fed (ms ++ received [e]) c'.
Proof.
  intros W F. pose proof F as [_ _ Fm Fc].
  destruct e as [m sent| |sent| | |t e|t e]; cbn [exec received omap list_omap]; rewrite ?app_nil_r.
  - destruct (c_mode c) eqn:Hr; try done. intros [= Hh]. revert Hh. unfold handle_message.
    pose proof (fed_data_message _ _ m W F Hr) as Hd. pose proof (fed_close_after _ _ m F) as Hcl.
    destruct (negb _).
    { destruct sent; intros [= <- _]; [|done]. by apply fed_close_after, fed_sent. }
    assert (F' : (forall id bs, m <> CM_StreamData id bs) -> conn_fed (ms ++ [m]) c).
    { intros Hm. apply fed_other; try done. intros id bs ->. by destruct (Hm id bs). }
    destruct m as [|id pl|pl sg| |id pl|id pl|id half]; try (intros [= <- _]; done); specialize (F' ltac:(done)).
    + destruct (attest _); [|by intros [= <- _]]. destruct sent; intros [= <- _]; [by apply fed_sent|done].
    + destruct (control pl sg g) as [[ok|] g1]; [|by intros [= <- _]]. destruct sent; intros [= <- _]; [by apply fed_sent|done].
    + destruct sent; intros [= <- _]; [by apply fed_sent|done].
  - destruct (c_mode c); try done. intros [= <- _]. by apply fed_close.
  - destruct (c_mode c) eqn:Hr; try done. destruct (c_responses c) as [|r rest]; [done|].
    destruct sent; intros [= <- _]; [|by apply fed_close]. apply fed_sent. apply (fed_keep _ c); try done; cbn; by rewrite Hr.
  - destruct (c_mode c) eqn:Hr; try done. destruct (c_done c) as [|id rest]; [done|]. intros [= <- _].
    apply (fed_keep _ c); try done; cbn; [apply delete_subseteq|by rewrite Hr..].
  - destruct (resume c) as [c1|] eqn:Er; simpl; [|done]. intros [= <- _]. by eapply fed_resume.
  - destruct (c_tasks c !! t) as [[|p]|] eqn:Et; try done.
    destruct (pump_step c t p e) as [c1|] eqn:Ep; simpl; [|done]. intros [= <- _]. by eapply fed_pump.
  - destruct (c_tasks c !! t) as [[id pl reply|]|] eqn:Et; try done.
    destruct (data_step c t id pl reply e) as [c1|] eqn:Ep; simpl; [|done]. intros [= <- _]. by eapply fed_data.
Qed.

Lemma fed_run es c g c' g' ms :
  conn_wf c -> conn_fed ms c -> go (c, g) es = Some (c', g') -> conn_fed (ms ++ received es) c'.
Proof.
  revert c g ms. induction es as [|e es IH]; intros c g ms W F; cbn [run].
  - intros [= <- _]. by rewrite app_nil_r.
  - destruct (step (c, g) e) as [[c1 g1]|] eqn:Ee; cbn [mbind option_bind]; [|done]. intros Hr.
    assert (Hrec : received (e :: es) = received [e] ++ received es) by (apply (omap_app _ [e])).
    rewrite Hrec, app_assoc. apply (IH c1 g1); [by eapply exec_wf|by eapply fed_exec|done].
Qed.

Lemma fed_connected kind : conn_fed [] (connected kind).
Proof. by split. Qed.

(** C40: a connection stays bounded and its streams carry what the client sent.
    Under every schedule of the handler, the tasks and the workload: at most 64
    responses, 64 finished streams and, per stream, 64 commands wait, and every
    task holds one of 64 permits.  A stream's pump was opened by a message of the
    client; what it wrote to the workload, what it is writing and what waits in
    its queue are, in this order, that message's payload and the data of the
    client's later messages for this very id (those over the size limit, which
    are answered with an error, apart), as far as the handler passed them on:
    all of them while the stream is open at the handler, the one it is inside
    the send of apart.  A pump that is returning has written a prefix of them. *)
Theorem connection_is_bounded_and_ordered kind es g c g' :
  go (connected kind, g) es = Some (c, g') ->
  (length (c_responses c) <= 64)%nat /\ (length (c_done c) <= 64)%nat /\
  (c_permits c + size (c_tasks c) = 64)%nat /\
  (forall t p, c_tasks c !! t = Some (T_Pump p) ->
     (length (p_queue p) <= 64)%nat /\
     exists pre post passed rest,
       received es = pre ++ CM_OpenStream (p_id p) (p_initial p) :: post /\
       p_initial p :: stream_data (p_id p) post = passed ++ rest /\
       (c_streams c !! p_id p = Some t -> rest = pending c t) /\
       p_written p `prefix_of` passed /\
       (match p_phase p with P_Sending _ true | P_Exiting => False | _ => True end ->
        p_written p ++ in_hand p ++ queued_data (p_queue p) = passed)).
Proof.
  intros Hr. pose proof (fed_run _ _ _ _ _ _ (connected_wf kind) (fed_connected kind) Hr) as F.
  apply run_wf in Hr; [|apply connected_wf]. destruct Hr. split_and!; try done.
  intros t p Ht. split; [by apply (wf_pumps0 t p)|].
  destruct (fd_pumps _ _ F t p Ht) as (pre & post & acc & rest & Hms & Hd & Hu & Hc).
  exists pre, post, acc, rest. split_and!; try done; [by apply upstream_prefix|].
  revert Hu. unfold upstream_ordered. by destruct (p_phase p) as [|bs| |m []|].
Qed.

(** ** The two ports *)

Lemma after_cmd_kind c id cmd b : c_kind (after_cmd c id cmd b) = c_kind c.
Proof. unfold after_cmd. by destruct (_ || _). Qed.

Lemma send_cmd_kind c t id cmd : c_kind (send_cmd c t id cmd) = c_kind c.
Proof.
  unfold send_cmd. destruct (c_tasks c !! t) as [[|p]|]; rewrite ?after_cmd_kind; try done.
  destruct (p_phase p); rewrite ?after_cmd_kind; try done;
    destruct (_ <? _)%nat; by rewrite ?after_cmd_kind.
Qed.

Lemma handler_send_kind c m : c_kind (handler_send c m) = c_kind c.
Proof. unfold handler_send. by destruct (has_room _). Qed.

Lemma admit_request_kind c m : c_kind (admit_request c m) = c_kind c.
Proof. unfold admit_request. destruct (0 <? _)%nat; [|done]. by destruct m. Qed.

Lemma handle_data_message_kind c m : c_kind (handle_data_message c m) = c_kind c.
Proof.
  destruct m; simpl; repeat case_match; rewrite ?handler_send_kind, ?admit_request_kind, ?send_cmd_kind; done.
Qed.

Lemma push_response_kind c m c' b : push_response c m = Some (c', b) -> c_kind c' = c_kind c.
Proof.
  unfold push_response. destruct (is_closed c); [intros; by simplify_eq|].
  destruct (has_room _); intros; by simplify_eq.
Qed.

Lemma pump_step_kind c t p e c' : pump_step c t p e = Some c' -> c_kind c' = c_kind c.
Proof.
  unfold pump_step. destruct (p_phase p), e; try done.
  all: try (intros; by simplify_eq).
  - destruct (_ || _); [done|]. destruct bs; intros; by simplify_eq.
  - destruct (p_eof p); intros; by simplify_eq.
  - destruct (p_queue p) as [|[|[]] q]; [destruct (sender_alive c t p)|..]; intros; by simplify_eq.
  - destruct (push_response c m) as [[c1 b]|] eqn:E; [|done]. apply push_response_kind in E.
    intros; by simplify_eq.
  - destruct (is_closed c); [intros; by simplify_eq|]. destruct (_ <? _)%nat; intros; by simplify_eq.
Qed.

Lemma data_step_kind c t id pl reply e c' : data_step c t id pl reply e = Some c' -> c_kind c' = c_kind c.
Proof.
  unfold data_step. destruct reply, e; try done; try (intros; by simplify_eq).
  destruct (push_response c s) as [[c1 b]|] eqn:E; [|done]. apply push_response_kind in E.
  intros; by simplify_eq.
Qed.

Lemma exec_kind c g e c' g' :
  step (c, g) e = Some (c', g') -> c_kind c' = c_kind c /\ (c_kind c = Public -> g' = g).
Proof.
  destruct e as [m sent| |sent| | |t e|t e]; cbn [exec].
  - destruct (c_mode c); try done. intros [= Hh]. revert Hh. unfold handle_message.
    destruct (allowed m (c_kind c)) eqn:Ea; cbn [negb]; [|destruct sent; intros; by simplify_eq].
    destruct m as [|id pl|pl sg| |id pl|id pl|id half];
      try (intros; simplify_eq; split; [apply handle_data_message_kind|done]).
    + destruct (attest _), sent; intros; by simplify_eq.
    + destruct (control pl sg g) as [[ok|] g1], sent; intros; simplify_eq; (split; [done|]);
        intros Hk; by rewrite Hk in Ea.
    + destruct sent; intros; by simplify_eq.
  - destruct (c_mode c); try done. intros; by simplify_eq.
  - destruct (c_mode c); try done. destruct (c_responses c); [done|]. destruct sent; intros; by simplify_eq.
  - destruct (c_mode c); try done. destruct (c_done c); [done|]. intros; by simplify_eq.
  - unfold resume. destruct (c_mode c) as [|m|m|t id cmd|]; try done; simpl.
    + destruct (has_room _); simpl; [|done]. intros; simplify_eq. by rewrite handler_send_kind.
    + destruct (0 <? _)%nat; simpl; [|done]. intros; simplify_eq. by rewrite admit_request_kind.
    + destruct (c_mode (send_cmd c t id cmd)); simpl; intros; simplify_eq; by rewrite send_cmd_kind.
  - destruct (c_tasks c !! t) as [[|p]|]; try done.
    destruct (pump_step c t p e) as [c1|] eqn:Ep; simpl; [|done]. apply pump_step_kind in Ep.
    intros; by simplify_eq.
  - destruct (c_tasks c !! t) as [[id pl reply|]|]; try done.
    destruct (data_step c t id pl reply e) as [c1|] eqn:Ep; simpl; [|done]. apply data_step_kind in Ep.
    intros; by simplify_eq.
Qed.

(** The two ports are separate. Whatever a client of the public port
    sends, and however its tasks run, the control state is untouched, so the
    single-use nonce cannot be spent from there; and a connection of the control
    port never starts a task towards the workload. *)
Theorem ports_are_separate kind es g c g' :
  go (connected kind, g) es = Some (c, g') ->
  (kind = Public -> g' = g) /\ (kind = Control -> c_tasks c = ∅).
Proof.
  intros Hr. pose proof (run_wf _ _ _ _ _ (connected_wf kind) Hr) as W.
  apply (run_ind (fun cg => c_kind cg.1 = kind /\ (kind = Public -> cg.2 = g)) es (connected kind, g))
    in Hr as [Hk Hg]; [|intros [c1 g1] e [c2 g2] [Hk Hg] He|done].
  - split; [done|]. intros ->. by apply wf_control.
  - apply exec_kind in He as [Hk2 Hg2]. simpl in *. split; [congruence|]. intros Hp.
    rewrite Hg2, Hg; [done|done|congruence].
Qed.

(** ** Stalls *)

(** The handler is inside a send to pump [t], whose queue is full, while the
    pump is inside a send to the response channel, which is full and which only
    the handler drains. *)
Definition duplex_stalled (t : nat) (c : Conn) : Prop :=
  exists id cmd p m ret, c_mode c = Blocked_Cmd t id cmd /\ c_tasks c !! t = Some (T_Pump p) /\
    p_phase p = P_Sending m ret /\ length (p_queue p) = MAX_IN_FLIGHT /\
    length (c_responses c) = MAX_IN_FLIGHT.

Lemma full_no_push c m : is_closed c = false -> length (c_responses c) = MAX_IN_FLIGHT ->
  push_response c m = None.
Proof. unfold push_response, has_room. intros -> ->. done. Qed.

(** A task's step leaves the handler and the other tasks alone; without room it
    leaves the responses alone. *)
Lemma pump_step_frame c t p e c' :
  is_closed c = false -> length (c_responses c) = MAX_IN_FLIGHT -> pump_step c t p e = Some c' ->
  c_mode c' = c_mode c /\ c_responses c' = c_responses c /\ c_sent c' = c_sent c /\
  (forall t', t' <> t -> c_tasks c' !! t' = c_tasks c !! t') /\
  (forall m ret, p_phase p <> P_Sending m ret).
Proof.
  intros Hcl Hfull.
  assert (Hset : forall p', c_mode (set_task c t (T_Pump p')) = c_mode c /\
    forall t', t' <> t -> c_tasks (set_task c t (T_Pump p')) !! t' = c_tasks c !! t').
  { intros p'. split; [done|]. intros t' Hne. simpl. by rewrite lookup_insert_ne. }
  unfold pump_step. destruct (p_phase p) eqn:Eph, e; try done.
  all: try (intros [= <-]; by split_and!; try apply Hset).
  - destruct (_ || _); [done|]. destruct bs; intros [= <-]; by split_and!; try apply Hset.
  - destruct (p_eof p); [done|]. intros [= <-]; by split_and!; try apply Hset.
  - destruct (p_queue p) as [|[|[]] q]; [destruct (sender_alive c t p); [done|]|..];
      intros [= <-]; by split_and!; try apply Hset.
  - by rewrite full_no_push.
  - rewrite Hcl. destruct (_ <? _)%nat; [|done]. intros [= <-]. split_and!; try done.
    intros t' Hne. simpl. by rewrite lookup_delete_ne.
Qed.

Lemma data_step_frame c t id pl reply e c' :
  is_closed c = false -> length (c_responses c) = MAX_IN_FLIGHT -> data_step c t id pl reply e = Some c' ->
  c_mode c' = c_mode c /\ c_responses c' = c_responses c /\ c_sent c' = c_sent c /\
  (forall t', t' <> t -> c_tasks c' !! t' = c_tasks c !! t').
Proof.
  intros Hcl Hfull. unfold data_step. destruct reply as [m|], e; try done.
  - by rewrite full_no_push.
  - intros [= <-]. split_and!; try done. intros t' Hne. simpl. by rewrite lookup_insert_ne.
  - intros [= <-]. split_and!; try done. intros t' Hne. simpl. by rewrite lookup_insert_ne.
Qed.

Lemma duplex_stalled_step t c g e c' g' :
  duplex_stalled t c -> step (c, g) e = Some (c', g') -> duplex_stalled t c' /\ c_sent c' = c_sent c.
Proof.
  intros (id & cmd & p & m & ret & Hm & Ht & Hph & Hq & Hr).
  assert (Hcl : is_closed c = false) by (unfold is_closed; by rewrite Hm).
  destruct e as [m' sent| |sent| | |t' e|t' e]; cbn [exec]; rewrite ?Hm; try done.
  - unfold resume. rewrite Hm. unfold send_cmd at 1. rewrite Ht, Hph, Hq. done.
  - destruct (c_tasks c !! t') as [[|p']|] eqn:Et'; try done.
    destruct (pump_step c t' p' e) as [c1|] eqn:Ep; simpl; [|done]. intros; simplify_eq.
    apply pump_step_frame in Ep as (Hm1 & Hr1 & Hs1 & Hk1 & Hns); [|done|done]. split; [|done].
    destruct (decide (t = t')) as [->|Hne]; [simplify_eq; by destruct (Hns m ret)|].
    exists id, cmd, p, m, ret. rewrite Hm1, Hr1, Hk1 by done. done.
  - destruct (c_tasks c !! t') as [[id' pl reply|]|] eqn:Et'; try done.
    destruct (data_step c t' id' pl reply e) as [c1|] eqn:Ep; simpl; [|done]. intros; simplify_eq.
    apply data_step_frame in Ep as (Hm1 & Hr1 & Hs1 & Hk1); [|done|done]. split; [|done].
    destruct (decide (t = t')) as [->|Hne]; [by simplify_eq|].
    exists id, cmd, p, m, ret. rewrite Hm1, Hr1, Hk1 by done. done.
Qed.

(** A stalled duplex stream stalls its connection for good. Once the
    handler waits for room in the command queue of a stream whose pump waits for
    room in the response channel, no schedule changes that: the client never
    gets another message and none of its messages is read again. *)
Theorem duplex_stall_is_permanent t c g es c' g' :
  duplex_stalled t c -> go (c, g) es = Some (c', g') -> duplex_stalled t c' /\ c_sent c' = c_sent c.
Proof.
  intros Hst. revert c g Hst. induction es as [|e es IH]; intros c g Hst; cbn [run]; [intros; by simplify_eq|].
  destruct (step (c, g) e) as [[c1 g1]|] eqn:Ee; simpl; [|done].
  destruct (duplex_stalled_step _ _ _ _ _ _ Hst Ee) as [Hst1 Hs1]. intros Hr.
  destruct (IH c1 g1 Hst1 Hr) as [Hst' Hs']. split; [done|congruence].
Qed.

(** Every permit is held by the pump of a live stream and the handler waits for
    one: no pump is about to return, and no close of both halves is queued. *)
Definition permits_exhausted (c : Conn) : Prop :=
  c_permits c = 0%nat /\ (exists m, c_mode c = Blocked_Permit m) /\
  forall t task, c_tasks c !! t = Some task -> exists p, task = T_Pump p /\
    c_streams c !! p_id p = Some t /\ (Cmd_Close Half_Both ∉ p_queue p) /\
    match p_phase p with P_Sending _ true | P_Exiting => False | _ => True end.

(** The events of a workload whose connections hold. *)
Definition workload_holds (e : Event) : Prop :=
  match e with Ev_Pump _ pe => workload_fails pe = false | _ => True end.

Lemma set_task_exhausted c t p p' :
  permits_exhausted c -> c_tasks c !! t = Some (T_Pump p) -> p_id p' = p_id p ->
  (Cmd_Close Half_Both ∉ p_queue p') ->
  match p_phase p' with P_Sending _ true | P_Exiting => False | _ => True end ->
  permits_exhausted (set_task c t (T_Pump p')).
Proof.
  intros (Hp & Hm & Hall) Ht Hid Hq Hph. split_and!; [done|done|]. intros t' task. simpl.
  rewrite lookup_insert. case_decide as Htt; [|apply Hall]. intros [= <-]. subst t'.
  exists p'. split_and!; try done. destruct (Hall t _ Ht) as (p0 & [= <-] & Hs & _). by rewrite Hid.
Qed.

Lemma permits_exhausted_step c g e c' g' :
  permits_exhausted c -> workload_holds e -> step (c, g) e = Some (c', g') -> permits_exhausted c'.
Proof.
  intros Hex Hw. pose proof Hex as (Hp & (m & Hm) & Hall).
  destruct e as [m' sent| |sent| | |t e|t e]; cbn [exec]; rewrite ?Hm; try done.
  - unfold resume. rewrite Hm, Hp. done.
  - destruct (c_tasks c !! t) as [[|p]|] eqn:Et; try done.
    destruct (Hall t _ Et) as (p0 & [= <-] & Hs & Hq & Hph).
    destruct (pump_step c t p e) as [c1|] eqn:Ep; simpl; [|done]. intros; simplify_eq. revert Ep.
    simpl in Hw. unfold pump_step. destruct (p_phase p) as [|bs| |ms ret|] eqn:Eph, e; try done.
    all: try (intros [= <-]; by eapply set_task_exhausted).
    + destruct (_ || _); [done|]. destruct bs; intros [= <-]; by eapply set_task_exhausted.
    + destruct (p_queue p) as [|[bs|[]] q] eqn:Equ.
      * unfold sender_alive. by rewrite bool_decide_true.
      * intros [= <-]. eapply set_task_exhausted; try done. simpl. set_solver.
      * intros [= <-]. eapply set_task_exhausted; try done. simpl. set_solver.
      * set_solver.
    + destruct (push_response c ms) as [[c1 sent]|] eqn:Epr; [|done]. destruct ret; [done|].
      revert Epr. unfold push_response, is_closed. rewrite Hm. destruct (has_room _); [|done].
      intros [= <- <-] [= <-]. eapply set_task_exhausted; try done. by destruct ms.
  - destruct (c_tasks c !! t) as [[id pl reply|]|] eqn:Et; try done.
    destruct (Hall t _ Et) as (p0 & ? & _). done.
Qed.

(** Sixty-four open streams block the connection at the next request. While
    the workload's connections hold, a handler that waits for a permit with all
    of them held by live streams waits for ever: it reads no message, not even
    the one that would close a stream, and delivers nothing. *)
Theorem open_streams_exhaust_the_connection c g es c' g' :
  permits_exhausted c -> Forall workload_holds es -> go (c, g) es = Some (c', g') ->
  permits_exhausted c'.
Proof.
  intros Hex Hw. revert c g Hex. induction es as [|e es IH]; intros c g Hex; cbn [run]; [intros; by simplify_eq|].
  apply Forall_cons in Hw as [Hw Hws].
  destruct (step (c, g) e) as [[c1 g1]|] eqn:Ee; simpl; [|done]. apply IH; [done|].
  by eapply permits_exhausted_step.
Qed.
End Run.

(** ** Concrete schedules *)

Module ConnDemo.
Abbreviation go := (run (G := unit) (fun _ => []) (fun _ _ g => (Some true, g)) Some).

Definition opened (t : nat) (id : Z) : list Event :=
  [Ev_Recv (CM_OpenStream id [7]) true; Ev_Pump t Pump_Connected; Ev_Pump t Pump_Written].

(** The workload sends 65 chunks and the client 65, and the handler happens to
    read the client's first. *)
Definition duplex : list Event :=
  opened 0 1 ++
  concat (replicate 64 [Ev_Pump 0 (Pump_Read [1]); Ev_Pump 0 Pump_Sent]) ++
  [Ev_Pump 0 (Pump_Read [1])] ++
  replicate 65 (Ev_Recv (CM_StreamData 1 [2]) true).

Definition stalled : Conn := default (connected Public) (fst <$> go (connected Public, tt) duplex).

Lemma duplex_runs : go (connected Public, tt) duplex = Some (stalled, tt).
Proof. vm_compute. reflexivity. Qed.

Lemma stalled_is_stalled : duplex_stalled 0 stalled.
Proof.
  eexists 1, (Cmd_Data [2]), _, _, _. split_and!; vm_compute; reflexivity.
Qed.

(** Sixty-four streams, then one more request. *)
Definition crowd : list Event :=
  concat (zip_with opened (seq 0 64) (seqZ 1 64)) ++ [Ev_Recv (CM_Data 99 [3]) true].
Definition crowded : Conn := default (connected Public) (fst <$> go (connected Public, tt) crowd).

Example crowd_blocks : c_mode crowded = Blocked_Permit (CM_Data 99 [3]) /\ c_permits crowded = 0%nat.
Proof. vm_compute. auto. Qed.

(** An identifier opened twice: the first pump ends because its sender was
    replaced, and its report removes the second stream, whose data the server
    then does not know. *)
Definition reused : list Event :=
  opened 0 1 ++ opened 1 1 ++
  [Ev_Pump 0 Pump_Command; Ev_Pump 0 Pump_Reported; Ev_Reap; Ev_Recv (CM_StreamData 1 [2]) true].

Example reused_id_loses_the_stream :
  (fun cg => (c_streams cg.1 !! 1, c_responses cg.1, size (c_tasks cg.1)))
    <$> go (connected Public, tt) reused
  = Some (None, [SM_Error 1 Text_UnknownStream], 1%nat).
Proof. vm_compute. reflexivity. Qed.
End ConnDemo.

(** In the stalled connection: 64 data frames in the queue, one in the send. *)
Lemma connection_is_bounded_and_ordered_witness :
  exists p, c_tasks ConnDemo.stalled !! 0%nat = Some (T_Pump p) /\
    [7] :: stream_data 1 (drop 1 (received ConnDemo.duplex)) = replicate 1 [7] ++ replicate 65 [2] /\
    exists passed, p_written p `prefix_of` passed.
Proof.
  destruct (c_tasks ConnDemo.stalled !! 0%nat) as [[|p]|] eqn:E; [vm_compute in E; discriminate| |vm_compute in E; discriminate].
  exists p. split; [reflexivity|]. split; [vm_compute; reflexivity|].
  destruct (connection_is_bounded_and_ordered _ _ _ _ _ _ _ _ ConnDemo.duplex_runs) as (_ & _ & _ & Hp).
  destruct (Hp 0%nat p E) as (_ & pre & post & passed & rest & _ & _ & _ & Hw & _). exists passed. exact Hw.
Defined.

Lemma ports_are_separate_witness :
  (Public = Public -> tt = tt) /\ (Public = Control -> c_tasks ConnDemo.stalled = ∅).
Proof. exact (ports_are_separate _ _ _ _ _ _ _ _ ConnDemo.duplex_runs). Defined.

Lemma duplex_stall_is_permanent_witness :
  duplex_stalled 0 ConnDemo.stalled /\ c_sent ConnDemo.stalled = c_sent ConnDemo.stalled.
Proof.
  apply (duplex_stall_is_permanent (G := unit) (fun _ => []) (fun _ _ g => (Some true, g)) Some 0
    ConnDemo.stalled tt [] ConnDemo.stalled tt).
  - exact ConnDemo.stalled_is_stalled.
  - reflexivity.
Defined.

(** ** Dialing the workload *)

Class ForwardWorkload (T : Type) `{Workload T, Clock T} : Prop := {
  dial_sleep d t : 0 <= d -> instant_now t + d <= instant_now (sleep d t);
  dial_forward t : instant_now t <= instant_now (tcp_connect t).2;
}.

Section Dial.
Context {T : Type} `{ForwardWorkload T}.

Lemma connect_loop_total fuel retry deadline (t : T) :
  0 < retry -> Z.max 0 (deadline - instant_now t) / retry + 1 < Z.of_nat fuel ->
  is_Some (connect_loop fuel retry deadline t).
Proof.
  intros Hpos. revert t. induction fuel as [|fuel IH]; intros t Hf.
  { assert (0 <= Z.max 0 (deadline - instant_now t) / retry) by (apply Z.div_pos; lia). lia. }
  cbn [connect_loop]. pose proof (dial_forward t) as Hd. destruct (tcp_connect t) as [[|[]] t1]; try done.
  simpl in Hd. destruct (seen_up t1); [done|]. cbn [negb andb].
  destruct (Z.leb_spec (instant_now t1 + retry) deadline); [|done]. apply IH.
  pose proof (dial_sleep retry t1 ltac:(lia)) as Hs.
  enough (Z.max 0 (deadline - instant_now (sleep retry t1)) / retry + 1
          <= Z.max 0 (deadline - instant_now t) / retry) by lia.
  rewrite <-Z.div_add by lia. apply Z.div_le_mono; lia.
Qed.

(** A dial of the workload ends within 242 attempts; once the workload has
    been seen, or for any error but a refusal, after the first. *)
Theorem workload_dial_ends (t : T) :
  (exists r t', connect_to_workload t = Some (r, t')) /\
  (forall e t1, tcp_connect t = (Err e, t1) -> e <> ConnectionRefused \/ seen_up t1 = true ->
     connect_to_workload t = Some (Err e, t1)).
Proof.
  unfold connect_to_workload, connect_with_startup_grace. split.
  - destruct (connect_loop_total DIAL_ATTEMPTS WORKLOAD_DIAL_RETRY_INTERVAL
      (instant_now t + WORKLOAD_STARTUP_GRACE) t) as [[r t'] Hr]; [done| |eauto].
    replace (Z.max 0 _) with WORKLOAD_STARTUP_GRACE by (unfold WORKLOAD_STARTUP_GRACE; lia).
    by vm_compute.
  - intros e t1 Hc Hor. change DIAL_ATTEMPTS with (S (pred DIAL_ATTEMPTS)). cbn [connect_loop]. rewrite Hc.
    destruct e; [|done]. destruct Hor as [?|Hs]; [done|]. by rewrite Hs.
Qed.
End Dial.
