(* ===== verification/Framing.v ===== *)
(** The frames of the synchronizer's own sessions: the customer listener
    ([read_frame], [write_cbor_frame] of [synchronizer/src/listener.rs]) and the
    peer mesh ([read_ciphertext_frame], [decrypt_frame], [read_frame] and
    [write_frame] of [synchronizer/src/mesh/handshake.rs]).

    Both write a Noise message behind a four-byte length, as the enclave's
    transport does, and read from a stream until it ends: an end inside a length
    is a clean close, an end inside a body an error.  A reader is a function of
    the whole stream the other side leaves, and returns what is left of it. *)
From stdpp Require Import base list strings.
From S2P Require Import Prelude Text Signing Transport.
#[local] Open Scope Z_scope.

Definition MAX_FRAME_SIZE : Z := 65535.

Inductive FrameError : Type :=
| FE_Io
| FE_TooLarge (len : Z)
| FE_Crypto
| FE_Cbor (detail : string).

Section Frames.
Context `{Noise}.

(** [Ok None] is the end of the stream. *)
Definition read_ciphertext_frame (stream : bytes) : result (option bytes) FrameError * bytes :=
  if (length stream <? 4)%nat then (Ok None, [])
  else
    let len := be_decode (take 4 stream) in
    let rest := drop 4 stream in
    if MAX_FRAME_SIZE <? len then (Err (FE_TooLarge len), rest)
    else if Z.of_nat (length rest) <? len then (Err FE_Io, [])
    else (Ok (Some (take (Z.to_nat len) rest)), drop (Z.to_nat len) rest).

Context {A : Type} `{Cbor A}.

Definition decrypt_frame (st : NoiseState) (ciphertext : bytes) : result (A * NoiseState) FrameError :=
  match read_message st ciphertext with
  | None => Err FE_Crypto
  | Some (plaintext, st) => let? frame := map_err FE_Cbor (from_reader plaintext) in Ok (frame, st)
  end.

Definition read_frame (st : NoiseState) (stream : bytes)
    : result (option (A * NoiseState)) FrameError * bytes :=
  match read_ciphertext_frame stream with
  | (Ok (Some ciphertext), rest) =>
      match decrypt_frame st ciphertext with
      | Ok fs => (Ok (Some fs), rest)
      | Err e => (Err e, rest)
      end
  | (Ok None, rest) => (Ok None, rest)
  | (Err e, rest) => (Err e, rest)
  end.

(** The writes of one frame: its length, then the ciphertext in chunks. *)
Definition write_frame (st : NoiseState) (frame : A) : result (list bytes * NoiseState) FrameError :=
  match write_message st (encode frame) with
  | None => Err FE_Crypto
  | Some (ciphertext, st) =>
      Ok (be_encode 4 (Z.of_nat (length ciphertext)) :: chunks VSOCK_WRITE_CHUNK ciphertext, st)
  end.

(** The reader's loop: frames until the stream ends or fails; every frame
    takes at least four bytes. *)
Fixpoint read_frames (fuel : nat) (st : NoiseState) (stream : bytes) : list A * result unit FrameError :=
  match fuel with
  | O => ([], Ok tt)
  | S fuel =>
      match read_frame st stream with
      | (Ok (Some (frame, st)), rest) =>
          let (frames, r) := read_frames fuel st rest in (frame :: frames, r)
      | (Ok None, _) => ([], Ok tt)
      | (Err e, _) => ([], Err e)
      end
  end.

Definition read_stream (st : NoiseState) (stream : bytes) : list A * result unit FrameError :=
  read_frames (S (length stream)) st stream.

(** It is the writer of the enclave's transport. *)
Lemma write_frame_send st (frame : A) ws st' :
  write_frame st frame = Ok (ws, st') <-> send st frame = Some (ws, st').
Proof.
  unfold write_frame, send, seal, write_all_vsock.
  destruct (write_message _ _) as [[ct s]|]; split; intros; simplify_eq; done.
Qed.
End Frames.

Section Facts.
Context `{Noise, !NoiseLaws paired} {A : Type} `{Cbor A, !CborLaws A}.

(** A stream that is a prefix of one written frame and what follows it. *)
Lemma read_ciphertext_prefix (stream future ct tail : bytes) :
  Z.of_nat (length ct) <= 65535 ->
  stream ++ future = be_encode 4 (Z.of_nat (length ct)) ++ ct ++ tail ->
  (read_ciphertext_frame stream = (Ok None, []) /\ (length stream < 4)%nat) \/
  (read_ciphertext_frame stream = (Err FE_Io, []) /\ future <> []) \/
  exists rest, read_ciphertext_frame stream = (Ok (Some ct), rest) /\ rest ++ future = tail /\
    (length rest < length stream)%nat.
Proof.
  intros Hl Heq. unfold read_ciphertext_frame.
  destruct (Nat.ltb_spec (length stream) 4) as [|H4]; [by left|right].
  destruct (read_whole_frame _ _ _ _ Hl H4 Heq) as [-> Hrest].
  rewrite (proj2 (Z.ltb_ge MAX_FRAME_SIZE _)) by (unfold MAX_FRAME_SIZE; lia).
  destruct (Z.ltb_spec (Z.of_nat (length (drop 4 stream))) (Z.of_nat (length ct))) as [Hlt|Hge].
  - left. split; [done|]. intros ->. rewrite app_nil_r in Hrest.
    apply (f_equal length) in Hrest. rewrite length_app in Hrest. lia.
  - right. rewrite Nat2Z.id. exists (drop (length ct) (drop 4 stream)). split_and!.
    + do 3 f_equal. apply (f_equal (take (length ct))) in Hrest. rewrite take_app_le in Hrest by lia.
      by rewrite take_app_length in Hrest.
    + apply (f_equal (drop (length ct))) in Hrest. rewrite drop_app_le in Hrest by lia.
      by rewrite drop_app_length in Hrest.
    + rewrite !length_drop. lia.
Qed.

Lemma read_frames_prefix fuel s r (msgs : list A) ws s' stream future :
  paired s r -> send_all s msgs = Some (ws, s') -> stream ++ future = concat ws ->
  (length stream < fuel)%nat ->
  exists read rest, read_frames (A := A) fuel r stream = (read, rest) /\ read `prefix_of` msgs /\
    (rest = Ok tt \/ rest = Err FE_Io) /\ (future = [] -> read = msgs /\ rest = Ok tt).
Proof.
  revert s r msgs ws stream. induction fuel as [|fuel IH]; intros s r msgs ws stream Hp Hs Hc Hf; [lia|].
  destruct msgs as [|m msgs].
  { simpl in Hs. simplify_eq. simpl in Hc. apply app_nil in Hc as [-> ->].
    exists [], (Ok tt). split_and!; [done|by exists []|by left|done]. }
  apply send_all_cons in Hs as (ct & s1 & ws' & Hseal & Hs1 & Hcw & Hl). rewrite Hcw in Hc.
  cbn [read_frames]. unfold read_frame.
  destruct (read_ciphertext_prefix _ _ _ _ Hl Hc) as [[-> Hsh]|[[-> Hne]|(rest & -> & Hrest & Hlt)]].
  - exists [], (Ok tt). split_and!; [done|by exists (m :: msgs)|by left|]. intros ->.
    rewrite app_nil_r in Hc. apply (f_equal length) in Hc.
    rewrite !length_app, be_encode_length in Hc. lia.
  - exists [], (Err FE_Io). split_and!; [done|by exists (m :: msgs)|by right|done].
  - destruct (noise_roundtrip _ _ _ _ _ Hp Hseal) as (r' & Hr & Hp'). unfold decrypt_frame.
    rewrite Hr, (cbor_roundtrip m). cbn [map_err].
    destruct (IH s1 r' msgs ws' rest Hp' Hs1 Hrest) as (read & res & -> & [k ->] & Hres & Hall); [lia|].
    exists (m :: read), res. split_and!; [done|by exists k|done|].
    intros Hfut. destruct (Hall Hfut) as [<- ->]. done.
Qed.

(** A session reads what the other side wrote. From any prefix of the
    bytes of consecutive frames, as a host that cuts the stream leaves it, the
    reader returns a prefix of the frames, in order, each once, and then the end
    of the session or an I/O error, never a frame that was not written; from all
    the bytes it returns all the frames and the clean end. *)
Theorem frames_are_read_back s r (msgs : list A) ws s' stream future :
  paired s r -> send_all s msgs = Some (ws, s') -> stream ++ future = concat ws ->
  exists read res, read_stream (A := A) r stream = (read, res) /\ read `prefix_of` msgs /\
    (res = Ok tt \/ res = Err FE_Io) /\ (future = [] -> read = msgs /\ res = Ok tt).
Proof. intros. eapply read_frames_prefix; eauto. Qed.
End Facts.

#[local] Existing Instances NoiseDemo.toy_noise NoiseDemo.toy_noise_laws NoiseDemo.toy_bytes_cbor
  NoiseDemo.toy_bytes_cbor_laws.

Lemma frames_are_read_back_witness :
  read_stream (A := bytes) NoiseDemo.start NoiseDemo.wire = ([[10; 11]; [12]], Ok tt) /\
  exists read res, read_stream (A := bytes) NoiseDemo.start (take 9 NoiseDemo.wire) = (read, res) /\
    read `prefix_of` [[10; 11]; [12]].
Proof.
  split; [reflexivity|].
  destruct (frames_are_read_back (A := bytes) NoiseDemo.start NoiseDemo.start [[10; 11]; [12]]
              [[0; 0; 0; 3]; [7; 10; 11]; [0; 0; 0; 2]; [8; 12]] NoiseDemo.finish
              (take 9 NoiseDemo.wire) (drop 9 NoiseDemo.wire))
    as (read & res & He & Hpre & _); [reflexivity..|].
  exists read, res. exact (conj He Hpre).
Defined.
