(* ===== verification/Mesh.v ===== *)
(** The peer mesh of the synchronizer: the mutually attested sessions between
    the nodes of one cluster ([synchronizer/src/mesh/handshake.rs], [identity.rs],
    [attestation.rs], [config.rs], [transport.rs] and [mod.rs], with the opener
    and the identity signature of [enclavia-protocol/src/mesh.rs]).

    The host relays every byte between two nodes, so a connection is described
    by what the node reads from it: frames, the end, a failure or silence.  The
    I/O of a handshake is a small state-and-error monad over such a [Link],
    which also records the frames the node wrote. *)
From stdpp Require Import gmap sets list strings.
From S2P Require Import Prelude Text StateMachine Identity Signing Attestation LocalAttestation.
From S2P Require Import Wire Transport Framing.
#[local] Open Scope Z_scope.

(** ** Identity of a node *)

Inductive MeshIdentityError : Type := BadPubkey | SignatureShape | SignatureInvalid.

Record MeshIdentity `{P256} := mkMeshIdentity { mi_signing_key : SigningKey; mi_pubkey : bytes }.

Section Identity.
Context `{P256} (to_encoded_point : VerifyingKey -> bytes).

Definition sign_mesh_identity (signing_key : SigningKey) (handshake_hash : bytes) : bytes :=
  sig_to_bytes (sk_sign signing_key handshake_hash).

Definition verify_mesh_identity (mesh_pubkey signature handshake_hash : bytes)
    : result unit MeshIdentityError :=
  let? verifying := map_err (fun _ => BadPubkey) (vk_from_sec1_bytes mesh_pubkey) in
  let? sig := ok_or (sig_from_slice signature) SignatureShape in
  if vk_verify verifying handshake_hash sig then Ok tt else Err SignatureInvalid.

Definition from_signing_key (signing_key : SigningKey) : MeshIdentity :=
  mkMeshIdentity _ signing_key (to_encoded_point (sk_verifying_key signing_key)).

Definition sign_handshake (i : MeshIdentity) (handshake_hash : bytes) : bytes :=
  sign_mesh_identity (mi_signing_key i) handshake_hash.

(** [NsmAttestor::attest]. *)
Definition nsm_attest `{NitroLib} (nsm : NsmDevice) (mesh_pubkey handshake_hash : bytes)
    : result bytes LocalAttestationError :=
  let? v := request_local nsm (Some handshake_hash) (Some mesh_pubkey) in Ok (va_bytes v).
End Identity.

(** ** Configuration *)

(** A set of identity keys. *)
Abbreviation PcrAllowlist := (gset PcrKey).
Definition self_only (self_pcr_digest : PcrKey) : PcrAllowlist := {[ self_pcr_digest ]}.
Definition allowlist_admits (l : PcrAllowlist) (digest : PcrKey) : bool := bool_decide (digest ∈ l).

Record MeshConfig := mkMeshConfig {
  mc_self_name : string;
  mc_peers : list string;
  mc_allowlist : PcrAllowlist;
}.

(** The peers other than the node itself, each at its first place. *)
Fixpoint ordered_peers (self_name : string) (seen : gset string) (peers : list string) : list string :=
  match peers with
  | [] => []
  | p :: peers =>
      if bool_decide (p = self_name) then ordered_peers self_name seen peers
      else if bool_decide (p ∈ seen) then ordered_peers self_name seen peers
      else p :: ordered_peers self_name ({[ p ]} ∪ seen) peers
  end.

(** [MeshConfig::new]. *)
Definition mesh_config_new (self_name : string) (peers : list string) (self_pcr_digest : PcrKey)
    : MeshConfig :=
  mkMeshConfig self_name (ordered_peers self_name ∅ peers) (self_only self_pcr_digest).

(** ** The opener of a relayed connection *)

Definition OPEN_ACK_OK : Z := 0.
Inductive OpenAck : Type := OA_Ok | OA_Failed (byte : Z) | OA_Eof.

(** The stream after the opener, or a transport error. *)
Definition read_open_ack (stream : result bytes string) : result (OpenAck * bytes) string :=
  let? bs := stream in
  match bs with
  | [] => Ok (OA_Eof, [])
  | byte :: rest => if byte =? OPEN_ACK_OK then Ok (OA_Ok, rest) else Ok (OA_Failed byte, rest)
  end.

(** How the relay treats a dial. *)
Inductive DialFate : Type :=
| DF_ConnectFailed
| DF_OpenFailed
| DF_Answered (stream : result bytes string)
| DF_Silent.

Inductive DialError : Type := DE_Io | DE_Refused (byte : Z) | DE_Closed | DE_Timeout.

Definition DIAL_TIMEOUT : Z := 15000.

(** [VsockMeshDialer::dial] with [open_and_await_ack], under [DIAL_TIMEOUT]. *)
Definition dial (fate : DialFate) : result unit DialError :=
  match fate with
  | DF_ConnectFailed | DF_OpenFailed => Err DE_Io
  | DF_Silent => Err DE_Timeout
  | DF_Answered stream =>
      let? (ack, _) := map_err (fun _ => DE_Io) (read_open_ack stream) in
      match ack with
      | OA_Ok => Ok tt
      | OA_Failed byte => Err (DE_Refused byte)
      | OA_Eof => Err DE_Closed
      end
  end.

(** ** Frames and errors *)

Inductive MeshFrame : Type :=
| MF_Authenticate (nsm_doc identity_sig : bytes)
| MF_Hello (from : string)
| MF_Ping
| MF_Pong
| MF_Rpc (envelope : bytes).

Record PeerIdentity := mkPeerIdentity { pi_pcr_digest : PcrKey; pi_mesh_pubkey : bytes }.

Inductive HandshakeError : Type :=
| HE_Io
| HE_Noise (detail : string)
| HE_Crypto
| HE_LocalAttestation
| HE_FrameTooLarge (len : Z)
| HE_Cbor (detail : string)
| HE_NotAuthenticate
| HE_PeerAttestation (e : AttestationError)
| HE_PcrNotAllowed
| HE_IdentitySignature (e : MeshIdentityError)
| HE_PeerClosed
| HE_Timeout (phase : string) (after : Z).

Definition handshake_error (e : FrameError) : HandshakeError :=
  match e with
  | FE_Io => HE_Io
  | FE_TooLarge len => HE_FrameTooLarge len
  | FE_Crypto => HE_Crypto
  | FE_Cbor d => HE_Cbor d
  end.

Definition peer_rejection (e : HandshakeError) : option RejectionReason :=
  match e with
  | HE_PeerAttestation e => Some (reason e)
  | HE_PcrNotAllowed => Some RR_PcrMismatch
  | HE_IdentitySignature _ => Some RR_Signature
  | _ => None
  end.

(** ** A connection *)

Inductive ReadOutcome : Type :=
| Rd_Frame (f : MeshFrame)
| Rd_Eof
| Rd_Failed (e : FrameError)
| Rd_Silent.

(** What the reads will find, how the writes will end ([None]: written), and
    the frames written. *)
Record Link := mkLink {
  lk_reads : list ReadOutcome;
  lk_writes : list (option FrameError);
  lk_sent : list MeshFrame;
}.

Definition Io (A : Type) : Type := Link -> result A HandshakeError * Link.

Definition io_ret {A} (a : A) : Io A := fun l => (Ok a, l).
Definition io_lift {A} (r : result A HandshakeError) : Io A := fun l => (r, l).
Definition io_bind {A B} (m : Io A) (k : A -> Io B) : Io B :=
  fun l => match m l with
           | (Ok a, l) => k a l
           | (Err e, l) => (Err e, l)
           end.

Declare Scope mesh_scope.
#[local] Open Scope mesh_scope.
Notation "'do' x <- m ; k" := (io_bind m (fun x => k))
  (at level 10, x pattern, m at level 100, k at level 200) : mesh_scope.

(** [read_frame] under a deadline; silence is how it elapses. *)
Definition read_within (phase : string) (after : Z) : Io (option MeshFrame) :=
  fun l => match lk_reads l with
           | Rd_Frame f :: rest => (Ok (Some f), mkLink rest (lk_writes l) (lk_sent l))
           | Rd_Eof :: _ => (Ok None, l)
           | Rd_Failed e :: _ => (Err (handshake_error e), l)
           | Rd_Silent :: _ | [] => (Err (HE_Timeout phase after), l)
           end.

Definition io_write (f : MeshFrame) : Io unit :=
  fun l => match lk_writes l with
           | Some e :: rest => (Err (handshake_error e), mkLink (lk_reads l) rest (lk_sent l))
           | None :: rest => (Ok tt, mkLink (lk_reads l) rest (lk_sent l ++ [f]))
           | [] => (Ok tt, mkLink (lk_reads l) [] (lk_sent l ++ [f]))
           end.

Inductive Role : Type := Initiator | Responder.

Definition ATTEST_TIMEOUT : Z := 10000.
Definition PEER_AUTH_READ_TIMEOUT : Z := 15000.
Definition HELLO_READ_TIMEOUT : Z := 10000.

Definition read_peer_authenticate : Io (bytes * bytes) :=
  do frame <- read_within "peer Authenticate read" PEER_AUTH_READ_TIMEOUT;
  match frame with
  | Some (MF_Authenticate nsm_doc identity_sig) => io_ret (nsm_doc, identity_sig)
  | Some _ => io_lift (Err HE_NotAuthenticate)
  | None => io_lift (Err HE_PeerClosed)
  end.

(** What one handshake meets: the Noise handshake's hash, this node's own
    document ([None]: the device hangs), its trusted time, and the link. *)
Record HandshakeEnv := mkHandshakeEnv {
  he_noise : result bytes string;
  he_attest : option (result bytes string);
  he_now : result Z string;
  he_link : Link;
}.

(** ** The handshake *)

Section Handshake.
Context `{P256} `{NitroLib} (sha256 : bytes -> bytes) (skip_chain_compiled debug_mode : bool).

Abbreviation key_of := (fun v : ValidatedAttestation => mkPcrKey (pin_key sha256 (va_identity v))).

(** Steps 3 to 5 of [mutual_authenticate]. *)
Definition verify_peer (allowlist : PcrAllowlist) (handshake_hash peer_doc peer_sig : bytes) (now_ms : Z)
    : result PeerIdentity HandshakeError :=
  let? (pcr_digest, peer_pubkey) :=
    map_err HE_PeerAttestation
      (let? doc := attest_session_at skip_chain_compiled peer_doc handshake_hash debug_mode now_ms in
       let? pubkey := control_pubkey doc in
       Ok (key_of doc, pubkey)) in
  if negb (allowlist_admits allowlist pcr_digest) then Err HE_PcrNotAllowed
  else
    let? _ := map_err HE_IdentitySignature (verify_mesh_identity peer_pubkey peer_sig handshake_hash) in
    Ok (mkPeerIdentity pcr_digest peer_pubkey).

Definition mutual_authenticate (role : Role) (identity : MeshIdentity) (allowlist : PcrAllowlist)
    (env : HandshakeEnv) : Io PeerIdentity :=
  do handshake_hash <- io_lift (map_err HE_Noise (he_noise env));
  do nsm_doc <- io_lift (match he_attest env with
                         | None => Err (HE_Timeout "local attest" ATTEST_TIMEOUT)
                         | Some r => map_err (fun _ => HE_LocalAttestation) r
                         end);
  let auth := MF_Authenticate nsm_doc (sign_handshake identity handshake_hash) in
  do peer <- match role with
             | Initiator => do _ <- io_write auth; read_peer_authenticate
             | Responder => do got <- read_peer_authenticate; do _ <- io_write auth; io_ret got
             end;
  do now_ms <- io_lift (map_err (fun _ => HE_LocalAttestation) (he_now env));
  io_lift (verify_peer allowlist handshake_hash peer.1 peer.2 now_ms).
End Handshake.

(** ** The running mesh *)

Inductive MeshError : Type :=
| ME_Dial (e : DialError)
| ME_Handshake (e : HandshakeError)
| ME_NotHello
| ME_ClosedBeforeHello
| ME_WrongName (announced : string)
| ME_Unconfigured (from : string).

(** The channel-attributed identity a request handler is given. *)
Record PeerContext := mkPeerContext {
  pc_name : string;
  pc_mesh_pubkey : bytes;
  pc_pcr_digest : PcrKey;
}.

(** The instance keys attested under each name, and per configured peer the
    identity behind its live outbound channel. *)
Record MeshState := mkMeshState {
  ms_observed : gmap string bytes;
  ms_slots : gmap string (option PeerIdentity);
}.

Definition INITIAL_BACKOFF : Z := 50.
Definition MAX_BACKOFF : Z := 2000.

(** The pause of a dial loop after an attempt, and the next one's. *)
Definition next_backoff (ended_cleanly : bool) (backoff : Z) : Z * Z :=
  if ended_cleanly then (INITIAL_BACKOFF, INITIAL_BACKOFF)
  else (backoff, Z.min (backoff * 2) MAX_BACKOFF).

Inductive CallError : Type := UnknownPeer (peer : string) | NotConnected (peer : string).

(** [Mesh::call], up to the call on the channel. *)
Definition mesh_call (st : MeshState) (peer : string) : result PeerIdentity CallError :=
  let? slot := ok_or (ms_slots st !! peer) (UnknownPeer peer) in
  ok_or slot (NotConnected peer).

Definition is_connected (st : MeshState) (peer : string) : bool :=
  match ms_slots st !! peer with Some (Some _) => true | _ => false end.

Definition observed_peer_pubkey (st : MeshState) (peer : string) : option bytes :=
  ms_observed st !! peer.

Definition set_slot (st : MeshState) (peer : string) (c : option PeerIdentity) : MeshState :=
  mkMeshState (ms_observed st) (<[peer := c]> (ms_slots st)).
Definition observe_peer (st : MeshState) (peer : string) (pubkey : bytes) : MeshState :=
  mkMeshState (<[peer := pubkey]> (ms_observed st)) (ms_slots st).

(** [Mesh::start]. *)
Definition mesh_start (config : MeshConfig) : MeshState :=
  mkMeshState ∅ (list_to_map ((fun p => (p, None)) <$> mc_peers config)).

Section Mesh.
Context `{P256} `{NitroLib} (sha256 : bytes -> bytes) (skip_chain_compiled debug_mode : bool).
Context (config : MeshConfig) (identity : MeshIdentity).

Abbreviation authenticate_as role env :=
  (mutual_authenticate sha256 skip_chain_compiled debug_mode role identity (mc_allowlist config) env).

(** The handshake of [dial_once]: who answered, under the dialed name. *)
Definition dial_handshake (peer : string) (env : HandshakeEnv) (l : Link)
    : result PeerIdentity MeshError * Link :=
  match (do peer_id <- authenticate_as Initiator env;
         do _ <- io_write (MF_Hello (mc_self_name config));
         do hello <- read_within "responder Hello read" HELLO_READ_TIMEOUT;
         io_ret (peer_id, hello)) l with
  | (Err e, l) => (Err (ME_Handshake e), l)
  | (Ok (peer_id, Some (MF_Hello announced)), l) =>
      if negb (bool_decide (announced = peer)) then (Err (ME_WrongName announced), l)
      else (Ok peer_id, l)
  | (Ok (_, Some _), l) => (Err ME_NotHello, l)
  | (Ok (_, None), l) => (Err ME_ClosedBeforeHello, l)
  end.

(** [dial_once] up to the published channel. *)
Definition dial_once (st : MeshState) (peer : string) (fate : DialFate) (env : HandshakeEnv)
    : result unit MeshError * MeshState * Link :=
  match dial fate with
  | Err e => (Err (ME_Dial e), st, he_link env)
  | Ok _ =>
      match dial_handshake peer env (he_link env) with
      | (Err e, l) => (Err e, st, l)
      | (Ok peer_id, l) =>
          (Ok tt, set_slot (observe_peer st peer (pi_mesh_pubkey peer_id)) peer (Some peer_id), l)
      end
  end.

(** [handle_inbound] up to serving; [Ok None]: the dialer closed. *)
Definition handle_inbound (st : MeshState) (env : HandshakeEnv)
    : result (option PeerContext) MeshError * MeshState * Link :=
  match (do peer_id <- authenticate_as Responder env;
         do hello <- read_within "inbound Hello read" HELLO_READ_TIMEOUT;
         io_ret (peer_id, hello)) (he_link env) with
  | (Err e, l) => (Err (ME_Handshake e), st, l)
  | (Ok (_, None), l) => (Ok None, st, l)
  | (Ok (peer_id, Some (MF_Hello from)), l) =>
      if negb (bool_decide (from ∈ mc_peers config)) then (Err (ME_Unconfigured from), st, l)
      else
        match io_write (MF_Hello (mc_self_name config)) l with
        | (Err e, l) => (Err (ME_Handshake e), st, l)
        | (Ok _, l) =>
            (Ok (Some (mkPeerContext from (pi_mesh_pubkey peer_id) (pi_pcr_digest peer_id))),
             observe_peer st from (pi_mesh_pubkey peer_id), l)
        end
  | (Ok (_, Some _), l) => (Err ME_NotHello, st, l)
  end.

(** The node's tasks: one dial loop per configured peer, the accept loop. *)
Inductive MeshEvent : Type :=
| EvDial (peer : string) (fate : DialFate) (env : HandshakeEnv)
| EvChannelEnded (peer : string)
| EvInbound (env : HandshakeEnv).

Definition mesh_step (st : MeshState) (ev : MeshEvent) : MeshState :=
  match ev with
  | EvDial peer fate env =>
      if bool_decide (peer ∈ mc_peers config) then
        match dial_once st peer fate env with
        | (Ok _, st, _) => st
        | (Err _, st, _) => set_slot st peer None
        end
      else st
  | EvChannelEnded peer =>
      if bool_decide (peer ∈ mc_peers config) then set_slot st peer None else st
  | EvInbound env => (handle_inbound st env).1.2
  end.

Definition mesh_run (evs : list MeshEvent) : MeshState := fold_left mesh_step evs (mesh_start config).
End Mesh.
