(* ===== verification/MeshProofs.v ===== *)
(** Properties of the peer mesh: whom a handshake admits, what the table of
    observed instance keys holds, that two nodes of one image connect, and what
    a relay that sends a dialer's own frame back obtains. *)
From stdpp Require Import gmap sets list strings.
From S2P Require Import Prelude Text StateMachine Identity Signing Attestation LocalAttestation.
From S2P Require Import Wire Transport Framing Mesh.
#[local] Open Scope Z_scope.

(** ** Configuration *)

Lemma elem_of_ordered_peers self seen peers p :
  p ∈ ordered_peers self seen peers <-> p ∈ peers /\ p <> self /\ p ∉ seen.
Proof.
  revert seen. induction peers as [|q peers IH]; intros seen; simpl; [set_solver|].
  destruct (bool_decide_reflect (q = self)) as [->|Hne]; [rewrite IH; set_solver|].
  destruct (bool_decide_reflect (q ∈ seen)) as [Hs|Hs]; [rewrite IH; set_solver|].
  rewrite elem_of_cons, IH, elem_of_cons. destruct (decide (p = q)) as [->|]; set_solver.
Qed.

Lemma NoDup_ordered_peers self seen peers : NoDup (ordered_peers self seen peers).
Proof.
  revert seen. induction peers as [|q peers IH]; intros seen; simpl; [constructor|].
  repeat case_bool_decide; try apply IH. constructor; [|apply IH].
  rewrite elem_of_ordered_peers. set_solver.
Qed.

(** ** The I/O of a handshake *)

Lemma io_bind_Ok {A B} (m : Io A) (k : A -> Io B) l b l' :
  io_bind m k l = (Ok b, l') <-> exists a l1, m l = (Ok a, l1) /\ k a l1 = (Ok b, l').
Proof. unfold io_bind. destruct (m l) as [[a|] l1]; naive_solver. Qed.

Lemma io_lift_Ok {A} (r : result A HandshakeError) l a l' :
  io_lift r l = (Ok a, l') <-> r = Ok a /\ l' = l.
Proof. unfold io_lift. naive_solver. Qed.

(** The next write of the link is not going to fail. *)
Definition writable (l : Link) : Prop := lk_writes l = [] \/ exists ws, lk_writes l = None :: ws.
Definition written (f : MeshFrame) (l : Link) : Link :=
  mkLink (lk_reads l) (tail (lk_writes l)) (lk_sent l ++ [f]).

Lemma io_write_Ok f l u l' : io_write f l = (Ok u, l') <-> writable l /\ l' = written f l.
Proof.
  unfold io_write, writable, written. destruct u, (lk_writes l) as [|[e|] ws]; simpl; naive_solver.
Qed.

Lemma read_within_Ok phase after l f l' :
  read_within phase after l = (Ok (Some f), l') <->
  exists rest, lk_reads l = Rd_Frame f :: rest /\ l' = mkLink rest (lk_writes l) (lk_sent l).
Proof. unfold read_within. destruct (lk_reads l) as [|[] rest]; naive_solver. Qed.

Lemma read_authenticate_Ok l doc sig l' :
  read_peer_authenticate l = (Ok (doc, sig), l') <->
  exists rest, lk_reads l = Rd_Frame (MF_Authenticate doc sig) :: rest /\
    l' = mkLink rest (lk_writes l) (lk_sent l).
Proof.
  unfold read_peer_authenticate, io_bind, read_within.
  destruct (lk_reads l) as [|[f| | |] rest]; [|destruct f|..]; simpl;
    try by (split; [intros [=]|intros (? & [=] & _)]).
  split; [intros [= -> -> <-]; eauto|by intros (? & [= -> -> ->] & ->)].
Qed.

Ltac io_inv :=
  repeat match goal with
  | Hx : io_bind _ _ _ = (Ok _, _) |- _ => apply io_bind_Ok in Hx as (? & ? & ? & ?)
  | Hx : io_lift _ _ = (Ok _, _) |- _ => apply io_lift_Ok in Hx as [? ->]
  | Hx : io_ret _ _ = (Ok _, _) |- _ => unfold io_ret in Hx; simplify_eq
  | Hx : (_, _) = (_, _) |- _ => injection Hx as Hx
  end; simplify_eq.

Section Proofs.
Context `{P256} `{NitroLib} (sha256 : bytes -> bytes) (skip_chain_compiled debug_mode : bool).

Abbreviation key_of := (fun v : ValidatedAttestation => mkPcrKey (pin_key sha256 (va_identity v))).
Abbreviation verify := (verify_peer sha256 skip_chain_compiled debug_mode).
Abbreviation authenticate_as := (mutual_authenticate sha256 skip_chain_compiled debug_mode).

(** ** Whom a handshake admits *)

Lemma verify_mesh_identity_Ok pk sig h :
  verify_mesh_identity pk sig h = Ok tt <->
  exists vk s, vk_from_sec1_bytes pk = Ok vk /\ sig_from_slice sig = Some s /\ vk_verify vk h s = true.
Proof.
  unfold verify_mesh_identity. split.
  - destruct (vk_from_sec1_bytes pk) as [vk|]; cbn [map_err]; [|done].
    destruct (sig_from_slice sig) as [s|]; cbn [ok_or]; [|done].
    destruct (vk_verify vk h s) eqn:Hv; [eauto|done].
  - intros (vk & s & -> & -> & Hv). cbn. by rewrite Hv.
Qed.

(** The peer's document is a session document of this handshake, of an
    admitted identity, and the key it carries signed this handshake. *)
Record peer_proved (allowlist : PcrAllowlist) (hash doc sig : bytes) (now : Z) (p : PeerIdentity) : Prop := {
  pp_document : exists v, attest_session_at skip_chain_compiled doc hash debug_mode now = Ok v /\
    pi_pcr_digest p = key_of v /\ control_pubkey v = Ok (pi_mesh_pubkey p);
  pp_admitted : pi_pcr_digest p ∈ allowlist;
  pp_signed : exists vk s, vk_from_sec1_bytes (pi_mesh_pubkey p) = Ok vk /\
    sig_from_slice sig = Some s /\ vk_verify vk hash s = true;
}.

Lemma verify_peer_Ok allowlist hash doc sig now p :
  verify allowlist hash doc sig now = Ok p <-> peer_proved allowlist hash doc sig now p.
Proof.
  unfold verify_peer, allowlist_admits. split.
  - intros Hv. destruct (attest_session_at _ _ _ _ _) as [v|] eqn:Ha; [|done].
    destruct (control_pubkey v) as [pk|] eqn:Hk; [|done]. cbn [map_err] in Hv.
    destruct (bool_decide_reflect (key_of v ∈ allowlist)) as [Hin|]; [|done]. cbn [negb] in Hv.
    destruct (verify_mesh_identity pk sig hash) as [[]|] eqn:Hs; [|done]. cbn [map_err] in Hv.
    simplify_eq. split; [by exists v|done|]. by apply verify_mesh_identity_Ok.
  - intros [(v & -> & Hd & Hk) Hin Hs]. destruct p as [d pk]. simpl in *. rewrite Hk. cbn [map_err].
    rewrite <-Hd, bool_decide_eq_true_2 by done. cbn [negb].
    apply verify_mesh_identity_Ok in Hs as ->. done.
Qed.

(** The exchange of [Authenticate] frames, in the order of the role. *)
Definition exchange (role : Role) (auth : MeshFrame) : Io (bytes * bytes) :=
  match role with
  | Initiator => io_bind (io_write auth) (fun _ => read_peer_authenticate)
  | Responder => io_bind read_peer_authenticate (fun got => io_bind (io_write auth) (fun _ => io_ret got))
  end.

Lemma exchange_Ok role auth l doc sig l' :
  exchange role auth l = (Ok (doc, sig), l') <->
  writable l /\ exists rest, lk_reads l = Rd_Frame (MF_Authenticate doc sig) :: rest /\
    l' = mkLink rest (tail (lk_writes l)) (lk_sent l ++ [auth]).
Proof.
  unfold exchange. destruct role; rewrite io_bind_Ok.
  - setoid_rewrite io_write_Ok. setoid_rewrite read_authenticate_Ok. naive_solver.
  - split.
    + intros ([d0 s0] & l1 & (rest & Hr & ->)%read_authenticate_Ok & Hx).
      apply io_bind_Ok in Hx as (? & ? & [Hw ->]%io_write_Ok & Hx).
      unfold io_ret in Hx. simplify_eq. split; [exact Hw|eauto].
    + intros [Hw (rest & Hr & ->)]. exists (doc, sig), (mkLink rest (lk_writes l) (lk_sent l)).
      rewrite read_authenticate_Ok, io_bind_Ok. split; [eauto|]. eexists tt, _. rewrite io_write_Ok. done.
Qed.

(** The result of a handshake that succeeds, and what it leaves on the link. *)
Lemma authenticate_Ok role identity allowlist env l p l' :
  authenticate_as role identity allowlist env l = (Ok p, l') <->
  exists hash own doc sig now rest,
    he_noise env = Ok hash /\ he_attest env = Some (Ok own) /\ he_now env = Ok now /\
    writable l /\ lk_reads l = Rd_Frame (MF_Authenticate doc sig) :: rest /\
    l' = mkLink rest (tail (lk_writes l))
           (lk_sent l ++ [MF_Authenticate own (sign_handshake identity hash)]) /\
    peer_proved allowlist hash doc sig now p.
Proof.
  unfold mutual_authenticate. rewrite io_bind_Ok. split.
  - intros (hash & ? & [Hn ->]%io_lift_Ok & Hx). destruct (he_noise env); [|done]. cbn in Hn. simplify_eq.
    apply io_bind_Ok in Hx as (own & ? & [Ha ->]%io_lift_Ok & Hx).
    destruct (he_attest env) as [[|]|]; [|done..]. cbn in Ha. simplify_eq.
    apply io_bind_Ok in Hx as ([doc sig] & l1 & Hp & Hx).
    apply (exchange_Ok role) in Hp as (Hw & rest & Hr & ->).
    apply io_bind_Ok in Hx as (now & ? & [Ht ->]%io_lift_Ok & Hx).
    destruct (he_now env); [|done]. cbn in Ht. simplify_eq. apply io_lift_Ok in Hx as [Hv ->].
    apply verify_peer_Ok in Hv. eexists _, _, _, _, _, _. split_and!; eauto.
  - intros (hash & own & doc & sig & now & rest & Hn & Ha & Ht & Hw & Hr & -> & Hv).
    apply verify_peer_Ok in Hv. rewrite Hn, Ha, Ht. exists hash, l. split; [done|].
    rewrite io_bind_Ok. exists own, l. split; [done|]. rewrite io_bind_Ok. exists (doc, sig), (mkLink rest (tail (lk_writes l)) (lk_sent l ++ [MF_Authenticate own (sign_handshake identity hash)])).
    split; [apply (exchange_Ok role); eauto|]. rewrite io_bind_Ok. eexists now, _. split; [done|].
    unfold io_lift. simpl. by rewrite Hv.
Qed.

(** The handshake admits a peer exactly when the peer proved itself on this
    very session: in either role it succeeds iff the Noise handshake, the own
    document and the trusted time were there, the first frame read is an
    [Authenticate] whose document is a session document of this handshake hash
    and of an admitted identity, and the key in the document signed the hash. *)
Theorem peer_admission_is_exact role identity allowlist env l p :
  (exists l', authenticate_as role identity allowlist env l = (Ok p, l')) <->
  exists hash own doc sig now rest,
    he_noise env = Ok hash /\ he_attest env = Some (Ok own) /\ he_now env = Ok now /\ writable l /\
    lk_reads l = Rd_Frame (MF_Authenticate doc sig) :: rest /\
    peer_proved allowlist hash doc sig now p.
Proof. setoid_rewrite authenticate_Ok. naive_solver. Qed.

(** ** What the running mesh holds *)

Section Running.
Context (config : MeshConfig) (identity : MeshIdentity).

Abbreviation step := (mesh_step sha256 skip_chain_compiled debug_mode config identity).
Abbreviation run := (mesh_run sha256 skip_chain_compiled debug_mode config identity).

(** The connection of [env] opened with a proof of [p] and then announced [name]. *)
Definition proves (env : HandshakeEnv) (name : string) (p : PeerIdentity) : Prop :=
  exists hash doc sig now rest,
    he_noise env = Ok hash /\ he_now env = Ok now /\
    lk_reads (he_link env) = Rd_Frame (MF_Authenticate doc sig) :: Rd_Frame (MF_Hello name) :: rest /\
    peer_proved (mc_allowlist config) hash doc sig now p.

Lemma dial_handshake_Ok peer env l p l' :
  dial_handshake sha256 skip_chain_compiled debug_mode config identity peer env l = (Ok p, l') <->
  exists l1 l2, authenticate_as Initiator identity (mc_allowlist config) env l = (Ok p, l1) /\
    io_write (MF_Hello (mc_self_name config)) l1 = (Ok tt, l2) /\
    read_within "responder Hello read" HELLO_READ_TIMEOUT l2 = (Ok (Some (MF_Hello peer)), l').
Proof.
  unfold dial_handshake, io_bind.
  assert (Hno : forall (X Y : Prop), (X -> False) -> (Y -> False) -> X <-> Y) by tauto.
  destruct (authenticate_as _ _ _ _ l) as [[p0|] l1];
    [|apply Hno; [by intros [=]|by intros (? & ? & [=] & _)]].
  destruct (io_write _ l1) as [[[]|] l2] eqn:Hw;
    [|apply Hno; [by intros [=]|intros (? & ? & [= -> ->] & Hw' & _); congruence]].
  destruct (read_within _ _ l2) as [[[f|]|] l3] eqn:Hr; cycle 1.
  1,2: apply Hno; [by intros [=]|intros (? & ? & [= -> ->] & Hw' & Hr'); congruence].
  cbn. split.
  - intros Hd. destruct f as [|from| | |]; try done.
    destruct (bool_decide_reflect (from = peer)) as [->|]; [|done]. cbn in Hd. simplify_eq. eauto.
  - intros (? & ? & [= -> ->] & Hw' & Hr'). assert (l2 = x0) as -> by congruence.
    rewrite Hr in Hr'. simplify_eq. by rewrite bool_decide_eq_true_2.
Qed.

Lemma dial_once_Ok st peer fate env st' l' :
  dial_once sha256 skip_chain_compiled debug_mode config identity st peer fate env = (Ok tt, st', l') ->
  exists p, proves env peer p /\
    st' = set_slot (observe_peer st peer (pi_mesh_pubkey p)) peer (Some p).
Proof.
  unfold dial_once. destruct (dial fate); [|done].
  destruct (dial_handshake _ _ _ _ _ _ _ _) as [[p|] l] eqn:Hd; [|done]. intros [= <- <-].
  apply dial_handshake_Ok in Hd as (l1 & l2 & Ha & [_ ->]%io_write_Ok & (rest & Hr & _)%read_within_Ok).
  apply authenticate_Ok in Ha as (hash & own & doc & sig & now & rest' & ? & _ & ? & _ & Hreads & -> & ?).
  simpl in Hr. subst rest'. exists p. split; [|done]. by exists hash, doc, sig, now, rest.
Qed.

Lemma dial_once_Err st peer fate env e st' l' :
  dial_once sha256 skip_chain_compiled debug_mode config identity st peer fate env = (Err e, st', l') ->
  st' = st.
Proof.
  unfold dial_once. destruct (dial fate); [|naive_solver].
  destruct (dial_handshake _ _ _ _ _ _ _ _) as [[|] ?]; naive_solver.
Qed.

Lemma handle_inbound_spec st env :
  let '(r, st', _) := handle_inbound sha256 skip_chain_compiled debug_mode config identity st env in
  match r with
  | Ok (Some ctx) => exists p, proves env (pc_name ctx) p /\ pc_name ctx ∈ mc_peers config /\
      ctx = mkPeerContext (pc_name ctx) (pi_mesh_pubkey p) (pi_pcr_digest p) /\
      st' = observe_peer st (pc_name ctx) (pi_mesh_pubkey p)
  | _ => st' = st
  end.
Proof.
  unfold handle_inbound, io_bind.
  destruct (authenticate_as _ _ _ _ _) as [[p|] l1] eqn:Ha; [|done].
  destruct (read_within _ _ l1) as [[[f|]|] l2] eqn:Hr; [|done..].
  cbn. destruct f as [|from| | |]; try done.
  destruct (bool_decide_reflect (from ∈ mc_peers config)); [|done]. cbn [negb].
  destruct (io_write _ l2) as [[[]|] l3]; [|done].
  apply read_within_Ok in Hr as (rest & Hr & _).
  apply authenticate_Ok in Ha as (hash & own & doc & sig & now & rest' & ? & _ & ? & _ & Hreads & -> & ?).
  simpl in Hr. subst rest'. exists p. split; [by exists hash, doc, sig, now, rest|done].
Qed.

(** A dial under [name], or an inbound connection that announced it, proved [p]. *)
Definition shown (evs : list MeshEvent) (name : string) (p : PeerIdentity) : Prop :=
  name ∈ mc_peers config /\ exists env, proves env name p /\
    ((exists fate, EvDial name fate env ∈ evs) \/ EvInbound env ∈ evs).

Lemma shown_more evs evs' name p : shown evs name p -> shown (evs ++ evs') name p.
Proof. intros (? & env & ? & Hin). split; [done|]. exists env. set_solver. Qed.

(** Whatever the mesh holds of a peer was shown to it. *)
Definition mesh_sound (evs : list MeshEvent) (st : MeshState) : Prop :=
  (forall name pk, ms_observed st !! name = Some pk -> exists p, shown evs name p /\ pi_mesh_pubkey p = pk) /\
  (forall name p, ms_slots st !! name = Some (Some p) -> shown evs name p) /\
  dom (ms_slots st) = list_to_set (mc_peers config).

Lemma mesh_sound_clear evs st peer :
  peer ∈ mc_peers config -> mesh_sound evs st -> mesh_sound evs (set_slot st peer None).
Proof.
  intros Hp (Ho & Hs & Hd). split_and!; [exact Ho| |].
  - simpl. intros name p [[? ?]|[? ?]]%lookup_insert_Some; [done|eauto].
  - simpl. rewrite dom_insert_L, Hd. set_solver.
Qed.

Lemma mesh_sound_observe evs st peer p :
  shown evs peer p -> mesh_sound evs st -> mesh_sound evs (observe_peer st peer (pi_mesh_pubkey p)).
Proof.
  intros Hp (Ho & Hs & Hd). split_and!; [|exact Hs|exact Hd].
  simpl. intros name pk [[<- <-]|[? ?]]%lookup_insert_Some; eauto.
Qed.

Lemma mesh_sound_connect evs st peer p :
  shown evs peer p -> mesh_sound evs st -> mesh_sound evs (set_slot st peer (Some p)).
Proof.
  intros Hp (Ho & Hs & Hd). split_and!; [exact Ho| |].
  - simpl. intros name q [[<- [= <-]]|[? ?]]%lookup_insert_Some; eauto.
  - simpl. rewrite dom_insert_L, Hd. destruct Hp as [? _]. set_solver.
Qed.

Lemma mesh_sound_more evs evs' st : mesh_sound evs st -> mesh_sound (evs ++ evs') st.
Proof.
  intros (Ho & Hs & Hd). split_and!; [|eauto using shown_more|done].
  intros name pk Hl. destruct (Ho _ _ Hl) as (p & ? & ?). eauto using shown_more.
Qed.

Lemma mesh_step_sound evs st ev : mesh_sound evs st -> mesh_sound (evs ++ [ev]) (step st ev).
Proof.
  intros Hs%(mesh_sound_more evs [ev]). unfold mesh_step. destruct ev as [peer fate env|peer|env].
  - destruct (bool_decide_reflect (peer ∈ mc_peers config)) as [Hp|]; [|done].
    destruct (dial_once _ _ _ _ _ _ _ _ _) as [[[[]|] st'] l'] eqn:Hd.
    + apply dial_once_Ok in Hd as (p & Hpr & ->).
      assert (shown (evs ++ [EvDial peer fate env]) peer p).
      { split; [done|]. exists env. split; [done|left]. exists fate. set_solver. }
      by apply mesh_sound_connect, mesh_sound_observe.
    + apply dial_once_Err in Hd as ->. by apply mesh_sound_clear.
  - case_bool_decide; [by apply mesh_sound_clear|done].
  - pose proof (handle_inbound_spec st env) as Hi.
    destruct (handle_inbound _ _ _ _ _ _ _) as [[[[ctx|]|] st'] l']; cbn in *; [|by subst..].
    destruct Hi as (p & Hpr & Hin & _ & ->). apply mesh_sound_observe; [|done].
    split; [done|]. exists env. split; [done|right]. set_solver.
Qed.

Lemma mesh_run_sound evs : mesh_sound evs (run evs).
Proof.
  unfold mesh_run. rewrite <-(app_nil_l evs) at 1.
  assert (mesh_sound [] (mesh_start config)) as Hs.
  { split_and!; [done| |].
    - simpl. intros name p Hl%elem_of_list_to_map_2. by apply list_elem_of_fmap in Hl as (? & [=] & _).
    - simpl. rewrite dom_list_to_map_L, <-list_fmap_compose. f_equal. by apply list_fmap_id. }
  revert Hs. generalize (@nil MeshEvent) as done_, (mesh_start config) as st.
  induction evs as [|ev evs IH]; intros done_ st Hs; simpl; [by rewrite app_nil_r|].
  rewrite (app_assoc _ [ev] evs : done_ ++ ev :: evs = _). by apply IH, mesh_step_sound.
Qed.

(** A dial the relay answers with a frame the dialer itself sent. *)
Lemma dial_answered st peer env p l :
  dial_handshake sha256 skip_chain_compiled debug_mode config identity peer env (he_link env) = (Ok p, l) ->
  dial_once sha256 skip_chain_compiled debug_mode config identity st peer
    (DF_Answered (Ok [OPEN_ACK_OK])) env
  = (Ok tt, set_slot (observe_peer st peer (pi_mesh_pubkey p)) peer (Some p), l).
Proof. intros Hd. unfold dial_once. cbn [dial]. simpl. by rewrite Hd. Qed.

(** A relay can pass as any peer of a node by sending the node's own frame
    back.  It ends the Noise handshake itself and returns the [Authenticate] it
    was sent, followed by a [Hello] with the dialed name: the node's document
    names this session, its identity is admitted, its signature is over this
    session's hash, so the dial succeeds, the channel goes up, and the node
    records its own key as the key of the dialed peer. *)
Theorem relay_can_impersonate_a_peer st peer env hash own now p rest
    (Hpeer : peer ∈ mc_peers config)
    (Hnoise : he_noise env = Ok hash) (Hown : he_attest env = Some (Ok own)) (Hnow : he_now env = Ok now)
    (Hself : peer_proved (mc_allowlist config) hash own (sign_handshake identity hash) now p)
    (Hpk : pi_mesh_pubkey p = mi_pubkey identity)
    (Hlink : he_link env = mkLink (Rd_Frame (MF_Authenticate own (sign_handshake identity hash)) ::
                                   Rd_Frame (MF_Hello peer) :: rest) [] []) :
  let st' := step st (EvDial peer (DF_Answered (Ok [OPEN_ACK_OK])) env) in
  mesh_call st' peer = Ok p /\ observed_peer_pubkey st' peer = Some (mi_pubkey identity).
Proof.
  intros st'. subst st'. unfold mesh_step. rewrite bool_decide_eq_true_2 by done.
  erewrite dial_answered; cycle 1.
  - rewrite dial_handshake_Ok. do 2 eexists. split_and!.
    + apply authenticate_Ok. exists hash, own, own, (sign_handshake identity hash), now. eexists.
      rewrite Hlink. split_and!; try done. by left.
    + apply io_write_Ok. split; [by left|done].
    + apply read_within_Ok. by eexists.
  - unfold mesh_call, observed_peer_pubkey. simpl. rewrite !lookup_insert_eq. simpl. by rewrite Hpk.
Qed.
End Running.

(** C18: whatever the mesh holds of a peer was proved to it.  In every run of a
    node, the table of observed keys and the outbound channels name configured
    peers only, never the node itself, and each entry comes from a connection of
    this run that opened with a document of this node's own image, valid for
    that very session and signed for by the key recorded, and that then
    announced the name. *)
Theorem observed_peers_are_attested self peers digest identity evs :
  let config := mesh_config_new self peers digest in
  let st := mesh_run sha256 skip_chain_compiled debug_mode config identity evs in
  (forall name pk, observed_peer_pubkey st name = Some pk ->
     name ∈ peers /\ name <> self /\
     exists p, shown config evs name p /\ pi_mesh_pubkey p = pk /\ pi_pcr_digest p = digest) /\
  (forall name p, mesh_call st name = Ok p ->
     name ∈ peers /\ name <> self /\ shown config evs name p /\ pi_pcr_digest p = digest) /\
  (forall name, mesh_call st name = Err (UnknownPeer name) <-> ~ (name ∈ peers /\ name <> self)).
Proof.
  intros config st. destruct (mesh_run_sound config identity evs) as (Ho & Hs & Hd). fold st in Ho, Hs, Hd.
  assert (Hin : forall name, name ∈ mc_peers config <-> name ∈ peers /\ name <> self).
  { intros name. simpl. rewrite elem_of_ordered_peers. set_solver. }
  assert (Hc : forall name p, shown config evs name p ->
            (name ∈ peers /\ name <> self) /\ pi_pcr_digest p = digest).
  { intros name p (Hn & env & (? & ? & ? & ? & ? & _ & _ & _ & [_ Ha _]) & _).
    split; [by apply Hin|]. unfold config, self_only in Ha. simpl in Ha. by apply elem_of_singleton in Ha. }
  split_and!.
  - intros name pk (p & Hp & <-)%Ho. destruct (Hc _ _ Hp) as [[? ?] ?]. eauto 6.
  - unfold mesh_call. intros name p Hl. destruct (ms_slots st !! name) as [[q|]|] eqn:Hq; [|done..].
    simpl in Hl. simplify_eq. apply Hs in Hq. destruct (Hc _ _ Hq) as [[? ?] ?]. done.
  - intros name. rewrite <-Hin. unfold mesh_call.
    assert (name ∈ dom (ms_slots st) <-> name ∈ mc_peers config) as Hdom by (rewrite Hd; set_solver).
    rewrite elem_of_dom in Hdom. destruct (ms_slots st !! name) as [[q|]|]; simpl.
    1,2: split; [by intros [=]|intros Hno; destruct Hno; apply Hdom; eauto].
    split; [|done]. intros _ [? ?]%Hdom. done.
Qed.

(** Two nodes of one image connect: when the documents both produce for
    their common session are valid at their trusted times, a dial and the accept
    it meets, each reading exactly what the other wrote, both succeed, and each
    node records the other's key under the other's name. *)
Theorem same_image_nodes_connect digest name_a name_b peers_a peers_b id_a id_b hash doc_a doc_b now_a now_b
    st_a st_b p_a p_b
    (Hab : name_b ∈ peers_a) (Hba : name_a ∈ peers_b) (Hne : name_a <> name_b)
    (Hpa : peer_proved (self_only digest) hash doc_a (sign_handshake id_a hash) now_b p_a)
    (Hpb : peer_proved (self_only digest) hash doc_b (sign_handshake id_b hash) now_a p_b) :
  exists reads_a reads_b st_a' st_b' l_a l_b ctx,
    dial_once sha256 skip_chain_compiled debug_mode (mesh_config_new name_a peers_a digest) id_a st_a name_b
      (DF_Answered (Ok [OPEN_ACK_OK]))
      (mkHandshakeEnv (Ok hash) (Some (Ok doc_a)) (Ok now_a) (mkLink reads_a [] [])) = (Ok tt, st_a', l_a) /\
    handle_inbound sha256 skip_chain_compiled debug_mode (mesh_config_new name_b peers_b digest) id_b st_b
      (mkHandshakeEnv (Ok hash) (Some (Ok doc_b)) (Ok now_b) (mkLink reads_b [] [])) = (Ok (Some ctx), st_b', l_b) /\
    reads_a = Rd_Frame <$> lk_sent l_b /\ reads_b = Rd_Frame <$> lk_sent l_a /\
    observed_peer_pubkey st_a' name_b = Some (pi_mesh_pubkey p_b) /\ is_connected st_a' name_b = true /\
    observed_peer_pubkey st_b' name_a = Some (pi_mesh_pubkey p_a) /\
    ctx = mkPeerContext name_a (pi_mesh_pubkey p_a) (pi_pcr_digest p_a).
Proof.
  set (auth_a := MF_Authenticate doc_a (sign_handshake id_a hash)).
  set (auth_b := MF_Authenticate doc_b (sign_handshake id_b hash)).
  exists [Rd_Frame auth_b; Rd_Frame (MF_Hello name_b)], [Rd_Frame auth_a; Rd_Frame (MF_Hello name_a)].
  apply verify_peer_Ok in Hpa, Hpb.
  unfold dial_once, dial_handshake, handle_inbound, mutual_authenticate, io_bind, io_lift. simpl.
  rewrite Hpa, Hpb. simpl. rewrite bool_decide_eq_true_2 by done.
  rewrite bool_decide_eq_true_2 by (apply elem_of_ordered_peers; set_solver). cbn [negb].
  do 5 eexists. split; [reflexivity|]. split; [reflexivity|]. simpl.
  unfold observed_peer_pubkey, is_connected. simpl. rewrite !lookup_insert_eq. done.
Qed.
End Proofs.

(** ** Witnesses *)

Module MeshDemo.
(** The toy scheme with keys as 65-byte points. *)
Definition point (k : Z) : bytes := 4 :: k :: replicate 63 0.

#[export] Instance point_P256 : P256 := {|
  SigningKey := Z; VerifyingKey := Z; Signature := bytes;
  sk_verifying_key := id;
  sk_sign := toy_tag;
  normalize_s _ := None;
  sig_to_bytes s := s;
  sig_from_slice l := if Nat.eqb (length l) 64%nat then Some l else None;
  vk_from_sec1_bytes l := match l with 4 :: k :: _ => Ok k | _ => Err "point"%string end;
  vk_verify key m s := bool_decide (s = toy_tag key m);
|}.

(** The session's hash, and a node's identity and document on it. *)
Definition hash : bytes := [9].
Definition node (k : Z) : MeshIdentity := from_signing_key point k.
Definition document (k : Z) : bytes := toy_document 9 1 (point k).

Definition validated (k : Z) : ValidatedAttestation :=
  mkValidated (document k) (doc_identity (doc_pcrs (toy_doc [9; 1]))) 1000000 (Some (point k)) (Session true).
Definition digest : PcrKey := mkPcrKey (pin_key toy_sha256 (va_identity (validated 5))).
Definition peer_id (k : Z) : PeerIdentity := mkPeerIdentity digest (point k).

Lemma node_proved k :
  peer_proved toy_sha256 false false (self_only digest) hash (document k)
    (sign_handshake (node k) hash) 500 (peer_id k).
Proof.
  split.
  - exists (validated k). by split_and!.
  - by apply elem_of_singleton.
  - exists k, (toy_tag k hash). split_and!; [done..|]. by apply bool_decide_eq_true.
Defined.

Definition echoed : Link :=
  mkLink [Rd_Frame (MF_Authenticate (document 5) (sign_handshake (node 5) hash));
          Rd_Frame (MF_Hello "b")] [] [].
Definition config_a : MeshConfig := mesh_config_new "a" ["b"; "c"] digest.
Definition echo_env : HandshakeEnv := mkHandshakeEnv (Ok hash) (Some (Ok (document 5))) (Ok 500) echoed.
End MeshDemo.

#[local] Existing Instances MeshDemo.point_P256 toy_NitroLib.

Lemma relay_can_impersonate_a_peer_witness :
  let st' := mesh_step (H := MeshDemo.point_P256) toy_sha256 false false MeshDemo.config_a (MeshDemo.node 5)
               (mesh_start MeshDemo.config_a)
               (EvDial "b" (DF_Answered (Ok [OPEN_ACK_OK])) MeshDemo.echo_env) in
  mesh_call st' "b" = Ok (MeshDemo.peer_id 5) /\
  observed_peer_pubkey st' "b" = Some (mi_pubkey (MeshDemo.node 5)).
Proof.
  apply (relay_can_impersonate_a_peer (H := MeshDemo.point_P256) toy_sha256 false false MeshDemo.config_a
           (MeshDemo.node 5) (mesh_start MeshDemo.config_a) "b" MeshDemo.echo_env MeshDemo.hash
           (MeshDemo.document 5) 500 (MeshDemo.peer_id 5) []); try reflexivity.
  - apply elem_of_ordered_peers. set_solver.
  - exact (MeshDemo.node_proved 5).
Defined.

Lemma same_image_nodes_connect_witness :
  exists reads_a st_a' l_a, dial_once (H := MeshDemo.point_P256) toy_sha256 false false MeshDemo.config_a
    (MeshDemo.node 5) (mesh_start MeshDemo.config_a) "b" (DF_Answered (Ok [OPEN_ACK_OK]))
    (mkHandshakeEnv (Ok MeshDemo.hash) (Some (Ok (MeshDemo.document 5))) (Ok 500) (mkLink reads_a [] []))
    = (Ok tt, st_a', l_a) /\
    observed_peer_pubkey st_a' "b" = Some (MeshDemo.point 6) /\ is_connected st_a' "b" = true.
Proof.
  destruct (same_image_nodes_connect (H := MeshDemo.point_P256) toy_sha256 false false MeshDemo.digest
              "a" "b" ["b"; "c"] ["a"; "c"] (MeshDemo.node 5) (MeshDemo.node 6) MeshDemo.hash
              (MeshDemo.document 5) (MeshDemo.document 6) 500 500
              (mesh_start MeshDemo.config_a) (mesh_start MeshDemo.config_a)
              (MeshDemo.peer_id 5) (MeshDemo.peer_id 6))
    as (ra & rb & sa & sb & la & lb & ctx & Ha & _ & _ & _ & Ho & Hc & _);
    [set_solver|set_solver|done|exact (MeshDemo.node_proved 5)|exact (MeshDemo.node_proved 6)|].
  by exists ra, sa, la.
Defined.
