(* ===== verification/MeshRpc.v ===== *)
(** Request and response over one directed mesh connection
    ([synchronizer/src/mesh/rpc.rs]): the client channel with its pending
    table and outbound queue, the driver that owns the transport, and the serve
    loop of the accepting side.

    A call, the driver and the serve loop are tasks that interleave; each
    definition below is one step of one of them, and [rpc_run] is any schedule
    of their steps over a connection that keeps the order of its frames. *)
From stdpp Require Import gmap sets list strings.
From S2P Require Import Prelude Text StateMachine Identity Signing Attestation LocalAttestation.
From S2P Require Import Wire Transport Framing Mesh.
#[local] Open Scope Z_scope.

Inductive Envelope : Type :=
| Env_Request (id : Z) (body : bytes)
| Env_Response (id : Z) (body : bytes).

Inductive RpcError : Type := RpcConnectionClosed | RpcEncode (detail : string).

Definition IDLE_BEFORE_PING : Z := 5000.
Definition PONG_TIMEOUT : Z := 5000.
Definition SERVE_IDLE_TIMEOUT : Z := 30000.
Definition OUTBOUND_CAPACITY : nat := 1024.

(** ** The client channel *)

(** The oneshot of a call as its receiver sees it. *)
Inductive Oneshot : Type := OS_Empty | OS_Sent (body : bytes) | OS_SenderDropped.

Inductive CallPhase : Type :=
| CP_Sending
| CP_Waiting
| CP_Done (r : result bytes RpcError)
| CP_GaveUp.

Record Call := mkCall {
  ca_id : Z;
  ca_body : bytes;
  ca_phase : CallPhase;
  ca_oneshot : Oneshot;
}.

Inductive Driver : Type :=
| Dr_Running (awaiting_pong : bool) (deadline : Z)
| Dr_Returned (r : result unit HandshakeError).

(** [ClientChannel] with the calls made on it and its driver.  The pending
    table holds the sending half of a call's oneshot, named by the call. *)
Record ClientChannel := mkClientChannel {
  cc_next_id : Z;
  cc_outbound : list Envelope;
  cc_pending : gmap Z nat;
  cc_calls : list Call;
  cc_driver : Driver;
}.

Definition spawn_client (now : Z) : ClientChannel :=
  mkClientChannel 0 [] ∅ [] (Dr_Running false (now + IDLE_BEFORE_PING)).

Definition set_phase (p : CallPhase) (c : Call) : Call :=
  mkCall (ca_id c) (ca_body c) p (ca_oneshot c).

(** [tx.send]: lost if the oneshot was already used. *)
Definition oneshot_send (body : bytes) (c : Call) : Call :=
  match ca_oneshot c with
  | OS_Empty => mkCall (ca_id c) (ca_body c) (ca_phase c) (OS_Sent body)
  | _ => c
  end.
Definition oneshot_drop (c : Call) : Call :=
  match ca_oneshot c with
  | OS_Empty => mkCall (ca_id c) (ca_body c) (ca_phase c) OS_SenderDropped
  | _ => c
  end.

Definition drop_sender (n : option nat) (calls : list Call) : list Call :=
  match n with Some n => alter oneshot_drop n calls | None => calls end.

(** [ClientChannel::call] up to the send: the id, the oneshot, the registration. *)
Definition call_start (ch : ClientChannel) (body : bytes) : ClientChannel :=
  let id := cc_next_id ch in
  let calls := drop_sender (cc_pending ch !! id) (cc_calls ch) in
  mkClientChannel (u64_add id 1) (cc_outbound ch) (<[id := length calls]> (cc_pending ch))
    (calls ++ [mkCall id body CP_Sending OS_Empty]) (cc_driver ch).

Definition set_call (ch : ClientChannel) (n : nat) (p : CallPhase) : ClientChannel :=
  mkClientChannel (cc_next_id ch) (cc_outbound ch) (cc_pending ch)
    (alter (set_phase p) n (cc_calls ch)) (cc_driver ch).

(** One poll of a call's future: the send waits for room in the queue and fails
    once the driver is gone; then the oneshot is awaited. *)
Definition call_poll (ch : ClientChannel) (n : nat) : ClientChannel :=
  match cc_calls ch !! n with
  | None => ch
  | Some c =>
      match ca_phase c with
      | CP_Sending =>
          match cc_driver ch with
          | Dr_Returned _ =>
              set_call
                (mkClientChannel (cc_next_id ch) (cc_outbound ch) (delete (ca_id c) (cc_pending ch))
                   (drop_sender (cc_pending ch !! ca_id c) (cc_calls ch)) (cc_driver ch))
                n (CP_Done (Err RpcConnectionClosed))
          | Dr_Running _ _ =>
              if Nat.ltb (length (cc_outbound ch)) OUTBOUND_CAPACITY then
                set_call
                  (mkClientChannel (cc_next_id ch) (cc_outbound ch ++ [Env_Request (ca_id c) (ca_body c)])
                     (cc_pending ch) (cc_calls ch) (cc_driver ch))
                  n CP_Waiting
              else ch
          end
      | CP_Waiting =>
          match ca_oneshot c with
          | OS_Sent body => set_call ch n (CP_Done (Ok body))
          | OS_SenderDropped => set_call ch n (CP_Done (Err RpcConnectionClosed))
          | OS_Empty => ch
          end
      | _ => ch
      end
  end.

(** The caller drops the call's future before it resolved. *)
Definition call_give_up (ch : ClientChannel) (n : nat) : ClientChannel :=
  match ca_phase <$> cc_calls ch !! n with
  | Some CP_Sending | Some CP_Waiting => set_call ch n CP_GaveUp
  | _ => ch
  end.

(** ** The driver *)

(** The driver returns: its end of the queue is dropped with what is in it. The
    pending table stays with the channel. *)
Definition driver_return (ch : ClientChannel) (r : result unit HandshakeError) : ClientChannel :=
  mkClientChannel (cc_next_id ch) [] (cc_pending ch) (cc_calls ch) (Dr_Returned r).

Definition set_driver (ch : ClientChannel) (d : Driver) : ClientChannel :=
  mkClientChannel (cc_next_id ch) (cc_outbound ch) (cc_pending ch) (cc_calls ch) d.

(** Writes [f] and goes on as [ch], or returns the write's error. *)
Definition driver_write (ch : ClientChannel) (f : MeshFrame) (w : option FrameError)
    : ClientChannel * list MeshFrame :=
  match w with
  | None => (ch, [f])
  | Some e => (driver_return ch (Err (handshake_error e)), [])
  end.

(** The silence deadline fires. *)
Definition driver_idle (ch : ClientChannel) (now : Z) (w : option FrameError)
    : ClientChannel * list MeshFrame :=
  match cc_driver ch with
  | Dr_Running awaiting_pong deadline =>
      if now <? deadline then (ch, [])
      else if awaiting_pong then (driver_return ch (Err (HE_Timeout "peer pong" PONG_TIMEOUT)), [])
      else driver_write (set_driver ch (Dr_Running true (now + PONG_TIMEOUT))) MF_Ping w
  | Dr_Returned _ => (ch, [])
  end.

(** An envelope is taken off the queue. *)
Definition driver_outbound `{Cbor Envelope} (ch : ClientChannel) (w : option FrameError)
    : ClientChannel * list MeshFrame :=
  match cc_driver ch, cc_outbound ch with
  | Dr_Running _ _, env :: rest =>
      driver_write (mkClientChannel (cc_next_id ch) rest (cc_pending ch) (cc_calls ch) (cc_driver ch))
        (MF_Rpc (encode env)) w
  | _, _ => (ch, [])
  end.

(** A response is handed to the call that waits for its id, if one does. *)
Definition deliver (ch : ClientChannel) (id : Z) (body : bytes) : ClientChannel :=
  match cc_pending ch !! id with
  | Some n => mkClientChannel (cc_next_id ch) (cc_outbound ch) (delete id (cc_pending ch))
                (alter (oneshot_send body) n (cc_calls ch)) (cc_driver ch)
  | None => ch
  end.

(** What the reader task hands over: a frame, a frame that does not decrypt or
    decode, or nothing more ([None]). *)
Definition driver_inbound `{Cbor Envelope} (ch : ClientChannel) (now : Z)
    (got : option (result MeshFrame FrameError)) (w : option FrameError)
    : ClientChannel * list MeshFrame :=
  match cc_driver ch with
  | Dr_Returned _ => (ch, [])
  | Dr_Running _ _ =>
      match got with
      | None => (driver_return ch (Ok tt), [])
      | Some got =>
          let ch := set_driver ch (Dr_Running false (now + IDLE_BEFORE_PING)) in
          match got with
          | Err e => (driver_return ch (Err (handshake_error e)), [])
          | Ok MF_Pong => (ch, [])
          | Ok MF_Ping => driver_write ch MF_Pong w
          | Ok (MF_Rpc envelope) =>
              match from_reader envelope with
              | Err d => (driver_return ch (Err (HE_Cbor d)), [])
              | Ok (Env_Response id body) => (deliver ch id body, [])
              | Ok (Env_Request _ _) => (ch, [])
              end
          | Ok _ => (driver_return ch (Err HE_NotAuthenticate), [])
          end
      end
  end.

(** ** The serve loop *)

(** One connection's serving: whether it goes on, and the handler's state. *)
Inductive Serving (St : Type) : Type :=
| Sv_Serving (st : St)
| Sv_Returned (st : St) (r : result unit HandshakeError).
Arguments Sv_Serving {_} _.
Arguments Sv_Returned {_} _ _.

Definition serving_state {St} (s : Serving St) : St :=
  match s with Sv_Serving st | Sv_Returned st _ => st end.

Section Serve.
Context `{Cbor Envelope} {St : Type} (handler : St -> PeerContext -> bytes -> bytes * St).
Context (peer : PeerContext).

Definition serve_write (st : St) (f : MeshFrame) (w : option FrameError) : Serving St * list MeshFrame :=
  match w with
  | None => (Sv_Serving st, [f])
  | Some e => (Sv_Returned st (Err (handshake_error e)), [])
  end.

(** One turn of [serve]. *)
Definition serve_once (st : St) (got : ReadOutcome) (w : option FrameError)
    : Serving St * list MeshFrame :=
  match got with
  | Rd_Silent => (Sv_Returned st (Err (HE_Timeout "inbound peer idle" SERVE_IDLE_TIMEOUT)), [])
  | Rd_Failed e => (Sv_Returned st (Err (handshake_error e)), [])
  | Rd_Eof => (Sv_Returned st (Ok tt), [])
  | Rd_Frame MF_Ping => serve_write st MF_Pong w
  | Rd_Frame MF_Pong => (Sv_Serving st, [])
  | Rd_Frame (MF_Rpc envelope) =>
      match from_reader envelope with
      | Err d => (Sv_Returned st (Err (HE_Cbor d)), [])
      | Ok (Env_Request id body) =>
          let '(resp_body, st) := handler st peer body in
          serve_write st (MF_Rpc (encode (Env_Response id resp_body))) w
      | Ok (Env_Response _ _) => (Sv_Returned st (Err HE_NotAuthenticate), [])
      end
  | Rd_Frame _ => (Sv_Returned st (Err HE_NotAuthenticate), [])
  end.

(** [serve] on a connection that yields [reads], each with how the write it may
    cause ends; a connection that yields no more is silent. *)
Fixpoint serve (st : St) (reads : list (ReadOutcome * option FrameError))
    : St * result unit HandshakeError * list MeshFrame :=
  match reads with
  | [] => (st, Err (HE_Timeout "inbound peer idle" SERVE_IDLE_TIMEOUT), [])
  | (got, w) :: rest =>
      match serve_once st got w with
      | (Sv_Returned st r, sent) => (st, r, sent)
      | (Sv_Serving st, sent) => let '(st, r, more) := serve st rest in (st, r, sent ++ more)
      end
  end.

(** ** A connection and its two ends *)

(** The frames in flight each way, and the requests handled so far with their
    answers. *)
Record RpcSystem := mkRpcSystem {
  rs_client : ClientChannel;
  rs_up : list MeshFrame;
  rs_server : Serving St;
  rs_down : list MeshFrame;
  rs_log : list (Z * bytes * bytes);
}.

Inductive RpcEvent : Type :=
| Rpc_Call (body : bytes)
| Rpc_Poll (n : nat)
| Rpc_GiveUp (n : nat)
| Rpc_Idle (now : Z) (w : option FrameError)
| Rpc_Outbound (w : option FrameError)
| Rpc_Inbound (now : Z) (w : option FrameError)
| Rpc_InboundFails (now : Z) (e : FrameError)
| Rpc_InboundEnds
| Rpc_Serve (w : option FrameError)
| Rpc_ServeEnds (got : ReadOutcome).

Definition with_client (s : RpcSystem) (r : ClientChannel * list MeshFrame) : RpcSystem :=
  mkRpcSystem r.1 (rs_up s ++ r.2) (rs_server s) (rs_down s) (rs_log s).

Definition handled_by (st : St) (f : MeshFrame) : list (Z * bytes * bytes) :=
  match f with
  | MF_Rpc envelope =>
      match from_reader envelope with
      | Ok (Env_Request id body) => [(id, body, (handler st peer body).1)]
      | _ => []
      end
  | _ => []
  end.

Definition rpc_step (s : RpcSystem) (ev : RpcEvent) : RpcSystem :=
  match ev with
  | Rpc_Call body => with_client s (call_start (rs_client s) body, [])
  | Rpc_Poll n => with_client s (call_poll (rs_client s) n, [])
  | Rpc_GiveUp n => with_client s (call_give_up (rs_client s) n, [])
  | Rpc_Idle now w => with_client s (driver_idle (rs_client s) now w)
  | Rpc_Outbound w => with_client s (driver_outbound (rs_client s) w)
  | Rpc_Inbound now w =>
      match rs_down s with
      | f :: rest =>
          with_client (mkRpcSystem (rs_client s) (rs_up s) (rs_server s) rest (rs_log s))
            (driver_inbound (rs_client s) now (Some (Ok f)) w)
      | [] => s
      end
  | Rpc_InboundFails now e => with_client s (driver_inbound (rs_client s) now (Some (Err e)) None)
  | Rpc_InboundEnds => with_client s (driver_inbound (rs_client s) 0 None None)
  | Rpc_Serve w =>
      match rs_server s, rs_up s with
      | Sv_Serving st, f :: rest =>
          let '(sv, sent) := serve_once st (Rd_Frame f) w in
          mkRpcSystem (rs_client s) rest sv (rs_down s ++ sent) (rs_log s ++ handled_by st f)
      | _, _ => s
      end
  | Rpc_ServeEnds got =>
      match rs_server s, got with
      | Sv_Serving st, (Rd_Eof | Rd_Failed _ | Rd_Silent) =>
          mkRpcSystem (rs_client s) (rs_up s) (serve_once st got None).1 (rs_down s) (rs_log s)
      | _, _ => s
      end
  end.

Definition rpc_start (now : Z) (st : St) : RpcSystem :=
  mkRpcSystem (spawn_client now) [] (Sv_Serving st) [] [].
Definition rpc_run (now : Z) (st : St) (evs : list RpcEvent) : RpcSystem :=
  fold_left rpc_step evs (rpc_start now st).
End Serve.

Arguments mkRpcSystem {_} _ _ _ _ _.
Arguments rs_client {_} _.
Arguments rs_up {_} _.
Arguments rs_server {_} _.
Arguments rs_down {_} _.
Arguments rs_log {_} _.

(** The answer a call came back with. *)
Definition call_result {St} (s : RpcSystem (St := St)) (n : nat) : option (result bytes RpcError) :=
  match ca_phase <$> cc_calls (rs_client s) !! n with Some (CP_Done r) => Some r | _ => None end.
