(* ===== verification/MeshRpcProofs.v ===== *)
(** Properties of a mesh connection's requests: a call's answer is the answer to
    that call, each request is handled at most once and in order, and what
    becomes of calls when the driver returns. *)
From stdpp Require Import gmap sets list strings.
From S2P Require Import Prelude Text StateMachine Identity Signing Attestation LocalAttestation.
From S2P Require Import Wire Transport Framing Mesh MeshRpc.
#[local] Open Scope Z_scope.

(** ** How the calls of a channel evolve *)

(** A call keeps its id and body, and once its request was queued it stays so. *)
Definition call_evolves (c c' : Call) : Prop :=
  ca_id c' = ca_id c /\ ca_body c' = ca_body c /\ (ca_phase c' = CP_Sending -> ca_phase c = CP_Sending).

Definition calls_evolve (l l' : list Call) : Prop :=
  forall n c, l !! n = Some c -> exists c', l' !! n = Some c' /\ call_evolves c c'.

#[global] Instance call_evolves_preorder : PreOrder call_evolves.
Proof. split; [by intros c|]. unfold call_evolves. intros ? ? ?; intuition congruence. Qed.

#[global] Instance calls_evolve_preorder : PreOrder calls_evolve.
Proof.
  split; [intros l n c Hl; by exists c|].
  intros l1 l2 l3 H12 H23 n c Hl. destruct (H12 _ _ Hl) as (c2 & Hl2 & Hc2).
  destruct (H23 _ _ Hl2) as (c3 & Hl3 & Hc3). exists c3. split; [done|by transitivity c2].
Qed.

Lemma calls_evolve_alter f n l :
  (forall c, l !! n = Some c -> call_evolves c (f c)) -> calls_evolve l (alter f n l).
Proof.
  intros Hf k c Hl. destruct (decide (n = k)) as [->|Hne].
  - rewrite list_lookup_alter_eq, Hl. simpl. eauto.
  - rewrite list_lookup_alter_ne by done. by exists c.
Qed.

Lemma calls_evolve_app l x : calls_evolve l (l ++ [x]).
Proof. intros n c Hl. exists c. split; [by apply lookup_app_l_Some|done]. Qed.

Lemma oneshot_drop_evolves c : call_evolves c (oneshot_drop c).
Proof. unfold oneshot_drop. by destruct (ca_oneshot c). Qed.
Lemma oneshot_send_evolves body c : call_evolves c (oneshot_send body c).
Proof. unfold oneshot_send. by destruct (ca_oneshot c). Qed.

Lemma drop_sender_evolves o l : calls_evolve l (drop_sender o l).
Proof. destruct o; simpl; [|done]. apply calls_evolve_alter. intros c _. apply oneshot_drop_evolves. Qed.
Lemma drop_sender_length o l : length (drop_sender o l) = length l.
Proof. destruct o; simpl; [|done]. apply length_alter. Qed.

Create HintDb mesh_rpc.
#[export] Hint Resolve oneshot_drop_evolves oneshot_send_evolves drop_sender_evolves calls_evolve_app : mesh_rpc.

(** ** The channel's invariant *)

(** Which answers the calls may hold: [log] lists the answers given. *)
Record client_ok (log : list (Z * bytes * bytes)) (ch : ClientChannel) : Prop := {
  co_next : cc_next_id ch = Z.of_nat (length (cc_calls ch)) mod 2 ^ 64;
  co_ids : forall n c, cc_calls ch !! n = Some c -> ca_id c = Z.of_nat n;
  co_pending : forall id n, cc_pending ch !! id = Some n ->
    id = Z.of_nat n /\ (n < length (cc_calls ch))%nat;
  co_sent : forall n c r, cc_calls ch !! n = Some c ->
    ca_oneshot c = OS_Sent r \/ ca_phase c = CP_Done (Ok r) -> (Z.of_nat n, ca_body c, r) ∈ log;
}.

Lemma client_ok_log log log' ch : (forall x, x ∈ log -> x ∈ log') -> client_ok log ch -> client_ok log' ch.
Proof. intros Hsub []; split; eauto. Qed.

(** A step that keeps the calls and their answers keeps the invariant. *)
Lemma client_ok_same log ch ch' :
  client_ok log ch -> cc_next_id ch' = cc_next_id ch -> cc_calls ch' = cc_calls ch ->
  (forall id n, cc_pending ch' !! id = Some n -> cc_pending ch !! id = Some n) -> client_ok log ch'.
Proof. intros [Hn Hi Hp Hs] Hn' Hc Hp'. split; rewrite ?Hc, ?Hn'; eauto. Qed.

(** A step that changes one call, without an answer the log does not have. *)
Lemma client_ok_alter log ch out pend f n d :
  client_ok log ch ->
  (forall id k, pend !! id = Some k -> cc_pending ch !! id = Some k) ->
  (forall c, cc_calls ch !! n = Some c -> ca_id (f c) = ca_id c /\ ca_body (f c) = ca_body c /\
     forall r, ca_oneshot (f c) = OS_Sent r \/ ca_phase (f c) = CP_Done (Ok r) ->
       (Z.of_nat n, ca_body c, r) ∈ log) ->
  client_ok log (mkClientChannel (cc_next_id ch) out pend (alter f n (cc_calls ch)) d).
Proof.
  intros [Hn Hi Hp Hs] Hpend Hf.
  assert (Hl : forall k c, alter f n (cc_calls ch) !! k = Some c ->
            exists c0, cc_calls ch !! k = Some c0 /\ (k = n /\ c = f c0 \/ c = c0)).
  { intros k c. destruct (decide (n = k)) as [->|Hne].
    - rewrite list_lookup_alter_eq, fmap_Some. intros (c0 & ? & ->). eauto.
    - rewrite list_lookup_alter_ne by done. eauto. }
  split; simpl; rewrite ?length_alter; [done| |by eauto|].
  - intros k c (c0 & Hc0 & [[-> ->]| ->])%Hl; [|eauto]. destruct (Hf _ Hc0) as (-> & _). eauto.
  - intros k c r (c0 & Hc0 & [[-> ->]| ->])%Hl Hr; [|eauto]. destruct (Hf _ Hc0) as (_ & -> & Hr'). eauto.
Qed.

Lemma set_call_ok log ch n p :
  client_ok log ch ->
  (forall c r, cc_calls ch !! n = Some c -> p = CP_Done (Ok r) -> ca_oneshot c = OS_Sent r) ->
  client_ok log (set_call ch n p).
Proof.
  intros Hok Hp. apply client_ok_alter; [done|done|].
  intros c Hc. split_and!; [done|done|]. intros r [Ho|Hd]; eapply (co_sent _ _ Hok); eauto.
Qed.

Lemma drop_sender_ok log ch out pend o d :
  client_ok log ch -> (forall id k, pend !! id = Some k -> cc_pending ch !! id = Some k) ->
  client_ok log (mkClientChannel (cc_next_id ch) out pend (drop_sender o (cc_calls ch)) d).
Proof.
  intros Hok Hpend. destruct o as [m|]; simpl; [|by apply (client_ok_same log ch)].
  apply client_ok_alter; [done|done|]. intros c Hc. pose proof (fun r => co_sent _ _ Hok _ _ r Hc) as Hs.
  unfold oneshot_drop. destruct (ca_oneshot c) eqn:Ho; (split_and!; [done|done|]); intros r; simpl.
  - intros [[=]|Hd]. apply Hs. by right.
  - intros [Hr|Hd]; apply Hs; [left|by right]. congruence.
  - rewrite Ho. intros [[=]|Hd]. apply Hs. by right.
Qed.

(** Starting a call: while fewer than 2^64 calls were made its id is fresh. *)
Lemma call_start_ok log ch body :
  Z.of_nat (length (cc_calls (call_start ch body))) <= 2 ^ 64 ->
  client_ok log ch ->
  client_ok log (call_start ch body) /\ cc_calls (call_start ch body)
    = cc_calls ch ++ [mkCall (Z.of_nat (length (cc_calls ch))) body CP_Sending OS_Empty].
Proof.
  unfold call_start. simpl. rewrite length_app, drop_sender_length. simpl. intros Hlen [Hn Hi Hp Hs].
  assert (Hid : cc_next_id ch = Z.of_nat (length (cc_calls ch))) by (rewrite Hn; apply Z.mod_small; lia).
  assert (cc_pending ch !! cc_next_id ch = None) as ->.
  { destruct (cc_pending ch !! _) as [m|] eqn:Hm; [|done]. apply Hp in Hm as [Hm ?]. lia. }
  simpl. split; [|by rewrite Hid].
  assert (Hl : forall n c, (cc_calls ch ++ [mkCall (cc_next_id ch) body CP_Sending OS_Empty]) !! n = Some c ->
            cc_calls ch !! n = Some c \/ n = length (cc_calls ch) /\ c = mkCall (cc_next_id ch) body CP_Sending OS_Empty).
  { intros n c [Hc|[Hge Hc]]%lookup_app_Some; [by left|]. apply list_lookup_singleton_Some in Hc as [? <-].
    right. split; [lia|done]. }
  split; simpl.
  - rewrite length_app. simpl. unfold u64_add. rewrite Hid. f_equal. lia.
  - intros n c [?|[-> ->]]%Hl; [eauto|]. simpl. lia.
  - intros id n [[<- <-]|[_ Hm]]%lookup_insert_Some; rewrite length_app; simpl; [lia|].
    apply Hp in Hm. lia.
  - intros n c r [?|[-> ->]]%Hl Hr; [eauto|]. by destruct Hr.
Qed.

Lemma call_poll_ok log ch n : client_ok log ch -> client_ok log (call_poll ch n).
Proof.
  intros Hok. unfold call_poll. destruct (cc_calls ch !! n) as [c|] eqn:Hc; [|done].
  destruct (ca_phase c); [| |done..].
  - destruct (cc_driver ch).
    + destruct (Nat.ltb _ _); [|done]. apply set_call_ok; [|done].
      by apply (client_ok_same log ch).
    + apply set_call_ok; [|done]. apply drop_sender_ok; [done|]. by intros id k [_ ?]%lookup_delete_Some.
  - destruct (ca_oneshot c) eqn:Ho; [done| |by apply set_call_ok].
    apply set_call_ok; [done|]. intros c' r Hc' [= <-]. congruence.
Qed.

Lemma call_give_up_ok log ch n : client_ok log ch -> client_ok log (call_give_up ch n).
Proof.
  intros Hok. unfold call_give_up. destruct (ca_phase <$> _) as [[]|]; try done; by apply set_call_ok.
Qed.

Lemma deliver_ok log ch id body r :
  client_ok log ch -> (id, body, r) ∈ log ->
  (forall c, cc_calls ch !! Z.to_nat id = Some c -> ca_body c = body) -> client_ok log (deliver ch id r).
Proof.
  intros Hok Hin Hb. unfold deliver. destruct (cc_pending ch !! id) as [n|] eqn:Hp; [|done].
  apply (co_pending _ _ Hok) in Hp as [-> Hn]. rewrite Nat2Z.id in Hb.
  apply client_ok_alter; [done|by intros k m [_ ?]%lookup_delete_Some|]. intros c Hc.
  pose proof (fun q => co_sent _ _ Hok _ _ q Hc) as Hs.
  unfold oneshot_send. destruct (ca_oneshot c) eqn:Ho; (split_and!; [done|done|]); intros q; simpl.
  - intros [[= <-]|Hd]; [by rewrite (Hb _ Hc)|]. apply Hs. by right.
  - rewrite Ho. intros [Hq|Hd]; apply Hs; [left|right]; congruence.
  - rewrite Ho. intros [[=]|Hd]. apply Hs. by right.
Qed.

Lemma driver_return_ok log ch r : client_ok log ch -> client_ok log (driver_return ch r).
Proof. intros Hok. by apply (client_ok_same log ch). Qed.
Lemma set_driver_ok log ch d : client_ok log ch -> client_ok log (set_driver ch d).
Proof. intros Hok. by apply (client_ok_same log ch). Qed.
Lemma driver_write_ok log ch f w : client_ok log ch -> client_ok log (driver_write ch f w).1.
Proof. intros Hok. destruct w; simpl; [by apply driver_return_ok|done]. Qed.

#[export] Hint Resolve call_poll_ok call_give_up_ok driver_return_ok set_driver_ok driver_write_ok : mesh_rpc.

(** ** The requests in flight *)

Definition env_request (e : Envelope) : option (Z * bytes) :=
  match e with Env_Request id body => Some (id, body) | _ => None end.

(** The requests on their way name queued calls, each once. *)
Definition flight_ok (calls : list Call) (fl : list (Z * bytes)) : Prop :=
  NoDup fl.*1 /\
  forall id body, (id, body) ∈ fl ->
    0 <= id /\ exists c, calls !! Z.to_nat id = Some c /\ ca_body c = body /\ ca_phase c <> CP_Sending.

Lemma flight_ok_evolve calls calls' fl :
  calls_evolve calls calls' -> flight_ok calls fl -> flight_ok calls' fl.
Proof.
  intros Hev [Hnd Hfl]. split; [done|]. intros id body Hin. destruct (Hfl _ _ Hin) as (? & c & Hc & ? & Hp).
  destruct (Hev _ _ Hc) as (c' & Hc' & _ & Hb & Hp'). split; [done|]. exists c'. split_and!; [done|congruence|tauto].
Qed.

Lemma flight_ok_submseteq calls fl fl' : fl' ⊆+ fl -> flight_ok calls fl -> flight_ok calls fl'.
Proof.
  intros Hsub [Hnd Hfl]. split.
  - apply submseteq_Permutation in Hsub as [k Hk]. rewrite Hk, fmap_app in Hnd. by apply NoDup_app in Hnd as [? _].
  - intros id body Hin. apply Hfl. by eapply elem_of_submseteq.
Qed.

Section System.
Context `{Cbor Envelope} {Hcbor : CborLaws Envelope}.
Context {St : Type} (handler : St -> PeerContext -> bytes -> bytes * St) (peer : PeerContext).

Abbreviation rpc_state := (RpcSystem (St := St)).

Definition frame_envelope (f : MeshFrame) : option Envelope :=
  match f with
  | MF_Rpc e => match from_reader e with Ok env => Some env | Err _ => None end
  | _ => None
  end.
Definition frame_request (f : MeshFrame) : option (Z * bytes) := frame_envelope f ≫= env_request.

Lemma frame_envelope_encode env : frame_envelope (MF_Rpc (encode env)) = Some env.
Proof. simpl. by rewrite cbor_roundtrip. Qed.

(** [log] is a run of the handler from [st] to [st']. *)
Fixpoint handler_run (st : St) (log : list (Z * bytes * bytes)) (st' : St) : Prop :=
  match log with
  | [] => st' = st
  | (_, body, r) :: log => r = (handler st peer body).1 /\ handler_run (handler st peer body).2 log st'
  end.

Lemma handler_run_snoc st log st' id body :
  handler_run st log st' ->
  handler_run st (log ++ [(id, body, (handler st' peer body).1)]) (handler st' peer body).2.
Proof.
  revert st. induction log as [|[[i b] r] log IH]; intros st; simpl; [by intros ->|].
  intros [-> Hr]. split; [done|]. by apply IH.
Qed.

(** The requests queued, on the wire, or handled. *)
Definition flight (s : rpc_state) : list (Z * bytes) :=
  omap env_request (cc_outbound (rs_client s)) ++ omap frame_request (rs_up s) ++ (rs_log s).*1.

Record rpc_ok (st0 : St) (s : rpc_state) : Prop := {
  ro_client : client_ok (rs_log s) (rs_client s);
  ro_flight : flight_ok (cc_calls (rs_client s)) (flight s);
  ro_down : forall f id r, f ∈ rs_down s -> frame_envelope f = Some (Env_Response id r) ->
    exists body, (id, body, r) ∈ rs_log s;
  ro_log : handler_run st0 (rs_log s) (serving_state (rs_server s));
}.

(** A step of the client that changes nothing else and sends [sent]. *)
Lemma with_client_ok st0 s ch sent :
  rpc_ok st0 s -> client_ok (rs_log s) ch -> calls_evolve (cc_calls (rs_client s)) (cc_calls ch) ->
  omap env_request (cc_outbound ch) ++ omap frame_request sent ⊆+ omap env_request (cc_outbound (rs_client s)) ->
  rpc_ok st0 (with_client s (ch, sent)).
Proof.
  intros [Hc Hf Hd Hl] Hok Hev Hsub. split; simpl; [done| |done|done].
  eapply flight_ok_evolve; [exact Hev|]. eapply flight_ok_submseteq; [|exact Hf].
  unfold flight. simpl. rewrite omap_app, !(assoc_L (++)). apply submseteq_app; [|done].
  rewrite <-(assoc_L (++)), (comm (++) (omap frame_request (rs_up s))), (assoc_L (++)). by apply submseteq_app.
Qed.

Lemma driver_write_sent ch f w :
  frame_request f = None -> omap frame_request (driver_write ch f w).2 = [].
Proof. intros Hf. destruct w; simpl; [done|by rewrite Hf]. Qed.
Lemma driver_write_calls ch f w : cc_calls (driver_write ch f w).1 = cc_calls ch.
Proof. by destruct w. Qed.
Lemma driver_write_outbound ch f w :
  omap env_request (cc_outbound (driver_write ch f w).1) ⊆+ omap env_request (cc_outbound ch).
Proof. destruct w; simpl; [apply submseteq_nil_l|done]. Qed.

(** A step of the driver that sends no request. *)
Lemma driver_step_ok st0 s ch sent :
  rpc_ok st0 s -> client_ok (rs_log s) ch -> calls_evolve (cc_calls (rs_client s)) (cc_calls ch) ->
  omap env_request (cc_outbound ch) ⊆+ omap env_request (cc_outbound (rs_client s)) ->
  omap frame_request sent = [] -> rpc_ok st0 (with_client s (ch, sent)).
Proof. intros. apply with_client_ok; [done..|]. match goal with Hx : omap frame_request _ = [] |- _ => rewrite Hx end. by rewrite app_nil_r. Qed.

Lemma driver_idle_step st0 s now w :
  rpc_ok st0 s -> rpc_ok st0 (with_client s (driver_idle (rs_client s) now w)).
Proof.
  intros Hok. pose proof (ro_client _ _ Hok) as Hc. unfold driver_idle.
  destruct (cc_driver (rs_client s)) as [aw dl|]; [|by apply driver_step_ok].
  destruct (now <? dl); [by apply driver_step_ok|]. destruct aw.
  - apply driver_step_ok; [done|auto with mesh_rpc|done|apply submseteq_nil_l|done].
  - rewrite (surjective_pairing (driver_write _ _ _)). apply driver_step_ok; [done|auto with mesh_rpc| |..].
    + by rewrite driver_write_calls.
    + etransitivity; [apply driver_write_outbound|done].
    + by apply driver_write_sent.
Qed.

Lemma driver_outbound_step st0 s w :
  rpc_ok st0 s -> rpc_ok st0 (with_client s (driver_outbound (rs_client s) w)).
Proof.
  intros Hok. pose proof (ro_client _ _ Hok) as Hc. unfold driver_outbound.
  destruct (cc_driver (rs_client s)) as [aw dl|] eqn:Hd; [|by apply driver_step_ok].
  destruct (cc_outbound (rs_client s)) as [|env rest] eqn:Ho; [apply driver_step_ok; rewrite ?Ho; done|].
  rewrite (surjective_pairing (driver_write _ _ _)). apply with_client_ok; [done| | |].
  - apply driver_write_ok. by apply (client_ok_same _ (rs_client s)).
  - by rewrite driver_write_calls.
  - rewrite Ho. destruct w; simpl; [apply submseteq_nil_l|].
    unfold frame_request. rewrite frame_envelope_encode. cbn. destruct (env_request env); simpl; [|by rewrite app_nil_r].
    by rewrite Permutation_app_comm.
Qed.

(** What the driver does with one thing it received. *)
Lemma driver_inbound_step st0 s now got w :
  rpc_ok st0 s ->
  (forall f id r, got = Some (Ok f) -> frame_envelope f = Some (Env_Response id r) ->
     exists body, (id, body, r) ∈ rs_log s) ->
  rpc_ok st0 (with_client s (driver_inbound (rs_client s) now got w)).
Proof.
  intros Hok Hgot. pose proof (ro_client _ _ Hok) as Hc. unfold driver_inbound.
  destruct (cc_driver (rs_client s)) as [aw dl|] eqn:Hd; [|by apply driver_step_ok].
  assert (Hret : forall ch r, cc_calls ch = cc_calls (rs_client s) -> client_ok (rs_log s) ch ->
            rpc_ok st0 (with_client s (driver_return ch r, []))).
  { intros ch r Hcalls Hch. apply driver_step_ok; [done|auto with mesh_rpc|simpl; by rewrite Hcalls|..].
    - apply submseteq_nil_l.
    - done. }
  destruct got as [[f|e]|]; [|apply Hret; auto with mesh_rpc..].
  destruct f as [|from| | |e]; [apply Hret; auto with mesh_rpc..| | |].
  - rewrite (surjective_pairing (driver_write _ _ _)). apply driver_step_ok; [done|auto with mesh_rpc| |..].
    + by rewrite driver_write_calls.
    + etransitivity; [apply driver_write_outbound|done].
    + by apply driver_write_sent.
  - apply driver_step_ok; auto with mesh_rpc; done.
  - destruct (from_reader e) as [[id body|id r]|d] eqn:He.
    + apply driver_step_ok; auto with mesh_rpc; done.
    + destruct (Hgot (MF_Rpc e) id r) as [body Hin]; [done|simpl; by rewrite He|].
      apply driver_step_ok; [done| | | |done].
      * apply (deliver_ok _ _ _ body); [auto with mesh_rpc|done|]. simpl. intros c Hcl.
        destruct (ro_flight _ _ Hok) as [_ Hfl].
        destruct (Hfl id body) as (_ & c' & Hc' & Hb & _); [|congruence].
        unfold flight. apply elem_of_app. right. apply elem_of_app. right.
        apply list_elem_of_fmap. by exists (id, body, r).
      * unfold deliver. simpl. destruct (cc_pending (rs_client s) !! id); [|done]. simpl.
        apply calls_evolve_alter. auto with mesh_rpc.
      * unfold deliver. by destruct (cc_pending _ !! _).
    + apply Hret; auto with mesh_rpc.
Qed.

Lemma set_call_evolves ch n p :
  (forall c, cc_calls ch !! n = Some c -> p = CP_Sending -> ca_phase c = CP_Sending) ->
  calls_evolve (cc_calls ch) (cc_calls (set_call ch n p)).
Proof. intros Hp. apply calls_evolve_alter. intros c Hc. split_and!; [done..|]. simpl. eauto. Qed.

Lemma call_poll_step st0 s n :
  rpc_ok st0 s -> rpc_ok st0 (with_client s (call_poll (rs_client s) n, [])).
Proof.
  intros Hok. pose proof (ro_client _ _ Hok) as Hc. pose proof (call_poll_ok _ _ n Hc) as Hpoll.
  unfold call_poll in *. destruct (cc_calls (rs_client s) !! n) as [c|] eqn:Hcn; [|by apply driver_step_ok].
  destruct (ca_phase c) eqn:Hph; [| |by apply driver_step_ok..].
  - destruct (cc_driver (rs_client s)) as [aw dl|r0] eqn:Hd.
    + destruct (Nat.ltb _ _); [|by apply driver_step_ok]. split; simpl; [done| |apply Hok..].
      assert (Hev : calls_evolve (cc_calls (rs_client s)) (alter (set_phase CP_Waiting) n (cc_calls (rs_client s)))).
      { by apply (set_call_evolves (rs_client s) n CP_Waiting). }
      assert (Hid : ca_id c = Z.of_nat n) by (by apply (co_ids _ _ Hc)).
      pose proof (flight_ok_evolve _ _ _ Hev (ro_flight _ _ Hok)) as [Hnd Hfl].
      pose proof (proj2 (ro_flight _ _ Hok)) as Hfl0.
      assert (Hperm : flight (with_client s (set_call (mkClientChannel (cc_next_id (rs_client s))
                (cc_outbound (rs_client s) ++ [Env_Request (ca_id c) (ca_body c)]) (cc_pending (rs_client s))
                (cc_calls (rs_client s)) (cc_driver (rs_client s))) n CP_Waiting, []))
              ≡ₚ (ca_id c, ca_body c) :: flight s).
      { unfold flight. simpl. rewrite omap_app, app_nil_r. simpl.
        rewrite <-(assoc_L (++)). simpl. by rewrite <-Permutation_middle. }
      rewrite <-Hd. split.
      * rewrite Hperm. simpl. constructor; [|done]. rewrite Hid. intros ([k b] & Heq & Hin)%list_elem_of_fmap.
        simpl in Heq. subst k. destruct (Hfl0 _ _ Hin) as (_ & c' & Hc' & _ & Hp'). rewrite Nat2Z.id in Hc'. congruence.
      * intros id body. rewrite Hperm, elem_of_cons. intros [[= -> ->]|Hin]; [|by apply Hfl].
        rewrite Hid. split; [lia|]. rewrite Nat2Z.id, list_lookup_alter_eq, Hcn. by eexists.
    + apply driver_step_ok; [done|done| |done|done].
      etransitivity; [apply drop_sender_evolves|]. eapply (set_call_evolves (mkClientChannel _ _ _ _ _)). done.
  - destruct (ca_oneshot c); [by apply driver_step_ok|..]; apply driver_step_ok; try done; by apply set_call_evolves.
Qed.

Lemma call_give_up_step st0 s n :
  rpc_ok st0 s -> rpc_ok st0 (with_client s (call_give_up (rs_client s) n, [])).
Proof.
  intros Hok. pose proof (call_give_up_ok _ _ n (ro_client _ _ Hok)) as Hc. unfold call_give_up in *.
  destruct (ca_phase <$> _) as [[]|]; apply driver_step_ok; try done; by apply set_call_evolves.
Qed.

Lemma call_start_step st0 s body :
  Z.of_nat (length (cc_calls (call_start (rs_client s) body))) <= 2 ^ 64 ->
  rpc_ok st0 s -> rpc_ok st0 (with_client s (call_start (rs_client s) body, [])).
Proof.
  intros Hlen Hok. destruct (call_start_ok _ _ _ Hlen (ro_client _ _ Hok)) as [Hc Hcalls].
  apply driver_step_ok; [done|done| |done|done]. rewrite Hcalls. apply calls_evolve_app.
Qed.

Lemma handled_by_request st f :
  handled_by handler peer st f
  = match frame_request f with Some (id, body) => [(id, body, (handler st peer body).1)] | None => [] end.
Proof.
  unfold frame_request. destruct f; try done. simpl. by destruct (from_reader _) as [[]|].
Qed.

Lemma serve_once_sent st f w id r :
  forall g, g ∈ (serve_once handler peer st (Rd_Frame f) w).2 -> frame_envelope g = Some (Env_Response id r) ->
  exists body, (id, body, r) ∈ handled_by handler peer st f.
Proof.
  intros g Hg He. unfold serve_once, serve_write in Hg. destruct f; simpl in Hg; try set_solver.
  - destruct w; simpl in Hg; [set_solver|]. apply list_elem_of_singleton in Hg as ->. done.
  - simpl. destruct (from_reader envelope) as [[i b|]|]; simpl in *; try set_solver.
    destruct (handler st peer b) as [resp st']. destruct w; simpl in Hg; [set_solver|].
    apply list_elem_of_singleton in Hg as ->. rewrite frame_envelope_encode in He. simplify_eq.
    exists b. set_solver.
Qed.

Lemma serve_once_state st f w :
  serving_state (serve_once handler peer st (Rd_Frame f) w).1
  = match frame_request f with Some (_, body) => (handler st peer body).2 | None => st end.
Proof.
  unfold frame_request, serve_once, serve_write. destruct f; try done; simpl; [by destruct w|].
  destruct (from_reader envelope) as [[i b|]|]; [|done..]. simpl. destruct (handler st peer b). by destruct w.
Qed.

Abbreviation step := (rpc_step handler peer).
Abbreviation run := (rpc_run handler peer).
Abbreviation calls_of s := (cc_calls (rs_client s)).

Lemma serve_step st0 s w : rpc_ok st0 s -> rpc_ok st0 (step s (Rpc_Serve w)).
Proof.
  intros Hok. unfold rpc_step. destruct (rs_server s) as [st|] eqn:Hsv; [|done].
  destruct (rs_up s) as [|f rest] eqn:Hup; [done|].
  pose proof (serve_once_sent st f w) as Hsent. pose proof (serve_once_state st f w) as Hstate.
  destruct (serve_once _ _ _ _ _) as [sv sent]. cbn [fst snd] in *.
  pose proof (handled_by_request st f) as Hh. destruct Hok as [Hc Hf Hd Hl]. split; simpl.
  - eapply client_ok_log; [|exact Hc]. set_solver.
  - eapply flight_ok_submseteq; [|exact Hf]. unfold flight. simpl. rewrite Hup, Hh, fmap_app. simpl.
    apply submseteq_app; [done|]. destruct (frame_request f) as [[id body]|]; simpl; [|by rewrite app_nil_r].
    by rewrite (assoc_L (++)), (comm (++) _ [_]).
  - intros g id r [Hg|Hg]%elem_of_app He; [destruct (Hd _ _ _ Hg He) as [b ?]|destruct (Hsent _ _ _ Hg He) as [b ?]];
      exists b; set_solver.
  - rewrite Hsv in Hl. simpl in Hl. rewrite Hstate, Hh.
    destruct (frame_request f) as [[id body]|]; [by apply handler_run_snoc|by rewrite app_nil_r].
Qed.

Lemma rpc_step_ok st0 s ev :
  Z.of_nat (length (calls_of (step s ev))) <= 2 ^ 64 -> rpc_ok st0 s -> rpc_ok st0 (step s ev).
Proof.
  intros Hlen Hok. destruct ev as [body|n|n|now w|w|now w|now e| |w|got].
  - by apply call_start_step.
  - by apply call_poll_step.
  - by apply call_give_up_step.
  - by apply driver_idle_step.
  - by apply driver_outbound_step.
  - simpl in *. destruct (rs_down s) as [|f rest] eqn:Hdn; [done|].
    apply (driver_inbound_step st0 (mkRpcSystem (rs_client s) (rs_up s) (rs_server s) rest (rs_log s))).
    + destruct Hok as [? ? Hd ?]. split; try done. simpl. intros g id r Hg. apply Hd. rewrite Hdn. set_solver.
    + intros g id r [= ->]. apply (ro_down _ _ Hok). rewrite Hdn. set_solver.
  - apply driver_inbound_step; [done|]. by intros ? ? ? [=].
  - apply driver_inbound_step; [done|]. by intros ? ? ? [=].
  - by apply serve_step.
  - simpl. destruct (rs_server s) as [st|] eqn:Hsv; [|done].
    destruct got; try done; destruct Hok as [? ? ? Hl]; split; try done; simpl; by rewrite Hsv in Hl.
Qed.

Lemma driver_write_length ch f w : length (cc_calls (driver_write ch f w).1) = length (cc_calls ch).
Proof. by destruct w. Qed.
Lemma deliver_length ch id r : length (cc_calls (deliver ch id r)) = length (cc_calls ch).
Proof. unfold deliver. destruct (_ !! _); [apply length_alter|done]. Qed.

Lemma driver_inbound_length ch now got w :
  length (cc_calls (driver_inbound ch now got w).1) = length (cc_calls ch).
Proof.
  unfold driver_inbound. destruct (cc_driver ch); [|done]. destruct got as [[f|]|]; [|done..].
  destruct f; try done; [by rewrite driver_write_length|]. destruct (from_reader _) as [[]|]; [done| |done].
  cbn [fst]. by rewrite deliver_length.
Qed.

Lemma rpc_step_length s ev : (length (calls_of s) <= length (calls_of (step s ev)))%nat.
Proof.
  destruct ev as [body|n|n|now w|w|now w|now e| |w|got]; simpl.
  - rewrite length_app, drop_sender_length. lia.
  - unfold call_poll. destruct (_ !! n) as [c|]; [|done]. destruct (ca_phase c); [| |done..].
    + destruct (cc_driver _); [destruct (Nat.ltb _ _); [|done]|]; simpl; rewrite length_alter, ?drop_sender_length; done.
    + destruct (ca_oneshot c); simpl; rewrite ?length_alter; done.
  - unfold call_give_up. destruct (ca_phase <$> _) as [[]|]; simpl; rewrite ?length_alter; done.
  - unfold driver_idle. destruct (cc_driver _) as [[]|]; [..|done]; destruct (now <? _); try done.
    by rewrite driver_write_length.
  - unfold driver_outbound. destruct (cc_driver _); [|done]. destruct (cc_outbound _); [done|].
    by rewrite driver_write_length.
  - destruct (rs_down s); [done|]. simpl. by rewrite driver_inbound_length.
  - by rewrite driver_inbound_length.
  - by rewrite driver_inbound_length.
  - destruct (rs_server s) as [st|]; [|done]. destruct (rs_up s) as [|f rest]; [done|].
    change (length (calls_of s) <= length (calls_of (let '(sv, sent) := serve_once handler peer st (Rd_Frame f) w in
      mkRpcSystem (rs_client s) rest sv (rs_down s ++ sent) (rs_log s ++ handled_by handler peer st f))))%nat.
    by destruct (serve_once _ _ _ _ _).
  - destruct (rs_server s), got; done.
Qed.

Lemma rpc_steps_length evs s : (length (calls_of s) <= length (calls_of (fold_left step evs s)))%nat.
Proof.
  revert s. induction evs as [|ev evs IH]; intros s; simpl; [done|].
  etransitivity; [apply rpc_step_length|apply IH].
Qed.

Lemma rpc_steps_ok st0 evs s :
  Z.of_nat (length (calls_of (fold_left step evs s))) <= 2 ^ 64 -> rpc_ok st0 s ->
  rpc_ok st0 (fold_left step evs s).
Proof.
  revert s. induction evs as [|ev evs IH]; intros s Hlen Hok; simpl in *; [done|].
  apply IH; [done|]. apply rpc_step_ok; [|done]. pose proof (rpc_steps_length evs (step s ev)). lia.
Qed.

Lemma rpc_start_ok now st : rpc_ok st (rpc_start now st).
Proof.
  split; [by split| |by intros f id r Hf%elem_of_nil|done].
  split; [constructor|]. by intros id body Hin%elem_of_nil.
Qed.

(** An answer belongs to its call.  In every schedule of the callers, the
    driver and the serve loop over one connection, with up to 2^64 calls: the
    requests handled are a run of the handler in order, no request is handled
    twice, each handled request is the body some call was made with, and a call
    that returns an answer returns the handler's answer to its own body. *)
Theorem call_returns_its_own_answer now st evs
    (Hcalls : Z.of_nat (length (calls_of (run now st evs))) <= 2 ^ 64) :
  let s := run now st evs in
  handler_run st (rs_log s) (serving_state (rs_server s)) /\
  NoDup (rs_log s).*1.*1 /\
  (forall id body r, (id, body, r) ∈ rs_log s ->
     exists c, calls_of s !! Z.to_nat id = Some c /\ ca_id c = id /\ ca_body c = body) /\
  (forall n r, call_result s n = Some (Ok r) ->
     exists c, calls_of s !! n = Some c /\ (Z.of_nat n, ca_body c, r) ∈ rs_log s).
Proof.
  intros s. destruct (rpc_steps_ok st evs _ Hcalls (rpc_start_ok now st)) as [Hc [Hnd Hfl] _ Hl].
  fold (run now st evs) s in Hc, Hnd, Hfl, Hl. unfold flight in Hnd, Hfl. split_and!; [done| | |].
  - rewrite !fmap_app in Hnd. apply NoDup_app in Hnd as (_ & _ & Hnd). by apply NoDup_app in Hnd as (_ & _ & Hnd).
  - intros id body r Hin. destruct (Hfl id body) as (? & c & Hc' & Hb & _).
    + apply elem_of_app. right. apply elem_of_app. right. apply list_elem_of_fmap. by exists (id, body, r).
    + exists c. split_and!; [done| |done]. rewrite (co_ids _ _ Hc _ _ Hc'). lia.
  - intros n r. unfold call_result. destruct (calls_of s !! n) as [c|] eqn:Hcn; [|done]. simpl.
    destruct (ca_phase c) as [| |[]|] eqn:Hp; try done. intros [= ->]. exists c. split; [done|].
    eapply (co_sent _ _ Hc); eauto.
Qed.

(** ** When the driver returns *)

(** A call nobody will answer: its request was queued, its oneshot is empty, and
    the driver is gone. *)
Definition stranded (s : rpc_state) (n : nat) : Prop :=
  (exists r, cc_driver (rs_client s) = Dr_Returned r) /\
  exists c, calls_of s !! n = Some c /\ ca_oneshot c = OS_Empty /\ ca_phase c ∈ [CP_Waiting; CP_GaveUp].

Lemma stranded_alter s n k f out pend up sv down log :
  stranded s n ->
  (forall c, calls_of s !! k = Some c -> k = n -> ca_phase c ∈ [CP_Waiting; CP_GaveUp] ->
     ca_oneshot c = OS_Empty -> ca_oneshot (f c) = OS_Empty /\ ca_phase (f c) ∈ [CP_Waiting; CP_GaveUp]) ->
  stranded (mkRpcSystem (mkClientChannel (cc_next_id (rs_client s)) out pend (alter f k (calls_of s))
              (cc_driver (rs_client s))) up sv down log) n.
Proof.
  intros (Hd & c & Hc & Ho & Hp) Hf. split; [done|]. simpl. destruct (decide (k = n)) as [->|Hne].
  - rewrite list_lookup_alter_eq, Hc. exists (f c). split; [done|]. by apply Hf.
  - rewrite list_lookup_alter_ne by done. by exists c.
Qed.

Lemma stranded_calls s s' n :
  cc_calls (rs_client s') = cc_calls (rs_client s) -> cc_driver (rs_client s') = cc_driver (rs_client s) ->
  stranded s n -> stranded s' n.
Proof. unfold stranded. by intros -> ->. Qed.

Lemma stranded_poll st0 s n k : rpc_ok st0 s -> stranded s n -> stranded (step s (Rpc_Poll k)) n.
Proof.
  intros Hok Hs. pose proof Hs as ([r Hd] & c & Hc & Ho & Hp). simpl. unfold call_poll.
  destruct (calls_of s !! k) as [ck|] eqn:Hk; [|by eapply stranded_calls; [..|exact Hs]].
  assert (Hwrong : ca_phase ck ∉ [CP_Waiting; CP_GaveUp] -> k <> n).
  { intros Hnot ->. destruct Hnot. congruence. }
  destruct (ca_phase ck) eqn:Hpk; [| |by eapply stranded_calls; [..|exact Hs]..].
  - rewrite Hd. clear Hpk. assert (Hpk : k <> n) by (apply Hwrong; set_solver).
    assert (stranded (mkRpcSystem (mkClientChannel (cc_next_id (rs_client s)) (cc_outbound (rs_client s))
              (delete (ca_id ck) (cc_pending (rs_client s)))
              (drop_sender (cc_pending (rs_client s) !! ca_id ck) (calls_of s)) (cc_driver (rs_client s)))
              (rs_up s) (rs_server s) (rs_down s) (rs_log s)) n) as Hs'.
    { destruct (cc_pending (rs_client s) !! ca_id ck) as [m|] eqn:Hm; simpl.
      - apply stranded_alter; [done|]. intros c' Hc' -> _ _. destruct Hpk.
        pose proof (co_ids _ _ (ro_client _ _ Hok) _ _ Hk). apply (co_pending _ _ (ro_client _ _ Hok)) in Hm. lia.
      - by eapply stranded_calls; [..|exact Hs]. }
    rewrite <-Hd. by apply (stranded_alter _ _ k (set_phase (CP_Done (Err RpcConnectionClosed))) _ _ _ _ _ _ Hs').
  - destruct (ca_oneshot ck) eqn:Hok'; [by eapply stranded_calls; [..|exact Hs]|..].
    all: apply stranded_alter; [done|]; intros c' Hc' -> _ Ho'; congruence.
Qed.

Lemma stranded_step st0 s n ev :
  Z.of_nat (length (calls_of (step s ev))) <= 2 ^ 64 -> rpc_ok st0 s -> stranded s n -> stranded (step s ev) n.
Proof.
  intros Hlen Hok Hs. pose proof Hs as ([r Hd] & c & Hc & Ho & Hp).
  destruct ev as [body|k|k|now w|w|now w|now e| |w|got];
    [unfold rpc_step, with_client in *; cbn [fst rs_client] in *|simpl in *..].
  - destruct (call_start_ok _ _ _ Hlen (ro_client _ _ Hok)) as [_ Hcalls]. split; [by exists r|].
    exists c. split; [|done]. cbn [fst rs_client]. rewrite Hcalls. by apply lookup_app_l_Some.
  - by eapply stranded_poll.
  - unfold call_give_up. destruct (calls_of s !! k) as [ck|] eqn:Hk; simpl; [|by eapply stranded_calls; [..|exact Hs]].
    destruct (ca_phase ck); try (by eapply stranded_calls; [..|exact Hs]).
    all: apply stranded_alter; [done|]; intros c' Hc' -> _ Ho'; split; [done|]; set_solver.
  - unfold driver_idle. rewrite Hd. by eapply stranded_calls; [..|exact Hs].
  - unfold driver_outbound. rewrite Hd. by eapply stranded_calls; [..|exact Hs].
  - destruct (rs_down s); [done|]. unfold driver_inbound. rewrite Hd. by eapply stranded_calls; [..|exact Hs].
  - unfold driver_inbound. rewrite Hd. by eapply stranded_calls; [..|exact Hs].
  - unfold driver_inbound. rewrite Hd. by eapply stranded_calls; [..|exact Hs].
  - destruct (rs_server s) as [st|]; [|done]. destruct (rs_up s) as [|f rest]; [done|].
    change (stranded (let '(sv, sent) := serve_once handler peer st (Rd_Frame f) w in
      mkRpcSystem (rs_client s) rest sv (rs_down s ++ sent) (rs_log s ++ handled_by handler peer st f)) n).
    by destruct (serve_once _ _ _ _ _); eapply stranded_calls; [..|exact Hs].
  - destruct (rs_server s), got; try done; by eapply stranded_calls; [..|exact Hs].
Qed.

Lemma stranded_steps st0 evs s n :
  Z.of_nat (length (calls_of (fold_left step evs s))) <= 2 ^ 64 -> rpc_ok st0 s -> stranded s n ->
  stranded (fold_left step evs s) n.
Proof.
  revert s. induction evs as [|ev evs IH]; intros s Hlen Hok Hs; simpl in *; [done|].
  pose proof (rpc_steps_length evs (step s ev)).
  apply IH; [done| |]; [apply rpc_step_ok|eapply stranded_step]; eauto; lia.
Qed.

(** Calls in flight when the connection drops are never told.  Once the
    driver has returned, a call that had queued its request and has no answer
    yet stays unresolved in every continuation of the schedule, neither answered
    nor failed: the pending table that holds its sender belongs to the channel
    the caller itself keeps. *)
Theorem in_flight_calls_hang now st evs evs' n c r
    (Hreturned : cc_driver (rs_client (run now st evs)) = Dr_Returned r)
    (Hcall : calls_of (run now st evs) !! n = Some c)
    (Hwaiting : ca_phase c = CP_Waiting) (Hempty : ca_oneshot c = OS_Empty)
    (Hcalls : Z.of_nat (length (calls_of (run now st (evs ++ evs')))) <= 2 ^ 64) :
  call_result (run now st (evs ++ evs')) n = None.
Proof.
  revert Hcalls. unfold rpc_run. rewrite fold_left_app. fold (run now st evs). intros Hcalls.
  assert (Hok : rpc_ok st (run now st evs)).
  { apply rpc_steps_ok; [|apply rpc_start_ok]. pose proof (rpc_steps_length evs' (run now st evs)).
    unfold rpc_run in *. lia. }
  destruct (stranded_steps st evs' (run now st evs) n Hcalls Hok) as (_ & c' & Hc' & _ & Hp).
  - split; [by exists r|]. exists c. split_and!; [done..|]. rewrite Hwaiting. set_solver.
  - unfold call_result. rewrite Hc'. simpl. set_unfold. by destruct Hp as [->|[->|]].
Qed.
End System.

(** ** Witnesses *)

Module RpcDemo.
#[export] Instance envelope_cbor : Cbor Envelope := {|
  encode e := match e with Env_Request id b => 0 :: id :: b | Env_Response id b => 1 :: id :: b end;
  from_reader l := match l with
                   | 0 :: id :: b => Ok (Env_Request id b)
                   | 1 :: id :: b => Ok (Env_Response id b)
                   | _ => Err "shape"%string
                   end;
|}.
#[export] Instance envelope_cbor_laws : CborLaws Envelope.
Proof. by intros []. Qed.

(** A handler that counts its requests. *)
Definition counter (st : Z) (_ : PeerContext) (body : bytes) : bytes * Z := (st :: body, st + 1).
Definition peer : PeerContext := mkPeerContext "b" [] (mkPcrKey []).

Definition two_calls : list RpcEvent :=
  [Rpc_Call [7]; Rpc_Call [8]; Rpc_Poll 1; Rpc_Poll 0; Rpc_Outbound None; Rpc_Outbound None;
   Rpc_Serve None; Rpc_Serve None; Rpc_Inbound 1 None; Rpc_Inbound 2 None; Rpc_Poll 0; Rpc_Poll 1].
Definition dropped : list RpcEvent := [Rpc_Call [7]; Rpc_Poll 0; Rpc_Outbound None; Rpc_InboundEnds].
End RpcDemo.

#[local] Existing Instances RpcDemo.envelope_cbor RpcDemo.envelope_cbor_laws.

Lemma call_returns_its_own_answer_witness :
  exists c, cc_calls (rs_client (rpc_run (H := RpcDemo.envelope_cbor) RpcDemo.counter RpcDemo.peer 0 0 RpcDemo.two_calls))
              !! 0%nat = Some c /\
    (0, ca_body c, [1; 7]) ∈ rs_log (rpc_run (H := RpcDemo.envelope_cbor) RpcDemo.counter RpcDemo.peer 0 0 RpcDemo.two_calls).
Proof.
  destruct (call_returns_its_own_answer (H := RpcDemo.envelope_cbor) RpcDemo.counter RpcDemo.peer 0 0
              RpcDemo.two_calls) as (_ & _ & _ & Hr); [vm_compute; discriminate|].
  apply (Hr 0%nat [1; 7]). vm_compute. reflexivity.
Defined.

Lemma in_flight_calls_hang_witness :
  call_result (rpc_run (H := RpcDemo.envelope_cbor) RpcDemo.counter RpcDemo.peer 0 0
                 (RpcDemo.dropped ++ [Rpc_Serve None; Rpc_Inbound 5 None; Rpc_Poll 0; Rpc_Call [9]; Rpc_Poll 1])) 0
  = None.
Proof.
  apply (in_flight_calls_hang (H := RpcDemo.envelope_cbor) RpcDemo.counter RpcDemo.peer 0 0 RpcDemo.dropped _ 0
           (mkCall 0 [7] CP_Waiting OS_Empty) (Ok tt)); [reflexivity..|vm_compute; discriminate].
Defined.

(** The same schedule tells the later caller at once. *)
Example later_call_is_refused :
  call_result (rpc_run (H := RpcDemo.envelope_cbor) RpcDemo.counter RpcDemo.peer 0 0
                 (RpcDemo.dropped ++ [Rpc_Call [9]; Rpc_Poll 1])) 1 = Some (Err RpcConnectionClosed).
Proof. reflexivity. Qed.
