(* ===== verification/RaftNet.v ===== *)
(** Raft over the mesh ([synchronizer/src/raft/network.rs]): the network that
    carries a node's consensus RPCs to its peers, and the handler that serves
    what peers send: consensus RPCs, forwarded customer requests and joins.

    openraft is a parameter ([OpenRaft], with [OpenRaftLaws]); the handler's own
    decisions, who may forward and which key a join admits, are the code's.  A
    join waits twice for openraft, and the other channels are served meanwhile:
    [node_step] is the node with all its channels. *)
From stdpp Require Import gmap sets list sorting strings.
From S2P Require Import Prelude Text StateMachine Store Membership Identity Signing Attestation LocalAttestation.
From S2P Require Import Chain Wire Service Transport Framing Mesh.
#[local] Open Scope Z_scope.

(** ** A node's Raft *)

(** What the node shows of its Raft: the membership, the applied state machine,
    and openraft's own state. *)
Record RaftNode (RS : Type) := mkRaftNode {
  rn_inner : RS;
  rn_membership : ClusterMembership;
  rn_sm : StateMachine;
}.
Arguments mkRaftNode {_} _ _ _.
Arguments rn_inner {_} _.
Arguments rn_membership {_} _.
Arguments rn_sm {_} _.

Definition voter_ids {RS} (n : RaftNode RS) : gset Z := mb_voters (rn_membership n).
Definition rn_nodes {RS} (n : RaftNode RS) : gmap Z MemberRecord := mb_nodes (rn_membership n).
Definition rn_voters {RS} (n : RaftNode RS) : gmap Z MemberRecord := committed_voters (rn_membership n).

(** openraft: the RPC entry points, and what the entries of a membership call do
    when they take effect (a change goes through the joint configuration of old
    and new voters; [None]: refused). *)
Class OpenRaft := {
  RaftState : Type;
  AppendEntriesRequest : Type;
  AppendEntriesResponse : Type;
  VoteRequest : Type;
  VoteResponse : Type;
  InstallSnapshotRequest : Type;
  InstallSnapshotResponse : Type;
  raft_append_entries :
    RaftNode RaftState -> AppendEntriesRequest -> result AppendEntriesResponse string * RaftNode RaftState;
  raft_vote : RaftNode RaftState -> VoteRequest -> result VoteResponse string * RaftNode RaftState;
  raft_install_snapshot :
    RaftNode RaftState -> InstallSnapshotRequest -> result InstallSnapshotResponse string * RaftNode RaftState;
  raft_add_learner : RaftNode RaftState -> Z -> MemberRecord -> option (RaftNode RaftState);
  raft_joint : RaftNode RaftState -> gset Z -> option (RaftNode RaftState);
  raft_uniform : RaftNode RaftState -> gset Z -> option (RaftNode RaftState);
}.

(** What the code relies on: a learner is recorded and does not vote, and a
    record is not replaced; a change needs a record for every new voter, keeps
    the records of the nodes it keeps, and ends with exactly the voters asked
    for; none of them touches the application's state. *)
Class OpenRaftLaws `{OpenRaft} := {
  learner_effect n id r n' : raft_add_learner n id r = Some n' ->
    rn_sm n' = rn_sm n /\ voter_ids n' = voter_ids n /\
    rn_nodes n' = <[id := default r (rn_nodes n !! id)]> (rn_nodes n);
  joint_effect n ids n' : raft_joint n ids = Some n' ->
    rn_sm n' = rn_sm n /\ voter_ids n' = voter_ids n ∪ ids /\ rn_nodes n' = rn_nodes n /\
    ids ⊆ dom (rn_nodes n);
  uniform_effect n ids n' : raft_uniform n ids = Some n' ->
    rn_sm n' = rn_sm n /\ voter_ids n' = ids /\ rn_nodes n' ⊆ rn_nodes n;
}.

Section Messages.
Context `{OpenRaft}.

Inductive MeshRaftRpc : Type :=
| MRR_AppendEntries (req : AppendEntriesRequest)
| MRR_Vote (req : VoteRequest)
| MRR_InstallSnapshot (req : InstallSnapshotRequest).

Inductive MeshRaftReply : Type :=
| MRP_AppendEntries (r : AppendEntriesResponse)
| MRP_Vote (r : VoteResponse)
| MRP_InstallSnapshot (r : InstallSnapshotResponse)
| MRP_Error (msg : string).

Record ForwardedClientRequest := mkForwarded {
  fw_session_key : PcrKey;
  fw_control_pubkey : bytes;
  fw_request : Request;
}.

Record JoinRequest := mkJoinRequest { jr_slot_name : string }.

Inductive JoinReply : Type :=
| JR_Admitted
| JR_Refused (e : AdmissionError)
| JR_NotLeader (hint : option string)
| JR_Unavailable
| JR_NoCluster.

Inductive MeshMessage : Type :=
| MM_Raft (rpc : MeshRaftRpc)
| MM_ForwardClient (fwd : ForwardedClientRequest)
| MM_Join (req : JoinRequest).
End Messages.

(** ** Sending *)

(** What openraft is told of a failed RPC. *)
Inductive RPCError : Type := RPC_Unreachable | RPC_Network | RPC_Timeout | RPC_PayloadTooLarge | RPC_RemoteError.

(** How a call on a peer's channel ends. *)
Inductive MeshCallError : Type := MCE_Call (e : CallError) | MCE_Rpc.

Section Network.
Context `{OpenRaft} `{Cbor MeshMessage} `{Cbor MeshRaftReply}.

(** The channel to a peer answers a payload, or drops. *)
Context (channel : PeerIdentity -> bytes -> result bytes unit).

(** [Mesh::call]. *)
Definition call_peer (st : MeshState) (peer : string) (payload : bytes) : result bytes MeshCallError :=
  let? p := map_err MCE_Call (mesh_call st peer) in
  map_err (fun _ => MCE_Rpc) (channel p payload).

Record MeshRaftNetwork := mkMeshRaftNetwork { mrn_target : Z; mrn_target_name : string }.

Definition new_client (target : Z) (node : MemberRecord) : MeshRaftNetwork :=
  mkMeshRaftNetwork target (mr_name node).

Definition network_call (st : MeshState) (net : MeshRaftNetwork) (rpc : MeshRaftRpc)
    : result MeshRaftReply RPCError :=
  let? resp := map_err (fun e => match e with
                                 | MCE_Call (NotConnected _) | MCE_Rpc => RPC_Unreachable
                                 | MCE_Call (UnknownPeer _) => RPC_Network
                                 end)
                 (call_peer st (mrn_target_name net) (encode (MM_Raft rpc))) in
  let? reply := map_err (fun _ => RPC_Network) (from_reader resp) in
  match reply with
  | MRP_Error _ => Err RPC_Network
  | reply => Ok reply
  end.

Definition reply_mismatch (target : Z) (rpc : string) (got : MeshRaftReply) : RPCError := RPC_Network.

Definition remap_rpc_error (e : RPCError) : RPCError :=
  match e with
  | RPC_RemoteError => RPC_Network
  | e => e
  end.

Definition net_append_entries (st : MeshState) (net : MeshRaftNetwork) (req : AppendEntriesRequest)
    : result AppendEntriesResponse RPCError :=
  let? reply := network_call st net (MRR_AppendEntries req) in
  match reply with
  | MRP_AppendEntries r => Ok r
  | other => Err (reply_mismatch (mrn_target net) "append_entries" other)
  end.

Definition net_vote (st : MeshState) (net : MeshRaftNetwork) (req : VoteRequest)
    : result VoteResponse RPCError :=
  let? reply := network_call st net (MRR_Vote req) in
  match reply with
  | MRP_Vote r => Ok r
  | other => Err (reply_mismatch (mrn_target net) "vote" other)
  end.

Definition net_install_snapshot (st : MeshState) (net : MeshRaftNetwork) (req : InstallSnapshotRequest)
    : result InstallSnapshotResponse RPCError :=
  let? reply := map_err remap_rpc_error (network_call st net (MRR_InstallSnapshot req)) in
  match reply with
  | MRP_InstallSnapshot r => Ok r
  | other => Err (remap_rpc_error (reply_mismatch (mrn_target net) "install_snapshot" other))
  end.
End Network.

(** ** Serving *)

(** What a join finds of the leadership. *)
Record AdmitEnv := mkAdmitEnv {
  ad_is_leader : bool;
  ad_leader_name : option string;
}.

(** What one request meets on the serving node. *)
Record ServeEnv := mkServeEnv { se_leader : LeaderEnv; se_admit : AdmitEnv }.

Section Handler.
Context `{P256} `{NitroLib} `{OpenRaft}.
Context `{Cbor UpgradePayload} `{Cbor RevocationPayload}.
Context `{Cbor MeshMessage} `{Cbor MeshRaftReply} `{Cbor Answered} `{Cbor JoinReply}.
Context (sha256 : bytes -> bytes) (skip_chain_compiled : bool).

(** [RaftRequestHandler] with the node behind it: whether the Raft instance and
    the serve path ([debug_mode] with it) are installed. *)
Record RaftRequestHandler := mkHandler {
  rh_raft : bool;
  rh_serve : option bool;
  rh_names : list string;
  rh_node : RaftNode RaftState;
}.

Definition with_node (h : RaftRequestHandler) (n : RaftNode RaftState) : RaftRequestHandler :=
  mkHandler (rh_raft h) (rh_serve h) (rh_names h) n.

(** The cells are set once. *)
Definition set_raft (h : RaftRequestHandler) : bool * RaftRequestHandler :=
  (negb (rh_raft h), mkHandler true (rh_serve h) (rh_names h) (rh_node h)).
Definition set_serve (h : RaftRequestHandler) (debug_mode : bool) : bool * RaftRequestHandler :=
  match rh_serve h with
  | Some _ => (false, h)
  | None => (true, mkHandler (rh_raft h) (Some debug_mode) (rh_names h) (rh_node h))
  end.

Definition raft_answer {A} (ok : A -> MeshRaftReply) (h : RaftRequestHandler)
    (r : result A string * RaftNode RaftState) : MeshRaftReply * RaftRequestHandler :=
  (match r.1 with Ok a => ok a | Err e => MRP_Error e end, with_node h r.2).

Definition dispatch_raft (h : RaftRequestHandler) (rpc : MeshRaftRpc) : MeshRaftReply * RaftRequestHandler :=
  if negb (rh_raft h) then (MRP_Error "raft not yet installed (bootstrap window)", h)
  else
    match rpc with
    | MRR_AppendEntries req => raft_answer MRP_AppendEntries h (raft_append_entries (rh_node h) req)
    | MRR_Vote req => raft_answer MRP_Vote h (raft_vote (rh_node h) req)
    | MRR_InstallSnapshot req => raft_answer MRP_InstallSnapshot h (raft_install_snapshot (rh_node h) req)
    end.

(** [RaftHandle::is_committed_voter] and [cluster_is_initialized]. *)
Definition is_committed_voter (n : RaftNode RaftState) (id : Z) : bool := bool_decide (id ∈ voter_ids n).
Definition cluster_is_initialized (n : RaftNode RaftState) : bool := bool_decide (voter_ids n <> ∅).

Definition serve_forwarded (h : RaftRequestHandler) (peer : PeerContext) (fwd : ForwardedClientRequest)
    (env : LeaderEnv) : Answered * RaftRequestHandler :=
  match rh_serve h with
  | None => (answered (RespErr Rpc_Unavailable), h)
  | Some debug_mode =>
      let peer_id := instance_node_id sha256 (pc_mesh_pubkey peer) in
      if negb (is_committed_voter (rh_node h) peer_id) then (answered (RespErr Rpc_Unavailable), h)
      else
        let '(a, sm) := handle_on_leader sha256 skip_chain_compiled (rn_sm (rh_node h)) (fw_session_key fwd)
                          (fw_control_pubkey fwd) (fw_request fwd) debug_mode (le_now env) (le_read env)
                          (le_write env) in
        (a, with_node h (mkRaftNode (rn_inner (rh_node h)) (rn_membership (rh_node h)) sm))
  end.

Definition join_reply (r : result bool RaftHandleError) : JoinReply :=
  match r with
  | Ok _ => JR_Admitted
  | Err (RHE_JoinRefused e) => JR_Refused e
  | Err (RHE_NotLeader hint) => JR_NotLeader hint
  | Err _ => JR_Unavailable
  end.

(** Up to the first await of the admission. *)
Definition serve_join (h : RaftRequestHandler) (peer : PeerContext) (req : JoinRequest) (env : AdmitEnv)
    : JoinReply + Admission :=
  match rh_serve h with
  | None => inl JR_Unavailable
  | Some _ =>
      if negb (cluster_is_initialized (rh_node h)) then inl JR_NoCluster
      else
        match raft_admit sha256 (ad_is_leader env) (ad_leader_name env) (rh_names h) (rn_voters (rh_node h))
                (jr_slot_name req) (pc_mesh_pubkey peer) with
        | Admit_Done r => inl (join_reply r)
        | a => inr a
        end
  end.

(** A request is answered, or its admission waits. *)
Inductive Handling : Type :=
| H_Reply (reply : bytes) (h : RaftRequestHandler)
| H_Joining (a : Admission).

(** [RequestHandler::handle]. *)
Definition handle (h : RaftRequestHandler) (peer : PeerContext) (env : ServeEnv) (body : bytes) : Handling :=
  match from_reader body with
  | Err e => H_Reply (encode (MRP_Error e)) h
  | Ok (MM_Raft rpc) => let '(reply, h) := dispatch_raft h rpc in H_Reply (encode reply) h
  | Ok (MM_ForwardClient fwd) =>
      let '(reply, h) := serve_forwarded h peer fwd (se_leader env) in H_Reply (encode reply) h
  | Ok (MM_Join req) =>
      match serve_join h peer req (se_admit env) with
      | inl reply => H_Reply (encode reply) h
      | inr a => H_Joining a
      end
  end.

(** What the peer reads when its request is answered at once. *)
Definition answer_of (r : Handling) : result bytes unit :=
  match r with H_Reply b _ => Ok b | H_Joining _ => Err tt end.

(** ** The node and its channels *)

(** A membership entry handed to openraft and not yet in effect. *)
Inductive Proposal : Type :=
| P_Learner (id : Z) (r : MemberRecord)
| P_Joint (ids : gset Z)
| P_Uniform (ids : gset Z).

(** The handler all channels share, the admissions that wait (by channel: a
    channel serves one request at a time), the entries under way, and the
    replies sent. *)
Record Node := mkNode {
  nd_handler : RaftRequestHandler;
  nd_joining : gmap nat Admission;
  nd_proposed : list Proposal;
  nd_replies : list (nat * bytes);
}.

(** A request arrives on a channel; a membership call of the channel's admission
    answers; an entry takes effect.  An entry may take effect after its call
    timed out or failed. *)
Inductive NodeEvent : Type :=
| N_Request (ch : nat) (peer : PeerContext) (env : ServeEnv) (body : bytes)
| N_Learner (ch : nat) (leader_name : option string) (c : MembershipCall)
| N_Change (ch : nat) (leader_name : option string) (c : MembershipCall)
| N_Lands (k : nat).

Definition node_reply (n : Node) (h : RaftRequestHandler) (ch : nat) (b : bytes) : Node :=
  mkNode h (delete ch (nd_joining n)) (nd_proposed n) (nd_replies n ++ [(ch, b)]).

(** The admission goes on to its next await, having made the call it waits for,
    or its reply is sent. *)
Definition node_admit (n : Node) (ch : nat) (a : Admission) : Node :=
  match a with
  | Admit_Done r => node_reply n (nd_handler n) ch (encode (join_reply r))
  | Admit_Learner p =>
      mkNode (nd_handler n) (<[ch := a]> (nd_joining n))
        (nd_proposed n ++ [P_Learner (plan_added_id p) (plan_added p)]) (nd_replies n)
  | Admit_Change p =>
      mkNode (nd_handler n) (<[ch := a]> (nd_joining n))
        (nd_proposed n ++ [P_Joint (plan_new_voter_ids p)]) (nd_replies n)
  end.

Definition node_land (n : Node) (r : option (RaftNode RaftState)) (rest : list Proposal) : option Node :=
  r' ← r; Some (mkNode (with_node (nd_handler n) r') (nd_joining n) rest (nd_replies n)).

Definition node_step (n : Node) (e : NodeEvent) : option Node :=
  let h := nd_handler n in
  match e with
  | N_Request ch peer env body =>
      match nd_joining n !! ch with
      | Some _ => None
      | None =>
          Some (match handle h peer env body with
                | H_Reply b h => node_reply n h ch b
                | H_Joining a => node_admit n ch a
                end)
      end
  | N_Learner ch leader_name c =>
      match nd_joining n !! ch with
      | Some (Admit_Learner p) => Some (node_admit n ch (admit_learner leader_name p c))
      | _ => None
      end
  | N_Change ch leader_name c =>
      match nd_joining n !! ch with
      | Some (Admit_Change p) => Some (node_admit n ch (Admit_Done (admit_change leader_name c)))
      | _ => None
      end
  | N_Lands k =>
      let rest := delete k (nd_proposed n) in
      match nd_proposed n !! k with
      | Some (P_Learner id r) => node_land n (raft_add_learner (rh_node h) id r) rest
      | Some (P_Joint ids) => node_land n (raft_joint (rh_node h) ids) (rest ++ [P_Uniform ids])
      | Some (P_Uniform ids) => node_land n (raft_uniform (rh_node h) ids) rest
      | None => None
      end
  end.

Fixpoint node_run (n : Node) (es : list NodeEvent) : option Node :=
  match es with
  | [] => Some n
  | e :: es => n' ← node_step n e; node_run n' es
  end.
End Handler.
