(* ===== verification/RaftNetProofs.v ===== *)
(** Properties of the Raft network: what a peer that is not a voter can change
    on a node whose channels' requests interleave, which key a join admits, what
    interleaved joins keep and what they can undo, and to whom a consensus RPC is
    attributed. *)
From stdpp Require Import gmap sets list sorting strings.
From S2P Require Import Prelude Text StateMachine Store Membership Identity Signing Attestation LocalAttestation.
From S2P Require Import Chain Wire Service Transport Framing Mesh MeshProofs RaftNet.
#[local] Open Scope Z_scope.

Section Proofs.
Context `{P256} `{NitroLib} `{OpenRaft}.
Context `{Cbor UpgradePayload} `{Cbor RevocationPayload}.
Context `{Cbor MeshMessage} `{Cbor MeshRaftReply} `{Cbor Answered} `{Cbor JoinReply}.
Context (sha256 : bytes -> bytes) (skip_chain_compiled : bool).

Abbreviation id_of pk := (instance_node_id sha256 pk).
Abbreviation handle_at := (handle sha256 skip_chain_compiled).
Abbreviation pins_of n := (rn_sm (rh_node (nd_handler n))).
Abbreviation ids_of n := (voter_ids (rh_node (nd_handler n))).
Abbreviation nodes_of n := (rn_nodes (rh_node (nd_handler n))).
Abbreviation voters_of n := (rn_voters (rh_node (nd_handler n))).
Abbreviation run := (node_run sha256 skip_chain_compiled).
Abbreviation stepped := (node_step sha256 skip_chain_compiled).

(** The plan [p] is the one a join of the run was given: on the leader of an
    initialized cluster whose membership [V] is well formed, for a configured
    slot, with the key of the channel the request came on. *)
Definition join_planned (n0 : Node) (es : list NodeEvent) (p : AdmissionPlan) : Prop :=
  exists es1 ch peer env body es2 n1 name,
    es = es1 ++ N_Request ch peer env body :: es2 /\ run n0 es1 = Some n1 /\
    from_reader body = Ok (MM_Join (mkJoinRequest name)) /\
    ad_is_leader (se_admit env) = true /\ name ∈ rh_names (nd_handler n0) /\
    ids_of n1 <> ∅ /\ membership_wf sha256 (rh_names (nd_handler n0)) (voters_of n1) /\
    voters_of n1 !! id_of (pc_mesh_pubkey peer) = None /\
    plan_added_id p = id_of (pc_mesh_pubkey peer) /\
    plan_added p = mkMemberRecord name (pc_mesh_pubkey peer) /\
    plan_new_voter_ids p = dom (admitted sha256 (voters_of n1) name (pc_mesh_pubkey peer)).

Lemma join_planned_snoc n0 es e p : join_planned n0 es p -> join_planned n0 (es ++ [e]) p.
Proof.
  intros (es1 & ch & peer & env & body & es2 & n1 & name & -> & Hp).
  exists es1, ch, peer, env, body, (es2 ++ [e]), n1, name. by rewrite <- app_assoc.
Qed.

Lemma run_snoc n0 es e n' : run n0 (es ++ [e]) = Some n' -> exists n, run n0 es = Some n /\ stepped n e = Some n'.
Proof.
  revert n0. induction es as [|e' es IH]; intros n0; cbn [node_run app].
  - intros H'. exists n0. split; [done|]. cbn in H'. destruct (stepped n0 e); [done|discriminate].
  - destruct (stepped n0 e') as [n1|]; [|done]. cbn [mbind option_bind]. apply IH.
Qed.

(** ** Where plans and entries come from *)

Definition entry_of (p : AdmissionPlan) (q : Proposal) : Prop :=
  q = P_Learner (plan_added_id p) (plan_added p) \/ q = P_Joint (plan_new_voter_ids p) \/
  q = P_Uniform (plan_new_voter_ids p).

Record traced (n0 : Node) (es : list NodeEvent) (n : Node) : Prop := {
  tr_names : rh_names (nd_handler n) = rh_names (nd_handler n0);
  tr_joining : forall ch a, nd_joining n !! ch = Some a ->
    exists p, (a = Admit_Learner p \/ a = Admit_Change p) /\ join_planned n0 es p;
  tr_proposed : forall q, q ∈ nd_proposed n -> exists p, join_planned n0 es p /\ entry_of p q;
}.

Lemma traced_admit n0 es n ch a :
  traced n0 es n -> (forall p, a = Admit_Learner p \/ a = Admit_Change p -> join_planned n0 es p) ->
  traced n0 es (node_admit n ch a).
Proof.
  intros [Tn Tj Tp] Ha. destruct a as [r|p|p]; cbn [node_admit node_reply]; split; cbn; try done.
  - intros ch' a' [_ Hl]%lookup_delete_Some. eauto.
  - intros ch' a' [[<- <-]|[_ Hl]]%lookup_insert_Some; [exists p; auto|eauto].
  - intros q [Hq|Hq%list_elem_of_singleton]%elem_of_app; [eauto|]. exists p. split; [auto|by left].
  - intros ch' a' [[<- <-]|[_ Hl]]%lookup_insert_Some; [exists p; auto|eauto].
  - intros q [Hq|Hq%list_elem_of_singleton]%elem_of_app; [eauto|]. exists p. split; [auto|right; by left].
Qed.

Lemma traced_snoc n0 es e n : traced n0 es n -> traced n0 (es ++ [e]) n.
Proof.
  intros [Tn Tj Tp]. split; [done| |].
  - intros ch a (p & ? & ?)%Tj. eauto using join_planned_snoc.
  - intros q (p & ? & ?)%Tp. eauto using join_planned_snoc.
Qed.

(** What a request may leave waiting. *)
Lemma handle_joining h peer env body a :
  handle_at h peer env body = H_Joining a ->
  exists name p, a = Admit_Learner p /\ from_reader body = Ok (MM_Join (mkJoinRequest name)) /\
    ad_is_leader (se_admit env) = true /\ name ∈ rh_names h /\ voter_ids (rh_node h) <> ∅ /\
    membership_wf sha256 (rh_names h) (rn_voters (rh_node h)) /\
    rn_voters (rh_node h) !! id_of (pc_mesh_pubkey peer) = None /\
    plan_added_id p = id_of (pc_mesh_pubkey peer) /\ plan_added p = mkMemberRecord name (pc_mesh_pubkey peer) /\
    plan_new_voter_ids p = dom (admitted sha256 (rn_voters (rh_node h)) name (pc_mesh_pubkey peer)).
Proof.
  unfold handle. destruct (from_reader body) as [msg|e] eqn:Hb; [|done]. destruct msg as [rpc|fwd|[name]].
  - by destruct (dispatch_raft h rpc).
  - by destruct (serve_forwarded _ _ _ _ _ _).
  - unfold serve_join. destruct (rh_serve h) as [d|]; [|done]. unfold cluster_is_initialized.
    case_bool_decide as Hi; cbn [negb]; [|done]. cbn [jr_slot_name].
    unfold raft_admit. destruct (ad_is_leader (se_admit env)); cbn [negb]; [|done].
    destruct (plan_admission _ _ _ _ _) as [p|] eqn:Hp; [|done].
    destruct (plan_already_member p) eqn:Hm; [done|]. intros [= <-].
    destruct (plan_admission_checks _ _ _ _ _ _ Hp) as [Hn Hwf].
    destruct (plan_admits _ _ _ _ _ _ Hp Hm) as (? & ? & ? & ?). exists name, p. by split_and!.
Qed.

Lemma handle_names h peer env body b h' : handle_at h peer env body = H_Reply b h' -> rh_names h' = rh_names h.
Proof.
  unfold handle. destruct (from_reader body) as [msg|e]; [|by intros [= _ <-]]. destruct msg as [rpc|fwd|req].
  - unfold dispatch_raft. destruct (negb _); [by intros [= _ <-]|]. by destruct rpc; intros [= _ <-].
  - unfold serve_forwarded. destruct (rh_serve h); [|by intros [= _ <-]].
    destruct (negb _); [by intros [= _ <-]|]. destruct (handle_on_leader _ _ _ _ _ _ _ _ _ _). by intros [= _ <-].
  - destruct (serve_join _ _ _ _ _); [by intros [= _ <-]|done].
Qed.

Lemma traced_land n0 es n r rest n' :
  traced n0 es n -> (forall q, q ∈ rest -> exists p, join_planned n0 es p /\ entry_of p q) ->
  node_land n r rest = Some n' -> traced n0 es n'.
Proof.
  intros [Tn Tj Tp] Hq. unfold node_land. destruct r as [r|]; [|done]. cbn. intros [= <-]. by split.
Qed.

Lemma traced_step n0 es n e n' :
  run n0 es = Some n -> traced n0 es n -> stepped n e = Some n' -> traced n0 (es ++ [e]) n'.
Proof.
  intros Hr Ht. pose proof (traced_snoc _ _ e _ Ht) as Ht'. destruct e as [ch peer env body|ch hint c|ch hint c|k]; cbn [node_step].
  - destruct (nd_joining n !! ch); [done|]. intros [= <-]. destruct (handle_at _ _ _ _) as [b h|a] eqn:Hh.
    + destruct Ht' as [Tn Tj Tp]. split; cbn; [by rewrite (handle_names _ _ _ _ _ _ Hh)| |done].
      intros ch' a [_ Hl]%lookup_delete_Some. eauto.
    + apply traced_admit; [done|]. destruct (handle_joining _ _ _ _ _ Hh) as (name & p & -> & Hp).
      intros p' [[= <-]|?]; [|done]. rewrite (tr_names _ _ _ Ht) in Hp.
      exists es, ch, peer, env, body, [], n, name. split; [done|]. by split.
  - destruct (nd_joining n !! ch) as [[r|p|p]|] eqn:Hj; try done. intros [= <-]. apply traced_admit; [done|].
    destruct (tr_joining _ _ _ Ht' _ _ Hj) as (p0 & [[= <-]|?] & Hp); [|done].
    intros p'. by destruct c; cbn; intros [?|?]; simplify_eq.
  - destruct (nd_joining n !! ch) as [[r|p|p]|] eqn:Hj; try done. intros [= <-].
    apply (traced_admit _ _ _ _ (Admit_Done _)); [done|]. by intros p' [?|?].
  - destruct (nd_proposed n !! k) as [q|] eqn:Hk; [|done].
    assert (Hrest : forall q', q' ∈ delete k (nd_proposed n) -> exists p, join_planned n0 (es ++ [N_Lands k]) p /\ entry_of p q').
    { intros q' Hq'%list_elem_of_delete_inv. by apply (tr_proposed _ _ _ Ht'). }
    apply list_elem_of_lookup_2 in Hk. destruct (tr_proposed _ _ _ Ht' _ Hk) as (p & Hp & He).
    destruct q as [id r|ids|ids]; apply traced_land; try done.
    intros q' [Hq'|Hq'%list_elem_of_singleton]%elem_of_app; [auto|]. subst q'. exists p. split; [done|].
    destruct He as [?|[[= ->]|?]]; [done|right; by right|done].
Qed.

Definition idle (n : Node) : Prop := nd_joining n = ∅ /\ nd_proposed n = [].

Lemma traced_run n0 es n : idle n0 -> run n0 es = Some n -> traced n0 es n.
Proof.
  intros [Hj Hp]. revert n. induction es as [|e es IH] using rev_ind; intros n.
  - intros [= <-]. split; [done| |].
    + intros ch a. by rewrite Hj.
    + intros q. rewrite Hp. by intros ?%elem_of_nil.
  - intros (n1 & Hr & Hs)%run_snoc. by eapply traced_step; eauto.
Qed.

Lemma node_admit_handler n ch a : nd_handler (node_admit n ch a) = nd_handler n.
Proof. by destruct a. Qed.

Lemma node_admit_proposed n ch a : nd_proposed n ⊆ nd_proposed (node_admit n ch a).
Proof. destruct a; cbn; [done|apply list_subseteq_app_l; done..]. Qed.

Lemma kept_elsewhere {A} k (l : list A) x y : l !! k = Some x -> x <> y -> y ∈ l -> y ∈ delete k l.
Proof.
  intros Hk Hne Hy. rewrite (take_drop_middle _ _ _ Hk) in Hy || rewrite <- (take_drop_middle _ _ _ Hk) in Hy.
  rewrite delete_take_drop. apply elem_of_app in Hy as [?|[->|?]%elem_of_cons]; [|done|]; apply elem_of_app; auto.
Qed.

(** What a request answered at once changes, consensus RPCs apart. *)
Lemma handle_reply h peer env body b h' :
  (forall rpc, from_reader body <> Ok (MM_Raft rpc)) -> handle_at h peer env body = H_Reply b h' ->
  rn_membership (rh_node h') = rn_membership (rh_node h) /\
  (rn_sm (rh_node h') = rn_sm (rh_node h) \/
   exists fwd debug, from_reader body = Ok (MM_ForwardClient fwd) /\
     id_of (pc_mesh_pubkey peer) ∈ voter_ids (rh_node h) /\
     rn_sm (rh_node h') = (handle_on_leader sha256 skip_chain_compiled (rn_sm (rh_node h)) (fw_session_key fwd)
       (fw_control_pubkey fwd) (fw_request fwd) debug (le_now (se_leader env)) (le_read (se_leader env))
       (le_write (se_leader env))).2).
Proof.
  intros Hmsg. unfold handle. destruct (from_reader body) as [msg|e]; [|intros [= _ <-]; auto].
  destruct msg as [rpc|fwd|req]; [by destruct (Hmsg rpc)| |].
  - unfold serve_forwarded. destruct (rh_serve h) as [debug|]; [|intros [= _ <-]; auto].
    destruct (is_committed_voter _ _) eqn:Hv; cbn [negb]; [|intros [= _ <-]; auto]. apply bool_decide_eq_true in Hv.
    destruct (handle_on_leader _ _ _ _ _ _ _ _ _ _) as [a sm] eqn:Hl. intros [= _ <-]. split; [done|]. right.
    exists fwd, debug. by rewrite Hl.
  - destruct (serve_join _ _ _ _ _); [intros [= _ <-]; auto|done].
Qed.

Context `{!OpenRaftLaws}.


(** The membership changes only when an entry of a planned admission lands. *)
Lemma membership_step n0 es n e n' :
  idle n0 -> run n0 es = Some n -> stepped n e = Some n' ->
  (forall ch peer env body rpc, e = N_Request ch peer env body -> from_reader body <> Ok (MM_Raft rpc)) ->
  ids_of n' = ids_of n /\ nodes_of n' = nodes_of n /\ nd_proposed n ⊆ nd_proposed n' \/
  exists k p, e = N_Lands k /\ join_planned n0 es p /\
    ((ids_of n' = ids_of n /\ (forall ids, P_Uniform ids ∈ nd_proposed n -> P_Uniform ids ∈ nd_proposed n') /\
      nodes_of n' = <[plan_added_id p := default (plan_added p) (nodes_of n !! plan_added_id p)]> (nodes_of n)) \/
     (ids_of n' = ids_of n ∪ plan_new_voter_ids p /\ nodes_of n' = nodes_of n /\
      P_Uniform (plan_new_voter_ids p) ∈ nd_proposed n') \/
     (ids_of n' = plan_new_voter_ids p /\ nodes_of n' ⊆ nodes_of n)).
Proof.
  intros Hidle Hrun Hstep Hmsg. pose proof (traced_run _ _ _ Hidle Hrun) as Ht.
  destruct e as [ch peer env body|ch hint c|ch hint c|k]; cbn [node_step] in Hstep; [left..|right].
  - destruct (nd_joining n !! ch); [done|]. injection Hstep as <-.
    destruct (handle_at _ _ _ _) as [b h|a] eqn:Hh.
    + apply handle_reply in Hh as [Hm _]; [|intros rpc; by eapply Hmsg]. unfold voter_ids, rn_nodes. cbn. by rewrite Hm.
    + rewrite node_admit_handler. split_and!; [done..|apply node_admit_proposed].
  - destruct (nd_joining n !! ch) as [[r|p|p]|]; try done. injection Hstep as <-. rewrite node_admit_handler.
    split_and!; [done..|apply node_admit_proposed].
  - destruct (nd_joining n !! ch) as [[r|p|p]|]; try done. injection Hstep as <-. done.
  - destruct (nd_proposed n !! k) as [q|] eqn:Hk; [|done]. pose proof (list_elem_of_lookup_2 _ _ _ Hk) as Hin.
    destruct (tr_proposed _ _ _ Ht _ Hin) as (p & Hp & He). unfold node_land in Hstep. exists k, p.
    destruct q as [id r|ids|ids].
    + destruct He as [[= -> ->]|[?|?]]; [|done..]. destruct (raft_add_learner _ _ _) as [r'|] eqn:Hl; [|done].
      injection Hstep as <-. apply learner_effect in Hl as (? & ? & ?). cbn. split_and!; try done. left.
      split_and!; try done. intros ids Hids. eapply kept_elsewhere; eauto.
    + destruct He as [?|[[= ->]|?]]; [done| |done]. destruct (raft_joint _ _) as [r'|] eqn:Hl; [|done].
      injection Hstep as <-. apply joint_effect in Hl as (? & ? & ? & _). cbn. split_and!; try done. right; left.
      split_and!; try done. apply elem_of_app. right. by apply list_elem_of_singleton.
    + destruct He as [?|[?|[= ->]]]; [done|done|]. destruct (raft_uniform _ _) as [r'|] eqn:Hl; [|done].
      injection Hstep as <-. apply uniform_effect in Hl as (? & ? & ?). cbn. split_and!; try done. by right; right.
Qed.


(** ** The slots under interleaved joins *)

Section Slots.
(** Every instance asks for one slot: a node's name is configured, and its key
    is made when it boots. *)
Context (slot_of : Z -> string) (n0 : Node).

Definition quiet_request (e : NodeEvent) : Prop :=
  forall ch peer env body, e = N_Request ch peer env body ->
    (forall rpc, from_reader body <> Ok (MM_Raft rpc)) /\
    forall name, from_reader body = Ok (MM_Join (mkJoinRequest name)) -> name = slot_of (id_of (pc_mesh_pubkey peer)).

Definition recorded (nodes : gmap Z MemberRecord) : Prop :=
  forall id r, nodes !! id = Some r ->
    mr_name r = slot_of id /\ id = id_of (mr_pubkey r) /\ mr_name r ∈ rh_names (nd_handler n0).

Definition one_per_slot (ids : gset Z) : Prop :=
  forall i j, i ∈ ids -> j ∈ ids -> slot_of i = slot_of j -> i = j.

Lemma recorded_voters n : recorded (nodes_of n) -> recorded (voters_of n).
Proof. intros Hn id r [Hr _]%map_lookup_filter_Some. by apply Hn. Qed.

Lemma quiet_plan es p :
  Forall quiet_request es -> join_planned n0 es p ->
  mr_name (plan_added p) = slot_of (plan_added_id p) /\ plan_added_id p = id_of (mr_pubkey (plan_added p)) /\
  mr_name (plan_added p) ∈ rh_names (nd_handler n0).
Proof.
  intros Hq (es1 & ch & peer & env & body & es2 & n1 & name & -> & _ & Hb & _ & Hn & _ & _ & _ & -> & -> & _).
  apply Forall_app in Hq as [_ [Hq _]%Forall_cons]. destruct (Hq _ _ _ _ eq_refl) as [_ Hs].
  cbn. split_and!; [by apply Hs|done|done].
Qed.

Lemma recorded_run es n :
  idle n0 -> recorded (nodes_of n0) -> Forall quiet_request es -> run n0 es = Some n -> recorded (nodes_of n).
Proof.
  intros Hi H0'. revert n. induction es as [|e es IH] using rev_ind; intros n; [by intros _ [= <-]|].
  intros [Hes [He _]%Forall_cons]%Forall_app (n1 & Hr & Hs)%run_snoc. specialize (IH n1 Hes Hr).
  destruct (membership_step _ _ _ _ _ Hi Hr Hs) as [(_ & -> & _)|(k & p & _ & Hp & Heff)]; [|done|].
  { intros ch peer env body rpc ->. by apply (He _ _ _ _ eq_refl). }
  destruct Heff as [(_ & _ & ->)|[(_ & -> & _)|[_ Hsub]]]; [|done|].
  - intros id r [[<- <-]|[_ Hl]]%lookup_insert_Some; [|by apply IH].
    destruct (nodes_of n1 !! plan_added_id p) as [r'|] eqn:Hr'; cbn; [by apply IH|]. by apply (quiet_plan es).
  - intros id r Hl. apply IH. by eapply lookup_weaken.
Qed.

Lemma planned_slots es p :
  idle n0 -> recorded (nodes_of n0) -> Forall quiet_request es -> join_planned n0 es p ->
  one_per_slot (plan_new_voter_ids p).
Proof.
  intros Hi H0' Hq Hp. destruct (quiet_plan _ _ Hq Hp) as (Hname & _).
  destruct Hp as (es1 & ch & peer & env & body & es2 & n1 & name & -> & Hr & _ & _ & _ & _ & Hwf & _ & Hid & Hadd & ->).
  apply Forall_app in Hq as [Hq _]. pose proof (recorded_voters _ (recorded_run _ _ Hi H0' Hq Hr)) as Hrec.
  rewrite Hadd, Hid in Hname. cbn in Hname.
  intros i j [mi Hmi]%elem_of_dom [mj Hmj]%elem_of_dom Hs.
  apply admitted_lookup in Hmi as [[-> ->]|(_ & Hmi & Hni)], Hmj as [[-> ->]|(_ & Hmj & Hnj)]; try done.
  - destruct (Hrec _ _ Hmj) as [Hj _]. congruence.
  - destruct (Hrec _ _ Hmi) as [Hj _]. congruence.
  - apply (mwf_slot _ _ _ Hwf _ _ mi mj Hmi Hmj). destruct (Hrec _ _ Hmi) as [-> _], (Hrec _ _ Hmj) as [-> _]. done.
Qed.

(** Interleaved joins keep the slots: from a membership in which every record
    has a configured slot and the id of its key, and no two voters one slot,
    every run of joins and forwarded requests, whatever the membership calls
    answer and whenever their entries take effect, leaves such a membership
    whenever no change is half way, and never more voters than slots. *)
Theorem joins_keep_slots es n :
  idle n0 -> recorded (nodes_of n0) -> one_per_slot (ids_of n0) -> Forall quiet_request es ->
  run n0 es = Some n -> (forall ids, P_Uniform ids ∉ nd_proposed n) ->
  membership_wf sha256 (rh_names (nd_handler n0)) (voters_of n) /\
  (size (voters_of n) <= length (rh_names (nd_handler n0)))%nat.
Proof.
  intros Hi H0' Hs0 Hq Hr Hu. assert (Hs : one_per_slot (ids_of n)).
  { revert n Hr Hu. induction es as [|e es IH] using rev_ind; intros n; [by intros [= <-]|].
    apply Forall_app in Hq as [Hes [He _]%Forall_cons]. intros (n1 & Hr & Hst)%run_snoc Hu.
    destruct (membership_step _ _ _ _ _ Hi Hr Hst) as [(-> & _ & Hsub)|(k & p & _ & Hp & Heff)].
    { intros ch peer env body rpc ->. by apply (He _ _ _ _ eq_refl). }
    - apply IH; [done..|]. intros ids Hin. by apply (Hu ids), Hsub.
    - destruct Heff as [(-> & Hk & _)|[(_ & _ & Hin)|[-> _]]].
      + apply IH; [done..|]. intros ids Hin. by apply (Hu ids), Hk.
      + by destruct (Hu _ Hin).
      + by apply (planned_slots es). }
  pose proof (recorded_voters _ (recorded_run _ _ Hi H0' Hq Hr)) as Hrec.
  assert (Hwf : membership_wf sha256 (rh_names (nd_handler n0)) (voters_of n)).
  { split; [intros id m (_ & _ & ?)%Hrec; done|intros id m (_ & ? & _)%Hrec; done|].
    intros i j mi mj Hmi Hmj Hn. destruct (Hrec _ _ Hmi) as [Ei _], (Hrec _ _ Hmj) as [Ej _].
    apply map_lookup_filter_Some in Hmi as [_ Hvi], Hmj as [_ Hvj]. apply Hs; [done|done|congruence]. }
  split; [done|]. by apply (membership_bound sha256).
Qed.
End Slots.

(** A refused forward or join leaves a trace of nothing: a request forwarded
    by a peer that is not a voter is answered [Unavailable] and changes nothing,
    and a node that has no cluster answers a join [NoCluster]; [NoCluster] is
    answered by such nodes only. *)
Theorem outsiders_are_refused h peer debug env fwd req
    (Hserve : rh_serve h = Some debug) :
  (id_of (pc_mesh_pubkey peer) ∉ voter_ids (rh_node h) ->
   serve_forwarded sha256 skip_chain_compiled h peer fwd (se_leader env)
   = (answered (RespErr Rpc_Unavailable), h)) /\
  (serve_join sha256 h peer req (se_admit env) = inl JR_NoCluster <-> voter_ids (rh_node h) = ∅).
Proof.
  unfold serve_forwarded, serve_join, is_committed_voter, cluster_is_initialized. rewrite Hserve. split.
  - intros Hv. by rewrite bool_decide_eq_false_2.
  - destruct (decide (voter_ids (rh_node h) = ∅)) as [->|Hne]; [by rewrite bool_decide_eq_false_2 by tauto|].
    rewrite bool_decide_eq_true_2 by done. cbn [negb].
    destruct (raft_admit _ _ _ _ _ _ _) as [[|[]]|p|p]; done.
Qed.

(** ** Who a consensus RPC is attributed to *)

Lemma handle_raft h peer env rpc :
  from_reader (encode (MM_Raft rpc)) = Ok (MM_Raft rpc) ->
  handle_at h peer env (encode (MM_Raft rpc))
  = H_Reply (encode (dispatch_raft h rpc).1) (dispatch_raft h rpc).2.
Proof. unfold handle. intros ->. by destruct (dispatch_raft h rpc). Qed.

(** Consensus RPCs are not tied to the instance keys that membership rests
    on.  A node that dials a voter by its routing name and reaches another
    instance of the image that announces that name, with a key that derives
    another id, takes that instance's answer to a vote request addressed to the
    voter as the voter's; and a node serves a consensus RPC the same way whoever
    sent it, voter or not. *)
Theorem clone_speaks_for_a_voter (debug_mode : bool) config identity st (voters : gmap Z MemberRecord) id record env p
    clone ctx senv req resp n'
    (Hcodec : forall rpc, from_reader (encode (MM_Raft rpc)) = Ok (MM_Raft rpc))
    (Hcodec' : from_reader (encode (MRP_Vote resp)) = Ok (MRP_Vote resp))
    (Hvoter : voters !! id = Some record) (Hpeer : mr_name record ∈ mc_peers config)
    (Hother : id_of (pi_mesh_pubkey p) <> id)
    (Hdial : exists l, dial_handshake sha256 skip_chain_compiled debug_mode config identity (mr_name record) env
                         (he_link env) = (Ok p, l))
    (Hinstalled : rh_raft clone = true) (Hvote : raft_vote (rh_node clone) req = (Ok resp, n')) :
  let st' := mesh_step sha256 skip_chain_compiled debug_mode config identity st
               (EvDial (mr_name record) (DF_Answered (Ok [OPEN_ACK_OK])) env) in
  net_vote (fun _ payload => answer_of (handle_at clone ctx senv payload)) st' (new_client id record) req = Ok resp /\
  forall h rpc peer1 peer2 senv1,
    handle_at h peer1 senv1 (encode (MM_Raft rpc)) = handle_at h peer2 senv1 (encode (MM_Raft rpc)).
Proof.
  intros st'. split.
  - assert (Hcall : mesh_call st' (mr_name record) = Ok p).
    { subst st'. destruct Hdial as [l Hd]. unfold mesh_step. rewrite bool_decide_eq_true_2 by done.
      erewrite dial_answered by exact Hd. unfold mesh_call. simpl. by rewrite lookup_insert_eq. }
    unfold net_vote, network_call, call_peer. cbn [new_client mrn_target_name]. rewrite Hcall. cbn [map_err].
    rewrite handle_raft by done. cbn [answer_of map_err]. unfold dispatch_raft. rewrite Hinstalled. cbn [negb]. rewrite Hvote.
    cbn [raft_answer fst]. by rewrite Hcodec'.
  - intros. by rewrite !handle_raft by done.
Qed.
End Proofs.

(** ** Witnesses *)

Module RaftDemo.
(** A Raft that grants every vote and knows one number. *)
#[export] Instance toy_raft : OpenRaft := {|
  RaftState := Z;
  AppendEntriesRequest := Z; AppendEntriesResponse := Z;
  VoteRequest := Z; VoteResponse := bool;
  InstallSnapshotRequest := Z; InstallSnapshotResponse := Z;
  raft_append_entries n z := (Ok z, n);
  raft_vote n z := (Ok true, n);
  raft_install_snapshot n z := (Ok z, n);
  raft_add_learner n id r :=
    Some (mkRaftNode (rn_inner n)
      (mkMembership (voter_ids n) (<[id := default r (rn_nodes n !! id)]> (rn_nodes n))) (rn_sm n));
  raft_joint n ids :=
    if bool_decide (ids ⊆ dom (rn_nodes n))
    then Some (mkRaftNode (rn_inner n) (mkMembership (voter_ids n ∪ ids) (rn_nodes n)) (rn_sm n)) else None;
  raft_uniform n ids :=
    Some (mkRaftNode (rn_inner n)
      (mkMembership ids (filter (fun im => im.1 ∈ ids \/ im.1 ∉ voter_ids n) (rn_nodes n))) (rn_sm n));
|}.
#[export] Instance toy_raft_laws : OpenRaftLaws (H := toy_raft).
Proof.
  split.
  - intros n id r n'. cbn. intros [= <-]. done.
  - intros n ids n'. cbn. case_bool_decide; [|done]. intros [= <-]. done.
  - intros n ids n'. cbn. intros [= <-]. split_and!; [done|done|]. apply map_filter_subseteq.
Qed.

Definition forwarded : ForwardedClientRequest := mkForwarded (demo_key_of 1) [5] (Rq_Get (demo_key_of 1)).

#[export] Instance message_cbor : Cbor (MeshMessage (H := toy_raft)) := {|
  encode m := match m with
              | MM_Raft (MRR_Vote z) => [0; z]
              | MM_Raft (MRR_AppendEntries z) => [1; z]
              | MM_Raft (MRR_InstallSnapshot z) => [2; z]
              | MM_Join _ => [3]
              | MM_ForwardClient _ => [4]
              end;
  from_reader l := match l with
                   | [0; z] => Ok (MM_Raft (H := toy_raft) (MRR_Vote (H := toy_raft) z))
                   | [1; z] => Ok (MM_Raft (H := toy_raft) (MRR_AppendEntries (H := toy_raft) z))
                   | [2; z] => Ok (MM_Raft (H := toy_raft) (MRR_InstallSnapshot (H := toy_raft) z))
                   | [3] => Ok (MM_Join (mkJoinRequest "b"))
                   | [5] => Ok (MM_Join (mkJoinRequest "c"))
                   | [4] => Ok (MM_ForwardClient forwarded)
                   | _ => Err "shape"%string
                   end;
|}.
#[export] Instance reply_cbor : Cbor (MeshRaftReply (H := toy_raft)) := {|
  encode r := match r with
              | MRP_Vote true => [1] | MRP_Vote false => [0]
              | MRP_AppendEntries z => [2; z] | MRP_InstallSnapshot z => [3; z] | MRP_Error _ => []
              end;
  from_reader l := match l with
                   | [1] => Ok (MRP_Vote (H := toy_raft) true)
                   | [0] => Ok (MRP_Vote (H := toy_raft) false)
                   | _ => Err "shape"%string
                   end;
|}.
#[export] Instance answered_cbor : Cbor Answered := {| encode _ := []; from_reader _ := Err "none"%string |}.
#[export] Instance join_reply_cbor : Cbor JoinReply := {| encode r := match r with JR_Admitted => [1] | _ => [] end; from_reader _ := Err "none"%string |}.
#[export] Instance no_upgrade_cbor : Cbor UpgradePayload :=
  {| encode _ := []; from_reader _ := Err "none"%string |}.
#[export] Instance no_revocation_cbor : Cbor RevocationPayload :=
  {| encode _ := []; from_reader _ := Err "none"%string |}.

Definition voter_a : MemberRecord := mkMemberRecord "a" (MeshDemo.point 5).
Definition id_a : Z := instance_node_id toy_sha256 (MeshDemo.point 5).
Definition leader : RaftRequestHandler (H1 := toy_raft) :=
  mkHandler (H1 := toy_raft) true (Some false) ["a"; "b"; "c"]
    (mkRaftNode 0 (mkMembership {[ id_a ]} {[ id_a := voter_a ]}) demo_registered).
Definition blank : RaftRequestHandler (H1 := toy_raft) :=
  mkHandler (H1 := toy_raft) true (Some false) ["a"; "b"; "c"] (mkRaftNode 0 (mkMembership ∅ ∅) sm_new).
Definition joiner : PeerContext := mkPeerContext "b" (MeshDemo.point 6) MeshDemo.digest.
Definition env : ServeEnv :=
  mkServeEnv (mkLeaderEnv false (Ok 0) ReadOk (Committed [])) (mkAdmitEnv true None).

(** The leader with two joiners on two channels. *)
Definition node : Node (H1 := toy_raft) := mkNode (H1 := toy_raft) leader ∅ [] [].
Definition other_joiner : PeerContext := mkPeerContext "c" (MeshDemo.point 7) MeshDemo.digest.
Definition two_joins : list NodeEvent :=
  [N_Request 0 joiner env [3]; N_Request 1 other_joiner env [5];
   N_Lands 0; N_Learner 0 None MC_ok; N_Lands 0; N_Learner 1 None MC_ok;
   N_Lands 1; N_Change 0 None MC_ok; N_Lands 0; N_Lands 0; N_Change 1 None MC_ok].
End RaftDemo.

#[local] Existing Instances MeshDemo.point_P256 toy_NitroLib RaftDemo.toy_raft RaftDemo.toy_raft_laws RaftDemo.message_cbor
  RaftDemo.reply_cbor RaftDemo.answered_cbor RaftDemo.join_reply_cbor RaftDemo.no_upgrade_cbor
  RaftDemo.no_revocation_cbor.

(** The node after a run of the demo. *)
Definition reached (es : list NodeEvent) : Node :=
  default RaftDemo.node (node_run (H := MeshDemo.point_P256) toy_sha256 false RaftDemo.node es).

Lemma reached_runs es :
  match node_run (H := MeshDemo.point_P256) toy_sha256 false RaftDemo.node es with Some _ => true | None => false end
    = true ->
  node_run (H := MeshDemo.point_P256) toy_sha256 false RaftDemo.node es = Some (reached es).
Proof. unfold reached. by destruct (node_run _ _ _ es). Qed.





(** Joins that interleave can undo each other: a leader alone in its cluster,
    two joiners of two free slots.  Each plan starts from the same voters, so the
    second change, which is answered [Admitted] like the first, removes the voter
    the first admitted. *)
Theorem concurrent_join_evicts_a_voter :
  node_run (H := MeshDemo.point_P256) toy_sha256 false RaftDemo.node RaftDemo.two_joins
    = Some (reached RaftDemo.two_joins) /\
  nd_replies (reached RaftDemo.two_joins) = [(0%nat, encode JR_Admitted); (1%nat, encode JR_Admitted)] /\
  (instance_node_id toy_sha256 (pc_mesh_pubkey RaftDemo.joiner)
    ∉ voter_ids (rh_node (nd_handler (reached RaftDemo.two_joins)))) /\
  instance_node_id toy_sha256 (pc_mesh_pubkey RaftDemo.other_joiner)
    ∈ voter_ids (rh_node (nd_handler (reached RaftDemo.two_joins))).
Proof.
  split; [apply reached_runs; vm_compute; reflexivity|]. split; [vm_compute; reflexivity|].
  split; [apply (bool_decide_eq_false_1 _)|apply (bool_decide_eq_true_1 _)]; vm_compute; reflexivity.
Qed.

Lemma outsiders_are_refused_witness :
  serve_forwarded (H := MeshDemo.point_P256) toy_sha256 false RaftDemo.leader RaftDemo.joiner RaftDemo.forwarded
    (se_leader RaftDemo.env) = (answered (RespErr Rpc_Unavailable), RaftDemo.leader) /\
  serve_join toy_sha256 RaftDemo.blank RaftDemo.joiner (mkJoinRequest "b") (se_admit RaftDemo.env)
  = inl JR_NoCluster.
Proof.
  destruct (outsiders_are_refused (H := MeshDemo.point_P256) toy_sha256 false RaftDemo.leader RaftDemo.joiner
              false RaftDemo.env RaftDemo.forwarded (mkJoinRequest "b")) as (Hf & _); [reflexivity|].
  destruct (outsiders_are_refused (H := MeshDemo.point_P256) toy_sha256 false RaftDemo.blank RaftDemo.joiner
              false RaftDemo.env RaftDemo.forwarded (mkJoinRequest "b")) as (_ & Hj); [reflexivity|].
  split; [apply Hf|by apply Hj]. vm_compute. discriminate.
Defined.

Lemma clone_speaks_for_a_voter_witness :
  let st' := mesh_step toy_sha256 false false MeshDemo.config_a (MeshDemo.node 5)
               (mesh_start MeshDemo.config_a)
               (EvDial "b" (DF_Answered (Ok [OPEN_ACK_OK])) MeshDemo.echo_env) in
  net_vote (fun _ payload => answer_of (handle toy_sha256 false RaftDemo.blank RaftDemo.joiner RaftDemo.env payload))
    st' (new_client 0 (mkMemberRecord "b" (MeshDemo.point 7))) 3 = Ok true.
Proof.
  apply (clone_speaks_for_a_voter (H := MeshDemo.point_P256) toy_sha256 false false MeshDemo.config_a
           (MeshDemo.node 5) (mesh_start MeshDemo.config_a) {[ 0 := mkMemberRecord "b" (MeshDemo.point 7) ]} 0
           (mkMemberRecord "b" (MeshDemo.point 7)) MeshDemo.echo_env (MeshDemo.peer_id 5) RaftDemo.blank
           RaftDemo.joiner RaftDemo.env 3 true (rh_node RaftDemo.blank)).
  - by intros [].
  - reflexivity.
  - reflexivity.
  - apply elem_of_ordered_peers. set_solver.
  - vm_compute. discriminate.
  - eexists. vm_compute. reflexivity.
  - reflexivity.
  - reflexivity.
Defined.
