(* ===== verification/Join.v ===== *)
(** How a synchronizer node starts and finds its cluster: the mesh environment
    ([read_mesh_env] in [synchronizer/src/main.rs]), discovery and the fresh
    initialize ([synchronizer/src/raft/join.rs]), and the watch for eviction.

    One pass of the discovery loop is a function of what the pass meets: the
    replies of the peers, the attested keys the mesh has observed, and the
    membership the node sees at each of its checks. *)
From stdpp Require Import gmap sets list sorting strings.
From S2P Require Import Prelude Text StateMachine Store Membership Identity Signing Attestation LocalAttestation.
From S2P Require Import Chain Wire Service Transport Framing Mesh MeshProofs RaftNet.
#[local] Open Scope Z_scope.

Definition MIN_CLUSTER_NODES : nat := 3.
Definition MIN_MESH_PEERS : nat := MIN_CLUSTER_NODES - 1.
Definition MIN_INITIAL_CLUSTER_MEMBERS : nat := MIN_CLUSTER_NODES.

(** ** The mesh environment *)

Section Env.
Context `{P256} `{NitroLib} (sha256 : bytes -> bytes).

(** The name a Rust string's text is. *)
Context (name_of : str -> string).

Record MeshEnv := mkMeshEnv { me_self_name : string; me_config : MeshConfig }.

(** The names listed in [MESH_PEERS]. *)
Definition listed_peers (peers_raw : str) : list string :=
  name_of <$> filter (fun s : str => s <> []) (trim <$> split_on 44 peers_raw).

(** [bound]: the bootstrap listener could be bound. *)
Definition read_mesh_env (self_name peers_raw : option str) (nsm : NsmDevice) (bound : bool)
    : option MeshEnv :=
  self_name ← self_name;
  peers_raw ← peers_raw;
  let self_name := name_of self_name in
  let peers := listed_peers peers_raw in
  if Nat.ltb (length peers) MIN_MESH_PEERS then None
  else
    self_doc ← result_ok (request_local nsm None None);
    let self_digest := mkPcrKey (pin_key sha256 (va_identity self_doc)) in
    let config := mesh_config_new self_name peers self_digest in
    if Nat.ltb (length (mc_peers config)) MIN_MESH_PEERS then None
    else if negb bound then None
    else Some (mkMeshEnv self_name config).
End Env.

(** ** Discovery *)

(** [RaftHandle::with_config]: the slots of the cluster, in order. *)
Definition configured_names (self_name : string) (peers : list string) : list string :=
  merge_sort String.le (elements (list_to_set (self_name :: peers) : gset string)).

(** Whether openraft takes an [initialize]. *)
Inductive InitializeFate : Type := Init_Ok | Init_NotAllowed | Init_Failed.

(** What one pass meets. *)
Record PassEnv := mkPassEnv {
  pe_voters_at_top : gmap Z MemberRecord;
  pe_replies : string -> option JoinReply;
  pe_voters_after_probe : gmap Z MemberRecord;
  pe_voters_at_initialize : gmap Z MemberRecord;
  pe_observed : string -> option bytes;
  pe_initialize : InitializeFate;
}.

Inductive PassOutcome : Type := Pass_Voter | Pass_Retry | Pass_Recheck.

Section Discover.
Context (sha256 : bytes -> bytes).
Context (self : MemberRecord) (names : list string).

Definition self_id : Z := instance_node_id sha256 (mr_pubkey self).

(** Whether this node holds the first of the configured names. *)
Definition is_smallest_name : bool := bool_decide (head names = Some (mr_name self)).

Definition peer_names : list string := filter (fun n => n <> mr_name self) names.

(** [observed_cluster], and how many peers reported no cluster. *)
Definition probe_step (replies : string -> option JoinReply) (acc : bool * nat) (peer : string) : bool * nat :=
  match replies peer with
  | Some (JR_Admitted | JR_NotLeader _ | JR_Unavailable | JR_Refused _) => (true, acc.2)
  | Some JR_NoCluster => (acc.1, S acc.2)
  | None => acc
  end.
Definition probe (replies : string -> option JoinReply) (peers : list string) : bool * nat :=
  fold_left (probe_step replies) peers (false, 0%nat).

(** The records of a complete membership, unless a key is not recorded. *)
Definition peer_record (observed : string -> option bytes) (peer : string) : option MemberRecord :=
  mkMemberRecord peer <$> observed peer.
Definition complete_records (observed : string -> option bytes) : option (list MemberRecord) :=
  cons self <$> mapM (peer_record observed) peer_names.

(** Keyed by derived id; a later record replaces an earlier one. *)
Definition members_of (records : list MemberRecord) : gmap Z MemberRecord :=
  fold_left (fun m r => <[instance_node_id sha256 (mr_pubkey r) := r]> m) records ∅.

Definition initialize_cluster (fate : InitializeFate) : bool :=
  match fate with Init_Ok | Init_NotAllowed => true | Init_Failed => false end.

(** The answer, and the membership openraft was asked to initialize. *)
Definition do_initialize (records : list MemberRecord) (fate : InitializeFate)
    : bool * option (gmap Z MemberRecord) :=
  let members := members_of records in
  if Nat.ltb (size members) MIN_INITIAL_CLUSTER_MEMBERS then (false, None)
  else (initialize_cluster fate, Some members).

Definition try_initialize_fresh (env : PassEnv) : bool * option (gmap Z MemberRecord) :=
  if bool_decide (pe_voters_at_initialize env <> ∅) then (true, None)
  else
    match complete_records (pe_observed env) with
    | None => (false, None)
    | Some records => do_initialize records (pe_initialize env)
    end.

(** One turn of the loop of [discover_and_join]. *)
Definition discover_pass (env : PassEnv) : PassOutcome * option (gmap Z MemberRecord) :=
  if bool_decide (self_id ∈ dom (pe_voters_at_top env)) then (Pass_Voter, None)
  else
    let '(observed_cluster, no_cluster) := probe (pe_replies env) peer_names in
    let observed_cluster := observed_cluster || bool_decide (pe_voters_after_probe env <> ∅) in
    if observed_cluster then (Pass_Retry, None)
    else if is_smallest_name && Nat.eqb no_cluster (length peer_names) then
      let '(initialized, asked) := try_initialize_fresh env in
      (if initialized then Pass_Recheck else Pass_Retry, asked)
    else (Pass_Retry, None).

(** [discover_and_join] over the passes it makes: whether it returned, and the
    memberships it asked to initialize. *)
Fixpoint discover_and_join (envs : list PassEnv) : bool * list (gmap Z MemberRecord) :=
  match envs with
  | [] => (false, [])
  | env :: envs =>
      match discover_pass env with
      | (Pass_Voter, _) => (true, [])
      | (_, asked) =>
          let '(done, rest) := discover_and_join envs in (done, option_list asked ++ rest)
      end
  end.

(** ** Eviction *)

(** The voters and all nodes of a membership. *)
Record MembershipView := mkMembershipView {
  mv_voters : gmap Z MemberRecord;
  mv_nodes : gmap Z MemberRecord;
}.

(** [watch_for_eviction] over the memberships it is shown: whether the Raft was
    shut down. *)
Fixpoint watch_for_eviction (seen : list MembershipView) : bool :=
  match seen with
  | [] => false
  | m :: seen =>
      let initialized := bool_decide (mv_voters m <> ∅) in
      let still_voter := bool_decide (self_id ∈ dom (mv_voters m)) || bool_decide (self_id ∈ dom (mv_nodes m)) in
      if initialized && negb still_voter then true else watch_for_eviction seen
  end.
End Discover.

(** ** Properties *)

Lemma probe_count replies peers b k :
  fold_left (probe_step replies) peers (b, k) = (false, (k + length peers)%nat) <->
  b = false /\ forall p, p ∈ peers -> replies p = Some JR_NoCluster.
Proof.
  assert (Hle : forall peers b k, ((fold_left (probe_step replies) peers (b, k)).2 <= k + length peers)%nat).
  { clear. induction peers as [|p peers IH]; intros b k; simpl; [lia|]. unfold probe_step at 2.
    destruct (replies p) as [[]|]; simpl; (etransitivity; [apply IH|lia]). }
  revert b k. induction peers as [|p peers IH]; intros b k; simpl.
  { rewrite Nat.add_0_r. split; [intros [= ->]; split; [done|]; by intros ? ?%elem_of_nil|by intros [-> _]]. }
  unfold probe_step at 2. destruct (replies p) as [r|] eqn:Hr.
  2: { split; [|intros [_ Hall]; specialize (Hall p (list_elem_of_here _ _)); congruence].
       intros He. specialize (Hle peers b k). rewrite He in Hle. simpl in Hle. lia. }
  assert (r = JR_NoCluster \/ r <> JR_NoCluster) as [->|Hne] by (destruct r; by auto).
  - simpl. replace (k + S (length peers))%nat with (S k + length peers)%nat by lia. rewrite IH.
    split; intros [-> Hall]; (split; [done|]); intros q; rewrite ?elem_of_cons; [|by eauto using list_elem_of_further].
    intros [->|Hq]; eauto.
  - split; [|intros [_ Hall]; specialize (Hall p (list_elem_of_here _ _)); congruence].
    intros He. exfalso. destruct r; try done; simpl in He; specialize (Hle peers true k); rewrite He in Hle; simpl in Hle; lia.
Qed.

(** The configured names are a matter of the set, in order, each once. *)
Lemma elem_of_configured_names self peers n : n ∈ configured_names self peers <-> n = self \/ n ∈ peers.
Proof. unfold configured_names. rewrite merge_sort_Permutation. set_solver. Qed.

Lemma NoDup_configured_names self peers : NoDup (configured_names self peers).
Proof. unfold configured_names. rewrite merge_sort_Permutation. apply NoDup_elements. Qed.

Lemma configured_names_ext self1 peers1 self2 peers2 :
  (forall n, n = self1 \/ n ∈ peers1 <-> n = self2 \/ n ∈ peers2) ->
  configured_names self1 peers1 = configured_names self2 peers2.
Proof.
  intros Hset. unfold configured_names. do 2 f_equal. apply set_eq. intros n.
  rewrite !elem_of_list_to_set, !elem_of_cons. apply Hset.
Qed.

Lemma length_configured_names self peers :
  NoDup peers -> self ∉ peers -> length (configured_names self peers) = S (length peers).
Proof.
  intros Hnd Hs. unfold configured_names. rewrite merge_sort_Permutation.
  change (size (list_to_set (self :: peers) : gset string) = S (length peers)).
  rewrite size_list_to_set; [done|by constructor].
Qed.

(** A list with as many elements as places has no duplicates. *)
Lemma size_list_to_set_le (l : list Z) : (size (list_to_set l : gset Z) <= length l)%nat.
Proof.
  induction l as [|x l IH]; simpl; [done|]. rewrite size_union_alt, size_singleton.
  pose proof (subseteq_size (list_to_set l ∖ {[x]} : gset Z) (list_to_set l) ltac:(set_solver)). lia.
Qed.

Lemma NoDup_list_to_set_size (l : list Z) : size (list_to_set l : gset Z) = length l -> NoDup l.
Proof.
  induction l as [|x l IH]; simpl; intros Hs; [constructor|]. pose proof (size_list_to_set_le l) as Hle.
  rewrite size_union_alt, size_singleton in Hs. destruct (decide (x ∈ l)) as [Hx|Hx].
  - assert (list_to_set l ∖ {[x]} ⊂ (list_to_set l : gset Z)) as Hsub%subset_size by set_solver. lia.
  - constructor; [done|]. apply IH. rewrite (difference_disjoint_L _ {[x]}) in Hs by set_solver. lia.
Qed.

Section Members.
Context (sha256 : bytes -> bytes).
Abbreviation id_of r := (instance_node_id sha256 (mr_pubkey r)).

Lemma members_of_lookup_aux records (m0 : gmap Z MemberRecord) id r :
  fold_left (fun m r => <[id_of r := r]> m) records m0 !! id = Some r ->
  (r ∈ records /\ id = id_of r) \/ m0 !! id = Some r.
Proof.
  revert m0. induction records as [|q records IH]; intros m0 Hl; simpl in *; [by right|].
  apply IH in Hl as [[? ?]|[[<- <-]|[? ?]]%lookup_insert_Some]; [|left|by right].
  - left. split; [by apply list_elem_of_further|done].
  - split; [apply list_elem_of_here|done].
Qed.

Lemma members_of_lookup records id r :
  members_of sha256 records !! id = Some r -> r ∈ records /\ id = id_of r.
Proof. intros [?|?]%members_of_lookup_aux; [done|]. by rewrite lookup_empty in *. Qed.

Lemma members_of_dom_aux records (m0 : gmap Z MemberRecord) :
  dom (fold_left (fun m r => <[id_of r := r]> m) records m0) = dom m0 ∪ (list_to_set ((fun r => id_of r) <$> records) : gset Z).
Proof.
  revert m0. induction records as [|q records IH]; intros m0; simpl; [set_solver|].
  rewrite IH, dom_insert_L. set_solver.
Qed.

Lemma members_of_dom records : dom (members_of sha256 records) = list_to_set ((fun r => id_of r) <$> records).
Proof. unfold members_of. rewrite members_of_dom_aux. set_solver. Qed.

(** Keyed by derived ids, records of distinct configured names are a
    well-formed membership. *)
Lemma members_of_wf names records :
  NoDup (mr_name <$> records) -> (forall r, r ∈ records -> mr_name r ∈ names) ->
  membership_wf sha256 names (members_of sha256 records).
Proof.
  intros Hnd Hin. split.
  - intros id m [? _]%members_of_lookup. eauto.
  - by intros id m [_ ->]%members_of_lookup.
  - intros id1 id2 m1 m2 [H1 ->]%members_of_lookup [H2 ->]%members_of_lookup Hname.
    apply list_elem_of_lookup in H1 as [i H1], H2 as [j H2].
    assert (i = j) as -> by (eapply NoDup_lookup; [exact Hnd|by rewrite list_lookup_fmap, H1|
      rewrite list_lookup_fmap, H2; simpl; by rewrite Hname]). congruence.
Qed.

(** If as many members as names came out, every name has its member. *)
Lemma members_of_complete records :
  size (members_of sha256 records) = length records ->
  forall r, r ∈ records -> members_of sha256 records !! id_of r = Some r.
Proof.
  intros Hsize r Hr. rewrite <-size_dom, members_of_dom in Hsize.
  assert (Hnd : NoDup ((fun r => id_of r) <$> records)).
  { apply NoDup_list_to_set_size. rewrite length_fmap. exact Hsize. }
  assert (id_of r ∈ dom (members_of sha256 records)) as Hd.
  { rewrite members_of_dom, elem_of_list_to_set. apply list_elem_of_fmap. by exists r. }
  apply elem_of_dom in Hd as [q Hq]. pose proof Hq as [Hin Hid]%members_of_lookup.
  apply list_elem_of_lookup in Hin as [i Hi], Hr as [j Hj].
  assert (i = j) as -> by (eapply NoDup_lookup; [exact Hnd|by rewrite list_lookup_fmap, Hi|
    rewrite list_lookup_fmap, Hj; simpl; by rewrite Hid]). congruence.
Qed.
End Members.

Section DiscoverProofs.
Context (sha256 : bytes -> bytes) (self : MemberRecord) (peers : list string).
Abbreviation names := (configured_names (mr_name self) peers).
Abbreviation others := (peer_names self names).
Abbreviation pass := (discover_pass sha256 self names).

Lemma elem_of_others n : n ∈ others <-> n ∈ peers /\ n <> mr_name self.
Proof. unfold peer_names. rewrite list_elem_of_filter, elem_of_configured_names. naive_solver. Qed.

(** The records of a complete membership carry the configured names, each once. *)
Lemma complete_records_Some observed records :
  complete_records self names observed = Some records <->
  exists rs, records = self :: rs /\
    Forall2 (fun n r => exists pk, observed n = Some pk /\ r = mkMemberRecord n pk) others rs.
Proof.
  unfold complete_records. rewrite fmap_Some. split.
  - intros (rs & Hm%mapM_Some & ->). exists rs. split; [done|]. eapply Forall2_impl; [exact Hm|].
    intros n r (pk & ? & ->)%fmap_Some. by exists pk.
  - intros (rs & -> & Hall). exists rs. split; [|done]. apply mapM_Some. eapply Forall2_impl; [exact Hall|].
    intros n r (pk & Ho & ->). unfold peer_record. by rewrite Ho.
Qed.

Lemma records_names observed rs :
  Forall2 (fun n r => exists pk, observed n = Some pk /\ r = mkMemberRecord n pk) others rs -> mr_name <$> rs = others.
Proof.
  intros Hall. symmetry. apply list_eq_Forall2, Forall2_fmap_r. eapply Forall2_impl; [exact Hall|].
  by intros n r (pk & _ & ->).
Qed.

(** What has to hold for a pass to ask for a fresh cluster. *)
Record confirmed (env : PassEnv) (members : gmap Z MemberRecord) : Prop := {
  cf_outside : self_id sha256 self ∉ dom (pe_voters_at_top env);
  cf_first : head names = Some (mr_name self);
  cf_no_cluster : forall p, p ∈ peers -> p <> mr_name self -> pe_replies env p = Some JR_NoCluster;
  cf_blank : pe_voters_after_probe env = ∅ /\ pe_voters_at_initialize env = ∅;
  cf_members : exists records, complete_records self names (pe_observed env) = Some records /\
    members = members_of sha256 records;
  cf_size : (MIN_CLUSTER_NODES <= size members)%nat;
}.

Lemma do_initialize_asks records fate members :
  (do_initialize sha256 records fate).2 = Some members <->
  members = members_of sha256 records /\ (MIN_CLUSTER_NODES <= size members)%nat.
Proof.
  unfold do_initialize. destruct (Nat.ltb_spec (size (members_of sha256 records)) MIN_INITIAL_CLUSTER_MEMBERS) as [Hl|Hl];
    simpl; unfold MIN_INITIAL_CLUSTER_MEMBERS in *.
  - split; [done|]. intros [-> ?]. lia.
  - split; [by intros [= <-]|by intros [-> _]].
Qed.

Lemma pass_asks env members : (pass env).2 = Some members <-> confirmed env members.
Proof.
  unfold discover_pass. split.
  - case_bool_decide as Htop; [done|]. destruct (probe (pe_replies env) others) as [b k] eqn:Hp.
    destruct b; [done|]. cbn [orb]. case_bool_decide as Hmid; [done|].
    destruct (is_smallest_name self names) eqn:Hs; [|done]. apply bool_decide_eq_true in Hs. cbn [andb].
    destruct (Nat.eqb_spec k (length others)) as [->|]; [|done].
    unfold try_initialize_fresh. case_bool_decide as Hinit; [done|].
    destruct (complete_records self names (pe_observed env)) as [records|] eqn:Hr; [|done].
    pose proof (do_initialize_asks records (pe_initialize env) members) as Hd.
    destruct (do_initialize _ _ _) as [ok asked]. intros Ha. apply Hd in Ha as [-> Hsize].
    apply (probe_count _ _ _ 0) in Hp as [_ Hall]. split; try done.
    + intros p Hin Hne. apply Hall, elem_of_others. done.
    + by exists records.
  - intros [Htop Hs Hall [Hmid Hinit] (records & Hr & ->) Hsize].
    rewrite bool_decide_eq_false_2 by done.
    assert (probe (pe_replies env) others = (false, length others)) as ->.
    { apply (probe_count _ _ _ 0). split; [done|]. intros p [? ?]%elem_of_others. auto. }
    rewrite Hmid, bool_decide_eq_false_2 by tauto. cbn [orb].
    unfold is_smallest_name. rewrite bool_decide_eq_true_2, Nat.eqb_refl by done. cbn [andb].
    unfold try_initialize_fresh. rewrite Hinit, bool_decide_eq_false_2 by tauto. rewrite Hr.
    pose proof (proj2 (do_initialize_asks records (pe_initialize env) _) (conj eq_refl Hsize)) as Hd.
    by destruct (do_initialize _ _ _) as [ok asked].
Qed.

(** A fresh cluster is initialized on positive confirmation only, and
    completely.  A pass of discovery asks openraft for a membership exactly when
    the node is outside every cluster it knows of, holds the first configured
    name, every other configured peer answered that it has no cluster and has an
    attested key on record, and at least three distinct ids come out; the
    membership asked for is then well-formed over the configured names, contains
    this node, and with three configured names has one voter for each; and every
    node configured with the same names that ever asks is the same one. *)
Theorem fresh_cluster_is_confirmed env members :
  ((pass env).2 = Some members <-> confirmed env members) /\
  (confirmed env members ->
   membership_wf sha256 names members /\ self_id sha256 self ∈ dom members /\
   (length names = MIN_CLUSTER_NODES ->
    forall n, n ∈ names -> exists id pk, members !! id = Some (mkMemberRecord n pk) /\
      (n = mr_name self /\ pk = mr_pubkey self \/ pe_observed env n = Some pk)) /\
   forall self' peers' env' members',
     (forall n, n = mr_name self' \/ n ∈ peers' <-> n = mr_name self \/ n ∈ peers) ->
     (discover_pass sha256 self' (configured_names (mr_name self') peers') env').2 = Some members' ->
     mr_name self' = mr_name self).
Proof.
  split; [apply pass_asks|]. intros [_ Hs _ _ (records & Hr & ->) Hsize].
  apply complete_records_Some in Hr as (rs & -> & Hall).
  assert (Hn : mr_name <$> self :: rs = mr_name self :: others) by (by rewrite fmap_cons, (records_names _ _ Hall)).
  assert (Hperm : mr_name self :: others ≡ₚ names).
  { apply NoDup_Permutation; [constructor; [|apply NoDup_filter]|apply NoDup_configured_names|].
    - rewrite elem_of_others. tauto.
    - apply NoDup_configured_names.
    - intros n. rewrite elem_of_cons, elem_of_others, elem_of_configured_names.
      destruct (decide (n = mr_name self)); tauto. }
  split_and!.
  - apply members_of_wf; [rewrite Hn, Hperm; apply NoDup_configured_names|].
    intros r Hin. rewrite <-Hperm, <-Hn. apply list_elem_of_fmap. by exists r.
  - rewrite members_of_dom. set_solver.
  - intros Hlen n Hin. rewrite <-Hperm, <-Hn in Hin. apply list_elem_of_fmap in Hin as (r & -> & Hin).
    exists (instance_node_id sha256 (mr_pubkey r)), (mr_pubkey r). rewrite members_of_complete; [|..|done].
    + split; [by destruct r|]. apply elem_of_cons in Hin as [->|Hin]; [by left|right].
      apply list_elem_of_lookup in Hin as [i Hi]. destruct (Forall2_lookup_r _ _ _ _ _ Hall Hi) as (q & _ & pk & ? & ->). done.
    + assert (length (self :: rs) = MIN_CLUSTER_NODES) as Hl.
      { by rewrite <-Hlen, <-Hperm, <-Hn, length_fmap. }
      pose proof (size_list_to_set_le ((fun r => instance_node_id sha256 (mr_pubkey r)) <$> self :: rs)) as Hle.
      rewrite <-members_of_dom, size_dom, length_fmap in Hle. lia.
  - intros self' peers' env' members' Hset Hask.
    rewrite (configured_names_ext _ _ _ _ Hset) in Hask. revert Hask. unfold discover_pass.
    case_bool_decide; [done|]. destruct (probe _ _) as [b k]. destruct (b || _); [done|].
    destruct (is_smallest_name self' names) eqn:Hs'; [|done]. apply bool_decide_eq_true in Hs'. congruence.
Qed.
End DiscoverProofs.

(** The mesh environment is sound: whatever the host put in the variables, an
    accepted configuration trusts exactly the identity this node's own device
    attests, and lists at least two distinct peers, none of them this node, so
    the cluster's shape has at least three names. *)
Theorem mesh_env_is_sound `{NitroLib} sha256 name_of self_raw peers_raw nsm bound env
    (Henv : read_mesh_env sha256 name_of self_raw peers_raw nsm bound = Some env) :
  (exists doc, request_local nsm None None = Ok doc /\
     mc_allowlist (me_config env) = self_only (mkPcrKey (pin_key sha256 (va_identity doc)))) /\
  NoDup (mc_peers (me_config env)) /\ (me_self_name env ∉ mc_peers (me_config env)) /\
  (MIN_MESH_PEERS <= length (mc_peers (me_config env)))%nat /\
  (forall p, p ∈ mc_peers (me_config env) -> exists raw, peers_raw = Some raw /\ p ∈ listed_peers name_of raw) /\
  (MIN_CLUSTER_NODES <= length (configured_names (me_self_name env) (mc_peers (me_config env))))%nat.
Proof.
  unfold read_mesh_env in Henv. destruct self_raw as [s|]; [|done]. destruct peers_raw as [raw|]; [|done].
  cbn [mbind option_bind] in Henv. destruct (Nat.ltb (length (listed_peers name_of raw)) MIN_MESH_PEERS); [done|].
  destruct (request_local nsm None None) as [doc|]; [|done]. cbn [mbind option_bind result_ok mesh_config_new mc_peers] in Henv.
  destruct (Nat.ltb_spec (length (ordered_peers (name_of s) ∅ (listed_peers name_of raw))) MIN_MESH_PEERS)
    as [|Hlen]; [done|]. destruct bound; [|done]. cbn in Henv. injection Henv as <-. simpl.
  pose proof (NoDup_ordered_peers (name_of s) ∅ (listed_peers name_of raw)) as Hnd.
  assert (Hin : forall p, p ∈ ordered_peers (name_of s) ∅ (listed_peers name_of raw) ->
            p ∈ listed_peers name_of raw /\ p <> name_of s).
  { intros p (? & ? & _)%elem_of_ordered_peers. done. }
  assert (Hself : name_of s ∉ ordered_peers (name_of s) ∅ (listed_peers name_of raw)) by (by intros [_ ?]%Hin).
  split_and!; [by exists doc|done|done|done| |].
  - intros p [? _]%Hin. by exists raw.
  - rewrite length_configured_names by done. unfold MIN_MESH_PEERS, MIN_CLUSTER_NODES in *. lia.
Qed.

(** A fresh cluster has no predecessor among the peers: if the replies a pass
    counts are those the peers' nodes gave, at once or at the end of an
    admission, a pass that asks for a fresh cluster asks while none of the peers'
    nodes had a membership when it answered. *)
Theorem fresh_cluster_has_no_predecessor `{OpenRaft} sha256 self peers env members
    (nodes : string -> RaftRequestHandler) (ctx : PeerContext) (aenv : string -> AdmitEnv)
    (Hreplies : forall p r, p ∈ peers -> pe_replies env p = Some r ->
       serve_join sha256 (nodes p) ctx (mkJoinRequest (mr_name self)) (aenv p) = inl r \/
       exists res, r = join_reply res)
    (Hasks : (discover_pass sha256 self (configured_names (mr_name self) peers) env).2 = Some members) :
  forall p, p ∈ peers -> p <> mr_name self -> voter_ids (rh_node (nodes p)) = ∅.
Proof.
  intros p Hin Hne. apply pass_asks in Hasks as [_ _ Hall _ _ _].
  destruct (Hreplies p _ Hin (Hall p Hin Hne)) as [Hr|[[b|[]] Hr]]; [|done..]. revert Hr.
  unfold serve_join. destruct (rh_serve (nodes p)); [|done]. unfold cluster_is_initialized.
  case_bool_decide as Hv; cbn [negb].
  - by destruct (raft_admit _ _ _ _ _ _ _) as [[|[]]| |].
  - intros _. destruct (decide (voter_ids (rh_node (nodes p)) = ∅)) as [|Hne']; [done|]. by destruct Hv.
Qed.

(** The eviction watch shuts the Raft down exactly when some membership it is
    shown has voters and does not name this node. *)
Theorem eviction_is_noticed sha256 self seen :
  watch_for_eviction sha256 self seen = true <->
  exists m, m ∈ seen /\ mv_voters m <> ∅ /\ (self_id sha256 self ∉ dom (mv_voters m)) /\
    (self_id sha256 self ∉ dom (mv_nodes m)).
Proof.
  induction seen as [|m seen IH]; simpl; [split; [done|intros (? & ?%elem_of_nil & _); done]|].
  setoid_rewrite elem_of_cons. repeat case_bool_decide; cbn; rewrite ?IH; naive_solver.
Qed.

(** ** Witnesses *)

Module JoinDemo.
Definition text (s : str) : string := String.string_of_list_ascii ((fun c => Ascii.ascii_of_nat (Z.to_nat c)) <$> s).
Definition nsm (nonce user_data : option bytes) : NsmResponse := Nsm_Document (toy_document 0 1 []).
Definition self : MemberRecord := mkMemberRecord "a" [1].
Definition observed (n : string) : option bytes :=
  if bool_decide (n = "b"%string) then Some [2] else if bool_decide (n = "c"%string) then Some [3] else None.
Definition env : PassEnv := mkPassEnv ∅ (fun _ => Some JR_NoCluster) ∅ ∅ observed Init_Ok.
Definition members : gmap Z MemberRecord :=
  members_of toy_sha256 [self; mkMemberRecord "b" [2]; mkMemberRecord "c" [3]].
End JoinDemo.

(** Three peers in place, the first initializes; with two names on one instance
    it does not. *)
Example first_node_initializes :
  (discover_pass toy_sha256 JoinDemo.self (configured_names "a" ["c"; "b"]) JoinDemo.env).2 = Some JoinDemo.members /\
  (discover_pass toy_sha256 JoinDemo.self (configured_names "a" ["c"; "b"])
     (mkPassEnv ∅ (fun _ => Some JR_NoCluster) ∅ ∅ (fun _ => Some [2]) Init_Ok)) = (Pass_Retry, None).
Proof. split; vm_compute; reflexivity. Qed.

(** With four configured names, two of which lead to one instance, the cluster
    is initialized without one of them. *)
Example four_names_three_members :
  exists members,
    (discover_pass toy_sha256 JoinDemo.self (configured_names "a" ["b"; "c"; "d"])
       (mkPassEnv ∅ (fun _ => Some JR_NoCluster) ∅ ∅
          (fun n => if bool_decide (n = "b"%string) then Some [2] else Some [3]) Init_Ok)).2 = Some members /\
    size members = 3%nat.
Proof. eexists. split; vm_compute; reflexivity. Qed.

Lemma mesh_env_is_sound_witness :
  exists env, read_mesh_env (H0 := toy_NitroLib) toy_sha256 JoinDemo.text (Some (lit "a")) (Some (lit " b,c ,,b"))
                JoinDemo.nsm true = Some env /\
    (MIN_MESH_PEERS <= length (mc_peers (me_config env)))%nat.
Proof.
  eexists. split; [vm_compute; reflexivity|].
  refine (proj1 (proj2 (proj2 (proj2 (mesh_env_is_sound (H := toy_NitroLib) toy_sha256 JoinDemo.text (Some (lit "a"))
            (Some (lit " b,c ,,b")) JoinDemo.nsm true _ _))))).
  vm_compute. reflexivity.
Defined.

(** A list padded with the node's own name and duplicates is refused. *)
Example padded_env_is_refused :
  read_mesh_env (H0 := toy_NitroLib) toy_sha256 JoinDemo.text (Some (lit "a")) (Some (lit "a,a,b"))
    JoinDemo.nsm true = None.
Proof. vm_compute. reflexivity. Qed.
