(* ===== verification/Listener.v ===== *)
(** The customer listener ([synchronizer/src/listener.rs]): one connection from
    the Noise handshake to its end.  The first frame authenticates the customer,
    the node answers with its own document, and every later frame is a request
    dispatched under the attested key.

    A connection is what its reads yield; the listener bounds none of them, so
    where the reads end the connection is still open. *)
From stdpp Require Import gmap sets list strings.
From S2P Require Import Prelude Text StateMachine Store Membership Identity Signing Attestation LocalAttestation.
From S2P Require Import Chain Wire Service Transport Framing.
#[local] Open Scope Z_scope.

Inductive ConnError : Type :=
| CE_Io
| CE_FrameTooLarge (len : Z)
| CE_Cbor (detail : string)
| CE_CborEncode (detail : string)
| CE_Attestation (e : AttestationError)
| CE_LocalAttestation
| CE_Protocol (what : string)
| CE_Handshake
| CE_Crypto.

Definition conn_error (e : FrameError) : ConnError :=
  match e with
  | FE_Io => CE_Io
  | FE_TooLarge len => CE_FrameTooLarge len
  | FE_Crypto => CE_Crypto
  | FE_Cbor d => CE_Cbor d
  end.

Definition attestation_rejection (e : ConnError) : option RejectionReason :=
  match e with
  | CE_Attestation e => Some (reason e)
  | _ => None
  end.

(** [NsmSessionAttestor::attest]. *)
Definition session_attest `{NitroLib} (nsm : NsmDevice) (handshake_hash : bytes)
    : result bytes LocalAttestationError :=
  let? v := request_local nsm (Some handshake_hash) None in Ok (va_bytes v).

(** What the node writes. *)
Inductive Sent : Type := Sent_Frame (f : Frame) | Sent_Response (r : Response).

(** The end of a connection; [None]: it is open. *)
Definition ConnEnd : Type := option (result unit ConnError).

Section Listener.
Context `{NitroLib} (sha256 : bytes -> bytes) (skip_chain_compiled debug_mode : bool).

(** A dispatcher for each situation a request may meet. *)
Context {S E : Type} (disp : E -> SessionDispatch S).

(** One read: a frame, the end or an error; with what the request it carries
    meets, and how the write that answers it ends. *)
Record Turn := mkTurn {
  tn_read : result (option Frame) FrameError;
  tn_env : E;
  tn_write : option FrameError;
}.

(** What a connection meets before its requests. *)
Record ConnEnv := mkConnEnv {
  ce_noise : result bytes string;
  ce_first : option (result (option Frame) FrameError);
  ce_now : result Z string;
  ce_nsm : NsmDevice;
  ce_first_write : option FrameError;
  ce_turns : list Turn;
}.

Definition write (w : option FrameError) (s : Sent) : result unit ConnError * list Sent :=
  match w with
  | None => (Ok tt, [s])
  | Some e => (Err (conn_error e), [])
  end.

(** The request loop. *)
Fixpoint serve_requests (st : S) (session_key : PcrKey) (control_pubkey : bytes) (turns : list Turn)
    : ConnEnd * S * list Sent :=
  match turns with
  | [] => (None, st, [])
  | t :: turns =>
      match tn_read t with
      | Err e => (Some (Err (conn_error e)), st, [])
      | Ok None => (Some (Ok tt), st, [])
      | Ok (Some (Authenticate _ _ _)) =>
          match write (tn_write t) (Sent_Response (RespErr Rpc_Unauthorized)) with
          | (Err e, sent) => (Some (Err e), st, sent)
          | (Ok _, sent) => (Some (Err (CE_Protocol "re-authentication is not supported")), st, sent)
          end
      | Ok (Some (Rpc request)) =>
          let '(a, st) := dispatch (SessionDispatch := disp (tn_env t)) st session_key control_pubkey request in
          match write (tn_write t) (Sent_Response (an_response a)) with
          | (Err e, sent) => (Some (Err e), st, sent)
          | (Ok _, sent) =>
              let '(r, st, more) := serve_requests st session_key control_pubkey turns in
              (r, st, sent ++ more)
          end
      end
  end.

(** The customer's identity and control key, from its document. *)
Definition authenticate_customer (nsm_doc handshake_hash : bytes) (now : result Z string)
    : result (PcrKey * bytes) ConnError :=
  let? now_ms := map_err (fun _ => CE_LocalAttestation) now in
  map_err CE_Attestation
    (let? doc := attest_session_at skip_chain_compiled nsm_doc handshake_hash debug_mode now_ms in
     let? pubkey := control_pubkey doc in
     Ok (mkPcrKey (pin_key sha256 (va_identity doc)), pubkey)).

Definition handle_connection (st : S) (env : ConnEnv) : ConnEnd * S * list Sent :=
  match ce_noise env with
  | Err _ => (Some (Err CE_Handshake), st, [])
  | Ok handshake_hash =>
      match ce_first env with
      | None => (None, st, [])
      | Some (Err e) => (Some (Err (conn_error e)), st, [])
      | Some (Ok None) => (Some (Ok tt), st, [])
      | Some (Ok (Some (Rpc _))) => (Some (Err (CE_Protocol "first frame must be Authenticate")), st, [])
      | Some (Ok (Some (Authenticate nsm_doc _ _))) =>
          match authenticate_customer nsm_doc handshake_hash (ce_now env) with
          | Err e => (Some (Err e), st, [])
          | Ok (session_key, control_pubkey) =>
              match session_attest (ce_nsm env) handshake_hash with
              | Err _ => (Some (Err CE_LocalAttestation), st, [])
              | Ok own_doc =>
                  match write (ce_first_write env) (Sent_Frame (authenticate own_doc)) with
                  | (Err e, sent) => (Some (Err e), st, sent)
                  | (Ok _, sent) =>
                      let '(r, st, more) := serve_requests st session_key control_pubkey (ce_turns env) in
                      (r, st, sent ++ more)
                  end
              end
          end
      end
  end.

(** ** What a connection did *)

(** The requests at the head of the turns that were dispatched. *)
Definition turn_request (t : Turn) : option (E * Request) :=
  match tn_read t with Ok (Some (Rpc request)) => Some (tn_env t, request) | _ => None end.

(** Dispatching [reqs] in order under one key. *)
Fixpoint dispatch_all (st : S) (key : PcrKey) (pk : bytes) (reqs : list (E * Request)) : list Answered * S :=
  match reqs with
  | [] => ([], st)
  | (e, rq) :: reqs =>
      let '(a, st) := dispatch (SessionDispatch := disp e) st key pk rq in
      let '(rest, st) := dispatch_all st key pk reqs in (a :: rest, st)
  end.

Definition response_of (a : Answered) : Sent := Sent_Response (an_response a).

(** A loop over [turns] dispatched [reqs], the requests of a first part of them,
    and sent their answers: all, all but the last, or all and the refusal of a
    second authentication. *)
Record served_as (st : S) (key : PcrKey) (pk : bytes) (turns : list Turn) (reqs : list (E * Request))
    (st' : S) (out : list Sent) : Prop := {
  sa_requests : exists served rest, turns = served ++ rest /\ turn_request <$> served = Some <$> reqs;
  sa_state : st' = (dispatch_all st key pk reqs).2;
  sa_sent : exists sent more, out = sent ++ more /\
    sent `prefix_of` (response_of <$> (dispatch_all st key pk reqs).1) /\
    (length reqs <= 1 + length sent)%nat /\ (more = [] \/ more = [Sent_Response (RespErr Rpc_Unauthorized)]);
}.

Lemma served_nothing st key pk turns more :
  more = [] \/ more = [Sent_Response (RespErr Rpc_Unauthorized)] -> served_as st key pk turns [] st more.
Proof.
  intros Hm. split; [by exists [], turns|done|]. exists [], more.
  split_and!; [done|apply prefix_nil|simpl; lia|done].
Qed.

Lemma served_more st key pk t turns rq a st1 reqs st' out :
  turn_request t = Some (tn_env t, rq) ->
  dispatch (SessionDispatch := disp (tn_env t)) st key pk rq = (a, st1) ->
  served_as st1 key pk turns reqs st' out ->
  served_as st key pk (t :: turns) ((tn_env t, rq) :: reqs) st' (response_of a :: out).
Proof.
  intros Ht Hd [(served & rest & -> & Hreq) -> (sent & more & -> & Hpre & Hlen & Hmore)]. split.
  - exists (t :: served), rest. split; [done|]. by rewrite !fmap_cons, Ht, Hreq.
  - simpl. rewrite Hd. by destruct (dispatch_all st1 key pk reqs).
  - exists (response_of a :: sent), more. simpl. rewrite Hd.
    destruct (dispatch_all st1 key pk reqs) as [ans st3]. split_and!; [done| |simpl; lia|done].
    by apply prefix_cons.
Qed.

Lemma serve_requests_spec turns st key pk :
  let '(_, st', out) := serve_requests st key pk turns in
  exists reqs, served_as st key pk turns reqs st' out.
Proof.
  revert st. induction turns as [|t turns IH]; intros st; simpl.
  { exists []. apply served_nothing. by left. }
  destruct (tn_read t) as [[[doc v c|rq]|]|e] eqn:Hr.
  - destruct (tn_write t); exists []; apply served_nothing; [by left|by right].
  - assert (Ht : turn_request t = Some (tn_env t, rq)) by (unfold turn_request; by rewrite Hr).
    destruct (dispatch st key pk rq) as [a st1] eqn:Hd. destruct (tn_write t) as [e|] eqn:Hw; simpl.
    + exists [(tn_env t, rq)]. split.
      * exists [t], turns. by rewrite fmap_cons, Ht.
      * simpl. by rewrite Hd.
      * exists [], []. split_and!; [done|apply prefix_nil|simpl; lia|by left].
    + specialize (IH st1). destruct (serve_requests st1 key pk turns) as [[r st2] out].
      destruct IH as [reqs Hs]. exists ((tn_env t, rq) :: reqs). by apply (served_more _ _ _ _ _ rq a st1).
  - exists []. apply served_nothing. by left.
  - exists []. apply served_nothing. by left.
Qed.

Lemma authenticate_customer_Ok doc hash now key pk :
  authenticate_customer doc hash now = Ok (key, pk) <->
  exists now_ms v, now = Ok now_ms /\ attest_session_at skip_chain_compiled doc hash debug_mode now_ms = Ok v /\
    control_pubkey v = Ok pk /\ key = mkPcrKey (pin_key sha256 (va_identity v)).
Proof.
  unfold authenticate_customer. split.
  - destruct now as [now_ms|]; [|done]. cbn [map_err].
    destruct (attest_session_at _ _ _ _ _) as [v|] eqn:Hv; [|done].
    destruct (control_pubkey v) as [pk'|] eqn:Hk; [|done]. intros [= <- <-]. by exists now_ms, v.
  - intros (now_ms & v & -> & Hv & Hk & ->). cbn [map_err]. rewrite Hv. by rewrite Hk.
Qed.

(** The customer of a connection: the key and control key its document proves. *)
Definition customer (env : ConnEnv) (key : PcrKey) (pk : bytes) : Prop :=
  exists hash doc version caps now_ms v,
    ce_noise env = Ok hash /\ ce_first env = Some (Ok (Some (Authenticate doc version caps))) /\
    ce_now env = Ok now_ms /\ attest_session_at skip_chain_compiled doc hash debug_mode now_ms = Ok v /\
    control_pubkey v = Ok pk /\ key = mkPcrKey (pin_key sha256 (va_identity v)).

(** A connection serves one customer, the one its document proves.  Either
    nothing is sent or changed, or the first frame carried a document valid for
    this very session, the first thing sent is the node's own document for it,
    and all that happened is that the requests of a first part of the connection
    were dispatched in order under the attested key and its control key, with
    their answers sent in order (the last possibly lost), possibly followed by
    the refusal of a second authentication. *)
Theorem connection_serves_its_customer st env :
  let '(r, st', out) := handle_connection st env in
  (st' = st /\ out = [] /\ (r = Some (Ok tt) -> ce_first env = Some (Ok None))) \/
  exists key pk own hash reqs more, customer env key pk /\
    ce_noise env = Ok hash /\ session_attest (ce_nsm env) hash = Ok own /\
    out = Sent_Frame (authenticate own) :: more /\
    served_as st key pk (ce_turns env) reqs st' more.
Proof.
  unfold handle_connection. destruct (ce_noise env) as [hash|] eqn:Hn; [|by left].
  destruct (ce_first env) as [[[[doc version caps|]|]|]|] eqn:Hf; try by left.
  destruct (authenticate_customer doc hash (ce_now env)) as [[key pk]|e] eqn:Ha; [|by left].
  destruct (session_attest (ce_nsm env) hash) as [own|] eqn:Ho; [|by left].
  destruct (ce_first_write env); simpl; [by left|].
  pose proof (serve_requests_spec (ce_turns env) st key pk) as Hs.
  destruct (serve_requests st key pk (ce_turns env)) as [[r st'] more]. destruct Hs as [reqs Hs].
  right. exists key, pk, own, hash, reqs, more. split_and!; try done.
  apply authenticate_customer_Ok in Ha as (now_ms & v & ? & ? & ? & ->).
  by exists hash, doc, version, caps, now_ms, v.
Qed.
End Listener.

(** ** A connection to the single node *)

Section NodeListener.
Context `{P256} `{NitroLib} `{Cbor UpgradePayload} `{Cbor RevocationPayload}.
Context (sha256 : bytes -> bytes) (skip_chain_compiled debug_mode : bool).

Abbreviation node := (fun now => Node_dispatch sha256 skip_chain_compiled debug_mode now).
Abbreviation moved := (moved_by_link sha256 skip_chain_compiled).

Lemma node_dispatch_frame now sm session pk req k :
  k <> session ->
  let sm' := (node_dispatch sha256 skip_chain_compiled debug_mode now sm session pk req).2 in
  sm_revoked_links sm' !! k = sm_revoked_links sm !! k /\
  (sm_state sm' !! k = sm_state sm !! k \/ moved sm session debug_mode now req k).
Proof.
  intros Hother. pose proof (handle_request_frame sha256 skip_chain_compiled debug_mode now
    (observe_attestation sm session pk) session req k Hother) as Hk.
  unfold node_dispatch. by destruct (handle_request _ _ _ _ _ _ _).
Qed.

Lemma dispatch_all_frame reqs sm key pk k :
  k <> key ->
  let sm' := (dispatch_all node sm key pk reqs).2 in
  sm_revoked_links sm' !! k = sm_revoked_links sm !! k /\
  (sm_state sm' !! k = sm_state sm !! k \/
   exists smi now rq, (now, rq) ∈ reqs /\ moved smi key debug_mode now rq k).
Proof.
  intros Hne. revert sm. induction reqs as [|[now rq] reqs IH]; intros sm; simpl; [by split; [|left]|].
  pose proof (node_dispatch_frame now sm key pk rq k Hne) as [Hr Hs].
  destruct (node_dispatch _ _ _ _ _ _ _ _) as [a sm1]. simpl in *.
  specialize (IH sm1) as [Hr' Hs']. destruct (dispatch_all node sm1 key pk reqs) as [ans sm2]. simpl in *.
  split; [congruence|]. destruct Hs as [Hs|Hs].
  - destruct Hs' as [Hs'|(smi & n & q & Hin & Hm)]; [left; congruence|right].
    exists smi, n, q. split; [by apply list_elem_of_further|done].
  - right. exists sm, now, rq. split; [apply list_elem_of_here|done].
Qed.

(** A whole connection touches its own slot only.  Whatever a peer sends over
    one connection to a node, frames before or after authenticating and any
    requests, every key but the one its document proved keeps its revocations,
    and keeps its pin unless one of the connection's requests is a transition
    whose upgrade link verifies for that key and for the customer as target; a
    connection that proves no key changes nothing. *)
Theorem connection_touches_only_its_slot st env k
    (Hother : forall key pk, customer sha256 skip_chain_compiled debug_mode env key pk -> k <> key) :
  let '(_, st', _) := handle_connection sha256 skip_chain_compiled debug_mode node st env in
  sm_revoked_links st' !! k = sm_revoked_links st !! k /\
  (sm_state st' !! k = sm_state st !! k \/
   exists key pk smi now rq, customer sha256 skip_chain_compiled debug_mode env key pk /\
     (exists t, t ∈ ce_turns env /\ turn_request t = Some (now, rq)) /\ moved smi key debug_mode now rq k) /\
  ((forall key pk, ~ customer sha256 skip_chain_compiled debug_mode env key pk) -> st' = st).
Proof.
  unfold handle_connection. destruct (ce_noise env) as [hash|] eqn:Hn; [|by auto].
  destruct (ce_first env) as [[[[doc version caps|]|]|]|] eqn:Hf; try by auto.
  destruct (authenticate_customer _ _ _ doc hash (ce_now env)) as [[key pk]|e] eqn:Ha; [|by auto].
  assert (Hc : customer sha256 skip_chain_compiled debug_mode env key pk).
  { apply authenticate_customer_Ok in Ha as (now_ms & v & ? & ? & ? & ->).
    by exists hash, doc, version, caps, now_ms, v. }
  destruct (session_attest (ce_nsm env) hash) as [own|]; [|by auto].
  destruct (ce_first_write env); simpl; [by auto|].
  pose proof (serve_requests_spec node (ce_turns env) st key pk) as Hs.
  destruct (serve_requests node st key pk (ce_turns env)) as [[r st'] more].
  destruct Hs as [reqs [(served & rest & Hturns & Hreqs) -> _]].
  destruct (dispatch_all_frame reqs st key pk k (Hother _ _ Hc)) as [Hr Hst].
  split; [done|]. split; [|intros Hno; by destruct (Hno key pk)].
  destruct Hst as [Hst|(smi & now & rq & Hin & Hm)]; [by left|right].
  exists key, pk, smi, now, rq. split; [done|]. split; [|done].
  assert (Some (now, rq) ∈ turn_request <$> served) as (t & Ht & Htin)%list_elem_of_fmap.
  { rewrite Hreqs. apply list_elem_of_fmap. by eexists. }
  exists t. split; [|done]. rewrite Hturns. apply elem_of_app. by left.
Qed.
End NodeListener.

(** ** Witnesses *)

Module ListenerDemo.
Definition document : bytes := toy_document 9 1 (4 :: replicate 64 7).
Definition nsm (nonce user_data : option bytes) : NsmResponse := Nsm_Document (toy_document 9 2 []).
Definition key : PcrKey := mkPcrKey (pin_key toy_sha256 (doc_identity (doc_pcrs (toy_doc document)))).
Definition turn (f : Frame) : Turn (E := result Z string) := mkTurn (Ok (Some f)) (Ok 500) None.
Definition env : ConnEnv (E := result Z string) :=
  mkConnEnv (Ok [9]) (Some (Ok (Some (Authenticate document 1 ∅)))) (Ok 500) nsm None
    [turn (Rpc (Rq_Register key demo_c0)); turn (Rpc (Rq_Get key)); turn (Authenticate document 1 ∅)].
#[export] Instance no_upgrade : Cbor UpgradePayload := {| encode _ := []; from_reader _ := Err "none"%string |}.
#[export] Instance no_revocation : Cbor RevocationPayload := {| encode _ := []; from_reader _ := Err "none"%string |}.
End ListenerDemo.

#[local] Existing Instances toy_P256 toy_NitroLib ListenerDemo.no_upgrade ListenerDemo.no_revocation.

Abbreviation demo_connection :=
  (handle_connection (H := toy_NitroLib) toy_sha256 false false
     (fun now => Node_dispatch toy_sha256 false false now) sm_new ListenerDemo.env).

(** The connection registers its key, reads it back and is closed when it
    authenticates again. *)
Example demo_connection_runs :
  let '(r, st', out) := demo_connection in
  r = Some (Err (CE_Protocol "re-authentication is not supported")) /\
  get st' ListenerDemo.key = Some (mkKeyState demo_c0 (mkVersion 0) (4 :: replicate 64 7)) /\
  length out = 4%nat.
Proof. vm_compute. auto. Qed.

Lemma connection_touches_only_its_slot_witness :
  let '(_, st', _) := demo_connection in sm_revoked_links st' !! (mkPcrKey []) = sm_revoked_links sm_new !! (mkPcrKey []).
Proof.
  pose proof (connection_touches_only_its_slot (H := toy_P256) (H0 := toy_NitroLib) toy_sha256 false false sm_new
                ListenerDemo.env (mkPcrKey [])) as Hk.
  destruct demo_connection as [[r st'] out]. apply Hk.
  intros key pk (hash & doc & version & caps & now_ms & v & _ & _ & _ & _ & _ & ->) Heq.
  apply (f_equal (fun k => match k with mkPcrKey l => length l end)) in Heq. revert Heq.
  unfold pin_key, toy_sha256. rewrite length_take, length_app, length_replicate. simpl. lia.
Defined.
