(* ===== verification/SecretsInit.v ===== *)
(** The boot-time injectors ([enclavia-secrets-init/src/main.rs] and
    [synchronizer-names-init/src/main.rs]).

    Both pull one length-prefixed payload from the untrusted host.  The first
    either splices a map of secrets into the workload's [process.env] or writes
    it as an environment file that the boot script sources; the second stores a
    node's names.  The theorems say what the host can reach: the workload's
    environment is the image's own, updated at the secrets' names and nowhere
    else; sourcing the environment file performs the map's assignments and runs
    nothing, for a POSIX shell reduced to the commands that are literal
    assignments ([sh_source]). *)
From stdpp Require Import base gmap list strings.
From S2P Require Import Prelude Text KmsPolicy Server.
#[local] Open Scope Z_scope.

(** ** Strings of the standard library *)

(** [char::is_ascii_alphabetic]. *)
Definition is_ascii_alphabetic (c : Z) : bool := is_upper c || is_lower c.

Definition to_upper (c : Z) : Z := if is_lower c then c - 32 else c.

(** [str::to_ascii_uppercase]. *)
Definition to_ascii_uppercase (s : str) : str := to_upper <$> s.

(** [str::ends_with] for a string. *)
Definition str_ends_with (s p : str) : bool :=
  bool_decide (drop (length s - length p) s = p).

(** The UTF-8 encoding of a scalar value, and [str::as_bytes]. *)
Definition encode_utf8 (c : Z) : bytes :=
  if c <? 128 then [c]
  else if c <? 2048 then [192 + c / 64; 128 + c mod 64]
  else if c <? 65536 then [224 + c / 4096; 128 + c / 64 mod 64; 128 + c mod 64]
  else [240 + c / 262144; 128 + c / 4096 mod 64; 128 + c / 64 mod 64; 128 + c mod 64].

Definition as_bytes (s : str) : bytes := s ≫= encode_utf8.

(** U+FFFD. *)
Definition REPLACEMENT : Z := 65533.

(** The second bytes that may follow the lead byte of a three- or four-byte
    sequence. *)
Definition second_ok (b0 b1 : Z) : bool :=
  if b0 =? 224 then (160 <=? b1) && (b1 <? 192)
  else if b0 =? 237 then (128 <=? b1) && (b1 <? 160)
  else if b0 =? 240 then (144 <=? b1) && (b1 <? 192)
  else if b0 =? 244 then (128 <=? b1) && (b1 <? 144)
  else is_continuation b1.

(** [String::from_utf8_lossy], which [OsStr::to_string_lossy] is on Unix: each
    maximal prefix of a sequence that cannot be completed is replaced. *)
Fixpoint from_utf8_lossy (l : bytes) : str :=
  match l with
  | [] => []
  | b0 :: r0 =>
      if b0 <? 128 then b0 :: from_utf8_lossy r0
      else if (194 <=? b0) && (b0 <? 224) then
        match r0 with
        | b1 :: r1 =>
            if is_continuation b1 then ((b0 - 192) * 64 + (b1 - 128)) :: from_utf8_lossy r1
            else REPLACEMENT :: from_utf8_lossy r0
        | [] => [REPLACEMENT]
        end
      else if (224 <=? b0) && (b0 <? 240) then
        match r0 with
        | b1 :: r1 =>
            if negb (second_ok b0 b1) then REPLACEMENT :: from_utf8_lossy r0
            else match r1 with
            | b2 :: r2 =>
                if is_continuation b2
                then ((b0 - 224) * 4096 + (b1 - 128) * 64 + (b2 - 128)) :: from_utf8_lossy r2
                else REPLACEMENT :: from_utf8_lossy r1
            | [] => [REPLACEMENT]
            end
        | [] => [REPLACEMENT]
        end
      else if (240 <=? b0) && (b0 <? 245) then
        match r0 with
        | b1 :: r1 =>
            if negb (second_ok b0 b1) then REPLACEMENT :: from_utf8_lossy r0
            else match r1 with
            | b2 :: r2 =>
                if negb (is_continuation b2) then REPLACEMENT :: from_utf8_lossy r1
                else match r2 with
                | b3 :: r3 =>
                    if is_continuation b3 then
                      ((b0 - 240) * 262144 + (b1 - 128) * 4096 + (b2 - 128) * 64 + (b3 - 128))
                      :: from_utf8_lossy r3
                    else REPLACEMENT :: from_utf8_lossy r2
                | [] => [REPLACEMENT]
                end
            | [] => [REPLACEMENT]
            end
        | [] => [REPLACEMENT]
        end
      else REPLACEMENT :: from_utf8_lossy r0
  end.

(** ** The command line *)

Definition SECRETS_HOST_PORT : Z := 5004.
Definition AWS_CREDS_HOST_PORT : Z := 5013.
Definition DEFAULT_BUNDLE_DIR : bytes := lit "/var/lib/oci/bundle".
Definition DEFAULT_AWS_CREDS_ENV_FILE : bytes := lit "/run/aws-creds.env".
Definition ACK_BYTE : Z := 6.
Definition MAX_PAYLOAD_BYTES : Z := 2 ^ 20.

(** A path is its bytes. *)
Inductive Mode : Type :=
| WorkloadSecrets (bundle : bytes)
| AwsCreds (env_file : bytes).

Definition host_port (m : Mode) : Z :=
  match m with
  | WorkloadSecrets _ => SECRETS_HOST_PORT
  | AwsCreds _ => AWS_CREDS_HOST_PORT
  end.

Inductive ArgError : Type :=
| AE_ModeValue
| AE_UnknownFlag (flag : str)
| AE_ExtraPositional
| AE_UnknownMode (mode : str).

(** The argument loop: the last [--mode] and the positional argument. *)
Fixpoint scan_args (args : list bytes) (mode_str : option str) (positional : option bytes)
    : result (option str * option bytes) ArgError :=
  match args with
  | [] => Ok (mode_str, positional)
  | arg :: args =>
      let s := from_utf8_lossy arg in
      if bool_decide (s = lit "--mode") then
        match args with
        | [] => Err AE_ModeValue
        | val :: args => scan_args args (Some (from_utf8_lossy val)) positional
        end
      else if str_starts_with s (lit "--mode=") then
        scan_args args (Some (drop (length (lit "--mode=")) s)) positional
      else if str_starts_with s (lit "--") then Err (AE_UnknownFlag s)
      else match positional with
           | Some _ => Err AE_ExtraPositional
           | None => scan_args args mode_str (Some arg)
           end
  end.

(** [parse_argv], on the arguments after the program's name. *)
Definition parse_argv (args : list bytes) : result Mode ArgError :=
  let? scanned := scan_args args None None in
  let positional := scanned.2 in
  let workload := Ok (WorkloadSecrets (default DEFAULT_BUNDLE_DIR positional)) in
  match scanned.1 with
  | None => workload
  | Some m =>
      if bool_decide (m = lit "workload-secrets") then workload
      else if bool_decide (m = lit "aws-creds")
      then Ok (AwsCreds (default DEFAULT_AWS_CREDS_ENV_FILE positional))
      else Err (AE_UnknownMode m)
  end.

(** ** The pull *)

Inductive FetchError : Type :=
| FE_Connect (detail : string)
| FE_LengthPrefix
| FE_TooLarge (len : Z)
| FE_Payload
| FE_ZeroLength
| FE_Cbor (detail : string).

(** [fetch_payload]: [conn] is what the host's connection delivers before it
    ends, [decode] the CBOR decoder of the map, in key order; the second
    component is what was sent to the host.  An ack that cannot be written is
    only logged. *)
Definition fetch_payload (decode : bytes -> result (list (str * bytes)) string)
    (conn : result bytes string) : result (list (str * bytes)) FetchError * bytes :=
  match conn with
  | Err e => (Err (FE_Connect e), [])
  | Ok stream =>
      if (length stream <? 4)%nat then (Err FE_LengthPrefix, [])
      else
        let len := be_decode (take 4 stream) in
        if MAX_PAYLOAD_BYTES <? len then (Err (FE_TooLarge len), [])
        else
          let rest := drop 4 stream in
          if Z.of_nat (length rest) <? len then (Err FE_Payload, [])
          else if len =? 0 then (Err FE_ZeroLength, [ACK_BYTE])
          else (map_err FE_Cbor (decode (take (Z.to_nat len) rest)), [ACK_BYTE])
  end.

(** ** Names and values *)

Definition is_valid_env_name (name : str) : bool :=
  match name with
  | [] => false
  | c :: chars =>
      (is_ascii_alphabetic c || (c =? 95))
      && forallb (fun c => is_ascii_alphanumeric c || (c =? 95)) chars
  end.

Definition FORBIDDEN : list str :=
  [lit "PATH"; lit "HOME"; lit "LD_PRELOAD"; lit "LD_LIBRARY_PATH"; lit "LD_AUDIT";
   lit "LD_DEBUG"; lit "LD_PROFILE"; lit "LD_ORIGIN_PATH"; lit "LD_SHOW_AUXV"; lit "BASH_ENV";
   lit "ENV"; lit "SHELLOPTS"; lit "IFS"; lit "NODE_OPTIONS"; lit "PYTHONPATH";
   lit "PYTHONSTARTUP"; lit "PYTHONINSPECT"; lit "RUBYLIB"; lit "PERL5LIB"; lit "PERL5OPT";
   lit "GIT_SSH_COMMAND"; lit "GIT_SSH"; lit "GIT_EXEC_PATH"; lit "JAVA_TOOL_OPTIONS";
   lit "_JAVA_OPTIONS"; lit "GCONV_PATH"; lit "LOCPATH"; lit "NLSPATH"].

Definition is_forbidden_env_name (name : str) : bool :=
  let upper := to_ascii_uppercase name in
  bool_decide (upper ∈ FORBIDDEN) || str_ends_with upper (lit "_PROXY").

Inductive InjectError : Type :=
| IE_Name (name : str)
| IE_Forbidden (name : str)
| IE_NotUtf8 (name : str)
| IE_Newline (name : str)
| IE_Root
| IE_NoProcess
| IE_ProcessNotObject
| IE_EnvNotArray
| IE_Read (detail : string)
| IE_Json (detail : string)
| IE_Io (detail : string).

(** ** The environment file *)

Definition quote : Z := 39.
Definition backslash : Z := 92.
Definition newline : Z := 10.

(** The loop over a value's characters. *)
Definition quote_chars (value : str) : str :=
  value ≫= (fun c => if c =? quote then [quote; backslash; quote; quote] else [c]).

(** The line of one credential. *)
Definition render_line (name value : str) : str :=
  name ++ [61; quote] ++ quote_chars value ++ [quote; newline].

Fixpoint render_env_file (creds : list (str * bytes)) : result str InjectError :=
  match creds with
  | [] => Ok []
  | (name, value_bytes) :: creds =>
      if negb (is_valid_env_name name) then Err (IE_Name name)
      else
        let? value := ok_or (from_utf8 value_bytes) (IE_NotUtf8 name) in
        if contains_char value newline || contains_char value 13 then Err (IE_Newline name)
        else
          let? body := render_env_file creds in
          Ok (render_line name value ++ body)
  end.

(** A file and its permission bits. *)
Record File : Type := mkFile { f_content : bytes; f_mode : Z }.

Abbreviation Fs := (gmap (list Z) File).

(** Permissions of a file [tokio::fs::write] creates, under the usual umask. *)
Definition DEFAULT_FILE_MODE : Z := 420.

(** What [tokio::fs::write] leaves: the permissions of an existing file stay. *)
Definition write_file (path content : bytes) (fs : Fs) : Fs :=
  <[path := mkFile content (from_option f_mode DEFAULT_FILE_MODE (fs !! path))]> fs.

(** How the file operations end: creating the parent directory, writing (with
    what a failed write leaves of the content), and changing the mode. *)
Record IoFate : Type := mkIo {
  io_mkdir : option string;
  io_write : option (string * option bytes);
  io_chmod : option string;
}.

Definition io_succeeds : IoFate := mkIo None None None.

(** The path's components: [Path::parent] is [Some] of a non-empty path when
    one remains after the last is dropped, or the root. *)
Definition path_components (path : bytes) : list bytes :=
  match split_on 47 path with
  | [] => []
  | first :: rest =>
      (if bool_decide (first = []) then [] else [first])
      ++ filter (fun c => c <> [] /\ c <> [46]) rest
  end.

Definition has_parent_dir (path : bytes) : bool :=
  let n := length (path_components path) in
  if starts_with path 47 then (1 <=? n)%nat else (2 <=? n)%nat.

Definition run_write (io : IoFate) (path content : bytes) (fs : Fs)
    : result unit InjectError * Fs :=
  match io_write io with
  | Some (e, rest) => (Err (IE_Io e), from_option (fun c => write_file path c fs) fs rest)
  | None => (Ok tt, write_file path content fs)
  end.

Definition write_env_file (io : IoFate) (env_file : bytes) (creds : list (str * bytes)) (fs : Fs)
    : result unit InjectError * Fs :=
  match render_env_file creds with
  | Err e => (Err e, fs)
  | Ok body =>
      match (if has_parent_dir env_file then io_mkdir io else None) with
      | Some e => (Err (IE_Io e), fs)
      | None =>
          match run_write io env_file (as_bytes body) fs with
          | (Err e, fs) => (Err e, fs)
          | (Ok _, fs) =>
              match io_chmod io with
              | Some e => (Err (IE_Io e), fs)
              | None =>
                  (Ok tt, alter (fun f => mkFile (f_content f) 384) env_file fs)
              end
          end
      end
  end.

(** ** The workload's environment *)

(** The update of one entry: the first string that starts with [prefix] is
    replaced, and otherwise the entry is pushed. *)
Fixpoint set_env_entry (prefix new_entry : str) (env : list Value) : list Value :=
  match env with
  | [] => [VString new_entry]
  | slot :: env =>
      match as_str slot with
      | Some s =>
          if str_starts_with s prefix then VString new_entry :: env
          else slot :: set_env_entry prefix new_entry env
      | None => slot :: set_env_entry prefix new_entry env
      end
  end.

(** The loop over the secrets. *)
Fixpoint merge_secrets (secrets : list (str * bytes)) (env : list Value)
    : result (list Value) InjectError :=
  match secrets with
  | [] => Ok env
  | (name, value_bytes) :: secrets =>
      if negb (is_valid_env_name name) then Err (IE_Name name)
      else if is_forbidden_env_name name then Err (IE_Forbidden name)
      else
        let? value := ok_or (from_utf8 value_bytes) (IE_NotUtf8 name) in
        if contains_char value newline || contains_char value 13 || contains_char value 0
        then Err (IE_Newline name)
        else merge_secrets secrets (set_env_entry (name ++ [61]) (name ++ [61] ++ value) env)
  end.

(** A JSON object is its fields in the order of their keys: replacing the value
    of a present key, and inserting an absent one at its place. *)
Fixpoint replace_field (key : str) (v : Value) (fields : list (str * Value))
    : list (str * Value) :=
  match fields with
  | [] => []
  | (k, w) :: rest =>
      if bool_decide (k = key) then (k, v) :: rest else (k, w) :: replace_field key v rest
  end.

Fixpoint insert_field (key : str) (v : Value) (fields : list (str * Value))
    : list (str * Value) :=
  match fields with
  | [] => [(key, v)]
  | (k, w) :: rest =>
      match List.list_compare Z.compare key k with
      | Lt => (key, v) :: fields
      | _ => (k, w) :: insert_field key v rest
      end
  end.

(** [get_mut] and [entry], seen from what is stored back. *)
Definition set_field (key : str) (v : Value) (fields : list (str * Value))
    : list (str * Value) :=
  if bool_decide (key ∈ fields.*1) then replace_field key v fields
  else insert_field key v fields.

Definition as_array (v : Value) : option (list Value) :=
  match v with VArray l => Some l | _ => None end.

Definition merge_env_into_config (config : Value) (secrets : list (str * bytes))
    : result Value InjectError :=
  let? obj := ok_or (as_object config) IE_Root in
  let? process := ok_or (vget config "process") IE_NoProcess in
  let? fields := ok_or (as_object process) IE_ProcessNotObject in
  let? env := ok_or (as_array (default (VArray []) (vget process "env"))) IE_EnvNotArray in
  let? env := merge_secrets secrets env in
  Ok (VObject (set_field (lit "process")
        (VObject (set_field (lit "env") (VArray env) fields)) obj)).

(** [PathBuf::join] of a relative path. *)
Definition path_join (base name : bytes) : bytes :=
  if bool_decide (base = []) || ends_with base 47 then base ++ name else base ++ [47] ++ name.

Section Main.
(** serde_json and ciborium. *)
Context (from_slice : bytes -> result Value string)
        (to_vec_pretty : Value -> result bytes string)
        (decode : bytes -> result (list (str * bytes)) string).

Definition inject_into_bundle (io : IoFate) (bundle : bytes) (secrets : list (str * bytes))
    (fs : Fs) : result unit InjectError * Fs :=
  let config_path := path_join bundle (lit "config.json") in
  match
    (let? raw := ok_or (f_content <$> fs !! config_path) (IE_Read "reading config.json") in
     let? config := map_err IE_Json (from_slice raw) in
     let? config := merge_env_into_config config secrets in
     map_err IE_Json (to_vec_pretty config))
  with
  | Err e => (Err e, fs)
  | Ok serialized => run_write io config_path serialized fs
  end.

(** The exit status of [main], the files it leaves, and what it sent. *)
Definition main (io : IoFate) (args : list bytes) (conn : Z -> result bytes string) (fs : Fs)
    : Z * Fs * bytes :=
  match parse_argv args with
  | Err _ => (2, fs, [])
  | Ok mode =>
      match fetch_payload decode (conn (host_port mode)) with
      | (Err _, sent) => (1, fs, sent)
      | (Ok payload, sent) =>
          match mode with
          | WorkloadSecrets bundle =>
              if bool_decide (payload = []) then (0, fs, sent)
              else match inject_into_bundle io bundle payload fs with
                   | (Ok _, fs) => (0, fs, sent)
                   | (Err _, fs) => (1, fs, sent)
                   end
          | AwsCreds env_file =>
              match write_env_file io env_file payload fs with
              | (Ok _, fs) => (0, fs, sent)
              | (Err _, fs) => (1, fs, sent)
              end
          end
      end
  end.
End Main.

(** ** The synchronizer's names *)

Module Names.
Definition NAMES_HOST_PORT : Z := 5011.
Definition NAMES_MAX_PAYLOAD_BYTES : Z := 64 * 1024.

(** [parse_argv], on the whole argument vector. *)
Definition names_parse_argv (args : list bytes) : option bytes :=
  match args with
  | [_; out] => Some out
  | _ => None
  end.

Definition fetch_names (conn : result bytes string) : result bytes FetchError * bytes :=
  match conn with
  | Err e => (Err (FE_Connect e), [])
  | Ok stream =>
      if (length stream <? 4)%nat then (Err FE_LengthPrefix, [])
      else
        let len := be_decode (take 4 stream) in
        if len =? 0 then (Err FE_ZeroLength, [])
        else if NAMES_MAX_PAYLOAD_BYTES <? len then (Err (FE_TooLarge len), [])
        else
          let rest := drop 4 stream in
          if Z.of_nat (length rest) <? len then (Err FE_Payload, [])
          else (Ok (take (Z.to_nat len) rest), [ACK_BYTE])
  end.

Definition names_main (io : IoFate) (args : list bytes) (conn : Z -> result bytes string) (fs : Fs)
    : Z * Fs * bytes :=
  match names_parse_argv args with
  | None => (2, fs, [])
  | Some out =>
      match fetch_names (conn NAMES_HOST_PORT) with
      | (Err _, sent) => (1, fs, sent)
      | (Ok payload, sent) =>
          match run_write io out payload fs with
          | (Ok _, fs) => (0, fs, sent)
          | (Err _, fs) => (1, fs, sent)
          end
      end
  end.
End Names.

(** ** The reading side: a POSIX shell and the C library *)

(** The state of the shell's reader inside a simple command that may still be
    a literal assignment. *)
Inductive ShState : Type :=
| Sh_Start
| Sh_Name (name : bytes)
| Sh_Word (name value : bytes)
| Sh_Quoted (name value : bytes)
| Sh_Escaped (name value : bytes).

(** Unquoted bytes that stand for themselves anywhere in an assignment. *)
Definition sh_plain (b : Z) : bool :=
  is_ascii_alphanumeric b || (b =? 95) || (b =? 45) || (b =? 46) || (b =? 47) || (128 <=? b).

(** Sourcing a script: the assignments it performs, in order, when every line
    is one assignment of a literal, and [None] as soon as a byte could mean
    anything else (an expansion, a separator, a redirection, a command word).
    Inside quotes every byte but the quote is literal, the NUL included; what a
    shell then keeps of a literal with a NUL is left open ([sh_assigns]). *)
Fixpoint sh_source_from (st : ShState) (script : bytes) : option (list (bytes * bytes)) :=
  match script with
  | [] => match st with
          | Sh_Start => Some []
          | Sh_Word n v => Some [(n, v)]
          | _ => None
          end
  | b :: script =>
      match st with
      | Sh_Start =>
          if is_ascii_alphabetic b || (b =? 95) then sh_source_from (Sh_Name [b]) script
          else if b =? newline then sh_source_from Sh_Start script
          else None
      | Sh_Name n =>
          if is_ascii_alphanumeric b || (b =? 95) then sh_source_from (Sh_Name (n ++ [b])) script
          else if b =? 61 then sh_source_from (Sh_Word n []) script
          else None
      | Sh_Word n v =>
          if b =? quote then sh_source_from (Sh_Quoted n v) script
          else if b =? backslash then sh_source_from (Sh_Escaped n v) script
          else if b =? newline then cons (n, v) <$> sh_source_from Sh_Start script
          else if sh_plain b then sh_source_from (Sh_Word n (v ++ [b])) script
          else None
      | Sh_Quoted n v =>
          if b =? quote then sh_source_from (Sh_Word n v) script
          else sh_source_from (Sh_Quoted n (v ++ [b])) script
      | Sh_Escaped n v =>
          if (b =? newline) || (b =? 0) then None
          else sh_source_from (Sh_Word n (v ++ [b])) script
      end
  end.

Definition sh_source (script : bytes) : option (list (bytes * bytes)) :=
  sh_source_from Sh_Start script.

(** The assignments of a shell that keeps [store v] of the literal [v]. *)
Definition sh_assigns (store : bytes -> bytes) (script : bytes) : option (list (bytes * bytes)) :=
  map (fun a => (a.1, store a.2)) <$> sh_source script.

(** [getenv] over the entries the runtime hands to the workload: the first
    entry that starts with the name and an equals sign. *)
Fixpoint getenv (env : list Value) (name : str) : option str :=
  match env with
  | [] => None
  | v :: env =>
      match as_str v ≫= strip_prefix (name ++ [61]) with
      | Some value => Some value
      | None => getenv env name
      end
  end.

(** The environment of a bundle's configuration. *)
Definition config_env (config : Value) : list Value :=
  default [] (vget config "process" ≫= fun p => vget p "env" ≫= as_array).

(** The value of a name in the pulled map. *)
Definition secret_of (secrets : list (str * bytes)) (name : str) : option bytes :=
  snd <$> List.find (fun s => bool_decide (s.1 = name)) secrets.

(** ** UTF-8 *)

Lemma as_bytes_app s1 s2 : as_bytes (s1 ++ s2) = as_bytes s1 ++ as_bytes s2.
Proof. apply bind_app. Qed.

Lemma as_bytes_cons c s : as_bytes (c :: s) = encode_utf8 c ++ as_bytes s.
Proof. done. Qed.

Lemma encode_utf8_ascii c : c < 128 -> encode_utf8 c = [c].
Proof. intros Hc. unfold encode_utf8. case_match; [done|lia]. Qed.

Lemma as_bytes_ascii s : Forall (fun c => c < 128) s -> as_bytes s = s.
Proof.
  induction 1 as [|c s Hc _ IH]; [done|]. by rewrite as_bytes_cons, encode_utf8_ascii, IH.
Qed.

Lemma encode_utf8_2 b0 b1 :
  194 <= b0 < 224 -> 128 <= b1 < 192 -> encode_utf8 ((b0 - 192) * 64 + (b1 - 128)) = [b0; b1].
Proof.
  intros. unfold encode_utf8. repeat (case_match; [lia|]). case_match; [|lia].
  repeat f_equal; Z.to_euclidean_division_equations; lia.
Qed.

Lemma encode_utf8_3 b0 b1 b2 c :
  224 <= b0 < 240 -> 128 <= b1 < 192 -> 128 <= b2 < 192 ->
  c = (b0 - 224) * 4096 + (b1 - 128) * 64 + (b2 - 128) -> 2048 <= c ->
  encode_utf8 c = [b0; b1; b2].
Proof.
  intros. unfold encode_utf8. do 2 (case_match; [lia|]). case_match; [|lia].
  repeat f_equal; Z.to_euclidean_division_equations; lia.
Qed.

Lemma encode_utf8_4 b0 b1 b2 b3 c :
  240 <= b0 < 245 -> 128 <= b1 < 192 -> 128 <= b2 < 192 -> 128 <= b3 < 192 ->
  c = (b0 - 240) * 262144 + (b1 - 128) * 4096 + (b2 - 128) * 64 + (b3 - 128) -> 65536 <= c ->
  encode_utf8 c = [b0; b1; b2; b3].
Proof.
  intros. unfold encode_utf8. do 3 (case_match; [lia|]).
  repeat f_equal; Z.to_euclidean_division_equations; lia.
Qed.

(** Decoding strictly and encoding again gives the bytes back. *)
Lemma from_utf8_as_bytes l s : from_utf8 l = Some s -> as_bytes s = l.
Proof.
  enough (forall n l s, (length l <= n)%nat -> from_utf8 l = Some s -> as_bytes s = l) by eauto.
  clear. intros n. induction n as [|n IH]; intros l s Hn Hl.
  { destruct l; simpl in Hn; [|lia]. by injection Hl as <-. }
  assert (Hstep : forall c r, (length r <= n)%nat -> cons c <$> from_utf8 r = Some s ->
            as_bytes s = encode_utf8 c ++ r).
  { intros c r Hr Hs. apply fmap_Some in Hs as (s' & Hs & ->).
    by rewrite as_bytes_cons, (IH r s'). }
  destruct l as [|b0 r0]; [by injection Hl as <-|].
  cbn [from_utf8] in Hl. simpl in Hn. unfold is_continuation in Hl.
  destruct (b0 <? 128) eqn:H0.
  { rewrite (Hstep b0 r0), encode_utf8_ascii by (done || lia). done. }
  destruct r0 as [|b1 r1]; [done|]. case_match eqn:H1; [done|]. simpl in Hn.
  case_match eqn:H2.
  { erewrite (Hstep _ r1), encode_utf8_2 by (done || lia). done. }
  destruct r1 as [|b2 r2]; [done|]. case_match eqn:H3; [done|]. simpl in Hn.
  case_match eqn:H4.
  { case_match eqn:H5; [done|].
    erewrite (Hstep _ r2) by (done || lia). rewrite (encode_utf8_3 b0 b1 b2) by (reflexivity || lia). done. }
  destruct r2 as [|b3 r3]; [done|]. case_match eqn:H5; [done|]. simpl in Hn.
  erewrite (Hstep _ r3) by (done || lia). by rewrite (encode_utf8_4 b0 b1 b2 b3) by (reflexivity || lia).
Qed.

(** The bytes of a character outside ASCII are not ASCII. *)
Lemma encode_utf8_high c : 128 <= c -> Forall (fun b => 128 <= b) (encode_utf8 c).
Proof.
  intros Hc. unfold encode_utf8.
  repeat case_match; try lia; repeat constructor; Z.to_euclidean_division_equations; lia.
Qed.

(** ** The environment file is read as written *)

Lemma valid_env_name_ascii name :
  is_valid_env_name name = true -> Forall (fun c => c < 128) name.
Proof.
  destruct name as [|c name]; [done|]. cbn [is_valid_env_name].
  unfold is_ascii_alphabetic, is_ascii_alphanumeric, is_upper, is_lower, is_digit.
  intros [Hc Hn]%andb_true_iff. constructor; [lia|].
  apply Forall_forall. intros d Hd. rewrite forallb_forall in Hn.
  specialize (Hn d (proj1 (list_elem_of_In _ _) Hd)). lia.
Qed.

(** Quoting commutes with the encoding: no byte of a longer sequence is a quote. *)
Lemma as_bytes_quote_chars s : as_bytes (quote_chars s) = quote_chars (as_bytes s).
Proof.
  unfold quote_chars. induction s as [|c s IH]; [done|].
  rewrite as_bytes_cons, bind_app, <- IH. cbn [mbind list_bind]. rewrite as_bytes_app. f_equal.
  destruct (Z.ltb_spec c 128).
  { rewrite (encode_utf8_ascii c) by done. cbn [mbind list_bind]. rewrite app_nil_r.
    case_match; [done|]. by rewrite as_bytes_cons, encode_utf8_ascii. }
  case_match eqn:Hq; [unfold quote in Hq; lia|]. rewrite as_bytes_cons, app_nil_r.
  pose proof (encode_utf8_high c ltac:(lia)) as Hh.
  induction Hh as [|b l Hb _ IHl]; [done|]. cbn [mbind list_bind]. rewrite <- IHl.
  unfold quote. case_match; [lia|done].
Qed.

(** Inside quotes every byte is taken as it is. *)
Lemma sh_quoted_chars n bs v rest :
  sh_source_from (Sh_Quoted n v) (quote_chars bs ++ rest) =
  sh_source_from (Sh_Quoted n (v ++ bs)) rest.
Proof.
  revert v. induction bs as [|b bs IH]; intros v; [by rewrite app_nil_r|].
  change (b :: bs) with ([b] ++ bs).
  unfold quote_chars. rewrite bind_app. fold (quote_chars bs). cbn [mbind list_bind].
  rewrite (app_assoc v), <- IH. destruct (b =? quote) eqn:Hq.
  - apply Z.eqb_eq in Hq as ->. done.
  - cbn [app sh_source_from]. by rewrite Hq.
Qed.

Lemma sh_name_chars n name rest :
  forallb (fun c => is_ascii_alphanumeric c || (c =? 95)) name = true ->
  sh_source_from (Sh_Name n) (name ++ rest) = sh_source_from (Sh_Name (n ++ name)) rest.
Proof.
  revert n. induction name as [|c name IH]; intros n Hn; [by rewrite app_nil_r|].
  cbn [forallb] in Hn. apply andb_true_iff in Hn as [Hc Hn].
  cbn [app sh_source_from]. rewrite Hc, IH by done. by rewrite <- app_assoc.
Qed.

(** One rendered line is one assignment of the value. *)
Lemma sh_source_line name value rest :
  is_valid_env_name name = true ->
  sh_source (name ++ [61; quote] ++ quote_chars value ++ [quote; newline] ++ rest) =
  cons (name, value) <$> sh_source rest.
Proof.
  destruct name as [|c name]; [done|]. cbn [is_valid_env_name].
  intros [Hc Hn]%andb_true_iff. unfold sh_source.
  cbn [app]. cbn [sh_source_from]. rewrite Hc, sh_name_chars by done. cbn [sh_source_from app].
  change (is_ascii_alphanumeric 61 || (61 =? 95)) with false. cbn [Z.eqb Pos.eqb quote].
  by rewrite sh_quoted_chars.
Qed.

(** What rendering accepts. *)
Definition renderable (cred : str * bytes) : Prop :=
  is_valid_env_name cred.1 = true /\
  exists value, from_utf8 cred.2 = Some value /\
    contains_char value newline = false /\ contains_char value 13 = false.

Lemma render_env_file_accepts creds :
  (exists body, render_env_file creds = Ok body) <-> Forall renderable creds.
Proof.
  induction creds as [|[name vb] creds IH]; cbn [render_env_file]; [split; eauto|].
  rewrite Forall_cons, <- IH. unfold renderable. cbn [fst snd].
  destruct (is_valid_env_name name); cbn [negb];
    [|split; [intros [? [=]]|intros [[[=] _] _]]].
  destruct (from_utf8 vb) as [value|] eqn:Hu; cbn [ok_or];
    [|split; [intros [? [=]]|intros [(_ & ? & [=] & _) _]]].
  destruct (contains_char value newline || contains_char value 13) eqn:Hc.
  { split; [intros [? [=]]|]. intros [(_ & v & [= <-] & Ha & Hb) _]. by rewrite Ha, Hb in Hc. }
  apply orb_false_iff in Hc as [Ha Hb].
  destruct (render_env_file creds) as [body|]; (split; [intros [? ?]|intros [_ [? ?]]]); eauto 8; done.
Qed.

(** What the written file means to the shell. *)
Lemma render_env_file_sourced creds body :
  render_env_file creds = Ok body -> sh_source (as_bytes body) = Some creds.
Proof.
  revert body. induction creds as [|[name vb] creds IH]; intros body Hr;
    cbn [render_env_file] in Hr; [by injection Hr as <-|].
  destruct (is_valid_env_name name) eqn:Hn; [|done]. cbn [negb] in Hr.
  destruct (from_utf8 vb) as [value|] eqn:Hu; [|done]. cbn [ok_or] in Hr.
  case_match; [done|]. destruct (render_env_file creds) as [rest|] eqn:Hrest; [|done].
  injection Hr as <-.
  unfold render_line. rewrite !as_bytes_app, (as_bytes_ascii name) by by apply valid_env_name_ascii.
  rewrite as_bytes_quote_chars, (from_utf8_as_bytes vb value) by done.
  rewrite <- !app_assoc. change (as_bytes [61; quote]) with [61; quote].
  change (as_bytes [quote; newline]) with [quote; newline].
  rewrite sh_source_line by done. by rewrite IH.
Qed.

(** ** The merge is a map update *)

Lemma strip_prefix_app p s : strip_prefix p (p ++ s) = Some s.
Proof. unfold strip_prefix. rewrite take_app_length, drop_app_length. by case_bool_decide. Qed.

Lemma strip_prefix_iff p s r : strip_prefix p s = Some r <-> s = p ++ r.
Proof.
  split; [|intros ->; apply strip_prefix_app].
  unfold strip_prefix. case_bool_decide as Hp; [|done]. intros [= <-].
  rewrite <- Hp at 1. by rewrite take_drop.
Qed.

Lemma str_starts_with_spec s p : str_starts_with s p = bool_decide (is_Some (strip_prefix p s)).
Proof.
  unfold str_starts_with, strip_prefix. case_bool_decide; by rewrite ?bool_decide_eq_true_2, ?bool_decide_eq_false_2 by (eauto || by intros [? ?]).
Qed.

(** Two names that both precede an equals sign of one entry are the same. *)
Lemma env_entry_name n1 n2 v1 v2 :
  61 ∉ n1 -> 61 ∉ n2 -> n1 ++ 61 :: v1 = n2 ++ 61 :: v2 -> n1 = n2 /\ v1 = v2.
Proof.
  revert n2. induction n1 as [|c n1 IH]; intros [|d n2] H1 H2 Heq; simplify_eq/=; try set_solver.
  destruct (IH n2) as [-> ->]; set_solver.
Qed.

Lemma strip_other k n v :
  61 ∉ k -> 61 ∉ n -> n <> k -> strip_prefix (n ++ [61]) (k ++ [61] ++ v) = None.
Proof.
  intros Hk Hn Hnk. destruct (strip_prefix _ _) as [r|] eqn:Hs; [|done].
  apply strip_prefix_iff in Hs. rewrite <- app_assoc in Hs.
  by destruct (env_entry_name k n v r) as [? _].
Qed.

Lemma getenv_set_env_entry env k v n :
  61 ∉ k -> 61 ∉ n ->
  getenv (set_env_entry (k ++ [61]) (k ++ [61] ++ v) env) n =
  if bool_decide (n = k) then Some v else getenv env n.
Proof.
  intros Hk Hn. assert (Hpush : strip_prefix (n ++ [61]) (k ++ [61] ++ v) =
    if bool_decide (n = k) then Some v else None).
  { case_bool_decide as Hnk; [subst|by apply strip_other].
    rewrite app_assoc. apply strip_prefix_app. }
  induction env as [|slot env IH]; cbn [set_env_entry getenv as_str mbind option_bind].
  { rewrite Hpush. by case_bool_decide. }
  destruct (as_str slot) as [s|] eqn:Hs; cbn [mbind option_bind].
  2:{ cbn [getenv]. rewrite Hs. exact IH. }
  rewrite str_starts_with_spec. case (bool_decide_reflect (is_Some (strip_prefix (k ++ [61]) s)));
    intros Hp; cbn [getenv as_str mbind option_bind].
  - rewrite Hpush. case_bool_decide as Hnk; [done|].
    destruct Hp as [r Hr%strip_prefix_iff]. rewrite Hr, <- app_assoc.
    by rewrite strip_other.
  - rewrite Hs. cbn [mbind option_bind]. destruct (strip_prefix (n ++ [61]) s) as [r|] eqn:Hr; [|exact IH].
    rewrite bool_decide_eq_false_2; [done|]. intros ->. by destruct Hp.
Qed.

Lemma valid_env_name_no_equals name : is_valid_env_name name = true -> 61 ∉ name.
Proof.
  destruct name as [|c name]; [done|]. cbn [is_valid_env_name].
  unfold is_ascii_alphabetic, is_ascii_alphanumeric, is_upper, is_lower, is_digit.
  intros [Hc Hn]%andb_true_iff [?|Hin]%elem_of_cons; [subst; done|].
  rewrite forallb_forall in Hn. by specialize (Hn 61 (proj1 (list_elem_of_In _ _) Hin)).
Qed.

(** What the merge accepts. *)
Definition injectable (secret : str * bytes) : Prop :=
  is_valid_env_name secret.1 = true /\ is_forbidden_env_name secret.1 = false /\
  exists value, from_utf8 secret.2 = Some value /\ contains_char value newline = false /\
    contains_char value 13 = false /\ contains_char value 0 = false.

Lemma merge_secrets_inv name vb secrets env env' :
  merge_secrets ((name, vb) :: secrets) env = Ok env' ->
  injectable (name, vb) /\
  exists value, from_utf8 vb = Some value /\
    merge_secrets secrets (set_env_entry (name ++ [61]) (name ++ [61] ++ value) env) = Ok env'.
Proof.
  cbn [merge_secrets]. unfold injectable. cbn [fst snd]. intros Hm.
  destruct (is_valid_env_name name); [|done]. cbn [negb] in Hm.
  destruct (is_forbidden_env_name name); [done|].
  destruct (from_utf8 vb) as [value|]; [|done]. cbn [ok_or] in Hm.
  destruct (contains_char value newline || contains_char value 13 || contains_char value 0) eqn:Hc; [done|].
  rewrite !orb_false_iff in Hc. naive_solver.
Qed.

Lemma secret_of_cons k v secrets n :
  secret_of ((k, v) :: secrets) n = if bool_decide (n = k) then Some v else secret_of secrets n.
Proof.
  unfold secret_of. cbn [List.find fst]. case_bool_decide as H1; case_bool_decide as H2; naive_solver.
Qed.

Lemma secret_of_None secrets n : secret_of secrets n = None <-> n ∉ secrets.*1.
Proof.
  induction secrets as [|[k v] secrets IH]; [set_solver|].
  rewrite secret_of_cons. cbn. case_bool_decide; set_solver.
Qed.

Lemma merge_secrets_getenv secrets env env' n :
  merge_secrets secrets env = Ok env' -> NoDup secrets.*1 -> 61 ∉ n ->
  getenv env' n = match secret_of secrets n with
                  | Some v => from_utf8 v
                  | None => getenv env n
                  end.
Proof.
  revert env. induction secrets as [|[k vb] secrets IH]; intros env Hm Hnd Hn.
  { by injection Hm as <-. }
  apply merge_secrets_inv in Hm as ((Hk & _) & value & Hu & Hm). cbn [fst] in Hk.
  cbn in Hnd. apply NoDup_cons in Hnd as [Hnotin Hnd].
  rewrite (IH _ Hm Hnd Hn), secret_of_cons, getenv_set_env_entry by (done || by apply valid_env_name_no_equals).
  case_bool_decide as Hnk; [subst|by case_match].
  by rewrite (proj2 (secret_of_None _ _)) by done.
Qed.

Lemma merge_secrets_injectable secrets env env' :
  merge_secrets secrets env = Ok env' -> Forall injectable secrets.
Proof.
  revert env. induction secrets as [|[k vb] secrets IH]; intros env Hm; [done|].
  apply merge_secrets_inv in Hm as (Hi & value & _ & Hm). constructor; eauto.
Qed.

Lemma merge_secrets_accepts secrets env :
  Forall injectable secrets -> exists env', merge_secrets secrets env = Ok env'.
Proof.
  intros Hi. revert env. induction Hi as [|[k vb] secrets Hk _ IH]; intros env; [by eexists|].
  destruct Hk as (H1 & H2 & value & H3 & H4 & H5 & H6). cbn [fst snd] in *.
  cbn [merge_secrets]. rewrite H1, H2, H3. cbn [negb ok_or]. rewrite H4, H5, H6. cbn [orb]. apply IH.
Qed.

Lemma find_replace_field key v fields k :
  key ∈ fields.*1 ->
  List.find (fun f => bool_decide (f.1 = k)) (replace_field key v fields) =
  if bool_decide (k = key) then Some (key, v)
  else List.find (fun f => bool_decide (f.1 = k)) fields.
Proof.
  induction fields as [|[k' w] fields IH]; cbn; [by intros ?%elem_of_nil|].
  intros Hin. destruct (decide (k' = key)) as [->|Hne].
  - rewrite bool_decide_eq_true_2 by done. cbn.
    destruct (decide (k = key)) as [->|]; [by rewrite !bool_decide_eq_true_2|].
    by rewrite !bool_decide_eq_false_2 by congruence.
  - rewrite (bool_decide_eq_false_2 (k' = key)) by done. cbn.
    destruct (decide (k' = k)) as [->|]; [by rewrite bool_decide_eq_true_2, bool_decide_eq_false_2|].
    rewrite (bool_decide_eq_false_2 (k' = k)) by done. apply IH. set_solver.
Qed.

Lemma find_insert_field key v fields k :
  key ∉ fields.*1 ->
  List.find (fun f => bool_decide (f.1 = k)) (insert_field key v fields) =
  if bool_decide (k = key) then Some (key, v)
  else List.find (fun f => bool_decide (f.1 = k)) fields.
Proof.
  assert (Hnew : forall l, List.find (fun f : str * Value => bool_decide (f.1 = k)) ((key, v) :: l) =
    if bool_decide (k = key) then Some (key, v) else List.find (fun f => bool_decide (f.1 = k)) l).
  { intros l. cbn. destruct (decide (k = key)) as [->|]; [by rewrite !bool_decide_eq_true_2|].
    by rewrite !bool_decide_eq_false_2 by congruence. }
  induction fields as [|[k' w] fields IH]; cbn [insert_field]; [by rewrite Hnew|].
  cbn [fmap list_fmap fst]. intros [Hne Hin]%not_elem_of_cons.
  assert (Hold : forall l, List.find (fun f : str * Value => bool_decide (f.1 = k)) l =
      (if bool_decide (k = key) then Some (key, v)
       else List.find (fun f => bool_decide (f.1 = k)) fields) ->
    List.find (fun f : str * Value => bool_decide (f.1 = k)) ((k', w) :: l) =
      if bool_decide (k = key) then Some (key, v)
      else List.find (fun f => bool_decide (f.1 = k)) ((k', w) :: fields)).
  { intros l Hl. cbn. rewrite Hl. destruct (decide (k' = k)) as [->|];
      [by rewrite bool_decide_eq_true_2, bool_decide_eq_false_2|].
    by rewrite (bool_decide_eq_false_2 (k' = k)). }
  destruct (List.list_compare Z.compare key k'); [apply Hold, IH, Hin|apply Hnew|apply Hold, IH, Hin].
Qed.

(** Storing a field and reading any. *)
Lemma vget_set_field (key k : string) v fields :
  vget (VObject (set_field (lit key) v fields)) k =
  if bool_decide (lit k = lit key) then Some v else vget (VObject fields) k.
Proof.
  unfold vget, set_field. case (bool_decide_reflect (lit key ∈ fields.*1)); intros Hin.
  - rewrite find_replace_field by done. by case_match.
  - rewrite find_insert_field by done. by case_match.
Qed.

(** What a merged configuration is. *)
Lemma merge_config_inv config secrets config' :
  merge_env_into_config config secrets = Ok config' ->
  exists obj fields env, config = VObject obj /\
    vget config "process" = Some (VObject fields) /\
    merge_secrets secrets (config_env config) = Ok env /\
    config' = VObject (set_field (lit "process")
                (VObject (set_field (lit "env") (VArray env) fields)) obj).
Proof.
  unfold merge_env_into_config, config_env. intros Hm.
  destruct config as [| |obj|]; try done. cbn [as_object ok_or] in Hm.
  destruct (vget (VObject obj) "process") as [process|] eqn:Hp; [|done]. cbn [ok_or] in Hm.
  destruct process as [| |fields|]; try done. cbn [as_object ok_or] in Hm.
  destruct (vget (VObject fields) "env") as [e|] eqn:He; unfold default, id in Hm.
  - destruct (as_array e) as [env|] eqn:Ha; [|done]. cbn [ok_or] in Hm.
    destruct (merge_secrets secrets env) as [env'|] eqn:Hs; [|done]. injection Hm as <-.
    exists obj, fields, env'. split_and!; try done. cbn [mbind option_bind].
    rewrite He. cbn [mbind option_bind]. by rewrite Ha.
  - cbn [as_array ok_or] in Hm.
    destruct (merge_secrets secrets []) as [env'|] eqn:Hs; [|done]. injection Hm as <-.
    exists obj, fields, env'. split_and!; try done. cbn [mbind option_bind]. by rewrite He.
Qed.

(** Injecting the host's secrets updates the workload's environment at
    exactly the names of the secrets and changes nothing else of the bundle:
    every secret has a valid name that is not one of the loader, interpreter
    and proxy variables, in any case; a program that looks a name up finds the
    secret's value when the map has one and what the image declared when it has
    none; and every other field of the configuration and of [process] is as it
    was. *)
Theorem workload_env_is_updated_exactly (config config' : Value) (secrets : list (str * bytes)) :
  merge_env_into_config config secrets = Ok config' ->
  NoDup secrets.*1 ->
  Forall (fun s => is_valid_env_name s.1 = true /\ is_forbidden_env_name s.1 = false) secrets /\
  (forall name, 61 ∉ name ->
     getenv (config_env config') name =
     match secret_of secrets name with
     | Some v => from_utf8 v
     | None => getenv (config_env config) name
     end) /\
  (forall key : string, lit key <> lit "process" -> vget config' key = vget config key) /\
  (forall key : string, lit key <> lit "env" ->
     (vget config' "process" ≫= fun p => vget p key) =
     (vget config "process" ≫= fun p => vget p key)).
Proof.
  intros Hm Hnd. apply merge_config_inv in Hm as (obj & fields & env & -> & Hp & Hs & ->).
  split; [|split; [|split]].
  - eapply Forall_impl; [by eapply merge_secrets_injectable|]. intros s Hi. split; apply Hi.
  - intros name Hn. rewrite <- (merge_secrets_getenv _ _ _ _ Hs Hnd Hn). f_equal.
    unfold config_env. rewrite vget_set_field, bool_decide_eq_true_2 by done.
    cbn [mbind option_bind]. by rewrite vget_set_field, bool_decide_eq_true_2.
  - intros key Hk. by rewrite vget_set_field, bool_decide_eq_false_2.
  - intros key Hk. rewrite vget_set_field, bool_decide_eq_true_2, Hp by done.
    cbn [mbind option_bind]. by rewrite vget_set_field, bool_decide_eq_false_2.
Qed.

(** Writing the environment file touches that file alone. *)
Lemma write_env_file_inv io env_file creds fs fs' :
  write_env_file io env_file creds fs = (Ok tt, fs') ->
  exists body, render_env_file creds = Ok body /\
    fs' = <[env_file := mkFile (as_bytes body) 384]> fs.
Proof.
  unfold write_env_file, run_write, write_file. intros Hw.
  destruct (render_env_file creds) as [body|]; [|done]. exists body. split; [done|].
  case_match; [done|]. destruct (io_write io) as [[]|]; [done|].
  destruct (io_chmod io); [done|]. injection Hw as <-.
  by rewrite alter_insert_eq.
Qed.

Lemma store_map_id (store : bytes -> bytes) (creds : list (str * bytes)) :
  (forall v, 0 ∉ v -> store v = v) -> Forall (fun c => 0 ∉ c.2) creds ->
  map (fun c => (c.1, store c.2)) creds = creds.
Proof.
  intros Hst. induction 1 as [|[n v] creds Hv _ IH]; [done|]. cbn [map fst snd] in *.
  by rewrite Hst, IH.
Qed.

(** C29: the credentials file is data, never a command.  When the injector of
    the credentials ends with success, the file it leaves is readable by root
    alone, every other file is as it was, and to a shell that sources it the
    file is the list of literal assignments of the host's map, in its order
    and byte for byte, and nothing else, whatever bytes the host chose: quotes,
    expansions, separators and NULs included.  A shell keeps a literal without
    a NUL as it is, so a map without NULs is assigned exactly; for a value with
    a NUL, which the injector accepts, the variable assigned is still the one
    named and no other, and its value is what that shell keeps of the
    literal. *)
Theorem sourcing_the_credentials_runs_nothing
    (from_slice : bytes -> result Value string)
    (to_vec_pretty : Value -> result bytes string)
    (decode : bytes -> result (list (str * bytes)) string) (io : IoFate) (args : list bytes) (conn : Z -> result bytes string) (fs fs' : Fs)
    (sent env_file : bytes) :
  parse_argv args = Ok (AwsCreds env_file) ->
  main from_slice to_vec_pretty decode io args conn fs = (0, fs', sent) ->
  exists creds file,
    fetch_payload decode (conn AWS_CREDS_HOST_PORT) = (Ok creds, sent) /\
    fs' = <[env_file := file]> fs /\ f_mode file = 384 /\
    sh_source (f_content file) = Some creds /\
    forall store : bytes -> bytes, (forall v, 0 ∉ v -> store v = v) ->
      sh_assigns store (f_content file) = Some (map (fun c => (c.1, store c.2)) creds) /\
      (Forall (fun c => 0 ∉ c.2) creds -> sh_assigns store (f_content file) = Some creds).
Proof.
  unfold main. intros -> Hm. cbn [host_port] in Hm.
  destruct (fetch_payload _ _) as [[creds|] sent']; [|done].
  destruct (write_env_file io env_file creds fs) as [[[]|] fs''] eqn:Hw; [|done].
  injection Hm as -> ->. apply write_env_file_inv in Hw as (body & Hr & ->).
  apply render_env_file_sourced in Hr. exists creds, (mkFile (as_bytes body) 384). split_and!; try done.
  intros store Hst. unfold sh_assigns. cbn [f_content]. rewrite Hr. split; [done|]. intros Hz. simpl. by rewrite store_map_id.
Qed.

(** The boot path takes any variable from the host.  Whatever the name, as
    long as it is a shell identifier, and whatever the one-line value, a host
    that serves it makes the boot script assign it; the same pair is refused by
    the running server unless it is one of the four [AWS_*] names it lists.  The
    variables [enclavia-crypto] takes its paths from are not among them. *)
Theorem boot_credentials_are_not_confined
    (from_slice : bytes -> result Value string)
    (to_vec_pretty : Value -> result bytes string)
    (decode : bytes -> result (list (str * bytes)) string) (name : str) (value payload : bytes) (fs : Fs) :
  decode payload = Ok [(name, value)] ->
  0 < Z.of_nat (length payload) <= MAX_PAYLOAD_BYTES ->
  renderable (name, value) ->
  (exists fs' file,
     main from_slice to_vec_pretty decode io_succeeds
       [lit "--mode"; lit "aws-creds"]
       (fun _ => Ok (be_encode 4 (Z.of_nat (length payload)) ++ payload)) fs = (0, fs', [ACK_BYTE]) /\
     fs' !! DEFAULT_AWS_CREDS_ENV_FILE = Some file /\
     sh_source (f_content file) = Some [(name, value)]) /\
  (name ∉ ALLOWED_CREDS_ENV ->
     filter_creds_env [(name, value)] = Err (CR_UnexpectedKey name)).
Proof.
  intros Hd Hlen Hr. unfold MAX_PAYLOAD_BYTES in Hlen. split.
  2:{ intros Hn. cbn [filter_creds_env]. by rewrite bool_decide_eq_false_2. }
  destruct (proj2 (render_env_file_accepts [(name, value)])) as [body Hbody]; [by constructor|].
  set (n := Z.of_nat (length payload)) in *.
  assert (Htake : take 4 (be_encode 4 n ++ payload) = be_encode 4 n) by done.
  assert (Hdrop : drop 4 (be_encode 4 n ++ payload) = payload) by done.
  assert (Hfetch : fetch_payload decode (Ok (be_encode 4 n ++ payload)) = (Ok [(name, value)], [ACK_BYTE])).
  { unfold fetch_payload. rewrite length_app, be_encode_length, Htake, Hdrop.
    rewrite be_decode_encode_id by (change (256 ^ Z.of_nat 4) with (2 ^ 32); lia).
    rewrite (proj2 (Nat.ltb_ge _ _)) by lia. unfold MAX_PAYLOAD_BYTES.
    rewrite !(proj2 (Z.ltb_ge _ _)), (proj2 (Z.eqb_neq _ _)) by lia.
    unfold n. by rewrite Nat2Z.id, firstn_all, Hd. }
  exists (<[DEFAULT_AWS_CREDS_ENV_FILE := mkFile (as_bytes body) 384]> fs), (mkFile (as_bytes body) 384).
  split_and!; [|apply lookup_insert_eq|by apply render_env_file_sourced].
  unfold main. change (parse_argv _) with (@Ok _ ArgError (AwsCreds DEFAULT_AWS_CREDS_ENV_FILE)).
  cbv beta iota. rewrite Hfetch. unfold write_env_file, run_write, write_file. rewrite Hbody.
  cbn [io_succeeds io_mkdir io_write io_chmod]. rewrite alter_insert_eq. by destruct (has_parent_dir _).
Qed.

(** Every step of the injection into a bundle goes through. *)
Definition bundle_accepts (from_slice : bytes -> result Value string)
    (to_vec_pretty : Value -> result bytes string) (fs : Fs) (bundle : bytes)
    (payload : list (str * bytes)) : Prop :=
  exists file config config' out,
    fs !! path_join bundle (lit "config.json") = Some file /\
    from_slice (f_content file) = Ok config /\
    merge_env_into_config config payload = Ok config' /\ to_vec_pretty config' = Ok out.

Lemma inject_into_bundle_cases (from_slice : bytes -> result Value string)
    (to_vec_pretty : Value -> result bytes string) bundle payload fs r fs' :
  inject_into_bundle from_slice to_vec_pretty io_succeeds bundle payload fs = (r, fs') ->
  (r = Ok tt /\ bundle_accepts from_slice to_vec_pretty fs bundle payload) \/
  (exists e, r = Err e /\ fs' = fs /\ ~ bundle_accepts from_slice to_vec_pretty fs bundle payload).
Proof.
  unfold inject_into_bundle, bundle_accepts. intros Hi.
  destruct (fs !! _) as [file|]; cbn [fmap option_fmap option_map ok_or] in Hi;
    [|injection Hi as <- <-; right; eexists; split_and!; [done..|intros (? & ? & ? & ? & ? & ? & ? & ?); congruence]].
  destruct (from_slice (f_content file)) as [config|] eqn:Hc; cbn [map_err] in Hi;
    [|injection Hi as <- <-; right; eexists; split_and!; [done..|intros (? & ? & ? & ? & ? & ? & ? & ?); congruence]].
  destruct (merge_env_into_config config payload) as [config'|] eqn:Hm;
    [|injection Hi as <- <-; right; eexists; split_and!; [done..|intros (? & ? & ? & ? & ? & ? & ? & ?); congruence]].
  destruct (to_vec_pretty config') as [out|] eqn:Ho; cbn [map_err] in Hi.
  - injection Hi as <- <-. left. eauto 10.
  - injection Hi as <- <-. right. eexists. split_and!; [done..|intros (? & ? & ? & ? & ? & ? & ? & ?); congruence].
Qed.

Lemma write_env_file_cases env_file creds fs r fs' :
  write_env_file io_succeeds env_file creds fs = (r, fs') ->
  (r = Ok tt /\ Forall renderable creds) \/
  (exists e, r = Err e /\ fs' = fs /\ ~ Forall renderable creds).
Proof.
  pose proof (render_env_file_accepts creds) as Ha. unfold write_env_file. intros Hw.
  destruct (render_env_file creds) as [body|e].
  - replace (if has_parent_dir env_file then io_mkdir io_succeeds else None) with (@None string) in Hw
      by by destruct (has_parent_dir _). injection Hw as <- <-. left. split; [done|]. apply Ha. eauto.
  - injection Hw as <- <-. right. exists e. split; [done|]. split; [done|].
    intros Hr. by destruct (proj2 Ha Hr).
Qed.

(** A failed boot step changes nothing.  Whatever the arguments, the host's
    stream and the bundle, when the file operations themselves succeed and the
    injector does not exit with 0, every file is as it was; and it exits with 0
    exactly when the arguments parse, the payload is fetched and every entry is
    acceptable to the sink. *)
Theorem failed_injection_changes_nothing
    (from_slice : bytes -> result Value string)
    (to_vec_pretty : Value -> result bytes string)
    (decode : bytes -> result (list (str * bytes)) string)
    (args : list bytes) (conn : Z -> result bytes string) (fs fs' : Fs) (code : Z) (sent : bytes) :
  main from_slice to_vec_pretty decode io_succeeds args conn fs = (code, fs', sent) ->
  (code = 0 \/ fs' = fs) /\
  (code = 0 <-> exists mode payload,
     parse_argv args = Ok mode /\ (fetch_payload decode (conn (host_port mode))).1 = Ok payload /\
     match mode with
     | AwsCreds _ => Forall renderable payload
     | WorkloadSecrets bundle =>
         payload = [] \/ bundle_accepts from_slice to_vec_pretty fs bundle payload
     end).
Proof.
  unfold main. intros Hm.
  destruct (parse_argv args) as [mode|] eqn:Hargs.
  2:{ injection Hm as <- <- <-. split; [by right|]. split; [done|]. by intros (? & ? & ? & _). }
  destruct (fetch_payload decode (conn (host_port mode))) as [[payload|] sent'] eqn:Hf.
  2:{ injection Hm as <- <- <-. split; [by right|]. split; [done|].
      intros (? & ? & [= <-] & Hx & _). by rewrite Hf in Hx. }
  assert (Hgo : forall P, (exists mode' payload', @Ok _ ArgError mode = Ok mode' /\
      (fetch_payload decode (conn (host_port mode'))).1 = Ok payload' /\ P mode' payload') <->
    P mode payload).
  { intros P. split; [|intros HP; exists mode, payload; by rewrite Hf].
    intros (? & ? & [= <-] & Hx & HP). rewrite Hf in Hx. by injection Hx as <-. }
  rewrite (Hgo (fun mode payload => match mode with
     | AwsCreds _ => Forall renderable payload
     | WorkloadSecrets bundle =>
         payload = [] \/ bundle_accepts from_slice to_vec_pretty fs bundle payload end)).
  destruct mode as [bundle|env_file].
  - case_bool_decide as Hnil; [injection Hm as <- <- <-; tauto|].
    destruct (inject_into_bundle _ _ _ _ _ _) as [r fs''] eqn:Hi.
    destruct (inject_into_bundle_cases _ _ _ _ _ _ _ Hi) as [[-> Ha]|(e & -> & -> & Ha)];
      injection Hm as <- <- <-; [tauto|]. split; [by right|]. split; [done|tauto].
  - destruct (write_env_file _ _ _ _) as [r fs''] eqn:Hw.
    destruct (write_env_file_cases _ _ _ _ _ Hw) as [[-> Ha]|(e & -> & -> & Ha)];
      injection Hm as <- <- <-; [tauto|]. split; [by right|]. split; [done|tauto].
Qed.

(** ** Concrete runs *)

Module Demo.
(** A bundle that declares two variables, and one entry that is not a string. *)
Definition config : Value :=
  VObject [(lit "ociVersion", VString (lit "1.0.2"));
           (lit "process", VObject
              [(lit "args", VArray [VString (lit "/bin/app")]);
               (lit "env", VArray [VString (lit "PATH=/bin"); VOther; VString (lit "TOKEN=old")])])].

Definition secrets : list (str * bytes) :=
  [(lit "DB_URL", lit "pg://h/d?a=b"); (lit "TOKEN", lit "new")].

(** A value that would do harm unquoted. *)
Definition hostile : bytes := lit "x';reboot #$(id)`id`\".

Definition no_json (_ : bytes) : result Value string := Err "none".
Definition print_json (v : Value) : result bytes string := Ok (lit "{}").
Definition host_map (m : list (str * bytes)) (_ : bytes) : result (list (str * bytes)) string := Ok m.
Definition one_byte (_ : Z) : result bytes string := Ok [0; 0; 0; 1; 160].

Definition env_args : list bytes := [lit "--mode=aws-creds"; lit "/tmp/c.env"].
End Demo.

Lemma workload_env_is_updated_exactly_witness :
  exists config', merge_env_into_config Demo.config Demo.secrets = Ok config' /\
    getenv (config_env config') (lit "TOKEN") = Some (lit "new") /\
    getenv (config_env config') (lit "PATH") = Some (lit "/bin").
Proof.
  eexists. split; [by vm_compute|].
  pose proof (fun config' => workload_env_is_updated_exactly Demo.config config' Demo.secrets) as Ht.
  split; (etransitivity; [apply Ht; [by vm_compute| |]|by vm_compute]);
    by apply (bool_decide_unpack _); vm_compute.
Defined.

(** The host picks a value that would do harm unquoted, and one with a NUL. *)
Lemma sourcing_the_credentials_runs_nothing_witness :
  exists file (fs' : Fs), fs' !! lit "/tmp/c.env" = Some file /\
    sh_source (f_content file) = Some [(lit "AWS_REGION", Demo.hostile); (lit "X", [97; 0; 98])].
Proof.
  destruct (sourcing_the_credentials_runs_nothing Demo.no_json Demo.print_json
    (Demo.host_map [(lit "AWS_REGION", Demo.hostile); (lit "X", [97; 0; 98])]) io_succeeds Demo.env_args
    Demo.one_byte ∅ _ [ACK_BYTE] (lit "/tmp/c.env") eq_refl eq_refl) as (creds & file & Hf & Hfs & _ & Hs & _).
  injection Hf as <-. exists file, (<[lit "/tmp/c.env" := file]> ∅). split; [apply lookup_insert_eq|].
  exact Hs.
Defined.

Lemma boot_credentials_are_not_confined_witness :
  (lit "LUKS_KEY_FILE" ∉ ALLOWED_CREDS_ENV) /\
  filter_creds_env [(lit "LUKS_KEY_FILE", lit "/dev/console")]
    = Err (CR_UnexpectedKey (lit "LUKS_KEY_FILE")) /\
  exists (fs' : Fs) file,
    fs' !! DEFAULT_AWS_CREDS_ENV_FILE = Some file /\
    sh_source (f_content file) = Some [(lit "LUKS_KEY_FILE", lit "/dev/console")].
Proof.
  destruct (boot_credentials_are_not_confined Demo.no_json Demo.print_json
    (Demo.host_map [(lit "LUKS_KEY_FILE", lit "/dev/console")]) (lit "LUKS_KEY_FILE")
    (lit "/dev/console") [160] ∅ eq_refl) as [(fs' & file & _ & Hfile & Hs) Hno].
  - done.
  - split; [done|]. by eexists.
  - assert (Hn : lit "LUKS_KEY_FILE" ∉ ALLOWED_CREDS_ENV) by by apply (bool_decide_unpack _); vm_compute.
    eauto 10.
Defined.

Lemma failed_injection_changes_nothing_witness :
  exists code fs' sent,
    main Demo.no_json Demo.print_json (Demo.host_map [(lit "A-B", [])]) io_succeeds
      Demo.env_args Demo.one_byte ∅ = (code, fs', sent) /\ code = 1 /\ fs' = ∅.
Proof.
  eexists 1, _, _. split; [reflexivity|]. split; [done|].
  destruct (failed_injection_changes_nothing Demo.no_json Demo.print_json
    (Demo.host_map [(lit "A-B", [])]) Demo.env_args Demo.one_byte ∅ ∅ 1 [ACK_BYTE] eq_refl)
    as [[?|Hfs] _]; [done|exact Hfs].
Defined.
