(* ===== verification/ChainInit.v ===== *)
(** The boot link ([enclavia-chain-init/src/main.rs], [config.rs] and
    [attestation.rs]).

    Between mounting the filesystems and starting the workload, the enclave
    reads its measured configuration, builds the payload of its boot link, has
    the security module attest it, and submits the link to the host; anything
    but an acknowledged link fails the boot.  Composed with [Chain], the
    theorems say that a link this program emits is the one the auditor's
    ingest rule accepts, and that the workload starts only when the host
    acknowledged having it. *)
From stdpp Require Import base gmap list strings.
From S2P Require Import Prelude Identity Signing Attestation LocalAttestation Chain ChainProofs Server ServerProofs.
#[local] Open Scope Z_scope.

(** ** The configuration *)

(** The parsed file, absent sections and fields as [serde] leaves them. *)
Record RawStorage := mkRawStorage { rst_enabled : bool }.
Record RawSynchronizer := mkRawSynchronizer {
  rsy_enabled : bool;
  rsy_expected_pcrs : list PcrsHex;
  rsy_debug_attestation : bool;
  rsy_upgrade_target : bool;
}.
Record RawConfig := mkRawConfig {
  rc_enclave_id : option string;
  rc_image_digest : option string;
  rc_storage : option RawStorage;
  rc_synchronizer : option RawSynchronizer;
}.

Record ChainInitConfig := mkChainInitConfig {
  ci_enclave_id : Z;
  ci_image_digest : string;
  ci_anti_rollback : AntiRollbackSetting;
}.

Definition anti_rollback (storage : option RawStorage) (sync : option RawSynchronizer)
    : AntiRollbackSetting :=
  let storage := from_option rst_enabled false storage in
  match sync with
  | None => ar_disabled
  | Some s =>
      mkAntiRollback (storage && rsy_enabled s) (rsy_upgrade_target s) (rsy_debug_attestation s)
        (rsy_expected_pcrs s)
  end.

Inductive ConfigError : Type :=
| CE_Read (detail : string)
| CE_Json (detail : string)
| CE_NoEnclaveId
| CE_BadEnclaveId (detail : string)
| CE_NoImageDigest
| CE_BadImageDigest (digest : string).

(** The digest's prefix and length. *)
Definition image_digest_form (digest : string) : bool :=
  String.prefix "sha256:" digest && (String.length digest =? 71)%nat.

(** [serde_json] on the file's content, and [Uuid::parse_str]. *)
Section Load.
Context (from_slice : bytes -> result RawConfig string) (parse_str : string -> result Z string).

Definition load (file : result bytes string) : result ChainInitConfig ConfigError :=
  let? bytes := map_err CE_Read file in
  let? raw := map_err CE_Json (from_slice bytes) in
  let? enclave_id_str := ok_or (rc_enclave_id raw) CE_NoEnclaveId in
  let? enclave_id := map_err CE_BadEnclaveId (parse_str enclave_id_str) in
  let? image_digest := ok_or (rc_image_digest raw) CE_NoImageDigest in
  if negb (image_digest_form image_digest) then Err (CE_BadImageDigest image_digest)
  else Ok (mkChainInitConfig enclave_id image_digest
             (anti_rollback (rc_storage raw) (rc_synchronizer raw))).
End Load.

(** ** The run *)

(** [/dev/nsm]: whether it opens, its attestation requests, and its answers to
    [DescribePCR]. *)
Record SecurityModule := mkModule {
  nsm_opens : bool;
  nsm_attest : NsmDevice;
  nsm_describe : Z -> result bytes string;
}.

Inductive ChainInitError : Type :=
| CI_Config (e : ConfigError)
| CI_NsmOpen
| CI_DescribePcr (detail : string)
| CI_Attestation (e : LocalAttestationError)
| CI_Submit (e : SubmitError)
| CI_UnexpectedAck (ack : Z).

Definition read_one_pcr (m : SecurityModule) (index : Z) : result bytes ChainInitError :=
  map_err CI_DescribePcr (nsm_describe m index).

Definition read_pcrs (m : SecurityModule) : result Pcrs ChainInitError :=
  let? p0 := read_one_pcr m 0 in
  let? p1 := read_one_pcr m 1 in
  let? p2 := read_one_pcr m 2 in
  Ok (mkPcrs p0 p1 p2).

Section Run.
Context `{NitroLib} `{Cbor BootPayload} `{Cbor ChainLink}.
Context (sha256 : bytes -> bytes) (hex_encode : bytes -> string).
Context (from_slice : bytes -> result RawConfig string) (parse_str : string -> result Z string).

Definition attest (m : SecurityModule) (user_data nonce : bytes) : result bytes ChainInitError :=
  map_err CI_Attestation
    (let? v := request_local (nsm_attest m) (Some nonce) (Some user_data) in Ok (va_bytes v)).

(** [submit] and [submit_over]: every fate but the expected ack is an error;
    with the frames the host has received. *)
Definition submit (fate : SubmitFate) (link : ChainLink) (host : list bytes)
    : result unit ChainInitError * list bytes :=
  match fate with
  | Submit_NoConnection => (Err (CI_Submit SE_Connect), host)
  | _ =>
      match chain_link_frame link with
      | Err e => (Err (CI_Submit e), host)
      | Ok frame =>
          match fate with
          | Submit_Ack ack =>
              (if negb (ack =? CHAIN_LINK_ACK) then Err (CI_UnexpectedAck ack) else Ok tt,
               host ++ [frame])
          | Submit_Unacked => (Err (CI_Submit SE_Io), host ++ [frame])
          | _ => (Err (CI_Submit SE_Io), host)
          end
      end
  end.

Definition boot_payload (cfg : ChainInitConfig) (pcrs : Pcrs) (now : Z) (nonce : bytes)
    : BootPayload :=
  mkBootPayload (ci_enclave_id cfg) (ci_image_digest cfg)
    (mkPcrsHex (hex_encode (pcr0 pcrs)) (hex_encode (pcr1 pcrs)) (hex_encode (pcr2 pcrs)))
    now nonce (ci_anti_rollback cfg).

(** The steps of [run] up to the link. *)
Definition build_link (file : result bytes string) (m : SecurityModule) (now : Z) (nonce : bytes)
    : result ChainLink ChainInitError :=
  let? cfg := map_err CI_Config (load from_slice parse_str file) in
  if negb (nsm_opens m) then Err CI_NsmOpen
  else
    let? pcrs := read_pcrs m in
    let payload_bytes := encode (boot_payload cfg pcrs now nonce) in
    let? attestation := attest m (sha256 payload_bytes) nonce in
    Ok (mkChainLink None None Boot payload_bytes attestation None).

(** [run]: [nonce] is the random fill, [now] the clock. *)
Definition run (file : result bytes string) (m : SecurityModule) (now : Z) (nonce : bytes)
    (fate : SubmitFate) (host : list bytes) : result unit ChainInitError * list bytes :=
  match build_link file m now nonce with
  | Err e => (Err e, host)
  | Ok link => submit fate link host
  end.

(** [main]: the exit status. *)
Definition main (file : result bytes string) (m : SecurityModule) (now : Z) (nonce : bytes)
    (fate : SubmitFate) (host : list bytes) : Z * list bytes :=
  match run file m now nonce fate host with
  | (Ok _, host) => (0, host)
  | (Err _, host) => (1, host)
  end.

(** ** Properties *)

Lemma boot_submit_Ok fate link host host' :
  submit fate link host = (Ok tt, host') <->
  fate = Submit_Ack CHAIN_LINK_ACK /\
  exists frame, chain_link_frame link = Ok frame /\ host' = host ++ [frame].
Proof.
  unfold submit. destruct (chain_link_frame link) as [frame|].
  2:{ split; [destruct fate; done|]. by intros (_ & ? & ? & _). }
  destruct fate as [| | |ack]; try (split; [done|]; by intros (? & _)).
  destruct (Z.eqb_spec ack CHAIN_LINK_ACK) as [->|Hne]; cbn [negb].
  - split; [intros [= <-]; eauto|]. by intros (_ & ? & [= <-] & ->).
  - split; [done|]. intros [[= ->] _]. done.
Qed.

(** The steps of a link that is built. *)
Lemma build_link_Ok file m now nonce link :
  build_link file m now nonce = Ok link <->
  exists cfg pcrs v,
    load from_slice parse_str file = Ok cfg /\ nsm_opens m = true /\ read_pcrs m = Ok pcrs /\
    request_local (nsm_attest m) (Some nonce)
      (Some (sha256 (encode (boot_payload cfg pcrs now nonce)))) = Ok v /\
    link = mkChainLink None None Boot (encode (boot_payload cfg pcrs now nonce)) (va_bytes v) None.
Proof.
  unfold build_link, attest. split.
  - destruct (load _ _ file) as [cfg|]; [|done]. cbn [map_err].
    destruct (nsm_opens m); [|done]. cbn [negb]. destruct (read_pcrs m) as [pcrs|]; [|done].
    destruct (request_local _ _ _) as [v|] eqn:Hr; [|done]. intros [= <-]. eauto 10.
  - intros (cfg & pcrs & v & Hl & Ho & Hp & Hr & ->). rewrite Hl. cbn [map_err].
    rewrite Ho. cbn [negb]. rewrite Hp. by rewrite Hr.
Qed.

(** The workload starts only behind an acknowledged boot link.  The
    program ends with success exactly when it built a link and the host
    answered the whole frame with the acknowledgement byte; the link then
    names the configured enclave, image digest and anti-rollback setting, the
    measurements the security module reports and the fresh nonce, and its
    payload is the encoding the auditor decodes back to them.  In every other
    case the boot fails, and the host has at most that one frame. *)
Theorem boot_continues_only_acknowledged `{!CborLaws BootPayload} file m now nonce fate host code host' :
  main file m now nonce fate host = (code, host') ->
  (code = 0 /\ fate = Submit_Ack CHAIN_LINK_ACK /\
   exists cfg pcrs link frame,
     load from_slice parse_str file = Ok cfg /\ read_pcrs m = Ok pcrs /\
     build_link file m now nonce = Ok link /\
     chain_link_frame link = Ok frame /\ host' = host ++ [frame] /\
     decode_canonical (cl_payload link) = Ok (boot_payload cfg pcrs now nonce)) \/
  (code = 1 /\
   (host' = host \/
    exists link frame, build_link file m now nonce = Ok link /\
      chain_link_frame link = Ok frame /\ host' = host ++ [frame])).
Proof.
  unfold main, run. intros Hm. destruct (build_link file m now nonce) as [link|e] eqn:Hb.
  2:{ injection Hm as <- <-. auto. }
  destruct (submit fate link host) as [[[]|e] h] eqn:Hs; injection Hm as <- <-.
  - left. apply boot_submit_Ok in Hs as (-> & frame & Hf & ->).
    apply build_link_Ok in Hb as (cfg & pcrs & v & Hl & _ & Hp & _ & Hlink).
    split; [done|]. split; [done|]. exists cfg, pcrs, link, frame. split_and!; try done.
    rewrite Hlink. apply decode_canonical_Ok. split; [apply cbor_roundtrip|done].
  - right. split; [done|]. unfold submit in Hs.
    destruct (chain_link_frame link) as [frame|] eqn:Hf; [|destruct fate; injection Hs as _ <-; auto].
    destruct fate; injection Hs as _ <-; eauto 10.
Qed.

(** What the device documents: its documents are genuine, carry the requested
    user data, and show the measurements it describes. *)
Definition coherent_module (m : SecurityModule) : Prop :=
  honest_nsm (nsm_attest m) /\
  forall nonce user_data d doc index data,
    nsm_attest m nonce user_data = Nsm_Document d -> decode_only d = Ok doc ->
    0 <= index <= 2 -> nsm_describe m index = Ok data -> doc_pcrs doc !! index = Some data.

Lemma read_pcrs_Ok m pcrs :
  read_pcrs m = Ok pcrs -> nsm_describe m 0 = Ok (pcr0 pcrs) /\
    nsm_describe m 1 = Ok (pcr1 pcrs) /\ nsm_describe m 2 = Ok (pcr2 pcrs).
Proof.
  unfold read_pcrs, read_one_pcr. intros Hr.
  destruct (nsm_describe m 0), (nsm_describe m 1), (nsm_describe m 2); try done.
  by injection Hr as <-.
Qed.

(** The identity of a document has the measurements of its PCR map. *)
Lemma from_doc_pcrs_image pcrs i p0 p1 p2 :
  from_doc_pcrs pcrs = Ok i -> pcrs !! 0 = Some p0 -> pcrs !! 1 = Some p1 -> pcrs !! 2 = Some p2 ->
  image_pcrs i = mkPcrs p0 p1 p2.
Proof.
  unfold from_doc_pcrs, image_pcr, fixed. intros Hf Hp0 Hp1 Hp2. rewrite Hp0, Hp1, Hp2 in Hf.
  destruct (check_doc_entries _); [|done]. cbn [ok_or] in Hf. repeat case_match; try done.
  by simplify_eq.
Qed.

(** The document of a built link validates against its payload and shows the
    measurements the payload names. *)
Lemma built_link_attestation file m now nonce link :
  coherent_module m -> build_link file m now nonce = Ok link ->
  exists cfg pcrs v,
    load from_slice parse_str file = Ok cfg /\ read_pcrs m = Ok pcrs /\
    cl_payload link = encode (boot_payload cfg pcrs now nonce) /\
    cl_kind link = Boot /\ cl_signature link = None /\
    validate_link_document sha256 (cl_attestation link) (cl_payload link) = Ok v /\
    va_pcrs v = pcrs.
Proof.
  intros [Hn Hd] Hb. apply build_link_Ok in Hb as (cfg & pcrs & att & Hl & _ & Hp & Hr & ->).
  destruct (chain_attestation_validates sha256 _ _ _ _ Hn Hr) as (v & Hv & Hid).
  exists cfg, pcrs, v. cbn [cl_payload cl_kind cl_signature cl_attestation]. split_and!; try done.
  unfold va_pcrs. rewrite Hid.
  apply request_local_Ok in Hr as (d & doc & i & Ha & Hdec & Hi & ->). cbn [va_identity].
  apply read_pcrs_Ok in Hp as (Hp0 & Hp1 & Hp2). destruct pcrs as [p0 p1 p2].
  by apply (from_doc_pcrs_image (doc_pcrs doc)); [|eapply Hd..].
Qed.

Context `{P256} `{Cbor UpgradePayload} `{Cbor RevocationPayload}.
Context (hex_decode : string -> option bytes) (skip_chain_compiled : bool).

(** C30: what the enclave emits at boot, the auditor accepts.  On a chain with
    no boot yet, the link is appended as the genesis; on a chain whose last
    boot has the same image digest, it is recognised as a restart; for the
    enclave, digest and measurements of the row, an honest security module and
    a hex codec that reads the measurements back. *)
Theorem boot_link_is_accepted `{!CborLaws BootPayload} file m nonce booted_at link cfg pcrs ctx now :
  coherent_module m ->
  Forall (fun b => hex_decode (hex_encode b) = Some b) [pcr0 pcrs; pcr1 pcrs; pcr2 pcrs] ->
  build_link file m booted_at nonce = Ok link -> cl_attestation link <> [] ->
  load from_slice parse_str file = Ok cfg -> read_pcrs m = Ok pcrs ->
  ctx_enclave_id ctx = ci_enclave_id cfg ->
  ctx_enclave_pcrs ctx = bp_pcrs (boot_payload cfg pcrs booted_at nonce) ->
  ctx_enclave_image_digest ctx = ci_image_digest cfg ->
  validate_chain_link sha256 hex_decode skip_chain_compiled link ctx now false =
  match last_boot (ctx_prior_chain ctx) with
  | None => Ok (Append (Z.of_nat (length (ctx_prior_chain ctx))))
  | Some prev =>
      match decode_canonical (T := BootPayload) (cl_payload prev) with
      | Err e => Err (CorruptStoredPayload Boot e)
      | Ok p =>
          if bool_decide (bp_image_digest p = ci_image_digest cfg) then Ok Dedup
          else if negb (ctx_upgradable ctx) then Err NonUpgradableSecondBoot
          else match check_successor (bp_anti_rollback p) (ci_anti_rollback cfg) with
               | Err c => Err (AntiRollbackChanged c)
               | Ok _ => Ok (Append (Z.of_nat (length (ctx_prior_chain ctx))))
               end
      end
  end.
Proof.
  intros Hm Hhex Hb Hne Hcfg Hpcrs Hid Hrow Hdig.
  destruct (built_link_attestation _ _ _ _ _ Hm Hb) as (cfg' & pcrs' & v & Hc' & Hp' & Hpay & Hk & Hs & Hv & Hva).
  assert (cfg' = cfg) as -> by congruence. assert (pcrs' = pcrs) as -> by congruence.
  unfold validate_chain_link. destruct (cl_attestation link) as [|b att] eqn:Hatt; [done|].
  assert (Hto : to_pcrs hex_decode (ctx_enclave_pcrs ctx) = Ok pcrs).
  { rewrite Hrow. unfold to_pcrs, boot_payload. cbn [bp_pcrs hex0 hex1 hex2].
    rewrite !Forall_cons in Hhex. destruct Hhex as (-> & -> & -> & _). by destruct pcrs. }
  rewrite Hto. unfold link_attestation. rewrite Hatt, Hv. cbn [map_err].
  rewrite (proj2 (require_pcrs_Ok v pcrs) Hva). cbn [map_err]. rewrite Hk.
  unfold validate_boot. rewrite Hs, bool_decide_eq_false_2 by by intros [].
  assert (Hdec : decode_canonical (cl_payload link) = Ok (boot_payload cfg pcrs booted_at nonce)).
  { apply decode_canonical_Ok. rewrite Hpay. split; [apply cbor_roundtrip|done]. }
  rewrite Hdec. cbn [map_err]. unfold boot_payload at 1. cbn [bp_enclave_id].
  rewrite Hid, Z.eqb_refl. cbn [negb]. rewrite Hrow, bool_decide_eq_true_2 by done. cbn [negb].
  rewrite Hdig. unfold boot_payload at 1. cbn [bp_image_digest]. rewrite bool_decide_eq_true_2 by done.
  cbn [negb]. destruct (last_boot _) as [prev|]; [|done].
  destruct (decode_canonical (cl_payload prev)) as [p|]; [|done]. cbn [map_err].
  unfold boot_payload. cbn [bp_image_digest bp_anti_rollback].
  destruct (bool_decide _); [done|]. destruct (negb _); [done|].
  by destruct (check_successor _ _).
Qed.
End Run.

(** ** Concrete runs *)

Module ChainInitDemo.
#[export] Instance PcrsHex_countable : Countable PcrsHex.
Proof.
  apply (inj_countable' (fun p => (hex0 p, hex1 p, hex2 p)) (fun t => mkPcrsHex t.1.1 t.1.2 t.2)).
  by intros [].
Defined.

(** One number per field of the payload. *)
Definition field {A} `{Countable A} (a : A) : Z := Zpos (countable.encode a).
Definition unfield {A} `{Countable A} (z : Z) : option A :=
  match z with Zpos p => countable.decode p | _ => None end.

Lemma unfield_field {A} `{Countable A} (a : A) : unfield (field a) = Some a.
Proof. apply decode_encode. Qed.

#[export] Instance boot_cbor : Cbor BootPayload := {|
  encode p :=
    [bp_enclave_id p; field (bp_image_digest p); field (hex0 (bp_pcrs p)); field (hex1 (bp_pcrs p));
     field (hex2 (bp_pcrs p)); bp_booted_at p; field (bp_nonce p);
     field (ar_enabled (bp_anti_rollback p)); field (ar_upgrade_target (bp_anti_rollback p));
     field (ar_debug_attestation (bp_anti_rollback p)); field (ar_synchronizer_pcrs (bp_anti_rollback p))];
  from_reader bs :=
    match bs with
    | [id; dg; h0; h1; h2; at_; nc; e; u; d; ps] =>
        ok_or (dg ← unfield dg; h0 ← unfield h0; h1 ← unfield h1; h2 ← unfield h2;
               nc ← unfield nc; e ← unfield e; u ← unfield u; d ← unfield d; ps ← unfield ps;
               Some (mkBootPayload id dg (mkPcrsHex h0 h1 h2) at_ nc (mkAntiRollback e u d ps)))
          "unknown"%string
    | _ => Err "unknown"%string
    end;
|}.
#[export] Instance boot_cbor_laws : CborLaws BootPayload.
Proof.
  intros [id dg [h0 h1 h2] at_ nc [e u d ps]]. unfold from_reader, encode, boot_cbor.
  cbn [bp_enclave_id bp_image_digest bp_pcrs bp_booted_at bp_nonce bp_anti_rollback hex0 hex1 hex2
    ar_enabled ar_upgrade_target ar_debug_attestation ar_synchronizer_pcrs].
  by rewrite !unfield_field.
Qed.
#[export] Instance link_cbor : Cbor ChainLink := {|
  encode l := cl_payload l;
  from_reader _ := Err "unused"%string;
|}.
#[export] Instance no_upgrade : Cbor UpgradePayload := {| encode _ := []; from_reader _ := Err "none"%string |}.
#[export] Instance no_revocation : Cbor RevocationPayload := {| encode _ := []; from_reader _ := Err "none"%string |}.

Definition digest : string := "sha256:0123456789abcdef0123456789abcdef0123456789abcdef0123456789abcdef".
Definition parse (_ : bytes) : result RawConfig string :=
  Ok (mkRawConfig (Some "7"%string) (Some digest) (Some (mkRawStorage true))
        (Some (mkRawSynchronizer true [] true false))).
Definition uuid (_ : string) : result Z string := Ok 7.
Definition cfg : ChainInitConfig :=
  mkChainInitConfig 7 digest (mkAntiRollback true false true []).

Definition module : SecurityModule :=
  mkModule true (fun _ user_data => Nsm_Document (toy_document 0 1 (default [] user_data)))
    (fun _ => Ok (replicate 48 1)).
Definition pcrs : Pcrs := mkPcrs (replicate 48 1) (replicate 48 1) (replicate 48 1).

Lemma module_coherent : coherent_module (H := toy_NitroLib) module.
Proof.
  split.
  - intros nonce user_data d [= <-]. exists (toy_doc (toy_document 0 1 user_data)).
    split; [|reflexivity]. exists (toy_document 0 1 user_data), tt, tt, [4]. split_and!; reflexivity.
  - intros nonce user_data d doc index data Hd Hdoc Hi Hdata.
    injection Hd as <-. injection Hdoc as <-. injection Hdata as <-. cbn [doc_pcrs toy_doc].
    assert (index = 0 \/ index = 1 \/ index = 2) as [-> | [-> | ->]] by lia; reflexivity.
Qed.

(** The demonstration enclave's row, with the chain so far. *)
Definition ctx (prior : list ChainLink) : ChainContext :=
  mkChainContext 7 (bp_pcrs (boot_payload demo_hex_encode cfg pcrs 0 [])) digest None false prior.

Definition link : result ChainLink ChainInitError :=
  build_link (H := toy_NitroLib) toy_sha256 demo_hex_encode parse uuid (Ok []) module 5 [9].
End ChainInitDemo.

#[local] Existing Instances toy_P256 toy_NitroLib ChainInitDemo.boot_cbor ChainInitDemo.boot_cbor_laws
  ChainInitDemo.link_cbor ChainInitDemo.no_upgrade ChainInitDemo.no_revocation.

Lemma boot_continues_only_acknowledged_witness :
  exists host', main toy_sha256 demo_hex_encode ChainInitDemo.parse ChainInitDemo.uuid (Ok [])
    ChainInitDemo.module 5 [9] (Submit_Ack CHAIN_LINK_ACK) [] = (0, host') /\ length host' = 1%nat.
Proof.
  destruct (main toy_sha256 demo_hex_encode ChainInitDemo.parse ChainInitDemo.uuid (Ok [])
    ChainInitDemo.module 5 [9] (Submit_Ack CHAIN_LINK_ACK) []) as [code host'] eqn:Hm.
  destruct (boot_continues_only_acknowledged _ _ _ _ _ _ _ _ _ _ _ _ Hm)
    as [(-> & _ & cfg & pcrs & link & frame & _ & _ & _ & _ & -> & _)|(-> & _)]; [eauto|].
  by vm_compute in Hm.
Defined.

Lemma boot_link_is_accepted_witness :
  exists link, ChainInitDemo.link = Ok link /\
    validate_chain_link toy_sha256 demo_hex_decode false link (ChainInitDemo.ctx []) 0 false
      = Ok (Append 0) /\
    validate_chain_link toy_sha256 demo_hex_decode false link (ChainInitDemo.ctx [link]) 0 false
      = Ok Dedup.
Proof.
  destruct ChainInitDemo.link as [link|] eqn:Hl; [|by vm_compute in Hl]. exists link. split; [done|].
  assert (Hgo : forall prior, _) by exact (fun prior =>
    boot_link_is_accepted toy_sha256 demo_hex_encode ChainInitDemo.parse ChainInitDemo.uuid
      demo_hex_decode false (Ok []) ChainInitDemo.module [9] 5 link ChainInitDemo.cfg
      ChainInitDemo.pcrs (ChainInitDemo.ctx prior) 0 ChainInitDemo.module_coherent
      ltac:(by repeat constructor) Hl ltac:(by vm_compute in Hl; injection Hl as <-) eq_refl eq_refl
      eq_refl eq_refl eq_refl).
  split; (etransitivity; [apply Hgo|]); [done|]. vm_compute in Hl. injection Hl as <-. by vm_compute.
Defined.
