(* ===== verification/Sdk.v ===== *)
(** The client SDK's connection ([enclavia/src/client.rs], [error.rs]).

    [establish] is the one sequence behind the first connect and every
    reconnect: WebSocket, Noise handshake, the enclave's document, and its
    verification against the caller's pinned measurements or, when the caller
    follows upgrades, against the tip of a chain that descends from them.  A
    [Client] is shared by many callers: [ensure_connected] is a program of
    several atomic steps that the callers run concurrently, under the
    single-flight lock.  The theorems say that no caller ever gets a channel
    that was not verified against the original pins, and that the client never
    holds two live sessions. *)
From stdpp Require Import base gmap list strings.
From S2P Require Import Prelude Identity Signing Attestation Chain Text.
#[local] Open Scope Z_scope.

(** ** Errors *)

(** The variants of [tungstenite::Error]. *)
Inductive WsErrorKind : Type :=
| Ws_ConnectionClosed | Ws_AlreadyClosed | Ws_Io
| Ws_Http (status : Z)
| Ws_Tls | Ws_Capacity | Ws_Protocol | Ws_WriteBufferFull | Ws_Utf8 | Ws_AttackAttempt
| Ws_Url | Ws_HttpFormat.

Inductive ErrorReason : Type :=
| Rs_Attestation (e : AttestationError)
| Rs_NeedsPins
| Rs_Fetch (what detail : string)
| Rs_Link (e : ChainLinkDecodeError)
| Rs_Descent (e : PcrDescentError).

Inductive Error : Type :=
| WebSocket (k : WsErrorKind)
| NoiseError
| AttestationFailed (r : ErrorReason)
| TrustUpgradesFailed (r : ErrorReason)
| AttestationNonceMismatch
| PcrMismatchAt (index : Z)
| ServerError (id : Z) (message : str)
| ConnectionClosed
| ConnectTimeout
| HttpParse (detail : string)
| CborError (detail : string)
| InvalidUrl (detail : string)
| UnexpectedMessage
| UpgradeFailed (status : Z) (head : bytes).

Definition is_retryable (e : Error) : bool :=
  match e with
  | ConnectionClosed | ConnectTimeout => true
  | WebSocket k =>
      match k with
      | Ws_ConnectionClosed | Ws_AlreadyClosed | Ws_Io => true
      | Ws_Http status =>
          (status =? 408) || (status =? 429) || ((500 <=? status) && (status <=? 599))
      | _ => false
      end
  | _ => false
  end.

(** ** Messages *)

Inductive SdkHalf : Type := SdkWrite | SdkBoth.

Inductive SdkClientMessage : Type :=
| C_RequestAttestation
| C_Data (id : Z) (payload : bytes)
| C_Control (payload signature : bytes)
| C_OpenStream (id : Z) (payload : bytes)
| C_StreamData (id : Z) (payload : bytes)
| C_StreamClose (id : Z) (half : SdkHalf).

Inductive SdkServerMessage : Type :=
| S_Attestation (data control_nonce : bytes)
| S_Data (id : Z) (payload : bytes)
| S_Error (id : Z) (message : str)
| S_ControlResult (success : bool) (message : str)
| S_StreamData (id : Z) (payload : bytes)
| S_StreamClose (id : Z).

(** ** Configuration *)

Record TrustUpgrades := mkTrustUpgrades { tu_backend_url : str; tu_enclave_id : Z }.

Record ConnectConfig := mkConnectConfig {
  cc_url : str;
  cc_host : str;
  cc_pcrs : Pcrs;
  cc_debug_mode : bool;
  cc_extra_headers : list (str * str);
  cc_trust_upgrades : option TrustUpgrades;
  cc_auto_reconnect : bool;
  cc_connect_timeout : Z;
}.

Record ClientBuilder := mkClientBuilder {
  cb_url : str;
  cb_pcrs : option Pcrs;
  cb_debug_mode : bool;
  cb_extra_headers : list (str * str);
  cb_trust_upgrades : option TrustUpgrades;
  cb_auto_reconnect : bool;
  cb_connect_timeout : Z;
}.

(** Durations in milliseconds. *)
Definition DEFAULT_CONNECT_TIMEOUT : Z := 10000.

Definition builder_new (url : str) : ClientBuilder :=
  mkClientBuilder url None false [] None true DEFAULT_CONNECT_TIMEOUT.

Definition connect_timeout (b : ClientBuilder) (timeout : Z) : ClientBuilder :=
  mkClientBuilder (cb_url b) (cb_pcrs b) (cb_debug_mode b) (cb_extra_headers b)
    (cb_trust_upgrades b) (cb_auto_reconnect b) timeout.
Definition auto_reconnect (b : ClientBuilder) (enabled : bool) : ClientBuilder :=
  mkClientBuilder (cb_url b) (cb_pcrs b) (cb_debug_mode b) (cb_extra_headers b)
    (cb_trust_upgrades b) enabled (cb_connect_timeout b).
Definition set_pcrs (b : ClientBuilder) (pcrs : Pcrs) : ClientBuilder :=
  mkClientBuilder (cb_url b) (Some pcrs) (cb_debug_mode b) (cb_extra_headers b)
    (cb_trust_upgrades b) (cb_auto_reconnect b) (cb_connect_timeout b).
Definition debug_mode (b : ClientBuilder) (debug : bool) : ClientBuilder :=
  mkClientBuilder (cb_url b) (cb_pcrs b) debug (cb_extra_headers b)
    (cb_trust_upgrades b) (cb_auto_reconnect b) (cb_connect_timeout b).
Definition trust_upgrades (b : ClientBuilder) (backend_url : str) (enclave_id : Z) : ClientBuilder :=
  mkClientBuilder (cb_url b) (cb_pcrs b) (cb_debug_mode b) (cb_extra_headers b)
    (Some (mkTrustUpgrades backend_url enclave_id)) (cb_auto_reconnect b) (cb_connect_timeout b).
Definition builder_header (b : ClientBuilder) (name value : str) : ClientBuilder :=
  mkClientBuilder (cb_url b) (cb_pcrs b) (cb_debug_mode b) (cb_extra_headers b ++ [(name, value)])
    (cb_trust_upgrades b) (cb_auto_reconnect b) (cb_connect_timeout b).

(** The fields of the public enclave row. *)
Record EnclaveChainRow := mkEnclaveChainRow {
  row_pcrs : PcrsHex;
  row_image_digest : string;
  row_control_public_key : option bytes;
  row_upgradable : bool;
}.

(** ** One attempt to connect *)

(** What an attempt meets, in the order of the sequence: the WebSocket, the
    handshake's hash, the enclave's answer, the clock at each validation, the
    backend's answers (untrusted), the clock of the chain walk, and whether
    the deadline fires first. *)
Record Attempt := mkAttempt {
  at_ws : result unit Error;
  at_handshake : result bytes Error;
  at_reply : result SdkServerMessage Error;
  at_now_ms : Z;
  at_row : result EnclaveChainRow string;
  at_chain : result (list ChainLinkJson) string;
  at_now : Z;
  at_tip_now_ms : Z;
  at_times_out : bool;
}.

(** The session a channel is attached to. *)
Record Channel := mkChannel { ch_hash : bytes; ch_document : bytes }.

Section Establish.
Context `{P256} `{NitroLib}.
Context `{Cbor BootPayload} `{Cbor UpgradePayload} `{Cbor RevocationPayload}.
Context (sha256 : bytes -> bytes).
Context (hex_encode : bytes -> string) (hex_decode : string -> option bytes).
Context (base64_decode : string -> option bytes).
Context (skip_chain_compiled : bool).

Definition validate_live (doc handshake_hash : bytes) (debug : bool) (now_ms : Z)
    : result ValidatedAttestation AttestationError :=
  if debug then
    if skip_chain_compiled then validate_session_skip_chain_at doc handshake_hash now_ms
    else Err SkipChainNotCompiled
  else validate_session_at doc handshake_hash now_ms.

(** [validate_live] and then [require_pcrs]. *)
Definition check_live (doc handshake_hash : bytes) (debug : bool) (now_ms : Z) (pcrs : Pcrs)
    : result unit AttestationError :=
  let? v := validate_live doc handshake_hash debug now_ms in
  require_pcrs v pcrs.

(** The loop that decodes the served links. *)
Fixpoint decode_links (wire : list ChainLinkJson) : result (list RecordedLink) ChainLinkDecodeError :=
  match wire with
  | [] => Ok []
  | w :: wire =>
      let? l := into_recorded_link base64_decode w in
      let? links := decode_links wire in
      Ok (l :: links)
  end.

Definition verify_via_upgrade_chain (a : Attempt) (doc handshake_hash : bytes) (pinned : Pcrs)
    (debug : bool) (tu : TrustUpgrades) : result unit Error :=
  let? row := map_err (fun d => TrustUpgradesFailed (Rs_Fetch "enclave row" d)) (at_row a) in
  let? wire := map_err (fun d => TrustUpgradesFailed (Rs_Fetch "upgrade chain" d)) (at_chain a) in
  let? links := map_err (fun e => TrustUpgradesFailed (Rs_Link e)) (decode_links wire) in
  let? tip := map_err (fun e => TrustUpgradesFailed (Rs_Descent e))
                (verify_pcr_descent sha256 hex_encode hex_decode skip_chain_compiled
                   (tu_enclave_id tu) (row_pcrs row) (row_image_digest row)
                   (row_control_public_key row) (row_upgradable row) (at_now a) debug pinned links) in
  map_err (fun e => TrustUpgradesFailed (Rs_Attestation e))
    (check_live doc handshake_hash debug (at_tip_now_ms a) tip).

Definition no_pins (p : Pcrs) : bool :=
  bool_decide (pcr0 p = []) && bool_decide (pcr1 p = []) && bool_decide (pcr2 p = []).

Definition establish_channel (cfg : ConnectConfig) (a : Attempt) : result Channel Error :=
  let? _ := at_ws a in
  let? handshake_hash := at_handshake a in
  let? reply := at_reply a in
  match reply with
  | S_Attestation data _ =>
      let? _ :=
        match check_live data handshake_hash (cc_debug_mode cfg) (at_now_ms a) (cc_pcrs cfg) with
        | Ok _ => Ok tt
        | Err pinned_err =>
            match cc_trust_upgrades cfg with
            | Some tu =>
                if no_pins (cc_pcrs cfg) then Err (TrustUpgradesFailed Rs_NeedsPins)
                else verify_via_upgrade_chain a data handshake_hash (cc_pcrs cfg)
                       (cc_debug_mode cfg) tu
            | None => Err (AttestationFailed (Rs_Attestation pinned_err))
            end
        end in
      Ok (mkChannel handshake_hash data)
  | _ => Err UnexpectedMessage
  end.

Definition establish (cfg : ConnectConfig) (a : Attempt) : result Channel Error :=
  if at_times_out a then Err ConnectTimeout else establish_channel cfg a.

(** ** The client *)

(** Where a caller of [ensure_connected] is: before the first check, waiting
    for the single-flight lock, holding it before the second check, inside
    [establish], holding the new channel before it is installed, or returned. *)
Inductive CallerPc : Type :=
| Pc_Check
| Pc_Lock
| Pc_Recheck
| Pc_Establish
| Pc_Install (ch : Channel)
| Pc_Done (r : result unit Error).

(** A transport task and whether its command channel is closed. *)
Record Slot := mkSlot { sl_channel : Channel; sl_closed : bool }.

Record Client := mkClient {
  cl_config : ConnectConfig;
  cl_slots : list Slot;
  cl_current : nat;
  cl_lock : option nat;
  cl_callers : gmap nat CallerPc;
}.

Definition build (parse_url : str -> option (option str)) (b : ClientBuilder) (a : Attempt)
    : result Client Error :=
  if negb skip_chain_compiled && cb_debug_mode b
  then Err (AttestationFailed (Rs_Attestation SkipChainNotCompiled))
  else
    let pcrs := default (mkPcrs [] [] []) (cb_pcrs b) in
    let? host := match parse_url (cb_url b) with
                 | None => Err (InvalidUrl "parse")
                 | Some None => Err (InvalidUrl "Missing host")
                 | Some (Some h) => Ok h
                 end in
    let config := mkConnectConfig (cb_url b) host pcrs (cb_debug_mode b) (cb_extra_headers b)
                    (cb_trust_upgrades b) (cb_auto_reconnect b) (cb_connect_timeout b) in
    let? ch := establish config a in
    Ok (mkClient config [mkSlot ch false] 0 None ∅).

Definition current_closed (c : Client) : bool :=
  from_option sl_closed true (cl_slots c !! cl_current c).

Definition set_caller (c : Client) (k : nat) (pc : CallerPc) : Client :=
  mkClient (cl_config c) (cl_slots c) (cl_current c) (cl_lock c) (<[k := pc]> (cl_callers c)).
Definition set_lock (c : Client) (l : option nat) : Client :=
  mkClient (cl_config c) (cl_slots c) (cl_current c) l (cl_callers c).

(** The steps of the system: a caller starts, a caller takes its next step
    (the attempt is used only by the one that establishes), a transport task
    ends, or a caller is dropped, which releases the lock it holds. *)
Inductive ClientEvent : Type :=
| Ev_Call (k : nat)
| Ev_Step (k : nat) (a : Attempt)
| Ev_ChannelEnds (slot : nat)
| Ev_Cancel (k : nat).

(** One step of [ensure_connected] for caller [k] at [pc]. *)
Definition caller_step (c : Client) (k : nat) (pc : CallerPc) (a : Attempt) : option Client :=
  match pc with
  | Pc_Check =>
      if negb (cc_auto_reconnect (cl_config c)) || negb (current_closed c)
      then Some (set_caller c k (Pc_Done (Ok tt)))
      else Some (set_caller c k Pc_Lock)
  | Pc_Lock =>
      match cl_lock c with
      | None => Some (set_lock (set_caller c k Pc_Recheck) (Some k))
      | Some _ => None
      end
  | Pc_Recheck =>
      if negb (current_closed c)
      then Some (set_lock (set_caller c k (Pc_Done (Ok tt))) None)
      else Some (set_caller c k Pc_Establish)
  | Pc_Establish =>
      match establish (cl_config c) a with
      | Ok ch => Some (set_caller c k (Pc_Install ch))
      | Err e => Some (set_lock (set_caller c k (Pc_Done (Err e))) None)
      end
  | Pc_Install ch =>
      Some (mkClient (cl_config c) (cl_slots c ++ [mkSlot ch false]) (length (cl_slots c)) None
              (<[k := Pc_Done (Ok tt)]> (cl_callers c)))
  | Pc_Done _ => None
  end.

Definition client_step (c : Client) (e : ClientEvent) : option Client :=
  match e with
  | Ev_Call k =>
      match cl_callers c !! k with
      | None => Some (set_caller c k Pc_Check)
      | Some _ => None
      end
  | Ev_Step k a => pc ← cl_callers c !! k; caller_step c k pc a
  | Ev_ChannelEnds i =>
      Some (mkClient (cl_config c) (alter (fun s => mkSlot (sl_channel s) true) i (cl_slots c))
              (cl_current c) (cl_lock c) (cl_callers c))
  | Ev_Cancel k =>
      match cl_callers c !! k with
      | Some (Pc_Done _) | None => None
      | Some _ =>
          Some (mkClient (cl_config c) (cl_slots c) (cl_current c)
                  (if bool_decide (cl_lock c = Some k) then None else cl_lock c)
                  (delete k (cl_callers c)))
      end
  end.

Fixpoint client_run (c : Client) (es : list ClientEvent) : option Client :=
  match es with
  | [] => Some c
  | e :: es => c ← client_step c e; client_run c es
  end.

(** ** Verification *)

(** The session's document is genuine, fresh and bound to the session's
    handshake, and shows measurements [pcrs]. *)
Definition attested_session (ch : Channel) (pcrs : Pcrs) : Prop :=
  exists doc i now,
    genuine_document AWS_NITRO_ROOT_CA_DER (ch_document ch) doc /\
    Z.abs (doc_timestamp doc - now) <= 24 * 60 * 60 * 1000 /\
    validate_expected_nonce doc (base64_encode (ch_hash ch)) = true /\
    from_doc_pcrs (doc_pcrs doc) = Ok i /\ image_pcrs i = pcrs.

(** The measurements a configuration accepts: the pinned ones or, when the
    caller follows upgrades, the tip of a chain of the caller's enclave that
    descends from them, whatever the backend served. *)
Definition accepted_pcrs (cfg : ConnectConfig) (pcrs : Pcrs) : Prop :=
  pcrs = cc_pcrs cfg \/
  exists tu row links now,
    cc_trust_upgrades cfg = Some tu /\ no_pins (cc_pcrs cfg) = false /\
    verify_pcr_descent sha256 hex_encode hex_decode skip_chain_compiled (tu_enclave_id tu)
      (row_pcrs row) (row_image_digest row) (row_control_public_key row) (row_upgradable row)
      now false (cc_pcrs cfg) links = Ok pcrs.

Definition verified (cfg : ConnectConfig) (ch : Channel) : Prop :=
  exists pcrs, attested_session ch pcrs /\ accepted_pcrs cfg pcrs.

Lemma check_live_Ok doc hh now pcrs :
  check_live doc hh false now pcrs = Ok tt -> attested_session (mkChannel hh doc) pcrs.
Proof.
  unfold check_live, validate_live, validate_session_at. intros Hc.
  destruct (validate_session_with _ _ _ _ _) as [v|] eqn:Hv; [|done].
  apply require_pcrs_Ok in Hc. apply validate_session_with_Ok in Hv as (d & b & Ho & Hs & Hn & Hf).
  apply open_document_Ok in Ho as [-> Hg]. apply from_doc_Ok in Hf as (i & Hi & ->).
  exists d, i, now. done.
Qed.

Lemma establish_verified cfg a ch :
  cc_debug_mode cfg = false -> establish cfg a = Ok ch -> verified cfg ch.
Proof.
  unfold establish, establish_channel. intros Hd He. destruct (at_times_out a); [done|].
  destruct (at_ws a); [|done]. destruct (at_handshake a) as [hh|]; [|done].
  destruct (at_reply a) as [[data cn| | | | |]|]; try done. rewrite Hd in He.
  destruct (check_live data hh false _ _) as [[]|e] eqn:Hc.
  { injection He as <-. exists (cc_pcrs cfg). split; [by eapply check_live_Ok|by left]. }
  destruct (cc_trust_upgrades cfg) as [tu|] eqn:Htu; [|done].
  destruct (no_pins (cc_pcrs cfg)) eqn:Hp; [done|].
  unfold verify_via_upgrade_chain in He.
  destruct (at_row a) as [row|]; [|done]. destruct (at_chain a) as [wire|]; [|done].
  cbn [map_err] in He. destruct (decode_links wire) as [links|]; [|done]. cbn [map_err] in He.
  destruct (verify_pcr_descent _ _ _ _ _ _ _ _ _ _ _ _ _) as [tip|] eqn:Hdesc; [|done]. cbn [map_err] in He.
  destruct (check_live data hh false _ tip) as [[]|] eqn:Ht; [|done]. injection He as <-.
  exists tip. split; [by eapply check_live_Ok|]. right. by exists tu, row, links, (at_now a).
Qed.

(** A caller inside the critical section. *)
Definition holds_lock (pc : CallerPc) : bool :=
  match pc with Pc_Recheck | Pc_Establish | Pc_Install _ => true | _ => false end.
Definition replaces (pc : CallerPc) : bool :=
  match pc with Pc_Establish | Pc_Install _ => true | _ => false end.

Record client_inv (cfg : ConnectConfig) (c : Client) : Prop := {
  ci_config_same : cl_config c = cfg;
  ci_slots_verified s : s ∈ cl_slots c -> verified cfg (sl_channel s);
  ci_current_in : (cl_current c < length (cl_slots c))%nat;
  ci_others_closed i s : cl_slots c !! i = Some s -> i <> cl_current c -> sl_closed s = true;
  ci_holder k pc : cl_callers c !! k = Some pc -> holds_lock pc = true -> cl_lock c = Some k;
  ci_replaces k pc : cl_callers c !! k = Some pc -> replaces pc = true -> current_closed c = true;
  ci_install k ch : cl_callers c !! k = Some (Pc_Install ch) -> verified cfg ch;
}.

(** The configuration of a client is its builder's. *)
Lemma build_config parse_url b a c :
  build parse_url b a = Ok c ->
  cc_debug_mode (cl_config c) = cb_debug_mode b /\
  cc_pcrs (cl_config c) = default (mkPcrs [] [] []) (cb_pcrs b).
Proof.
  unfold build. intros Hb. destruct (negb skip_chain_compiled && cb_debug_mode b); [done|].
  destruct (parse_url (cb_url b)) as [[h|]|]; try done.
  destruct (establish _ a); [|done]. by injection Hb as <-.
Qed.

Lemma build_inv parse_url b a c :
  cb_debug_mode b = false -> build parse_url b a = Ok c -> client_inv (cl_config c) c.
Proof.
  unfold build. intros Hd Hb. rewrite Hd, andb_false_r in Hb.
  destruct (parse_url (cb_url b)) as [[h|]|]; try done.
  destruct (establish _ a) as [ch|] eqn:He; [|done]. injection Hb as <-.
  split; cbn [cl_config cl_slots cl_current cl_lock cl_callers]; try done.
  - intros s ->%list_elem_of_singleton. cbn [sl_channel]. by eapply establish_verified.
  - simpl. lia.
  - intros [|i] s Hs Hne; done.
Qed.

(** A caller moves to [pc] while the slots stay: what has to hold of [pc]. *)
Lemma set_caller_inv cfg c k pc lock :
  client_inv cfg c ->
  (holds_lock pc = true -> lock = Some k) ->
  (replaces pc = true -> current_closed c = true) ->
  (forall ch, pc = Pc_Install ch -> verified cfg ch) ->
  (forall k' pc', k' <> k -> cl_callers c !! k' = Some pc' -> holds_lock pc' = true -> lock = Some k') ->
  client_inv cfg (set_lock (set_caller c k pc) lock).
Proof.
  intros [Hcfg Hs Hc Ho Hh Hr Hi] Hl1 Hl2 Hl3 Hl4.
  split; cbn [set_lock set_caller cl_config cl_slots cl_current cl_lock cl_callers]; try done.
  - intros k' pc' Hk Hl. destruct (decide (k' = k)) as [->|Hne].
    + rewrite lookup_insert_eq in Hk. injection Hk as <-. auto.
    + rewrite lookup_insert_ne in Hk by done. eauto.
  - intros k' pc' Hk Hl. destruct (decide (k' = k)) as [->|Hne].
    + rewrite lookup_insert_eq in Hk. injection Hk as <-. auto.
    + rewrite lookup_insert_ne in Hk by done. eapply Hr; eauto.
  - intros k' ch Hk. destruct (decide (k' = k)) as [->|Hne].
    + rewrite lookup_insert_eq in Hk. injection Hk as ->. auto.
    + rewrite lookup_insert_ne in Hk by done. eauto.
Qed.

Lemma set_lock_same c : set_lock c (cl_lock c) = c.
Proof. by destruct c. Qed.

(** The other callers are outside while one is inside. *)
Lemma inv_others cfg c k pc k' pc' :
  client_inv cfg c -> cl_callers c !! k = Some pc -> holds_lock pc = true -> k' <> k ->
  cl_callers c !! k' = Some pc' -> holds_lock pc' = true -> False.
Proof. intros Hc Hk Hp Hne Hk' Hp'. pose proof (ci_holder _ _ Hc _ _ Hk Hp). pose proof (ci_holder _ _ Hc _ _ Hk' Hp'). congruence. Qed.

Lemma caller_step_inv cfg c k pc a c' :
  cc_debug_mode cfg = false -> client_inv cfg c -> cl_callers c !! k = Some pc ->
  caller_step c k pc a = Some c' -> client_inv cfg c'.
Proof.
  intros Hd Hc Hk Hs. pose proof (ci_config_same _ _ Hc) as Hcfg.
  assert (Hmove : forall pc', (holds_lock pc' = true -> cl_lock c = Some k) ->
    (replaces pc' = true -> current_closed c = true) -> (forall ch, pc' = Pc_Install ch -> verified cfg ch) ->
    client_inv cfg (set_caller c k pc')).
  { intros pc' Hl1 Hl2 Hl3. rewrite <- (set_lock_same (set_caller c k pc')).
    apply set_caller_inv; [done..|]. intros k' pc'' _ Hk' Hp'. exact (ci_holder _ _ Hc _ _ Hk' Hp'). }
  assert (Hrelease : forall r, holds_lock pc = true ->
    client_inv cfg (set_lock (set_caller c k (Pc_Done r)) None)).
  { intros r Hp. apply set_caller_inv; try done. intros k' pc' Hne Hk' Hp'. exfalso.
    by eapply (inv_others cfg c k pc k' pc'). }
  destruct pc; cbn [caller_step] in Hs.
  - case_match; injection Hs as <-; by apply Hmove.
  - destruct (cl_lock c) eqn:Hl; [done|]. injection Hs as <-. apply set_caller_inv; try done.
    intros k' pc' Hne Hk' Hp'. pose proof (ci_holder _ _ Hc _ _ Hk' Hp'). congruence.
  - destruct (current_closed c) eqn:Hcl; cbn [negb] in Hs; injection Hs as <-; [|by apply Hrelease].
    apply Hmove; try done. intros _. by apply (ci_holder _ _ Hc _ _ Hk).
  - rewrite Hcfg in Hs. destruct (establish cfg a) as [ch|e] eqn:He; injection Hs as <-; [|by apply Hrelease].
    apply Hmove; [intros _; by apply (ci_holder _ _ Hc _ _ Hk)|intros _; by apply (ci_replaces _ _ Hc _ _ Hk)|].
    intros ch' [= <-]. by eapply establish_verified.
  - injection Hs as <-. pose proof (ci_replaces _ _ Hc _ _ Hk eq_refl) as Hcl.
    assert (Hold : forall i s, cl_slots c !! i = Some s -> sl_closed s = true).
    { intros i s Hi. destruct (decide (i = cl_current c)) as [->|Hne]; [|by eapply ci_others_closed].
      unfold current_closed in Hcl. by rewrite Hi in Hcl. }
    split; cbn [cl_config cl_slots cl_current cl_lock cl_callers]; try done.
    + intros s [Hs|Hs]%elem_of_app; [by eapply ci_slots_verified|].
      apply list_elem_of_singleton in Hs as ->. cbn [sl_channel]. by eapply ci_install.
    + rewrite length_app. simpl. lia.
    + intros i s Hi Hne. apply lookup_app_Some in Hi as [Hi|[Hge Hi]]; [eauto|].
      destruct (i - length (cl_slots c))%nat eqn:Hz; [lia|done].
    + intros k' pc' Hk' Hp'. destruct (decide (k' = k)) as [->|Hne].
      * rewrite lookup_insert_eq in Hk'. by injection Hk' as <-.
      * rewrite lookup_insert_ne in Hk' by done. exfalso. by eapply (inv_others cfg c k _ k' pc' Hc Hk).
    + intros k' pc' Hk' Hp'. destruct (decide (k' = k)) as [->|Hne].
      * rewrite lookup_insert_eq in Hk'. by injection Hk' as <-.
      * rewrite lookup_insert_ne in Hk' by done. exfalso.
        eapply (inv_others cfg c k _ k' pc' Hc Hk eq_refl Hne Hk'). by destruct pc'.
    + intros k' ch' Hk'. destruct (decide (k' = k)) as [->|Hne].
      * by rewrite lookup_insert_eq in Hk'.
      * rewrite lookup_insert_ne in Hk' by done. by eapply ci_install.
  - done.
Qed.

Lemma client_step_inv cfg c e c' :
  cc_debug_mode cfg = false -> client_inv cfg c -> client_step c e = Some c' -> client_inv cfg c'.
Proof.
  intros Hd Hc Hs. destruct e as [k|k a|i|k]; cbn [client_step] in Hs.
  - destruct (cl_callers c !! k) eqn:Hk; [done|]. injection Hs as <-.
    rewrite <- (set_lock_same (set_caller c k Pc_Check)). apply set_caller_inv; [done..|].
    intros k' pc'' _ Hk' Hp'. exact (ci_holder _ _ Hc _ _ Hk' Hp').
  - destruct (cl_callers c !! k) as [pc|] eqn:Hk; [|done]. by eapply caller_step_inv.
  - injection Hs as <-. destruct Hc as [Hcfg Hsl Hcur Ho Hh Hr Hi].
    assert (Hlook : forall j s, alter (fun s => mkSlot (sl_channel s) true) i (cl_slots c) !! j = Some s ->
      exists s0, cl_slots c !! j = Some s0 /\ sl_channel s = sl_channel s0 /\
        (sl_closed s0 = true -> sl_closed s = true)).
    { intros j s Hj. destruct (decide (i = j)) as [->|Hne].
      - rewrite list_lookup_alter_eq in Hj. apply fmap_Some in Hj as (s0 & ? & ->). by exists s0.
      - rewrite list_lookup_alter_ne in Hj by done. by exists s. }
    split; cbn [cl_config cl_slots cl_current cl_lock cl_callers]; try done.
    + intros s [j Hj]%list_elem_of_lookup. destruct (Hlook _ _ Hj) as (s0 & Hs0 & -> & _).
      apply Hsl. by eapply list_elem_of_lookup_2.
    + by rewrite length_alter.
    + intros j s Hj Hne. destruct (Hlook _ _ Hj) as (s0 & Hs0 & _ & Hcl). eauto.
    + intros k pc Hk Hp. specialize (Hr k pc Hk Hp). unfold current_closed in *.
      cbn [cl_slots cl_current]. destruct (alter _ i (cl_slots c) !! cl_current c) as [s|] eqn:Hj; [|done].
      destruct (Hlook _ _ Hj) as (s0 & Hs0 & _ & Hcl). rewrite Hs0 in Hr. cbn in *. auto.
  - destruct (cl_callers c !! k) as [pc|] eqn:Hk; [|done].
    assert (c' = mkClient (cl_config c) (cl_slots c) (cl_current c)
      (if bool_decide (cl_lock c = Some k) then None else cl_lock c) (delete k (cl_callers c))) as ->
      by (destruct pc; by simplify_eq). clear Hs.
    destruct Hc as [Hcfg Hsl Hcur Ho Hh Hr Hi].
    split; cbn [cl_config cl_slots cl_current cl_lock cl_callers]; try done.
    + intros k' pc' Hk' Hp'. apply lookup_delete_Some in Hk' as [Hne Hk'].
      specialize (Hh _ _ Hk' Hp'). rewrite bool_decide_eq_false_2; [done|congruence].
    + intros k' pc' Hk' Hp'. apply lookup_delete_Some in Hk' as [Hne Hk']. exact (Hr _ _ Hk' Hp').
    + intros k' ch Hk'. apply lookup_delete_Some in Hk' as [Hne Hk']. eauto.
Qed.

Lemma client_run_inv cfg c es c' :
  cc_debug_mode cfg = false -> client_inv cfg c -> client_run c es = Some c' -> client_inv cfg c'.
Proof.
  intros Hd. revert c. induction es as [|e es IH]; intros c Hc Hr; [by injection Hr as <-|].
  cbn [client_run] in Hr. destruct (client_step c e) as [c1|] eqn:Hs; [|done].
  eapply IH; [by eapply client_step_inv|done].
Qed.

(** C15: no caller ever reaches an enclave that was not verified against the
    original pins.  Whatever the backend serves, however often the channel
    drops and however the callers of a client interleave, in a client that
    verifies the certificate chain every session it ever attached to answered
    with a genuine, fresh document bound to that session's own handshake, whose
    measurements are the pinned ones or, if the caller follows upgrades, the
    tip of a chain of the caller's enclave that descends from them; the
    configuration is never changed. *)
Theorem every_channel_is_verified parse_url b a es c0 c :
  cb_debug_mode b = false ->
  build parse_url b a = Ok c0 -> client_run c0 es = Some c ->
  cl_config c = cl_config c0 /\ cc_pcrs (cl_config c0) = default (mkPcrs [] [] []) (cb_pcrs b) /\
  forall s, s ∈ cl_slots c -> verified (cl_config c0) (sl_channel s).
Proof.
  intros Hd Hb Hr. pose proof (build_inv _ _ _ _ Hd Hb) as Hi.
  destruct (build_config _ _ _ _ Hb) as [Hd0 Hp]. rewrite Hd in Hd0.
  pose proof (client_run_inv _ _ _ _ Hd0 Hi Hr) as [Hc Hs _ _ _ _ _]. auto.
Qed.

(** The sessions that are alive: the slots not closed, and those a caller
    established and has not installed yet. *)
Definition installing (kp : nat * CallerPc) : bool :=
  match kp.2 with Pc_Install _ => true | _ => false end.

Definition live_sessions (c : Client) : nat :=
  length (filter (fun s => sl_closed s = false) (cl_slots c)) +
  length (filter (fun kp => installing kp = true) (map_to_list (cl_callers c))).

Lemma at_most_one {A} (l : list A) :
  NoDup l -> (forall x y, x ∈ l -> y ∈ l -> x = y) -> (length l <= 1)%nat.
Proof.
  intros Hn Hl. destruct l as [|x [|y l]]; simpl; [lia..|]. exfalso.
  apply NoDup_cons in Hn as [Hn _]. apply Hn. rewrite (Hl x y); set_solver.
Qed.

Lemma filter_current (l : list Slot) n :
  (forall i s, l !! i = Some s -> i <> n -> sl_closed s = true) ->
  filter (fun s => sl_closed s = false) l =
  match l !! n with Some s => if sl_closed s then [] else [s] | None => [] end.
Proof.
  revert n. induction l as [|s l IH]; intros n Hn; [done|].
  rewrite filter_cons. destruct n as [|n].
  - cbn [lookup list_lookup].
    assert (filter (fun s => sl_closed s = false) l = []) as ->.
    { rewrite (IH (length l)); [by rewrite lookup_ge_None_2|]. intros i s' Hi _. by apply (Hn (S i) s'). }
    by destruct (sl_closed s).
  - rewrite (Hn 0%nat s) by done. case_decide; [done|]. apply IH.
    intros i s' Hi Hne. apply (Hn (S i) s'); [done|lia].
Qed.

(** Reconnecting is single-flight.  Whatever the callers do, the client
    never has two live sessions at a time, the one being installed counted;
    and a caller that is told it may go on, when reconnecting is enabled, finds
    the current channel alive at that moment. *)
Theorem at_most_one_live_session parse_url b a es c0 c :
  cb_debug_mode b = false ->
  build parse_url b a = Ok c0 -> client_run c0 es = Some c ->
  (live_sessions c <= 1)%nat /\
  forall k pc a' c', cl_callers c !! k = Some pc -> caller_step c k pc a' = Some c' ->
    cl_callers c' !! k = Some (Pc_Done (Ok tt)) -> cc_auto_reconnect (cl_config c) = true ->
    current_closed c' = false.
Proof.
  intros Hd Hb Hr. pose proof (build_inv _ _ _ _ Hd Hb) as Hi.
  destruct (build_config _ _ _ _ Hb) as [Hd0 _]. rewrite Hd in Hd0.
  pose proof (client_run_inv _ _ _ _ Hd0 Hi Hr) as Hc. split.
  - unfold live_sessions. rewrite (filter_current _ (cl_current c) (ci_others_closed _ _ Hc)).
    set (busy := filter _ (map_to_list (cl_callers c))).
    assert (Hbusy : forall k pc, (k, pc) ∈ busy -> cl_callers c !! k = Some pc /\ installing (k, pc) = true).
    { intros k pc Hin. apply list_elem_of_filter in Hin as [? Hin]. by apply elem_of_map_to_list in Hin. }
    assert (Hone : (length busy <= 1)%nat).
    { apply at_most_one; [apply NoDup_filter, NoDup_map_to_list|].
      intros [k pc] [k' pc'] [Hk Hp]%Hbusy [Hk' Hp']%Hbusy.
      assert (k' = k) as ->; [|congruence].
      destruct (decide (k' = k)) as [|Hne]; [done|]. exfalso.
      apply (inv_others _ c k pc k' pc' Hc Hk); [by destruct pc|done|done|by destruct pc']. }
    destruct (cl_slots c !! cl_current c) as [s|] eqn:Hs; [|done].
    destruct (sl_closed s) eqn:Hcl; [done|]. destruct busy as [|[k pc] busy']; [simpl; lia|].
    destruct (Hbusy k pc ltac:(left)) as [Hk Hp].
    assert (current_closed c = true) as Hcc by (eapply (ci_replaces _ _ Hc k pc Hk); by destruct pc).
    unfold current_closed in Hcc. rewrite Hs in Hcc. cbn in Hcc. congruence.
  - intros k pc a' c' Hk Hs Hdone Hauto. destruct pc; cbn [caller_step] in Hs.
    + rewrite Hauto in Hs. cbn [negb orb] in Hs. destruct (current_closed c) eqn:Hcl; cbn [negb] in Hs;
        injection Hs as <-; cbn [set_caller cl_callers] in Hdone; rewrite lookup_insert_eq in Hdone; done.
    + destruct (cl_lock c); [done|]. injection Hs as <-.
      cbn [set_lock set_caller cl_callers] in Hdone. by rewrite lookup_insert_eq in Hdone.
    + destruct (current_closed c) eqn:Hcl; cbn [negb] in Hs; injection Hs as <-; [|done].
      cbn [set_caller cl_callers] in Hdone. by rewrite lookup_insert_eq in Hdone.
    + destruct (establish _ _); injection Hs as <-; cbn [set_lock set_caller cl_callers] in Hdone;
        by rewrite lookup_insert_eq in Hdone.
    + injection Hs as <-. unfold current_closed. cbn [cl_slots cl_current].
      rewrite lookup_app_r, Nat.sub_diag by done. done.
    + done.
Qed.

(** A refusal is final.  An attempt whose handshake
    completed and whose enclave answered with a document fails only with an
    error that is not retryable, so no retry loop of a caller ever hides an
    attestation mismatch. *)
Theorem refusals_are_not_retryable cfg a hh data cn e :
  at_times_out a = false -> at_ws a = Ok tt -> at_handshake a = Ok hh ->
  at_reply a = Ok (S_Attestation data cn) -> establish cfg a = Err e ->
  is_retryable e = false.
Proof.
  unfold establish, establish_channel. intros -> -> -> ->.
  destruct (check_live _ _ _ _ _); [done|].
  destruct (cc_trust_upgrades cfg) as [tu|]; [|by intros [= <-]].
  destruct (no_pins _); [by intros [= <-]|]. unfold verify_via_upgrade_chain.
  destruct (at_row a); [|by intros [= <-]]. destruct (at_chain a); [|by intros [= <-]].
  cbn [map_err]. destruct (decode_links _); [|by intros [= <-]]. cbn [map_err].
  destruct (verify_pcr_descent _ _ _ _ _ _ _ _ _ _ _ _ _); [|by intros [= <-]]. cbn [map_err].
  destruct (check_live _ _ _ _ _); [done|]. by intros [= <-].
Qed.
End Establish.

(** ** A concrete client *)

Module SdkDemo.
#[export] Instance no_boot : Cbor BootPayload := {| encode _ := []; from_reader _ := Err "none"%string |}.
#[export] Instance no_upgrade : Cbor UpgradePayload := {| encode _ := []; from_reader _ := Err "none"%string |}.
#[export] Instance no_revocation : Cbor RevocationPayload := {| encode _ := []; from_reader _ := Err "none"%string |}.

Definition pins : Pcrs := mkPcrs (replicate 48 1) (replicate 48 1) (replicate 48 1).

(** An attempt that reaches an enclave with measurements [seed], over a session
    whose handshake hash is [h]. *)
Definition attempt (h seed : Z) : Attempt :=
  mkAttempt (Ok tt) (Ok [h]) (Ok (S_Attestation (toy_document h seed []) [])) 1000000
    (Err "down"%string) (Err "down"%string) 0 1000000 false.

Definition builder : ClientBuilder := set_pcrs (builder_new []) pins.
Definition url (_ : str) : option (option str) := Some (Some []).

(** The first channel ends; two callers notice, and the second waits and then
    finds the channel the first one installed. *)
Definition reconnect : list ClientEvent :=
  [Ev_ChannelEnds 0; Ev_Call 1; Ev_Call 2; Ev_Step 1 (attempt 7 1); Ev_Step 2 (attempt 7 1);
   Ev_Step 1 (attempt 7 1); Ev_Step 1 (attempt 7 1); Ev_Step 1 (attempt 7 1); Ev_Step 1 (attempt 7 1);
   Ev_Step 2 (attempt 7 1); Ev_Step 2 (attempt 7 1)].
End SdkDemo.

#[local] Existing Instances toy_P256 toy_NitroLib SdkDemo.no_boot SdkDemo.no_upgrade SdkDemo.no_revocation.

Definition demo_build := build toy_sha256 demo_hex_encode demo_hex_decode (fun _ => None) false SdkDemo.url.
Definition demo_run := client_run toy_sha256 demo_hex_encode demo_hex_decode (fun _ => None) false.

Lemma every_channel_is_verified_witness :
  exists c0 c, demo_build SdkDemo.builder (SdkDemo.attempt 5 1) = Ok c0 /\
    demo_run c0 SdkDemo.reconnect = Some c /\ length (cl_slots c) = 2%nat /\
    forall s, s ∈ cl_slots c ->
      verified toy_sha256 demo_hex_encode demo_hex_decode false (cl_config c0) (sl_channel s).
Proof.
  destruct (demo_build SdkDemo.builder (SdkDemo.attempt 5 1)) as [c0|] eqn:Hb; [|by vm_compute in Hb].
  exists c0. destruct (demo_run c0 SdkDemo.reconnect) as [c|] eqn:Hr.
  2:{ vm_compute in Hb. injection Hb as <-. by vm_compute in Hr. }
  exists c. split; [done|]. split; [done|]. split.
  - vm_compute in Hb. injection Hb as <-. vm_compute in Hr. by injection Hr as <-.
  - exact (proj2 (proj2 (every_channel_is_verified toy_sha256 demo_hex_encode demo_hex_decode
      (fun _ => None) false SdkDemo.url SdkDemo.builder (SdkDemo.attempt 5 1) SdkDemo.reconnect c0 c
      eq_refl Hb Hr))).
Defined.

Lemma at_most_one_live_session_witness :
  exists c0 c, demo_build SdkDemo.builder (SdkDemo.attempt 5 1) = Ok c0 /\
    demo_run c0 SdkDemo.reconnect = Some c /\ (live_sessions c <= 1)%nat.
Proof.
  destruct (demo_build SdkDemo.builder (SdkDemo.attempt 5 1)) as [c0|] eqn:Hb; [|by vm_compute in Hb].
  exists c0. destruct (demo_run c0 SdkDemo.reconnect) as [c|] eqn:Hr.
  2:{ vm_compute in Hb. injection Hb as <-. by vm_compute in Hr. }
  exists c. split; [done|]. split; [done|].
  exact (proj1 (at_most_one_live_session toy_sha256 demo_hex_encode demo_hex_decode
    (fun _ => None) false SdkDemo.url SdkDemo.builder (SdkDemo.attempt 5 1) SdkDemo.reconnect c0 c
    eq_refl Hb Hr)).
Defined.

Lemma refusals_are_not_retryable_witness :
  exists e, establish toy_sha256 demo_hex_encode demo_hex_decode (fun _ => None) false
    (mkConnectConfig [] [] SdkDemo.pins false [] None true 10000) (SdkDemo.attempt 5 2) = Err e /\
    is_retryable e = false.
Proof.
  eexists. split; [vm_compute; reflexivity|].
  eapply (refusals_are_not_retryable toy_sha256 demo_hex_encode demo_hex_decode (fun _ => None) false
    (mkConnectConfig [] [] SdkDemo.pins false [] None true 10000) (SdkDemo.attempt 5 2));
    [reflexivity..|]. vm_compute. reflexivity.
Defined.
