(* ===== verification/SdkTransport.v ===== *)
(** The SDK's transport task and the byte streams on top of it
    ([enclavia/src/transport.rs] and [stream.rs], and [send_request] and
    [open_stream] of [client.rs]).

    One task owns the WebSocket and the Noise state.  The callers reach it
    through a bounded command queue; it answers a request through the request's
    own one-shot channel and feeds each stream through a bounded queue.  The
    world holds the task's tables, the queues and the callers' ends; an event is
    one atomic step of the task or of a caller, so a list of events is a
    schedule, and every schedule is one.  The environment chooses how a send on
    the WebSocket ends and which frames arrive. *)
From stdpp Require Import base gmap list strings.
From S2P Require Import Prelude Signing Text Transport Sdk.
#[local] Open Scope Z_scope.

Definition CMD_CAPACITY : nat := 64.
Definition STREAM_CAPACITY : nat := 64.

(** ** Framing *)

Section Framing.
Context `{Noise} `{Cbor SdkClientMessage} `{Cbor SdkServerMessage}.

(** The ciphertext behind its length. *)
Definition encrypt_cbor (st : NoiseState) (msg : SdkClientMessage) : result (bytes * NoiseState) Error :=
  match write_message st (encode msg) with
  | None => Err NoiseError
  | Some (ct, st) => Ok (be_encode 4 (Z.of_nat (length ct)) ++ ct, st)
  end.

(** A message and the number of bytes it took, or nothing yet. *)
Definition try_decrypt (st : NoiseState) (accum : bytes)
    : result (option (SdkServerMessage * nat * NoiseState)) Error :=
  if (length accum <? 4)%nat then Ok None
  else
    let encrypted_len := Z.to_nat (be_decode (take 4 accum)) in
    if (length accum <? 4 + encrypted_len)%nat then Ok None
    else
      match read_message st (take encrypted_len (drop 4 accum)) with
      | None => Err NoiseError
      | Some (payload, st) =>
          let? msg := map_err CborError (from_reader payload) in
          Ok (Some (msg, (4 + encrypted_len)%nat, st))
      end.
End Framing.

(** ** A stream's reading and writing end *)

Abbreviation item := (result bytes Error).

Record UpgradedStream := mkUpgraded {
  us_id : Z;
  us_read_buf : bytes;
  us_read_pos : nat;
  us_eof : bool;
  us_write_closed : bool;
}.

Definition upgraded_new (id : Z) (initial : bytes) : UpgradedStream :=
  mkUpgraded id initial 0 false false.

Definition unread (u : UpgradedStream) : bytes := drop (us_read_pos u) (us_read_buf u).

Definition prepend_read (u : UpgradedStream) (bs : bytes) : UpgradedStream :=
  match bs with
  | [] => u
  | _ => mkUpgraded (us_id u) (bs ++ unread u) 0 (us_eof u) (us_write_closed u)
  end.

(** The answer of a read: bytes (none at the end), an error, or not yet. *)
Inductive ReadPoll : Type :=
| Read_Ready (bs : bytes)
| Read_Error (e : Error)
| Read_Pending.

(** The copy into the caller's buffer. *)
Definition take_buffered (u : UpgradedStream) (room : nat) : bytes * UpgradedStream :=
  let n := Nat.min (length (us_read_buf u) - us_read_pos u) room in
  let out := slice (us_read_buf u) (us_read_pos u) (us_read_pos u + n) in
  let pos := (us_read_pos u + n)%nat in
  if (pos =? length (us_read_buf u))%nat
  then (out, mkUpgraded (us_id u) [] 0 (us_eof u) (us_write_closed u))
  else (out, mkUpgraded (us_id u) (us_read_buf u) pos (us_eof u) (us_write_closed u)).

(** [poll_read] with an empty buffer, over the items in the queue; [tx] says
    whether the sender still exists. *)
Fixpoint poll_queue (u : UpgradedStream) (q : list item) (tx : bool) (room : nat)
    : ReadPoll * UpgradedStream * list item :=
  match q with
  | [] =>
      if tx then (Read_Pending, u, [])
      else (Read_Ready [], mkUpgraded (us_id u) (us_read_buf u) (us_read_pos u) true (us_write_closed u), [])
  | Ok [] :: q => poll_queue u q tx room
  | Ok chunk :: q =>
      let '(out, u) := take_buffered (mkUpgraded (us_id u) chunk 0 (us_eof u) (us_write_closed u)) room in
      (Read_Ready out, u, q)
  | Err e :: q => (Read_Error e, u, q)
  end.

Definition poll_read (u : UpgradedStream) (q : list item) (tx : bool) (room : nat)
    : ReadPoll * UpgradedStream * list item :=
  if (0 <? length (us_read_buf u) - us_read_pos u)%nat
  then let '(out, u) := take_buffered u room in (Read_Ready out, u, q)
  else if us_eof u then (Read_Ready [], u, q)
  else poll_queue u q tx room.

Inductive OutboundCommand : Type :=
| Cmd_Request (payload : bytes) (r : nat)
| Cmd_OpenStream (payload : bytes) (s : nat)
| Cmd_StreamData (id : Z) (payload : bytes)
| Cmd_StreamClose (id : Z) (half : SdkHalf).

(** [mpsc::Sender::try_send] on the command queue. *)
Inductive TrySend : Type := Sent (q : list OutboundCommand) | Full | Closed.

Definition try_send (alive : bool) (q : list OutboundCommand) (c : OutboundCommand) : TrySend :=
  if negb alive then Closed
  else if (length q <? CMD_CAPACITY)%nat then Sent (q ++ [c])
  else Full.

(** The answer of a write or a shutdown. *)
Inductive WritePoll : Type := Write_Ready (n : nat) | Write_BrokenPipe | Write_Pending.

Definition poll_write (u : UpgradedStream) (alive : bool) (q : list OutboundCommand) (bs : bytes)
    : WritePoll * list OutboundCommand :=
  if us_write_closed u then (Write_BrokenPipe, q)
  else match try_send alive q (Cmd_StreamData (us_id u) bs) with
       | Sent q => (Write_Ready (length bs), q)
       | Full => (Write_Pending, q)
       | Closed => (Write_BrokenPipe, q)
       end.

Definition shut (u : UpgradedStream) : UpgradedStream :=
  mkUpgraded (us_id u) (us_read_buf u) (us_read_pos u) (us_eof u) true.

Definition poll_shutdown (u : UpgradedStream) (alive : bool) (q : list OutboundCommand)
    : WritePoll * UpgradedStream * list OutboundCommand :=
  if us_write_closed u then (Write_Ready 0, u, q)
  else match try_send alive q (Cmd_StreamClose (us_id u) SdkWrite) with
       | Sent q => (Write_Ready 0, shut u, q)
       | Full => (Write_Pending, u, q)
       | Closed => (Write_Ready 0, shut u, q)
       end.

(** [Drop]: the close frame is tried once. *)
Definition drop_stream (u : UpgradedStream) (alive : bool) (q : list OutboundCommand)
    : list OutboundCommand :=
  match try_send alive q (Cmd_StreamClose (us_id u) SdkBoth) with
  | Sent q => q
  | _ => q
  end.

(** ** The world *)

(** A request: its bytes, every id it was put on the wire under, in order, what
    its one-shot channel delivered, and whether its caller gave up. *)
Record Request := mkRequest {
  rq_payload : bytes;
  rq_sends : list Z;
  rq_outcome : option (result bytes Error);
  rq_cancelled : bool;
}.

(** A stream: its opening bytes, the answer to the opening, the queue with its
    two ends, the caller's object, what reads returned, how reading ended
    ([true]: with an error), and what writes accepted. *)
Record Stream := mkStream {
  sm_payload : bytes;
  sm_opened : option (result Z Error);
  sm_queue : list item;
  sm_tx : bool;
  sm_rx : bool;
  sm_object : UpgradedStream;
  sm_got : bytes;
  sm_failed : bool;
  sm_accepted : list bytes;
}.

(** Where the task is: at its [select!], in the decoding loop, inside a send to
    a stream's queue ([final]: the sender is dropped afterwards), or returned. *)
Inductive TaskMode : Type :=
| M_Select
| M_Decode
| M_Blocked (s : nat) (id : Z) (i : item) (final : bool)
| M_Done.

(** The locals of [run_transport]. *)
Record TransportTask `{Noise} := mkTask {
  t_tx : NoiseState;
  t_rx : NoiseState;
  t_accum : bytes;
  t_next_id : Z;
  t_pending : gmap Z nat;
  t_streams : gmap Z nat;
  t_mode : TaskMode;
}.

Arguments mkTask {_}.
Arguments t_tx {_}.
Arguments t_rx {_}.
Arguments t_accum {_}.
Arguments t_next_id {_}.
Arguments t_pending {_}.
Arguments t_streams {_}.
Arguments t_mode {_}.

(** With the messages put on the WebSocket and those decrypted from it. *)
Record World `{Noise} := mkWorld {
  w_task : TransportTask;
  w_cmds : list OutboundCommand;
  w_requests : gmap nat Request;
  w_ends : gmap nat Stream;
  w_sent : list SdkClientMessage;
  w_received : list SdkServerMessage;
}.

Arguments mkWorld {_}.
Arguments w_task {_}.
Arguments w_cmds {_}.
Arguments w_requests {_}.
Arguments w_ends {_}.
Arguments w_sent {_}.
Arguments w_received {_}.

Section Task.
Context `{Noise} `{Cbor SdkClientMessage} `{Cbor SdkServerMessage}.

Definition set_task (w : World) (t : TransportTask) : World :=
  mkWorld t (w_cmds w) (w_requests w) (w_ends w) (w_sent w) (w_received w).
Definition set_cmds (w : World) (q : list OutboundCommand) : World :=
  mkWorld (w_task w) q (w_requests w) (w_ends w) (w_sent w) (w_received w).
Definition set_requests (w : World) (m : gmap nat Request) : World :=
  mkWorld (w_task w) (w_cmds w) m (w_ends w) (w_sent w) (w_received w).
Definition set_ends (w : World) (m : gmap nat Stream) : World :=
  mkWorld (w_task w) (w_cmds w) (w_requests w) m (w_sent w) (w_received w).
Definition log_sent (w : World) (m : SdkClientMessage) : World :=
  mkWorld (w_task w) (w_cmds w) (w_requests w) (w_ends w) (w_sent w ++ [m]) (w_received w).

Definition set_tables (w : World) (pending streams : gmap Z nat) : World :=
  let t := w_task w in
  set_task w (mkTask (t_tx t) (t_rx t) (t_accum t) (t_next_id t) pending streams (t_mode t)).
Definition set_mode (w : World) (m : TaskMode) : World :=
  let t := w_task w in
  set_task w (mkTask (t_tx t) (t_rx t) (t_accum t) (t_next_id t) (t_pending t) (t_streams t) m).
Definition set_tx_state (w : World) (st : NoiseState) : World :=
  let t := w_task w in
  set_task w (mkTask st (t_rx t) (t_accum t) (t_next_id t) (t_pending t) (t_streams t) (t_mode t)).
Definition set_next (w : World) (n : Z) : World :=
  let t := w_task w in
  set_task w (mkTask (t_tx t) (t_rx t) (t_accum t) n (t_pending t) (t_streams t) (t_mode t)).
Definition set_input (w : World) (st : NoiseState) (accum : bytes) : World :=
  let t := w_task w in
  set_task w (mkTask (t_tx t) st accum (t_next_id t) (t_pending t) (t_streams t) (t_mode t)).

(** A one-shot send: nothing happens when the receiver is gone or was told. *)
Definition answer_request (w : World) (r : nat) (o : result bytes Error) : World :=
  set_requests w (alter (fun q => match rq_outcome q, rq_cancelled q with
                                  | None, false => mkRequest (rq_payload q) (rq_sends q) (Some o) false
                                  | _, _ => q
                                  end) r (w_requests w)).

Definition on_end (w : World) (s : nat) (f : Stream -> Stream) : World :=
  set_ends w (alter f s (w_ends w)).

Definition answer_open (o : result Z Error) (e : Stream) : Stream :=
  match sm_opened e with
  | None =>
      mkStream (sm_payload e) (Some o) (sm_queue e) (sm_tx e)
        (match o with Ok _ => sm_rx e | Err _ => false end)
        (match o with Ok id => upgraded_new id [] | Err _ => sm_object e end)
        (sm_got e) (sm_failed e) (sm_accepted e)
  | Some _ => e
  end.

Definition push_item (i : item) (e : Stream) : Stream :=
  if sm_rx e
  then mkStream (sm_payload e) (sm_opened e) (sm_queue e ++ [i]) (sm_tx e) (sm_rx e) (sm_object e)
         (sm_got e) (sm_failed e) (sm_accepted e)
  else e.

Definition drop_sender (e : Stream) : Stream :=
  mkStream (sm_payload e) (sm_opened e) (sm_queue e) false (sm_rx e) (sm_object e)
    (sm_got e) (sm_failed e) (sm_accepted e).

(** [try_send] of a stream's terminal item, and then the sender is dropped. *)
Definition try_push_last (i : item) (e : Stream) : Stream :=
  drop_sender (if (length (sm_queue e) <? STREAM_CAPACITY)%nat then push_item i e else e).

(** [streams.remove(&id)], with what dropping the sender does. *)
Definition remove_stream (w : World) (id : Z) : World :=
  match t_streams (w_task w) !! id with
  | Some s => set_tables (on_end w s drop_sender) (t_pending (w_task w)) (delete id (t_streams (w_task w)))
  | None => w
  end.

Definition fail_stream (w : World) (id : Z) (e : Error) : World :=
  match t_streams (w_task w) !! id with
  | Some s => set_tables (on_end w s (try_push_last (Err e))) (t_pending (w_task w))
                (delete id (t_streams (w_task w)))
  | None => w
  end.

Definition notify_all_closed (w : World) : World :=
  let t := w_task w in
  let rs := (map_to_list (t_pending t)).*2 in
  let ss := (map_to_list (t_streams t)).*2 in
  let w := foldr (fun r w => answer_request w r (Err ConnectionClosed)) w rs in
  let w := foldr (fun s w => on_end w s (try_push_last (Err ConnectionClosed))) w ss in
  set_tables w ∅ ∅.

(** The task returns: the queued commands, the one-shot senders they and the
    pending table hold, and the stream senders are dropped. *)
Definition drop_command (c : OutboundCommand) (w : World) : World :=
  match c with
  | Cmd_Request _ r => answer_request w r (Err ConnectionClosed)
  | Cmd_OpenStream _ s => on_end w s (fun e => drop_sender (answer_open (Err ConnectionClosed) e))
  | _ => w
  end.

Definition finish (w : World) : World :=
  let rs := (map_to_list (t_pending (w_task w))).*2 in
  let ss := (map_to_list (t_streams (w_task w))).*2 in
  let w := foldr drop_command w (w_cmds w) in
  let w := foldr (fun r w => answer_request w r (Err ConnectionClosed)) w rs in
  let w := foldr (fun s w => on_end w s drop_sender) w ss in
  set_mode (set_tables (set_cmds w []) ∅ ∅) M_Done.

(** ** Commands *)

(** The encrypted message is put on the WebSocket, or the error it met. *)
Definition transmit (w : World) (msg : SdkClientMessage) (fate : option Error)
    : result World Error * World :=
  match encrypt_cbor (t_tx (w_task w)) msg with
  | Err e => (Err e, w)
  | Ok (_, st) =>
      let w := set_tx_state w st in
      match fate with
      | Some e => (Err e, w)
      | None => (Ok (log_sent w msg), w)
      end
  end.

(** The command arm of the loop; [fate] is how [ws.send] ends. *)
Definition handle_command (w : World) (c : OutboundCommand) (fate : option Error) : World :=
  match c with
  | Cmd_Request payload r =>
      let id := t_next_id (w_task w) in
      let w := set_next w (u64_add id 1) in
      match transmit w (C_Data id payload) fate with
      | (Ok w, _) =>
          let w := set_requests w (alter (fun q => mkRequest (rq_payload q) (rq_sends q ++ [id]) (rq_outcome q)
                                                     (rq_cancelled q)) r (w_requests w)) in
          set_tables w (<[id := r]> (t_pending (w_task w))) (t_streams (w_task w))
      | (Err e, w) => answer_request w r (Err e)
      end
  | Cmd_OpenStream payload s =>
      let id := t_next_id (w_task w) in
      let w := set_next w (u64_add id 1) in
      match transmit w (C_OpenStream id payload) fate with
      | (Ok w, _) =>
          on_end (set_tables w (t_pending (w_task w)) (<[id := s]> (t_streams (w_task w))))
            s (answer_open (Ok id))
      | (Err e, w) => on_end w s (fun e' => drop_sender (answer_open (Err e) e'))
      end
  | Cmd_StreamData id payload =>
      match transmit w (C_StreamData id payload) fate with
      | (Ok w, _) => w
      | (Err e, w) => fail_stream w id e
      end
  | Cmd_StreamClose id half =>
      let w := match transmit w (C_StreamClose id half) fate with
               | (Ok w, _) => w
               | (Err _, w) => w
               end in
      match half with SdkBoth => remove_stream w id | SdkWrite => w end
  end.

(** ** Messages *)

(** Sending to a stream's queue: at once when there is room or nobody reads,
    and otherwise the task waits. *)
Definition send_item (w : World) (s : nat) (id : Z) (i : item) (final : bool) : World :=
  match w_ends w !! s with
  | None => w
  | Some e =>
      if negb (sm_rx e) then (if final then on_end w s drop_sender else remove_stream w id)
      else if (length (sm_queue e) <? STREAM_CAPACITY)%nat
      then on_end w s (fun e => if final then drop_sender (push_item i e) else push_item i e)
      else set_mode w (M_Blocked s id i final)
  end.

Definition dispatch_response (w : World) (msg : SdkServerMessage) : World :=
  let pending := t_pending (w_task w) in
  let streams := t_streams (w_task w) in
  match msg with
  | S_Data id payload =>
      match pending !! id with
      | Some r => answer_request (set_tables w (delete id pending) streams) r (Ok payload)
      | None => w
      end
  | S_StreamData id payload =>
      match streams !! id with
      | Some s => send_item w s id (Ok payload) false
      | None => w
      end
  | S_StreamClose id => remove_stream w id
  | S_Error id message =>
      match pending !! id with
      | Some r =>
          answer_request (set_tables w (delete id pending) streams) r (Err (ServerError id message))
      | None =>
          match streams !! id with
          | Some s =>
              send_item (set_tables w pending (delete id streams)) s id
                (Err (ServerError id message)) true
          | None => w
          end
      end
  | S_Attestation _ _ | S_ControlResult _ _ => w
  end.

(** One round of the decoding loop. *)
Definition decode_step (w : World) : World :=
  let t := w_task w in
  match try_decrypt (t_rx t) (t_accum t) with
  | Ok None => set_mode w M_Select
  | Ok (Some (msg, consumed, st)) =>
      let w := set_input w st (drop consumed (t_accum t)) in
      let w := mkWorld (w_task w) (w_cmds w) (w_requests w) (w_ends w) (w_sent w)
                 (w_received w ++ [msg]) in
      dispatch_response w msg
  | Err _ => finish (notify_all_closed w)
  end.

(** ** Events *)

Inductive Event : Type :=
| U_Request (r : nat) (payload : bytes)
| U_Cancel (r : nat)
| U_Open (s : nat) (payload : bytes)
| U_Abandon (s : nat)
| U_Write (s : nat) (bs : bytes)
| U_Shutdown (s : nat)
| U_Drop (s : nat)
| U_Read (s : nat) (room : nat)
| T_Command (fate : option Error)
| T_Frame (data : bytes)
| T_Decode
| T_Unblock
| T_WsClosed
| T_WsError (e : Error)
| T_HandlesDropped.

Definition alive (w : World) : bool :=
  match t_mode (w_task w) with M_Done => false | _ => true end.

(** The object of an opened stream whose caller still has it. *)
Definition open_end (w : World) (s : nat) : option Stream :=
  match w_ends w !! s with
  | Some e => if sm_rx e then match sm_opened e with Some (Ok _) => Some e | _ => None end else None
  | None => None
  end.

Definition store_end (w : World) (s : nat) (e : Stream) : World := set_ends w (<[s := e]> (w_ends w)).

Definition set_object (e : Stream) (u : UpgradedStream) : Stream :=
  mkStream (sm_payload e) (sm_opened e) (sm_queue e) (sm_tx e) (sm_rx e) u (sm_got e) (sm_failed e) (sm_accepted e).

Definition read_end (e : Stream) (room : nat) : Stream :=
  match poll_read (sm_object e) (sm_queue e) (sm_tx e) room with
  | (Read_Ready bs, u, q) =>
      mkStream (sm_payload e) (sm_opened e) q (sm_tx e) (sm_rx e) u (sm_got e ++ bs) (sm_failed e) (sm_accepted e)
  | (Read_Error _, u, q) =>
      mkStream (sm_payload e) (sm_opened e) q (sm_tx e) (sm_rx e) u (sm_got e) true (sm_accepted e)
  | (Read_Pending, u, q) =>
      mkStream (sm_payload e) (sm_opened e) q (sm_tx e) (sm_rx e) u (sm_got e) (sm_failed e) (sm_accepted e)
  end.

(** The steps of the callers; [None]: not possible now (a fresh token is
    needed, the stream is not open, or the call waits for room). *)
Definition user_step (w : World) (e : Event) : option World :=
  match e with
  | U_Request r payload =>
      if bool_decide (is_Some (w_requests w !! r)) then None
      else if negb (alive w)
      then Some (set_requests w (<[r := mkRequest payload [] (Some (Err ConnectionClosed)) false]> (w_requests w)))
      else if (length (w_cmds w) <? CMD_CAPACITY)%nat
      then Some (set_cmds (set_requests w (<[r := mkRequest payload [] None false]> (w_requests w)))
                   (w_cmds w ++ [Cmd_Request payload r]))
      else None
  | U_Cancel r =>
      Some (set_requests w (alter (fun q => mkRequest (rq_payload q) (rq_sends q) (rq_outcome q) true) r (w_requests w)))
  | U_Open s payload =>
      let fresh o tx rx := mkStream payload o [] tx rx (upgraded_new 0 []) [] false [] in
      if bool_decide (is_Some (w_ends w !! s)) then None
      else if negb (alive w)
      then Some (store_end w s (fresh (Some (Err ConnectionClosed)) false false))
      else if (length (w_cmds w) <? CMD_CAPACITY)%nat
      then Some (set_cmds (store_end w s (fresh None true true)) (w_cmds w ++ [Cmd_OpenStream payload s]))
      else None
  | U_Abandon s =>
      match w_ends w !! s with
      | Some e =>
          match sm_opened e with
          | None =>
              Some (store_end w s (mkStream (sm_payload e) None (sm_queue e) (sm_tx e) false (sm_object e)
                      (sm_got e) (sm_failed e) (sm_accepted e)))
          | Some _ => None
          end
      | None => None
      end
  | U_Write s bs =>
      match open_end w s with
      | None => None
      | Some e =>
          match poll_write (sm_object e) (alive w) (w_cmds w) bs with
          | (Write_Ready _, q) =>
              Some (set_cmds (store_end w s
                (mkStream (sm_payload e) (sm_opened e) (sm_queue e) (sm_tx e) (sm_rx e) (sm_object e)
                   (sm_got e) (sm_failed e) (sm_accepted e ++ [bs]))) q)
          | (_, q) => Some (set_cmds w q)
          end
      end
  | U_Shutdown s =>
      match open_end w s with
      | None => None
      | Some e =>
          let '(_, u, q) := poll_shutdown (sm_object e) (alive w) (w_cmds w) in
          Some (set_cmds (store_end w s (set_object e u)) q)
      end
  | U_Drop s =>
      match open_end w s with
      | None => None
      | Some e =>
          Some (set_cmds (store_end w s
                  (mkStream (sm_payload e) (sm_opened e) [] (sm_tx e) false (sm_object e)
                     (sm_got e) (sm_failed e) (sm_accepted e)))
                  (drop_stream (sm_object e) (alive w) (w_cmds w)))
      end
  | U_Read s room =>
      match open_end w s with
      | None => None
      | Some e => Some (store_end w s (read_end e room))
      end
  | _ => None
  end.

(** No caller holds a sender of the command queue: none waits for a request,
    and none has a stream. *)
Definition no_handles (w : World) : bool :=
  forallb (fun q => rq_cancelled q || match rq_outcome q with Some _ => true | None => false end)
    (map_to_list (w_requests w)).*2 &&
  forallb (fun e => negb (sm_rx e)) (map_to_list (w_ends w)).*2.

Definition task_step (w : World) (e : Event) : option World :=
  match t_mode (w_task w), e with
  | M_Select, T_Command fate =>
      match w_cmds w with
      | c :: q => Some (handle_command (set_cmds w q) c fate)
      | [] => None
      end
  | M_Select, T_Frame data =>
      let t := w_task w in
      Some (set_mode (set_input w (t_rx t) (t_accum t ++ data)) M_Decode)
  | M_Select, (T_WsClosed | T_WsError _) => Some (finish (notify_all_closed w))
  | M_Select, T_HandlesDropped =>
      if bool_decide (w_cmds w = []) && no_handles w then Some (finish w) else None
  | M_Decode, T_Decode => Some (decode_step w)
  | M_Blocked s id i final, T_Unblock =>
      match w_ends w !! s with
      | Some e =>
          if sm_rx e && negb (length (sm_queue e) <? STREAM_CAPACITY)%nat then None
          else Some (send_item (set_mode w M_Decode) s id i final)
      | None => None
      end
  | _, _ => None
  end.

Definition step (w : World) (e : Event) : option World :=
  match e with
  | T_Command _ | T_Frame _ | T_Decode | T_Unblock | T_WsClosed | T_WsError _
  | T_HandlesDropped => task_step w e
  | _ => user_step w e
  end.

Fixpoint run (w : World) (es : list Event) : option World :=
  match es with
  | [] => Some w
  | e :: es => w ← step w e; run w es
  end.

Definition start (tx rx : NoiseState) : World :=
  mkWorld (mkTask tx rx [] 1 ∅ ∅ M_Select) [] ∅ ∅ [] [].
End Task.

(** ** A toy channel *)

Module TransportDemo.
#[export] Instance toy_client_cbor : Cbor SdkClientMessage := {|
  encode m := match m with
              | C_RequestAttestation => [0]
              | C_Data id p => 1 :: id :: p
              | C_Control p s => 2 :: p ++ s
              | C_OpenStream id p => 3 :: id :: p
              | C_StreamData id p => 4 :: id :: p
              | C_StreamClose id SdkWrite => [5; id]
              | C_StreamClose id SdkBoth => [6; id]
              end;
  from_reader _ := Err "client side"%string;
|}.

#[export] Instance toy_server_cbor : Cbor SdkServerMessage := {|
  encode m := match m with
              | S_Data id p => 1 :: id :: p
              | S_Error id _ => [2; id]
              | S_StreamData id p => 3 :: id :: p
              | S_StreamClose id => [4; id]
              | _ => [0]
              end;
  from_reader b := match b with
                   | 1 :: id :: p => Ok (S_Data id p)
                   | 2 :: id :: _ => Ok (S_Error id [])
                   | 3 :: id :: p => Ok (S_StreamData id p)
                   | 4 :: id :: _ => Ok (S_StreamClose id)
                   | _ => Err "tag"%string
                   end;
|}.

#[local] Existing Instance NoiseDemo.toy_noise.

(** The enclave's [n]th message as it is on the WebSocket. *)
Definition frame (n : Z) (m : SdkServerMessage) : bytes :=
  let ct := n :: encode m in be_encode 4 (Z.of_nat (length ct)) ++ ct.

Definition zero : @NoiseState NoiseDemo.toy_noise := 0.
Definition fresh : World := start zero zero.

(** A request and a stream; the response and a chunk arrive in one frame that
    is cut in two; a second request is still waiting when the socket closes. *)
Definition schedule : list Event :=
  let both := frame 0 (S_StreamData 2 [7; 8; 9]) ++ frame 1 (S_Data 1 [6]) in
  [U_Request 0 [1; 2]; U_Open 0 [3]; T_Command None; T_Command None;
   T_Frame (take 9 both); T_Decode; T_Frame (drop 9 both); T_Decode; T_Decode; T_Decode;
   U_Read 0 2; U_Request 1 [5]].

Definition after (es : list Event) : World := default fresh (run fresh es).
Definition end0 (es : list Event) : Stream :=
  default (mkStream [] None [] true true (upgraded_new 0 []) [] false []) (w_ends (after es) !! 0%nat).
End TransportDemo.
