(* ===== verification/SdkTransportProofs.v ===== *)
(** The guarantees of the SDK's transport: a request is sent at most once and
    answered by its own response, and nothing waits on a channel that ended.
    Streams are in [SdkStreams], what they can lose in [SdkLosses]. *)
From stdpp Require Import base gmap list strings.
From S2P Require Import Prelude Signing Text Transport Sdk SdkTransport.
#[local] Open Scope Z_scope.

(** The ids under which requests and streams were put on the wire. *)
Definition opening_id (m : SdkClientMessage) : option Z :=
  match m with C_Data id _ | C_OpenStream id _ => Some id | _ => None end.
Definition opening_ids (l : list SdkClientMessage) : list Z := omap opening_id l.

Definition request_token (c : OutboundCommand) : option nat :=
  match c with Cmd_Request _ r => Some r | _ => None end.
Definition request_tokens (q : list OutboundCommand) : list nat := omap request_token q.

Lemma opening_ids_snoc l m : opening_ids (l ++ [m]) = opening_ids l ++ option_list (opening_id m).
Proof. unfold opening_ids. rewrite omap_app. cbn. by destruct (opening_id m). Qed.

Lemma request_tokens_snoc q c : request_tokens (q ++ [c]) = request_tokens q ++ option_list (request_token c).
Proof. unfold request_tokens. rewrite omap_app. cbn. by destruct (request_token c). Qed.

Lemma elem_of_request_tokens q r : r ∈ request_tokens q <-> exists payload, Cmd_Request payload r ∈ q.
Proof.
  unfold request_tokens. rewrite list_elem_of_omap. split.
  - intros (c & Hc & Hr). destruct c; try done. injection Hr as ->. eauto.
  - intros [payload Hc]. eauto.
Qed.

Section Requests.
Context `{Noise} `{Cbor SdkClientMessage} `{Cbor SdkServerMessage}.

Abbreviation pending w := (t_pending (w_task w)).
Abbreviation next w := (t_next_id (w_task w)).
Abbreviation mode w := (t_mode (w_task w)).

(** The part of the world that requests are about stays as it is. *)
Record same_requests (w w' : World) : Prop := {
  sr_requests : w_requests w' = w_requests w;
  sr_pending : pending w' = pending w;
  sr_next : next w' = next w;
  sr_cmds : w_cmds w' = w_cmds w;
  sr_sent : w_sent w' = w_sent w;
  sr_received : w_received w' = w_received w;
}.

#[local] Instance same_requests_preorder : PreOrder same_requests.
Proof.
  split.
  - by intros w.
  - intros w1 w2 w3 [] []. split; congruence.
Qed.

Lemma same_on_end w s f : same_requests w (on_end w s f).
Proof. done. Qed.
Lemma same_set_mode w m : same_requests w (set_mode w m).
Proof. done. Qed.
Lemma same_remove_stream w id : same_requests w (remove_stream w id).
Proof. unfold remove_stream. by case_match. Qed.
Lemma same_fail_stream w id e : same_requests w (fail_stream w id e).
Proof. unfold fail_stream. by case_match. Qed.
Lemma same_send_item w s id i final : same_requests w (send_item w s id i final).
Proof.
  unfold send_item. destruct (w_ends w !! s); [|done]. destruct (negb _); [|by case_match].
  destruct final; [done|apply same_remove_stream].
Qed.

(** ** The invariant of requests *)

(** With [n] steps to come. *)
Record req_inv (n : Z) (w : World) : Prop := {
  ri_next : 1 <= next w /\ next w + n < 2 ^ 64 /\ 0 <= n;
  ri_sent_ids : NoDup (opening_ids (w_sent w));
  ri_sent_lt id : id ∈ opening_ids (w_sent w) -> id < next w;
  ri_pending id r : pending w !! id = Some r ->
    exists q, w_requests w !! r = Some q /\ rq_sends q = [id];
  ri_id r q id : w_requests w !! r = Some q -> rq_sends q = [id] ->
    C_Data id (rq_payload q) ∈ w_sent w;
  ri_inj r1 r2 q1 q2 id : w_requests w !! r1 = Some q1 -> w_requests w !! r2 = Some q2 ->
    rq_sends q1 = [id] -> rq_sends q2 = [id] -> r1 = r2;
  ri_ok r q p : w_requests w !! r = Some q -> rq_outcome q = Some (Ok p) ->
    exists id, rq_sends q = [id] /\ S_Data id p ∈ w_received w;
  ri_cmd payload r : Cmd_Request payload r ∈ w_cmds w ->
    exists q, w_requests w !! r = Some q /\ rq_payload q = payload /\ rq_sends q = [] /\ rq_outcome q = None;
  ri_cmd_nodup : NoDup (request_tokens (w_cmds w));
  ri_wait r q : w_requests w !! r = Some q -> rq_outcome q = None -> rq_cancelled q = false ->
    r ∈ request_tokens (w_cmds w) \/ exists id, pending w !! id = Some r;
  ri_done : mode w = M_Done -> w_cmds w = [] /\ pending w = ∅;
}.

(** A step outside the requests: commands that are not requests come and go,
    other messages are sent, more is received. *)
Lemma req_frame n w w' :
  req_inv (n + 1) w -> 0 <= n ->
  w_requests w' = w_requests w -> pending w' = pending w ->
  next w <= next w' <= next w + 1 ->
  request_tokens (w_cmds w') = request_tokens (w_cmds w) ->
  (forall payload r, Cmd_Request payload r ∈ w_cmds w' -> Cmd_Request payload r ∈ w_cmds w) ->
  (exists l, w_sent w' = w_sent w ++ l /\
     (opening_ids l = [] \/ next w' = next w + 1 /\ opening_ids l = [next w])) ->
  (exists l, w_received w' = w_received w ++ l) ->
  (mode w' = M_Done -> w_cmds w' = [] /\ pending w' = ∅) ->
  req_inv n w'.
Proof.
  intros [In Is Il Ip Ii Ij Io Ic Id Iw Im] Hn Hr Hp Hnext Ht Hc (l & Hs & Hl) (l' & Hv) Hm.
  assert (Hsub : forall m, m ∈ w_sent w -> m ∈ w_sent w') by (intros m Hin; rewrite Hs; set_solver).
  assert (Hop : opening_ids (w_sent w') = opening_ids (w_sent w) ++ opening_ids l).
  { rewrite Hs. unfold opening_ids. apply omap_app. }
  split; rewrite ?Hr, ?Hp, ?Ht; try done.
  - lia.
  - rewrite Hop. destruct Hl as [->|[_ ->]]; [by rewrite app_nil_r|].
    apply NoDup_app. split; [done|]. split; [|apply NoDup_singleton].
    intros id Hid ->%list_elem_of_singleton. apply Il in Hid. lia.
  - intros id. rewrite Hop. intros [Hid|Hid]%elem_of_app; [apply Il in Hid; lia|].
    destruct Hl as [Hl|[Hx Hl]]; rewrite Hl in Hid; [by apply elem_of_nil in Hid|].
    apply list_elem_of_singleton in Hid. lia.
  - intros r q id Hq Hid. apply Hsub. eauto.
  - intros r q p Hq Ho. destruct (Io _ _ _ Hq Ho) as (id & ? & Hin). exists id. split; [done|].
    rewrite Hv. set_solver.
  - intros payload r Hin. apply Hc in Hin. eauto.
  - intros Hd. rewrite <- Hp. auto.
Qed.

(** Steps that keep the requests' part altogether. *)
Lemma req_same n w w' :
  req_inv (n + 1) w -> 0 <= n -> same_requests w w' -> (mode w' = M_Done -> mode w = M_Done) ->
  req_inv n w'.
Proof.
  intros Hi Hn [Hr Hp Hx Hc Hs Hv] Hm. apply (req_frame n w w'); try done.
  - lia.
  - by rewrite Hc.
  - by rewrite Hc.
  - exists []. rewrite app_nil_r. by split; [|left].
  - exists []. by rewrite app_nil_r.
  - intros Hd. rewrite Hc, Hp. by apply (ri_done _ _ Hi), Hm.
Qed.

(** ** Answering *)

(** What a one-shot send does to a request. *)
Definition told (o : result bytes Error) (q : Request) : Request :=
  match rq_outcome q, rq_cancelled q with
  | None, false => mkRequest (rq_payload q) (rq_sends q) (Some o) false
  | _, _ => q
  end.

Lemma told_same o q : rq_payload (told o q) = rq_payload q /\ rq_sends (told o q) = rq_sends q /\
  rq_cancelled (told o q) = rq_cancelled q.
Proof. unfold told. by destruct (rq_outcome q), (rq_cancelled q) eqn:Hc. Qed.

Lemma told_outcome o q :
  rq_outcome (told o q) = rq_outcome q \/ rq_outcome q = None /\ rq_outcome (told o q) = Some o.
Proof. unfold told. destruct (rq_outcome q) eqn:Ho, (rq_cancelled q); cbn; auto. Qed.

Lemma told_settled o q : rq_outcome (told o q) = None -> rq_cancelled (told o q) = true.
Proof. unfold told. by destruct (rq_outcome q) eqn:Ho, (rq_cancelled q) eqn:Hc; cbn; rewrite ?Ho, ?Hc. Qed.

Lemma told_idem o q : told o (told o q) = told o q.
Proof. unfold told at 2 3. destruct (rq_outcome q) eqn:Ho, (rq_cancelled q) eqn:Hc; unfold told; cbn; by rewrite ?Ho, ?Hc. Qed.

Lemma answer_lookup w r o r' :
  w_requests (answer_request w r o) !! r' =
  (fun q => if bool_decide (r' = r) then told o q else q) <$> w_requests w !! r'.
Proof.
  unfold answer_request, set_requests. cbn [w_requests]. case_bool_decide as Hr.
  - subst. by rewrite lookup_alter_eq.
  - rewrite lookup_alter_ne by done. by destruct (w_requests w !! r').
Qed.

(** Nothing but requests and streams' ends changes. *)
Record same_task (w w' : World) : Prop := {
  st_task : w_task w' = w_task w;
  st_cmds : w_cmds w' = w_cmds w;
  st_sent : w_sent w' = w_sent w;
  st_received : w_received w' = w_received w;
}.

#[export] Instance same_task_preorder : PreOrder same_task.
Proof.
  split.
  - by intros w.
  - intros w1 w2 w3 [] []. split; congruence.
Qed.

Lemma foldr_same_task {A} (f : A -> World -> World) w l :
  (forall a w, same_task w (f a w)) -> same_task w (foldr f w l).
Proof. intros Hf. induction l as [|a l IH]; [done|]. cbn [foldr]. etransitivity; [apply IH|apply Hf]. Qed.

Lemma foldr_answer_lookup w rs r :
  w_requests (foldr (fun r w => answer_request w r (Err ConnectionClosed)) w rs) !! r =
  (fun q => if bool_decide (r ∈ rs) then told (Err ConnectionClosed) q else q) <$> w_requests w !! r.
Proof.
  induction rs as [|r0 rs IH]; cbn [foldr].
  { rewrite bool_decide_eq_false_2 by apply not_elem_of_nil. by destruct (w_requests w !! r). }
  rewrite answer_lookup, IH. destruct (w_requests w !! r) as [q|]; [|done]. cbn. f_equal.
  rewrite (bool_decide_ext (r ∈ r0 :: rs) (r = r0 \/ r ∈ rs)) by apply elem_of_cons.
  destruct (bool_decide_reflect (r = r0)), (bool_decide_reflect (r ∈ rs));
    rewrite ?bool_decide_eq_true_2, ?bool_decide_eq_false_2 by tauto; try done. apply told_idem.
Qed.

Lemma foldr_requests {A} (f : A -> World -> World) w l :
  (forall a w, w_requests (f a w) = w_requests w) -> w_requests (foldr f w l) = w_requests w.
Proof. intros Hf. induction l as [|a l IH]; [done|]. cbn [foldr]. by rewrite Hf. Qed.

Lemma drop_commands_lookup w q r :
  w_requests (foldr drop_command w q) !! r =
  (fun x => if bool_decide (r ∈ request_tokens q) then told (Err ConnectionClosed) x else x) <$> w_requests w !! r.
Proof.
  induction q as [|c q IH]; cbn [foldr].
  { rewrite bool_decide_eq_false_2 by apply not_elem_of_nil. by destruct (w_requests w !! r). }
  destruct c as [payload r0| | |]; cbn [drop_command]; try exact IH.
  rewrite answer_lookup, IH. destruct (w_requests w !! r) as [x|]; [|done]. cbn [fmap option_fmap option_map]. f_equal.
  rewrite (bool_decide_ext (r ∈ request_tokens (Cmd_Request payload r0 :: q)) (r = r0 \/ r ∈ request_tokens q))
    by apply elem_of_cons.
  destruct (bool_decide_reflect (r = r0)), (bool_decide_reflect (r ∈ request_tokens q));
    rewrite ?bool_decide_eq_true_2, ?bool_decide_eq_false_2 by tauto; try done. apply told_idem.
Qed.

Lemma drop_command_same c w : same_task w (drop_command c w).
Proof. by destruct c. Qed.

Lemma elem_of_range (m : gmap Z nat) r : r ∈ (map_to_list m).*2 <-> exists id, m !! id = Some r.
Proof.
  rewrite list_elem_of_fmap. split.
  - intros ([id r'] & -> & Hin). apply elem_of_map_to_list in Hin. eauto.
  - intros [id Hid]. exists (id, r). by rewrite elem_of_map_to_list.
Qed.

(** What the end of the task leaves of the requests. *)
Definition closes (w w' : World) : Prop :=
  forall r, exists b, w_requests w' !! r = (fun q => if (b : bool) then told (Err ConnectionClosed) q else q) <$> w_requests w !! r /\
    (r ∈ request_tokens (w_cmds w) \/ (exists id, pending w !! id = Some r) -> b = true).

Lemma finish_closes w :
  closes w (finish w) /\ w_sent (finish w) = w_sent w /\ w_received (finish w) = w_received w /\
  next (finish w) = next w /\ w_cmds (finish w) = [] /\ pending (finish w) = ∅.
Proof.
  unfold finish. set (w1 := foldr drop_command w (w_cmds w)).
  set (w2 := foldr (fun r w => answer_request w r (Err ConnectionClosed)) w1 _).
  set (w3 := foldr (fun s w => on_end w s drop_sender) w2 _).
  assert (Hw1 : same_task w w1) by apply foldr_same_task, drop_command_same.
  assert (Hw2 : same_task w1 w2) by by apply foldr_same_task.
  assert (Hw3 : same_task w w3) by (transitivity w2; [by transitivity w1|by apply foldr_same_task]).
  split; [|destruct Hw3 as [Ht Hc Hs Hr]; cbn; by rewrite Ht, Hs, Hr].
  intros r. cbn [set_mode set_tables set_cmds set_task w_requests w_task].
  assert (w_requests w3 = w_requests w2) as -> by by apply foldr_requests.
  unfold w2. rewrite foldr_answer_lookup. unfold w1. rewrite drop_commands_lookup.
  exists (bool_decide (r ∈ request_tokens (w_cmds w)) || bool_decide (r ∈ (map_to_list (pending w)).*2)). split.
  - destruct (w_requests w !! r) as [q|]; [|done]. cbn [fmap option_fmap option_map]. f_equal.
    do 2 case_bool_decide; cbn [orb]; try done. apply told_idem.
  - rewrite <- elem_of_range. intros Hr. apply orb_true_iff. rewrite !bool_decide_eq_true. done.
Qed.

Lemma notify_closes w :
  closes (set_cmds w []) (notify_all_closed w) /\ w_sent (notify_all_closed w) = w_sent w /\
  w_received (notify_all_closed w) = w_received w /\ next (notify_all_closed w) = next w /\
  w_cmds (notify_all_closed w) = w_cmds w /\ pending (notify_all_closed w) = ∅.
Proof.
  unfold notify_all_closed. set (w1 := foldr (fun r w => answer_request w r (Err ConnectionClosed)) w _).
  set (w2 := foldr _ w1 _).
  assert (Hw1 : same_task w w1) by by apply foldr_same_task.
  assert (Hw2 : same_task w w2) by (transitivity w1; [done|by apply foldr_same_task]).
  split; [|destruct Hw2 as [Ht Hc Hs Hr]; cbn; by rewrite Ht, Hs, Hr, Hc].
  intros r. cbn [set_tables set_task w_requests w_task].
  assert (w_requests w2 = w_requests w1) as -> by by apply foldr_requests.
  unfold w1. rewrite foldr_answer_lookup.
  exists (bool_decide (r ∈ (map_to_list (pending w)).*2)). split; [done|].
  rewrite <- elem_of_range. cbn [set_cmds w_cmds w_task]. intros [Hr|Hr]; [by apply elem_of_nil in Hr|].
  by apply bool_decide_eq_true.
Qed.

Lemma notify_mode w : mode (notify_all_closed w) = mode w.
Proof.
  unfold notify_all_closed. set (w1 := foldr (fun r w => answer_request w r (Err ConnectionClosed)) w _).
  assert (same_task w w1) as [E _ _ _] by by apply foldr_same_task. rewrite <- E.
  match goal with |- mode (set_tables ?w2 ∅ ∅) = _ => assert (same_task w1 w2) as [E' _ _ _] by by apply foldr_same_task end.
  cbn. by rewrite E'.
Qed.

(** The invariant after the task ended. *)
Lemma req_closed n w w' :
  req_inv (n + 1) w -> 0 <= n -> closes w w' -> w_sent w' = w_sent w ->
  w_received w' = w_received w -> next w' = next w -> w_cmds w' = [] -> pending w' = ∅ ->
  req_inv n w'.
Proof.
  intros [In Is Il Ip Ii Ij Io Ic Id Iw Im] Hn Hcl Hs Hv Hx Hc Hp.
  assert (Hback : forall r q', w_requests w' !! r = Some q' -> exists q, w_requests w !! r = Some q /\
    rq_payload q' = rq_payload q /\ rq_sends q' = rq_sends q /\
    (rq_outcome q' = rq_outcome q \/ rq_outcome q' = Some (Err ConnectionClosed)) /\
    (rq_outcome q' = None -> rq_cancelled q' = false -> False)).
  { intros r q' Hq'. destruct (Hcl r) as (b & Hb & Hset). rewrite Hb in Hq'.
    apply fmap_Some in Hq' as (q & Hq & ->). exists q. destruct b.
    - destruct (told_same (Err ConnectionClosed) q) as (? & ? & ?). split_and!; try done.
      + destruct (told_outcome (Err ConnectionClosed) q) as [->|[_ ->]]; auto.
      + intros Ho Hca. apply told_settled in Ho. congruence.
    - split_and!; try done; auto. intros Ho Hca. by specialize (Hset (Iw _ _ Hq Ho Hca)). }
  split; rewrite ?Hs, ?Hv, ?Hx, ?Hc, ?Hp; try done.
  - lia.
  - intros r q' id (q & Hq & -> & -> & _)%Hback Hid. eauto.
  - intros r1 r2 q1' q2' id (q1 & Hq1 & _ & -> & _)%Hback (q2 & Hq2 & _ & -> & _)%Hback. eauto.
  - intros r q' p (q & Hq & _ & -> & [-> | ->] & _)%Hback Ho; [eauto|done].
  - intros payload r Hin. by apply elem_of_nil in Hin.
  - apply NoDup_nil_2.
  - intros r q' (q & Hq & _ & _ & _ & Hno)%Hback Ho Hca. by destruct (Hno Ho Hca).
Qed.

Lemma req_finish n w : req_inv (n + 1) w -> 0 <= n -> req_inv n (finish w).
Proof.
  intros Hi Hn. destruct (finish_closes w) as (Hc & Hs & Hv & Hx & Hq & Hp). by eapply req_closed.
Qed.

Lemma req_notify n w : req_inv (n + 1) w -> 0 <= n -> req_inv n (finish (notify_all_closed w)).
Proof.
  intros Hi Hn. destruct (finish_closes (notify_all_closed w)) as (Hc & Hs & Hv & Hx & Hq & Hp).
  destruct (notify_closes w) as (Hc' & Hs' & Hv' & Hx' & Hq' & Hp').
  eapply (req_closed n w); try congruence; try done.
  intros r. destruct (Hc r) as (b & Hb & Hset), (Hc' r) as (b' & Hb' & Hset').
  exists (b || b'). rewrite Hb, Hb'. cbn [set_cmds w_requests]. split.
  - destruct (w_requests w !! r); [|done]. destruct b, b'; cbn; try done. by rewrite told_idem.
  - intros [Hr|Hr].
    + rewrite Hset; [done|]. left. by rewrite Hq'.
    + rewrite (Hset' (or_intror Hr)). by rewrite orb_true_r.
Qed.

(** ** Steps of the task *)

(** A response to a pending id: its request is told, the entry goes. *)
Lemma req_answer n w id r o w' :
  req_inv n w -> pending w !! id = Some r ->
  (forall p, o = Ok p -> S_Data id p ∈ w_received w) ->
  w_requests w' = w_requests (answer_request w r o) -> pending w' = delete id (pending w) ->
  next w' = next w -> w_cmds w' = w_cmds w -> w_sent w' = w_sent w -> w_received w' = w_received w ->
  mode w' <> M_Done -> req_inv n w'.
Proof.
  intros [In Is Il Ip Ii Ij Io Ic Id Iw Im] Hpend Ho Hr Hp Hx Hc Hs Hv Hm.
  destruct (Ip _ _ Hpend) as (q0 & Hq0 & Hid0).
  assert (Hback : forall r' q', w_requests w' !! r' = Some q' -> exists q, w_requests w !! r' = Some q /\
    rq_payload q' = rq_payload q /\ rq_sends q' = rq_sends q /\ rq_cancelled q' = rq_cancelled q /\
    (q' = q /\ r' <> r \/ r' = r /\ q' = told o q)).
  { intros r' q' Hq'. rewrite Hr, answer_lookup in Hq'. apply fmap_Some in Hq' as (q & Hq & ->).
    exists q. case_bool_decide; [|auto 10]. destruct (told_same o q) as (? & ? & ?). auto 10. }
  assert (Hfwd : forall r' q, w_requests w !! r' = Some q ->
    exists q', w_requests w' !! r' = Some q' /\ rq_payload q' = rq_payload q /\ rq_sends q' = rq_sends q /\
      (r' <> r -> q' = q)).
  { intros r' q Hq. rewrite Hr, answer_lookup, Hq. cbn. eexists. split; [done|].
    case_bool_decide; [|done]. destruct (told_same o q) as (? & ? & ?). by split_and!. }
  split; rewrite ?Hs, ?Hv, ?Hx, ?Hc, ?Hp; try done.
  - intros id' r' [_ Hl]%lookup_delete_Some. destruct (Ip _ _ Hl) as (q & Hq & Hi).
    destruct (Hfwd _ _ Hq) as (q' & ? & _ & ? & _). exists q'. split; congruence.
  - intros r' q' id' (q & Hq & -> & -> & _)%Hback. eauto.
  - intros r1 r2 q1' q2' id' (q1 & Hq1 & _ & -> & _)%Hback (q2 & Hq2 & _ & -> & _)%Hback. eauto.
  - intros r' q' p (q & Hq & _ & -> & _ & [[-> _]|[-> ->]])%Hback Hout; [eauto|].
    destruct (told_outcome o q) as [E|[_ E]]; [rewrite E in Hout; eauto|].
    rewrite E in Hout. injection Hout as Hout. exists id. split; [congruence|]. auto.
  - intros payload r' Hin. destruct (Ic _ _ Hin) as (q & Hq & ? & Hnone & ?).
    destruct (Hfwd _ _ Hq) as (q' & Hq' & _ & _ & Heq).
    assert (q' = q) as -> by (apply Heq; congruence). by exists q.
  - intros r' q' (q & Hq & _ & _ & Hca & [[-> Hne]|[-> ->]])%Hback Hout Hcanc.
    + destruct (Iw _ _ Hq Hout Hcanc) as [?|[id' Hid']]; [by left|]. right. exists id'.
      rewrite lookup_delete_ne; [done|]. intros <-. congruence.
    + apply told_settled in Hout. congruence.
Qed.

(** A request leaves the queue: sent and pending under a fresh id, or told why
    it was not. *)
Lemma req_pop n w payload r q :
  req_inv n w -> w_cmds w = Cmd_Request payload r :: q ->
  NoDup (request_tokens q) /\ (r ∉ request_tokens q) /\
  exists x, w_requests w !! r = Some x /\ rq_payload x = payload /\ rq_sends x = [] /\ rq_outcome x = None.
Proof.
  intros [In Is Il Ip Ii Ij Io Ic Id Iw Im] Hq. rewrite Hq in Id.
  change (NoDup (r :: request_tokens q)) in Id. apply NoDup_cons in Id as [? ?].
  split_and!; try done. apply Ic. rewrite Hq. left.
Qed.

Lemma transmit_cases w msg fate :
  (exists w1 w2, transmit w msg fate = (Ok w1, w2) /\ w_task w1 = w_task w2 /\
     w_sent w1 = w_sent w ++ [msg] /\ w_requests w1 = w_requests w /\ w_cmds w1 = w_cmds w /\
     w_received w1 = w_received w /\ w_ends w1 = w_ends w /\
     pending w1 = pending w /\ next w1 = next w /\ mode w1 = mode w /\
     t_streams (w_task w1) = t_streams (w_task w)) \/
  (exists e w2, transmit w msg fate = (Err e, w2) /\
     w_sent w2 = w_sent w /\ w_requests w2 = w_requests w /\ w_cmds w2 = w_cmds w /\
     w_received w2 = w_received w /\ w_ends w2 = w_ends w /\
     pending w2 = pending w /\ next w2 = next w /\ mode w2 = mode w /\
     t_streams (w_task w2) = t_streams (w_task w)).
Proof.
  unfold transmit. destruct (encrypt_cbor _ _) as [[ct st]|e].
  - destruct fate as [e|]; [right; by eexists _, _|left; by eexists _, _].
  - right. by eexists _, _.
Qed.

Definition with_id (id : Z) (q : Request) : Request :=
  mkRequest (rq_payload q) (rq_sends q ++ [id]) (rq_outcome q) (rq_cancelled q).

Lemma req_sent n w w' payload r q :
  req_inv (n + 1) w -> 0 <= n -> w_cmds w = Cmd_Request payload r :: q ->
  w_requests w' = alter (with_id (next w)) r (w_requests w) ->
  pending w' = <[next w := r]> (pending w) -> next w' = next w + 1 -> w_cmds w' = q ->
  w_sent w' = w_sent w ++ [C_Data (next w) payload] -> w_received w' = w_received w ->
  mode w' <> M_Done -> req_inv n w'.
Proof.
  intros Hi Hn Hq Hr Hp Hx Hc Hs Hv Hm.
  destruct (req_pop _ _ _ _ _ Hi Hq) as (Hnd & Hnin & x & Hrx & Hpay & Hnone & Hout).
  destruct Hi as [In Is Il Ip Ii Ij Io Ic Id Iw Im].
  assert (Hback : forall r' q', w_requests w' !! r' = Some q' -> exists q0, w_requests w !! r' = Some q0 /\
    (r' <> r /\ q' = q0 \/ r' = r /\ q0 = x /\ q' = with_id (next w) x)).
  { intros r' q' Hq'. rewrite Hr in Hq'. destruct (decide (r' = r)) as [->|Hne].
    - rewrite lookup_alter_eq, Hrx in Hq'. injection Hq' as <-. eauto 10.
    - rewrite lookup_alter_ne in Hq' by done. eauto 10. }
  assert (Hfresh : forall r' q', w_requests w !! r' = Some q' -> rq_sends q' <> [next w]).
  { intros r' q' Hq' Hid. apply (Ii _ _ _ Hq') in Hid.
    assert (next w ∈ opening_ids (w_sent w)) as Hin%Il; [|lia].
    apply list_elem_of_omap. eauto. }
  split; rewrite ?Hs, ?Hv, ?Hx, ?Hc, ?Hp; try done.
  - lia.
  - rewrite opening_ids_snoc. apply NoDup_app. split; [done|]. split; [|apply NoDup_singleton].
    intros id Hid ->%list_elem_of_singleton. apply Il in Hid. lia.
  - intros id. rewrite opening_ids_snoc. intros [Hid|Hid]%elem_of_app; [apply Il in Hid; lia|].
    apply list_elem_of_singleton in Hid. lia.
  - intros id r' Hl. rewrite Hr. apply lookup_insert_Some in Hl as [[<- <-]|[Hne Hl]].
    + rewrite lookup_alter_eq, Hrx. eexists. split; [done|]. cbn. by rewrite Hnone.
    + destruct (Ip _ _ Hl) as (q' & Hq' & Hid). exists q'.
      rewrite lookup_alter_ne; [done|]. intros <-. rewrite Hrx in Hq'. congruence.
  - intros r' q' id (q0 & Hq0 & [[_ ->]|(-> & -> & ->)])%Hback Hid; apply elem_of_app.
    + left. eauto.
    + right. cbn in Hid. rewrite Hnone in Hid. injection Hid as <-. rewrite <- Hpay. apply list_elem_of_here.
  - intros r1 r2 q1 q2 id (p1 & Hp1 & [[Hn1 ->]|(-> & -> & ->)])%Hback
      (p2 & Hp2 & [[Hn2 ->]|(-> & -> & ->)])%Hback Hi1 Hi2; try done.
    + eauto.
    + cbn in Hi2. rewrite Hnone in Hi2. injection Hi2 as <-. by apply Hfresh in Hp1.
    + cbn in Hi1. rewrite Hnone in Hi1. injection Hi1 as <-. by apply Hfresh in Hp2.
  - intros r' q' p (q0 & Hq0 & [[_ ->]|(-> & -> & ->)])%Hback Ho; [eauto|]. cbn in Ho. congruence.
  - intros pl r' Hin. destruct (Ic pl r') as (q' & Hq' & ?); [rewrite Hq; by right|].
    exists q'. rewrite Hr, lookup_alter_ne; [done|]. intros <-. apply Hnin, elem_of_request_tokens. eauto.
  - intros r' q' (q0 & Hq0 & [[Hne ->]|(-> & -> & ->)])%Hback Ho Hca.
    + destruct (Iw _ _ Hq0 Ho Hca) as [Hin|[id Hid]].
      * left. rewrite Hq in Hin. change (r' ∈ r :: request_tokens q) in Hin. set_solver.
      * right. exists id. rewrite lookup_insert_ne; [done|]. intros <-.
        destruct (Ip _ _ Hid) as (q'' & Hq'' & Hid''). by apply Hfresh in Hq''.
    + right. exists (next w). apply lookup_insert_eq.
Qed.

Lemma req_unsent n w w' payload r q e :
  req_inv (n + 1) w -> 0 <= n -> w_cmds w = Cmd_Request payload r :: q ->
  w_requests w' = w_requests (answer_request w r (Err e)) ->
  pending w' = pending w -> next w' = next w + 1 -> w_cmds w' = q ->
  w_sent w' = w_sent w -> w_received w' = w_received w -> mode w' <> M_Done -> req_inv n w'.
Proof.
  intros Hi Hn Hq Hr Hp Hx Hc Hs Hv Hm.
  destruct (req_pop _ _ _ _ _ Hi Hq) as (Hnd & Hnin & x & Hrx & Hpay & Hnone & Hout).
  destruct Hi as [In Is Il Ip Ii Ij Io Ic Id Iw Im].
  assert (Hback : forall r' q', w_requests w' !! r' = Some q' -> exists q0, w_requests w !! r' = Some q0 /\
    rq_payload q' = rq_payload q0 /\ rq_sends q' = rq_sends q0 /\ rq_cancelled q' = rq_cancelled q0 /\
    (r' <> r /\ q' = q0 \/ r' = r /\ q' = told (Err e) q0)).
  { intros r' q' Hq'. rewrite Hr, answer_lookup in Hq'. apply fmap_Some in Hq' as (q0 & Hq0 & ->).
    exists q0. case_bool_decide; [|auto 10]. destruct (told_same (Err e) q0) as (? & ? & ?). auto 10. }
  assert (Hfwd : forall r' q0, w_requests w !! r' = Some q0 -> r' <> r -> w_requests w' !! r' = Some q0).
  { intros r' q0 Hq0 Hne. rewrite Hr, answer_lookup, Hq0. cbn. by rewrite bool_decide_eq_false_2. }
  split; rewrite ?Hs, ?Hv, ?Hx, ?Hc, ?Hp; try done.
  - lia.
  - intros id Hid. apply Il in Hid. lia.
  - intros id r' Hl. destruct (Ip _ _ Hl) as (q' & Hq' & Hid). exists q'. split; [|done].
    apply Hfwd; [done|]. intros ->. congruence.
  - intros r' q' id (q0 & Hq0 & -> & -> & _)%Hback. eauto.
  - intros r1 r2 q1' q2' id' (q1 & Hq1 & _ & -> & _)%Hback (q2 & Hq2 & _ & -> & _)%Hback. eauto.
  - intros r' q' p (q0 & Hq0 & _ & -> & _ & [[_ ->]|[-> ->]])%Hback Ho; [eauto|].
    destruct (told_outcome (Err e) q0) as [E|[_ E]]; [rewrite E in Ho; eauto|]. rewrite E in Ho. done.
  - intros pl r' Hin. destruct (Ic pl r') as (q' & Hq' & ?); [rewrite Hq; by right|].
    exists q'. split; [|done]. apply Hfwd; [done|]. intros ->. apply Hnin, elem_of_request_tokens. eauto.
  - intros r' q' (q0 & Hq0 & _ & _ & Hca0 & [[Hne ->]|[-> ->]])%Hback Ho Hca.
    + destruct (Iw _ _ Hq0 Ho Hca) as [Hin|Hin]; [|auto]. left. rewrite Hq in Hin.
      change (r' ∈ r :: request_tokens q) in Hin. set_solver.
    + apply told_settled in Ho. congruence.
Qed.

(** A step that consumes a command other than a request. *)
Lemma req_quiet n w w' l c q :
  req_inv (n + 1) w -> 0 <= n -> w_cmds w = c :: q -> request_token c = None ->
  w_sent w' = w_sent w ++ l -> opening_ids l = [] -> w_requests w' = w_requests w -> w_cmds w' = q ->
  w_received w' = w_received w -> pending w' = pending w -> next w' = next w ->
  mode w' <> M_Done -> req_inv n w'.
Proof.
  intros Hi Hn Hq Hc Hs Hl Hr Hcm Hv Hp Hx Hm. apply (req_frame n w); try done.
  - lia.
  - rewrite Hcm, Hq. unfold request_tokens. cbn. by rewrite Hc.
  - rewrite Hcm, Hq. intros pl r Hin. by right.
  - exists l. auto.
  - exists []. by rewrite app_nil_r.
Qed.

Lemma remove_stream_mode w id : mode (remove_stream w id) = mode w.
Proof. unfold remove_stream. by case_match. Qed.
Lemma fail_stream_mode w id e : mode (fail_stream w id e) = mode w.
Proof. unfold fail_stream. by case_match. Qed.
Lemma send_item_mode w s id i final : mode w <> M_Done -> mode (send_item w s id i final) <> M_Done.
Proof.
  intros Hm. unfold send_item. destruct (w_ends w !! s); [|done]. destruct (negb _).
  - destruct final; [done|by rewrite remove_stream_mode].
  - by case_match.
Qed.

Lemma req_command n w c q fate :
  req_inv (n + 1) w -> 0 <= n -> mode w = M_Select -> w_cmds w = c :: q ->
  req_inv n (handle_command (set_cmds w q) c fate).
Proof.
  intros Hi Hn Hm Hq. pose proof (ri_next _ _ Hi) as Hnext.
  assert (Hadd : u64_add (next w) 1 = next w + 1) by (apply u64_add_small; lia).
  assert (Hmq : mode (set_cmds w q) <> M_Done) by (cbn; by rewrite Hm).
  destruct c as [payload r|payload s|id payload|id half]; cbn [handle_command].
  - set (w0 := set_next (set_cmds w q) _).
    destruct (transmit_cases w0 (C_Data (next (set_cmds w q)) payload) fate)
      as [(w1 & w2 & -> & _ & Es & Er & Ec & Ev & Ee & Ep & Ex & Em & Est)
         |(e & w2 & -> & Es & Er & Ec & Ev & Ee & Ep & Ex & Em & Est)].
    + eapply (req_sent n w); try done; cbn; rewrite ?Er, ?Ep, ?Ex, ?Ec, ?Es, ?Ev, ?Em; cbn; try done.
    + eapply (req_unsent n w); try done; cbn; rewrite ?Er, ?Ep, ?Ex, ?Ec, ?Es, ?Ev, ?Em; cbn; try done.
  - set (w0 := set_next (set_cmds w q) _).
    destruct (transmit_cases w0 (C_OpenStream (next (set_cmds w q)) payload) fate)
      as [(w1 & w2 & -> & _ & Es & Er & Ec & Ev & Ee & Ep & Ex & Em & Est)
         |(e & w2 & -> & Es & Er & Ec & Ev & Ee & Ep & Ex & Em & Est)].
    + apply (req_frame n w); try done; cbn; rewrite ?Er, ?Ep, ?Ex, ?Ec, ?Es, ?Ev, ?Em; cbn; try done;
        rewrite ?Hq; try done; try lia.
      * intros pl r Hin. by right.
      * exists [C_OpenStream (next w) payload]. auto.
      * exists []. by rewrite app_nil_r.
    + apply (req_frame n w); try done; cbn; rewrite ?Er, ?Ep, ?Ex, ?Ec, ?Es, ?Ev, ?Em; cbn; try done;
        rewrite ?Hq; try done; try lia.
      * intros pl r Hin. by right.
      * exists []. rewrite app_nil_r. auto.
      * exists []. by rewrite app_nil_r.
  - destruct (transmit_cases (set_cmds w q) (C_StreamData id payload) fate)
      as [(w1 & w2 & -> & _ & Es & Er & Ec & Ev & Ee & Ep & Ex & Em & Est)
         |(e & w2 & -> & Es & Er & Ec & Ev & Ee & Ep & Ex & Em & Est)].
    + eapply (req_quiet n w w1 [C_StreamData id payload]); eauto; try by rewrite Em.
    + pose proof (same_fail_stream w2 id e) as [Fr Fp Fx Fc Fs Fv].
      eapply (req_quiet n w _ []); rewrite ?Fr, ?Fp, ?Fx, ?Fc, ?Fs, ?Fv; eauto; [by rewrite app_nil_r|].
      by rewrite fail_stream_mode, Em.
  - destruct (transmit_cases (set_cmds w q) (C_StreamClose id half) fate)
      as [(w1 & w2 & -> & _ & Es & Er & Ec & Ev & Ee & Ep & Ex & Em & Est)
         |(e & w2 & -> & Es & Er & Ec & Ev & Ee & Ep & Ex & Em & Est)].
    + pose proof (same_remove_stream w1 id) as [Fr Fp Fx Fc Fs Fv].
      destruct half; eapply (req_quiet n w _ [C_StreamClose id _]);
        rewrite ?Fr, ?Fp, ?Fx, ?Fc, ?Fs, ?Fv, ?remove_stream_mode, ?Em; eauto.
    + pose proof (same_remove_stream w2 id) as [Fr Fp Fx Fc Fs Fv].
      destruct half; eapply (req_quiet n w _ []); rewrite ?app_nil_r;
        rewrite ?Fr, ?Fp, ?Fx, ?Fc, ?Fs, ?Fv, ?remove_stream_mode, ?Em; eauto.
Qed.

Lemma req_dispatch n w msg :
  req_inv n w -> mode w <> M_Done -> (forall id p, msg = S_Data id p -> S_Data id p ∈ w_received w) ->
  req_inv n (dispatch_response w msg).
Proof.
  intros Hi Hm Hrec.
  assert (Hsame : forall w', same_requests w w' -> mode w' <> M_Done -> req_inv n w').
  { intros w' [Hr Hp Hx Hc Hs Hv] Hm'. destruct Hi as [In Is Il Ip Ii Ij Io Ic Id Iw Im].
    split; rewrite ?Hr, ?Hp, ?Hx, ?Hc, ?Hs, ?Hv; done. }
  destruct msg as [d cn|id p|id m|b m|id p|id]; cbn [dispatch_response]; try done.
  - destruct (pending w !! id) as [r|] eqn:Hp; [|done].
    eapply (req_answer n w id r (Ok p)); try done. intros p' [= ->]. by apply Hrec.
  - destruct (pending w !! id) as [r|] eqn:Hp.
    + by eapply (req_answer n w id r (Err _)).
    + destruct (t_streams (w_task w) !! id) as [s|]; [|done]. apply Hsame; [|by apply send_item_mode].
      etransitivity; [|apply same_send_item]. done.
  - destruct (t_streams (w_task w) !! id) as [s|]; [|done].
    apply Hsame; [apply same_send_item|by apply send_item_mode].
  - apply Hsame; [apply same_remove_stream|by rewrite remove_stream_mode].
Qed.

Lemma req_received n w msg st accum :
  req_inv (n + 1) w -> 0 <= n -> mode w <> M_Done ->
  req_inv n (mkWorld (w_task (set_input w st accum)) (w_cmds w) (w_requests w) (w_ends w) (w_sent w)
               (w_received w ++ [msg])).
Proof.
  intros Hi Hn Hm. apply (req_frame n w); try done; cbn.
  - lia.
  - exists []. rewrite app_nil_r. auto.
  - by exists [msg].
Qed.

Lemma req_task_step n w e w' :
  req_inv (n + 1) w -> 0 <= n -> task_step w e = Some w' -> req_inv n w'.
Proof.
  intros Hi Hn Hs. unfold task_step in Hs. destruct (mode w) as [| |s id i final|] eqn:Hm.
  - destruct e; try done.
    + destruct (w_cmds w) as [|c q] eqn:Hq; [done|]. injection Hs as <-. by apply req_command.
    + injection Hs as <-. by apply (req_same n w).
    + injection Hs as <-. by apply req_notify.
    + injection Hs as <-. by apply req_notify.
    + case_match; [|done]. injection Hs as <-. by apply req_finish.
  - destruct e; try done. injection Hs as <-. unfold decode_step.
    destruct (try_decrypt _ _) as [[[[msg consumed] st]|]|].
    + apply req_dispatch; [apply (req_received n w); [done..|by rewrite Hm]|cbn; by rewrite Hm|].
      intros id p ->. cbn. set_solver.
    + by apply (req_same n w).
    + by apply req_notify.
  - destruct e; try done. destruct (w_ends w !! s) as [x|]; [|done]. case_match; [done|].
    injection Hs as <-. apply (req_same n w); try done.
    + etransitivity; [apply (same_set_mode w M_Decode)|apply same_send_item].
    + intros Hd. exfalso. revert Hd. by apply send_item_mode.
  - by destruct e.
Qed.

(** ** Steps of the callers *)

(** A caller's command that is not a request, or none. *)
Lemma req_caller n w w' l :
  req_inv (n + 1) w -> 0 <= n -> w_task w' = w_task w -> w_requests w' = w_requests w ->
  w_sent w' = w_sent w -> w_received w' = w_received w ->
  w_cmds w' = w_cmds w ++ l -> Forall (fun c => request_token c = None) l ->
  (mode w = M_Done -> l = []) -> req_inv n w'.
Proof.
  intros Hi Hn Ht Hr Hs Hv Hc Hl Hm. apply (req_frame n w); rewrite ?Ht; try done.
  - lia.
  - rewrite Hc. unfold request_tokens. rewrite omap_app.
    assert (omap request_token l = []) as ->; [|by rewrite app_nil_r].
    clear -Hl. induction Hl as [|c l Hc _ IH]; [done|]. cbn. by rewrite Hc.
  - rewrite Hc. intros pl r [Hin|Hin]%elem_of_app; [done|].
    rewrite Forall_forall in Hl. by apply Hl in Hin.
  - exists []. rewrite app_nil_r. auto.
  - exists []. by rewrite app_nil_r.
  - intros Hd. destruct (ri_done _ _ Hi Hd) as [E1 E2]. rewrite Hc, E1, (Hm Hd). done.
Qed.

Lemma alive_false w : alive w = false <-> mode w = M_Done.
Proof. unfold alive. by destruct (mode w). Qed.

Lemma try_send_queue w c q' :
  try_send (alive w) (w_cmds w) c = Sent q' -> q' = w_cmds w ++ [c] /\ mode w <> M_Done.
Proof.
  unfold try_send. destruct (alive w) eqn:Ha; [|done]. cbn [negb]. case_match; [|done].
  intros [= <-]. split; [done|]. intros Hd. apply alive_false in Hd. congruence.
Qed.

Lemma req_new n w r payload :
  req_inv (n + 1) w -> 0 <= n -> w_requests w !! r = None -> mode w <> M_Done ->
  req_inv n (set_cmds (set_requests w (<[r := mkRequest payload [] None false]> (w_requests w)))
               (w_cmds w ++ [Cmd_Request payload r])).
Proof.
  intros [In Is Il Ip Ii Ij Io Ic Id Iw Im] Hn Hr Hm.
  assert (Hnin : r ∉ request_tokens (w_cmds w)).
  { intros [pl Hin]%elem_of_request_tokens. destruct (Ic _ _ Hin) as (q & Hq & _). congruence. }
  split; cbn [set_cmds set_requests w_task w_cmds w_requests w_sent w_received]; try done.
  - lia.
  - intros id r' Hp. destruct (Ip _ _ Hp) as (q & Hq & ?). exists q. split; [|done].
    rewrite lookup_insert_ne; [done|]. congruence.
  - intros r' q id [[<- <-]|[_ Hq]]%lookup_insert_Some ?; [done|eauto].
  - intros r1 r2 q1 q2 id [[<- <-]|[_ Hq1]]%lookup_insert_Some [[<- <-]|[_ Hq2]]%lookup_insert_Some; eauto; done.
  - intros r' q p [[<- <-]|[_ Hq]]%lookup_insert_Some ?; [done|eauto].
  - intros pl r' [Hin|Hin]%elem_of_app.
    + destruct (Ic _ _ Hin) as (q & Hq & ?). exists q. split; [|done].
      rewrite lookup_insert_ne; [done|]. congruence.
    + apply list_elem_of_singleton in Hin as [= -> ->]. rewrite lookup_insert_eq. eauto.
  - rewrite request_tokens_snoc. apply NoDup_app. split; [done|]. split; [|apply NoDup_singleton].
    intros r' Hin ->%list_elem_of_singleton. done.
  - intros r' q Hq Ho Hc. rewrite request_tokens_snoc.
    apply lookup_insert_Some in Hq as [[<- <-]|[_ Hq]]; [left; set_solver|].
    destruct (Iw _ _ Hq Ho Hc); [left; set_solver|by right].
Qed.

(** A change to one request that is not queued or waiting. *)
Lemma req_refused n w r payload :
  req_inv (n + 1) w -> 0 <= n -> w_requests w !! r = None ->
  req_inv n (set_requests w (<[r := mkRequest payload [] (Some (Err ConnectionClosed)) false]> (w_requests w))).
Proof.
  intros [In Is Il Ip Ii Ij Io Ic Id Iw Im] Hn Hr.
  split; cbn [set_requests w_task w_cmds w_requests w_sent w_received]; try done.
  - lia.
  - intros id r' Hp. destruct (Ip _ _ Hp) as (q & Hq & ?). exists q. split; [|done].
    rewrite lookup_insert_ne; [done|]. congruence.
  - intros r' q id [[<- <-]|[_ Hq]]%lookup_insert_Some ?; [done|eauto].
  - intros r1 r2 q1 q2 id [[<- <-]|[_ Hq1]]%lookup_insert_Some [[<- <-]|[_ Hq2]]%lookup_insert_Some; eauto; done.
  - intros r' q p [[<- <-]|[_ Hq]]%lookup_insert_Some ?; [done|eauto].
  - intros pl r' Hin. destruct (Ic _ _ Hin) as (q & Hq & ?). exists q. split; [|done].
    rewrite lookup_insert_ne; [done|]. congruence.
  - intros r' q [[<- <-]|[_ Hq]]%lookup_insert_Some; [done|eauto].
Qed.

Lemma req_cancel n w r :
  req_inv (n + 1) w -> 0 <= n ->
  req_inv n (set_requests w (alter (fun q => mkRequest (rq_payload q) (rq_sends q) (rq_outcome q) true) r (w_requests w))).
Proof.
  intros [In Is Il Ip Ii Ij Io Ic Id Iw Im] Hn.
  set (m := alter _ r (w_requests w)).
  assert (Hback : forall r' q', m !! r' = Some q' -> exists q, w_requests w !! r' = Some q /\
    rq_payload q' = rq_payload q /\ rq_sends q' = rq_sends q /\ rq_outcome q' = rq_outcome q /\
    (rq_cancelled q' = false -> rq_cancelled q = false)).
  { intros r' q' Hq'. apply lookup_alter_Some in Hq' as [(<- & q & Hq & ->)|[_ Hq]]; [by exists q|by exists q']. }
  assert (Hfwd : forall r' q, w_requests w !! r' = Some q -> exists q', m !! r' = Some q' /\
    rq_payload q' = rq_payload q /\ rq_sends q' = rq_sends q /\ rq_outcome q' = rq_outcome q).
  { intros r' q Hq. unfold m. destruct (decide (r = r')) as [->|].
    - rewrite lookup_alter_eq, Hq. by eexists.
    - rewrite lookup_alter_ne by done. by exists q. }
  split; cbn [set_requests w_task w_cmds w_requests w_sent w_received]; try done.
  - lia.
  - intros id r' Hp. destruct (Ip _ _ Hp) as (q & Hq & Hid). destruct (Hfwd _ _ Hq) as (q' & ? & _ & ? & _).
    exists q'. split; congruence.
  - intros r' q' id (q & Hq & -> & -> & _)%Hback. eauto.
  - intros r1 r2 q1' q2' id (q1 & Hq1 & _ & -> & _)%Hback (q2 & Hq2 & _ & -> & _)%Hback. eauto.
  - intros r' q' p (q & Hq & _ & -> & -> & _)%Hback. eauto.
  - intros pl r' Hin. destruct (Ic _ _ Hin) as (q & Hq & ? & ? & ?).
    destruct (Hfwd _ _ Hq) as (q' & ? & ? & ? & ?). exists q'. split_and!; congruence.
  - intros r' q' (q & Hq & _ & _ & -> & Hc)%Hback Ho Hca. eauto.
Qed.

Lemma req_user_step n w e w' :
  req_inv (n + 1) w -> 0 <= n -> user_step w e = Some w' -> req_inv n w'.
Proof.
  intros Hi Hn Hs.
  assert (Hnone : forall w', w_task w' = w_task w -> w_requests w' = w_requests w ->
    w_sent w' = w_sent w -> w_received w' = w_received w -> w_cmds w' = w_cmds w -> req_inv n w').
  { intros w1 ? ? ? ? Hc. apply (req_caller n w w1 []); try done. by rewrite app_nil_r. }
  destruct e as [r payload|r|s payload|s|s bs|s|s|s room| | | | | | |]; cbn [user_step] in Hs; try done.
  - case_bool_decide as Hr; [done|]. apply eq_None_not_Some in Hr.
    destruct (alive w) eqn:Ha; cbn [negb] in Hs.
    + case_match; [|done]. injection Hs as <-. apply req_new; [done..|].
      intros Hd. apply alive_false in Hd. congruence.
    + injection Hs as <-. by apply req_refused.
  - injection Hs as <-. by apply req_cancel.
  - case_bool_decide; [done|]. destruct (alive w) eqn:Ha; cbn [negb] in Hs.
    + case_match; [|done]. injection Hs as <-. eapply (req_caller n w _ [_]); try done; [by repeat constructor|].
      intros Hd. apply alive_false in Hd. congruence.
    + injection Hs as <-. by apply Hnone.
  - destruct (w_ends w !! s) as [x|]; [|done]. destruct (sm_opened x); [done|]. injection Hs as <-. by apply Hnone.
  - destruct (open_end w s) as [x|]; [|done]. unfold poll_write in Hs.
    destruct (us_write_closed _); [injection Hs as <-; by apply Hnone|].
    destruct (try_send _ _ _) as [q'| |] eqn:Ht; injection Hs as <-; [|by apply Hnone..].
    apply try_send_queue in Ht as [-> Hd]. eapply (req_caller n w _ [_]); try done. by repeat constructor.
  - destruct (open_end w s) as [x|]; [|done]. unfold poll_shutdown in Hs.
    destruct (us_write_closed _); [injection Hs as <-; by apply Hnone|].
    destruct (try_send _ _ _) as [q'| |] eqn:Ht; injection Hs as <-; [|by apply Hnone..].
    apply try_send_queue in Ht as [-> Hd]. eapply (req_caller n w _ [_]); try done. by repeat constructor.
  - destruct (open_end w s) as [x|]; [|done]. unfold drop_stream in Hs.
    destruct (try_send _ _ _) as [q'| |] eqn:Ht; injection Hs as <-; [|by apply Hnone..].
    apply try_send_queue in Ht as [-> Hd]. eapply (req_caller n w _ [_]); try done. by repeat constructor.
  - destruct (open_end w s) as [x|]; [|done]. injection Hs as <-. by apply Hnone.
Qed.

Lemma req_run n w es w' :
  req_inv (Z.of_nat (length es) + n) w -> 0 <= n -> run w es = Some w' -> req_inv n w'.
Proof.
  revert w. induction es as [|e es IH]; intros w Hi Hn Hr.
  { cbn [run length Z.of_nat] in *. by injection Hr as <-. }
  cbn [run] in Hr. destruct (step w e) as [w1|] eqn:Hs; [|done]. apply (IH w1); [|done|done].
  assert (Hi' : req_inv ((Z.of_nat (length es) + n) + 1) w)
    by (replace (Z.of_nat (length es) + n + 1) with (Z.of_nat (length (e :: es)) + n) by (simpl length; lia); done).
  assert (Hl : 0 <= Z.of_nat (length es) + n) by lia.
  assert (task_step w e = Some w1 \/ user_step w e = Some w1) as [Ht|Hu] by (destruct e; auto).
  - by eapply req_task_step.
  - by eapply req_user_step.
Qed.

Lemma req_start n tx rx : 0 <= n < 2 ^ 64 - 1 -> req_inv n (start tx rx).
Proof.
  intros Hn. split; cbn; try done.
  - lia.
  - apply NoDup_nil_2.
  - intros id Hin. by apply elem_of_nil in Hin.
  - intros pl r Hin. by apply elem_of_nil in Hin.
  - apply NoDup_nil_2.
Qed.

(** ** A request is sent once *)

(** The bytes of a request and the ids it was sent under. *)
Definition sends_of (w : World) (r : nat) : option (bytes * list Z) :=
  (fun q => (rq_payload q, rq_sends q)) <$> w_requests w !! r.

(** Nothing is asked or sent of the requests. *)
Record keeps_sends (w w' : World) : Prop := {
  ks_sends r : sends_of w' r = sends_of w r;
  ks_wire id p : C_Data id p ∈ w_sent w' -> C_Data id p ∈ w_sent w;
}.

#[local] Instance keeps_sends_preorder : PreOrder keeps_sends.
Proof.
  split.
  - by intros w.
  - intros w1 w2 w3 [] []. split; [congruence|eauto].
Qed.

Lemma keeps_same w w' : w_requests w' = w_requests w -> w_sent w' = w_sent w -> keeps_sends w w'.
Proof. intros Hr Hs. split; [intros r; unfold sends_of; by rewrite Hr|by rewrite Hs]. Qed.

Lemma keeps_requests w w' : same_requests w w' -> keeps_sends w w'.
Proof. intros []. by apply keeps_same. Qed.

Lemma keeps_answer w r o : keeps_sends w (answer_request w r o).
Proof.
  split; [|done]. intros r'. unfold sends_of. rewrite answer_lookup.
  destruct (w_requests w !! r') as [q|]; [|done]. cbn. case_bool_decide; [|done].
  by destruct (told_same o q) as (-> & -> & _).
Qed.

Lemma keeps_foldr {A} (f : A -> World -> World) w l :
  (forall a w, keeps_sends w (f a w)) -> keeps_sends w (foldr f w l).
Proof. intros Hf. induction l as [|a l IH]; [done|]. cbn [foldr]. etransitivity; [apply IH|apply Hf]. Qed.

Lemma keeps_drop_command c w : keeps_sends w (drop_command c w).
Proof. destruct c; cbn [drop_command]; [apply keeps_answer|by apply keeps_same..]. Qed.

Lemma keeps_finish w : keeps_sends w (finish w).
Proof.
  unfold finish. set (w1 := foldr drop_command w (w_cmds w)).
  set (w2 := foldr (fun r w => answer_request w r (Err ConnectionClosed)) w1 _).
  set (w3 := foldr (fun s w => on_end w s drop_sender) w2 _).
  transitivity w3; [|by apply keeps_same]. transitivity w2; [|apply keeps_foldr; intros; by apply keeps_same].
  transitivity w1; [apply keeps_foldr, keeps_drop_command|apply keeps_foldr; intros; apply keeps_answer].
Qed.

Lemma keeps_notify w : keeps_sends w (notify_all_closed w).
Proof.
  unfold notify_all_closed. set (w1 := foldr (fun r w => answer_request w r (Err ConnectionClosed)) w _).
  set (w2 := foldr _ w1 _). transitivity w2; [|by apply keeps_same].
  transitivity w1; [|apply keeps_foldr; intros; by apply keeps_same]. apply keeps_foldr. intros. apply keeps_answer.
Qed.

Lemma keeps_dispatch w msg : keeps_sends w (dispatch_response w msg).
Proof.
  destruct msg as [d cn|id p|id m|b m|id p|id]; cbn [dispatch_response]; try done.
  - destruct (t_pending (w_task w) !! id); [|done]. etransitivity; [|apply keeps_answer]. by apply keeps_same.
  - destruct (t_pending (w_task w) !! id).
    + etransitivity; [|apply keeps_answer]. by apply keeps_same.
    + destruct (t_streams (w_task w) !! id); [|done].
      etransitivity; [|apply keeps_requests, same_send_item]. by apply keeps_same.
  - destruct (t_streams (w_task w) !! id); [|done]. apply keeps_requests, same_send_item.
  - apply keeps_requests, same_remove_stream.
Qed.

Lemma keeps_decode w : keeps_sends w (decode_step w).
Proof.
  unfold decode_step. destruct (try_decrypt _ _) as [[[[msg consumed] st]|]|].
  - etransitivity; [|apply keeps_dispatch]. by apply keeps_same.
  - by apply keeps_same.
  - etransitivity; [apply keeps_notify|apply keeps_finish].
Qed.

(** A message that is not a request's. *)
Lemma keeps_transmit w w1 msg fate :
  (forall id p, msg <> C_Data id p) -> (transmit w msg fate).1 = Ok w1 -> keeps_sends w w1.
Proof.
  intros Hmsg. destruct (transmit_cases w msg fate)
    as [(w1' & w2 & -> & _ & Es & Er & _)|(e & w2 & -> & _)]; [|done].
  intros [= <-]. split; [intros r; unfold sends_of; by rewrite Er|].
  intros id p. rewrite Es. intros [?|Hin]%elem_of_app; [done|].
  apply list_elem_of_singleton in Hin. by destruct (Hmsg id p).
Qed.

Lemma keeps_untransmitted w w2 msg fate e : transmit w msg fate = (Err e, w2) -> keeps_sends w w2.
Proof.
  intros Ht. destruct (transmit_cases w msg fate)
    as [(? & ? & Ht' & _)|(e' & w2' & Ht' & Es & Er & _)]; rewrite Ht in Ht'; [done|].
  injection Ht' as <- <-. by apply keeps_same.
Qed.

(** A command sends at most the request it carries. *)
Lemma command_sends w c fate :
  keeps_sends w (handle_command w c fate) \/
  exists payload r, c = Cmd_Request payload r /\
    w_sent (handle_command w c fate) = w_sent w ++ [C_Data (next w) payload] /\
    w_requests (handle_command w c fate) = alter (with_id (next w)) r (w_requests w).
Proof.
  destruct c as [payload r|payload s|id payload|id half]; cbn [handle_command].
  - destruct (transmit_cases (set_next w (u64_add (next w) 1)) (C_Data (next w) payload) fate)
      as [(w1 & w2 & Ht & _ & Es & Er & _)|(e & w2 & Ht & Es & Er & _)]; rewrite Ht.
    + right. exists payload, r. split_and!; [done|cbn; by rewrite Es|cbn; by rewrite Er].
    + left. etransitivity; [|apply keeps_answer]. apply keeps_same; [exact Er|exact Es].
  - left. pose proof (keeps_transmit (set_next w (u64_add (next w) 1))) as Hk.
    pose proof (keeps_untransmitted (set_next w (u64_add (next w) 1))) as Hu.
    destruct (transmit _ _ _) as [[w1|e] w2] eqn:Ht.
    + transitivity w1; [|by apply keeps_same]. etransitivity; [by apply (keeps_same w (set_next w (u64_add (next w) 1)))|].
      eapply Hk; [|by rewrite Ht]. done.
    + transitivity w2; [|by apply keeps_same]. etransitivity; [by apply (keeps_same w (set_next w (u64_add (next w) 1)))|].
      by eapply Hu.
  - left. destruct (transmit _ _ _) as [[w1|e] w2] eqn:Ht.
    + eapply keeps_transmit; [|by rewrite Ht]. done.
    + etransitivity; [by eapply keeps_untransmitted|]. apply keeps_requests, same_fail_stream.
  - left. assert (Hw : keeps_sends w (match transmit w (C_StreamClose id half) fate with
                                      | (Ok w, _) => w | (Err _, w) => w end)).
    { destruct (transmit _ _ _) as [[w1|e] w2] eqn:Ht.
      - eapply keeps_transmit; [|by rewrite Ht]. done.
      - by eapply keeps_untransmitted. }
    destruct half; [exact Hw|]. etransitivity; [exact Hw|]. apply keeps_requests, same_remove_stream.
Qed.

Lemma keeps_task_step w e w' :
  task_step w e = Some w' ->
  keeps_sends w w' \/
  exists c q fate, w_cmds w = c :: q /\ w' = handle_command (set_cmds w q) c fate.
Proof.
  intros Hs. unfold task_step in Hs. destruct (mode w) as [| |s id i final|] eqn:Hm.
  - destruct e; try done.
    + destruct (w_cmds w) as [|c q] eqn:Hq; [done|]. injection Hs as <-. right. eauto.
    + injection Hs as <-. left. by apply keeps_same.
    + injection Hs as <-. left. etransitivity; [apply keeps_notify|apply keeps_finish].
    + injection Hs as <-. left. etransitivity; [apply keeps_notify|apply keeps_finish].
    + case_match; [|done]. injection Hs as <-. left. apply keeps_finish.
  - destruct e; try done. injection Hs as <-. left. apply keeps_decode.
  - destruct e; try done. destruct (w_ends w !! s) as [x|]; [|done]. case_match; [done|].
    injection Hs as <-. left. apply keeps_requests. etransitivity; [apply (same_set_mode w M_Decode)|apply same_send_item].
  - by destruct e.
Qed.

Lemma keeps_user_step w e w' :
  user_step w e = Some w' ->
  keeps_sends w w' \/
  exists r payload, e = U_Request r payload /\ w_requests w !! r = None /\ w_sent w' = w_sent w /\
    sends_of w' r = Some (payload, []) /\ forall r', r' <> r -> sends_of w' r' = sends_of w r'.
Proof.
  intros Hs. destruct e as [r payload|r|s payload|s|s bs|s|s|s room| | | | | | |]; cbn [user_step] in Hs; try done.
  - right. exists r, payload. case_bool_decide as Hr; [done|]. apply eq_None_not_Some in Hr.
    destruct (negb _); [|case_match; [|done]]; injection Hs as <-; unfold sends_of; cbn;
      rewrite lookup_insert_eq; split_and!; try done; intros r' Hne; by rewrite lookup_insert_ne.
  - injection Hs as <-. left. split; [|done]. intros r'. unfold sends_of. cbn.
    destruct (decide (r = r')) as [->|]; [rewrite lookup_alter_eq|by rewrite lookup_alter_ne].
    by destruct (w_requests w !! r').
  - left. case_bool_decide; [done|]. destruct (negb _); [|case_match; [|done]]; injection Hs as <-; by apply keeps_same.
  - left. destruct (w_ends w !! s) as [x|]; [|done]. destruct (sm_opened x); [done|]. injection Hs as <-. by apply keeps_same.
  - left. destruct (open_end w s) as [x|]; [|done]. destruct (poll_write _ _ _ _) as [[] ?]; injection Hs as <-; by apply keeps_same.
  - left. destruct (open_end w s) as [x|]; [|done]. destruct (poll_shutdown _ _ _) as [[] ?]; injection Hs as <-; by apply keeps_same.
  - left. destruct (open_end w s) as [x|]; [|done]. injection Hs as <-. by apply keeps_same.
  - left. destruct (open_end w s) as [x|]; [|done]. injection Hs as <-. by apply keeps_same.
Qed.

(** After the events [past]: who asked for each request, how often it was sent,
    and whose every message on the wire is. *)
Record once_inv (past : list Event) (w : World) : Prop := {
  oi_asked r q : w_requests w !! r = Some q -> U_Request r (rq_payload q) ∈ past;
  oi_sends r q : w_requests w !! r = Some q -> rq_sends q = [] \/ exists id, rq_sends q = [id];
  oi_wire id p : C_Data id p ∈ w_sent w ->
    exists r q, w_requests w !! r = Some q /\ rq_sends q = [id] /\ rq_payload q = p;
}.

Lemma sends_of_Some w r p l :
  sends_of w r = Some (p, l) <-> exists q, w_requests w !! r = Some q /\ rq_payload q = p /\ rq_sends q = l.
Proof.
  unfold sends_of. rewrite fmap_Some. split.
  - intros (q & Hq & [= -> ->]). by exists q.
  - intros (q & Hq & <- & <-). by exists q.
Qed.

Lemma once_keeps past w w' : once_inv past w -> keeps_sends w w' -> once_inv past w'.
Proof.
  intros [Ia Io Iw] [Ks Kw].
  assert (Hback : forall r q', w_requests w' !! r = Some q' -> exists q, w_requests w !! r = Some q /\
    rq_payload q = rq_payload q' /\ rq_sends q = rq_sends q').
  { intros r q' Hq'. assert (Hs : sends_of w' r = Some (rq_payload q', rq_sends q')) by (apply sends_of_Some; eauto).
    rewrite Ks in Hs. by apply sends_of_Some in Hs. }
  split.
  - intros r q' (q & Hq & <- & _)%Hback. eauto.
  - intros r q' (q & Hq & _ & <-)%Hback. eauto.
  - intros id p (r & q & Hq & Hs & Hp)%Kw%Iw.
    assert (Hx : sends_of w r = Some (p, [id])) by (apply sends_of_Some; eauto).
    rewrite <- Ks in Hx. apply sends_of_Some in Hx as (q' & ? & ? & ?). eauto.
Qed.

Lemma once_weaken past e w : once_inv past w -> once_inv (past ++ [e]) w.
Proof. intros [Ia Io Iw]. split; [|done..]. intros r q Hq. apply elem_of_app. left. eauto. Qed.

Lemma once_sent past n w payload r q w' :
  req_inv n w -> w_cmds w = Cmd_Request payload r :: q -> once_inv past w ->
  w_sent w' = w_sent w ++ [C_Data (next w) payload] ->
  w_requests w' = alter (with_id (next w)) r (w_requests w) -> once_inv past w'.
Proof.
  intros Hi Hq [Ia Io Iw] Hs Hr.
  destruct (req_pop _ _ _ _ _ Hi Hq) as (_ & _ & x & Hrx & Hpay & Hnone & _).
  assert (Hx : w_requests w' !! r = Some (with_id (next w) x)) by (by rewrite Hr, lookup_alter_eq, Hrx).
  assert (Hother : forall r', r' <> r -> w_requests w' !! r' = w_requests w !! r')
    by (intros r' Hne; by rewrite Hr, lookup_alter_ne).
  split.
  - intros r' q' Hq'. destruct (decide (r' = r)) as [->|Hne]; [|rewrite Hother in Hq' by done; eauto].
    rewrite Hx in Hq'. injection Hq' as <-. cbn. eauto.
  - intros r' q' Hq'. destruct (decide (r' = r)) as [->|Hne]; [|rewrite Hother in Hq' by done; eauto].
    rewrite Hx in Hq'. injection Hq' as <-. cbn. rewrite Hnone. eauto.
  - intros id p. rewrite Hs. intros [Hin|Hin]%elem_of_app.
    + destruct (Iw _ _ Hin) as (r' & q' & Hq' & Hid & Hp). exists r', q'. rewrite Hother; [done|].
      intros ->. congruence.
    + apply list_elem_of_singleton in Hin as [= -> ->]. exists r, (with_id (next w) x). cbn. by rewrite Hnone.
Qed.

Lemma once_step past n w e w' :
  req_inv n w -> once_inv past w -> step w e = Some w' -> once_inv (past ++ [e]) w'.
Proof.
  intros Hi Ho Hs.
  assert (task_step w e = Some w' \/ user_step w e = Some w') as [Ht|Hu] by (destruct e; auto).
  - apply keeps_task_step in Ht as [Hk|(c & q & fate & Hq & ->)].
    { by eapply once_weaken, once_keeps. }
    apply once_weaken. destruct (command_sends (set_cmds w q) c fate) as [Hk|(payload & r & -> & Hs' & Hr)].
    + eapply once_keeps; [done|]. etransitivity; [by apply (keeps_same w (set_cmds w q))|exact Hk].
    + by eapply (once_sent past n w).
  - apply keeps_user_step in Hu as [Hk|(r & payload & -> & Hnone & Hsent & Hnew & Hother)].
    { by eapply once_weaken, once_keeps. }
    apply sends_of_Some in Hnew as (qn & Hqn & Hpn & Hsn). destruct Ho as [Ia Io Iw].
    assert (Hback : forall r' q', w_requests w' !! r' = Some q' -> r' <> r -> exists q, w_requests w !! r' = Some q /\
      rq_payload q = rq_payload q' /\ rq_sends q = rq_sends q').
    { intros r' q' Hq' Hne. assert (Hx : sends_of w' r' = Some (rq_payload q', rq_sends q')) by (apply sends_of_Some; eauto).
      rewrite Hother in Hx by done. by apply sends_of_Some in Hx. }
    split.
    + intros r' q' Hq'. apply elem_of_app. destruct (decide (r' = r)) as [->|Hne].
      * right. assert (q' = qn) as -> by congruence. subst. apply list_elem_of_here.
      * left. destruct (Hback _ _ Hq' Hne) as (q & Hq & <- & _). eauto.
    + intros r' q' Hq'. destruct (decide (r' = r)) as [->|Hne]; [left; congruence|].
      destruct (Hback _ _ Hq' Hne) as (q & Hq & _ & <-). eauto.
    + intros id p. rewrite Hsent. intros (r' & q' & Hq' & Hid & Hp)%Iw.
      assert (r' <> r) as Hne by congruence.
      assert (Hx : sends_of w r' = Some (p, [id])) by (apply sends_of_Some; eauto).
      rewrite <- Hother in Hx by done. apply sends_of_Some in Hx as (q & ? & ? & ?). eauto.
Qed.

Lemma once_run past n w es w' :
  req_inv (Z.of_nat (length es) + n) w -> 0 <= n -> once_inv past w -> run w es = Some w' ->
  once_inv (past ++ es) w'.
Proof.
  revert past w. induction es as [|e es IH]; intros past w Hi Hn Ho Hr.
  { cbn [run] in Hr. injection Hr as <-. by rewrite app_nil_r. }
  cbn [run] in Hr. destruct (step w e) as [w1|] eqn:Hs; [|done].
  assert (Hi1 : req_inv (Z.of_nat (length es) + n) w1).
  { apply (req_run _ w [e]); [|lia|cbn [run]; by rewrite Hs].
    replace (Z.of_nat (length [e]) + (Z.of_nat (length es) + n)) with (Z.of_nat (length (e :: es)) + n)
      by (simpl length; lia). done. }
  replace (past ++ e :: es) with ((past ++ [e]) ++ es) by by rewrite <- app_assoc.
  apply (IH _ w1); [done|done|exact (once_step _ _ _ _ _ Hi Ho Hs)|done].
Qed.

(** C26: a request is sent at most once, and answered by its own response.  In
    every schedule, each request-bearing message on the wire belongs to one
    request a caller made, with that request's bytes, and to no other: a request
    was put on the wire once or not at all, whatever was answered, failed or
    closed meanwhile, and no two openings share an id.  A request that was
    answered with a payload was on the wire, and the payload is that of a
    response the enclave sent for its id. *)
Theorem responses_are_paired tx rx es w :
  Z.of_nat (length es) < 2 ^ 64 - 1 -> run (start tx rx) es = Some w ->
  NoDup (opening_ids (w_sent w)) /\
  (forall r q, w_requests w !! r = Some q -> U_Request r (rq_payload q) ∈ es /\
     (rq_sends q = [] \/ exists id, rq_sends q = [id] /\ C_Data id (rq_payload q) ∈ w_sent w)) /\
  (forall id p, C_Data id p ∈ w_sent w ->
     exists r q, w_requests w !! r = Some q /\ rq_sends q = [id] /\ rq_payload q = p /\
       forall r' q', w_requests w !! r' = Some q' -> rq_sends q' = [id] -> r' = r) /\
  (forall r q p, w_requests w !! r = Some q -> rq_outcome q = Some (Ok p) ->
     exists id, rq_sends q = [id] /\ C_Data id (rq_payload q) ∈ w_sent w /\
       S_Data id p ∈ w_received w).
Proof.
  intros Hn Hr.
  assert (Hs : req_inv (Z.of_nat (length es) + 0) (start tx rx)) by (rewrite Z.add_0_r; apply req_start; lia).
  assert (Ho : once_inv [] (start tx rx)) by (split; cbn; try done; intros ? ? Hin; by apply elem_of_nil in Hin).
  pose proof (once_run [] 0 _ _ _ Hs ltac:(lia) Ho Hr) as [Oa Os Ow].
  apply (req_run 0) in Hr as [In Is Il Ip Ii Ij Io Ic Id Iw Im]; [|done|done].
  split_and!; [done| | |].
  - intros r q Hq. split; [by apply Oa|]. destruct (Os _ _ Hq) as [?|[id Hid]]; [by left|right]. eauto.
  - intros id p (r & q & Hq & Hid & Hp)%Ow. exists r, q. split_and!; eauto.
  - intros r q p Hq Hout. destruct (Io _ _ _ Hq Hout) as (id & Hid & Hin). exists id. split_and!; eauto.
Qed.

(** ** The end of the channel *)



(** A stream's queue only gets notices of the end, and its sender stays dropped. *)
Definition extended (x x' : Stream) : Prop :=
  (exists k, sm_queue x' = sm_queue x ++ replicate k (Err ConnectionClosed)) /\
  (sm_tx x = false -> sm_tx x' = false).

#[local] Instance extended_preorder : PreOrder extended.
Proof.
  split.
  - intros x. split; [exists 0%nat; by rewrite app_nil_r|done].
  - intros x y z [[k Hk] Ht] [[k' Hk'] Ht']. split; [|auto]. exists (k + k')%nat.
    by rewrite Hk', Hk, <- app_assoc, <- replicate_add.
Qed.














(** ** The decoding loop ends *)




End Requests.

#[local] Existing Instances NoiseDemo.toy_noise TransportDemo.toy_client_cbor TransportDemo.toy_server_cbor.

Lemma responses_are_paired_witness :
  run TransportDemo.fresh TransportDemo.schedule = Some (TransportDemo.after TransportDemo.schedule) /\
  NoDup (opening_ids (w_sent (TransportDemo.after TransportDemo.schedule))) /\
  exists id, C_Data id [1; 2] ∈ w_sent (TransportDemo.after TransportDemo.schedule) /\
    S_Data id [6] ∈ w_received (TransportDemo.after TransportDemo.schedule).
Proof.
  assert (Hr : run TransportDemo.fresh TransportDemo.schedule = Some (TransportDemo.after TransportDemo.schedule))
    by (vm_compute; reflexivity).
  split; [exact Hr|].
  destruct (responses_are_paired TransportDemo.zero TransportDemo.zero TransportDemo.schedule _
    ltac:(reflexivity) Hr) as (Hn & _ & _ & Hok).
  split; [exact Hn|].
  destruct (Hok 0%nat (mkRequest [1; 2] [1] (Some (Ok [6])) false) [6]) as (id & _ & Hs & Hv).
  - vm_compute; reflexivity.
  - reflexivity.
  - exact (ex_intro _ id (conj Hs Hv)).
Defined.

