(* ===== verification/SdkStreams.v ===== *)
(** The SDK's byte streams: what a reader gets.

    The invariant relates a stream's reader to the messages the enclave sent
    for its id: what was read, what is buffered, queued or held by the task
    waiting for room is, in order, what was received since the stream opened. *)
From stdpp Require Import base gmap list strings.
From S2P Require Import Prelude Signing Text Transport Sdk SdkTransport SdkTransportProofs.
#[local] Open Scope Z_scope.

(** The stream bytes received for an id. *)
Definition data_for (id : Z) (m : SdkServerMessage) : option bytes :=
  match m with S_StreamData i p => if i =? id then Some p else None | _ => None end.
Definition data_of (id : Z) (l : list SdkServerMessage) : bytes := concat (omap (data_for id) l).

(** The bytes of the queued items. *)
Definition item_bytes (i : item) : bytes := match i with Ok b => b | Err _ => [] end.
Definition queued_bytes (q : list item) : bytes := q ≫= item_bytes.

(** What a reader got or still gets. *)
Definition delivered (e : Stream) : bytes :=
  sm_got e ++ unread (sm_object e) ++ queued_bytes (sm_queue e).

Definition blocked_bytes (m : TaskMode) (s : nat) : bytes :=
  match m with
  | M_Blocked s' _ i _ => if bool_decide (s' = s) then item_bytes i else []
  | _ => []
  end.

Lemma data_of_snoc id l m : data_of id (l ++ [m]) = data_of id l ++ default [] (data_for id m).
Proof.
  unfold data_of. rewrite omap_app, concat_app. cbn. destruct (data_for id m); cbn; by rewrite ?app_nil_r.
Qed.

Lemma queued_bytes_snoc q i : queued_bytes (q ++ [i]) = queued_bytes q ++ item_bytes i.
Proof. unfold queued_bytes. rewrite bind_app. cbn. by rewrite app_nil_r. Qed.

(** ** Reading *)

Lemma take_buffered_spec u room :
  let '(out, u') := take_buffered u room in
  out ++ unread u' = unread u /\ us_id u' = us_id u /\ us_eof u' = us_eof u /\
  us_write_closed u' = us_write_closed u /\
  ((length (unread u) <= room)%nat -> unread u' = []).
Proof.
  unfold take_buffered, unread. set (n := Nat.min _ _). set (buf := us_read_buf u). set (pos := us_read_pos u).
  assert (Hsplit : slice buf pos (pos + n) ++ drop (pos + n) buf = drop pos buf).
  { unfold slice. replace (pos + n - pos)%nat with n by lia.
    rewrite <- drop_drop. apply take_drop. }
  destruct (pos + n =? length buf)%nat eqn:E;
    cbn [us_read_buf us_read_pos us_id us_eof us_write_closed]; split_and!; try done.
  - apply Nat.eqb_eq in E. rewrite E, drop_all in Hsplit. rewrite E. exact Hsplit.
  - intros Hr. rewrite length_drop in Hr. apply Nat.eqb_neq in E. apply drop_ge. fold buf pos in n, E. lia.
Qed.

Lemma poll_queue_spec u q tx room :
  unread u = [] ->
  let '(r, u', q') := poll_queue u q tx room in
  (match r with Read_Ready bs => bs | _ => [] end) ++ unread u' ++ queued_bytes q' = queued_bytes q /\
  us_id u' = us_id u /\ us_write_closed u' = us_write_closed u.
Proof.
  intros Hu. induction q as [|[[|b chunk]|e] q IH]; cbn [poll_queue].
  - destruct tx; [by rewrite Hu|]. unfold unread in *. cbn. by rewrite Hu.
  - exact IH.
  - pose proof (take_buffered_spec (mkUpgraded (us_id u) (b :: chunk) 0 (us_eof u) (us_write_closed u)) room) as Ht.
    destruct (take_buffered _ room) as [out u']. destruct Ht as (Ho & Hi & _ & Hw & _).
    split; [|done]. rewrite app_assoc, Ho. done.
  - by rewrite Hu.
Qed.

Lemma poll_read_spec u q tx room :
  let '(r, u', q') := poll_read u q tx room in
  (match r with Read_Ready bs => bs | _ => [] end) ++ unread u' ++ queued_bytes q' = unread u ++ queued_bytes q /\
  us_id u' = us_id u /\ us_write_closed u' = us_write_closed u.
Proof.
  unfold poll_read. destruct (0 <? _)%nat eqn:E.
  - pose proof (take_buffered_spec u room) as Ht. destruct (take_buffered u room) as [out u'].
    destruct Ht as (Ho & Hi & _ & Hw & _). by rewrite app_assoc, Ho.
  - assert (Hu : unread u = []).
    { apply Nat.ltb_ge in E. unfold unread. apply drop_ge. lia. }
    destruct (us_eof u); [by rewrite Hu|]. pose proof (poll_queue_spec u q tx room Hu) as Hq.
    destruct (poll_queue u q tx room) as [[r u'] q']. by rewrite Hu.
Qed.

(** A read moves bytes from the stream to the reader and loses none. *)
Lemma read_end_spec e room :
  delivered (read_end e room) = delivered e /\ sm_opened (read_end e room) = sm_opened e /\
  sm_rx (read_end e room) = sm_rx e /\ sm_tx (read_end e room) = sm_tx e /\
  us_id (sm_object (read_end e room)) = us_id (sm_object e) /\
  us_write_closed (sm_object (read_end e room)) = us_write_closed (sm_object e).
Proof.
  unfold read_end, delivered. pose proof (poll_read_spec (sm_object e) (sm_queue e) (sm_tx e) room) as Hp.
  destruct (poll_read _ _ _ _) as [[r u'] q']. destruct Hp as (Hb & Hi & Hw).
  destruct r; cbn [sm_got sm_object sm_queue sm_opened sm_rx sm_tx];
    (split_and!; [rewrite <- Hb, <- ?app_assoc; done|done..]).
Qed.

(** ** The invariant of streams *)

Definition open_token (c : OutboundCommand) : option nat :=
  match c with Cmd_OpenStream _ s => Some s | _ => None end.
Definition open_tokens (q : list OutboundCommand) : list nat := omap open_token q.

Lemma elem_of_open_tokens q s : s ∈ open_tokens q <-> exists payload, Cmd_OpenStream payload s ∈ q.
Proof.
  unfold open_tokens. rewrite list_elem_of_omap. split.
  - intros (c & Hc & Hs). destruct c; try done. injection Hs as ->. eauto.
  - intros [payload Hc]. eauto.
Qed.

Lemma alter_as_insert {A} (f : A -> A) (m : gmap nat A) s e :
  m !! s = Some e -> alter f s m = <[s := f e]> m.
Proof.
  intros Hs. apply map_eq. intros s'. destruct (decide (s = s')) as [->|].
  - by rewrite lookup_alter_eq, lookup_insert_eq, Hs.
  - by rewrite lookup_alter_ne, lookup_insert_ne.
Qed.

Section Streams.
Context `{Noise} `{Cbor SdkClientMessage} `{Cbor SdkServerMessage}.

Abbreviation streams w := (t_streams (w_task w)).
Abbreviation next w := (t_next_id (w_task w)).
Abbreviation mode w := (t_mode (w_task w)).

(** The reader of [e] is in step with the messages received since some point:
    it has a prefix of their bytes, and all of them while it is in the table. *)
Definition in_step (w : World) (s : nat) (e : Stream) (id : Z) : Prop :=
  exists l1 l2, w_received w = l1 ++ l2 /\
    (delivered e ++ blocked_bytes (mode w) s) `prefix_of` data_of id l2 /\
    (streams w !! id = Some s -> delivered e ++ blocked_bytes (mode w) s = data_of id l2).

Record str_inv (w : World) : Prop := {
  si_streams id s : streams w !! id = Some s ->
    exists e, w_ends w !! s = Some e /\ sm_opened e = Some (Ok id);
  si_lt s e id : w_ends w !! s = Some e -> sm_opened e = Some (Ok id) -> id < next w;
  si_inj s1 s2 e1 e2 id : w_ends w !! s1 = Some e1 -> w_ends w !! s2 = Some e2 ->
    sm_opened e1 = Some (Ok id) -> sm_opened e2 = Some (Ok id) -> s1 = s2;
  si_new s e : w_ends w !! s = Some e -> sm_opened e = None ->
    sm_got e = [] /\ queued_bytes (sm_queue e) = [];
  si_id s e id : w_ends w !! s = Some e -> sm_opened e = Some (Ok id) -> us_id (sm_object e) = id;
  si_data s e id : w_ends w !! s = Some e -> sm_opened e = Some (Ok id) -> sm_rx e = true ->
    in_step w s e id;
  si_cmd payload s : Cmd_OpenStream payload s ∈ w_cmds w ->
    exists e, w_ends w !! s = Some e /\ sm_opened e = None;
  si_cmd_nodup : NoDup (open_tokens (w_cmds w));
  si_blocked s id i final : mode w = M_Blocked s id i final ->
    (exists e, w_ends w !! s = Some e /\ sm_opened e = Some (Ok id)) /\
    (if final then exists er, i = Err er else streams w !! id = Some s);
}.

(** An update of an end that neither adds nor loses bytes. *)
Definition tame (e e' : Stream) : Prop :=
  (sm_opened e' = sm_opened e \/ sm_opened e = None /\ exists er, sm_opened e' = Some (Err er)) /\
  (sm_rx e' = true -> sm_rx e = true /\ delivered e' = delivered e) /\
  (sm_opened e' = None -> sm_got e' = sm_got e /\ queued_bytes (sm_queue e') = queued_bytes (sm_queue e)) /\
  us_id (sm_object e') = us_id (sm_object e).

#[local] Instance tame_preorder : PreOrder tame.
Proof.
  split.
  - intros e. repeat split; auto.
  - intros e1 e2 e3 (A1 & A2 & A3 & A4) (B1 & B2 & B3 & B4). split_and!.
    + destruct A1 as [A1|[A1 [er A1']]], B1 as [B1|[B1 [er' B1']]]; try congruence.
      * left. congruence.
      * right. split; [congruence|eauto].
      * right. split; [done|]. exists er. congruence.
    + intros Hr. destruct (B2 Hr) as [Hr2 ->]. auto.
    + intros Ho. destruct (B3 Ho) as [-> ->]. apply A3.
      destruct B1 as [B1|[_ [er B1]]]; congruence.
    + congruence.
Qed.

Lemma tame_drop_sender e : tame e (drop_sender e).
Proof. repeat split; cbn; auto. Qed.

Lemma tame_push_err er e : tame e (push_item (Err er) e).
Proof.
  unfold push_item. destruct (sm_rx e) eqn:Hr; [|done]. repeat split; cbn; auto.
  - unfold delivered. cbn. by rewrite queued_bytes_snoc, app_nil_r.
  - by rewrite queued_bytes_snoc, app_nil_r.
Qed.

Lemma tame_try_push_last er e : tame e (try_push_last (Err er) e).
Proof.
  unfold try_push_last. case_match; [|apply tame_drop_sender].
  etransitivity; [apply tame_push_err|apply tame_drop_sender].
Qed.

Lemma tame_refused er e : tame e (drop_sender (answer_open (Err er) e)).
Proof.
  unfold answer_open. destruct (sm_opened e) as [o|] eqn:Ho; [apply tame_drop_sender|].
  repeat split; cbn; auto; try done. right. eauto.
Qed.

(** The ends of two worlds, one by one. *)
Definition ends_tame (w w' : World) : Prop :=
  forall s, option_Forall2 tame (w_ends w !! s) (w_ends w' !! s).

#[local] Instance ends_tame_preorder : PreOrder ends_tame.
Proof.
  split.
  - intros w s. by destruct (w_ends w !! s); constructor.
  - intros w1 w2 w3 H12 H23 s. specialize (H12 s). specialize (H23 s).
    destruct H12 as [e1 e2 H12|]; [|by inversion H23]. inversion H23 as [? e3 H23'|]; simplify_eq.
    constructor. by transitivity e2.
Qed.

Lemma ends_tame_on_end w s f : (forall e, tame e (f e)) -> ends_tame w (on_end w s f).
Proof.
  intros Hf s'. unfold on_end. cbn [set_ends w_ends]. destruct (decide (s' = s)) as [->|Hne].
  - rewrite lookup_alter_eq. destruct (w_ends w !! s); by constructor.
  - rewrite lookup_alter_ne by done. by destruct (w_ends w !! s'); constructor.
Qed.

Lemma ends_tame_eq w w' : w_ends w' = w_ends w -> ends_tame w w'.
Proof. intros Hw s. rewrite Hw. by destruct (w_ends w !! s); constructor. Qed.

Lemma ends_tame_foldr {A} (f : A -> World -> World) w l :
  (forall a w, ends_tame w (f a w)) -> ends_tame w (foldr f w l).
Proof. intros Hf. induction l as [|a l IH]; [done|]. cbn [foldr]. etransitivity; [apply IH|apply Hf]. Qed.

(** What the invariant asks of the mode. *)
Definition mode_ok (w : World) : Prop :=
  forall s id i final, mode w = M_Blocked s id i final ->
    (exists e, w_ends w !! s = Some e /\ sm_opened e = Some (Ok id)) /\
    (if final then exists er, i = Err er else streams w !! id = Some s).

(** The task holds no bytes for a stream. *)
Definition holds_nothing (w : World) : Prop := forall s, blocked_bytes (mode w) s = [].

(** It holds the same for every stream that is still read. *)
Definition held_alike (w w' : World) : Prop :=
  forall s e', w_ends w' !! s = Some e' -> sm_rx e' = true ->
    blocked_bytes (mode w') s = blocked_bytes (mode w) s.

Lemma nothing_held w w' : holds_nothing w -> holds_nothing w' -> held_alike w w'.
Proof. intros Hw Hw' s e' _ _. by rewrite Hw, Hw'. Qed.

Lemma decode_holds_nothing w : mode w = M_Decode \/ mode w = M_Select \/ mode w = M_Done -> holds_nothing w /\ mode_ok w.
Proof. intros [E | [E | E]]; split; intros s; intros; rewrite E in *; done. Qed.

(** A step that neither adds nor loses stream bytes. *)
Lemma str_frame w w' :
  str_inv w -> ends_tame w w' -> next w <= next w' -> w_received w' = w_received w ->
  (forall payload s, Cmd_OpenStream payload s ∈ w_cmds w' ->
     exists e, w_ends w' !! s = Some e /\ sm_opened e = None) ->
  NoDup (open_tokens (w_cmds w')) ->
  (mode w' = mode w /\ streams w' = streams w \/
   held_alike w w' /\ mode_ok w' /\
   (forall id s, streams w' !! id = Some s -> streams w !! id = Some s)) ->
  str_inv w'.
Proof.
  intros [Is Il Ij In Ii Id Ic Ind Ib] Ht Hx Hv Hc Hnd Hm.
  assert (Hback : forall s e', w_ends w' !! s = Some e' -> exists e, w_ends w !! s = Some e /\ tame e e').
  { intros s e' He'. specialize (Ht s). rewrite He' in Ht. inversion Ht; simplify_eq. eauto. }
  assert (Hfwd : forall s e, w_ends w !! s = Some e -> exists e', w_ends w' !! s = Some e' /\ tame e e').
  { intros s e He. specialize (Ht s). rewrite He in Ht. inversion Ht; simplify_eq. eauto. }
  assert (Hop : forall e e' id, tame e e' -> sm_opened e' = Some (Ok id) -> sm_opened e = Some (Ok id)).
  { intros e e' id ([?|[_ [er ?]]] & _) ?; congruence. }
  assert (Hop' : forall e e' id, tame e e' -> sm_opened e = Some (Ok id) -> sm_opened e' = Some (Ok id)).
  { intros e e' id ([?|[? _]] & _) ?; congruence. }
  assert (Hstr : forall id s, streams w' !! id = Some s -> streams w !! id = Some s).
  { destruct Hm as [[_ ->]|(_ & _ & Hm)]; auto. }
  assert (Hbl : held_alike w w').
  { destruct Hm as [[E _]|(Hu & _)]; [|done]. intros s e' _ _. by rewrite E. }
  split.
  - intros id s Hs. apply Hstr, Is in Hs as (e & He & Ho). destruct (Hfwd _ _ He) as (e' & ? & ?). eauto.
  - intros s e' id He' Ho. destruct (Hback _ _ He') as (e & He & Hte).
    pose proof (Il _ _ _ He (Hop _ _ _ Hte Ho)). lia.
  - intros s1 s2 e1' e2' id He1 He2 Ho1 Ho2.
    destruct (Hback _ _ He1) as (e1 & He1' & Ht1), (Hback _ _ He2) as (e2 & He2' & Ht2). eauto.
  - intros s e' He' Ho. destruct (Hback _ _ He') as (e & He & (Hopen & _ & Hnew & _)).
    destruct (Hnew Ho) as [-> ->]. apply (In s e He). destruct Hopen as [?|[_ [er ?]]]; congruence.
  - intros s e' id He' Ho. destruct (Hback _ _ He') as (e & He & Hte).
    pose proof (Hop _ _ _ Hte Ho) as Ho0. destruct Hte as (_ & _ & _ & ->). eauto.
  - intros s e' id He' Ho Hr. destruct (Hback _ _ He') as (e & He & Hte).
    pose proof (Hop _ _ _ Hte Ho) as Ho0. destruct Hte as (_ & Hrx & _). destruct (Hrx Hr) as [Hr0 Hdel].
    destruct (Id _ _ _ He Ho0 Hr0) as (l1 & l2 & Hl & Hpre & Heq). exists l1, l2.
    rewrite Hv, (Hbl _ _ He' Hr), Hdel. split_and!; auto.
  - done.
  - done.
  - intros s id i final Hmode. destruct Hm as [[Hm Hs]|(_ & Hu & _)]; [|exact (Hu _ _ _ _ Hmode)].
    rewrite Hm in Hmode. destruct (Ib _ _ _ _ Hmode) as [(e & He & Ho) Hf]. rewrite Hs. split; [|done].
    destruct (Hfwd _ _ He) as (e' & ? & ?). eauto.
Qed.

(** A message that is for no stream of the table. *)
Lemma str_receive w w' msg :
  str_inv w -> (forall id p, msg = S_StreamData id p -> streams w !! id = None) ->
  w_ends w' = w_ends w -> next w' = next w -> w_cmds w' = w_cmds w -> mode w' = mode w ->
  streams w' = streams w -> w_received w' = w_received w ++ [msg] -> str_inv w'.
Proof.
  intros [Is Il Ij In Ii Id Ic Ind Ib] Hmsg He Hx Hc Hm Hs Hv.
  split; rewrite ?He, ?Hx, ?Hc, ?Hm, ?Hs; try done.
  intros s e id Hse Ho Hr. destruct (Id _ _ _ Hse Ho Hr) as (l1 & l2 & Hl & Hpre & Heq).
  exists l1, (l2 ++ [msg]). rewrite Hm, Hs, Hv, Hl, app_assoc, data_of_snoc. split_and!; [done|by apply prefix_app_r|].
  intros Htab. rewrite (Heq Htab). destruct msg as [| | | |i p|]; try (cbn; by rewrite app_nil_r).
  cbn. destruct (Z.eqb_spec i id) as [->|]; [|cbn; by rewrite app_nil_r].
  by rewrite (Hmsg id p eq_refl) in Htab.
Qed.

(** Bytes [p] enter the end of stream [s] or the task's hand for it. *)
Lemma str_point w w' s e e' id msgs :
  str_inv w -> w_ends w !! s = Some e -> sm_opened e = Some (Ok id) -> sm_rx e = true ->
  w_ends w' = <[s := e']> (w_ends w) -> sm_opened e' = sm_opened e -> sm_rx e' = true ->
  us_id (sm_object e') = us_id (sm_object e) ->
  w_received w' = w_received w ++ msgs -> (forall id', id' <> id -> data_of id' msgs = []) ->
  delivered e' ++ blocked_bytes (mode w') s = delivered e ++ blocked_bytes (mode w) s ++ data_of id msgs ->
  (forall s', s' <> s -> blocked_bytes (mode w') s' = blocked_bytes (mode w) s') ->
  streams w' = streams w -> streams w !! id = Some s -> next w' = next w -> w_cmds w' = w_cmds w -> mode_ok w' ->
  str_inv w'.
Proof.
  intros [Is Il Ij In Ii Id Ic Ind Ib] Hse Ho Hr He' Ho' Hr' Hid Hv Hothers Hdel Hbl Hs Htab Hx Hc Hmok.
  assert (Hback : forall s0 x', w_ends w' !! s0 = Some x' -> exists x, w_ends w !! s0 = Some x /\
    sm_opened x' = sm_opened x /\ us_id (sm_object x') = us_id (sm_object x) /\
    (s0 <> s /\ x' = x \/ s0 = s /\ x' = e' /\ x = e)).
  { intros s0 x' Hx'. rewrite He' in Hx'. apply lookup_insert_Some in Hx' as [[<- <-]|[Hne Hx']]; eauto 10. }
  assert (Hfwd : forall s0 x, w_ends w !! s0 = Some x -> exists x', w_ends w' !! s0 = Some x' /\ sm_opened x' = sm_opened x).
  { intros s0 x Hx0. rewrite He'. destruct (decide (s0 = s)) as [->|].
    - rewrite lookup_insert_eq. exists e'. split; [done|congruence].
    - rewrite lookup_insert_ne by done. eauto. }
  split; try done.
  - intros id0 s0. rewrite Hs. intros (x & Hx0 & Hox)%Is. destruct (Hfwd _ _ Hx0) as (x' & ? & ?). exists x'. split; congruence.
  - intros s0 x' id0 (x & Hx0 & -> & _)%Hback ?. rewrite Hx. eauto.
  - intros s1 s2 x1 x2 id0 (y1 & Hy1 & -> & _)%Hback (y2 & Hy2 & -> & _)%Hback. eauto.
  - intros s0 x' (x & Hx0 & Hox & _ & [[_ ->]|(-> & -> & ->)])%Hback Hn; [eauto|]. congruence.
  - intros s0 x' id0 (x & Hx0 & -> & -> & _)%Hback. eauto.
  - intros s0 x' id0 (x & Hx0 & Hox & _ & [[Hne ->]|(-> & -> & ->)])%Hback Hox' Hrx.
    + destruct (Id _ _ _ Hx0 Hox' Hrx) as (l1 & l2 & Hl & Hpre & Heq). exists l1, (l2 ++ msgs).
      assert (id0 <> id) by (intros ->; apply Hne; eauto).
      assert (Hdo : data_of id0 (l2 ++ msgs) = data_of id0 l2).
      { unfold data_of. rewrite omap_app, concat_app. fold (data_of id0 msgs). by rewrite Hothers, app_nil_r. }
      rewrite Hv, Hl, Hs, Hbl, Hdo, app_assoc by done. auto.
    + assert (id0 = id) as -> by congruence.
      destruct (Id _ _ _ Hse Ho Hr) as (l1 & l2 & Hl & Hpre & Heq). exists l1, (l2 ++ msgs).
      assert (Hdo : data_of id (l2 ++ msgs) = data_of id l2 ++ data_of id msgs).
      { unfold data_of. by rewrite omap_app, concat_app. }
      rewrite Hv, Hl, Hs, Hdel, Hdo, <- (Heq Htab), <- !app_assoc. auto.
  - intros payload s0. rewrite Hc. intros (x & Hx0 & Hn)%Ic. destruct (Hfwd _ _ Hx0) as (x' & ? & ?).
    exists x'. split; congruence.
  - by rewrite Hc.
Qed.

(** ** Steps of the task *)

(** The queue of commands is as before, up to those already taken. *)
Lemma cmds_kept w w' :
  str_inv w -> ends_tame w w' -> w_cmds w' = w_cmds w ->
  (forall payload s, Cmd_OpenStream payload s ∈ w_cmds w -> forall e', w_ends w' !! s = Some e' ->
     exists e, w_ends w !! s = Some e /\ sm_opened e' = sm_opened e) ->
  (forall payload s, Cmd_OpenStream payload s ∈ w_cmds w' ->
     exists e, w_ends w' !! s = Some e /\ sm_opened e = None) /\ NoDup (open_tokens (w_cmds w')).
Proof.
  intros Hi Ht Hc Hsame. rewrite Hc. split; [|apply (si_cmd_nodup _ Hi)].
  intros payload s Hin. destruct (si_cmd _ Hi _ _ Hin) as (e & He & Ho).
  specialize (Ht s). rewrite He in Ht. inversion Ht as [? e' Hte|]; simplify_eq. exists e'. split; [done|].
  destruct (Hsame _ _ Hin e') as (e0 & He0 & ->); [done|]. congruence.
Qed.

(** An update of a stream of the table. *)
Lemma str_table w w' id s f :
  str_inv w -> streams w !! id = Some s -> (forall e, tame e (f e) /\ sm_opened (f e) = sm_opened e) ->
  w_ends w' = alter f s (w_ends w) -> streams w' = delete id (streams w) ->
  next w' = next w -> w_cmds w' = w_cmds w -> w_received w' = w_received w ->
  holds_nothing w -> holds_nothing w' -> mode_ok w' -> str_inv w'.
Proof.
  intros Hi Htab Hf He Hs Hx Hc Hv Hh Hh' Hm.
  assert (Ht : ends_tame w w').
  { transitivity (on_end w s f); [apply ends_tame_on_end; intros; apply Hf|]. by apply ends_tame_eq. }
  destruct (cmds_kept w w' Hi Ht Hc) as [Hcmd Hnd].
  { intros payload s0 _ e'. rewrite He. intros [(<- & e & He0 & ->)|[_ He0]]%lookup_alter_Some; [|eauto].
    exists e. split; [done|]. apply Hf. }
  apply (str_frame w); try done; [lia|]. right. split_and!; [by apply nothing_held|done|].
  rewrite Hs. intros id0 s0 [_ ?]%lookup_delete_Some. done.
Qed.

Lemma str_remove w id :
  str_inv w -> holds_nothing w -> mode w = M_Decode \/ mode w = M_Select -> str_inv (remove_stream w id).
Proof.
  intros Hi Hh Hm. unfold remove_stream. destruct (streams w !! id) as [s|] eqn:Hs; [|done].
  eapply (str_table w _ id s drop_sender); try done; [by split; [apply tame_drop_sender|]|].
  apply decode_holds_nothing. cbn. tauto.
Qed.

(** A stream's last item. *)
Lemma str_final w w' id s er :
  str_inv w -> mode w = M_Decode -> streams w !! id = Some s ->
  w_ends w' = w_ends w -> streams w' = delete id (streams w) -> next w' = next w ->
  w_cmds w' = w_cmds w -> w_received w' = w_received w -> mode w' = mode w ->
  str_inv (send_item w' s id (Err er) true).
Proof.
  intros Hi Hm Htab He Hs Hx Hc Hv Hm'. destruct (si_streams _ Hi _ _ Htab) as (e & Hse & Ho).
  destruct (decode_holds_nothing w) as [Hh _]; [auto|].
  assert (Hdrop : forall f, (forall e, tame e (f e) /\ sm_opened (f e) = sm_opened e) -> str_inv (on_end w' s f)).
  { intros f Hf. eapply (str_table w _ id s f); try done; cbn; [by rewrite He|..];
      try apply decode_holds_nothing; cbn; rewrite ?Hm'; auto. }
  unfold send_item. rewrite He, Hse. destruct (negb (sm_rx e)).
  { apply Hdrop. intros x. split; [apply tame_drop_sender|done]. }
  case_match.
  { apply Hdrop. intros x. split; [etransitivity; [apply tame_push_err|apply tame_drop_sender]|].
    unfold push_item. by case_match. }
  apply (str_frame w); cbn; rewrite ?Hc, ?Hx, ?Hv, ?He; try done.
  - by apply ends_tame_eq.
  - apply (si_cmd _ Hi).
  - apply (si_cmd_nodup _ Hi).
  - right. split_and!.
    + apply nothing_held; [done|]. intros s0. cbn. by case_match.
    + intros s0 id0 i final [= <- <- <- <-]. cbn. rewrite He. split; [eauto|eauto].
    + rewrite Hs. intros id0 s0 [_ ?]%lookup_delete_Some. done.
Qed.

Lemma str_dispatch w st accum msg :
  str_inv w -> mode w = M_Decode ->
  str_inv (dispatch_response (mkWorld (w_task (set_input w st accum)) (w_cmds w) (w_requests w) (w_ends w)
             (w_sent w) (w_received w ++ [msg])) msg).
Proof.
  intros Hi Hm. set (w1 := mkWorld _ _ _ _ _ _).
  destruct (decode_holds_nothing w) as [Hh _]; [auto|].
  destruct (decode_holds_nothing w1) as [Hh1 Hok1]; [auto|].
  assert (Hplain : (forall id p, msg = S_StreamData id p -> streams w !! id = None) -> str_inv w1).
  { intros Hno. by eapply (str_receive w w1 msg). }
  destruct msg as [d cn|id p|id m|b m|id p|id]; cbn [dispatch_response]; try by apply Hplain.
  - destruct (t_pending (w_task w1) !! id); [|by apply Hplain]. by eapply (str_receive w _ (S_Data id p)).
  - destruct (t_pending (w_task w1) !! id); [by eapply (str_receive w _ (S_Error id m))|].
    destruct (streams w1 !! id) as [s|] eqn:Hs; [|by apply Hplain].
    eapply (str_final w1); try done. by apply Hplain.
  - change (streams w1) with (streams w). destruct (streams w !! id) as [s|] eqn:Hs.
    2:{ apply Hplain. intros id0 p0 [= -> ->]. done. }
    destruct (si_streams _ Hi _ _ Hs) as (e & Hse & Ho).
    unfold send_item. change (w_ends w1) with (w_ends w). rewrite Hse.
    destruct (sm_rx e) eqn:Hr; cbn [negb].
    + assert (Hd : data_of id [S_StreamData id p] = p).
      { unfold data_of. cbn. rewrite Z.eqb_refl. cbn. apply app_nil_r. }
      assert (Hd' : forall id', id' <> id -> data_of id' [S_StreamData id p] = []).
      { intros id' Hne. unfold data_of. cbn. by rewrite (proj2 (Z.eqb_neq id id')) by congruence. }
      case_match.
      * eapply (str_point w _ s e (push_item (Ok p) e) id [S_StreamData id p]); try done;
          unfold push_item; rewrite ?Hr; try done.
        -- cbn. rewrite (alter_as_insert _ _ _ _ Hse). by rewrite Hr.
        -- rewrite Hd. change (mode (on_end w1 s _)) with (mode w). rewrite Hh, app_nil_r. unfold delivered. cbn.
           by rewrite queued_bytes_snoc, !app_assoc.
        -- apply decode_holds_nothing. auto.
      * eapply (str_point w _ s e e id [S_StreamData id p]); try done.
        -- cbn. by rewrite insert_id.
        -- rewrite Hd, Hh. cbn. by rewrite bool_decide_eq_true_2.
        -- intros s' Hne. rewrite Hh. cbn. by rewrite bool_decide_eq_false_2 by congruence.
        -- intros s0 id0 i final [= <- <- <- <-]. cbn. eauto.
    + eapply (str_receive (remove_stream w id) _ (S_StreamData id p)); [by apply str_remove; auto|..];
        unfold remove_stream; change (streams w1) with (streams w); rewrite Hs; try done.
      intros id0 p0 [= <- <-]. cbn. apply lookup_delete_eq.
  - apply str_remove; [by apply Hplain|done|auto].
Qed.

(** The task's wait for room ends. *)
Lemma str_unblock w s id i final e :
  str_inv w -> mode w = M_Blocked s id i final -> w_ends w !! s = Some e ->
  sm_rx e && negb (length (sm_queue e) <? STREAM_CAPACITY)%nat = false ->
  str_inv (send_item (set_mode w M_Decode) s id i final).
Proof.
  intros Hi Hm Hse Hroom. destruct (si_blocked _ Hi _ _ _ _ Hm) as [(e0 & He0 & Ho) Hfin].
  assert (e0 = e) as -> by congruence. unfold send_item. change (w_ends (set_mode w M_Decode)) with (w_ends w).
  rewrite Hse.
  assert (Hbl : forall s', blocked_bytes (mode w) s' = if bool_decide (s = s') then item_bytes i else []) by (by rewrite Hm).
  destruct (decode_holds_nothing (set_mode w M_Decode)) as [Hh Hok]; [auto|].
  assert (Hframe : holds_nothing w -> forall f, (forall e, tame e (f e) /\ sm_opened (f e) = sm_opened e) ->
    str_inv (on_end (set_mode w M_Decode) s f)).
  { intros Hhw f Hf. assert (Ht : ends_tame w (on_end (set_mode w M_Decode) s f)).
    { etransitivity; [|apply ends_tame_on_end; intros; apply Hf]. by apply ends_tame_eq. }
    destruct (cmds_kept w _ Hi Ht eq_refl) as [Hcmd Hnd].
    { intros payload s0 _ e'. cbn. intros [(<- & x & Hx0 & ->)|[_ Hx0]]%lookup_alter_Some; [|eauto].
      exists x. split; [done|]. apply Hf. }
    apply (str_frame w); try done. right. split_and!; [by apply nothing_held|done|done]. }
  destruct (sm_rx e) eqn:Hr; cbn [negb andb] in *.
  - apply negb_false_iff in Hroom. rewrite Hroom. destruct final.
    + destruct Hfin as [er ->]. apply Hframe; [intros s'; rewrite Hbl; by case_match|].
      intros x. split; [etransitivity; [apply tame_push_err|apply tame_drop_sender]|].
      unfold push_item. by case_match.
    + eapply (str_point w _ s e (push_item i e) id []); try done; unfold push_item; rewrite ?Hr; try done.
      * cbn. rewrite (alter_as_insert _ _ _ _ Hse). by rewrite Hr.
      * cbn. by rewrite app_nil_r.
      * rewrite Hbl, bool_decide_eq_true_2 by done. unfold delivered. cbn.
        by rewrite queued_bytes_snoc, !app_nil_r, !app_assoc.
      * intros s' Hne. by rewrite Hbl, bool_decide_eq_false_2 by congruence.
  - destruct final.
    + destruct Hfin as [er ->]. apply Hframe; [intros s'; rewrite Hbl; by case_match|].
      intros x. split; [apply tame_drop_sender|done].
    + (* the reader is gone: the bytes are dropped with the stream *)
      unfold remove_stream. change (streams (set_mode w M_Decode)) with (streams w). rewrite Hfin.
      set (w' := set_tables _ _ _).
      assert (Ht : ends_tame w w').
      { unfold w'. etransitivity; [|apply ends_tame_eq; reflexivity].
        etransitivity; [apply (ends_tame_eq w (set_mode w M_Decode)); done|].
        apply ends_tame_on_end, tame_drop_sender. }
      destruct (cmds_kept w w' Hi Ht eq_refl) as [Hcmd Hnd].
      { intros payload s0 _ e'. cbn. intros [(<- & x & Hx0 & ->)|[_ Hx0]]%lookup_alter_Some; eauto. }
      apply (str_frame w); try done. right. split_and!; [|done|].
      * intros s' e' He' Hr'. rewrite Hbl, bool_decide_eq_false_2; [done|]. intros <-.
        cbn in He'. rewrite (alter_as_insert _ _ _ _ Hse), lookup_insert_eq in He'.
        injection He' as <-. cbn in Hr'. congruence.
      * cbn. intros id0 s0 [_ ?]%lookup_delete_Some. done.
Qed.

(** Nothing of the streams changes. *)
Lemma str_same w w' :
  str_inv w -> w_ends w' = w_ends w -> streams w' = streams w -> mode w' = mode w ->
  next w <= next w' -> w_cmds w' = w_cmds w -> w_received w' = w_received w -> str_inv w'.
Proof.
  intros Hi He Hs Hm Hx Hc Hv. apply (str_frame w); try done; rewrite ?He, ?Hc; try apply Hi; auto.
  by apply ends_tame_eq.
Qed.

Lemma str_pop w c q :
  str_inv w -> w_cmds w = c :: q ->
  str_inv (set_cmds w q) /\
  forall payload s, c = Cmd_OpenStream payload s ->
    (s ∉ open_tokens q) /\ exists e, w_ends w !! s = Some e /\ sm_opened e = None.
Proof.
  intros Hi Hq. pose proof (si_cmd_nodup _ Hi) as Hnd. rewrite Hq in Hnd. split.
  - apply (str_frame w); try done; cbn.
    + by apply ends_tame_eq.
    + intros payload s Hin. apply (si_cmd _ Hi payload). rewrite Hq. by right.
    + unfold open_tokens in Hnd. cbn in Hnd. destruct (open_token c); [by apply NoDup_cons in Hnd as [_ ?]|done].
    + by left.
  - intros payload s ->. change (NoDup (s :: open_tokens q)) in Hnd. apply NoDup_cons in Hnd as [? _].
    split; [done|]. apply (si_cmd _ Hi payload). rewrite Hq. left.
Qed.

(** A stream gets its id. *)
Lemma str_open w w' s e :
  str_inv w -> mode w = M_Select -> w_ends w !! s = Some e -> sm_opened e = None ->
  (s ∉ open_tokens (w_cmds w)) ->
  w_ends w' = alter (answer_open (Ok (next w))) s (w_ends w) ->
  streams w' = <[next w := s]> (streams w) -> next w' = next w + 1 -> w_cmds w' = w_cmds w ->
  w_received w' = w_received w -> mode w' = mode w -> str_inv w'.
Proof.
  intros [Is Il Ij In Ii Id Ic Ind Ib] Hm Hse Hnone Hnin He Hs Hx Hc Hv Hmode.
  rewrite (alter_as_insert _ _ _ _ Hse) in He. set (e' := answer_open _ e) in He.
  assert (He' : sm_opened e' = Some (Ok (next w)) /\ delivered e' = [] /\ us_id (sm_object e') = next w).
  { unfold e', answer_open. rewrite Hnone. split_and!; try done. unfold delivered.
    cbn [sm_got sm_object sm_queue]. destruct (In _ _ Hse Hnone) as [-> ->]. done. }
  destruct He' as (Ho' & Hd' & Hid').
  assert (Hback : forall s0 x, w_ends w' !! s0 = Some x -> s0 = s /\ x = e' \/ s0 <> s /\ w_ends w !! s0 = Some x).
  { intros s0 x. rewrite He. intros [[<- <-]|[Hne Hx0]]%lookup_insert_Some; auto. }
  split.
  - intros id0 s0. rewrite Hs, He. intros [[<- <-]|[Hne Hl]]%lookup_insert_Some.
    + rewrite lookup_insert_eq. eauto.
    + destruct (Is _ _ Hl) as (x & Hx0 & Hox). rewrite lookup_insert_ne; [eauto|]. intros <-. congruence.
  - intros s0 x id0 [[-> ->]|[Hne Hx0]]%Hback Ho; rewrite Hx; [|pose proof (Il _ _ _ Hx0 Ho); lia].
    assert (id0 = next w) by congruence. lia.
  - intros s1 s2 x1 x2 id0 [[-> ->]|[Hn1 Hx1]]%Hback [[-> ->]|[Hn2 Hx2]]%Hback Ho1 Ho2; eauto.
    + pose proof (Il _ _ _ Hx2 Ho2). assert (id0 = next w) by congruence. lia.
    + pose proof (Il _ _ _ Hx1 Ho1). assert (id0 = next w) by congruence. lia.
  - intros s0 x [[-> ->]|[Hne Hx0]]%Hback Ho; [congruence|eauto].
  - intros s0 x id0 [[-> ->]|[Hne Hx0]]%Hback Ho; [congruence|eauto].
  - intros s0 x id0 [[-> ->]|[Hne Hx0]]%Hback Ho Hr.
    + exists (w_received w'), []. rewrite app_nil_r, Hd', Hmode, Hm. done.
    + destruct (Id _ _ _ Hx0 Ho Hr) as (l1 & l2 & Hl & Hpre & Heq). exists l1, l2.
      rewrite Hv, Hmode, Hs. split_and!; try done.
      pose proof (Il _ _ _ Hx0 Ho). rewrite lookup_insert_ne by lia. done.
  - intros payload s0. rewrite Hc, He. intros Hin. destruct (Ic _ _ Hin) as (x & Hx0 & Hox). exists x.
    rewrite lookup_insert_ne; [done|]. intros <-. apply Hnin, elem_of_open_tokens. eauto.
  - by rewrite Hc.
  - intros s0 id0 i final. rewrite Hmode, Hm. done.
Qed.

Lemma str_command w c q fate :
  str_inv w -> mode w = M_Select -> next w + 1 < 2 ^ 64 -> 1 <= next w -> w_cmds w = c :: q ->
  str_inv (handle_command (set_cmds w q) c fate).
Proof.
  intros Hi Hm Hx Hx1 Hq. destruct (str_pop _ _ _ Hi Hq) as [Hi0 Hopen].
  assert (Hadd : u64_add (next w) 1 = next w + 1) by (apply u64_add_small; lia).
  destruct c as [payload r|payload s|id payload|id half]; cbn [handle_command].
  - set (w0 := set_next (set_cmds w q) _).
    destruct (transmit_cases w0 (C_Data (next (set_cmds w q)) payload) fate)
      as [(w1 & w2 & -> & _ & Es & Er & Ec & Ev & Ee & Ep & Ex & Em & Est)
         |(e & w2 & -> & Es & Er & Ec & Ev & Ee & Ep & Ex & Em & Est)];
      apply (str_same (set_cmds w q)); cbn; rewrite ?Ee, ?Est, ?Em, ?Ec, ?Ev, ?Ex; cbn; try done; lia.
  - destruct (Hopen _ _ eq_refl) as (Hnin & e & Hse & Hnone).
    set (w0 := set_next (set_cmds w q) _).
    destruct (transmit_cases w0 (C_OpenStream (next (set_cmds w q)) payload) fate)
      as [(w1 & w2 & -> & _ & Es & Er & Ec & Ev & Ee & Ep & Ex & Em & Est)
         |(er & w2 & -> & Es & Er & Ec & Ev & Ee & Ep & Ex & Em & Est)].
    + apply (str_open (set_cmds w q) _ s e); cbn; rewrite ?Ee, ?Est, ?Em, ?Ec, ?Ev, ?Ex; cbn; done.
    + assert (Ht : ends_tame (set_cmds w q) (on_end w2 s (fun e' => drop_sender (answer_open (Err er) e')))).
      { etransitivity; [|apply ends_tame_on_end, tame_refused]. by apply ends_tame_eq. }
      apply (str_frame (set_cmds w q)); cbn; rewrite ?Ee, ?Est, ?Em, ?Ec, ?Ev, ?Ex; cbn; try done; try lia; try apply Hi0; auto.
      intros pl s0 Hin. destruct (si_cmd _ Hi0 _ _ Hin) as (x & Hx0 & Hox). exists x.
      rewrite lookup_alter_ne; [done|]. intros <-. apply Hnin, elem_of_open_tokens. eauto.
  - destruct (transmit_cases (set_cmds w q) (C_StreamData id payload) fate)
      as [(w1 & w2 & -> & _ & Es & Er & Ec & Ev & Ee & Ep & Ex & Em & Est)
         |(er & w2 & -> & Es & Er & Ec & Ev & Ee & Ep & Ex & Em & Est)].
    + apply (str_same (set_cmds w q)); try done. lia.
    + assert (Hi2 : str_inv w2) by (apply (str_same (set_cmds w q)); try done; lia).
      assert (Hm2 : mode w2 = M_Select) by (by rewrite Em).
      unfold fail_stream. destruct (streams w2 !! id) as [s|] eqn:Hs; [|done].
      destruct (decode_holds_nothing w2) as [Hh _]; [auto|].
      eapply (str_table w2 _ id s (try_push_last (Err er))); try done.
      * intros x. split; [apply tame_try_push_last|]. unfold try_push_last, push_item. by repeat case_match.
      * apply decode_holds_nothing. auto.
  - assert (Hsent : forall w1, w_ends w1 = w_ends w -> streams w1 = streams w -> mode w1 = mode w ->
      next w1 = next w -> w_cmds w1 = q -> w_received w1 = w_received w ->
      str_inv (match half with SdkBoth => remove_stream w1 id | SdkWrite => w1 end)).
    { intros w1 Ee Est Em Ex Ec Ev.
      assert (Hi1 : str_inv w1) by (apply (str_same (set_cmds w q)); try done; cbn; lia).
      destruct half; [done|]. apply str_remove; [done| |rewrite Em; auto].
      apply decode_holds_nothing. rewrite Em. auto. }
    destruct (transmit_cases (set_cmds w q) (C_StreamClose id half) fate)
      as [(w1 & w2 & -> & _ & Es & Er & Ec & Ev & Ee & Ep & Ex & Em & Est)
         |(er & w2 & -> & Es & Er & Ec & Ev & Ee & Ep & Ex & Em & Est)]; by apply Hsent.
Qed.

(** The end of the task. *)
Lemma str_finish w :
  str_inv w -> holds_nothing w -> str_inv (finish w).
Proof.
  intros Hi Hh. assert (Ht : ends_tame w (finish w)).
  { unfold finish. set (w1 := foldr drop_command w (w_cmds w)).
    set (w2 := foldr (fun r w => answer_request w r (Err ConnectionClosed)) w1 _).
    set (w3 := foldr (fun s w => on_end w s drop_sender) w2 _).
    transitivity w3; [|by apply ends_tame_eq]. transitivity w2.
    - transitivity w1; apply ends_tame_foldr.
      + intros [payload r|payload s| |] w0; cbn [drop_command]; try by apply ends_tame_eq.
        apply ends_tame_on_end, tame_refused.
      + intros r w0. by apply ends_tame_eq.
    - apply ends_tame_foldr. intros s w0. apply ends_tame_on_end, tame_drop_sender. }
  destruct (finish_closes w) as (_ & _ & Hv & Hx & Hc & _).
  apply (str_frame w); rewrite ?Hv, ?Hx, ?Hc; try done.
  - intros payload s Hin. by apply elem_of_nil in Hin.
  - apply NoDup_nil_2.
  - right. split_and!; [by apply nothing_held|done|done].
Qed.

Lemma str_notify w : str_inv w -> mode w = M_Select \/ mode w = M_Decode -> str_inv (notify_all_closed w).
Proof.
  intros Hi Hm. destruct (notify_closes w) as (_ & _ & Hv & Hx & Hc & _).
  unfold notify_all_closed in *. set (w1 := foldr (fun r w => answer_request w r (Err ConnectionClosed)) w _) in *.
  set (w2 := foldr _ w1 _) in *.
  assert (Hop : forall s, option_Forall2 (fun e e' => tame e e' /\ sm_opened e' = sm_opened e) (w_ends w !! s) (w_ends w2 !! s)).
  { assert (w_ends w1 = w_ends w) as <-.
    { unfold w1. generalize ((map_to_list (t_pending (w_task w))).*2). intros l.
      induction l as [|r l IH]; [done|]. exact IH. }
    unfold w2. generalize ((map_to_list (streams w)).*2). intros l s.
    induction l as [|s0 l IH]; cbn [foldr]; [by destruct (w_ends w1 !! s); constructor|].
    set (w3 := foldr _ w1 l) in *. cbn [on_end set_ends w_ends].
    destruct (decide (s0 = s)) as [->|Hne]; [|by rewrite lookup_alter_ne].
    rewrite lookup_alter_eq. destruct IH as [e e' [Ht Ho]|]; [|constructor]. constructor. split.
    - etransitivity; [exact Ht|]. apply tame_try_push_last.
    - rewrite <- Ho. unfold try_push_last, push_item. by repeat case_match. }
  assert (Ht : ends_tame w (set_tables w2 ∅ ∅)).
  { intros s. cbn. destruct (Hop s) as [e e' [? ?]|]; by constructor. }
  assert (Hmode : mode (set_tables w2 ∅ ∅) = mode w) by exact (notify_mode w).
  apply (str_frame w); rewrite ?Hv, ?Hx, ?Hc; try done.
  - intros payload s Hin. destruct (si_cmd _ Hi _ _ Hin) as (e & He & Ho). cbn.
    specialize (Hop s). rewrite He in Hop. inversion Hop as [? e' [_ Ho']|]; simplify_eq. exists e'. split; [done|congruence].
  - apply Hi.
  - right. split_and!; [apply nothing_held|..].
    + apply decode_holds_nothing. tauto.
    + apply decode_holds_nothing. rewrite Hmode. tauto.
    + apply decode_holds_nothing. rewrite Hmode. tauto.
    + cbn. done.
Qed.

Lemma str_task_step w e w' :
  str_inv w -> next w + 1 < 2 ^ 64 -> 1 <= next w -> task_step w e = Some w' -> str_inv w'.
Proof.
  intros Hi Hx Hx1 Hs. unfold task_step in Hs. destruct (mode w) as [| |s id i final|] eqn:Hm.
  - destruct (decode_holds_nothing w) as [Hh _]; [auto|].
    assert (Hend : str_inv (finish (notify_all_closed w))).
    { apply str_finish; [apply str_notify; auto|].
      apply decode_holds_nothing. rewrite notify_mode. auto. }
    destruct e; try done; try (injection Hs as <-; exact Hend).
    + destruct (w_cmds w) as [|c q] eqn:Hq; [done|]. injection Hs as <-. by apply str_command.
    + injection Hs as <-. apply (str_frame w); try done; try apply Hi.
      * by apply ends_tame_eq.
      * right. split_and!; [by apply nothing_held|done|done].
    + case_match; [|done]. injection Hs as <-. by apply str_finish.
  - destruct e; try done. injection Hs as <-. unfold decode_step.
    destruct (try_decrypt _ _) as [[[[msg consumed] st]|]|].
    + by apply (str_dispatch w).
    + destruct (decode_holds_nothing w) as [Hh _]; [auto|]. apply (str_frame w); try done; try apply Hi.
      * by apply ends_tame_eq.
      * right. split_and!; [by apply nothing_held|done|done].
    + apply str_finish; [apply str_notify; auto|].
      apply decode_holds_nothing. rewrite notify_mode. auto.
  - destruct e; try done. destruct (w_ends w !! s) as [x|] eqn:He; [|done]. case_match eqn:Hc; [done|].
    injection Hs as <-. by eapply str_unblock.
  - by destruct e.
Qed.

(** ** Steps of the callers *)

Lemma open_end_Some w s e :
  open_end w s = Some e -> w_ends w !! s = Some e /\ sm_rx e = true /\ exists id, sm_opened e = Some (Ok id).
Proof.
  unfold open_end. intros Ho. destruct (w_ends w !! s) as [x|]; [|done].
  destruct (sm_rx x) eqn:Hr; [|done]. destruct (sm_opened x) as [[id|]|] eqn:Hx; try done.
  injection Ho as ->. eauto.
Qed.

(** A caller changes its end tamely and may issue a command that opens nothing. *)
Lemma str_caller w w' s e e' l :
  str_inv w -> w_ends w !! s = Some e -> tame e e' -> sm_opened e' = sm_opened e ->
  w_ends w' = <[s := e']> (w_ends w) -> w_task w' = w_task w -> w_received w' = w_received w ->
  w_cmds w' = w_cmds w ++ l -> Forall (fun c => open_token c = None) l -> str_inv w'.
Proof.
  intros Hi Hse Hte Ho He Ht Hv Hc Hl. apply (str_frame w); rewrite ?Ht; try done.
  - intros s0. rewrite He. destruct (decide (s0 = s)) as [->|].
    + rewrite lookup_insert_eq, Hse. by constructor.
    + rewrite lookup_insert_ne by done. by destruct (w_ends w !! s0); constructor.
  - intros payload s0. rewrite Hc. intros [Hin|Hin]%elem_of_app.
    + destruct (si_cmd _ Hi _ _ Hin) as (x & Hx & Hox). rewrite He.
      destruct (decide (s0 = s)) as [->|]; [rewrite lookup_insert_eq; exists e'; split; congruence|].
      rewrite lookup_insert_ne by done. eauto.
    + rewrite Forall_forall in Hl. by apply Hl in Hin.
  - rewrite Hc. unfold open_tokens. rewrite omap_app.
    assert (omap open_token l = []) as ->; [|rewrite app_nil_r; apply Hi].
    clear -Hl. induction Hl as [|c l Hc _ IH]; [done|]. cbn. by rewrite Hc.
  - by left.
Qed.

Lemma str_fresh w w' s e' l :
  str_inv w -> w_ends w !! s = None -> sm_got e' = [] -> sm_queue e' = [] ->
  (forall id, sm_opened e' <> Some (Ok id)) ->
  w_ends w' = <[s := e']> (w_ends w) -> w_task w' = w_task w -> w_received w' = w_received w ->
  w_cmds w' = w_cmds w ++ l ->
  (l = [] \/ sm_opened e' = None /\ exists payload, l = [Cmd_OpenStream payload s]) -> str_inv w'.
Proof.
  intros [Is Il Ij In Ii Id Ic Ind Ib] Hse Hg Hq Hno He Ht Hv Hc Hl.
  assert (Hnin : s ∉ open_tokens (w_cmds w)).
  { intros [pl Hin]%elem_of_open_tokens. destruct (Ic _ _ Hin) as (x & Hx & _). congruence. }
  assert (Hback : forall s0 x, w_ends w' !! s0 = Some x -> s0 = s /\ x = e' \/ s0 <> s /\ w_ends w !! s0 = Some x).
  { intros s0 x. rewrite He. intros [[<- <-]|[Hne Hx0]]%lookup_insert_Some; auto. }
  assert (Hfwd : forall s0 x, w_ends w !! s0 = Some x -> w_ends w' !! s0 = Some x).
  { intros s0 x Hx. rewrite He, lookup_insert_ne; [done|]. congruence. }
  split; rewrite ?Ht.
  - intros id0 s0 (x & Hx & Hox)%Is. eauto.
  - intros s0 x id0 [[-> ->]|[Hne Hx0]]%Hback Ho; [by apply Hno in Ho|eauto].
  - intros s1 s2 x1 x2 id0 [[-> ->]|[Hn1 Hx1]]%Hback [[-> ->]|[Hn2 Hx2]]%Hback Ho1 Ho2; eauto;
      by apply Hno in Ho1 || apply Hno in Ho2.
  - intros s0 x [[-> ->]|[Hne Hx0]]%Hback Ho; [by rewrite Hg, Hq|eauto].
  - intros s0 x id0 [[-> ->]|[Hne Hx0]]%Hback Ho; [by apply Hno in Ho|eauto].
  - intros s0 x id0 [[-> ->]|[Hne Hx0]]%Hback Ho Hr; [by apply Hno in Ho|].
    destruct (Id _ _ _ Hx0 Ho Hr) as (l1 & l2 & Hl' & Hpre & Heq). exists l1, l2. rewrite Hv, Ht. done.
  - intros payload s0. rewrite Hc. intros [Hin|Hin]%elem_of_app.
    + destruct (Ic _ _ Hin) as (x & Hx & Hox). eauto.
    + destruct Hl as [->|[Ho [pl ->]]]; [by apply elem_of_nil in Hin|].
      apply list_elem_of_singleton in Hin as [= -> ->]. exists e'. rewrite He, lookup_insert_eq. done.
  - rewrite Hc. unfold open_tokens. rewrite omap_app. fold (open_tokens (w_cmds w)).
    destruct Hl as [->|[Ho [pl ->]]]; [by rewrite app_nil_r|]. cbn.
    apply NoDup_app. split; [done|]. split; [|apply NoDup_singleton].
    intros s0 Hin ->%list_elem_of_singleton. done.
  - intros s0 id0 i final Hm. destruct (Ib _ _ _ _ Hm) as [(x & Hx & Hox) Hf]. eauto.
Qed.

Lemma tame_object e u : unread u = unread (sm_object e) -> us_id u = us_id (sm_object e) -> tame e (set_object e u).
Proof.
  intros Hu Hid. repeat split; cbn; auto. unfold delivered. cbn [set_object sm_got sm_object sm_queue]. by rewrite Hu.
Qed.

Lemma tame_accept e bs :
  tame e (mkStream (sm_payload e) (sm_opened e) (sm_queue e) (sm_tx e) (sm_rx e) (sm_object e)
            (sm_got e) (sm_failed e) (sm_accepted e ++ [bs])).
Proof. repeat split; cbn; auto. Qed.

Lemma tame_read e room id : sm_opened e = Some (Ok id) -> tame e (read_end e room).
Proof.
  intros Ho. destruct (read_end_spec e room) as (Hd & Hop & Hr & _ & Hid & _).
  split; [by left|]. split; [by rewrite Hr|]. split; [intros Hn; congruence|done].
Qed.

Lemma tame_gone e q : sm_opened e <> None ->
  tame e (mkStream (sm_payload e) (sm_opened e) q (sm_tx e) false (sm_object e) (sm_got e) (sm_failed e) (sm_accepted e)).
Proof. intros Ho. repeat split; cbn; auto; done. Qed.

Lemma tame_abandoned e :
  sm_opened e = None ->
  tame e (mkStream (sm_payload e) None (sm_queue e) (sm_tx e) false (sm_object e) (sm_got e) (sm_failed e) (sm_accepted e)).
Proof. intros Ho. repeat split; cbn; auto; done. Qed.

Lemma str_store w s e e' :
  str_inv w -> w_ends w !! s = Some e -> tame e e' -> sm_opened e' = sm_opened e ->
  str_inv (set_cmds (store_end w s e') (w_cmds w)).
Proof. intros. eapply (str_caller w _ s e e' []); try done. by rewrite app_nil_r. Qed.

Lemma str_store_cmd w s e e' c :
  str_inv w -> w_ends w !! s = Some e -> tame e e' -> sm_opened e' = sm_opened e -> open_token c = None ->
  str_inv (set_cmds (store_end w s e') (w_cmds w ++ [c])).
Proof. intros. eapply (str_caller w _ s e e' [c]); try done. by constructor. Qed.

Lemma str_user_step w e w' : str_inv w -> user_step w e = Some w' -> str_inv w'.
Proof.
  intros Hi Hs.
  destruct e as [r payload|r|s payload|s|s bs|s|s|s room| | | | | | |]; cbn [user_step] in Hs; try done.
  - case_bool_decide; [done|]. destruct (negb (alive w)).
    + injection Hs as <-. by apply (str_same w).
    + case_match; [|done]. injection Hs as <-.
      apply (str_frame w); try done; cbn.
      * by apply ends_tame_eq.
      * intros pl s0 [Hin|Hin]%elem_of_app; [by apply (si_cmd _ Hi pl)|]. by apply list_elem_of_singleton in Hin.
      * unfold open_tokens. rewrite omap_app. cbn. rewrite app_nil_r. apply Hi.
      * by left.
  - injection Hs as <-. by apply (str_same w).
  - case_bool_decide as Hn; [done|]. apply eq_None_not_Some in Hn. destruct (negb (alive w)).
    + injection Hs as <-. eapply (str_fresh w _ s _ []); try done; cbn; rewrite ?app_nil_r; auto.
    + case_match; [|done]. injection Hs as <-. eapply (str_fresh w _ s _ [_]); try done; eauto 10.
  - destruct (w_ends w !! s) as [x|] eqn:Hx; [|done]. destruct (sm_opened x) eqn:Ho; [done|].
    injection Hs as <-. apply (str_store w s x); [done..|by apply tame_abandoned|done].
  - destruct (open_end w s) as [x|] eqn:Hx; [|done]. apply open_end_Some in Hx as (Hse & Hr & id & Ho).
    unfold poll_write in Hs. destruct (us_write_closed _); [injection Hs as <-; by apply (str_same w)|].
    destruct (try_send _ _ _) as [q'| |] eqn:Ht; injection Hs as <-; [|by apply (str_same w)..].
    apply try_send_queue in Ht as [-> Hd]. apply (str_store_cmd w s x); [done..|apply tame_accept|done|done].
  - destruct (open_end w s) as [x|] eqn:Hx; [|done]. apply open_end_Some in Hx as (Hse & Hr & id & Ho).
    unfold poll_shutdown in Hs.
    destruct (us_write_closed _); [injection Hs as <-; by apply (str_store w s x); [..|apply tame_object|]|].
    destruct (try_send _ _ _) as [q'| |] eqn:Ht; injection Hs as <-;
      [|by apply (str_store w s x); [..|apply tame_object|]..].
    apply try_send_queue in Ht as [-> Hd]. by apply (str_store_cmd w s x); [..|apply tame_object| |].
  - destruct (open_end w s) as [x|] eqn:Hx; [|done]. apply open_end_Some in Hx as (Hse & Hr & id & Ho).
    assert (sm_opened x <> None) by congruence.
    unfold drop_stream in Hs. destruct (try_send _ _ _) as [q'| |] eqn:Ht; injection Hs as <-;
      [|by apply (str_store w s x); [..|apply tame_gone|]..].
    apply try_send_queue in Ht as [-> Hd]. by apply (str_store_cmd w s x); [..|apply tame_gone| |].
  - destruct (open_end w s) as [x|] eqn:Hx; [|done]. apply open_end_Some in Hx as (Hse & Hr & id & Ho).
    injection Hs as <-. apply (str_store w s x); [done..|by eapply tame_read|apply read_end_spec].
Qed.

Lemma str_run n w es w' :
  str_inv w -> req_inv (Z.of_nat (length es) + n) w -> 0 <= n -> run w es = Some w' -> str_inv w'.
Proof.
  revert w. induction es as [|e es IH]; intros w Hi Hq Hn Hr; [by injection Hr as <-|].
  cbn [run] in Hr. destruct (step w e) as [w1|] eqn:Hs; [|done].
  assert (Hq' : req_inv ((Z.of_nat (length es) + n) + 1) w)
    by (replace (Z.of_nat (length es) + n + 1) with (Z.of_nat (length (e :: es)) + n) by (simpl length; lia); done).
  assert (Hl : 0 <= Z.of_nat (length es) + n) by lia.
  pose proof (ri_next _ _ Hq') as Hx.
  apply (IH w1); [| |done|done].
  - assert (task_step w e = Some w1 \/ user_step w e = Some w1) as [Ht|Hu] by (destruct e; auto).
    + eapply str_task_step; eauto; lia.
    + by eapply str_user_step.
  - apply (req_run (Z.of_nat (length es) + n) w [e]); [|done|cbn [run]; by rewrite Hs].
    by rewrite Z.add_comm.
Qed.

Lemma str_start tx rx : str_inv (start tx rx).
Proof.
  split; cbn; try done.
  - intros payload s Hin. by apply elem_of_nil in Hin.
  - apply NoDup_nil_2.
Qed.

(** A stream's reader sees the workload's bytes, in order and once.  In
    every schedule, what the reader of an open stream has got is a prefix of
    the bytes the enclave sent for the stream's id since it was opened; and as
    long as the stream is in the task's table, nothing is lost: what was read,
    what is buffered, what is queued and what the task holds while it waits for
    room is all of them. *)
Theorem stream_reads_are_in_order tx rx es w s e id :
  Z.of_nat (length es) < 2 ^ 64 - 1 -> run (start tx rx) es = Some w ->
  w_ends w !! s = Some e -> sm_opened e = Some (Ok id) -> sm_rx e = true ->
  exists before since, w_received w = before ++ since /\
    sm_got e `prefix_of` data_of id since /\
    (streams w !! id = Some s ->
     sm_got e ++ unread (sm_object e) ++ queued_bytes (sm_queue e) ++ blocked_bytes (mode w) s
       = data_of id since).
Proof.
  intros Hn Hr He Ho Hrx.
  assert (Hi : str_inv w).
  { apply (str_run 0 (start tx rx) es); [apply str_start|rewrite Z.add_0_r; apply req_start; lia|done|done]. }
  destruct (si_data _ Hi _ _ _ He Ho Hrx) as (l1 & l2 & Hl & Hpre & Heq). exists l1, l2. split_and!; [done| |].
  - etransitivity; [|exact Hpre]. unfold delivered. rewrite <- !app_assoc. by apply prefix_app_r.
  - intros Htab. rewrite <- (Heq Htab). unfold delivered. by rewrite <- !app_assoc.
Qed.
End Streams.

#[local] Existing Instances NoiseDemo.toy_noise TransportDemo.toy_client_cbor TransportDemo.toy_server_cbor.

Lemma stream_reads_are_in_order_witness :
  let es := TransportDemo.schedule in
  run TransportDemo.fresh es = Some (TransportDemo.after es) /\ sm_got (TransportDemo.end0 es) = [7; 8] /\
  exists before since, w_received (TransportDemo.after es) = before ++ since /\
    sm_got (TransportDemo.end0 es) `prefix_of` data_of 2 since.
Proof.
  intros es.
  assert (Hr : run TransportDemo.fresh es = Some (TransportDemo.after es)) by (vm_compute; reflexivity).
  split; [exact Hr|]. split; [vm_compute; reflexivity|].
  destruct (stream_reads_are_in_order TransportDemo.zero TransportDemo.zero es _ 0%nat (TransportDemo.end0 es) 2
    ltac:(reflexivity) Hr) as (before & since & Hv & Hp & _); [vm_compute; reflexivity..|].
  exact (ex_intro _ before (ex_intro _ since (conj Hv Hp))).
Defined.
