(* ===== verification/SdkLosses.v ===== *)
(** Where the SDK's streams lose something.

    A stream's queue and the command queue are bounded, and three places do not
    wait for room: the error that a lost connection leaves for a reader, the
    close frame of a dropped stream, and a write that is larger than a Noise
    message.  Each theorem here says what a caller then sees. *)
From stdpp Require Import base gmap list strings.
From S2P Require Import Prelude Signing Text Transport Sdk SdkTransport SdkTransportProofs SdkStreams.
#[local] Open Scope Z_scope.

Create HintDb gone.

Definition is_chunk (i : item) : Prop := exists b, i = Ok b.

(** ** Reading a stream that ended *)

(** The sender is gone, and it left no error. *)
Record ended_cleanly (e : Stream) : Prop := {
  ec_tx : sm_tx e = false;
  ec_failed : sm_failed e = false;
  ec_queue : Forall is_chunk (sm_queue e);
}.

Lemma poll_queue_clean u q tx room :
  Forall is_chunk q ->
  let '(r, _, q') := poll_queue u q tx room in
  Forall is_chunk q' /\ forall er, r <> Read_Error er.
Proof.
  induction 1 as [|i q [b ->] Hq IH]; cbn [poll_queue]; [by destruct tx|].
  destruct b; [exact IH|]. by destruct (take_buffered _ room).
Qed.

Lemma read_end_clean e room : ended_cleanly e -> ended_cleanly (read_end e room).
Proof.
  intros [Ht Hf Hq]. unfold read_end, poll_read. destruct (0 <? _)%nat.
  { destruct (take_buffered _ _). by split. }
  destruct (us_eof _); [by split|].
  pose proof (poll_queue_clean (sm_object e) _ (sm_tx e) room Hq) as Hp.
  destruct (poll_queue _ _ _ _) as [[r u] q]. destruct Hp as [Hq' Hr].
  destruct r as [bs|er|]; [by split|by destruct (Hr er)|by split].
Qed.

Lemma reads_clean rooms e : ended_cleanly e -> ended_cleanly (foldl read_end e rooms).
Proof. revert e. induction rooms as [|n rooms IH]; intros e He; [done|]. by apply IH, read_end_clean. Qed.

(** A reader that keeps reading gets everything that was queued, then the end. *)
Definition reads_all (e : Stream) : Prop :=
  exists rooms, sm_got (foldl read_end e rooms) = delivered e /\ us_eof (sm_object (foldl read_end e rooms)) = true.

Lemma reads_all_step e room : reads_all (read_end e room) -> reads_all e.
Proof.
  intros (rooms & Hg & He). exists (room :: rooms). cbn [foldl].
  destruct (read_end_spec e room) as (Hd & _). by rewrite Hg, He.
Qed.

Lemma unread_empty u : (0 <? length (us_read_buf u) - us_read_pos u)%nat = false <-> unread u = [].
Proof.
  unfold unread. rewrite Nat.ltb_ge. split.
  - intros. apply drop_ge. lia.
  - intros Hd. pose proof (length_drop (us_read_buf u) (us_read_pos u)) as Hl. rewrite Hd in Hl. cbn in Hl. lia.
Qed.

Lemma reads_all_eof e :
  us_eof (sm_object e) = true -> unread (sm_object e) = [] -> sm_queue e = [] -> reads_all e.
Proof. intros He Hu Hq. exists []. cbn [foldl]. unfold delivered. rewrite Hu, Hq. cbn. by rewrite app_nil_r. Qed.

Lemma reads_all_queue q : forall e,
  sm_queue e = q -> ended_cleanly e -> us_eof (sm_object e) = false -> unread (sm_object e) = [] -> reads_all e.
Proof.
  induction q as [|i q IH]; intros e Hq He Heof Hu.
  - apply (reads_all_step _ 0). destruct He as [Ht Hf _].
    unfold read_end, poll_read. rewrite (proj2 (unread_empty _) Hu), Heof, Hq. cbn [poll_queue]. rewrite Ht.
    apply reads_all_eof; done.
  - assert (is_chunk i) as [b ->].
    { pose proof (ec_queue _ He) as Hall. rewrite Hq in Hall. by inversion Hall. }
    destruct b as [|x b].
    + (* an empty chunk is skipped: the same reads serve the stream without it *)
      set (e0 := mkStream (sm_payload e) (sm_opened e) q (sm_tx e) (sm_rx e) (sm_object e) (sm_got e)
                   (sm_failed e) (sm_accepted e)).
      assert (Hsame : forall room, read_end e room = read_end e0 room).
      { intros room. unfold read_end, poll_read. rewrite (proj2 (unread_empty _) Hu), Heof, Hq. cbn [e0 sm_object sm_queue sm_tx poll_queue].
        by rewrite (proj2 (unread_empty _) Hu), Heof. }
      destruct He as [Ht Hf Hall]. rewrite Hq in Hall. inversion Hall; subst.
      destruct (IH e0) as (rooms & Hg & Hend); [done|by split|done|done|].
      assert (Hd : delivered e0 = delivered e).
      { unfold delivered, e0. cbn [sm_got sm_object sm_queue]. by rewrite Hq. }
      destruct rooms as [|room rooms]; [cbn [foldl e0 sm_object] in Hend; congruence|].
      exists (room :: rooms). cbn [foldl] in *. by rewrite Hsame, Hg, Hend.
    + set (room := length (x :: b)). apply (reads_all_step _ room).
      pose proof (take_buffered_spec (mkUpgraded (us_id (sm_object e)) (x :: b) 0 (us_eof (sm_object e))
        (us_write_closed (sm_object e))) room) as Hs.
      pose proof (read_end_clean e room He) as Hc. unfold read_end, poll_read in *.
      rewrite (proj2 (unread_empty _) Hu), Heof, Hq in *. cbn [poll_queue] in *. rewrite Heof in *.
      destruct (take_buffered _ room) as [out u']. destruct Hs as (_ & _ & Hs & _ & Hs').
      apply IH; [done|done|done|by apply Hs'].
Qed.

Lemma reads_all_ended e : ended_cleanly e -> us_eof (sm_object e) = false -> reads_all e.
Proof.
  intros He Heof. destruct (0 <? length (us_read_buf (sm_object e)) - us_read_pos (sm_object e))%nat eqn:E.
  - set (room := length (unread (sm_object e))). apply (reads_all_step _ room).
    pose proof (read_end_clean e room He) as Hc. unfold read_end, poll_read in *. rewrite E in *.
    pose proof (take_buffered_spec (sm_object e) room) as Hs.
    destruct (take_buffered _ room) as [out u']. destruct Hs as (_ & _ & Hs & _ & Hs').
    eapply reads_all_queue; [done|done|cbn [sm_object]; congruence|by apply Hs'].
  - by eapply reads_all_queue; [..|apply unread_empty].
Qed.

Section Losses.
Context `{Noise} `{Cbor SdkClientMessage} `{Cbor SdkServerMessage}.

Abbreviation streams w := (t_streams (w_task w)).
Abbreviation mode w := (t_mode (w_task w)).

Lemma run_reads rooms w s e id :
  w_ends w !! s = Some e -> sm_rx e = true -> sm_opened e = Some (Ok id) ->
  exists w', run w (U_Read s <$> rooms) = Some w' /\ w_ends w' !! s = Some (foldl read_end e rooms).
Proof.
  revert w e. induction rooms as [|n rooms IH]; intros w e He Hr Ho; [by exists w|].
  cbn [fmap list_fmap run step user_step foldl]. unfold open_end. rewrite He, Hr, Ho.
  destruct (read_end_spec e n) as (_ & Ho' & Hr' & _).
  apply IH; [by apply lookup_insert_eq|congruence|congruence].
Qed.

(** ** A lost connection *)

(** The queue is full: the error is not put into it. *)
Lemma try_push_last_full er e :
  (STREAM_CAPACITY <= length (sm_queue e))%nat -> try_push_last (Err er) e = drop_sender e.
Proof. intros Hl. unfold try_push_last. by rewrite (proj2 (Nat.ltb_ge _ _) Hl). Qed.

(** The end of stream [s] is [e], or [e] without its sender. *)
Definition end_is (s : nat) (e : Stream) (w : World) : Prop :=
  exists x, w_ends w !! s = Some x /\ (x = e \/ x = drop_sender e).

Lemma end_is_on_end s e w s' f :
  end_is s e w -> (forall x, x = e \/ x = drop_sender e -> f x = e \/ f x = drop_sender e) -> end_is s e (on_end w s' f).
Proof.
  intros (x & Hx & He) Hf. unfold end_is, on_end. cbn [set_ends w_ends].
  destruct (decide (s = s')) as [<-|]; [|rewrite lookup_alter_ne by done; eauto].
  rewrite lookup_alter_eq, Hx. eexists. split; [done|]. by apply Hf.
Qed.

Lemma end_is_foldr {A} s e (f : A -> World -> World) w l :
  end_is s e w -> (forall a w, end_is s e w -> end_is s e (f a w)) -> end_is s e (foldr f w l).
Proof. intros Hw Hf. induction l as [|a l IH]; [done|]. cbn [foldr]. auto. Qed.

Lemma end_is_drop_command s e id c w :
  sm_opened e = Some (Ok id) -> end_is s e w -> end_is s e (drop_command c w).
Proof.
  intros Ho He. destruct c; try done. apply end_is_on_end; [done|].
  intros x Hx. unfold answer_open. assert (sm_opened x = Some (Ok id)) as -> by (destruct Hx as [-> | ->]; done).
  destruct Hx as [-> | ->]; auto.
Qed.

Lemma dropped_foldr s (f : Stream -> Stream) w ss e :
  s ∈ ss -> end_is s e w -> (f e = drop_sender e) -> (f (drop_sender e) = drop_sender e) ->
  w_ends (foldr (fun s w => on_end w s f) w ss) !! s = Some (drop_sender e).
Proof.
  intros Hs Hw Hf Hf'. induction ss as [|s' ss IH]; [by apply elem_of_nil in Hs|]. cbn [foldr].
  assert (He : end_is s e (foldr (fun s w => on_end w s f) w ss)).
  { apply end_is_foldr; [done|]. intros s0 w0 Hw0. apply end_is_on_end; [done|].
    intros x [-> | ->]; auto. }
  unfold on_end at 1. cbn [set_ends w_ends]. destruct (decide (s = s')) as [<-|Hne].
  - rewrite lookup_alter_eq. destruct He as (x & -> & Hx). cbn. f_equal. destruct Hx as [-> | ->]; done.
  - rewrite lookup_alter_ne by done. apply IH. apply elem_of_cons in Hs as [?|?]; done.
Qed.

Lemma end_is_finish s e id w :
  sm_opened e = Some (Ok id) -> w_ends w !! s = Some (drop_sender e) ->
  w_ends (finish w) !! s = Some (drop_sender e).
Proof.
  intros Ho Hw.
  assert (He : end_is s (drop_sender e) (finish w)).
  { unfold finish. set (w1 := foldr drop_command w _).
    assert (Hw1 : end_is s (drop_sender e) w1).
    { apply end_is_foldr; [exists (drop_sender e); auto|]. intros. by eapply end_is_drop_command. }
    set (w2 := foldr (fun r w => answer_request w r (Err ConnectionClosed)) w1 _).
    assert (Hw2 : end_is s (drop_sender e) w2) by by apply end_is_foldr.
    assert (Hw3 : end_is s (drop_sender e) (foldr (fun s w => on_end w s drop_sender) w2
      (map_to_list (t_streams (w_task w))).*2)).
    { apply end_is_foldr; [done|]. intros s0 w0 Hw0. apply end_is_on_end; [done|]. intros x [-> | ->]; auto. }
    exact Hw3. }
  destruct He as (x & -> & [-> | ->]); done.
Qed.

Lemma lost_connection_drops w s e id :
  streams w !! id = Some s -> w_ends w !! s = Some e -> sm_opened e = Some (Ok id) ->
  (STREAM_CAPACITY <= length (sm_queue e))%nat ->
  w_ends (finish (notify_all_closed w)) !! s = Some (drop_sender e).
Proof.
  intros Hs He Ho Hfull. eapply end_is_finish; [done|]. unfold notify_all_closed.
  set (w1 := foldr (fun r w => answer_request w r (Err ConnectionClosed)) w _).
  assert (Hw1 : end_is s e w1) by (apply end_is_foldr; [exists e; auto|done]).
  apply (dropped_foldr s (try_push_last (Err ConnectionClosed)) w1 _ e); [|done|by apply try_push_last_full|exact (try_push_last_full _ (drop_sender e) Hfull)].
  rewrite elem_of_range. eauto.
Qed.

(** A lost connection can read as the end of the stream.  When the
    WebSocket closes while a stream's queue is full, the error meant for its
    reader is dropped: no sequence of reads ever fails, and a reader that keeps
    reading gets what was queued and then a clean end of file, although the
    workload had not closed the stream. *)
Theorem lost_connection_reads_as_end w s e id :
  mode w = M_Select -> streams w !! id = Some s -> w_ends w !! s = Some e ->
  sm_opened e = Some (Ok id) -> sm_rx e = true -> sm_failed e = false ->
  us_eof (sm_object e) = false -> Forall is_chunk (sm_queue e) ->
  (STREAM_CAPACITY <= length (sm_queue e))%nat ->
  exists w', step w T_WsClosed = Some w' /\
    (forall rooms, exists w2 e2, run w' (U_Read s <$> rooms) = Some w2 /\
       w_ends w2 !! s = Some e2 /\ sm_failed e2 = false) /\
    (exists rooms w2 e2, run w' (U_Read s <$> rooms) = Some w2 /\ w_ends w2 !! s = Some e2 /\
       sm_got e2 = delivered e /\ us_eof (sm_object e2) = true).
Proof.
  intros Hm Hs He Ho Hr Hf Heof Hq Hfull.
  eexists. split; [unfold step, task_step; rewrite Hm; reflexivity|].
  pose proof (lost_connection_drops w s e id Hs He Ho Hfull) as Hend.
  assert (Hc : ended_cleanly (drop_sender e)) by by split.
  split.
  - intros rooms. destruct (run_reads rooms _ s _ id Hend Hr Ho) as (w2 & Hw2 & He2).
    eexists _, _. split_and!; [done|done|]. apply (reads_clean rooms _ Hc).
  - destruct (reads_all_ended _ Hc Heof) as (rooms & Hg & Hend').
    destruct (run_reads rooms _ s _ id Hend Hr Ho) as (w2 & Hw2 & He2). by eexists rooms, w2, _.
Qed.

(** ** A write that is too large *)

(** A write larger than a Noise message is reported as done and then kills
    the stream.  The write is accepted in full; the task cannot encrypt it, puts
    nothing on the WebSocket, takes the stream out of its table and leaves an
    encryption error for the reader; and the enclave is sent no close frame. *)
Theorem oversized_write_is_lost w s e id bs fate :
  (forall st p, 65519 < Z.of_nat (length p) -> write_message st p = None) ->
  (Z.of_nat (length bs) <= Z.of_nat (length (encode (C_StreamData id bs)))) ->
  65519 < Z.of_nat (length bs) ->
  mode w = M_Select -> w_cmds w = [] -> streams w !! id = Some s -> w_ends w !! s = Some e ->
  sm_opened e = Some (Ok id) -> sm_rx e = true -> us_id (sm_object e) = id ->
  us_write_closed (sm_object e) = false -> (length (sm_queue e) < STREAM_CAPACITY)%nat ->
  (poll_write (sm_object e) (alive w) (w_cmds w) bs).1 = Write_Ready (length bs) /\
  exists w' e', run w [U_Write s bs; T_Command fate] = Some w' /\ w_ends w' !! s = Some e' /\
    sm_accepted e' = sm_accepted e ++ [bs] /\ w_sent w' = w_sent w /\ w_cmds w' = [] /\
    streams w' !! id = None /\ sm_queue e' = sm_queue e ++ [Err NoiseError] /\ sm_tx e' = false.
Proof.
  intros Hbig Henc Hbs Hm Hc Hs He Ho Hr Hid Hwc Hroom.
  assert (Ha : alive w = true) by (unfold alive; by rewrite Hm).
  assert (Hp : poll_write (sm_object e) (alive w) (w_cmds w) bs =
               (Write_Ready (length bs), [Cmd_StreamData id bs])).
  { unfold poll_write, try_send. by rewrite Hwc, Ha, Hc, Hid. }
  split; [by rewrite Hp|].
  set (e1 := mkStream (sm_payload e) (sm_opened e) (sm_queue e) (sm_tx e) (sm_rx e) (sm_object e)
               (sm_got e) (sm_failed e) (sm_accepted e ++ [bs])).
  assert (Ht : forall w0 : World, transmit w0 (C_StreamData id bs) fate = (Err NoiseError, w0)).
  { intros w0. unfold transmit, encrypt_cbor. rewrite Hbig by lia. done. }
  set (w1 := set_cmds (store_end w s e1) [Cmd_StreamData id bs]).
  assert (Hw1 : step w (U_Write s bs) = Some w1).
  { cbn [step user_step]. unfold open_end. by rewrite He, Hr, Ho, Hp. }
  assert (Hw2 : step w1 (T_Command fate) = Some (fail_stream (set_cmds w1 []) id NoiseError)).
  { unfold step, task_step. change (t_mode (w_task w1)) with (mode w). rewrite Hm. cbn [w1 set_cmds w_cmds handle_command].
    by rewrite Ht. }
  eexists _, (try_push_last (Err NoiseError) e1). cbn [run]. rewrite Hw1. cbn [mbind option_bind run].
  rewrite Hw2. cbn [mbind option_bind]. split; [reflexivity|].
  unfold fail_stream. change (t_streams (w_task (set_cmds w1 []))) with (streams w). rewrite Hs.
  unfold on_end. cbn [w1 store_end set_tables set_task set_ends set_cmds w_ends w_task w_sent w_cmds t_streams].
  rewrite lookup_alter_eq, lookup_insert_eq, lookup_delete_eq. unfold try_push_last, push_item.
  cbn [e1 sm_queue sm_rx fmap option_fmap option_map]. rewrite (proj2 (Nat.ltb_lt _ _) Hroom), Hr. split_and!; try done.
Qed.

(** ** A dropped stream *)

(** The close frame of a dropped stream is queued or was sent. *)
Definition closing (w : World) (id : Z) : Prop :=
  Cmd_StreamClose id SdkBoth ∈ w_cmds w \/ C_StreamClose id SdkBoth ∈ w_sent w.

Lemma closing_back w w' id :
  (forall c, c ∈ w_cmds w' -> c ∈ w_cmds w) -> w_sent w' = w_sent w -> closing w' id -> closing w id.
Proof. intros Hc Hs [Hin|Hin]; [left; auto|right; by rewrite <- Hs]. Qed.

Lemma closing_finish w id : closing (finish w) id -> closing w id.
Proof.
  destruct (finish_closes w) as (_ & Hs & _ & _ & Hc & _). apply closing_back; [|done].
  intros c. rewrite Hc. by intros ?%elem_of_nil.
Qed.

Lemma closing_notify w id : closing (notify_all_closed w) id -> closing w id.
Proof. destruct (notify_closes w) as (_ & Hs & _ & _ & Hc & _). apply closing_back; [|done]. by rewrite Hc. Qed.

Lemma closing_same w w' id : same_requests w w' -> closing w' id -> closing w id.
Proof. intros [_ _ _ Hc Hs _]. apply closing_back; [by rewrite Hc|done]. Qed.

Lemma transmit_sent w msg fate :
  let w' := match transmit w msg fate with (Ok w1, _) => w1 | (Err _, w2) => w2 end in
  w_cmds w' = w_cmds w /\ (w_sent w' = w_sent w \/ w_sent w' = w_sent w ++ [msg]).
Proof.
  destruct (transmit_cases w msg fate) as [(w1 & w2 & -> & _ & Hs & _ & Hc & _)|(e & w2 & -> & Hs & _ & Hc & _)]; auto.
Qed.

Lemma closing_command w c q fate id :
  w_cmds w = c :: q -> closing (handle_command (set_cmds w q) c fate) id -> closing w id.
Proof.
  intros Hq. set (w0 := set_cmds w q).
  assert (Hsub : forall w', w_cmds w' = q -> (forall m, m ∈ w_sent w' -> m ∈ w_sent w \/
    (m = C_StreamClose id SdkBoth -> c = Cmd_StreamClose id SdkBoth)) -> closing w' id -> closing w id).
  { intros w' Hc Hs [Hin|Hin]; [left; rewrite Hq; right; by rewrite <- Hc|].
    destruct (Hs _ Hin) as [|Hc0]; [by right|]. left. rewrite Hq, Hc0; [left|done]. }
  assert (Hmsg : forall w1 w' msg, w_cmds w' = w_cmds w1 -> w_sent w' = w_sent w1 ->
    w_cmds w1 = q -> w_sent w1 = w_sent w \/ w_sent w1 = w_sent w ++ [msg] ->
    (msg = C_StreamClose id SdkBoth -> c = Cmd_StreamClose id SdkBoth) -> closing w' id -> closing w id).
  { intros w1 w' msg Hc' Hs' Hc1 Hs1 Hm. apply Hsub; [congruence|]. intros m. rewrite Hs'.
    destruct Hs1 as [-> | ->]; [by left|]. intros [? | ->%list_elem_of_singleton]%elem_of_app; auto. }
  destruct c as [payload r|payload s|i payload|i half]; cbn [handle_command].
  - pose proof (transmit_sent (set_next w0 (u64_add (t_next_id (w_task w0)) 1))
      (C_Data (t_next_id (w_task w0)) payload) fate) as [Hc Hs].
    destruct (transmit _ _ _) as [[w1|e] w2]; [eapply (Hmsg w1)|eapply (Hmsg w2)]; try exact Hs; done.
  - pose proof (transmit_sent (set_next w0 (u64_add (t_next_id (w_task w0)) 1))
      (C_OpenStream (t_next_id (w_task w0)) payload) fate) as [Hc Hs].
    destruct (transmit _ _ _) as [[w1|e] w2]; [eapply (Hmsg w1)|eapply (Hmsg w2)]; try exact Hs; done.
  - pose proof (transmit_sent w0 (C_StreamData i payload) fate) as [Hc Hs].
    destruct (transmit _ _ _) as [[w1|e] w2]; [eapply (Hmsg w1); try exact Hs; done|].
    destruct (same_fail_stream w2 i e) as [_ _ _ Hc2 Hs2 _]. eapply (Hmsg w2); try exact Hs; done.
  - pose proof (transmit_sent w0 (C_StreamClose i half) fate) as [Hc Hs].
    set (w1 := match transmit _ _ _ with (Ok w1, _) => w1 | (Err _, w2) => w2 end) in *.
    destruct (same_remove_stream w1 i) as [_ _ _ Hc2 Hs2 _].
    destruct half; (eapply (Hmsg w1); try exact Hs; try done; by intros [= ->]).
Qed.

Lemma closing_task_step w e w' id : task_step w e = Some w' -> closing w' id -> closing w id.
Proof.
  unfold task_step. intros Hs. destruct (t_mode (w_task w)) as [| |s i0 it final|] eqn:Hm.
  - destruct e; try done.
    + destruct (w_cmds w) as [|c q] eqn:Hq; [done|]. injection Hs as <-. by apply closing_command.
    + by injection Hs as <-.
    + injection Hs as <-. intros Hc. by apply closing_notify, closing_finish.
    + injection Hs as <-. intros Hc. by apply closing_notify, closing_finish.
    + case_match; [|done]. injection Hs as <-. apply closing_finish.
  - destruct e; try done. injection Hs as <-. unfold decode_step.
    destruct (try_decrypt _ _) as [[[[msg consumed] st]|]|].
    + set (w1 := mkWorld _ _ _ _ _ _). assert (Hw1 : closing w1 id -> closing w id) by by apply closing_back.
      intros Hc. apply Hw1. revert Hc. unfold dispatch_response. destruct msg; try done.
      * case_match; (intros Hc; exact Hc).
      * destruct (_ !! _); [intros Hc; exact Hc|]. destruct (_ !! _); [|intros Hc; exact Hc].
        match goal with |- closing (send_item ?x ?a ?b ?c ?d) _ -> _ =>
          intros Hc; apply (closing_same x _ id (same_send_item x a b c d)) in Hc end. exact Hc.
      * destruct (_ !! _); [apply closing_same, same_send_item|intros Hc; exact Hc].
      * apply closing_same, same_remove_stream.
    + done.
    + intros Hc. by apply closing_notify, closing_finish.
  - destruct e; try done. destruct (w_ends w !! s); [|done]. case_match; [done|]. injection Hs as <-.
    intros Hc. apply (closing_same _ _ id (same_send_item _ _ _ _ _)) in Hc. exact Hc.
  - by destruct e.
Qed.

(** Only dropping an open stream with room in the queue issues a close frame. *)
Lemma closing_user_step w e w' id :
  user_step w e = Some w' -> closing w' id ->
  closing w id \/ exists s x, e = U_Drop s /\ open_end w s = Some x /\ us_id (sm_object x) = id /\
    (length (w_cmds w) < CMD_CAPACITY)%nat.
Proof.
  intros Hs.
  assert (Hadd : forall w1 : World, w_sent w1 = w_sent w ->
    (forall c, c ∈ w_cmds w1 -> c ∈ w_cmds w \/ c <> Cmd_StreamClose id SdkBoth) -> closing w1 id -> closing w id).
  { intros w1 Hw1 Hc [Hin|Hin]; [|right; by rewrite <- Hw1]. destruct (Hc _ Hin); [by left|done]. }
  assert (Hsnoc : forall c0 c, c0 <> Cmd_StreamClose id SdkBoth -> c ∈ w_cmds w ++ [c0] ->
    c ∈ w_cmds w \/ c <> Cmd_StreamClose id SdkBoth).
  { intros c0 c Hc0 [? | ->%list_elem_of_singleton]%elem_of_app; auto. }
  destruct e as [r payload|r|s payload|s|s bs|s|s|s room| | | | | | |]; cbn [user_step] in Hs; try done;
    try (lazymatch type of Hs with context [drop_stream] => fail | _ => intros Hc; left; revert Hc end).
  - case_bool_decide; [done|]. destruct (negb (alive w)); [by injection Hs as <-|].
    case_match; [|done]. injection Hs as <-. apply Hadd; [done|]. intros c. by apply Hsnoc.
  - by injection Hs as <-.
  - case_bool_decide; [done|]. destruct (negb (alive w)); [by injection Hs as <-|].
    case_match; [|done]. injection Hs as <-. apply Hadd; [done|]. intros c. by apply Hsnoc.
  - destruct (w_ends w !! s) as [x|]; [|done]. destruct (sm_opened x); [done|]. by injection Hs as <-.
  - destruct (open_end w s) as [x|]; [|done]. unfold poll_write in Hs.
    destruct (us_write_closed _); [by injection Hs as <-|].
    destruct (try_send _ _ _) as [q'| |] eqn:Ht; injection Hs as <-; [|done..].
    apply try_send_queue in Ht as [-> _]. apply Hadd; [done|]. intros c. by apply Hsnoc.
  - destruct (open_end w s) as [x|]; [|done]. unfold poll_shutdown in Hs.
    destruct (us_write_closed _); [by injection Hs as <-|].
    destruct (try_send _ _ _) as [q'| |] eqn:Ht; injection Hs as <-; [|done..].
    apply try_send_queue in Ht as [-> _]. apply Hadd; [done|]. intros c. by apply Hsnoc.
  - destruct (open_end w s) as [x|] eqn:Hx; [|done]. unfold drop_stream, try_send in Hs.
    destruct (negb (alive w)); [injection Hs as <-; intros Hc; by left|].
    destruct (length (w_cmds w) <? CMD_CAPACITY)%nat eqn:Hl; injection Hs as <-; [|intros Hc; by left].
    apply Nat.ltb_lt in Hl. intros Hc.
    destruct (decide (us_id (sm_object x) = id)) as [Hid|Hid]; [right; by exists s, x|]. left.
    revert Hc. apply Hadd; [done|]. intros c. apply Hsnoc. congruence.
  - destruct (open_end w s) as [x|]; [|done]. by injection Hs as <-.
Qed.

(** The caller let go of stream [s], which was opened as [id]. *)
Definition let_go (id : Z) (x : Stream) : Prop := sm_opened x = Some (Ok id) /\ sm_rx x = false.
Definition gone (s : nat) (id : Z) (w : World) : Prop := exists x, w_ends w !! s = Some x /\ let_go id x.

Definition steady (id : Z) (f : Stream -> Stream) : Prop := forall x, let_go id x -> let_go id (f x).

Lemma steady_drop_sender id : steady id drop_sender.
Proof. by intros x [??]. Qed.
Lemma steady_push id i : steady id (push_item i).
Proof. intros x [Ho Hr]. unfold push_item. by rewrite Hr. Qed.
Lemma steady_try_push id i : steady id (try_push_last i).
Proof.
  intros x Hx. unfold try_push_last. apply steady_drop_sender. case_match; [by apply steady_push|done].
Qed.
Lemma steady_answer id o : steady id (answer_open o).
Proof. intros x [Ho Hr]. unfold answer_open. by rewrite Ho. Qed.
Lemma steady_refuse id er : steady id (fun x => drop_sender (answer_open (Err er) x)).
Proof. intros x Hx. by apply steady_drop_sender, steady_answer. Qed.

Lemma gone_ends s id w w' : w_ends w' = w_ends w -> gone s id w -> gone s id w'.
Proof. intros He. unfold gone. by rewrite He. Qed.

Lemma gone_on_end s id w s' f : steady id f -> gone s id w -> gone s id (on_end w s' f).
Proof.
  intros Hf (x & Hx & Hl). unfold gone, on_end. cbn [set_ends w_ends].
  destruct (decide (s = s')) as [<-|]; [|rewrite lookup_alter_ne by done; eauto].
  rewrite lookup_alter_eq, Hx. eexists. split; [done|]. by apply Hf.
Qed.

Lemma gone_foldr {A} s id (f : A -> World -> World) w l :
  (forall a w, gone s id w -> gone s id (f a w)) -> gone s id w -> gone s id (foldr f w l).
Proof. intros Hf Hw. induction l as [|a l IH]; [done|]. cbn [foldr]. auto. Qed.

#[local] Hint Resolve steady_drop_sender steady_push steady_try_push steady_answer steady_refuse gone_on_end : gone.

Lemma gone_remove s id w i : gone s id w -> gone s id (remove_stream w i).
Proof. intros Hg. unfold remove_stream. destruct (_ !! _); [|done]. by apply gone_on_end; [auto with gone|]. Qed.

Lemma gone_fail s id w i e : gone s id w -> gone s id (fail_stream w i e).
Proof. intros Hg. unfold fail_stream. destruct (_ !! _); [|done]. by apply gone_on_end; [auto with gone|]. Qed.

Lemma gone_send s id w s' i it final : gone s id w -> gone s id (send_item w s' i it final).
Proof.
  intros Hg. unfold send_item. destruct (w_ends w !! s'); [|done]. destruct (negb _).
  - destruct final; [by apply gone_on_end; [auto with gone|]|by apply gone_remove].
  - case_match; [|done]. apply gone_on_end; [|done]. intros x Hx. destruct final; [apply steady_drop_sender|]; by apply steady_push.
Qed.

Lemma gone_notify s id w : gone s id w -> gone s id (notify_all_closed w).
Proof.
  intros Hg. unfold notify_all_closed.
  assert (Hgone : forall rs ss, gone s id (foldr (fun s w => on_end w s (try_push_last (Err ConnectionClosed)))
    (foldr (fun r w => answer_request w r (Err ConnectionClosed)) w rs) ss)).
  { intros. apply gone_foldr; [auto with gone|]. by apply gone_foldr. }
  exact (Hgone _ _).
Qed.

Lemma gone_finish s id w : gone s id w -> gone s id (finish w).
Proof.
  intros Hg. unfold finish.
  assert (Hgone : forall q rs ss, gone s id (foldr (fun s w => on_end w s drop_sender)
    (foldr (fun r w => answer_request w r (Err ConnectionClosed)) (foldr drop_command w q) rs) ss)).
  { intros. apply gone_foldr; [auto with gone|]. apply gone_foldr; [done|]. apply gone_foldr; [|done].
    intros c w0 Hw0. destruct c; cbn [drop_command]; auto with gone. }
  exact (Hgone _ _ _).
Qed.

Lemma gone_command s id w c fate : gone s id w -> gone s id (handle_command w c fate).
Proof.
  intros Hg. destruct c as [payload r|payload s'|i payload|i half]; cbn [handle_command].
  - destruct (transmit_cases (set_next w (u64_add (t_next_id (w_task w)) 1)) (C_Data (t_next_id (w_task w)) payload) fate)
      as [(w1 & w2 & -> & _ & _ & _ & _ & _ & He & _)|(e & w2 & -> & _ & _ & _ & _ & He & _)];
      by apply (gone_ends _ _ w).
  - destruct (transmit_cases (set_next w (u64_add (t_next_id (w_task w)) 1)) (C_OpenStream (t_next_id (w_task w)) payload) fate)
      as [(w1 & w2 & -> & _ & _ & _ & _ & _ & He & _)|(e & w2 & -> & _ & _ & _ & _ & He & _)];
      (apply gone_on_end; [auto with gone|by apply (gone_ends _ _ w)]).
  - destruct (transmit_cases w (C_StreamData i payload) fate)
      as [(w1 & w2 & -> & _ & _ & _ & _ & _ & He & _)|(e & w2 & -> & _ & _ & _ & _ & He & _)];
      [|apply gone_fail]; by apply (gone_ends _ _ w).
  - destruct (transmit_cases w (C_StreamClose i half) fate)
      as [(w1 & w2 & -> & _ & _ & _ & _ & _ & He & _)|(e & w2 & -> & _ & _ & _ & _ & He & _)];
      destruct half; try apply gone_remove; by apply (gone_ends _ _ w).
Qed.

Lemma gone_task_step s id w e w' : task_step w e = Some w' -> gone s id w -> gone s id w'.
Proof.
  unfold task_step. intros Hs Hg. destruct (t_mode (w_task w)) as [| |s' i0 it final|].
  - destruct e; try done.
    + destruct (w_cmds w) as [|c q]; [done|]. injection Hs as <-. by apply gone_command.
    + by injection Hs as <-.
    + injection Hs as <-. by apply gone_finish, gone_notify.
    + injection Hs as <-. by apply gone_finish, gone_notify.
    + case_match; [|done]. injection Hs as <-. by apply gone_finish.
  - destruct e; try done. injection Hs as <-. unfold decode_step.
    destruct (try_decrypt _ _) as [[[[msg consumed] st]|]|]; [|done|by apply gone_finish, gone_notify].
    set (w1 := mkWorld _ _ _ _ _ _). assert (Hw1 : gone s id w1) by done.
    unfold dispatch_response. destruct msg; try done.
    + by destruct (_ !! _).
    + destruct (_ !! _); [done|]. destruct (_ !! _); [by apply gone_send|done].
    + destruct (_ !! _); [by apply gone_send|done].
    + by apply gone_remove.
  - destruct e; try done. destruct (w_ends w !! s'); [|done]. case_match; [done|]. injection Hs as <-.
    by apply gone_send.
  - by destruct e.
Qed.

Lemma gone_store s id w w' s' e :
  w_ends w' = <[s' := e]> (w_ends w) ->
  (forall x, w_ends w !! s' = Some x -> ~ let_go id x) -> gone s id w -> gone s id w'.
Proof.
  intros He Hne (x & Hx & Hl). exists x. split; [|done]. rewrite He. apply lookup_insert_Some. right.
  split; [|done]. intros ->. by eapply Hne.
Qed.

Lemma gone_user_step s id w e w' : user_step w e = Some w' -> gone s id w -> gone s id w'.
Proof.
  intros Hs Hg.
  assert (Hopen : forall s' x y, open_end w s' = Some x -> w_ends w !! s' = Some y -> ~ let_go id y).
  { intros s' x y (Hx & Hr & _)%open_end_Some Hy [_ Hl]. congruence. }
  destruct e as [r payload|r|s' payload|s'|s' bs|s'|s'|s' room| | | | | | |]; cbn [user_step] in Hs; try done.
  - case_bool_decide; [done|]. destruct (negb (alive w)); [by injection Hs as <-|].
    case_match; [|done]. by injection Hs as <-.
  - by injection Hs as <-.
  - case_bool_decide as Hn; [done|]. apply eq_None_not_Some in Hn.
    destruct (negb (alive w)); [|case_match; [|done]]; injection Hs as <-;
      (eapply (gone_store s id w); [reflexivity|by rewrite Hn|done]).
  - destruct (w_ends w !! s') as [x|] eqn:Hx; [|done]. destruct (sm_opened x) eqn:Ho; [done|]. injection Hs as <-.
    eapply (gone_store s id w); [reflexivity| |done]. rewrite Hx. intros y [= <-] [Hl _]. congruence.
  - destruct (open_end w s') as [x|] eqn:Hx; [|done].
    destruct (poll_write _ _ _ _) as [[n| |] q']; injection Hs as <-; try done.
    eapply (gone_store s id w); [reflexivity|exact (fun y => Hopen _ _ y Hx)|done].
  - destruct (open_end w s') as [x|] eqn:Hx; [|done]. destruct (poll_shutdown _ _ _) as [[? u] q']. injection Hs as <-.
    eapply (gone_store s id w); [reflexivity|exact (fun y => Hopen _ _ y Hx)|done].
  - destruct (open_end w s') as [x|] eqn:Hx; [|done]. injection Hs as <-.
    eapply (gone_store s id w); [reflexivity|exact (fun y => Hopen _ _ y Hx)|done].
  - destruct (open_end w s') as [x|] eqn:Hx; [|done]. injection Hs as <-.
    eapply (gone_store s id w); [reflexivity|exact (fun y => Hopen _ _ y Hx)|done].
Qed.

(** No close frame is issued for a stream that was let go without one. *)
Lemma gone_run n w es w' s id :
  str_inv w -> req_inv (Z.of_nat (length es) + n) w -> 0 <= n -> run w es = Some w' ->
  gone s id w -> ~ closing w id -> ~ closing w' id.
Proof.
  revert w. induction es as [|e es IH]; intros w Hi Hq Hn Hr Hg Hc; [by injection Hr as <-|].
  cbn [run] in Hr. destruct (step w e) as [w1|] eqn:Hs; [|done].
  assert (Hr1 : run w [e] = Some w1) by (cbn [run]; by rewrite Hs).
  assert (Hl : 0 <= Z.of_nat (length es) + n) by lia.
  assert (Hq' : req_inv (Z.of_nat (length [e]) + (Z.of_nat (length es) + n)) w).
  { replace (Z.of_nat (length [e]) + (Z.of_nat (length es) + n)) with (Z.of_nat (length (e :: es)) + n)
      by (simpl length; lia). done. }
  assert (task_step w e = Some w1 \/ user_step w e = Some w1) as Hcase by (destruct e; auto).
  apply (IH w1); [by eapply (str_run (Z.of_nat (length es) + n) w [e])|by eapply (req_run _ w [e])|done|done| |].
  - destruct Hcase; [by eapply gone_task_step|by eapply gone_user_step].
  - intros Hc1. destruct Hcase as [Ht|Hu]; [by apply Hc, (closing_task_step _ _ _ _ Ht)|].
    destruct (closing_user_step _ _ _ _ Hu Hc1) as [|(s' & x & -> & Hx & Hid & _)]; [done|].
    apply open_end_Some in Hx as (Hx & Hrx & id' & Ho). destruct Hg as (y & Hy & Hoy & Hry).
    pose proof (si_id _ Hi _ _ _ Hx Ho). assert (id' = id) as -> by congruence.
    assert (s' = s) as -> by (eapply (si_inj _ Hi); eauto). congruence.
Qed.

(** While a caller holds its stream, no close frame was issued for it. *)
Lemma held_run n w es w' :
  str_inv w -> req_inv (Z.of_nat (length es) + n) w -> 0 <= n -> run w es = Some w' ->
  (forall id, closing w id -> exists s, gone s id w) -> forall id, closing w' id -> exists s, gone s id w'.
Proof.
  revert w. induction es as [|e es IH]; intros w Hi Hq Hn Hr Hg; [by injection Hr as <-|].
  cbn [run] in Hr. destruct (step w e) as [w1|] eqn:Hs; [|done].
  assert (Hr1 : run w [e] = Some w1) by (cbn [run]; by rewrite Hs).
  assert (Hl : 0 <= Z.of_nat (length es) + n) by lia.
  assert (Hq' : req_inv (Z.of_nat (length [e]) + (Z.of_nat (length es) + n)) w).
  { replace (Z.of_nat (length [e]) + (Z.of_nat (length es) + n)) with (Z.of_nat (length (e :: es)) + n)
      by (simpl length; lia). done. }
  assert (task_step w e = Some w1 \/ user_step w e = Some w1) as Hcase by (destruct e; auto).
  apply (IH w1); [by eapply (str_run (Z.of_nat (length es) + n) w [e])|by eapply (req_run _ w [e])|done|done|].
  intros id Hc. destruct Hcase as [Ht|Hu].
  - destruct (Hg id) as [s Hgs]; [by eapply closing_task_step|]. exists s. by eapply gone_task_step.
  - destruct (closing_user_step _ _ _ _ Hu Hc) as [Hcw|(s & x & -> & Hx & Hid & _)].
    + destruct (Hg id Hcw) as [s Hgs]. exists s. by eapply gone_user_step.
    + cbn [user_step] in Hu. rewrite Hx in Hu. injection Hu as <-.
      apply open_end_Some in Hx as (Hx & Hrx & id' & Ho).
      pose proof (si_id _ Hi _ _ _ Hx Ho). assert (id' = id) as -> by congruence.
      exists s. eexists. cbn. rewrite lookup_insert_eq. split; [done|]. by split.
Qed.

(** A stream dropped while the command queue is full is never closed.  In
    every schedule, when a caller drops its stream and the queue has no room,
    whatever happens afterwards the enclave is never told: no close frame for
    the stream's id is ever sent, and the stream is still open in the task's
    table after the drop. *)
Theorem full_queue_loses_the_close tx rx es w s e id w1 es' w' :
  Z.of_nat (length es) + Z.of_nat (length es') < 2 ^ 64 - 2 ->
  run (start tx rx) es = Some w -> w_ends w !! s = Some e -> sm_rx e = true -> sm_opened e = Some (Ok id) ->
  (CMD_CAPACITY <= length (w_cmds w))%nat ->
  step w (U_Drop s) = Some w1 -> run w1 es' = Some w' ->
  w_task w1 = w_task w /\ C_StreamClose id SdkBoth ∉ w_sent w'.
Proof.
  intros Hn Hr He Hrx Ho Hfull Hs Hr'.
  set (n := Z.of_nat (length es')).
  assert (Hq0 : req_inv (Z.of_nat (length es) + (n + 1)) (start tx rx)) by (apply req_start; lia).
  assert (Hi : str_inv w) by (eapply (str_run (n + 1) _ es); [apply str_start|done|lia|done]).
  assert (Hq : req_inv (n + 1) w) by (eapply (req_run (n + 1) _ es); [done|lia|done]).
  assert (Hheld : forall id, closing w id -> exists s, gone s id w).
  { eapply (held_run (n + 1) _ es); [apply str_start|done|lia|done|].
    intros i [Hin|Hin]; by apply elem_of_nil in Hin. }
  assert (Hno : ~ closing w id).
  { intros (s' & x & Hx & Hox & Hrxx)%Hheld. assert (s' = s) as -> by (eapply (si_inj _ Hi); eauto). congruence. }
  assert (Hr1 : run w [U_Drop s] = Some w1) by (cbn [run]; by rewrite Hs).
  assert (Hi1 : str_inv w1) by (eapply (str_run n w [U_Drop s]); [done|by rewrite Z.add_comm|lia|done]).
  assert (Hq1 : req_inv n w1) by (eapply (req_run n w [U_Drop s]); [by rewrite Z.add_comm|lia|done]).
  assert (Hu : user_step w (U_Drop s) = Some w1) by done.
  assert (Hno1 : ~ closing w1 id).
  { intros Hc. destruct (closing_user_step _ _ _ _ Hu Hc) as [|(s' & x & _ & _ & _ & Hl)]; [done|lia]. }
  cbn [user_step] in Hu. unfold open_end in Hu. rewrite He, Hrx, Ho in Hu. injection Hu as Hw1.
  assert (Hg1 : gone s id w1).
  { subst w1. eexists. cbn. rewrite lookup_insert_eq. split; [done|]. by split. }
  split; [by subst w1|]. intros Hin.
  eapply (gone_run 0 w1 es' w' s id); [done|by rewrite Z.add_0_r|done|done|done|done|by right].
Qed.
End Losses.

(** ** The losses happen *)

Module LossDemo.
#[local] Existing Instances NoiseDemo.toy_noise TransportDemo.toy_client_cbor TransportDemo.toy_server_cbor.

Definition opened : list Event := [U_Open 0 [3]; T_Command None].

(** 64 chunks arrive and nobody reads. *)
Definition flooded : list Event :=
  opened ++ [T_Frame (concat ((fun n => TransportDemo.frame (Z.of_nat n) (S_StreamData 1 [Z.of_nat n])) <$> seq 0 64))]
    ++ replicate 65 T_Decode.

(** 64 writes are queued. *)
Definition crowded : list Event := opened ++ replicate 64 (U_Write 0 [1]).

(** A cipher that keeps to the size of a Noise message. *)
#[export] Instance sized_noise : Noise := {|
  NoiseState := Z;
  write_message n p := if Z.of_nat (length p) <=? 65519 then Some (n :: p, n + 1) else None;
  read_message n c := match c with t :: p => if t =? n then Some (p, n + 1) else None | [] => None end;
|}.

Definition big : bytes := replicate (Z.to_nat 70000) 0.
End LossDemo.

Module LossWitness.
#[local] Existing Instances NoiseDemo.toy_noise TransportDemo.toy_client_cbor TransportDemo.toy_server_cbor.

Lemma lost_connection_reads_as_end_witness :
  let w := TransportDemo.after LossDemo.flooded in
  exists w', step w T_WsClosed = Some w' /\
    exists rooms w2 e2, run w' (U_Read 0 <$> rooms) = Some w2 /\ w_ends w2 !! 0%nat = Some e2 /\
       sm_got e2 = Z.of_nat <$> seq 0 64 /\ us_eof (sm_object e2) = true.
Proof.
  intros w.
  destruct (lost_connection_reads_as_end w 0 (TransportDemo.end0 LossDemo.flooded) 1) as (w' & Hs & _ & rooms & w2 & e2 & Hr & He & Hg & Heof).
  1-7: vm_compute; reflexivity.
  - vm_compute. repeat (constructor; [by eexists|]). constructor.
  - vm_compute. lia.
  - exists w'. split; [exact Hs|]. exists rooms, w2, e2. split; [exact Hr|]. split; [exact He|].
    split; [|exact Heof]. rewrite Hg. vm_compute. reflexivity.
Defined.

Lemma full_queue_loses_the_close_witness :
  let w := TransportDemo.after LossDemo.crowded in
  exists w1 w', step w (U_Drop 0) = Some w1 /\ run w1 (replicate 64 (T_Command None)) = Some w' /\
    C_StreamClose 1 SdkBoth ∉ w_sent w'.
Proof.
  intros w.
  assert (Hw : run TransportDemo.fresh LossDemo.crowded = Some w) by (vm_compute; reflexivity).
  set (w1 := TransportDemo.after (LossDemo.crowded ++ [U_Drop 0])).
  set (w' := TransportDemo.after (LossDemo.crowded ++ U_Drop 0 :: replicate 64 (T_Command None))).
  assert (Hs : step w (U_Drop 0) = Some w1) by (vm_compute; reflexivity).
  assert (Hr : run w1 (replicate 64 (T_Command None)) = Some w') by (vm_compute; reflexivity).
  exists w1, w'. split; [exact Hs|]. split; [exact Hr|].
  eapply (full_queue_loses_the_close TransportDemo.zero TransportDemo.zero LossDemo.crowded w 0
    (TransportDemo.end0 LossDemo.crowded) 1 w1 (replicate 64 (T_Command None)) w').
  - reflexivity.
  - exact Hw.
  - vm_compute; reflexivity.
  - vm_compute; reflexivity.
  - vm_compute; reflexivity.
  - vm_compute. lia.
  - exact Hs.
  - exact Hr.
Defined.
End LossWitness.

Module OversizeWitness.
#[local] Existing Instances LossDemo.sized_noise TransportDemo.toy_client_cbor TransportDemo.toy_server_cbor.

Definition zero : NoiseState := (0 : @NoiseState LossDemo.sized_noise).
Definition after : World := default (start zero zero) (run (start zero zero) LossDemo.opened).
Definition end0 : Stream :=
  default (mkStream [] None [] true true (upgraded_new 0 []) [] false []) (w_ends after !! 0%nat).

Lemma oversized_write_is_lost_witness :
  (poll_write (sm_object end0) (alive after) (w_cmds after) LossDemo.big).1 = Write_Ready (length LossDemo.big) /\
  exists w' e', run after [U_Write 0 LossDemo.big; T_Command None] = Some w' /\ w_ends w' !! 0%nat = Some e' /\
    w_sent w' = [C_OpenStream 1 [3]] /\ sm_queue e' = [Err NoiseError].
Proof.
  destruct (oversized_write_is_lost after 0 end0 1 LossDemo.big None) as (Hp & w' & e' & Hr & He & _ & Hs & _ & _ & Hq & _).
  - intros st p Hl. cbn. by rewrite (proj2 (Z.leb_gt _ _) Hl).
  - cbn [encode TransportDemo.toy_client_cbor length]. lia.
  - vm_compute. reflexivity.
  - vm_compute. reflexivity.
  - vm_compute. reflexivity.
  - vm_compute. reflexivity.
  - vm_compute. reflexivity.
  - vm_compute. reflexivity.
  - vm_compute. reflexivity.
  - vm_compute. reflexivity.
  - vm_compute. reflexivity.
  - vm_compute. lia.
  - split; [exact Hp|]. exists w', e'. split; [exact Hr|]. split; [exact He|].
    rewrite Hs, Hq. split; vm_compute; reflexivity.
Defined.
End OversizeWitness.
