(* ===== verification/SdkHttp.v ===== *)
(** HTTP over the SDK's channel ([enclavia/src/http.rs], [request.rs],
    [response.rs], and [Client::upgrade] of [client.rs]).

    Requests are written out by the SDK itself; responses are parsed by
    [httparse], a parameter here.  A Rust [String] is its UTF-8 bytes.  The
    theorems relate what is written to a reference reader of HTTP requests, and
    the loop that reads a response head chunk by chunk to one parse of the
    whole. *)
From stdpp Require Import base gmap list strings.
From S2P Require Import Prelude Signing Text Transport Sdk SdkTransport SdkTransportProofs SdkStreams.
#[local] Open Scope Z_scope.

(** ** Requests *)

Inductive Method : Type := Get | Post | Put | Delete | Patch | Head | Options.

Definition method_fmt (m : Method) : bytes :=
  lit match m with
      | Get => "GET"
      | Post => "POST"
      | Put => "PUT"
      | Delete => "DELETE"
      | Patch => "PATCH"
      | Head => "HEAD"
      | Options => "OPTIONS"
      end.

Abbreviation Header := (bytes * bytes)%type.

(** CR is 13, LF is 10. *)
Definition CR : Z := 13.
Definition LF : Z := 10.
Definition CRLF : bytes := [CR; LF].

Definition same_name (a b : bytes) : bool := bool_decide (to_ascii_lowercase a = to_ascii_lowercase b).
Definition has_header (headers : list Header) (name : bytes) : bool :=
  existsb (fun kv => same_name kv.1 name) headers.

Definition header_line (kv : Header) : bytes := kv.1 ++ lit ": " ++ kv.2 ++ CRLF.

Definition content_length (body : bytes) : Header :=
  (lit "Content-Length", print_uint (Z.of_nat (length body))).

Definition serialize_request (method : Method) (path : bytes) (headers : list Header) (body : option bytes) : bytes :=
  let out := method_fmt method ++ lit " " ++ path ++ lit " HTTP/1.1" ++ CRLF in
  let out := out ++ (headers ≫= header_line) in
  let out := match body with
             | Some body =>
                 if negb (has_header headers (lit "content-length"))
                 then out ++ header_line (content_length body) else out
             | None => out
             end in
  let out := out ++ CRLF in
  match body with Some body => out ++ body | None => out end.

(** ** Responses *)

Record Response := mkResponse { rs_status : Z; rs_headers : list Header; rs_body : bytes }.

(** The first value of a header. *)
Definition response_header (r : Response) (name : bytes) : option bytes :=
  snd <$> List.find (fun kv => same_name kv.1 name) (rs_headers r).

(** A head that [httparse] found: its length, status and headers. *)
Record ParsedHead := mkParsedHead { ph_len : nat; ph_code : option Z; ph_headers : list Header }.

(** [httparse::Response::parse] with room for 64 headers: [Ok None] is
    [Status::Partial]; and [String::from_utf8_lossy]. *)
Class HttpLib := {
  http_parse : bytes -> result (option ParsedHead) string;
  from_utf8_lossy : bytes -> bytes;
}.

(** A complete head is inside the buffer, it is one by itself, and what follows
    it does not matter; what is part of a response head is not refused. *)
Class HttpLaws `{HttpLib} := {
  hp_complete b h : http_parse b = Ok (Some h) ->
    (ph_len h <= length b)%nat /\ http_parse (take (ph_len h) b) = Ok (Some h) /\
    forall more, http_parse (b ++ more) = Ok (Some h);
  hp_partial b more h : http_parse (b ++ more) = Ok (Some h) -> exists r, http_parse b = Ok r;
}.

Section Http.
Context `{HttpLib}.

Definition try_parse_response_head (buf : bytes) : result (option (Z * nat)) Error :=
  let? parsed := map_err HttpParse (http_parse buf) in
  match parsed with
  | Some h =>
      let? code := ok_or (ph_code h) (HttpParse "Missing status code") in
      Ok (Some (code, ph_len h))
  | None => Ok None
  end.

Definition parse_response (raw : bytes) : result Response Error :=
  let? parsed := map_err HttpParse (http_parse raw) in
  match parsed with
  | None => Err (HttpParse "Incomplete HTTP response")
  | Some h =>
      let? status_code := ok_or (ph_code h) (HttpParse "Missing status code") in
      let headers := (fun kv => (kv.1, from_utf8_lossy kv.2)) <$> ph_headers h in
      Ok (mkResponse status_code headers (drop (ph_len h) raw))
  end.

(** ** The request builder *)

Record RequestBuilder := mkRequestBuilder {
  rb_host : bytes;
  rb_method : Method;
  rb_path : bytes;
  rb_headers : list Header;
  rb_body : option bytes;
}.

Definition request_new (host : bytes) (method : Method) (path : bytes) : RequestBuilder :=
  mkRequestBuilder host method path [] None.
Definition request_header (b : RequestBuilder) (name value : bytes) : RequestBuilder :=
  mkRequestBuilder (rb_host b) (rb_method b) (rb_path b) (rb_headers b ++ [(name, value)]) (rb_body b).
Definition request_body (b : RequestBuilder) (body : bytes) : RequestBuilder :=
  mkRequestBuilder (rb_host b) (rb_method b) (rb_path b) (rb_headers b) (Some body).
Definition request_json (b : RequestBuilder) (value : result bytes string) : result RequestBuilder Error :=
  let? bytes := map_err (fun e => HttpParse ("JSON serialize error: " +:+ e)) value in
  Ok (mkRequestBuilder (rb_host b) (rb_method b) (rb_path b)
        (rb_headers b ++ [(lit "Content-Type", lit "application/json")]) (Some bytes)).

Definition with_host (host : bytes) (headers : list Header) : list Header :=
  if negb (has_header headers (lit "host")) then (lit "Host", host) :: headers else headers.
Definition with_connection (headers : list Header) : list Header :=
  if negb (has_header headers (lit "connection")) then headers ++ [(lit "Connection", lit "close")] else headers.

(** [send], over what [Client::send_request] answers. *)
Definition send (b : RequestBuilder) (send_request : bytes -> result bytes Error) : result Response Error :=
  let headers := with_connection (with_host (rb_host b) (rb_headers b)) in
  let raw_request := serialize_request (rb_method b) (rb_path b) headers (rb_body b) in
  let? raw_response := send_request raw_request in
  parse_response raw_response.

(** ** Upgrade *)

Definition MAX_UPGRADE_HEAD : nat := Z.to_nat (64 * 1024).

(** The bytes [upgrade] opens its stream with. *)
Definition upgrade_request (host : bytes) (method : Method) (path : bytes) (headers : list Header) : bytes :=
  serialize_request method path (with_host host headers) None.

(** How an upgrade ends: with the stream and what is still queued for it; with
    an error, after a close command for the id when [close] is set; or it waits
    for the next chunk. *)
Inductive Upgrade : Type :=
| Up_Ok (u : UpgradedStream) (q : list item)
| Up_Err (e : Error) (close : bool)
| Up_Wait (head_buf : bytes).

(** The loop over the stream's queue [q]; [tx] says whether the transport task
    still feeds it. *)
Fixpoint upgrade_loop (u : UpgradedStream) (head_buf : bytes) (q : list item) (tx : bool) : Upgrade :=
  match try_parse_response_head head_buf with
  | Err e => Up_Err e false
  | Ok (Some (status, head_len)) =>
      if negb (status =? 101) then Up_Err (UpgradeFailed status (take head_len head_buf)) true
      else if (head_len <? length head_buf)%nat
      then Up_Ok (prepend_read u (drop head_len head_buf)) q
      else Up_Ok u q
  | Ok None =>
      if (MAX_UPGRADE_HEAD <=? length head_buf)%nat
      then Up_Err (HttpParse "response head exceeded") true
      else match q with
           | [] => if tx then Up_Wait head_buf else Up_Err ConnectionClosed false
           | Ok chunk :: q => upgrade_loop u (head_buf ++ chunk) q tx
           | Err e :: _ => Up_Err e false
           end
  end.

Definition upgrade (id : Z) (q : list item) (tx : bool) : Upgrade :=
  upgrade_loop (upgraded_new id []) [] q tx.

(** The close command of a failed upgrade: it goes to the channel that is
    current when the upgrade fails. *)
Definition close_on_current `{Noise} (cur : World) (id : Z) (r : Upgrade) : World :=
  match r with
  | Up_Err _ true =>
      match try_send (alive cur) (w_cmds cur) (Cmd_StreamClose id SdkBoth) with
      | Sent q => set_cmds cur q
      | _ => cur
      end
  | _ => cur
  end.
End Http.

(** ** A reference reader of requests *)

(** The bytes before the first CRLF, and those after it. *)
Fixpoint split_crlf (l : bytes) : option (bytes * bytes) :=
  match l with
  | [] => None
  | c :: rest =>
      match (if c =? CR then match rest with d :: rest' => if d =? LF then Some rest' else None | [] => None end
             else None) with
      | Some rest' => Some ([], rest')
      | None => match split_crlf rest with Some (a, b) => Some (c :: a, b) | None => None end
      end
  end.

Definition read_header (line : bytes) : option Header :=
  match split_once 58 line with
  | Some (k, c :: v) => if c =? 32 then Some (k, v) else None
  | _ => None
  end.

(** Header lines up to the empty one, at most [fuel]. *)
Fixpoint read_headers (fuel : nat) (l : bytes) : option (list Header * bytes) :=
  match fuel with
  | O => None
  | S fuel =>
      match split_crlf l with
      | None => None
      | Some ([], rest) => Some ([], rest)
      | Some (line, rest) =>
          h ← read_header line;
          r ← read_headers fuel rest;
          Some (h :: r.1, r.2)
      end
  end.

Record ReadRequest := mkReadRequest {
  rr_method : bytes; rr_path : bytes; rr_headers : list Header; rr_body : bytes }.

Definition read_request (l : bytes) : option ReadRequest :=
  first ← split_crlf l;
  m ← split_once 32 first.1;
  p ← split_once 32 m.2;
  if bool_decide (p.2 = lit "HTTP/1.1")
  then r ← read_headers (length l) first.2; Some (mkReadRequest m.1 p.1 r.1 r.2)
  else None.

(** ** Proofs *)

Lemma split_crlf_app line rest : CR ∉ line -> split_crlf (line ++ CRLF ++ rest) = Some (line, rest).
Proof.
  induction line as [|c line IH]; intros Hc; [done|]. apply not_elem_of_cons in Hc as [Hne Hc].
  cbn [app split_crlf]. rewrite (proj2 (Z.eqb_neq c CR)) by congruence. by rewrite IH.
Qed.

(** A header that stays one line: no CR, and no colon in its name. *)
Record clean_header (kv : Header) : Prop := {
  ch_name : (CR ∉ kv.1) /\ (58 ∉ kv.1);
  ch_value : CR ∉ kv.2;
}.

Lemma read_headers_line fuel kv rest hs body :
  clean_header kv -> read_headers fuel rest = Some (hs, body) ->
  read_headers (S fuel) (header_line kv ++ rest) = Some (kv :: hs, body).
Proof.
  intros [[Hcr Hcolon] Hv] Hr. destruct kv as [k v]. cbn [fst snd] in *.
  assert (Hsplit : split_crlf (header_line (k, v) ++ rest) = Some (k ++ lit ": " ++ v, rest)).
  { unfold header_line. cbn [fst snd]. rewrite <- !app_assoc.
    rewrite <- (split_crlf_app (k ++ lit ": " ++ v) rest); [by rewrite <- !app_assoc|].
    rewrite !elem_of_app. change (lit ": ") with [58; 32]. rewrite !elem_of_cons, elem_of_nil. unfold CR. naive_solver. }
  cbn [read_headers]. rewrite Hsplit.
  assert (Hread : read_header (k ++ lit ": " ++ v) = Some (k, v)).
  { unfold read_header. change (k ++ lit ": " ++ v) with (k ++ 58 :: 32 :: v).
    by rewrite split_once_app. }
  destruct (k ++ lit ": " ++ v) as [|c line] eqn:E; [by destruct k|]. rewrite Hread. cbn. by rewrite Hr.
Qed.

Lemma read_headers_app hs body fuel :
  Forall clean_header hs -> (length hs < fuel)%nat ->
  read_headers fuel ((hs ≫= header_line) ++ CRLF ++ body) = Some (hs, body).
Proof.
  revert fuel. induction hs as [|kv hs IH]; intros fuel Hc Hf.
  - destruct fuel; [cbn in Hf; lia|]. done.
  - inversion Hc; subst. destruct fuel as [|fuel]; [cbn in Hf; lia|]. cbn [mbind list_bind].
    rewrite <- app_assoc. apply read_headers_line; [done|]. apply IH; [done|]. cbn in Hf. lia.
Qed.

Lemma print_digits_clean fuel n acc : CR ∉ acc -> 0 <= n -> CR ∉ print_digits fuel n acc.
Proof.
  revert n acc. induction fuel as [|fuel IH]; intros n acc Hacc Hn; [done|]. cbn [print_digits].
  assert (Hd : CR ∉ (48 + n mod 10) :: acc).
  { rewrite not_elem_of_cons. split; [|done]. pose proof (Z.mod_pos_bound n 10). unfold CR. lia. }
  case_match; [done|]. apply IH; [done|]. apply Z.div_pos; lia.
Qed.

Lemma clean_content_length body : clean_header (content_length body).
Proof.
  split; cbn [content_length fst snd].
  - change (lit "Content-Length") with [67; 111; 110; 116; 101; 110; 116; 45; 76; 101; 110; 103; 116; 104].
    rewrite !not_elem_of_cons. unfold CR. split_and!; try lia; apply not_elem_of_nil.
  - apply print_digits_clean; [apply not_elem_of_nil|lia].
Qed.

(** The headers that end up on the wire. *)
Definition wire_headers (headers : list Header) (body : option bytes) : list Header :=
  match body with
  | Some body => if negb (has_header headers (lit "content-length")) then headers ++ [content_length body] else headers
  | None => headers
  end.

Lemma serialize_request_wire m path hs body :
  serialize_request m path hs body =
  (method_fmt m ++ lit " " ++ path ++ lit " HTTP/1.1") ++ CRLF ++
  (wire_headers hs body ≫= header_line) ++ CRLF ++ default [] body.
Proof.
  unfold serialize_request, wire_headers. destruct body as [body|]; cbn [default from_option]; [|by rewrite app_nil_r, <- !app_assoc].
  destruct (negb _); rewrite ?bind_app; cbn [mbind list_bind]; rewrite ?app_nil_r, <- ?app_assoc; done.
Qed.

Lemma length_header_lines hs : (length hs <= length (hs ≫= header_line))%nat.
Proof.
  induction hs as [|kv hs IH]; [done|].
  change ((kv :: hs) ≫= header_line) with (header_line kv ++ (hs ≫= header_line)). rewrite length_app.
  assert (1 <= length (header_line kv))%nat by (unfold header_line; rewrite !length_app; cbn [length CRLF]; lia).
  cbn [length]. lia.
Qed.

Lemma read_request_wire m path hs body :
  CR ∉ path -> 32 ∉ path -> Forall clean_header hs ->
  read_request ((method_fmt m ++ lit " " ++ path ++ lit " HTTP/1.1") ++ CRLF ++ (hs ≫= header_line) ++ CRLF ++ body)
    = Some (mkReadRequest (method_fmt m) path hs body).
Proof.
  intros Hcr Hsp Hhs. unfold read_request.
  assert (Hm : (CR ∉ method_fmt m) /\ (32 ∉ method_fmt m)).
  { destruct m; cbn; rewrite !not_elem_of_cons; unfold CR; split_and!; try lia; apply not_elem_of_nil. }
  set (l := (_ ++ CRLF ++ _) : bytes).
  assert (Hl : (length hs < length l)%nat).
  { unfold l. rewrite !length_app. pose proof (length_header_lines hs). cbn [length CRLF]. lia. }
  pose proof (read_headers_app hs body (length l) Hhs Hl) as Hr.
  assert (Hfirst : split_crlf l = Some (method_fmt m ++ lit " " ++ path ++ lit " HTTP/1.1",
                                        (hs ≫= header_line) ++ CRLF ++ body)).
  { apply split_crlf_app. rewrite !elem_of_app. change (lit " ") with [32].
    change (lit " HTTP/1.1") with [32; 72; 84; 84; 80; 47; 49; 46; 49].
    rewrite !elem_of_cons, !elem_of_nil. unfold CR in *. naive_solver. }
  assert (Hm' : split_once 32 (method_fmt m ++ lit " " ++ path ++ lit " HTTP/1.1") =
                Some (method_fmt m, path ++ 32 :: lit "HTTP/1.1")) by (apply split_once_app; tauto).
  pose proof (split_once_app 32 path (lit "HTTP/1.1") Hsp) as Hp.
  clearbody l. rewrite Hfirst. cbn [mbind option_bind fst snd]. rewrite Hm'. cbn [mbind option_bind fst snd].
  rewrite Hp. cbn [mbind option_bind fst snd]. rewrite bool_decide_eq_true_2 by done. by rewrite Hr.
Qed.

(** A request is read back as it was built.  For every method, body and
    clean path and headers (no line break in them, no space in the path, no
    colon in a name), a reader of HTTP requests finds in the serialised bytes
    the method, the path, the headers in their order (with a Content-Length when
    there is a body and the caller gave none), and exactly the body. *)
Theorem request_reads_back m path hs body :
  CR ∉ path -> 32 ∉ path -> Forall clean_header hs ->
  read_request (serialize_request m path hs body)
    = Some (mkReadRequest (method_fmt m) path (wire_headers hs body) (default [] body)).
Proof.
  intros Hcr Hsp Hhs. rewrite serialize_request_wire. apply read_request_wire; [done|done|].
  unfold wire_headers. destruct body as [body|]; [|done]. case_match; [|done].
  apply Forall_app. split; [done|]. repeat constructor; apply clean_content_length.
Qed.

Section UpgradeProofs.
Context `{HttpLaws}.

(** What one parse of all the bytes says of the upgrade. *)
Definition upgrade_spec (u : UpgradedStream) (whole : bytes) (h : ParsedHead) (code : Z) (r : Upgrade) : Prop :=
  if code =? 101
  then exists u' q, r = Up_Ok u' q /\ us_id u' = us_id u /\ us_eof u' = us_eof u /\
         unread u' ++ queued_bytes q = drop (ph_len h) whole
  else r = Up_Err (UpgradeFailed code (take (ph_len h) whole)) true.

Lemma queued_chunks chunks : queued_bytes (Ok <$> chunks) = concat chunks.
Proof.
  induction chunks as [|c chunks IH]; [done|].
  change (queued_bytes (Ok <$> c :: chunks)) with (c ++ queued_bytes (Ok <$> chunks)). by rewrite IH.
Qed.

Lemma prepend_unread u b : unread u = [] -> unread (prepend_read u b) = b /\ us_id (prepend_read u b) = us_id u /\
  us_eof (prepend_read u b) = us_eof u.
Proof. intros Hu. unfold prepend_read. destruct b; [done|]. cbn. by rewrite Hu, app_nil_r. Qed.

Lemma upgrade_loop_unfold u head_buf q tx :
  upgrade_loop u head_buf q tx =
  match try_parse_response_head head_buf with
  | Err e => Up_Err e false
  | Ok (Some (status, head_len)) =>
      if negb (status =? 101) then Up_Err (UpgradeFailed status (take head_len head_buf)) true
      else if (head_len <? length head_buf)%nat
      then Up_Ok (prepend_read u (drop head_len head_buf)) q
      else Up_Ok u q
  | Ok None =>
      if (MAX_UPGRADE_HEAD <=? length head_buf)%nat
      then Up_Err (HttpParse "response head exceeded") true
      else match q with
           | [] => if tx then Up_Wait head_buf else Up_Err ConnectionClosed false
           | Ok chunk :: q => upgrade_loop u (head_buf ++ chunk) q tx
           | Err e :: _ => Up_Err e false
           end
  end.
Proof. by destruct q. Qed.

Lemma upgrade_loop_complete u tx h code q head_buf :
  unread u = [] -> http_parse head_buf = Ok (Some h) -> ph_code h = Some code ->
  upgrade_spec u (head_buf ++ queued_bytes q) h code (upgrade_loop u head_buf q tx).
Proof.
  intros Hu Hp Hcode. destruct (hp_complete _ _ Hp) as (Hlen & _ & _).
  rewrite upgrade_loop_unfold. unfold try_parse_response_head, upgrade_spec. rewrite Hp. cbn -[Nat.ltb]. rewrite Hcode. cbn -[Nat.ltb].
  destruct (code =? 101); cbn [negb]; [|by rewrite take_app_le].
  rewrite drop_app_le by done. destruct (Nat.ltb_spec (ph_len h) (length head_buf)).
  - destruct (prepend_unread u (drop (ph_len h) head_buf) Hu) as (Hun & Hid & Heof).
    exists (prepend_read u (drop (ph_len h) head_buf)), q. rewrite Hun. split_and!; done.
  - rewrite drop_ge by lia. exists u, q. split_and!; [done|done|done|by rewrite Hu].
Qed.

Lemma upgrade_loop_spec u tx h code chunks head_buf :
  unread u = [] -> http_parse (head_buf ++ concat chunks) = Ok (Some h) -> ph_code h = Some code ->
  (ph_len h <= MAX_UPGRADE_HEAD)%nat ->
  upgrade_spec u (head_buf ++ concat chunks) h code (upgrade_loop u head_buf (Ok <$> chunks) tx).
Proof.
  intros Hu. revert head_buf. induction chunks as [|c chunks IH]; intros head_buf Hp Hcode Hmax;
    destruct (hp_partial _ _ _ Hp) as [[h'|] Hr].
  1,3: destruct (hp_complete _ _ Hr) as (_ & _ & Hmore); rewrite Hmore in Hp; injection Hp as ->;
       rewrite <- (queued_chunks _); by apply upgrade_loop_complete.
  - cbn [concat] in Hp. rewrite app_nil_r in Hp. congruence.
  - assert (Hshort : (length head_buf < ph_len h)%nat).
    { destruct (hp_complete _ _ Hp) as (_ & Hhead & _).
      destruct (decide (length head_buf < ph_len h)%nat) as [|Hge]; [done|].
      rewrite take_app_le in Hhead by lia. destruct (hp_complete _ _ Hhead) as (_ & _ & Hmore).
      specialize (Hmore (drop (ph_len h) head_buf)). rewrite take_drop in Hmore. congruence. }
    rewrite upgrade_loop_unfold. unfold try_parse_response_head. rewrite Hr. cbn -[upgrade_loop MAX_UPGRADE_HEAD Nat.leb].
    rewrite (proj2 (Nat.leb_gt _ _)) by lia. cbn [concat] in *. rewrite app_assoc in *. by apply IH.
Qed.

(** An upgrade does not depend on how the response is cut into chunks.  When
    all the bytes that arrive contain a response head of at most 64 KiB, then
    however they are cut the upgrade finds that head: a 101 hands over a stream
    that reads exactly the bytes after the head, and any other status reports
    exactly the head and asks for the stream's close. *)
Theorem upgrade_ignores_chunking id chunks tx h code :
  http_parse (concat chunks) = Ok (Some h) -> ph_code h = Some code -> (ph_len h <= MAX_UPGRADE_HEAD)%nat ->
  if code =? 101
  then exists u q, upgrade id (Ok <$> chunks) tx = Up_Ok u q /\ us_id u = id /\ us_eof u = false /\
         unread u ++ queued_bytes q = drop (ph_len h) (concat chunks)
  else upgrade id (Ok <$> chunks) tx = Up_Err (UpgradeFailed code (take (ph_len h) (concat chunks))) true.
Proof. intros Hp Hc Hm. exact (upgrade_loop_spec (upgraded_new id []) tx h code chunks [] eq_refl Hp Hc Hm). Qed.
End UpgradeProofs.

Section WrongChannel.
Context `{Noise} `{Cbor SdkClientMessage} `{Cbor SdkServerMessage} `{HttpLaws}.

(** A refused upgrade can close a stream of another channel.  An upgrade
    whose channel was lost after the response arrived, and replaced by another
    caller, still reads the queued response; the close it then asks for goes to
    the channel that is current by then, where ids are handed out from 1 again.
    When a stream has the same id there, its enclave is told to close it, it
    leaves the table and its reader sees an end nobody asked for. *)
Theorem refused_upgrade_closes_another_stream (cur : World) id chunks h code s e ct st :
  http_parse (concat chunks) = Ok (Some h) -> ph_code h = Some code -> (ph_len h <= MAX_UPGRADE_HEAD)%nat ->
  code <> 101 ->
  t_mode (w_task cur) = M_Select -> w_cmds cur = [] ->
  t_streams (w_task cur) !! id = Some s -> w_ends cur !! s = Some e ->
  write_message (t_tx (w_task cur)) (encode (C_StreamClose id SdkBoth)) = Some (ct, st) ->
  exists w', run (close_on_current cur id (upgrade id (Ok <$> chunks) false)) [T_Command None] = Some w' /\
    w_sent w' = w_sent cur ++ [C_StreamClose id SdkBoth] /\
    t_streams (w_task w') !! id = None /\ w_ends w' !! s = Some (drop_sender e).
Proof.
  intros Hp Hc Hmax Hne Hm Hq Hs He Hw.
  assert (Hup : upgrade id (Ok <$> chunks) false = Up_Err (UpgradeFailed code (take (ph_len h) (concat chunks))) true).
  { pose proof (upgrade_loop_spec (upgraded_new id []) false h code chunks [] eq_refl Hp Hc Hmax) as Hspec.
    unfold upgrade_spec in Hspec. by rewrite (proj2 (Z.eqb_neq _ _) Hne) in Hspec. }
  rewrite Hup. unfold close_on_current, try_send, alive. rewrite Hm, Hq. cbn [negb app length].
  change (0 <? CMD_CAPACITY)%nat with true.
  set (w1 := set_cmds cur [Cmd_StreamClose id SdkBoth]).
  set (w2 := set_tx_state (set_cmds w1 []) st).
  assert (Hstep : step w1 (T_Command None) = Some (remove_stream (log_sent w2 (C_StreamClose id SdkBoth)) id)).
  { unfold step, task_step. change (t_mode (w_task w1)) with (t_mode (w_task cur)). rewrite Hm.
    change (w_cmds w1) with [Cmd_StreamClose id SdkBoth]. cbn [handle_command]. unfold transmit, encrypt_cbor.
    change (t_tx (w_task (set_cmds w1 []))) with (t_tx (w_task cur)). by rewrite Hw. }
  cbn [run]. rewrite Hstep. cbn [mbind option_bind]. eexists. split; [done|].
  unfold remove_stream. change (t_streams (w_task (log_sent w2 (C_StreamClose id SdkBoth)))) with (t_streams (w_task cur)).
  rewrite Hs. cbn. rewrite lookup_delete_eq, lookup_alter_eq, He. done.
Qed.
End WrongChannel.

(** ** Examples *)

Module HttpDemo.
(** A head is a status byte and a line end. *)
Definition toy_parse (b : bytes) : result (option ParsedHead) string :=
  match b with
  | c :: 13 :: 10 :: _ => Ok (Some (mkParsedHead 3 (Some c) []))
  | _ => Ok None
  end.
#[export] Instance toy_http : HttpLib := {| http_parse := toy_parse; from_utf8_lossy b := b |}.

#[export] Instance toy_http_laws : HttpLaws.
Proof.
  assert (Hshape : forall b h, toy_parse b = Ok (Some h) ->
    exists c rest, b = c :: 13 :: 10 :: rest /\ h = mkParsedHead 3 (Some c) []).
  { intros b h. unfold toy_parse. repeat case_match; try done. intros [= <-]. eauto. }
  split.
  - intros b h (c & rest & -> & ->)%Hshape. cbn. split; [lia|done].
  - intros b more h _. cbn. unfold toy_parse. repeat case_match; eauto.
Qed.

#[local] Existing Instances NoiseDemo.toy_noise TransportDemo.toy_client_cbor TransportDemo.toy_server_cbor.

(** The channel that replaced the lost one: another caller's stream has id 1. *)
Definition replaced : World := TransportDemo.after [U_Open 0 [9]; T_Command None].
End HttpDemo.

Module HttpWitness.
#[local] Existing Instances NoiseDemo.toy_noise TransportDemo.toy_client_cbor TransportDemo.toy_server_cbor
  HttpDemo.toy_http HttpDemo.toy_http_laws.

Lemma request_reads_back_witness :
  read_request (serialize_request Post (lit "/v1/run") [(lit "Host", lit "a.example")] (Some [1; 13; 10; 2]))
    = Some (mkReadRequest (lit "POST") (lit "/v1/run")
              [(lit "Host", lit "a.example"); (lit "Content-Length", lit "4")] [1; 13; 10; 2]).
Proof.
  apply (request_reads_back Post (lit "/v1/run") [(lit "Host", lit "a.example")] (Some [1; 13; 10; 2])).
  - by apply (bool_decide_unpack _); vm_compute.
  - by apply (bool_decide_unpack _); vm_compute.
  - repeat constructor; by apply (bool_decide_unpack _); vm_compute.
Defined.

Lemma upgrade_ignores_chunking_witness :
  exists u q, upgrade 4 (Ok <$> [[101]; [13; 10; 7]; [8]]) true = Up_Ok u q /\
    unread u ++ queued_bytes q = [7; 8].
Proof.
  pose proof (upgrade_ignores_chunking 4 [[101]; [13; 10; 7]; [8]] true (mkParsedHead 3 (Some 101) []) 101
    eq_refl eq_refl ltac:(apply Nat.leb_le; vm_compute; reflexivity)) as Hu.
  destruct Hu as (u & q & Hu & _ & _ & Hr). exists u, q. split; [exact Hu|exact Hr].
Defined.

Lemma refused_upgrade_closes_another_stream_witness :
  exists w', run (close_on_current HttpDemo.replaced 1 (upgrade 1 (Ok <$> [[40; 13; 10]]) false)) [T_Command None] = Some w' /\
    w_sent w' = [C_OpenStream 1 [9]; C_StreamClose 1 SdkBoth].
Proof.
  destruct (refused_upgrade_closes_another_stream HttpDemo.replaced 1 [[40; 13; 10]] (mkParsedHead 3 (Some 40) []) 40 0
    (TransportDemo.end0 [U_Open 0 [9]; T_Command None]) [1; 6; 1] (2 : @NoiseState NoiseDemo.toy_noise)) as (w' & Hr & Hs & _).
  - reflexivity.
  - reflexivity.
  - apply Nat.leb_le; vm_compute; reflexivity.
  - done.
  - vm_compute; reflexivity.
  - vm_compute; reflexivity.
  - vm_compute; reflexivity.
  - vm_compute; reflexivity.
  - vm_compute; reflexivity.
  - exists w'. split; [exact Hr|]. rewrite Hs. vm_compute. reflexivity.
Defined.
End HttpWitness.
