(* ===== verification/CliReproduce.v ===== *)
(** The command line's local side: its errors, the index of control keys
    ([enclavia-cli/src/error.rs], [keys.rs]), enclave-id resolution
    ([commands/resolve.rs]) and the local rebuild of an image
    ([commands/reproduce.rs]), with the staged-upgrade row of
    [enclavia-protocol/src/staging.rs].

    The builder, the sources [nix] fetches and [serde_json]'s text format are
    parameters.  Everything the backend reports is an argument. *)
From stdpp Require Import base gmap list strings.
From S2P Require Import Prelude Identity Signing Text Chain.
#[local] Open Scope Z_scope.

Inductive CliError : Type :=
| NotLoggedIn
| Unauthorized
| Conflict (body : string)
| Other (message : string).

Definition error_kind (e : CliError) : string :=
  match e with
  | NotLoggedIn => "not_logged_in"
  | Unauthorized => "unauthorized"
  | Conflict _ => "conflict"
  | Other _ => "error"
  end.

(** ** JSON values *)

(** [J_Num] is a number that is not a [u64]. *)
Inductive Json : Type :=
| J_Null
| J_Bool (b : bool)
| J_U64 (n : Z)
| J_Num
| J_Str (s : string)
| J_Arr (l : list Json)
| J_Obj (m : list (string * Json)).

Definition get_field (v : Json) (key : string) : option Json :=
  match v with
  | J_Obj m => snd <$> List.find (fun kv => bool_decide (kv.1 = key)) m
  | _ => None
  end.
Definition as_str (v : Json) : option string := match v with J_Str s => Some s | _ => None end.
Definition as_u64 (v : Json) : option Z := match v with J_U64 n => Some n | _ => None end.
Definition as_bool (v : Json) : option bool := match v with J_Bool b => Some b | _ => None end.
Definition is_null (v : Json) : bool := match v with J_Null => true | _ => false end.

(** A string or number field of a row. *)
Definition str_field (v : Json) (key : string) : option string := get_field v key ≫= as_str.
Definition u64_field (v : Json) (key : string) : option Z := get_field v key ≫= as_u64.
Definition bool_field (v : Json) (key : string) : bool := default false (get_field v key ≫= as_bool).

(** ** Staged upgrades *)

Inductive StagedUpgradeStatus : Type :=
| Building | Staged | Confirmed | Promoted | Revoked | Failed | Expired.

Record StagedUpgradeJson := mkStagedUpgrade {
  su_id : Z;
  su_enclave_id : Z;
  su_status : StagedUpgradeStatus;
  su_docker_image : str;
  su_image_digest : option string;
  su_pcrs : option PcrsHex;
  su_valid_from : option Z;
  su_upgrade_link_id : option Z;
  su_revocation_link_id : option Z;
  su_error_message : option string;
  su_builder_rev : option string;
  su_crates_rev : option string;
  su_synchronizer_pcrs : option (list PcrsHex);
  su_synchronizer_enabled : bool;
  su_upgrade_target : bool;
  su_created_at : Z;
}.

(** ** Control keys *)

Inductive KeyBackend : Type := Yubikey (serial : Z) (slot : string).

Record KeyEntry := mkKeyEntry { ke_public_key : string; ke_backend : KeyBackend }.

(** In the order of the names. *)
Record KeyIndex := mkKeyIndex { ki_version : Z; ki_keys : list (str * KeyEntry) }.

Definition INDEX_VERSION : Z := 1.
Definition index_default : KeyIndex := mkKeyIndex INDEX_VERSION [].

Definition name_char (c : Z) : bool := is_ascii_alphanumeric c || (c =? 46) || (c =? 95) || (c =? 45).

Definition validate_name (name : str) : result unit CliError :=
  let ok_len := negb (bool_decide (name = [])) && (str_len name <=? 64) in
  let ok_chars := forallb name_char name in
  let ok_lead := negb (starts_with name 46) && negb (starts_with name 45) in
  if ok_len && ok_chars && ok_lead then Ok tt else Err (Other "invalid key name").

(** The order of strings. *)
Fixpoint str_ltb (a b : str) : bool :=
  match a, b with
  | _, [] => false
  | [], _ :: _ => true
  | x :: a, y :: b => (x <? y) || (x =? y) && str_ltb a b
  end.

(** [BTreeMap::insert] of a name that is not there. *)
Definition insert_key (keys : list (str * KeyEntry)) (name : str) (e : KeyEntry) : list (str * KeyEntry) :=
  List.filter (fun kv => str_ltb kv.1 name) keys ++
  (name, e) :: List.filter (fun kv => negb (str_ltb kv.1 name)) keys.

Definition insert_new (i : KeyIndex) (name : str) (e : KeyEntry) : result KeyIndex CliError :=
  let? _ := validate_name name in
  if existsb (fun kv => bool_decide (kv.1 = name)) (ki_keys i)
  then Err (Other "a key with this name already exists")
  else Ok (mkKeyIndex (ki_version i) (insert_key (ki_keys i) name e)).

Section Keys.
Context `{P256} (sha256 : bytes -> bytes) (hex_encode : bytes -> string).
Context (base64_decode : string -> option bytes).

Definition decode_public_key (b64 : string) : result bytes CliError :=
  let? bytes := ok_or (base64_decode b64) (Other "invalid base64 public key") in
  if negb (length bytes =? 65)%nat then Err (Other "public key must be 65 bytes")
  else if negb (bool_decide (head bytes = Some 4)) then Err (Other "public key must be uncompressed")
  else
    let? _ := map_err (fun _ => Other "public key is not a valid P-256 point") (vk_from_sec1_bytes bytes) in
    Ok bytes.

Definition public_key_bytes (e : KeyEntry) : result bytes CliError := decode_public_key (ke_public_key e).

Definition fingerprint (public_key : bytes) : string :=
  "sha256:" +:+ hex_encode (take 8 (sha256 public_key)).

Definition find_by_public_key (i : KeyIndex) (public_key : bytes) : option (str * KeyEntry) :=
  List.find (fun kv => match public_key_bytes kv.2 with
                       | Ok bytes => bool_decide (bytes = public_key)
                       | Err _ => false
                       end) (ki_keys i).

(** [load_index_from], over the file's text: [None] is a missing file. *)
Definition load_index (file : result (option string) string) (parse : string -> result KeyIndex string)
    : result KeyIndex CliError :=
  let? data := map_err (fun _ => Other "reading the key index") file in
  match data with
  | None => Ok index_default
  | Some d =>
      let? index := map_err (fun _ => Other "parsing the key index") (parse d) in
      if negb (ki_version index =? INDEX_VERSION) then Err (Other "unsupported key index version")
      else Ok index
  end.
End Keys.

(** ** Enclave ids *)

Record EnclaveSummary := mkEnclaveSummary { es_id : str; es_name : option string }.

Definition match_prefix (all : list EnclaveSummary) (prefix : str) : result EnclaveSummary CliError :=
  match List.filter (fun e => bool_decide (prefix `prefix_of` es_id e)) all with
  | [] => Err (Other "no enclave matches")
  | [one] => Ok one
  | _ => Err (Other "prefix matches several enclaves")
  end.

(** [parse_uuid] is [Uuid::parse_str]; [listing] what the backend lists. *)
Definition resolve_enclave (parse_uuid : str -> option Z) (listing : result (list EnclaveSummary) CliError)
    (id_or_prefix : str) : result EnclaveSummary CliError :=
  if bool_decide (id_or_prefix = []) then Err (Other "enclave id cannot be empty")
  else match parse_uuid id_or_prefix with
       | Some _ => Ok (mkEnclaveSummary id_or_prefix None)
       | None => let? all := listing in match_prefix all id_or_prefix
       end.

(** ** The rebuild *)

Record PcrMismatch := mkPcrMismatch { pm_slot : string; pm_expected : string; pm_actual : string }.

Definition diff_pcrs (expected actual : PcrsHex) : list PcrMismatch :=
  let slot name e a := if bool_decide (e = a) then [] else [mkPcrMismatch name e a] in
  slot "PCR0" (hex0 expected) (hex0 actual) ++ slot "PCR1" (hex1 expected) (hex1 actual) ++
  slot "PCR2" (hex2 expected) (hex2 actual).

Definition pin_to_digest (canonical : str) (digest : string) : str :=
  if contains_char canonical 64 then canonical
  else match rsplit_once 58 canonical with
       | Some (stem, _) => stem ++ [64] ++ lit digest
       | None => canonical ++ [64] ++ lit digest
       end.

Definition row_is_debug (enclave : Json) : bool := bool_decide (str_field enclave "mode" = Some "debug"%string).

Definition row_has_storage (enclave : Json) : bool :=
  match u64_field enclave "storage_size_bytes" with
  | Some _ => true
  | None => bool_decide (is_Some (get_field enclave "storage" ≫= fun s => u64_field s "size_bytes"))
  end.

Definition expected_pcrs (enclave : Json) : result PcrsHex CliError :=
  match get_field enclave "pcrs" with
  | Some (J_Obj m) =>
      let take key := ok_or (str_field (J_Obj m) key) (Other "PCRs object is missing a slot") in
      let? p0 := take "PCR0"%string in
      let? p1 := take "PCR1"%string in
      let? p2 := take "PCR2"%string in
      Ok (mkPcrsHex p0 p1 p2)
  | _ => Err (Other "enclave has no recorded PCRs")
  end.

Record ReproduceInputs := mkReproduceInputs {
  ri_image_digest : string;
  ri_expected : PcrsHex;
  ri_docker_image : str;
  ri_builder_rev : option string;
  ri_crates_rev : option string;
  ri_synchronizer_pcrs : option Json;
  ri_synchronizer_enabled : bool;
  ri_upgrade_target : bool;
}.

Definition from_enclave_row (enclave : Json) : result ReproduceInputs CliError :=
  let? image_digest := ok_or (str_field enclave "image_digest") (Other "enclave has no recorded image_digest") in
  let? expected := expected_pcrs enclave in
  let? docker_image := ok_or (str_field enclave "docker_image") (Other "enclave is missing docker_image") in
  Ok (mkReproduceInputs image_digest expected (lit docker_image) (str_field enclave "builder_rev")
        (str_field enclave "crates_rev")
        (match get_field enclave "synchronizer_pcrs" with
         | Some v => if is_null v then None else Some v
         | None => None
         end)
        (bool_field enclave "synchronizer_enabled") (bool_field enclave "upgrade_target")).

(** How [PcrsHex] is written. *)
Definition pcrs_to_value (p : PcrsHex) : Json :=
  J_Obj [("PCR0", J_Str (hex0 p)); ("PCR1", J_Str (hex1 p)); ("PCR2", J_Str (hex2 p))]%string.

Definition from_staged_upgrade (u : StagedUpgradeJson) : result ReproduceInputs CliError :=
  let? image_digest := ok_or (su_image_digest u) (Other "upgrade has no recorded image_digest") in
  let? pcrs := ok_or (su_pcrs u) (Other "upgrade has no recorded PCRs") in
  match su_builder_rev u, su_crates_rev u with
  | Some _, Some _ =>
      Ok (mkReproduceInputs image_digest pcrs (su_docker_image u) (su_builder_rev u) (su_crates_rev u)
            ((fun l => J_Arr (pcrs_to_value <$> l)) <$> su_synchronizer_pcrs u)
            (su_synchronizer_enabled u) (su_upgrade_target u))
  | _, _ => Err (Other "upgrade was staged before provenance was recorded")
  end.

Record ReproduceResult := mkReproduceResult {
  rr_enclave_id : str;
  rr_image_digest : string;
  rr_expected : PcrsHex;
  rr_actual : PcrsHex;
  rr_mismatches : list PcrMismatch;
  rr_builder_rev : option string;
  rr_crates_rev : option string;
  rr_egress_allowlist : Json;
  rr_synchronizer_pcrs : option Json;
  rr_synchronizer_enabled : bool;
  rr_upgrade_target : bool;
  rr_built_debug : bool;
  rr_built_storage : bool;
}.

Definition is_reproducible (r : ReproduceResult) : bool := bool_decide (rr_mismatches r = []).

(** One run of the builder: its arguments, the allowlist file it is given and
    the two source overrides. *)
Record BuilderCall := mkBuilderCall {
  bc_args : list str;
  bc_egress : Json;
  bc_builder_flake : option str;
  bc_enclavia_flake : option str;
}.

(** Collecting into a [Result] of a [Vec]. *)
Fixpoint map_result {A B E} (f : A -> result B E) (l : list A) : result (list B) E :=
  match l with
  | [] => Ok []
  | x :: l => let? y := f x in let? ys := map_result f l in Ok (y :: ys)
  end.

Section Reproduce.
(** The builder, which prints on standard output; the store path of a source at
    a revision; JSON text; and what the build result's parser accepts. *)
Context (builder : BuilderCall -> result str CliError).
Context (fetch_flake_source : string -> string -> result str CliError).
Context (json_to_string : Json -> str) (build_result : str -> option PcrsHex).
Context (pcrs_from_value : Json -> result PcrsHex string).
Context (b64_encode : bytes -> str) (output_dir : str).

Definition anti_rollback_setting (r : ReproduceResult) : result AntiRollbackSetting CliError :=
  match rr_synchronizer_pcrs r with
  | None => Ok ar_disabled
  | Some recorded =>
      let parsed := match recorded with
                    | J_Arr l => map_result pcrs_from_value l
                    | v => let? p := pcrs_from_value v in Ok [p]
                    end in
      let? pcrs := map_err (fun _ => Other "recorded synchronizer PCRs do not parse") parsed in
      Ok (mkAntiRollback (rr_built_storage r && rr_synchronizer_enabled r) (rr_upgrade_target r)
            (rr_built_debug r) pcrs)
  end.

Definition synchronizer_args (pcrs : option Json) (enabled upgrade_target : bool)
    : result (list str) CliError :=
  match pcrs, enabled || upgrade_target with
  | None, false => Ok []
  | None, true => Err (Other "synchronizer flags without synchronizer_pcrs")
  | Some l, _ =>
      Ok ([lit "--synchronizer-pcrs"; json_to_string l] ++
          (if enabled then [lit "--synchronizer-enabled"] else []) ++
          (if upgrade_target then [lit "--upgrade-target"] else []))
  end.

Definition control_pubkey_args (enclave : Json) : list str :=
  match get_field enclave "control_public_key" with
  | Some (J_Str b64) => [lit "--control-pubkey"; lit b64]
  | Some (J_Arr arr) =>
      let bytes := omap (fun v => (fun n => n mod 256) <$> as_u64 v) arr in
      match bytes with [] => [] | _ => [lit "--control-pubkey"; b64_encode bytes] end
  | _ => []
  end.

Definition empty_egress : Json :=
  J_Obj [("version", J_U64 1); ("resolvers", J_Arr []); ("egress", J_Arr [])]%string.

(** [str::lines]. *)
Definition lines (s : str) : list str :=
  let ls := split_on 10 s in
  let ls := match last ls with Some [] => removelast ls | _ => ls end in
  (fun l => match last l with Some 13 => removelast l | _ => l end) <$> ls.

Definition parse_builder_output (stdout : str) : result PcrsHex string :=
  let trimmed := trim stdout in
  if bool_decide (trimmed = []) then Err "builder produced no stdout"%string
  else match build_result trimmed with
       | Some pcrs => Ok pcrs
       | None =>
           ok_or (head (omap (fun line => build_result (trim line)) (reverse (lines trimmed))))
             "no JSON line matched"%string
       end.

Definition run_builder (enclave_id : str) (pinned_image : str) (enclave : Json) (image_digest : string)
    (egress_allowlist : Json) (builder_rev crates_rev : option string) (synchronizer_pcrs : option Json)
    (synchronizer_enabled upgrade_target : bool) : result PcrsHex CliError :=
  let egress := if is_null egress_allowlist then empty_egress else egress_allowlist in
  let? sync := synchronizer_args synchronizer_pcrs synchronizer_enabled upgrade_target in
  let args :=
    [lit "build"; lit "--image"; pinned_image; lit "--output-dir"; output_dir;
     lit "--enclave-id"; enclave_id; lit "--egress-allowlist"; output_dir ++ lit "/egress.json"]
    ++ sync
    ++ [lit "--image-digest"; lit image_digest]
    ++ (match u64_field enclave "container_port" with
        | Some port => [lit "--container-port"; print_uint port] | None => [] end)
    ++ (if row_is_debug enclave then [lit "--debug"] else [])
    ++ (if row_has_storage enclave then [lit "--storage"] else [])
    ++ control_pubkey_args enclave
    ++ (match u64_field enclave "min_upgrade_delay_secs" with
        | Some delay => if 0 <? delay then [lit "--min-upgrade-delay-secs"; print_uint delay] else []
        | None => []
        end) in
  let fetch label rev := match rev with
                         | Some rev => let? path := fetch_flake_source label rev in Ok (Some path)
                         | None => Ok None
                         end in
  let? builder_flake := fetch "builder"%string builder_rev in
  let? enclavia_flake := fetch "enclavia"%string crates_rev in
  let? stdout := builder (mkBuilderCall args egress builder_flake enclavia_flake) in
  map_err (fun _ => Other "couldn't parse builder output") (parse_builder_output (trim stdout)).

Definition run_reproduce (enclave_id : str) (enclave : Json) (inputs : ReproduceInputs)
    : result ReproduceResult CliError :=
  let pinned_image := pin_to_digest (ri_docker_image inputs) (ri_image_digest inputs) in
  let egress := default J_Null (get_field enclave "egress_allowlist") in
  let? actual := run_builder enclave_id pinned_image enclave (ri_image_digest inputs) egress
                   (ri_builder_rev inputs) (ri_crates_rev inputs) (ri_synchronizer_pcrs inputs)
                   (ri_synchronizer_enabled inputs) (ri_upgrade_target inputs) in
  Ok (mkReproduceResult enclave_id (ri_image_digest inputs) (ri_expected inputs) actual
        (diff_pcrs (ri_expected inputs) actual) (ri_builder_rev inputs) (ri_crates_rev inputs) egress
        (ri_synchronizer_pcrs inputs)
        (ri_synchronizer_enabled inputs) (ri_upgrade_target inputs)
        (row_is_debug enclave) (row_has_storage enclave)).

(** The rebuild of the running version and of a staged one, over the backend's
    answers. *)
Definition reproduce (parse_uuid : str -> option Z) (listing : result (list EnclaveSummary) CliError)
    (row : result Json CliError) (id_or_prefix : str) : result ReproduceResult CliError :=
  let? summary := resolve_enclave parse_uuid listing id_or_prefix in
  let? enclave := row in
  let? inputs := from_enclave_row enclave in
  run_reproduce (es_id summary) enclave inputs.

Definition reproduce_upgrade (parse_uuid : str -> option Z) (listing : result (list EnclaveSummary) CliError)
    (row : result Json CliError) (staged : result StagedUpgradeJson CliError) (id_or_prefix : str)
    : result ReproduceResult CliError :=
  let? summary := resolve_enclave parse_uuid listing id_or_prefix in
  let? enclave := row in
  let? upgrade := staged in
  let? inputs := from_staged_upgrade upgrade in
  run_reproduce (es_id summary) enclave inputs.
End Reproduce.
