(* ===== verification/CliUpgrade.v ===== *)
(** Upgrades from the command line ([enclavia-cli/src/commands/upgrade.rs], and
    the submissions of [signer.rs]).

    With self-hosted custody the backend prepares what the owner's key signs,
    and the backend is not trusted.  The checks before a signature are the
    functions here; the two flows that sign return, with their result, the trace
    of what was signed and submitted.  Every answer of the backend, at each call,
    is a field of [Backend]; times are nanoseconds. *)
From stdpp Require Import base gmap list strings sorting.
From S2P Require Import Prelude Identity Signing Attestation Text Chain Server Sdk CliReproduce.
#[local] Open Scope Z_scope.

(** ** The chain as the backend reports it *)

Inductive VerificationOk : Type := V_Append (sequence : Z) | V_Dedup.

Inductive DecodedPayload : Type :=
| DP_Boot (p : BootPayload)
| DP_Upgrade (p : UpgradePayload)
| DP_Revocation (p : RevocationPayload).

Record VerifiedLink := mkVerifiedLink {
  vl_id : option Z;
  vl_sequence : option Z;
  vl_kind : ChainLinkKind;
  vl_created_at : option Z;
  vl_payload : option DecodedPayload;
  vl_attestation_bytes : nat;
  vl_signature_bytes : option nat;
  vl_validation : result VerificationOk ChainValidationError;
}.

Record ChainSummary := mkChainSummary {
  cs_enclave_id : str;
  cs_upgradable : bool;
  cs_image_digest : string;
  cs_pcrs : PcrsHex;
  cs_control_public_key : option str;
  cs_debug_mode : bool;
  cs_tip_matches_row : bool;
  cs_tip_identity : option PinIdentity;
  cs_links : list VerifiedLink;
}.

Definition summary_is_verified (s : ChainSummary) : bool :=
  cs_tip_matches_row s && forallb (fun l => is_ok (vl_validation l)) (cs_links s).

(** The order of [Option<i64>]. *)
Definition sequence_le (a b : ChainLinkJson) : Prop :=
  match clj_sequence a, clj_sequence b with
  | None, _ => True
  | Some _, None => False
  | Some x, Some y => x <= y
  end.
#[global] Instance sequence_le_dec a b : Decision (sequence_le a b).
Proof. unfold sequence_le. repeat case_match; apply _. Defined.

Fixpoint numbered_from (i : Z) (links : list ChainLinkJson) : bool :=
  match links with
  | [] => true
  | l :: links => bool_decide (clj_sequence l = Some i) && numbered_from (i + 1) links
  end.

Definition in_sequence_order (links : list ChainLinkJson) : result (list ChainLinkJson) CliError :=
  let links := merge_sort sequence_le links in
  if numbered_from 0 links then Ok links
  else Err (Other "the backend's upgrade chain is not numbered 0 to n").

Definition attestation_debug_mode (enclave : Json) (debug_enclave : bool) : result bool CliError :=
  match str_field enclave "mode" with
  | Some mode =>
      if bool_decide (mode = "debug"%string)
      then if debug_enclave then Ok true else Err (Other "the backend reports a debug enclave")
      else if bool_decide (mode = "production"%string)
      then if debug_enclave then Err (Other "the backend reports a production enclave") else Ok false
      else Err (Other "unknown enclave mode")
  | None => Err (Other "unknown enclave mode")
  end.

(** ** Custody *)

Inductive ControlKeyMode : Type := Managed | SelfHosted.

Definition control_key_mode (enclave : Json) : ControlKeyMode :=
  if bool_decide (str_field enclave "control_key_mode" = Some "self_hosted"%string) then SelfHosted else Managed.

Inductive TargetPcrs : Type := Expected (pcrs : PcrsHex) | Reproduce.

Record UpgradeTarget := mkUpgradeTarget {
  ut_pcrs : TargetPcrs;
  ut_image_digest : option string;
  ut_accept_synchronizer_change : bool;
  ut_debug_enclave : bool;
}.

Definition is_ascii_hexdigit (a : Ascii.ascii) : bool :=
  let n := Z.of_N (Ascii.N_of_ascii a) in
  is_digit n || (65 <=? n) && (n <=? 70) || (97 <=? n) && (n <=? 102).

Definition sha384_hex (s : string) : bool :=
  (String.length s =? 96)%nat && forallb is_ascii_hexdigit (String.list_ascii_of_string s).

(** [parse_expected_pcrs]; [text] is the argument itself or the file it names. *)
Definition parse_expected_pcrs (arg : str) (read_file : str -> option str) (from_str : str -> option PcrsHex)
    : result PcrsHex CliError :=
  let trimmed := trim arg in
  let? json := if starts_with trimmed 123 then Ok trimmed
               else ok_or (read_file trimmed) (Other "cannot read --expect-pcrs file") in
  let? pcrs := ok_or (from_str json) (Other "--expect-pcrs is not a PCR object") in
  if forallb sha384_hex [hex0 pcrs; hex1 pcrs; hex2 pcrs] then Ok pcrs
  else Err (Other "--expect-pcrs is not 96 hex characters").

Definition check_target_role (running target : AntiRollbackSetting) : result unit CliError :=
  map_err (fun _ => Other "refusing to sign: anti-rollback setting") (check_successor running target).

Definition synchronizer_diff (running target : list PcrsHex) : list PcrsHex * list PcrsHex :=
  let missing_from set p := negb (existsb (fun q => same_as q p) set) in
  (List.filter (missing_from target) running, List.filter (missing_from running) target).

Definition check_synchronizer_change (running : AntiRollbackSetting) (target : list PcrsHex) (accept : bool)
    : result unit CliError :=
  if negb (ar_enabled running) then Ok tt
  else match synchronizer_diff (ar_synchronizer_pcrs running) target with
       | ([], []) => Ok tt
       | _ => if accept then Ok tt else Err (Other "refusing to sign: this upgrade is a synchronizer rotation")
       end.

(** ** What a prepared upgrade is checked against *)

Definition UPGRADE_DELAY_DEFAULT : Z := seconds (7 * 86400).
Definition UPGRADE_WINDOW_MAX : Z := seconds (30 * 86400).
Definition VALID_FROM_SLACK : Z := seconds 60.

Record UpgradeExpectation := mkExpectation {
  ue_enclave_id : Z;
  ue_current : PinIdentity;
  ue_target : PcrsHex;
  ue_image_digest : string;
  ue_requested_valid_from : option Z;
  ue_min_upgrade_delay_secs : Z;
  ue_now : Z;
}.

(** [chrono]: the longest duration in seconds and the last instant. *)
Definition MAX_DURATION_SECS : Z := (2 ^ 63 - 1) / 1000.
Definition MAX_UTC : Z := seconds 8210266876799 + 999999999.

(** [now] plus a delay in seconds, when both are representable. *)
Definition delay_floor (now delay : Z) : option Z :=
  if (2 ^ 63 <=? delay) || (MAX_DURATION_SECS <? delay) then None
  else if MAX_UTC <? now + seconds delay then None
  else Some (now + seconds delay).

Record RunningVersion := mkRunningVersion { rv_identity : PinIdentity; rv_anti_rollback : AntiRollbackSetting }.

(** The setting of the last verified boot of the tip's image. *)
Definition running_anti_rollback (links : list VerifiedLink) (tip : PcrsHex) : result AntiRollbackSetting CliError :=
  let setting l := if negb (is_ok (vl_validation l)) then None
                   else match vl_payload l with
                        | Some (DP_Boot p) => if same_as (bp_pcrs p) tip then Some (bp_anti_rollback p) else None
                        | _ => None
                        end in
  ok_or (head (omap setting (reverse links))) (Other "no verified boot link of the running image").

Definition min_upgrade_delay_secs (enclave : Json) : result Z CliError :=
  match get_field enclave "min_upgrade_delay_secs" with
  | Some v => ok_or (as_u64 v) (Other "malformed min_upgrade_delay_secs")
  | None => Err (Other "no min_upgrade_delay_secs")
  end.

(** [str::contains]. *)
Fixpoint str_contains (needle s : string) : bool :=
  String.prefix needle s || match s with EmptyString => false | String _ s => str_contains needle s end.

Definition is_stale_nonce (body : string) : bool :=
  str_contains "control nonce in the submitted command is stale" body || str_contains "stale nonce" body.

(** ** What crosses to the backend *)

Record ConfirmPrepareResponse := mkConfirmPrepare {
  cp_payload : bytes;
  cp_nonce : bytes;
  cp_rekey : option RekeyParams;
  cp_valid_from : string;
}.

Record RevokePrepareResponse := mkRevokePrepare {
  vp_payload : bytes;
  vp_nonce : bytes;
  vp_rollback : bool;
}.

Record ConfirmSubmitRequest := mkSubmit { sb_command : bytes; sb_envelope_signature : bytes }.

(** A signing key. *)
Record ControlSigner := mkControlSigner { sg_public_key : bytes; sg_sign : bytes -> result bytes CliError }.

(** A message handed to a key, and a submission. *)
Inductive Action : Type := A_Sign (signer : ControlSigner) (msg : bytes) | A_Submit (req : ConfirmSubmitRequest).

(** A computation that acts. *)
Definition act (A : Type) : Type := list Action * result A CliError.
Definition act_ret {A} (r : result A CliError) : act A := ([], r).
Definition act_bind {A B} (m : act A) (k : A -> act B) : act B :=
  match m with
  | (t, Ok a) => let '(t', r) := k a in (t ++ t', r)
  | (t, Err e) => (t, Err e)
  end.

Notation "'let!' x ':=' m 'in' k" := (act_bind m (fun x => k))
  (at level 10, x binder, m at level 200, k at level 200).

Definition act_sign (s : ControlSigner) (msg : bytes) : act bytes := ([A_Sign s msg], sg_sign s msg).
Definition act_submit {A} (req : ConfirmSubmitRequest) (answer : ConfirmSubmitRequest -> result A CliError) : act A :=
  ([A_Submit req], answer req).

(** The backend's answers at each call, with the clock between them. *)
Record Backend := mkBackend {
  be_listing : result (list EnclaveSummary) CliError;
  be_row : result Json CliError;
  be_staged : result StagedUpgradeJson CliError;
  be_chain_row : result Json CliError;
  be_chain : result (list ChainLinkJson) CliError;
  be_chain_now : Z;
  be_rebuild_row : result Json CliError;
  be_rebuild_staged : result StagedUpgradeJson CliError;
  be_now : Z;
  be_prepare : nat -> result ConfirmPrepareResponse CliError;
  be_submit : nat -> ConfirmSubmitRequest -> result StagedUpgradeJson CliError;
  be_retry_now : Z;
  be_confirm : result StagedUpgradeJson CliError;
  be_revoke_prepare : nat -> result RevokePrepareResponse CliError;
  be_revoke_staged : nat -> result StagedUpgradeJson CliError;
  be_revoke_chain : nat -> result (list ChainLinkJson) CliError;
  be_revoke_now : nat -> Z;
  be_revoke : result StagedUpgradeJson CliError;
}.

Section Flows.
Context `{P256} `{NitroLib}.
Context `{Cbor BootPayload} `{Cbor UpgradePayload} `{Cbor RevocationPayload} `{Cbor ControlCommand}.
Context (sha256 : bytes -> bytes).
Context (hex_encode : bytes -> string) (hex_decode : string -> option bytes).
Context (base64_decode : string -> option bytes) (b64_encode : bytes -> str).
Context (skip_chain_compiled : bool).
Context (parse_uuid : str -> option Z) (row_from_value : Json -> result EnclaveChainRow string).
(** The builder and what it needs ([CliReproduce]). *)
Context (builder : BuilderCall -> result str CliError).
Context (fetch_flake_source : string -> string -> result str CliError).
Context (json_to_string : Json -> str) (build_result : str -> option PcrsHex).
Context (pcrs_from_value : Json -> result PcrsHex string) (output_dir : str).
(** The key index on disk, and the device that opens a key. *)
Context (load : result KeyIndex CliError) (open_signer : KeyEntry -> bytes -> result ControlSigner CliError).

Definition decode_payload (kind : ChainLinkKind) (bs : bytes) : option DecodedPayload :=
  match kind with
  | Boot => match decode_canonical (T := BootPayload) bs with Ok p => Some (DP_Boot p) | Err _ => None end
  | Upgrade => match decode_canonical (T := UpgradePayload) bs with Ok p => Some (DP_Upgrade p) | Err _ => None end
  | Revocation =>
      match decode_canonical (T := RevocationPayload) bs with Ok p => Some (DP_Revocation p) | Err _ => None end
  end.

Definition verified_link (wire : ChainLinkJson) (rl : RecordedLink)
    (outcome : result Outcome ChainValidationError) : VerifiedLink :=
  mkVerifiedLink (clj_id wire) (clj_sequence wire) (clj_kind wire) (clj_created_at wire)
    (decode_payload (cl_kind (rl_link rl)) (cl_payload (rl_link rl)))
    (length (cl_attestation (rl_link rl))) (length <$> cl_signature (rl_link rl))
    (match outcome with
     | Ok (Append sequence) => Ok (V_Append sequence)
     | Ok Dedup => Ok V_Dedup
     | Err e => Err e
     end).

Definition chain (b : Backend) (id : str) (debug_enclave : bool) : result ChainSummary CliError :=
  let? enclave := be_chain_row b in
  let? answered := be_chain b in
  let? wire_links := in_sequence_order answered in
  let? enclave_uuid := ok_or (parse_uuid id) (Other "enclave id is not a UUID") in
  let? debug_mode := attestation_debug_mode enclave debug_enclave in
  let? row := map_err (fun _ => Other "enclave row") (row_from_value enclave) in
  let? links := map_err (fun _ => Other "decoding chain link")
                  (map_result (into_recorded_link base64_decode) wire_links) in
  let walk := validate_chain sha256 hex_encode hex_decode skip_chain_compiled enclave_uuid (row_pcrs row)
                (row_image_digest row) (row_control_public_key row) (row_upgradable row) (be_chain_now b)
                debug_mode links in
  Ok (mkChainSummary id (row_upgradable row) (row_image_digest row) (row_pcrs row)
        (b64_encode <$> row_control_public_key row) debug_mode (cw_tip_matches_row walk)
        (cw_final_identity walk)
        (zip_with (fun wr o => verified_link wr.1 wr.2 o) (zip wire_links links) (cw_outcomes walk))).

Definition verified_running (b : Backend) (id : str) (debug_enclave : bool) : result RunningVersion CliError :=
  let? summary := chain b id debug_enclave in
  if negb (forallb (fun l => is_ok (vl_validation l)) (cs_links summary))
  then Err (Other "the enclave's upgrade chain does not verify")
  else if negb (cs_tip_matches_row summary)
  then Err (Other "the enclave's upgrade chain does not account for the state")
  else
    let? identity := ok_or (cs_tip_identity summary) (Other "no verified boot of the running image") in
    let? anti_rollback := running_anti_rollback (cs_links summary) (cs_pcrs summary) in
    Ok (mkRunningVersion identity anti_rollback).

(** ** Checks of a prepared payload *)

Definition checked_upgrade_window (payload : bytes) : result UpgradePayload CliError :=
  let? payload := map_err (fun _ => Other "prepared payload is not an UpgradePayload")
                    (decode_canonical (T := UpgradePayload) payload) in
  if negb (upgrade_window_is_valid (up_valid_from payload) (up_valid_until payload))
  then Err (Other "refusing to sign: window too short")
  else if UPGRADE_WINDOW_MAX <? up_valid_until payload - up_valid_from payload
  then Err (Other "refusing to sign: window too long")
  else Ok payload.

Definition check_upgrade_payload (payload : bytes) (expected : UpgradeExpectation) : result UpgradePayload CliError :=
  let refuse why : result UpgradePayload CliError := Err (Other ("refusing to sign the upgrade: " +:+ why)) in
  let? p := checked_upgrade_window payload in
  let image i := image_pcrs_hex hex_encode i in
  if negb (up_enclave_id p =? ue_enclave_id expected) then refuse "another enclave"%string
  else if negb (same_as (image (up_from p)) (image (ue_current expected))) then refuse "from PCRs"%string
  else if negb (bool_decide (pi_user (up_from p) = pi_user (ue_current expected))) then refuse "from user PCRs"%string
  else if negb (same_as (image (up_to p)) (ue_target expected)) then refuse "target PCRs"%string
  else if negb (bool_decide (pi_user (up_to p) = pi_user (up_from p))) then refuse "target user PCRs"%string
  else if negb (bool_decide (up_image_digest p = ue_image_digest expected)) then refuse "image digest"%string
  else
    let asked := default (ue_now expected + UPGRADE_DELAY_DEFAULT) (ue_requested_valid_from expected) in
    match delay_floor (ue_now expected) (ue_min_upgrade_delay_secs expected) with
    | None => refuse "minimum upgrade delay"%string
    | Some floor =>
        if up_valid_from p <? Z.max asked floor - VALID_FROM_SLACK then refuse "valid_from"%string
        else Ok p
    end.

Record RevocationTarget := mkRevocationTarget { rt_link_hash : bytes; rt_upgrade : UpgradePayload }.

Definition check_revocation_target (revocation_payload : bytes) (enclave_id : Z) (control_pubkey : bytes)
    (staged : StagedUpgradeJson) (chain : list ChainLink) (now : Z) : result RevocationTarget CliError :=
  let refuse why : result RevocationTarget CliError := Err (Other ("refusing to sign the revocation: " +:+ why)) in
  let? revocation := map_err (fun _ => Other "prepared payload is not a RevocationPayload")
                       (decode_canonical (T := RevocationPayload) revocation_payload) in
  if negb (rp_enclave_id revocation =? enclave_id) then refuse "another enclave"%string
  else if negb (bool_decide (su_upgrade_link_id staged = Some (rp_revokes revocation)))
  then refuse "a different chain entry"%string
  else match List.find (fun l => bool_decide (cl_id l = Some (rp_revokes revocation))) chain with
  | None => refuse "not on the chain"%string
  | Some link =>
      if negb (bool_decide (cl_kind link = Upgrade)) then refuse "not an upgrade link"%string
      else
        let? verifying := map_err (fun _ => Other "control public key does not decode")
                            (vk_from_sec1_bytes control_pubkey) in
        let signature_ok :=
          match cl_signature link with
          | Some sig => is_ok (verify_control_signature verifying Dom_UpgradePayload (cl_payload link) sig)
          | None => false
          end in
        if negb signature_ok then refuse "not signed by your control key"%string
        else
          let link_hash := upgrade_link_hash sha256 (cl_payload link) in
          if negb (bool_decide (link_hash = rp_revokes_link revocation)) then refuse "a different link"%string
          else
            let? upgrade := map_err (fun _ => Other "upgrade link payload does not decode")
                              (decode_canonical (T := UpgradePayload) (cl_payload link)) in
            if negb (up_enclave_id upgrade =? enclave_id) then refuse "link of another enclave"%string
            else
              let to_image := image_pcrs_hex hex_encode (up_to upgrade) in
              let pcrs_match := match su_pcrs staged with Some p => same_as p to_image | None => false end in
              if negb pcrs_match || negb (bool_decide (su_image_digest staged = Some (up_image_digest upgrade)))
                 || negb (bool_decide (su_valid_from staged = Some (up_valid_from upgrade)))
              then refuse "does not match the staged upgrade"%string
              else if up_valid_from upgrade <=? now then refuse "already active"%string
              else Ok (mkRevocationTarget link_hash upgrade)
  end.

(** ** Signing *)

Definition sign_confirm_submission (signer : ControlSigner) (prep : ConfirmPrepareResponse) : act ConfirmSubmitRequest :=
  let! inner := act_sign signer (signed_message Dom_UpgradePayload (cp_payload prep)) in
  let command := encode_prepare_upgrade (cp_payload prep) inner (cp_rekey prep) (cp_nonce prep) in
  let! envelope := act_sign signer (signed_message Dom_ControlCommand command) in
  act_ret (Ok (mkSubmit command envelope)).

Definition sign_revoke_submission (signer : ControlSigner) (prep : RevokePrepareResponse) : act ConfirmSubmitRequest :=
  let! inner := act_sign signer (signed_message Dom_RevocationPayload (vp_payload prep)) in
  let command := encode_revoke_upgrade (vp_payload prep) inner (vp_rollback prep) (vp_nonce prep) in
  let! envelope := act_sign signer (signed_message Dom_ControlCommand command) in
  act_ret (Ok (mkSubmit command envelope)).

Definition signer_for_entry (e : KeyEntry) : result ControlSigner CliError :=
  let? public_key := public_key_bytes base64_decode e in
  open_signer e public_key.

Definition row_public_key (enclave : Json) : result bytes CliError :=
  let? b64 := ok_or (str_field enclave "control_public_key") (Other "enclave has no control_public_key") in
  decode_public_key base64_decode b64.

Definition signer_for_enclave (enclave : Json) : result ControlSigner CliError :=
  let? pubkey := row_public_key enclave in
  let? index := load in
  let? found := ok_or (find_by_public_key base64_decode index pubkey) (Other "no local key matches") in
  signer_for_entry found.2.

(** ** The flows *)

(** The digest the target is built from. *)
Definition expected_digest (target : UpgradeTarget) (staged : StagedUpgradeJson) : result string CliError :=
  match ut_image_digest target, su_image_digest staged with
  | Some want, Some have => if bool_decide (want = have) then Ok want else Err (Other "built from another image")
  | Some want, None => Ok want
  | None, Some have => Ok have
  | None, None => Err (Other "no image digest yet")
  end.

(** The measurements the target must have. *)
Definition expected_target (b : Backend) (enclave_id : str) (target : UpgradeTarget) (staged : StagedUpgradeJson)
    (running : AntiRollbackSetting) : result PcrsHex CliError :=
  match ut_pcrs target with
  | Expected pcrs =>
      let? _ := check_synchronizer_change running (default [] (su_synchronizer_pcrs staged))
                  (ut_accept_synchronizer_change target) in
      Ok pcrs
  | Reproduce =>
      let? r := reproduce_upgrade builder fetch_flake_source json_to_string build_result b64_encode output_dir
                  parse_uuid (be_listing b) (be_rebuild_row b) (be_rebuild_staged b) enclave_id in
      if negb (is_reproducible r) then Err (Other "the local rebuild does not reproduce the PCRs")
      else
        let? target_setting := anti_rollback_setting pcrs_from_value r in
        let? _ := check_target_role running target_setting in
        let? _ := check_synchronizer_change running (ar_synchronizer_pcrs target_setting)
                    (ut_accept_synchronizer_change target) in
        Ok (rr_actual r)
  end.

Definition upgrade_expectation (b : Backend) (enclave : Json) (enclave_id : str) (valid_from : option Z)
    (target : UpgradeTarget) : result UpgradeExpectation CliError :=
  let? enclave_uuid := ok_or (parse_uuid enclave_id) (Other "invalid enclave id") in
  let? staged := be_staged b in
  let? image_digest := expected_digest target staged in
  let? running := verified_running b enclave_id (ut_debug_enclave target) in
  let? target_pcrs := expected_target b enclave_id target staged (rv_anti_rollback running) in
  let? delay := min_upgrade_delay_secs enclave in
  Ok (mkExpectation enclave_uuid (rv_identity running) target_pcrs image_digest valid_from delay (be_now b)).

Definition set_now (e : UpgradeExpectation) (now : Z) : UpgradeExpectation :=
  mkExpectation (ue_enclave_id e) (ue_current e) (ue_target e) (ue_image_digest e) (ue_requested_valid_from e)
    (ue_min_upgrade_delay_secs e) now.

(** One prepare, check, sign and submit is tried again after a stale nonce. *)
Definition retry_stale {A} (first : act A) (again : act A) : act A :=
  match first with
  | (t, Err (Conflict body)) =>
      if is_stale_nonce body then let '(t', r) := again in (t ++ t', r) else (t, Err (Conflict body))
  | other => other
  end.

Definition confirm_self_hosted (b : Backend) (enclave : Json) (enclave_id : str) (valid_from : option Z)
    (target : UpgradeTarget) : act StagedUpgradeJson :=
  let! expected := act_ret (upgrade_expectation b enclave enclave_id valid_from target) in
  let! prep := act_ret (be_prepare b 0) in
  let! _ := act_ret (check_upgrade_payload (cp_payload prep) expected) in
  let! signer := act_ret (signer_for_enclave enclave) in
  let! submission := sign_confirm_submission signer prep in
  retry_stale
    (act_submit submission (be_submit b 0))
    (let! prep := act_ret (be_prepare b 1) in
     let! _ := act_ret (check_upgrade_payload (cp_payload prep) (set_now expected (be_retry_now b))) in
     let! submission := sign_confirm_submission signer prep in
     act_submit submission (be_submit b 1)).

Definition confirm_upgrade (b : Backend) (enclave_id : str) (valid_from : option Z) (target : option UpgradeTarget)
    : act StagedUpgradeJson :=
  let! enclave := act_ret (be_row b) in
  match control_key_mode enclave with
  | SelfHosted =>
      let! target := act_ret (ok_or target (Other "this enclave uses self-hosted custody")) in
      confirm_self_hosted b enclave enclave_id valid_from target
  | Managed =>
      match target with
      | Some _ => act_ret (Err (Other "only apply to self-hosted custody"))
      | None => act_ret (be_confirm b)
      end
  end.

Definition prepare_checked_revocation (b : Backend) (n : nat) (enclave_uuid : Z) (control_pubkey : bytes)
    : result RevokePrepareResponse CliError :=
  let? prep := be_revoke_prepare b n in
  let? staged := be_revoke_staged b n in
  let? wire := be_revoke_chain b n in
  let? chain := map_err (fun _ => Other "upgrade chain link does not decode")
                  (map_result (into_chain_link base64_decode) wire) in
  let? _ := check_revocation_target (vp_payload prep) enclave_uuid control_pubkey staged chain (be_revoke_now b n) in
  Ok prep.

Definition revoke_self_hosted (b : Backend) (enclave : Json) (enclave_id : str) : act StagedUpgradeJson :=
  let! signer := act_ret (signer_for_enclave enclave) in
  let! control_pubkey := act_ret (row_public_key enclave) in
  let! enclave_uuid := act_ret (ok_or (parse_uuid enclave_id) (Other "invalid enclave id")) in
  let! prep := act_ret (prepare_checked_revocation b 0 enclave_uuid control_pubkey) in
  let! submission := sign_revoke_submission signer prep in
  retry_stale
    (act_submit submission (be_submit b 0))
    (let! prep := act_ret (prepare_checked_revocation b 1 enclave_uuid control_pubkey) in
     let! submission := sign_revoke_submission signer prep in
     act_submit submission (be_submit b 1)).

Definition revoke_upgrade (b : Backend) (enclave_id : str) : act StagedUpgradeJson :=
  let! enclave := act_ret (be_row b) in
  match control_key_mode enclave with
  | SelfHosted => revoke_self_hosted b enclave enclave_id
  | Managed => act_ret (be_revoke b)
  end.
End Flows.
