(* ===== verification/CliProofs.v ===== *)
(** What the owner's control key signs from the command line.

    The backend that prepares a self-hosted upgrade or revocation is not
    trusted, so the theorems are about every sequence of its answers: each
    message handed to the signing key is the upgrade the owner asked for, or
    cancels the upgrade the owner named; and, when the key signs nothing else,
    the synchronizer moves the enclave's pin nowhere but to the owner's target.
    One theorem is about the rebuild, which trusts an image reference of the
    backend. *)
From stdpp Require Import base gmap list strings sorting.
From S2P Require Import Prelude Identity Signing Attestation StateMachine Text Chain ChainProofs Wire Server Sdk CliReproduce CliUpgrade.
#[local] Open Scope Z_scope.

(** ** Traces *)

Definition signs {A} (m : act A) (s : ControlSigner) (msg : bytes) : Prop := A_Sign s msg ∈ m.1.

Lemma signs_ret {A} (r : result A CliError) s msg : signs (act_ret r) s msg -> False.
Proof. unfold signs. cbn. by intros ?%elem_of_nil. Qed.

Lemma signs_bind {A B} (m : act A) (k : A -> act B) s msg :
  signs (let! x := m in k x) s msg -> signs m s msg \/ exists a, m.2 = Ok a /\ signs (k a) s msg.
Proof.
  unfold signs, act_bind. destruct m as [t [a|e]]; cbn [fst snd]; [|auto].
  destruct (k a) as [t' r] eqn:E. cbn [fst]. intros [?|?]%elem_of_app; [auto|].
  right. exists a. by rewrite E.
Qed.

Lemma signs_ret_bind {A B} (r : result A CliError) (k : A -> act B) s msg :
  signs (let! x := act_ret r in k x) s msg -> exists a, r = Ok a /\ signs (k a) s msg.
Proof. intros [Hs|Hs]%signs_bind; [by apply signs_ret in Hs|exact Hs]. Qed.

Lemma signs_submit {A} req (f : ConfirmSubmitRequest -> result A CliError) s msg : signs (act_submit req f) s msg -> False.
Proof. unfold signs. cbn. by intros ?%list_elem_of_singleton. Qed.

Lemma signs_retry {A} (m n : act A) s msg : signs (retry_stale m n) s msg -> signs m s msg \/ signs n s msg.
Proof.
  unfold signs, retry_stale. destruct m as [t [a|[| |body|message]]]; cbn [fst]; auto.
  destruct (is_stale_nonce body); [|auto]. destruct n as [t' r]. cbn [fst]. rewrite elem_of_app. tauto.
Qed.

Section Owner.
Context `{P256} `{NitroLib}.
Context `{Cbor BootPayload} `{Cbor UpgradePayload} `{Cbor RevocationPayload} `{Cbor ControlCommand}.
Context (sha256 : bytes -> bytes).
Context (hex_encode : bytes -> string) (hex_decode : string -> option bytes).
Context (base64_decode : string -> option bytes) (b64_encode : bytes -> str).
Context (skip_chain_compiled : bool).
Context (parse_uuid : str -> option Z) (row_from_value : Json -> result EnclaveChainRow string).
Context (builder : BuilderCall -> result str CliError).
Context (fetch_flake_source : string -> string -> result str CliError).
Context (json_to_string : Json -> str) (build_result : str -> option PcrsHex).
Context (pcrs_from_value : Json -> result PcrsHex string) (output_dir : str).
Context (load : result KeyIndex CliError) (open_signer : KeyEntry -> bytes -> result ControlSigner CliError).

Abbreviation running_of := (verified_running sha256 hex_encode hex_decode base64_decode b64_encode skip_chain_compiled
  parse_uuid row_from_value).
Abbreviation rebuild_of b id := (reproduce_upgrade builder fetch_flake_source json_to_string build_result b64_encode
  output_dir parse_uuid (be_listing b) (be_rebuild_row b) (be_rebuild_staged b) id).
Abbreviation expectation := (upgrade_expectation sha256 hex_encode hex_decode base64_decode b64_encode
  skip_chain_compiled parse_uuid row_from_value builder fetch_flake_source json_to_string build_result
  pcrs_from_value output_dir).
Abbreviation confirm := (confirm_upgrade sha256 hex_encode hex_decode base64_decode b64_encode skip_chain_compiled
  parse_uuid row_from_value builder fetch_flake_source json_to_string build_result pcrs_from_value output_dir
  load open_signer).
Abbreviation revoke := (revoke_upgrade sha256 hex_encode base64_decode parse_uuid load open_signer).
Abbreviation image i := (image_pcrs_hex hex_encode i).

(** The upgrade [p] is the one [e] describes. *)
Record intended (e : UpgradeExpectation) (p : UpgradePayload) : Prop := {
  in_enclave : up_enclave_id p = ue_enclave_id e;
  in_from : same_as (image (up_from p)) (image (ue_current e)) = true;
  in_from_user : pi_user (up_from p) = pi_user (ue_current e);
  in_to : same_as (image (up_to p)) (ue_target e) = true;
  in_to_user : pi_user (up_to p) = pi_user (up_from p);
  in_digest : up_image_digest p = ue_image_digest e;
  in_window : UPGRADE_WINDOW_MIN <= up_valid_until p - up_valid_from p <= UPGRADE_WINDOW_MAX;
  in_asked : default (ue_now e + UPGRADE_DELAY_DEFAULT) (ue_requested_valid_from e) - VALID_FROM_SLACK <= up_valid_from p;
  in_delay : ue_now e + seconds (ue_min_upgrade_delay_secs e) - VALID_FROM_SLACK <= up_valid_from p;
}.

Lemma checked_upgrade_window_Ok payload p :
  checked_upgrade_window payload = Ok p ->
  decode_canonical payload = Ok p /\ UPGRADE_WINDOW_MIN <= up_valid_until p - up_valid_from p <= UPGRADE_WINDOW_MAX.
Proof.
  unfold checked_upgrade_window. destruct (decode_canonical payload) as [q|]; cbn [map_err]; [|done].
  unfold upgrade_window_is_valid. destruct (Z.leb_spec UPGRADE_WINDOW_MIN (up_valid_until q - up_valid_from q)); [|done].
  cbn [negb]. destruct (Z.ltb_spec UPGRADE_WINDOW_MAX (up_valid_until q - up_valid_from q)); [done|].
  intros [= <-]. split; [done|lia].
Qed.

Lemma delay_floor_Some now delay floor : delay_floor now delay = Some floor -> floor = now + seconds delay.
Proof. unfold delay_floor. repeat case_match; by intros [= <-]. Qed.

Lemma check_upgrade_payload_Ok payload e p :
  check_upgrade_payload hex_encode payload e = Ok p -> decode_canonical payload = Ok p /\ intended e p.
Proof.
  unfold check_upgrade_payload. destruct (checked_upgrade_window payload) as [q|] eqn:Hw; [|done].
  apply checked_upgrade_window_Ok in Hw as [Hd Hw]. rewrite !negb_if.
  destruct (Z.eqb_spec (up_enclave_id q) (ue_enclave_id e)); [|done].
  destruct (same_as (image (up_from q)) _) eqn:Hf; [|done].
  destruct (bool_decide_reflect (pi_user (up_from q) = pi_user (ue_current e))); [|done].
  destruct (same_as (image (up_to q)) _) eqn:Ht; [|done].
  destruct (bool_decide_reflect (pi_user (up_to q) = pi_user (up_from q))); [|done].
  destruct (bool_decide_reflect (up_image_digest q = ue_image_digest e)); [|done].
  destruct (delay_floor _ _) as [floor|] eqn:Hfl; [|done]. apply delay_floor_Some in Hfl as ->.
  destruct (Z.ltb_spec (up_valid_from q) (Z.max (default (ue_now e + UPGRADE_DELAY_DEFAULT) (ue_requested_valid_from e))
    (ue_now e + seconds (ue_min_upgrade_delay_secs e)) - VALID_FROM_SLACK)); [done|].
  intros [= <-]. split; [done|]. split; try done; lia.
Qed.

(** What the owner asked for with [target], as the machine at hand knows it:
    the version that runs is the one of a fully verified chain, the target's
    measurements are the owner's own or those of a local rebuild, the digest is
    the owner's, or the staged row's when none was given, the minimum delay is
    the enclave row's, and the clock is this machine's, read once more for the
    second attempt. *)
Record owner_asked (b : Backend) (id : str) (valid_from : option Z) (target : UpgradeTarget)
    (e : UpgradeExpectation) : Prop := {
  oa_enclave : parse_uuid id = Some (ue_enclave_id e);
  oa_running : exists v, running_of b id (ut_debug_enclave target) = Ok v /\ ue_current e = rv_identity v;
  oa_target : match ut_pcrs target with
              | Expected pcrs => ue_target e = pcrs
              | Reproduce => exists r, rebuild_of b id = Ok r /\ rr_mismatches r = [] /\ ue_target e = rr_actual r
              end;
  oa_digest d : ut_image_digest target = Some d -> ue_image_digest e = d;
  oa_staged_digest : ut_image_digest target = None ->
    exists staged, be_staged b = Ok staged /\ su_image_digest staged = Some (ue_image_digest e);
  oa_valid_from : ue_requested_valid_from e = valid_from;
  oa_delay : exists enclave, be_row b = Ok enclave /\
    min_upgrade_delay_secs enclave = Ok (ue_min_upgrade_delay_secs e);
  oa_now : ue_now e = be_now b \/ ue_now e = be_retry_now b;
}.

Lemma expectation_asked b enclave id valid_from target e :
  be_row b = Ok enclave -> expectation b enclave id valid_from target = Ok e ->
  owner_asked b id valid_from target e.
Proof.
  unfold upgrade_expectation. intros Hrow He.
  destruct (parse_uuid id) as [uuid|] eqn:Hu; [|done]. cbn [ok_or] in He.
  destruct (be_staged b) as [staged|] eqn:Hst; [|done].
  destruct (expected_digest target staged) as [digest|] eqn:Hd; [|done].
  destruct (running_of b id (ut_debug_enclave target)) as [v|] eqn:Hr; [|done].
  destruct (expected_target _ _ _ _ _ _ _ _ _ _ _ _ _) as [pcrs|] eqn:Ht; [|done].
  destruct (min_upgrade_delay_secs enclave) as [delay|] eqn:Hdl; [|done]. injection He as <-.
  split; cbn [ue_enclave_id ue_current ue_target ue_image_digest ue_requested_valid_from ue_min_upgrade_delay_secs ue_now];
    try done; [by eauto| | | |by eauto|by left].
  - unfold expected_target in Ht. destruct (ut_pcrs target) as [pcrs'|].
    + destruct (check_synchronizer_change _ _ _); [|done]. by injection Ht as ->.
    + destruct (rebuild_of b id) as [r|]; [|done]. destruct (negb (is_reproducible r)) eqn:Hre; [done|].
      apply negb_false_iff, bool_decide_eq_true in Hre.
      destruct (anti_rollback_setting _ _) as [setting|]; [|done].
      destruct (check_target_role _ _); [|done]. destruct (check_synchronizer_change _ _ _); [|done].
      injection Ht as <-. by eauto.
  - intros d Hdig. unfold expected_digest in Hd. rewrite Hdig in Hd. destruct (su_image_digest staged) as [have|]; [|congruence].
    case_bool_decide; congruence.
  - intros Hdig. exists staged. split; [done|]. unfold expected_digest in Hd. rewrite Hdig in Hd.
    destruct (su_image_digest staged); congruence.
Qed.

Lemma owner_asked_retry b id valid_from target e :
  owner_asked b id valid_from target e -> owner_asked b id valid_from target (set_now e (be_retry_now b)).
Proof. intros []. split; try done. by right. Qed.

(** The signer was opened from an entry of this machine's key index that holds the
    enclave's control key. *)
Definition owners_key (enclave : Json) (signer : ControlSigner) : Prop :=
  exists pubkey index name entry, row_public_key base64_decode enclave = Ok pubkey /\ load = Ok index /\
    (name, entry) ∈ ki_keys index /\ public_key_bytes base64_decode entry = Ok pubkey /\
    open_signer entry pubkey = Ok signer.

Lemma signer_for_enclave_Ok enclave signer :
  signer_for_enclave base64_decode load open_signer enclave = Ok signer -> owners_key enclave signer.
Proof.
  unfold signer_for_enclave. destruct (row_public_key _ enclave) as [pubkey|] eqn:Hpk; [|done].
  destruct load as [index|] eqn:Hl; [|done]. unfold find_by_public_key.
  destruct (List.find _ _) as [[name entry]|] eqn:Hf; [|done]. cbn [ok_or snd].
  apply List.find_some in Hf as [Hin Hk]. cbn [snd] in Hk. unfold signer_for_entry.
  destruct (public_key_bytes base64_decode entry) as [pk|] eqn:He; [|done].
  apply bool_decide_eq_true in Hk as ->. intros Ho. exists pubkey, index, name, entry.
  apply list_elem_of_In in Hin. by split_and!.
Qed.


(** The messages of one upgrade: its payload, and the command that carries it. *)
Inductive confirms (e : UpgradeExpectation) : bytes -> Prop :=
| Confirm_payload payload p :
    decode_canonical payload = Ok p -> intended e p ->
    confirms e (signed_message Dom_UpgradePayload payload)
| Confirm_command payload p inner rekey nonce :
    decode_canonical payload = Ok p -> intended e p ->
    confirms e (signed_message Dom_ControlCommand (encode_prepare_upgrade payload inner rekey nonce)).

Lemma confirms_payload e payload p :
  confirms e (signed_message Dom_UpgradePayload payload) -> decode_canonical payload = Ok p -> intended e p.
Proof.
  intros Hc Hp. remember (signed_message Dom_UpgradePayload payload) as m eqn:Hm.
  destruct Hc as [payload' p' Hp' Hi|payload' p' inner rekey nonce Hp' Hi];
    apply signed_message_inj in Hm as [Hd Heq]; [|done]. subst payload'. assert (p' = p) as -> by congruence. done.
Qed.

Lemma sign_confirm_confirms signer prep e s msg p :
  check_upgrade_payload hex_encode (cp_payload prep) e = Ok p ->
  signs (sign_confirm_submission signer prep) s msg -> s = signer /\ confirms e msg.
Proof.
  intros [Hd Hi]%check_upgrade_payload_Ok. unfold sign_confirm_submission.
  intros [Hs|(inner & _ & [Hs|(env & _ & []%signs_ret)]%signs_bind)]%signs_bind;
    apply list_elem_of_singleton in Hs as [= -> ->]; (split; [done|]).
  - by econstructor.
  - by eapply Confirm_command.
Qed.

(** What a confirmation signs. *)
Lemma confirm_signs b id valid_from target signer msg :
  signs (confirm b id valid_from target) signer msg ->
  exists enclave tgt e, be_row b = Ok enclave /\ owners_key enclave signer /\ target = Some tgt /\
    owner_asked b id valid_from tgt e /\ confirms e msg.
Proof.
  unfold confirm_upgrade. intros (enclave & Hrow & Hs)%signs_ret_bind.
  destruct (control_key_mode enclave); [by destruct target; apply signs_ret in Hs|].
  apply signs_ret_bind in Hs as (tgt & Ht & Hs). destruct target as [tgt'|]; [|done]. injection Ht as ->.
  exists enclave, tgt. unfold confirm_self_hosted in Hs.
  apply signs_ret_bind in Hs as (e & He & Hs). apply expectation_asked in He; [|done].
  apply signs_ret_bind in Hs as (prep & Hp & Hs). apply signs_ret_bind in Hs as (p & Hc & Hs).
  apply signs_ret_bind in Hs as (key & Hkey%signer_for_enclave_Ok & Hs). apply signs_bind in Hs as [Hs|(sub & _ & Hs)].
  { exists e. eapply sign_confirm_confirms in Hs as [-> Hs]; [|done]. by split_and!. }
  apply signs_retry in Hs as [[]%signs_submit|Hs].
  apply signs_ret_bind in Hs as (prep' & Hp' & Hs). apply signs_ret_bind in Hs as (p' & Hc' & Hs).
  apply signs_bind in Hs as [Hs|(sub' & _ & []%signs_submit)].
  eapply sign_confirm_confirms in Hs as [-> Hs]; [|done].
  exists (set_now e (be_retry_now b)). split_and!; try done. by apply owner_asked_retry.
Qed.

(** C12: the owner's key signs only the upgrade the owner asked for.  Whatever the
    backend answers at each call, every message a confirmation hands to a key
    goes to the local key that holds the enclave's control key, and is an
    upgrade payload, or the command carrying it, that moves this enclave from the
    version its verified chain says it runs to the measurements the owner gave
    or rebuilt, keeps the user PCRs, has the owner's image digest (or, when the
    owner gave none, the staged row's), a window between an hour and 30 days,
    and starts no earlier than the instant the owner asked for (seven days from
    this machine's clock when none was), nor than that clock plus the minimum
    delay of the enclave's row, up to a minute. *)
Theorem owner_signs_only_what_was_asked b id valid_from target signer msg :
  A_Sign signer msg ∈ (confirm b id valid_from target).1 ->
  exists enclave tgt e, be_row b = Ok enclave /\ owners_key enclave signer /\ target = Some tgt /\
    owner_asked b id valid_from tgt e /\ confirms e msg.
Proof. apply confirm_signs. Qed.

(** ** The synchronizer *)

(** C13: the enclave's data goes only where the owner sent it.  When the owner's
    key signed nothing but what one confirmation gave it (no signature of the key
    verifies over any other message), then a transition link the synchronizer
    accepts under that key, at any trusted time and from any session, moves the
    pin from the running version of the owner's verified chain to an identity
    with the measurements the owner asked for, inside the signed window: the
    backend that prepared the upgrade cannot redirect it. *)
Theorem accepted_transition_is_the_owners b id valid_from target pubkey vk link d session debug now_ms v :
  vk_from_sec1_bytes pubkey = Ok vk ->
  (forall msg sig, vk_verify vk msg sig = true ->
     exists signer, A_Sign signer msg ∈ (confirm b id valid_from target).1) ->
  decode_transition_link sha256 link = Ok d ->
  verify_transition_link sha256 skip_chain_compiled link d session pubkey debug now_ms = Ok v ->
  exists tgt e p, target = Some tgt /\ owner_asked b id valid_from tgt e /\ intended e p /\
    decode_canonical (cl_payload link) = Ok p /\
    vt_old_key v = mkPcrKey (pin_key sha256 (up_from p)) /\
    vt_new_key v = mkPcrKey (pin_key sha256 (up_to p)) /\ session = vt_new_key v /\
    timestamp_millis (up_valid_from p) - TRANSITION_CLOCK_TOLERANCE_MS <= now_ms
      <= timestamp_millis (up_valid_until p) + TRANSITION_CLOCK_TOLERANCE_MS.
Proof.
  intros Hvk Honly Hd Hv. apply decode_transition_link_Ok in Hd as (Hk & _ & q & Hq & ->).
  apply verify_transition_link_inv in Hv as (Hs & _ & Hsig & p & doc & Hp & Hw & Ha & Hx & _ & _ & ->).
  assert (q = p) as -> by congruence. cbn [dt_old_key dt_new_key vt_old_key vt_new_key] in *.
  destruct Hsig as (sig & pk & vk' & Hsig & [= ->] & Hvk' & Hver). assert (vk' = vk) as -> by congruence.
  apply verify_control_signature_Ok in Hver as (raw & _ & Hver).
  apply Honly in Hver as [signer (enclave & tgt & e & _ & _ & Ht & Hasked & Hc)%confirm_signs].
  exists tgt, e, p. split_and!; try done; try lia.
  by eapply confirms_payload.
Qed.

(** ** Revocations *)

(** The link that a revocation of the owner's staged upgrade names. *)
Record cancels (pubkey : bytes) (uuid : Z) (staged : StagedUpgradeJson) (chain : list ChainLink) (now : Z)
    (r : RevocationPayload) : Prop := {
  cn_enclave : rp_enclave_id r = uuid;
  cn_staged : su_upgrade_link_id staged = Some (rp_revokes r);
  cn_link : exists link p, link ∈ chain /\ cl_id link = Some (rp_revokes r) /\
    control_signed link pubkey Dom_UpgradePayload /\
    rp_revokes_link r = upgrade_link_hash sha256 (cl_payload link) /\
    decode_canonical (cl_payload link) = Ok p /\ up_enclave_id p = uuid /\
    (exists q, su_pcrs staged = Some q /\ same_as q (image (up_to p)) = true) /\
    su_image_digest staged = Some (up_image_digest p) /\ su_valid_from staged = Some (up_valid_from p) /\
    now < up_valid_from p;
}.

Lemma check_revocation_target_Ok payload uuid pubkey staged chain now t :
  check_revocation_target sha256 hex_encode payload uuid pubkey staged chain now = Ok t ->
  exists r, decode_canonical payload = Ok r /\ cancels pubkey uuid staged chain now r.
Proof.
  unfold check_revocation_target. destruct (decode_canonical payload) as [r|] eqn:Hr; [|done]. cbn [map_err].
  rewrite ?negb_if. destruct (Z.eqb_spec (rp_enclave_id r) uuid); [|done].
  destruct (bool_decide_reflect (su_upgrade_link_id staged = Some (rp_revokes r))); [|done].
  destruct (List.find _ chain) as [link|] eqn:Hl; [|done]. apply List.find_some in Hl as [Hin Hid].
  apply bool_decide_eq_true in Hid. rewrite ?negb_if.
  destruct (bool_decide_reflect (cl_kind link = Upgrade)); [|done].
  destruct (vk_from_sec1_bytes pubkey) as [vk|] eqn:Hvk; [|done]. cbn [map_err]. rewrite ?negb_if.
  destruct (cl_signature link) as [sig|] eqn:Hs; [|done].
  destruct (verify_control_signature _ _ _ _) as [[]|] eqn:Hv; [|done]. cbn [is_ok]. rewrite ?negb_if.
  destruct (bool_decide_reflect (upgrade_link_hash sha256 (cl_payload link) = rp_revokes_link r)); [|done].
  destruct (decode_canonical (cl_payload link)) as [p|] eqn:Hp; [|done]. cbn [map_err]. rewrite ?negb_if.
  destruct (Z.eqb_spec (up_enclave_id p) uuid); [|done].
  destruct (su_pcrs staged) as [q|] eqn:Hq; [|done]. destruct (same_as q _) eqn:Hsame; [|done].
  destruct (bool_decide_reflect (su_image_digest staged = Some (up_image_digest p))); [|done].
  destruct (bool_decide_reflect (su_valid_from staged = Some (up_valid_from p))); [|done]. cbn [negb orb].
  destruct (Z.leb_spec (up_valid_from p) now); [done|]. intros _. exists r. split; [done|]. split; [done..|].
  exists link, p. apply list_elem_of_In in Hin. split_and!; eauto; by exists sig, pubkey, vk.
Qed.

(** The messages of one revocation. *)
Inductive revokes (r : RevocationPayload) : bytes -> Prop :=
| Revoke_payload payload :
    decode_canonical payload = Ok r -> revokes r (signed_message Dom_RevocationPayload payload)
| Revoke_command payload inner rollback nonce :
    decode_canonical payload = Ok r ->
    revokes r (signed_message Dom_ControlCommand (encode_revoke_upgrade payload inner rollback nonce)).

Lemma sign_revoke_revokes signer prep r s msg :
  decode_canonical (vp_payload prep) = Ok r ->
  signs (sign_revoke_submission signer prep) s msg -> s = signer /\ revokes r msg.
Proof.
  intros Hd. unfold sign_revoke_submission.
  intros [Hs|(inner & _ & [Hs|(env & _ & []%signs_ret)]%signs_bind)]%signs_bind;
    apply list_elem_of_singleton in Hs as [= -> ->]; (split; [done|]).
  - by constructor.
  - by apply Revoke_command.
Qed.

(** A prepared revocation that passed is one of a link on the chain the backend
    showed at that call. *)
Lemma prepare_checked_Ok b n uuid pubkey prep :
  prepare_checked_revocation sha256 hex_encode base64_decode b n uuid pubkey = Ok prep ->
  exists r staged wire chain, decode_canonical (vp_payload prep) = Ok r /\ be_revoke_staged b n = Ok staged /\
    be_revoke_chain b n = Ok wire /\ map_result (into_chain_link base64_decode) wire = Ok chain /\
    cancels pubkey uuid staged chain (be_revoke_now b n) r.
Proof.
  unfold prepare_checked_revocation. destruct (be_revoke_prepare b n) as [prep'|]; [|done].
  destruct (be_revoke_staged b n) as [staged|]; [|done]. destruct (be_revoke_chain b n) as [wire|]; [|done].
  destruct (map_result _ wire) as [chain|] eqn:Hw; cbn [map_err]; [|done].
  destruct (check_revocation_target _ _ _ _ _ _ _ _) as [t|] eqn:Ht; [|done]. intros [= ->].
  apply check_revocation_target_Ok in Ht as (r & Hr & Hc). by exists r, staged, wire, chain.
Qed.

(** C14: the owner's key revokes only the upgrade the owner named.  Whatever the
    backend answers, every message a revocation hands to a key goes to the local
    key that holds the enclave's control key, and is a revocation payload, or the
    command carrying it, for this enclave, that names by its hash a link of the
    chain the backend showed, which carries that same key's signature over an
    upgrade of this enclave: the one the staged row describes (chain id,
    measurements, digest, start), still in the future. *)
Theorem owner_revokes_only_what_was_named b id signer msg :
  A_Sign signer msg ∈ (revoke b id).1 ->
  exists enclave uuid pubkey n staged wire chain r, be_row b = Ok enclave /\ parse_uuid id = Some uuid /\
    row_public_key base64_decode enclave = Ok pubkey /\ owners_key enclave signer /\
    (n <= 1)%nat /\ be_revoke_staged b n = Ok staged /\
    be_revoke_chain b n = Ok wire /\ map_result (into_chain_link base64_decode) wire = Ok chain /\
    cancels pubkey uuid staged chain (be_revoke_now b n) r /\ revokes r msg.
Proof.
  intros Hs. change (signs (revoke b id) signer msg) in Hs. unfold revoke_upgrade in Hs.
  apply signs_ret_bind in Hs as (enclave & Hrow & Hs).
  destruct (control_key_mode enclave); [by apply signs_ret in Hs|]. unfold revoke_self_hosted in Hs.
  apply signs_ret_bind in Hs as (key & Hkey%signer_for_enclave_Ok & Hs). apply signs_ret_bind in Hs as (pubkey & Hpk & Hs).
  apply signs_ret_bind in Hs as (uuid & Hu & Hs). apply signs_ret_bind in Hs as (prep & Hp & Hs).
  destruct (parse_uuid id) as [uuid'|]; [|done]. injection Hu as ->.
  apply prepare_checked_Ok in Hp as (r & staged & wire & chain & Hr & Hst & Hw & Hch & Hc).
  apply signs_bind in Hs as [Hs|(sub & _ & Hs)].
  { eapply sign_revoke_revokes in Hs as [-> Hs]; [|done].
    exists enclave, uuid, pubkey, 0%nat, staged, wire, chain, r. split_and!; try done. lia. }
  apply signs_retry in Hs as [[]%signs_submit|Hs]. apply signs_ret_bind in Hs as (prep' & Hp' & Hs).
  apply prepare_checked_Ok in Hp' as (r' & staged' & wire' & chain' & Hr' & Hst' & Hw' & Hch' & Hc').
  apply signs_bind in Hs as [Hs|(sub' & _ & []%signs_submit)].
  eapply sign_revoke_revokes in Hs as [-> Hs]; [|done].
  exists enclave, uuid, pubkey, 1%nat, staged', wire', chain', r'. by split_and!.
Qed.

(** ** The rebuild *)

Lemma run_builder_call eid image_ref enclave digest egress brev crev sync en up pcrs :
  run_builder builder fetch_flake_source json_to_string build_result b64_encode output_dir eid image_ref enclave
    digest egress brev crev sync en up = Ok pcrs ->
  exists call stdout, builder call = Ok stdout /\ parse_builder_output build_result (trim stdout) = Ok pcrs /\
    bc_args call !! 2%nat = Some image_ref.
Proof.
  unfold run_builder. destruct (synchronizer_args _ _ _ _) as [args|]; [|done].
  destruct (match brev with Some _ => _ | None => _ end) as [bf|]; [|done].
  destruct (match crev with Some _ => _ | None => _ end) as [cf|]; [|done].
  match goal with |- context [builder ?c] => set (call := c) end.
  destruct (builder call) as [stdout|] eqn:Hb; [|done].
  destruct (parse_builder_output _ _) as [p|] eqn:Hp; [|done]. intros [= <-]. by exists call, stdout.
Qed.

(** The rebuild builds the image the backend names.  Of a confirmation that
    rebuilds the target, the measurements the key will sign are those of the
    image reference in the backend's second answer about the staged upgrade: a
    reference that already has a digest is built as it is, whatever digest the
    row or the owner's --expect-digest gives, and otherwise the digest of that
    second answer is used, which is never compared with the first.  The digest
    in the expectation stays the owner's. *)
Theorem rebuild_follows_the_backends_reference b enclave id valid_from target e staged :
  be_row b = Ok enclave -> expectation b enclave id valid_from target = Ok e -> ut_pcrs target = Reproduce ->
  be_rebuild_staged b = Ok staged ->
  exists call stdout digest, builder call = Ok stdout /\
    parse_builder_output build_result (trim stdout) = Ok (ue_target e) /\
    su_image_digest staged = Some digest /\
    bc_args call !! 2%nat = Some (if contains_char (su_docker_image staged) 64 then su_docker_image staged
                                  else pin_to_digest (su_docker_image staged) digest) /\
    forall d, ut_image_digest target = Some d -> ue_image_digest e = d.
Proof.
  intros Hrow He Hre Hst. apply expectation_asked in He as [_ _ Ht Hd _ _ _ _]; [|done]. rewrite Hre in Ht.
  destruct Ht as (r & Hr & _ & Htgt). unfold reproduce_upgrade in Hr.
  destruct (resolve_enclave _ _ _) as [summary|]; [|done]. destruct (be_rebuild_row b) as [row|]; [|done].
  rewrite Hst in Hr. unfold from_staged_upgrade in Hr.
  destruct (su_image_digest staged) as [digest|] eqn:Hdig; [|done]. cbn [ok_or] in Hr.
  destruct (su_pcrs staged) as [pcrs|]; [|done]. cbn [ok_or] in Hr.
  destruct (su_builder_rev staged) as [brev|]; [|done]. destruct (su_crates_rev staged) as [crev|]; [|done].
  unfold run_reproduce in Hr. destruct (run_builder _ _ _ _ _ _ _ _ _ _ _ _ _ _ _ _) as [actual|] eqn:Hrun; [|done].
  injection Hr as <-. cbn [rr_actual] in Htgt. apply run_builder_call in Hrun as (call & stdout & Hb & Hp & Hargs).
  exists call, stdout, digest. rewrite Htgt. split_and!; try done. rewrite Hargs. cbn [ri_docker_image ri_image_digest].
  unfold pin_to_digest. by destruct (contains_char _ _).
Qed.
End Owner.

(** ** Witnesses *)

Module CliDemo.
Import Demo.

Definition pk : bytes := 4 :: replicate 64 0.

#[export] Instance command_cbor : Cbor ControlCommand :=
  {| encode c := match c with PrepareUpgrade p s _ n => 1 :: p ++ n | RevokeUpgrade p s _ n => 2 :: p ++ n end;
     from_reader _ := Err "unused"%string |}.

(** A key that signed exactly one upgrade and the command carrying it. *)
Definition signed_by_owner : list bytes :=
  [signed_message Dom_UpgradePayload [20];
   signed_message Dom_ControlCommand (encode_prepare_upgrade [20] (replicate 64 0) None [])].

#[export] Instance one_upgrade : P256 := {|
  SigningKey := unit; VerifyingKey := bytes; Signature := bytes;
  sk_verifying_key _ := pk; sk_sign _ _ := replicate 64 0; normalize_s _ := None;
  sig_to_bytes s := s; sig_from_slice := Some; vk_from_sec1_bytes := Ok;
  vk_verify _ m _ := bool_decide (m ∈ signed_by_owner);
|}.

Definition row : Json :=
  J_Obj [("mode", J_Str "production"); ("control_key_mode", J_Str "self_hosted");
         ("control_public_key", J_Str (demo_hex_encode pk)); ("min_upgrade_delay_secs", J_U64 0)]%string.

Definition chain_row (_ : Json) : result EnclaveChainRow string :=
  Ok (mkEnclaveChainRow (hex 1) "img-1" (Some pk) true).

(** A digest that tells the demonstration's identities apart. *)
Definition sum_sha256 (l : bytes) : bytes := take 32 ((fold_right Z.add 0 l mod 256) :: l ++ replicate 32 0).

Definition genesis (sha : bytes -> bytes) : ChainLinkJson :=
  mkChainLinkJson (Some 1) Boot (Some 0) (demo_hex_encode [10])
    (demo_hex_encode (toy_document 0 1 (sha [10]))) None (Some 0).
Definition pending : ChainLinkJson :=
  mkChainLinkJson (Some 20) Upgrade (Some 1) (demo_hex_encode [20])
    (demo_hex_encode (toy_document 0 1 (toy_sha256 [20]))) (Some (demo_hex_encode (replicate 64 0))) (Some 0).

(** The staged upgrade; its image reference names its own digest. *)
Definition staged : StagedUpgradeJson :=
  mkStagedUpgrade 30 7 Staged (lit "r/o/i@sha256:evil") (Some "img-2"%string) (Some (hex 2)) (Some (seconds 1000))
    (Some 20) None None (Some "rev"%string) (Some "rev"%string) None false false 0.

Definition backend (sha : bytes -> bytes) : Backend :=
  mkBackend (Ok []) (Ok row) (Ok staged) (Ok row) (Ok [genesis sha]) 0 (Ok row) (Ok staged) 0
    (fun _ => Ok (mkConfirmPrepare [20] [] None "")) (fun _ _ => Ok staged) 0 (Ok staged)
    (fun _ => Ok (mkRevokePrepare [30] [] false)) (fun _ => Ok staged) (fun _ => Ok [genesis sha; pending]) (fun _ => 0)
    (Ok staged).

Definition uuid (_ : str) : option Z := Some 7.
Definition index : result KeyIndex CliError :=
  Ok (mkKeyIndex 1 [(lit "k", mkKeyEntry (demo_hex_encode pk) (Yubikey 1 "9c"))]).
Definition device (_ : KeyEntry) (public_key : bytes) : result ControlSigner CliError :=
  Ok (mkControlSigner public_key (fun _ => Ok (replicate 64 0))).

(** The builder's result for any image is that of [img-2]. *)
Definition build (_ : BuilderCall) : result str CliError := Ok [1].
Definition result_of (_ : str) : option PcrsHex := Some (hex 2).
Definition flake (_ _ : string) : result str CliError := Ok [].
Definition from_value (_ : Json) : result PcrsHex string := Err "unused"%string.

Definition given : UpgradeTarget := mkUpgradeTarget (Expected (hex 2)) (Some "img-2"%string) false false.
Definition rebuilt : UpgradeTarget := mkUpgradeTarget Reproduce (Some "img-2"%string) false false.
End CliDemo.

#[local] Existing Instances CliDemo.one_upgrade CliDemo.command_cbor.

Definition demo_confirm := confirm_upgrade CliDemo.sum_sha256 demo_hex_encode demo_hex_decode demo_hex_decode id false
  CliDemo.uuid CliDemo.chain_row CliDemo.build CliDemo.flake (fun _ => []) CliDemo.result_of CliDemo.from_value []
  CliDemo.index CliDemo.device.
Definition demo_asked := owner_asked CliDemo.sum_sha256 demo_hex_encode demo_hex_decode demo_hex_decode id false
  CliDemo.uuid CliDemo.chain_row CliDemo.build CliDemo.flake (fun _ => []) CliDemo.result_of [].
Definition demo_signer : ControlSigner := mkControlSigner CliDemo.pk (fun _ => Ok (replicate 64 0)).
Definition demo_revoke := revoke_upgrade toy_sha256 demo_hex_encode demo_hex_decode CliDemo.uuid
  CliDemo.index CliDemo.device.
Definition demo_link : ChainLink :=
  mkChainLink (Some 20) None Upgrade [20] (toy_document 0 1 (CliDemo.sum_sha256 [20])) (Some (replicate 64 0)).

Lemma owner_signs_only_what_was_asked_witness :
  let msg := signed_message Dom_UpgradePayload [20] in
  A_Sign demo_signer msg ∈ (demo_confirm (CliDemo.backend CliDemo.sum_sha256) [7] (Some (seconds 1000)) (Some CliDemo.given)).1 /\
  exists enclave tgt e, be_row (CliDemo.backend CliDemo.sum_sha256) = Ok enclave /\
    owners_key demo_hex_decode CliDemo.index CliDemo.device enclave demo_signer /\ Some CliDemo.given = Some tgt /\
    demo_asked (CliDemo.backend CliDemo.sum_sha256) [7] (Some (seconds 1000)) tgt e /\ confirms demo_hex_encode e msg.
Proof.
  intros msg.
  assert (Hin : A_Sign demo_signer msg ∈ (demo_confirm (CliDemo.backend CliDemo.sum_sha256) [7] (Some (seconds 1000)) (Some CliDemo.given)).1).
  { replace (demo_confirm (CliDemo.backend CliDemo.sum_sha256) [7] (Some (seconds 1000)) (Some CliDemo.given)).1
      with ((A_Sign demo_signer <$> CliDemo.signed_by_owner) ++ [A_Submit (mkSubmit [1; 20] (replicate 64 0))])
      by (vm_compute; reflexivity). left. }
  split; [exact Hin|].
  exact (owner_signs_only_what_was_asked CliDemo.sum_sha256 demo_hex_encode demo_hex_decode demo_hex_decode id false
    CliDemo.uuid CliDemo.chain_row CliDemo.build CliDemo.flake (fun _ => []) CliDemo.result_of CliDemo.from_value []
    CliDemo.index CliDemo.device (CliDemo.backend CliDemo.sum_sha256) [7] (Some (seconds 1000)) (Some CliDemo.given) demo_signer msg Hin).
Defined.

Lemma accepted_transition_is_the_owners_witness :
  exists tgt e p, Some CliDemo.given = Some tgt /\
    demo_asked (CliDemo.backend CliDemo.sum_sha256) [7] (Some (seconds 1000)) tgt e /\ intended demo_hex_encode e p /\
    decode_canonical [20] = Ok p.
Proof.
  destruct (accepted_transition_is_the_owners (H := CliDemo.one_upgrade) CliDemo.sum_sha256 demo_hex_encode demo_hex_decode demo_hex_decode id false
    CliDemo.uuid CliDemo.chain_row CliDemo.build CliDemo.flake (fun _ => []) CliDemo.result_of CliDemo.from_value []
    CliDemo.index CliDemo.device (CliDemo.backend CliDemo.sum_sha256) [7] (Some (seconds 1000)) (Some CliDemo.given)
    CliDemo.pk CliDemo.pk demo_link
    (mkDecoded (mkPcrKey (pin_key CliDemo.sum_sha256 (demo_identity 1 0))) (mkPcrKey (pin_key CliDemo.sum_sha256 (demo_identity 2 0))))
    (mkPcrKey (pin_key CliDemo.sum_sha256 (demo_identity 2 0))) false 1000000
    (mkVerifiedTransition (mkPcrKey (pin_key CliDemo.sum_sha256 (demo_identity 1 0)))
       (mkPcrKey (pin_key CliDemo.sum_sha256 (demo_identity 2 0))) (CliDemo.sum_sha256 [20]) 5000000))
    as (tgt & e & p & Ht & Ha & Hi & Hd & _).
  - reflexivity.
  - intros msg sig Hver. apply bool_decide_eq_true in Hver. exists demo_signer.
    change (A_Sign demo_signer msg ∈ (demo_confirm (CliDemo.backend CliDemo.sum_sha256) [7] (Some (seconds 1000)) (Some CliDemo.given)).1).
    replace (demo_confirm (CliDemo.backend CliDemo.sum_sha256) [7] (Some (seconds 1000)) (Some CliDemo.given)).1
      with ((A_Sign demo_signer <$> CliDemo.signed_by_owner) ++ [A_Submit (mkSubmit [1; 20] (replicate 64 0))])
      by (vm_compute; reflexivity).
    apply elem_of_app. left. by apply list_elem_of_fmap_2.
  - vm_compute. reflexivity.
  - vm_compute. reflexivity.
  - by exists tgt, e, p.
Defined.

Lemma owner_revokes_only_what_was_named_witness :
  let msg := signed_message Dom_RevocationPayload [30] in
  A_Sign demo_signer msg ∈ (demo_revoke (CliDemo.backend toy_sha256) [7]).1 /\
  exists pubkey uuid staged chain now r,
    cancels toy_sha256 demo_hex_encode pubkey uuid staged chain now r /\ revokes r msg.
Proof.
  intros msg.
  assert (Hin : A_Sign demo_signer msg ∈ (demo_revoke (CliDemo.backend toy_sha256) [7]).1).
  { replace (demo_revoke (CliDemo.backend toy_sha256) [7]).1
      with [A_Sign demo_signer msg; A_Sign demo_signer (signed_message Dom_ControlCommand [2; 30]); A_Submit (mkSubmit [2; 30] (replicate 64 0))]
      by (vm_compute; reflexivity). left. }
  split; [exact Hin|].
  destruct (owner_revokes_only_what_was_named toy_sha256 demo_hex_encode demo_hex_decode CliDemo.uuid
    CliDemo.index CliDemo.device (CliDemo.backend toy_sha256) [7] demo_signer msg Hin)
    as (enclave & uuid & pubkey & n & staged & wire & chain & r & _ & _ & _ & _ & _ & _ & _ & _ & Hc & Hr).
  by exists pubkey, uuid, staged, chain, (be_revoke_now (CliDemo.backend toy_sha256) n), r.
Defined.

(** The reference names another digest than the one the owner expects. *)
Lemma rebuild_follows_the_backends_reference_witness :
  exists e call stdout, ue_image_digest e = "img-2"%string /\ CliDemo.build call = Ok stdout /\
    bc_args call !! 2%nat = Some (lit "r/o/i@sha256:evil").
Proof.
  set (e := mkExpectation 7 (demo_identity 1 0) (Demo.hex 2) "img-2" (Some (seconds 1000)) 0 0).
  destruct (rebuild_follows_the_backends_reference toy_sha256 demo_hex_encode demo_hex_decode demo_hex_decode id false
    CliDemo.uuid CliDemo.chain_row CliDemo.build CliDemo.flake (fun _ => []) CliDemo.result_of CliDemo.from_value []
    (CliDemo.backend toy_sha256) CliDemo.row [7] (Some (seconds 1000)) CliDemo.rebuilt e CliDemo.staged)
    as (call & stdout & digest & Hb & _ & _ & Ha & Hd).
  - reflexivity.
  - vm_compute. reflexivity.
  - reflexivity.
  - reflexivity.
  - exists e, call, stdout. split; [exact (Hd _ eq_refl)|]. split; [exact Hb|exact Ha].
Defined.
