(* ===== verification/CliApi.v ===== *)
(** The command line's session with the backend: the credentials on disk
    ([enclavia-cli/src/config.rs], and the key index's file of [keys.rs]), the
    REST client ([api.rs]) and the OAuth login ([commands/auth.rs]).

    A computation of the client is a function of the client, the disk and the
    requests sent so far ([Cli]).  The backend is a parameter: a state machine
    [net] that answers a request or loses it.  [reqwest], [serde_json] and
    base64 are parameters too; each save of a file has its own fate.  A
    computation ends with a value, with an error, or in a panic of the process
    ([Stop_panic]): the expiry of a token is computed with [chrono]'s panicking
    arithmetic on a number the backend chose.  The paths of the files are those
    below the user's configuration directory, which is assumed to be found.

    The theorems say where a token can go: to the backend that minted it and
    nowhere else, whatever the environment says; that a call refreshes at most
    once, and only after a 401; that a login is bound to its own callback; and
    that a private file is never on disk, even half written, with a mode that
    lets another user read it. *)
From stdpp Require Import base gmap list strings.
From S2P Require Import Prelude Text SecretsInit Chain CliReproduce CliUpgrade.
#[local] Open Scope Z_scope.

(** ** Private files *)

(** A directory and one file in it, as the file system has them. *)
Record PrivateFile := mkPrivateFile { pf_content : str; pf_mode : Z }.
Record Disk := mkDisk { dk_dir : option Z; dk_file : option PrivateFile }.

(** Octal modes. *)
Definition MODE_0600 : Z := 384.
Definition MODE_0700 : Z := 448.

(** What becomes of the five system calls of a save: each fails or not, and a
    write that fails has written a prefix. *)
Record SaveIo := mkSaveIo {
  io_mkdir : bool;
  io_chmod_dir : bool;
  io_open : bool;
  io_chmod_file : bool;
  io_write : option nat;
  io_umask : Z;
}.
Definition io_fine : SaveIo := mkSaveIo true true true true None 18.

(** A call leaves a disk and says whether it succeeded. *)
Abbreviation SysCall := (Disk -> Disk * bool) (only parsing).

(** [create_dir_all]: the mode of a new directory is [0o777] less the umask. *)
Definition sys_mkdir (io : SaveIo) : SysCall := fun d =>
  if io_mkdir io
  then (mkDisk (Some (default (Z.land 511 (Z.lnot (io_umask io))) (dk_dir d))) (dk_file d), true)
  else (d, false).

Definition sys_chmod_dir (io : SaveIo) (mode : Z) : SysCall := fun d =>
  if io_chmod_dir io then (mkDisk ((fun _ => mode) <$> dk_dir d) (dk_file d), true) else (d, false).

(** [open] with [create] and [truncate]: an existing file keeps its mode. *)
Definition sys_open (io : SaveIo) (mode : Z) : SysCall := fun d =>
  if io_open io
  then (mkDisk (dk_dir d)
          (Some (match dk_file d with
                 | Some f => mkPrivateFile [] (pf_mode f)
                 | None => mkPrivateFile [] (Z.land mode (Z.lnot (io_umask io)))
                 end)), true)
  else (d, false).

Definition sys_chmod_file (io : SaveIo) (mode : Z) : SysCall := fun d =>
  if io_chmod_file io
  then (mkDisk (dk_dir d) ((fun f => mkPrivateFile (pf_content f) mode) <$> dk_file d), true)
  else (d, false).

Definition sys_write (io : SaveIo) (data : str) : SysCall := fun d =>
  let put content := mkDisk (dk_dir d) ((fun f => mkPrivateFile content (pf_mode f)) <$> dk_file d) in
  match io_write io with
  | None => (put data, true)
  | Some n => (put (take n data), false)
  end.

(** The calls in order, up to the first that fails: the disks they leave, and
    whether they all succeeded. *)
Fixpoint run_calls (calls : list SysCall) (d : Disk) : list Disk * bool :=
  match calls with
  | [] => ([], true)
  | call :: calls =>
      let '(d', ok) := call d in
      if ok then let '(ds, ok) := run_calls calls d' in (d' :: ds, ok) else ([d'], false)
  end.

Definition save_credentials_at (io : SaveIo) (json : str) (d : Disk) : list Disk * bool :=
  run_calls [sys_mkdir io; sys_chmod_dir io MODE_0700; sys_open io MODE_0600; sys_chmod_file io MODE_0600;
             sys_write io json] d.

(** [keys.rs]: the file of the key index. *)
Definition write_private (io : SaveIo) (data : str) (d : Disk) : list Disk * bool :=
  run_calls [sys_open io MODE_0600; sys_chmod_file io MODE_0600; sys_write io data] d.

Definition save_index_to (io : SaveIo) (json : str) (d : Disk) : list Disk * bool :=
  let '(ds, ok) := run_calls [sys_mkdir io; sys_chmod_dir io MODE_0700] d in
  if ok then let '(ds', ok) := write_private io json (default d (last ds)) in (ds ++ ds', ok) else (ds, false).

(** The disk a save leaves. *)
Definition saved (d : Disk) (run : list Disk * bool) : Disk := default d (last run.1).

(** ** Credentials *)

Record Credentials := mkCredentials {
  cr_access_token : str;
  cr_refresh_token : str;
  cr_expires_at : Z;
  cr_backend_url : str;
}.

#[global] Instance Credentials_eq_dec : EqDecision Credentials.
Proof. solve_decision. Defined.

(** The credentials as JSON, and the strict parse of the file. *)
Class CredJson := {
  creds_to_string : Credentials -> str;
  creds_from_str : str -> option Credentials;
  creds_round_trip c : creds_from_str (creds_to_string c) = Some c;
}.

(** The clamp of the file's mode is best effort; reading needs the file. *)
Definition load_credentials `{CredJson} (clamps reads : bool) (d : Disk) : Disk * option Credentials :=
  let d := if clamps then mkDisk (dk_dir d) ((fun f => mkPrivateFile (pf_content f) MODE_0600) <$> dk_file d) else d in
  (d, if reads then dk_file d ≫= fun f => creds_from_str (pf_content f) else None).

Definition DEFAULT_BACKEND : str := lit "https://api.beta.enclavia.io".
Definition backend_url (env : option str) : str := default DEFAULT_BACKEND env.

(** ** Requests *)

Inductive Method : Type := GET | POST | PUT | DELETE.

Inductive Body : Type :=
| B_None
| B_Json (v : Json)
| B_Form (fields : list (str * str)).

(** [rq_bearer] is the token of an [Authorization: Bearer] header. *)
Record Request := mkRequest { rq_method : Method; rq_url : str; rq_bearer : option str; rq_body : Body }.

(** The text of the body, when it can be read. *)
Record Response := mkResponse { rs_status : Z; rs_text : option str }.

Definition is_success (r : Response) : bool := (200 <=? rs_status r) && (rs_status r <? 300).
Definition UNAUTHORIZED : Z := 401.
Definition CONFLICT : Z := 409.

(** What a process writes, and what it runs. *)
Inductive Output : Type :=
| Stdout_json (v : Json)
| Stdout_text (s : str)
| Stderr_text (s : str).

Inductive Event : Type :=
| E_Http (r : Request) (answer : option Response)
| E_Out (o : Output)
| E_Docker (args : list str) (stdin : option str).

(** A string as a JSON string or an error's text carries it. *)
Definition to_string (s : str) : string :=
  String.string_of_list_ascii ((fun b => Ascii.ascii_of_N (Z.to_N b)) <$> as_bytes s).
Definition J_str (s : str) : Json := J_Str (to_string s).

(** [str::trim_end_matches], for a character. *)
Fixpoint trim_start_matches (c : Z) (s : str) : str :=
  match s with
  | x :: s' => if x =? c then trim_start_matches c s' else s
  | [] => []
  end.
Definition trim_end_matches (c : Z) (s : str) : str := reverse (trim_start_matches c (reverse s)).

(** ** The client *)

Record ApiClient := mkApiClient {
  ac_base_url : str;
  ac_creds : option Credentials;
  ac_static_token : option str;
}.

(** [serde_json] for one type. *)
Class FromBody (T : Type) := from_body : str -> option T.

Record TokenResponse := mkTokenResponse { tk_access_token : str; tk_refresh_token : str; tk_expires_in : Z }.

(** [chrono]: the first instant. *)
Definition FIRST_UTC : Z := - seconds 8334601228800.

(** [Utc::now() + Duration::seconds(n)], with [None] for the panic of either
    operation: a duration of more than [i64::MAX] milliseconds, or a sum that is
    not an instant. *)
Definition expires_at (now n : Z) : option Z :=
  if MAX_DURATION_SECS <? Z.abs n then None
  else if (now + seconds n <? FIRST_UTC) || (MAX_UTC <? now + seconds n) then None
  else Some (now + seconds n).

(** How a computation ends early. *)
Inductive Stop : Type :=
| Stop_error (e : CliError)
| Stop_panic.

Section Session.
(** The world outside: what a request does to it, its clock in nanoseconds, what
    becomes of a save. *)
Context {S : Type} (net : S -> Request -> S * option Response) (clock : S -> Z) (save_io : S -> SaveIo).
Context `{CredJson} `{FromBody TokenResponse}.

Record Cli := mkCli { c_client : ApiClient; c_disk : Disk; c_world : S; c_log : list Event }.

Definition cli (A : Type) : Type := Cli -> Cli * result A Stop.
Definition cli_ret {A} (r : result A CliError) : cli A := fun st => (st, map_err Stop_error r).
Definition cli_panic {A} : cli A := fun st => (st, Err Stop_panic).
Definition cli_bind {A B} (m : cli A) (k : A -> cli B) : cli B := fun st =>
  match m st with
  | (st, Ok a) => k a st
  | (st, Err e) => (st, Err e)
  end.
Notation "'let*' x ':=' m 'in' k" := (cli_bind m (fun x => k))
  (at level 10, x binder, m at level 200, k at level 200).

(** [.await.ok()]: the error is dropped, what was done is not; a panic goes on. *)
Definition cli_try {A} (m : cli A) : cli (result A CliError) := fun st =>
  match m st with
  | (st, Ok a) => (st, Ok (Ok a))
  | (st, Err (Stop_error e)) => (st, Ok (Err e))
  | (st, Err Stop_panic) => (st, Err Stop_panic)
  end.

Definition emit_event (e : Event) (st : Cli) : Cli :=
  mkCli (c_client st) (c_disk st) (c_world st) (c_log st ++ [e]).
Definition output (o : Output) : cli unit := fun st => (emit_event (E_Out o) st, Ok tt).

Definition send (failure : string) (r : Request) : cli Response := fun st =>
  let '(w, answer) := net (c_world st) r in
  (mkCli (c_client st) (c_disk st) w (c_log st ++ [E_Http r answer]),
   match answer with Some resp => Ok resp | None => Err (Stop_error (Other failure)) end).

Definition CLIENT_ID : str := lit "enclavia-cli".

(** [config::save_credentials]. *)
Definition save_credentials (c : Credentials) : cli unit := fun st =>
  let run := save_credentials_at (save_io (c_world st)) (creds_to_string c) (c_disk st) in
  (mkCli (c_client st) (saved (c_disk st) run) (c_world st) (c_log st),
   if run.2 then Ok tt else Err (Stop_error (Other "failed to save credentials"))).

Definition read_json {T} `{FromBody T} (failure : string) (resp : Response) : result T CliError :=
  ok_or (rs_text resp ≫= from_body) (Other failure).

Definition token_url (backend : str) : str := trim_end_matches 47 backend ++ lit "/oauth/token".

Definition refresh_credentials (creds : Credentials) : cli Credentials :=
  let* resp := send "refresh request failed"
    (mkRequest POST (token_url (cr_backend_url creds)) None
       (B_Form [(lit "grant_type", lit "refresh_token"); (lit "refresh_token", cr_refresh_token creds);
                (lit "client_id", CLIENT_ID)])) in
  if negb (is_success resp) then cli_ret (Err Unauthorized)
  else
    let* token := cli_ret (read_json "invalid refresh response" resp) in
    fun st =>
      match expires_at (clock (c_world st)) (tk_expires_in token) with
      | None => cli_panic st
      | Some expires =>
          let new_creds := mkCredentials (tk_access_token token) (tk_refresh_token token)
                             expires (cr_backend_url creds) in
          (let* _ := save_credentials new_creds in cli_ret (Ok new_creds)) st
      end.

Definition current_token (c : ApiClient) : option str :=
  match ac_static_token c with
  | Some t => Some t
  | None => cr_access_token <$> ac_creds c
  end.

(** [build], with the body the caller attaches. *)
Definition build (c : ApiClient) (m : Method) (path : str) (body : Body) : Request :=
  mkRequest m (ac_base_url c ++ path) (current_token c) body.

Definition set_creds (creds : Credentials) : cli unit := fun st =>
  (mkCli (mkApiClient (ac_base_url (c_client st)) (Some creds) (ac_static_token (c_client st)))
     (c_disk st) (c_world st) (c_log st), Ok tt).

Definition refresh_if_possible : cli unit := fun st =>
  match ac_creds (c_client st) with
  | None => (st, Err (Stop_error Unauthorized))
  | Some snapshot =>
      (let* new_creds := refresh_credentials snapshot in set_creds new_creds) st
  end.

Definition handle_response {T} `{FromBody T} (resp : Response) : result T CliError :=
  if rs_status resp =? UNAUTHORIZED then Err Unauthorized
  else if rs_status resp =? CONFLICT then Err (Conflict (to_string (default [] (rs_text resp))))
  else if negb (is_success resp) then Err (Other "request failed")
  else read_json "invalid response" resp.

(** The exchange the three request helpers share: send, and on a 401 refresh
    once and send again. *)
Definition exchange (m : Method) (path : str) (body : Body) : cli Response := fun st =>
  (let* resp := send "request failed" (build (c_client st) m path body) in
   fun st =>
     if (rs_status resp =? UNAUTHORIZED) && bool_decide (is_Some (ac_creds (c_client st)))
     then (let* _ := refresh_if_possible in
           fun st => send "request failed" (build (c_client st) m path body) st) st
     else (st, Ok resp)) st.

Definition request {T} `{FromBody T} (m : Method) (path : str) : cli T :=
  let* resp := exchange m path B_None in cli_ret (handle_response resp).

Definition request_with_body {T} `{FromBody T} (m : Method) (path : str) (body : Json) : cli T :=
  let* resp := exchange m path (B_Json body) in cli_ret (handle_response resp).

Definition request_no_response (m : Method) (path : str) (verb : string) : cli unit :=
  let* resp := exchange m path B_None in
  cli_ret (if is_success resp then Ok tt
           else if rs_status resp =? UNAUTHORIZED then Err Unauthorized
           else Err (Other (verb +:+ " failed"))).

(** ** Constructors *)

(** [ApiClient::new]: whether the clamp and the read of the file succeed. *)
Definition api_new (clamps reads : bool) : cli unit := fun st =>
  let '(d, creds) := load_credentials clamps reads (c_disk st) in
  match creds with
  | None => (mkCli (c_client st) d (c_world st) (c_log st), Err (Stop_error NotLoggedIn))
  | Some c => (mkCli (mkApiClient (cr_backend_url c) (Some c) None) d (c_world st) (c_log st), Ok tt)
  end.

Definition api_with_token (base_url token : str) : ApiClient := mkApiClient base_url None (Some token).
Definition api_anonymous (env : option str) : ApiClient := mkApiClient (backend_url env) None None.

(** ** Endpoints *)

Record RegistryInfo := mkRegistryInfo { ri_registry_url : str; ri_namespace : str }.
Record StagedPushEntry := mkStagedPush { sp_enclave_id : str; sp_upgrade_id : str; sp_image : str }.
Record NotifyPushResponse := mkNotifyPush {
  np_matched : Z;
  np_triggered : list str;
  np_staged : list StagedPushEntry;
  np_rejected_non_upgradable : list str;
}.
Record SecretSummary := mkSecretSummary {
  ss_name : str;
  ss_created_at : str;
  ss_updated_at : str;
  ss_pending : bool;
}.
Inductive InstanceTypeArg : Type := Small | Medium | Large.
Definition instance_type_json (t : InstanceTypeArg) : Json :=
  J_Str (match t with Small => "small" | Medium => "medium" | Large => "large" end)%string.

Context `{FromBody Json} `{FromBody (list (EnclaveSummary * Json))} `{FromBody RegistryInfo} `{FromBody NotifyPushResponse}.
Context `{FromBody (list SecretSummary)} `{FromBody SecretSummary}.
Context `{FromBody (list ChainLinkJson)} `{FromBody (list StagedUpgradeJson)} `{FromBody StagedUpgradeJson}.
Context `{FromBody ConfirmPrepareResponse} `{FromBody RevokePrepareResponse}.
(** How a time and a submission are written. *)
Context (time_json : Z -> Json) (submit_json : ConfirmSubmitRequest -> Json).

Definition enclave_path (id : str) (rest : string) : str := lit "/enclaves/" ++ id ++ lit rest.
Definition upgrade_path (id uid : str) (rest : string) : str :=
  lit "/enclaves/" ++ id ++ lit "/upgrades/" ++ uid ++ lit rest.
Definition secret_path (id name : str) : str := lit "/enclaves/" ++ id ++ lit "/secrets/" ++ name.

Definition list_enclaves (include_archived : bool) : cli (list (EnclaveSummary * Json)) :=
  request GET (if include_archived then lit "/enclaves?archived=all" else lit "/enclaves").
Definition get_registry : cli RegistryInfo := request GET (lit "/me/registry").
Definition notify_push (id : str) : cli NotifyPushResponse :=
  request_with_body POST (lit "/me/registry/push-notify") (J_Obj [("enclave_id"%string, J_str id)]).

Definition opt_field {A} (key : string) (o : option A) (f : A -> Json) : list (string * Json) :=
  match o with Some a => [(key, f a)] | None => [] end.

Definition create_body (instance_type : InstanceTypeArg) (container_port storage_size_bytes : option Z)
    (name visibility : option str) (egress_allowlist : option Json) (upgradable production : bool)
    (control_key : option Json) (anti_rollback : bool) (min_upgrade_delay_secs : option Z) : Json :=
  J_Obj (("instance_type"%string, instance_type_json instance_type)
         :: opt_field "container_port" container_port J_U64
         ++ opt_field "storage_size_bytes" storage_size_bytes J_U64
         ++ opt_field "name" name J_str
         ++ opt_field "visibility" visibility J_str
         ++ opt_field "egress_allowlist" egress_allowlist id
         ++ (if upgradable then [("upgradable"%string, J_Bool true)] else [])
         ++ (if production then [("mode"%string, J_Str "production")] else [])
         ++ opt_field "control_key" control_key id
         ++ (if anti_rollback then [("anti_rollback"%string, J_Bool true)] else [])
         ++ opt_field "min_upgrade_delay_secs" min_upgrade_delay_secs J_U64).

Definition create_enclave (body : Json) : cli Json := request_with_body POST (lit "/enclaves") body.
Definition get_enclave (id : str) : cli Json := request GET (enclave_path id "").
Definition get_enclave_chain (id : str) : cli (list ChainLinkJson) := request GET (enclave_path id "/upgrade-chain").
Definition get_enclave_logs (id : str) : cli Json := request GET (enclave_path id "/logs").
Definition stop_enclave (id : str) : cli unit := request_no_response POST (enclave_path id "/stop") "stop".
Definition start_enclave (id : str) : cli unit := request_no_response POST (enclave_path id "/start") "start".
Definition destroy_enclave (id : str) : cli unit := request_no_response DELETE (enclave_path id "") "destroy".
Definition restart_enclave (id : str) : cli unit := request_no_response POST (enclave_path id "/restart") "restart".

Definition list_upgrades (id : str) : cli (list StagedUpgradeJson) := request GET (enclave_path id "/upgrades").
Definition get_upgrade (id uid : str) : cli StagedUpgradeJson := request GET (upgrade_path id uid "").
Definition valid_from_body (valid_from : option Z) : Json := J_Obj (opt_field "valid_from" valid_from time_json).
Definition api_confirm_upgrade (id uid : str) (valid_from : option Z) : cli StagedUpgradeJson :=
  request_with_body POST (upgrade_path id uid "/confirm") (valid_from_body valid_from).
Definition api_revoke_upgrade (id uid : str) : cli StagedUpgradeJson :=
  request_with_body POST (upgrade_path id uid "/revoke") (J_Obj []).
Definition confirm_prepare (id uid : str) (valid_from : option Z) : cli ConfirmPrepareResponse :=
  request_with_body POST (upgrade_path id uid "/confirm/prepare") (valid_from_body valid_from).
Definition confirm_submit (id uid : str) (submission : ConfirmSubmitRequest) : cli StagedUpgradeJson :=
  request_with_body POST (upgrade_path id uid "/confirm/submit") (submit_json submission).
Definition revoke_prepare (id uid : str) : cli RevokePrepareResponse :=
  request_with_body POST (upgrade_path id uid "/revoke/prepare") (J_Obj []).
Definition revoke_submit (id uid : str) (submission : ConfirmSubmitRequest) : cli StagedUpgradeJson :=
  request_with_body POST (upgrade_path id uid "/revoke/submit") (submit_json submission).

Definition list_secrets (id : str) : cli (list SecretSummary) := request GET (enclave_path id "/secrets").
Definition create_secret (id name value : str) : cli SecretSummary :=
  request_with_body POST (enclave_path id "/secrets") (J_Obj [("name"%string, J_str name); ("value"%string, J_str value)]).
Definition update_secret (id name value : str) : cli SecretSummary :=
  request_with_body PUT (secret_path id name) (J_Obj [("value"%string, J_str value)]).
Definition delete_secret (id name : str) : cli unit := request_no_response DELETE (secret_path id name) "delete secret".

(** Every operation of the client. *)
Inductive ApiOp : Type :=
| Op_list_enclaves (include_archived : bool)
| Op_get_registry
| Op_notify_push (id : str)
| Op_create_enclave (body : Json)
| Op_get_enclave (id : str)
| Op_get_enclave_chain (id : str)
| Op_get_enclave_logs (id : str)
| Op_stop (id : str)
| Op_start (id : str)
| Op_destroy (id : str)
| Op_restart (id : str)
| Op_list_upgrades (id : str)
| Op_get_upgrade (id uid : str)
| Op_confirm_upgrade (id uid : str) (valid_from : option Z)
| Op_revoke_upgrade (id uid : str)
| Op_confirm_prepare (id uid : str) (valid_from : option Z)
| Op_confirm_submit (id uid : str) (submission : ConfirmSubmitRequest)
| Op_revoke_prepare (id uid : str)
| Op_revoke_submit (id uid : str) (submission : ConfirmSubmitRequest)
| Op_list_secrets (id : str)
| Op_create_secret (id name value : str)
| Op_update_secret (id name value : str)
| Op_delete_secret (id name : str).

Definition run_op (op : ApiOp) (st : Cli) : Cli :=
  match op with
  | Op_list_enclaves b => (list_enclaves b st).1
  | Op_get_registry => (get_registry st).1
  | Op_notify_push id => (notify_push id st).1
  | Op_create_enclave body => (create_enclave body st).1
  | Op_get_enclave id => (get_enclave id st).1
  | Op_get_enclave_chain id => (get_enclave_chain id st).1
  | Op_get_enclave_logs id => (get_enclave_logs id st).1
  | Op_stop id => (stop_enclave id st).1
  | Op_start id => (start_enclave id st).1
  | Op_destroy id => (destroy_enclave id st).1
  | Op_restart id => (restart_enclave id st).1
  | Op_list_upgrades id => (list_upgrades id st).1
  | Op_get_upgrade id uid => (get_upgrade id uid st).1
  | Op_confirm_upgrade id uid v => (api_confirm_upgrade id uid v st).1
  | Op_revoke_upgrade id uid => (api_revoke_upgrade id uid st).1
  | Op_confirm_prepare id uid v => (confirm_prepare id uid v st).1
  | Op_confirm_submit id uid s => (confirm_submit id uid s st).1
  | Op_revoke_prepare id uid => (revoke_prepare id uid st).1
  | Op_revoke_submit id uid s => (revoke_submit id uid s st).1
  | Op_list_secrets id => (list_secrets id st).1
  | Op_create_secret id n v => (create_secret id n v st).1
  | Op_update_secret id n v => (update_secret id n v st).1
  | Op_delete_secret id n => (delete_secret id n st).1
  end.

(** A session: operations one after the other. *)
Definition run_ops (ops : list ApiOp) (st : Cli) : Cli := foldl (fun st op => run_op op st) st ops.
End Session.

(** ** Login *)

(** The bytes [urlencoding_encode] leaves alone. *)
Definition unreserved (b : Z) : bool :=
  is_ascii_alphanumeric b || (b =? 45) || (b =? 95) || (b =? 46) || (b =? 126).
Definition hex_upper (d : Z) : Z := if d <? 10 then 48 + d else 55 + d.
Definition urlencoding_encode (s : str) : str :=
  as_bytes s ≫= fun b => if unreserved b then [b] else [37; hex_upper (b / 16); hex_upper (b mod 16)].

(** [base64::URL_SAFE_NO_PAD]: its alphabet. *)
Definition b64url_char (c : Z) : bool := is_ascii_alphanumeric c || (c =? 45) || (c =? 95).
Class B64Url := {
  b64url : bytes -> str;
  b64url_chars bs : forallb b64url_char (b64url bs) = true;
}.

Record PendingLogin := mkPendingLogin {
  pl_approval_url : str;
  pl_callback_port : Z;
  pl_state_token : str;
  pl_pkce_verifier : str;
  pl_redirect_uri : str;
  pl_backend : str;
}.

Record CallbackQuery := mkCallback {
  cb_code : option str;
  cb_state : option str;
  cb_error : option str;
  cb_error_description : option str;
}.

Section Login.
Context {S : Type} (net : S -> Request -> S * option Response) (clock : S -> Z) (save_io : S -> SaveIo).
Context `{CredJson} `{FromBody TokenResponse} `{B64Url} (sha256 : bytes -> bytes).

(** Over the bytes drawn. *)
Definition generate_verifier (drawn : bytes) : str := b64url drawn.
Definition challenge_for (verifier : str) : str := b64url (sha256 (as_bytes verifier)).
Definition generate_token (drawn : bytes) : str := b64url drawn.

(** The listener's port, and the 32 and the 16 bytes drawn. *)
Definition start_login (env : option str) (bound : result Z string) (drawn32 drawn16 : bytes)
    : result PendingLogin CliError :=
  let backend := backend_url env in
  let? port := map_err (fun _ => Other "failed to bind loopback listener") bound in
  let redirect_uri := lit "http://127.0.0.1:" ++ print_uint port ++ lit "/cb" in
  let pkce_verifier := generate_verifier drawn32 in
  let pkce_challenge := challenge_for pkce_verifier in
  let state_token := generate_token drawn16 in
  let approval_url :=
    trim_end_matches 47 backend ++ lit "/oauth/authorize?response_type=code&client_id=" ++
    urlencoding_encode CLIENT_ID ++ lit "&redirect_uri=" ++ urlencoding_encode redirect_uri ++
    lit "&code_challenge=" ++ pkce_challenge ++ lit "&code_challenge_method=S256&state=" ++ state_token in
  Ok (mkPendingLogin approval_url port state_token pkce_verifier redirect_uri backend).

(** The one-shot channel: its sender, and what was sent. *)
Record Oneshot := mkOneshot { os_sender : bool; os_sent : option CallbackQuery }.

Definition handle_callback (ch : Oneshot) (q : CallbackQuery) : Oneshot :=
  if os_sender ch then mkOneshot false (Some q) else ch.

Definition exchange_code (backend code redirect_uri pkce_verifier : str) : cli (S := S) TokenResponse :=
  cli_bind (send net "token request failed"
    (mkRequest POST (token_url backend) None
       (B_Form [(lit "grant_type", lit "authorization_code"); (lit "code", code);
                (lit "redirect_uri", redirect_uri); (lit "code_verifier", pkce_verifier);
                (lit "client_id", CLIENT_ID)])))
    (fun resp =>
       if negb (is_success resp) then cli_ret (Err (Other "token request failed"))
       else cli_ret (read_json "invalid token response" resp)).

(** The callbacks that reach the listener before the timeout, in order;
    [dropped] is a server that ended before any of them. *)
Definition wait_for_token (p : PendingLogin) (arrivals : list CallbackQuery) (dropped : bool) : cli (S := S) str :=
  match os_sent (foldl handle_callback (mkOneshot true None) arrivals) with
  | None => cli_ret (Err (Other (if dropped then "loopback callback channel dropped"
                                 else "timed out waiting for browser")))
  | Some cb =>
      match cb_error cb with
      | Some _ => cli_ret (Err (Other "authorization failed"))
      | None =>
          if negb (bool_decide (cb_state cb = Some (pl_state_token p)))
          then cli_ret (Err (Other "authorization failed: state parameter mismatch"))
          else
            cli_bind (cli_ret (ok_or (cb_code cb) (Other "authorization failed: no code in callback"))) (fun code =>
            cli_bind (exchange_code (pl_backend p) code (pl_redirect_uri p) (pl_pkce_verifier p)) (fun token st =>
              match expires_at (clock (c_world st)) (tk_expires_in token) with
              | None => cli_panic st
              | Some expires =>
                  let creds := mkCredentials (tk_access_token token) (tk_refresh_token token)
                                 expires (pl_backend p) in
                  cli_bind (save_credentials save_io creds) (fun _ => cli_ret (Ok (tk_access_token token))) st
              end))
      end
  end.
End Login.

(** ** Reading a query back *)

(** The parser of [application/x-www-form-urlencoded], over bytes. *)
Fixpoint percent_decode (s : str) : bytes :=
  match s with
  | [] => []
  | c :: s' =>
      if c =? 43 then 32 :: percent_decode s'
      else if c =? 37 then
        match s' with
        | a :: b :: s'' =>
            match to_digit 16 a, to_digit 16 b with
            | Some x, Some y => (16 * x + y) :: percent_decode s''
            | _, _ => c :: percent_decode s'
            end
        | _ => c :: percent_decode s'
        end
      else c :: percent_decode s'
  end.

Definition parse_query (s : str) : list (bytes * bytes) :=
  (fun kv => match split_once 61 kv with
             | Some (k, v) => (percent_decode k, percent_decode v)
             | None => (percent_decode kv, [])
             end) <$> split_on 38 s.
