(* ===== verification/CliApiProofs.v ===== *)
(** What the session of [CliApi] guarantees: tokens stay with the backend that
    minted them, a call refreshes at most once, rotated credentials are durable,
    private files are never exposed, and a login is bound to its callback. *)
From stdpp Require Import base gmap list strings.
From S2P Require Import Prelude Text SecretsInit Chain CliReproduce CliUpgrade CliApi.
#[local] Open Scope Z_scope.

(** ** Private files *)

(** What another user could read of a disk during a save of [data]: nothing but
    the file that was there, or an empty one. *)
Definition exposes_nothing (d0 : Disk) (data : str) (d : Disk) : Prop :=
  dk_file d = dk_file d0 \/
  exists f, dk_file d = Some f /\
    (pf_content f = [] \/ pf_mode f = MODE_0600 /\ pf_content f `prefix_of` data).

Definition is_private (data : str) : Disk := mkDisk (Some MODE_0700) (Some (mkPrivateFile data MODE_0600)).

Lemma prefix_take {A} n (l : list A) : take n l `prefix_of` l.
Proof. exists (drop n l). by rewrite take_drop. Qed.

(** The end of a save: the file is emptied, clamped and written. *)
Lemma write_private_steps io data d0 dir0 :
  let run := write_private io data (mkDisk dir0 (dk_file d0)) in
  Forall (exposes_nothing d0 data) run.1 /\
  (run.2 = true -> last run.1 = Some (mkDisk dir0 (Some (mkPrivateFile data MODE_0600)))).
Proof.
  unfold write_private. cbn [run_calls]. unfold sys_open, sys_chmod_file, sys_write. cbn [dk_dir dk_file].
  assert (He : forall dir mode, exposes_nothing d0 data (mkDisk dir (Some (mkPrivateFile [] mode)))).
  { intros dir mode. right. eexists. split; [done|]. by left. }
  assert (Hp : forall dir c, c `prefix_of` data ->
            exposes_nothing d0 data (mkDisk dir (Some (mkPrivateFile c MODE_0600)))).
  { intros dir c Hc. right. eexists. split; [done|]. by right. }
  assert (Hs : exposes_nothing d0 data (mkDisk dir0 (dk_file d0))) by by left.
  destruct (io_open io), (io_chmod_file io), (io_write io) as [n|]; destruct (dk_file d0) as [f|] eqn:Ef;
    rewrite ?Ef in Hs; cbn; split; intros; try done; repeat apply Forall_cons_2; try apply Forall_nil_2; auto using prefix_take, prefix_nil.
Qed.

Lemma dir_steps io data d0 :
  let run := run_calls [sys_mkdir io; sys_chmod_dir io MODE_0700] d0 in
  Forall (exposes_nothing d0 data) run.1 /\
  (run.2 = true -> last run.1 = Some (mkDisk (Some MODE_0700) (dk_file d0))).
Proof.
  cbn [run_calls]. unfold sys_mkdir, sys_chmod_dir.
  assert (Hs : forall dir, exposes_nothing d0 data (mkDisk dir (dk_file d0))) by by left.
  assert (Hs0 : exposes_nothing d0 data d0) by by left.
  destruct (io_mkdir io), (io_chmod_dir io); cbn; split; intros; try done; repeat apply Forall_cons_2; try apply Forall_nil_2; auto.
Qed.

Lemma save_index_saves io data d0 :
  let run := save_index_to io data d0 in
  Forall (exposes_nothing d0 data) run.1 /\ (run.2 = true -> saved d0 run = is_private data).
Proof.
  unfold save_index_to. destruct (dir_steps io data d0) as [Hf Hl].
  destruct (run_calls _ d0) as [ds ok]. cbn [fst snd] in Hf, Hl. destruct ok; [|done].
  rewrite (Hl eq_refl). cbn [default]. destruct (write_private_steps io data d0 (Some MODE_0700)) as [Hf' Hl'].
  unfold default. destruct (write_private _ _ _) as [ds' ok]. cbn [fst snd] in Hf', Hl' |- *.
  split; [by apply Forall_app|]. intros ->. unfold saved. cbn [fst].
  by rewrite last_app, (Hl' eq_refl).
Qed.

(** The two saves are the same calls. *)
Lemma save_credentials_calls io data d : save_credentials_at io data d = save_index_to io data d.
Proof.
  unfold save_credentials_at, save_index_to, write_private. cbn [run_calls].
  unfold sys_mkdir, sys_chmod_dir. destruct (io_mkdir io), (io_chmod_dir io); try done.
  cbn [last default]. destruct (sys_open _ _ _) as [d1 []]; [|done]. cbn.
  destruct (sys_chmod_file _ _ _) as [d2 []]; [|done]. by destruct (sys_write _ _ _) as [d3 []].
Qed.

Lemma save_credentials_saves io data d0 :
  let run := save_credentials_at io data d0 in
  Forall (exposes_nothing d0 data) run.1 /\ (run.2 = true -> saved d0 run = is_private data).
Proof. rewrite save_credentials_calls. apply save_index_saves. Qed.

(** ** Tokens *)

Section Tokens.
Context {S : Type} (net : S -> Request -> S * option Response) (clock : S -> Z) (save_io : S -> SaveIo).
Context `{CJ : CredJson} `{FT : FromBody TokenResponse}.
Context `{FromBody Json} `{FromBody (list (EnclaveSummary * Json))} `{FromBody RegistryInfo} `{FromBody NotifyPushResponse}.
Context `{FromBody (list SecretSummary)} `{FromBody SecretSummary}.
Context `{FromBody (list ChainLinkJson)} `{FromBody (list StagedUpgradeJson)} `{FromBody StagedUpgradeJson}.
Context `{FromBody ConfirmPrepareResponse} `{FromBody RevokePrepareResponse}.
Context (time_json : Z -> Json) (submit_json : ConfirmSubmitRequest -> Json).

Abbreviation exchange := (exchange net clock save_io).
Abbreviation run_op := (run_op net clock save_io time_json submit_json).
Abbreviation run_ops := (run_ops net clock save_io time_json submit_json).
Abbreviation refresh := (refresh_credentials net clock save_io).

(** A path below a backend's address, or its token endpoint. *)
Definition request_to (backend : str) (r : Request) : Prop :=
  (exists path, rq_url r = backend ++ lit "/" ++ path) \/ rq_url r = token_url backend.

(** The tokens a request carries. *)
Definition carries (r : Request) (t : str) : Prop :=
  rq_bearer r = Some t \/ exists fields, rq_body r = B_Form fields /\ (lit "refresh_token", t) ∈ fields.

(** A token that a backend's token endpoint answered with. *)
Definition minted (backend : str) (log : list Event) (t : str) : Prop :=
  exists r resp tok, E_Http r (Some resp) ∈ log /\ rq_url r = token_url backend /\ is_success resp = true /\
    rs_text resp ≫= from_body = Some tok /\ (t = tk_access_token tok \/ t = tk_refresh_token tok).

Definition known (c : Credentials) (log : list Event) (t : str) : Prop :=
  t = cr_access_token c \/ t = cr_refresh_token c \/ minted (cr_backend_url c) log t.

(** Each request of a log goes to the backend, with tokens known before it. *)
Definition tokens_at_home (c : Credentials) (log : list Event) : Prop :=
  forall pre r a post, log = pre ++ E_Http r a :: post ->
    request_to (cr_backend_url c) r /\ forall t, carries r t -> known c pre t.

Lemma known_app c log log' t : known c log t -> known c (log ++ log') t.
Proof.
  intros [->|[->|(r & resp & tok & Hin & Hrest)]]; [by left|by right; left|right; right].
  exists r, resp, tok. split; [apply elem_of_app; by left|done].
Qed.

Lemma tokens_at_home_snoc c log r a :
  tokens_at_home c log -> request_to (cr_backend_url c) r -> (forall t, carries r t -> known c log t) ->
  tokens_at_home c (log ++ [E_Http r a]).
Proof.
  intros Hlog Hto Hk pre r' a' post Heq. destruct post as [|e post _] using rev_ind.
  - apply app_inj_tail in Heq as [-> [= -> ->]]. done.
  - rewrite app_comm_cons, app_assoc in Heq. apply app_inj_tail in Heq as [Heq _]. by eapply Hlog.
Qed.

(** The session of credentials [c], since the log was [base]. *)
Record at_home (c : Credentials) (base : list Event) (st : Cli (S := S)) (log : list Event) : Prop := {
  ah_log : c_log st = base ++ log;
  ah_tokens : tokens_at_home c log;
  ah_base : ac_base_url (c_client st) = cr_backend_url c;
  ah_static : ac_static_token (c_client st) = None;
  ah_creds : exists cr, ac_creds (c_client st) = Some cr /\ cr_backend_url cr = cr_backend_url c /\
    known c log (cr_access_token cr) /\ known c log (cr_refresh_token cr);
}.

Lemma at_home_send c base st log fail r :
  at_home c base st log -> request_to (cr_backend_url c) r -> (forall t, carries r t -> known c log t) ->
  exists a, at_home c base (send net fail r st).1 (log ++ [E_Http r a]) /\
    (send net fail r st).2 = match a with Some resp => Ok resp | None => Err (Stop_error (Other fail)) end /\
    c_client (send net fail r st).1 = c_client st.
Proof.
  intros [Hl Ht Hb Hs (cr & Hc & Hu & Ka & Kr)] Hto Hk. unfold send.
  destruct (net (c_world st) r) as [w a]. exists a. cbn. split; [|done]. split; cbn; try done.
  - by rewrite Hl, app_assoc.
  - by apply tokens_at_home_snoc.
  - exists cr. split_and!; try done; by apply known_app.
Qed.

(** A refresh: at most one request, to the token endpoint. *)
Lemma at_home_refresh c base st log cr :
  at_home c base st log -> cr_backend_url cr = cr_backend_url c -> known c log (cr_refresh_token cr) ->
  exists log', at_home c base (refresh cr st).1 log' /\
    forall new, (refresh cr st).2 = Ok new ->
      cr_backend_url new = cr_backend_url c /\ known c log' (cr_access_token new) /\ known c log' (cr_refresh_token new).
Proof.
  intros Hh Hu Hk. unfold refresh_credentials, cli_bind.
  set (r := mkRequest _ _ _ _).
  destruct (at_home_send c base st log "refresh request failed" r Hh) as (a & Hh' & Hres & _).
  { right. subst r. cbn. by rewrite Hu. }
  { intros t [Ht|(fs & Hfs & Hin)]; [done|]. subst r. injection Hfs as <-.
    rewrite !elem_of_cons, elem_of_nil in Hin. destruct Hin as [Hin|[Hin|[Hin|[]]]]; [done| |done].
    by injection Hin as ->. }
  destruct (send _ _ _ _) as [st1 res]. cbn [fst snd] in Hh', Hres. exists (log ++ [E_Http r a]).
  destruct res as [resp|e]; [|cbn; split; [done|congruence]].
  destruct a as [resp'|]; [|done]. injection Hres as <-.
  destruct (is_success resp) eqn:Es; cbn [negb cli_ret map_err fst snd]; [|split; [done|congruence]].
  destruct (read_json _ resp) as [tok|e] eqn:Ej; cbn [map_err fst snd]; [|split; [done|congruence]].
  destruct (expires_at _ _) as [expires|]; [|cbn; split; [done|congruence]].
  unfold save_credentials. destruct (save_credentials_at _ _ _) as [ds ok]. cbn [fst snd].
  assert (Hm : forall t, t = tk_access_token tok \/ t = tk_refresh_token tok -> known c (log ++ [E_Http r (Some resp)]) t).
  { intros t Ht. right. right. exists r, resp, tok. split; [apply elem_of_app; right; left|].
    subst r. cbn. rewrite Hu. unfold read_json in Ej. apply ok_or_Ok in Ej. done. }
  destruct Hh' as [Hl Htk Hb Hst Hc].
  destruct ok; cbn; (split; [by split|]); [|congruence]. intros new [= <-]. cbn. rewrite Hu.
  split; [done|]. split; apply Hm; auto.
Qed.

Lemma at_home_exchange c base st log m path body :
  at_home c base st log -> (forall fs, body <> B_Form fs) ->
  exists log', at_home c base (exchange m (lit "/" ++ path) body st).1 log'.
Proof.
  intros Hh Hbody. unfold CliApi.exchange, cli_bind.
  assert (Hok : forall st' log', at_home c base st' log' ->
    request_to (cr_backend_url c) (build (c_client st') m (lit "/" ++ path) body) /\
    forall t, carries (build (c_client st') m (lit "/" ++ path) body) t -> known c log' t).
  { intros st' log' [_ _ Hb Hs (cr & Hc & _ & Ka & _)]. split; [left; exists path; cbn; by rewrite Hb|].
    intros t [Ht|(fs & Hfs & _)]; [|by destruct (Hbody fs)].
    cbn in Ht. unfold current_token in Ht. rewrite Hs, Hc in Ht. cbn in Ht. by injection Ht as <-. }
  destruct (Hok _ _ Hh) as [Hto Hk].
  destruct (at_home_send c base st log "request failed" _ Hh Hto Hk) as (a & Hh' & Hres & Hcl).
  destruct (send _ _ _ st) as [st1 res]. cbn [fst snd] in Hh', Hres, Hcl.
  destruct res as [resp|e]; [|by eexists].
  destruct (_ && _); [|by eexists].
  unfold refresh_if_possible, cli_bind.
  destruct (ah_creds _ _ _ _ Hh') as (cr & Hc & Hu & Ka & Kr). rewrite Hc.
  destruct (at_home_refresh c base st1 _ cr Hh' Hu Kr) as (log2 & Hh2 & Hnew).
  destruct (refresh cr st1) as [st2 [new|e]]; cbn [fst snd] in Hh2, Hnew; [|by eexists].
  destruct (Hnew new eq_refl) as (Hu2 & Ka2 & Kr2). cbn [set_creds].
  assert (Hh3 : at_home c base (set_creds new st2).1 log2).
  { destruct Hh2 as [Hl Ht Hb Hs _]. split; cbn; try done. by exists new. }
  destruct (Hok _ _ Hh3) as [Hto3 Hk3].
  destruct (at_home_send c base _ log2 "request failed" _ Hh3 Hto3 Hk3) as (a3 & Hh4 & _). by eexists.
Qed.

Lemma cli_bind_ret_fst {A B} (m : cli (S := S) A) (f : A -> result B CliError) st :
  (cli_bind m (fun a => cli_ret (f a)) st).1 = (m st).1.
Proof. unfold cli_bind. by destruct (m st) as [? []]. Qed.

(** Every operation is one exchange, on a path of the backend. *)
Lemma op_is_exchange op :
  exists m path body, (forall fs, body <> B_Form fs) /\
    forall st, run_op op st = (exchange m (lit "/" ++ path) body st).1.
Proof.
  assert (Hp : forall m p body (f : Cli -> Cli), head p = Some 47 -> (forall fs, body <> B_Form fs) ->
    (forall st, f st = (exchange m p body st).1) ->
    exists m path body, (forall fs, body <> B_Form fs) /\ forall st, f st = (exchange m (lit "/" ++ path) body st).1).
  { intros m p body f Hh Hb Hf. exists m, (tail p), body. split; [done|].
    destruct p as [|x p]; [done|]. by injection Hh as ->. }
  assert (He : forall id rest, head (enclave_path id rest) = Some 47) by done.
  destruct op as [[]| | | | | | | | | | | | | | | | | | | | | |];
    cbn [CliApi.run_op];
    unfold list_enclaves, get_registry, notify_push, create_enclave, get_enclave, get_enclave_chain,
      get_enclave_logs, stop_enclave, start_enclave, destroy_enclave, restart_enclave, list_upgrades, get_upgrade,
      api_confirm_upgrade, api_revoke_upgrade, confirm_prepare, confirm_submit, revoke_prepare, revoke_submit,
      list_secrets, create_secret, update_secret, delete_secret, request, request_with_body, request_no_response;
    (eapply Hp; [| |intros st; apply cli_bind_ret_fst]; [reflexivity|discriminate]).
Qed.

Lemma at_home_ops c base ops st log :
  at_home c base st log -> exists log', at_home c base (run_ops ops st) log'.
Proof.
  revert st log. induction ops as [|op ops IH]; intros st log Hh; [by exists log|].
  destruct (op_is_exchange op) as (m & path & body & Hb & Hop).
  change (run_ops (op :: ops) st) with (run_ops ops (run_op op st)). rewrite Hop.
  destruct (at_home_exchange c base st log m path body Hh Hb) as [log' Hh']. by eapply IH.
Qed.

(** The credentials a client is built from are the ones in the file. *)
Definition stored_credentials (d : Disk) (c : Credentials) : Prop :=
  exists f, dk_file d = Some f /\ creds_from_str (pf_content f) = Some c.

Lemma load_credentials_stored clamps reads d d' c :
  load_credentials clamps reads d = (d', Some c) -> stored_credentials d c.
Proof.
  unfold load_credentials, stored_credentials. intros Hl. destruct reads; [|done].
  destruct (dk_file d) as [f|] eqn:Ef; destruct clamps; cbn in Hl; rewrite ?Ef in Hl; cbn in Hl;
    injection Hl as _ Hc; by eauto.
Qed.

Lemma api_new_at_home clamps reads st st' :
  api_new clamps reads st = (st', Ok tt) ->
  exists c, stored_credentials (c_disk st) c /\ at_home c (c_log st) st' [].
Proof.
  unfold api_new. destruct (load_credentials _ _ _) as [d [c|]] eqn:El; intros Heq; simplify_eq.
  exists c. split; [by eapply load_credentials_stored|]. split; cbn; try done.
  - by rewrite app_nil_r.
  - intros pre r a post Heq. by destruct pre.
  - exists c. split_and!; try done; [by left|by right; left].
Qed.

(** C31: A token never leaves the backend that minted it.  Once a client is built
    from the credentials on disk, whatever the environment names as the backend
    and in whatever order the client's operations run, every request of the
    session goes to the address the credentials file holds: a path below it or
    its token endpoint.  A token a request carries, as its bearer or as a refresh
    token, is one of the pair in the file, or was minted earlier in the session by
    that same token endpoint. *)
Theorem tokens_stay_with_their_backend clamps reads st st' ops :
  api_new clamps reads st = (st', Ok tt) ->
  exists c log, stored_credentials (c_disk st) c /\ c_log (run_ops ops st') = c_log st ++ log /\
    forall pre r a post, log = pre ++ E_Http r a :: post ->
      request_to (cr_backend_url c) r /\
      forall t, carries r t -> t = cr_access_token c \/ t = cr_refresh_token c \/ minted (cr_backend_url c) pre t.
Proof.
  intros Hnew. destruct (api_new_at_home _ _ _ _ Hnew) as (c & Hc & Hh).
  destruct (at_home_ops _ _ ops _ _ Hh) as [log Hh']. exists c, log.
  split; [done|]. split; [apply Hh'|apply (ah_tokens _ _ _ _ Hh')].
Qed.

(** ** Refreshing *)

Definition refresh_request (cr : Credentials) : Request :=
  mkRequest POST (token_url (cr_backend_url cr)) None
    (B_Form [(lit "grant_type", lit "refresh_token"); (lit "refresh_token", cr_refresh_token cr);
             (lit "client_id", CLIENT_ID)]).

(** The answers that end an exchange at once: anything but a 401, and a 401 when
    there is nothing to refresh. *)
Definition answered (st : Cli (S := S)) (a : option Response) : Prop :=
  forall resp, a = Some resp -> rs_status resp = UNAUTHORIZED -> ac_creds (c_client st) = None.

(** What an exchange adds to the log. *)
Inductive exchange_log (st : Cli (S := S)) (r : Request) : list Event -> Prop :=
| El_once a : answered st a -> exchange_log st r [E_Http r a]
| El_refused cr resp a :
    ac_creds (c_client st) = Some cr -> rs_status resp = UNAUTHORIZED ->
    exchange_log st r [E_Http r (Some resp); E_Http (refresh_request cr) a]
| El_again cr resp resp' tok bearer a :
    ac_creds (c_client st) = Some cr -> rs_status resp = UNAUTHORIZED -> is_success resp' = true ->
    rs_text resp' ≫= from_body = Some tok ->
    bearer = default (tk_access_token tok) (ac_static_token (c_client st)) ->
    exchange_log st r [E_Http r (Some resp); E_Http (refresh_request cr) (Some resp');
                       E_Http (mkRequest (rq_method r) (rq_url r) (Some bearer) (rq_body r)) a].

Lemma refresh_log cr st :
  exists a, c_log (refresh cr st).1 = c_log st ++ [E_Http (refresh_request cr) a] /\
    c_client (refresh cr st).1 = c_client st /\
    forall new, (refresh cr st).2 = Ok new -> exists resp tok, a = Some resp /\ is_success resp = true /\
      rs_text resp ≫= from_body = Some tok /\ cr_access_token new = tk_access_token tok /\
      c_disk (refresh cr st).1 = is_private (creds_to_string new).
Proof.
  unfold refresh_credentials, cli_bind, send. fold (refresh_request cr).
  destruct (net (c_world st) (refresh_request cr)) as [w a]. exists a.
  destruct a as [resp|]; [|done]. destruct (is_success resp) eqn:Es; cbn [negb cli_ret]; [|done].
  destruct (read_json _ resp) as [tok|e] eqn:Ej; cbn [map_err fst snd]; [|done].
  destruct (expires_at _ _) as [expires|]; [|done].
  unfold save_credentials. set (new := mkCredentials _ _ _ _). cbn [c_world c_disk c_client c_log].
  destruct (save_credentials_saves (save_io w) (creds_to_string new) (c_disk st)) as [_ Hs].
  destruct (save_credentials_at _ _ _) as [ds ok]. cbn [fst snd] in Hs |- *.
  destruct ok; cbn [fst snd c_log c_client c_disk c_world]; (split; [done|]; split; [done|]); [|congruence].
  intros new' [= <-]. exists resp, tok. unfold read_json in Ej. apply ok_or_Ok in Ej.
  split_and!; try done. by apply Hs.
Qed.

(** A backend ends the process with one number.  A token answer whose lifetime
    is beyond what [chrono] can represent makes the refresh panic, whatever the
    command, before the new pair is saved: the rotated refresh token is lost. *)
Theorem far_expiry_panics cr st w resp tok :
  net (c_world st) (refresh_request cr) = (w, Some resp) -> is_success resp = true ->
  rs_text resp ≫= from_body = Some tok -> MAX_DURATION_SECS < Z.abs (tk_expires_in tok) ->
  (refresh cr st).2 = Err Stop_panic /\ c_disk (refresh cr st).1 = c_disk st.
Proof.
  intros Hn Hs Ht Hfar. unfold refresh_credentials, cli_bind, send. fold (refresh_request cr).
  rewrite Hn, Hs. cbn [negb]. unfold read_json. rewrite Ht. cbn [ok_or cli_ret map_err].
  unfold expires_at. by rewrite (proj2 (Z.ltb_lt _ _) Hfar).
Qed.

(** The process ended in the panic of a token answer: the last thing that
    happened is an answer whose lifetime has no end that [chrono] can represent. *)
Definition far_token (st : Cli (S := S)) : Prop :=
  exists pre r resp tok, c_log st = pre ++ [E_Http r (Some resp)] /\ is_success resp = true /\
    rs_text resp ≫= from_body = Some tok /\ expires_at (clock (c_world st)) (tk_expires_in tok) = None.

Lemma refresh_panic cr st st' : refresh cr st = (st', Err Stop_panic) -> far_token st'.
Proof.
  unfold refresh_credentials, cli_bind, send. fold (refresh_request cr).
  destruct (net (c_world st) (refresh_request cr)) as [w a]. destruct a as [resp|]; [|done].
  destruct (is_success resp) eqn:Es; cbn [negb cli_ret map_err]; [|done].
  destruct (read_json _ resp) as [tok|e] eqn:Ej; cbn [map_err]; [|done]. cbn [c_world].
  destruct (expires_at _ _) as [expires|] eqn:Ee.
  - unfold save_credentials. cbn [c_world c_disk]. by destruct (save_credentials_at _ _ _) as [ds []].
  - intros [= <-]. eexists _, _, resp, tok. unfold read_json in Ej. apply ok_or_Ok in Ej. by split_and!.
Qed.

(** What an exchange ends in: the answer that ended it, a panic of its refresh, or
    an error; a client that has a token keeps one. *)
Lemma exchange_outcome m path body st :
  (is_Some (current_token (c_client st)) -> is_Some (current_token (c_client (exchange m path body st).1))) /\
  match exchange m path body st with
  | (st', Ok resp) => exists pre r, c_log st' = pre ++ [E_Http r (Some resp)]
  | (st', Err Stop_panic) => far_token st'
  | (st', Err (Stop_error _)) => True
  end.
Proof.
  assert (Hsend : forall r st0, c_client (send net "request failed" r st0).1 = c_client st0 /\
    match send net "request failed" r st0 with
    | (st', Ok resp) => exists pre r, c_log st' = pre ++ [E_Http r (Some resp)]
    | (st', Err Stop_panic) => far_token st'
    | (st', Err (Stop_error _)) => True
    end).
  { intros r st0. unfold send. destruct (net _ _) as [w [resp|]]; cbn; eauto. }
  unfold CliApi.exchange, cli_bind. destruct (Hsend (build (c_client st) m path body) st) as [Hc Ho].
  destruct (send _ _ _ st) as [st1 [resp|[e|]]]; cbn [fst] in *; [|by rewrite Hc..].
  destruct (_ && _); cbn [fst]; [|by rewrite Hc].
  unfold refresh_if_possible, cli_bind. destruct (ac_creds (c_client st1)) as [cr|] eqn:Ec; [|cbn [fst]; by rewrite Hc].
  destruct (refresh_log cr st1) as (a & _ & Hcl & _). pose proof (refresh_panic cr st1) as Hp.
  destruct (refresh cr st1) as [st2 [new|[e|]]]; cbn [fst] in *;
    [|split; [by rewrite Hcl, Hc|by auto]..].
  destruct (set_creds new st2) as [st3 r3] eqn:E3. unfold set_creds in E3. injection E3 as <- <-.
  destruct (Hsend (build (mkApiClient (ac_base_url (c_client st2)) (Some new) (ac_static_token (c_client st2))) m path body)
    (mkCli (mkApiClient (ac_base_url (c_client st2)) (Some new) (ac_static_token (c_client st2))) (c_disk st2) (c_world st2) (c_log st2)))
    as [Hc3 Ho3]. split; [|exact Ho3]. intros _. cbn [c_client] in *. rewrite Hc3. unfold current_token. cbn.
  by destruct (ac_static_token _).
Qed.

Lemma exchange_logs m path body st :
  exists log, c_log (exchange m path body st).1 = c_log st ++ log /\
    exchange_log st (build (c_client st) m path body) log.
Proof.
  unfold CliApi.exchange, cli_bind. unfold send at 1.
  destruct (net (c_world st) _) as [w a]. set (r := build _ _ _ _).
  destruct a as [resp|]; cbn [fst snd].
  2: { eexists. split; [done|]. by constructor. }
  cbn [c_client]. destruct (ac_creds (c_client st)) as [cr|] eqn:Ec; cycle 1.
  { rewrite bool_decide_eq_false_2 by (by intros [? ?]). rewrite andb_false_r. cbn.
    eexists. split; [done|]. constructor. by intros resp' [= ->]. }
  destruct (Z.eqb_spec (rs_status resp) UNAUTHORIZED) as [Hu|Hu]; cbn [andb]; cycle 1.
  { eexists. split; [done|]. constructor. by intros resp' [= ->]. }
  rewrite bool_decide_eq_true_2 by done. unfold refresh_if_possible, cli_bind. cbn [c_client]. rewrite Ec.
  destruct (refresh_log cr (mkCli (c_client st) (c_disk st) w (c_log st ++ [E_Http r (Some resp)])))
    as (a & Hl & Hcl & Hnew).
  destruct (refresh cr _) as [st2 [new|e]]; cbn [fst snd c_log c_client] in Hl, Hcl, Hnew.
  2: { eexists. cbn [fst]. split; [by rewrite Hl, <-app_assoc|]. by eapply El_refused. }
  destruct (Hnew new eq_refl) as (resp' & tok & -> & Hs & Htok & Hacc & _).
  cbn [set_creds c_client ac_base_url ac_static_token]. unfold send. destruct (net _ _) as [w3 a3]. cbn [fst c_log].
  exists [E_Http r (Some resp); E_Http (refresh_request cr) (Some resp');
     E_Http (mkRequest (rq_method r) (rq_url r)
       (Some (default (tk_access_token tok) (ac_static_token (c_client st)))) (rq_body r)) a3].
  split; [|by eapply El_again]. rewrite Hl, <-!app_assoc. cbn [app]. do 4 f_equal.
  unfold build, current_token. cbn. rewrite Hcl. subst r. cbn. f_equal. f_equal.
  by destruct (ac_static_token _); cbn; rewrite ?Hacc.
Qed.

(** A call of the client costs at most one refresh.  It sends its request
    once; only when the answer is a 401 and there are credentials does it post
    the refresh token, and only when that gives a new pair does it send the same
    request again, with the new access token and nothing else changed.  A second
    401 is not refreshed. *)
Theorem call_refreshes_at_most_once op st :
  exists r log, c_log (run_op op st) = c_log st ++ log /\ exchange_log st r log /\
    rq_bearer r = current_token (c_client st) /\ (length log <= 3)%nat.
Proof.
  destruct (op_is_exchange op) as (m & path & body & _ & Hop). rewrite Hop.
  destruct (exchange_logs m (lit "/" ++ path) body st) as (log & Hl & He).
  eexists _, log. split; [done|]. split; [done|]. split; [done|].
  destruct He; cbn; lia.
Qed.

(** ** Durability *)

(** The client is the one the file would give. *)
Definition durable (st : Cli (S := S)) : Prop :=
  exists cr f, c_client st = mkApiClient (cr_backend_url cr) (Some cr) None /\
    dk_file (c_disk st) = Some f /\ creds_from_str (pf_content f) = Some cr.

Definition saves_succeed : Prop := forall w data d, (save_credentials_at (save_io w) data d).2 = true.

Lemma durable_send fail r st : durable st -> durable (send net fail r st).1.
Proof. unfold send. by destruct (net _ _). Qed.

Lemma durable_refresh cr st :
  saves_succeed -> durable st -> ac_creds (c_client st) = Some cr ->
  match refresh cr st with
  | (st', Ok new) => durable (set_creds new st').1
  | (st', Err _) => durable st'
  end.
Proof.
  intros Hsave Hd Hc. unfold refresh_credentials, cli_bind. fold (refresh_request cr).
  pose proof (durable_send "refresh request failed" (refresh_request cr) st Hd) as Hd'.
  assert (Hcl : c_client (send net "refresh request failed" (refresh_request cr) st).1 = c_client st)
    by (unfold send; by destruct (net _ _)).
  destruct (send _ _ _ st) as [st1 [resp|e]]; [|done]. cbn [fst] in Hd', Hcl.
  destruct (is_success resp); cbn [negb cli_ret]; [|done].
  destruct (read_json _ resp) as [tok|e]; [|done]. cbn [map_err].
  destruct (expires_at _ _) as [expires|]; [|done].
  unfold save_credentials. set (new := mkCredentials _ _ _ _).
  destruct (save_credentials_saves (save_io (c_world st1)) (creds_to_string new) (c_disk st1)) as [_ Hs].
  specialize (Hs (Hsave _ _ _)). rewrite (Hsave (c_world st1)).
  cbv beta iota delta [cli_ret]. unfold set_creds. cbn [fst c_client c_disk]. rewrite Hs.
  destruct Hd as (cr' & f & Hcc & _). rewrite Hcc in Hc. injection Hc as ->.
  exists new, (mkPrivateFile (creds_to_string new) MODE_0600). cbn. rewrite Hcl, Hcc. cbn.
  split_and!; try done. apply creds_round_trip.
Qed.

Lemma durable_exchange m path body st :
  saves_succeed -> durable st -> durable (exchange m path body st).1.
Proof.
  intros Hsave Hd. unfold CliApi.exchange, cli_bind.
  pose proof (durable_send "request failed" (build (c_client st) m path body) st Hd) as Hd1.
  destruct (send _ _ _ st) as [st1 [resp|e]]; [|done]. cbn [fst] in Hd1.
  destruct (_ && _); [|done]. unfold refresh_if_possible, cli_bind.
  destruct (ac_creds (c_client st1)) as [cr|] eqn:Ec; [|done].
  pose proof (durable_refresh cr st1 Hsave Hd1 Ec) as Hd2.
  destruct (refresh cr st1) as [st2 [new|e]]; [|done].
  change (set_creds new st2) with ((set_creds new st2).1, @Ok unit Stop tt). cbv beta iota.
  by apply durable_send.
Qed.

(** A rotated pair is on disk as soon as it is in memory.  As long as saves
    succeed, whatever operations a session runs and however often its tokens are
    rotated, a process started afterwards builds the very client the session
    ended with: no refresh token that the backend still honours is lost. *)
Theorem rotated_credentials_are_durable clamps reads clamps' st st' ops :
  saves_succeed -> api_new clamps reads st = (st', Ok tt) ->
  exists st'', api_new clamps' true (run_ops ops st') = (st'', Ok tt) /\
    c_client st'' = c_client (run_ops ops st').
Proof.
  intros Hsave Hnew.
  assert (Hd : durable st').
  { unfold api_new, load_credentials in Hnew. destruct reads; [|done].
    set (d := if clamps then _ else c_disk st) in Hnew.
    destruct (dk_file d) as [f|] eqn:Ef; cbn [mbind option_bind] in Hnew; [|done].
    destruct (creds_from_str _) as [c|] eqn:Ec; [|done]. injection Hnew as <-. by exists c, f. }
  assert (Hops : durable (run_ops ops st')).
  { clear Hnew. revert st' Hd. induction ops as [|op ops IH]; intros st' Hd; [done|].
    destruct (op_is_exchange op) as (m & path & body & _ & Hop).
    change (run_ops (op :: ops) st') with (run_ops ops (run_op op st')). rewrite Hop.
    by apply IH, durable_exchange. }
  destruct Hops as (cr & f & Hc & Hf & Hp). unfold api_new, load_credentials.
  destruct clamps'; cbn [dk_file]; rewrite Hf; cbn [fmap option_fmap option_map mbind option_bind pf_content];
    rewrite Hp; eexists; (split; [done|]); by rewrite Hc.
Qed.
End Tokens.

(** The credentials' file and the key index's are never exposed: at no point of a
    save, whichever call of it fails and whatever the mode of the file before,
    does the disk hold a byte of the new contents except in a file of mode
    [0600]; and a save that succeeds leaves exactly the contents, in a file of
    mode [0600] and a directory of mode [0700]. *)
Theorem credentials_are_never_exposed io data d0 :
  let run := save_credentials_at io data d0 in
  let run' := save_index_to io data d0 in
  (Forall (exposes_nothing d0 data) run.1 /\ (run.2 = true -> saved d0 run = is_private data)) /\
  (Forall (exposes_nothing d0 data) run'.1 /\ (run'.2 = true -> saved d0 run' = is_private data)).
Proof. split; [apply save_credentials_saves|apply save_index_saves]. Qed.

(** ** Queries *)

(** [cbn] with numbers kept. *)
Ltac zsolve := unfold unreserved, b64url_char, is_ascii_alphanumeric, is_upper, is_lower, is_digit in *; lia.

Lemma to_digit_hex d : 0 <= d < 16 -> to_digit 16 (hex_upper d) = Some d.
Proof.
  intros Hd. unfold to_digit, hex_upper, is_digit, is_lower, is_upper.
  repeat case_match; first [f_equal; lia | lia].
Qed.

Lemma percent_decode_plain c s : c <> 43 -> c <> 37 -> percent_decode (c :: s) = c :: percent_decode s.
Proof. intros H1 H2. cbn [percent_decode]. by rewrite (proj2 (Z.eqb_neq _ _) H1), (proj2 (Z.eqb_neq _ _) H2). Qed.

Lemma percent_decode_encoded bs :
  forallb is_byte bs = true ->
  percent_decode (bs ≫= fun b => if unreserved b then [b] else [37; hex_upper (b / 16); hex_upper (b mod 16)]) = bs.
Proof.
  induction bs as [|b bs IH]; [done|]. cbn [forallb]. rewrite andb_true_iff. intros [Hb Hbs].
  rewrite bind_cons. destruct (unreserved b) eqn:Eu; cbn [app].
  - rewrite percent_decode_plain by zsolve. by rewrite IH.
  - cbn [percent_decode]. cbn [Z.eqb Pos.eqb]. unfold is_byte in Hb.
    rewrite !to_digit_hex by (try (split; [apply Z.div_pos|apply Z.div_lt_upper_bound]; lia); apply Z.mod_pos_bound; lia).
    rewrite IH by done. f_equal. pose proof (Z.div_mod b 16). lia.
Qed.

(** Characters that neither end a value nor split a pair. *)
Definition value_char (c : Z) : bool := negb (c =? 38) && negb (c =? 61).

Lemma urlencoded_chars s : forallb is_byte (as_bytes s) = true -> forallb value_char (urlencoding_encode s) = true.
Proof.
  unfold urlencoding_encode. induction (as_bytes s) as [|b bs IH]; [done|].
  cbn [forallb]. rewrite andb_true_iff. intros [Hb Hbs]. rewrite bind_cons, forallb_app, (IH Hbs), andb_true_r.
  unfold value_char. destruct (unreserved b) eqn:Eu; cbn [forallb].
  - unfold is_byte in Hb. zsolve.
  - unfold is_byte in Hb. assert (0 <= b / 16 < 16) by (split; [apply Z.div_pos|apply Z.div_lt_upper_bound]; lia).
    pose proof (Z.mod_pos_bound b 16). unfold hex_upper. repeat case_match; lia.
Qed.

Lemma b64url_plain s : forallb b64url_char s = true -> percent_decode s = s /\ forallb value_char s = true.
Proof.
  induction s as [|c s IH]; [done|]. cbn [forallb]. rewrite !andb_true_iff. intros [Hc Hs].
  destruct (IH Hs) as [Hd Hv]. rewrite percent_decode_plain, Hd by zsolve.
  split; [done|]. split; [unfold value_char; zsolve|done].
Qed.

Lemma forallb_weaken (p q : Z -> bool) s : (forall c, p c = true -> q c = true) -> forallb p s = true -> forallb q s = true.
Proof. intros Hpq. rewrite !forallb_forall. eauto. Qed.

Lemma split_on_whole s : forallb (fun c => negb (c =? 38)) s = true -> split_on 38 s = [s].
Proof.
  induction s as [|c s IH]; [done|]. cbn [forallb]. rewrite andb_true_iff. intros [Hc Hs].
  cbn [split_on]. rewrite (IH Hs). by destruct (Z.eqb_spec c 38).
Qed.

Lemma split_on_app s rest : forallb (fun c => negb (c =? 38)) s = true -> split_on 38 (s ++ 38 :: rest) = s :: split_on 38 rest.
Proof.
  induction s as [|c s IH]; [done|]. cbn [forallb]. rewrite andb_true_iff. intros [Hc Hs].
  cbn [app split_on]. rewrite (IH Hs). by destruct (Z.eqb_spec c 38).
Qed.

Lemma split_once_key sep k v : forallb (fun c => negb (c =? sep)) k = true -> split_once sep (k ++ sep :: v) = Some (k, v).
Proof.
  rewrite forallb_forall. intros Hk. apply split_once_app. intros Hin%list_elem_of_In%Hk.
  by rewrite Z.eqb_refl in Hin.
Qed.

(** A pair of a query, when neither part has a separator. *)
Definition pair_of (k v : str) : str := k ++ 61 :: v.
Fixpoint query_of (pairs : list (str * str)) : str :=
  match pairs with
  | [] => []
  | [(k, v)] => pair_of k v
  | (k, v) :: pairs => pair_of k v ++ 38 :: query_of pairs
  end.

Lemma parse_query_of pairs :
  pairs <> [] -> Forall (fun kv => forallb value_char kv.1 = true /\ forallb value_char kv.2 = true) pairs ->
  parse_query (query_of pairs) = (fun kv => (percent_decode kv.1, percent_decode kv.2)) <$> pairs.
Proof.
  intros Hne Hall.
  assert (Hp : forall k v, forallb value_char k = true -> split_once 61 (pair_of k v) = Some (k, v)).
  { intros k v Hk. apply split_once_key. eapply forallb_weaken; [|exact Hk]. unfold value_char. lia. }
  assert (Hs : forall k v, forallb value_char k = true -> forallb value_char v = true ->
                 forallb (fun c => negb (c =? 38)) (pair_of k v) = true).
  { intros k v Hk Hv. unfold pair_of. rewrite forallb_app. cbn [forallb]. rewrite andb_true_iff. split;
      [eapply forallb_weaken; [|exact Hk]|cbn; eapply forallb_weaken; [|exact Hv]]; unfold value_char; lia. }
  unfold parse_query. induction Hall as [|[k v] pairs [Hk Hv] Hrest IH]; [done|]. cbn [fst snd] in Hk, Hv.
  destruct pairs as [|kv pairs].
  - cbn [query_of fmap list_fmap fst snd]. rewrite split_on_whole by auto. cbn [fmap list_fmap]. by rewrite Hp.
  - change (query_of ((k, v) :: kv :: pairs)) with (pair_of k v ++ 38 :: query_of (kv :: pairs)).
    rewrite split_on_app by auto. rewrite !fmap_cons, IH by done. by rewrite Hp.
Qed.

(** ** Login *)

Lemma print_digits_digits fuel n acc :
  0 <= n -> forallb is_digit acc = true -> forallb is_digit (print_digits fuel n acc) = true.
Proof.
  revert n acc. induction fuel as [|fuel IH]; intros n acc Hn Ha; [done|]. cbn [print_digits].
  assert (Hd : forallb is_digit ((48 + n mod 10) :: acc) = true).
  { cbn [forallb]. rewrite Ha, andb_true_r. pose proof (Z.mod_pos_bound n 10). unfold is_digit. lia. }
  destruct (n <? 10); [done|]. apply IH; [by apply Z.div_pos|done].
Qed.

Lemma trim_start_matches_suffix c s : exists p, s = p ++ trim_start_matches c s.
Proof.
  induction s as [|x s [p IH]]; [by exists []|]. cbn [trim_start_matches].
  destruct (x =? c); [exists (x :: p); cbn; by f_equal|by exists []].
Qed.

Lemma trim_end_matches_chars (q : Z -> bool) c s : forallb q s = true -> forallb q (trim_end_matches c s) = true.
Proof.
  intros Hs. unfold trim_end_matches. destruct (trim_start_matches_suffix c (reverse s)) as [p Hp].
  rewrite forallb_forall in Hs |- *. intros x Hx. apply Hs.
  rewrite <-list_elem_of_In, elem_of_reverse in Hx. rewrite <-list_elem_of_In, <-(reverse_involutive s), elem_of_reverse, Hp.
  apply elem_of_app. by right.
Qed.

Section LoginProofs.
Context {S : Type} (net : S -> Request -> S * option Response) (clock : S -> Z) (save_io : S -> SaveIo).
Context `{CJ : CredJson} `{FT : FromBody TokenResponse} `{BU : B64Url} (sha256 : bytes -> bytes).

Abbreviation start := (start_login sha256).
Abbreviation wait := (wait_for_token net clock save_io).

(** The parameters of an authorization request ([RFC 6749], [RFC 7636]). *)
Definition authorize_pairs (p : PendingLogin) : list (bytes * bytes) :=
  [(lit "response_type", lit "code"); (lit "client_id", CLIENT_ID); (lit "redirect_uri", pl_redirect_uri p);
   (lit "code_challenge", challenge_for sha256 (pl_pkce_verifier p)); (lit "code_challenge_method", lit "S256");
   (lit "state", pl_state_token p)].

Lemma redirect_uri_ascii port :
  0 <= port -> forallb (fun c => (0 <=? c) && (c <? 128)) (lit "http://127.0.0.1:" ++ print_uint port ++ lit "/cb") = true.
Proof.
  intros Hp. rewrite !forallb_app. rewrite !andb_true_iff. split; [by vm_compute|]. split; [|by vm_compute].
  eapply forallb_weaken; [|apply (print_digits_digits 20 port []); [done|done]]. unfold is_digit. lia.
Qed.

Lemma authorize_query env port d32 d16 p :
  start env (Ok port) d32 d16 = Ok p -> 0 <= port -> forallb (fun c => negb (c =? 63)) (backend_url env) = true ->
  exists q, split_once 63 (pl_approval_url p) = Some (trim_end_matches 47 (pl_backend p) ++ lit "/oauth/authorize", q) /\
    parse_query q = authorize_pairs p.
Proof.
  intros Hs Hport Hb. unfold start_login in Hs. cbn [map_err] in Hs.
  apply (f_equal result_ok) in Hs. cbn [result_ok] in Hs. apply Some_inj in Hs. subst p.
  unfold authorize_pairs. cbn [pl_approval_url pl_backend pl_redirect_uri pl_pkce_verifier pl_state_token].
  pose proof (redirect_uri_ascii port Hport) as Hascii.
  set (uri := lit "http://127.0.0.1:" ++ print_uint port ++ lit "/cb") in *.
  set (ch := challenge_for sha256 (generate_verifier d32)). set (tok := generate_token d16).
  assert (Hab : as_bytes uri = uri) by (apply as_bytes_ascii, Forall_forall; intros c Hc%list_elem_of_In; rewrite forallb_forall in Hascii;
        specialize (Hascii c Hc); lia).
  assert (Hby : forallb is_byte (as_bytes uri) = true)
    by (rewrite Hab; eapply forallb_weaken; [|exact Hascii]; unfold is_byte; lia).
  assert (Hu : percent_decode (urlencoding_encode uri) = uri).
  { unfold urlencoding_encode. rewrite percent_decode_encoded by done. done. }
  assert (Huv : forallb value_char (urlencoding_encode uri) = true) by by apply urlencoded_chars.
  destruct (b64url_plain ch (b64url_chars _)) as [Hch Hchv]. destruct (b64url_plain tok (b64url_chars _)) as [Htok Htokv].
  clearbody uri ch tok.
  exists (query_of [(lit "response_type", lit "code"); (lit "client_id", urlencoding_encode CLIENT_ID);
    (lit "redirect_uri", urlencoding_encode uri); (lit "code_challenge", ch);
    (lit "code_challenge_method", lit "S256"); (lit "state", tok)]).
  set (euri := urlencoding_encode uri) in *. clearbody euri. split.
  - rewrite <-(split_once_key 63 (trim_end_matches 47 (backend_url env) ++ lit "/oauth/authorize")).
    + rewrite <-app_assoc. apply (f_equal (split_once 63)), (f_equal (app (trim_end_matches 47 (backend_url env)))).
      reflexivity.
    + rewrite forallb_app, trim_end_matches_chars by done. by vm_compute.
  - rewrite parse_query_of; [|done|].
    + cbn [fmap list_fmap fst snd]. by rewrite Hu, Hch, Htok.
    + repeat (apply Forall_cons_2; [by split; vm_compute + done|]). apply Forall_nil_2.
Qed.

Lemma first_callback arrivals :
  os_sent (foldl handle_callback (mkOneshot true None) arrivals) = head arrivals.
Proof.
  destruct arrivals as [|q arrivals]; [done|]. cbn [foldl head]. unfold handle_callback at 2. cbn.
  induction arrivals as [|q' arrivals IH]; [done|]. exact IH.
Qed.

Definition code_request (p : PendingLogin) (code : str) : Request :=
  mkRequest POST (token_url (pl_backend p)) None
    (B_Form [(lit "grant_type", lit "authorization_code"); (lit "code", code);
             (lit "redirect_uri", pl_redirect_uri p); (lit "code_verifier", pl_pkce_verifier p);
             (lit "client_id", CLIENT_ID)]).

(** A wait sends nothing, or the one exchange of its own callback's code. *)
Lemma wait_outcome p arrivals dropped st st' r :
  wait p arrivals dropped st = (st', r) ->
  (c_log st' = c_log st /\ c_disk st' = c_disk st /\ forall t, r <> Ok t) \/
  exists cb rest code a, arrivals = cb :: rest /\ cb_error cb = None /\ cb_state cb = Some (pl_state_token p) /\
    cb_code cb = Some code /\ c_log st' = c_log st ++ [E_Http (code_request p code) a] /\
    forall t, r = Ok t -> exists resp tok creds, a = Some resp /\ is_success resp = true /\
      rs_text resp ≫= from_body = Some tok /\ t = tk_access_token tok /\ cr_access_token creds = t /\
      cr_refresh_token creds = tk_refresh_token tok /\ cr_backend_url creds = pl_backend p /\
      c_disk st' = is_private (creds_to_string creds).
Proof.
  unfold wait_for_token. rewrite first_callback. destruct arrivals as [|cb rest]; cbn [head].
  { intros [= <- <-]. by left. }
  destruct (cb_error cb) eqn:Ee; [intros [= <- <-]; by left|].
  case_bool_decide as Es; cbn [negb]; [|intros [= <- <-]; by left].
  unfold cli_bind, cli_ret. destruct (cb_code cb) as [code|] eqn:Ec; cbn [ok_or map_err]; [|intros [= <- <-]; by left].
  unfold exchange_code, cli_bind, send, cli_ret. fold (code_request p code).
  destruct (net (c_world st) (code_request p code)) as [w a]. intros Hw. right. exists cb, rest, code, a.
  do 4 (split; [done|]). destruct a as [resp|]; [|by simplify_eq].
  destruct (is_success resp) eqn:Esu; cbn [negb map_err] in Hw; [|by simplify_eq].
  destruct (read_json _ resp) as [tok|e] eqn:Ej; cbn [map_err] in Hw; [|by simplify_eq].
  destruct (expires_at _ _) as [expires|]; [|unfold cli_panic in Hw; by simplify_eq].
  unfold save_credentials in Hw. cbn [c_world c_disk c_client c_log] in Hw. set (creds := mkCredentials _ _ _ _) in Hw.
  destruct (save_credentials_saves (save_io w) (creds_to_string creds) (c_disk st)) as [_ Hs].
  destruct (save_credentials_at _ _ _) as [ds ok]. cbn [fst snd] in Hs, Hw.
  destruct ok; injection Hw as <- <-; (split; [done|]); [|done]. intros t [= <-].
  exists resp, tok, creds. unfold read_json in Ej. apply ok_or_Ok in Ej. split_and!; try done. by apply Hs.
Qed.

Lemma wait_panic p arrivals dropped st st' :
  wait p arrivals dropped st = (st', Err Stop_panic) -> far_token clock st'.
Proof.
  unfold wait_for_token. destruct (os_sent _) as [cb|]; [|done]. destruct (cb_error cb); [done|].
  destruct (negb _); [done|]. unfold cli_bind, cli_ret. destruct (cb_code cb) as [code|]; [|done]. cbn [ok_or map_err].
  unfold exchange_code, cli_bind, send, cli_ret. destruct (net _ _) as [w [resp|]]; [|done].
  destruct (is_success resp) eqn:Es; cbn [negb map_err]; [|done].
  destruct (read_json _ resp) as [tok|e] eqn:Ej; cbn [map_err]; [|done]. cbn [c_world].
  destruct (expires_at _ _) as [expires|] eqn:Ee.
  - unfold save_credentials. cbn [c_world c_disk]. by destruct (save_credentials_at _ _ _) as [ds []].
  - intros [= <-]. eexists _, _, resp, tok. unfold read_json in Ej. apply ok_or_Ok in Ej. by split_and!.
Qed.

(** A login is bound to its own callback.  The URL a login opens, read the way
    the authorization server reads it, has exactly the parameters of a PKCE
    request: this client, the loopback address it listens on, the challenge of
    the verifier it keeps, its state.  Then whatever reaches the listener, a code
    is exchanged only if the first callback carries the login's own state and no
    error; the exchange goes to the backend the login was started with, names
    the same loopback address, and carries the verifier whose challenge the URL
    showed.  A login that succeeds has written the pair that exchange returned,
    with that backend's address, to a private file. *)
Theorem login_is_bound_to_its_callback env port d32 d16 p :
  start env (Ok port) d32 d16 = Ok p -> 0 <= port ->
  forallb (fun c => negb (c =? 63)) (backend_url env) = true ->
  (exists q, split_once 63 (pl_approval_url p) = Some (trim_end_matches 47 (pl_backend p) ++ lit "/oauth/authorize", q) /\
     parse_query q = authorize_pairs p) /\
  forall arrivals dropped st st' r, wait p arrivals dropped st = (st', r) ->
    (c_log st' = c_log st /\ c_disk st' = c_disk st /\ forall t, r <> Ok t) \/
    exists cb rest code a, arrivals = cb :: rest /\ cb_error cb = None /\ cb_state cb = Some (pl_state_token p) /\
      cb_code cb = Some code /\ c_log st' = c_log st ++ [E_Http (code_request p code) a] /\
      forall t, r = Ok t -> exists resp tok creds, a = Some resp /\ is_success resp = true /\
        rs_text resp ≫= from_body = Some tok /\ t = tk_access_token tok /\ cr_access_token creds = t /\
        cr_refresh_token creds = tk_refresh_token tok /\ cr_backend_url creds = pl_backend p /\
        c_disk st' = is_private (creds_to_string creds).
Proof.
  intros Hs Hport Hb. split; [by eapply authorize_query|]. intros arrivals dropped st st' r Hw. by eapply wait_outcome.
Qed.

(** The first callback is the only one: any request that reaches the listener
    first, from whatever page of the machine, ends the login, and the
    authorization server's own callback after it is not looked at. *)
Theorem stray_callback_ends_login p stray arrivals dropped st :
  cb_state stray <> Some (pl_state_token p) ->
  exists e, wait p (stray :: arrivals) dropped st = (st, Err e).
Proof.
  intros Hne. unfold wait_for_token. rewrite first_callback. cbn [head].
  destruct (cb_error stray); [by eexists|]. rewrite bool_decide_eq_false_2 by done. by eexists.
Qed.
End LoginProofs.

(** ** Witnesses *)

Module ApiDemo.
Definition put_str (s rest : str) : str := Z.of_nat (length s) :: s ++ rest.
Definition get_str (s : str) : option (str * str) :=
  match s with
  | n :: rest => Some (take (Z.to_nat n) rest, drop (Z.to_nat n) rest)
  | [] => None
  end.

Lemma get_put_str s rest : get_str (put_str s rest) = Some (s, rest).
Proof. unfold get_str, put_str. by rewrite Nat2Z.id, take_app_length, drop_app_length. Qed.

(** A format of credentials that reads back. *)
Definition to_str (c : Credentials) : str :=
  put_str (cr_access_token c) (put_str (cr_refresh_token c) (cr_expires_at c :: cr_backend_url c)).
Definition of_str (s : str) : option Credentials :=
  '(a, s) ← get_str s; '(r, s) ← get_str s;
  match s with e :: b => Some (mkCredentials a r e b) | [] => None end.

Lemma of_to_str c : of_str (to_str c) = Some c.
Proof.
  unfold of_str, to_str. rewrite get_put_str. cbn [mbind option_bind]. rewrite get_put_str. cbn [mbind option_bind].
  by destruct c.
Qed.

#[export] Instance demo_creds : CredJson :=
  {| creds_to_string := to_str; creds_from_str := of_str; creds_round_trip := of_to_str |}.
#[export] Instance demo_token : FromBody TokenResponse := fun s => Some (mkTokenResponse (97 :: s) (114 :: s) 3600).
#[export] Instance demo_json : FromBody Json := fun _ => Some J_Null.
#[export] Instance demo_any T : FromBody T | 100 := fun _ => None.

Lemma demo_chars (bs : bytes) : forallb b64url_char (if decide (bs = []) then [] else lit "Zm9v") = true.
Proof. by case_decide. Qed.
#[export] Instance demo_b64 : B64Url :=
  {| b64url := fun bs => if decide (bs = []) then [] else lit "Zm9v"; b64url_chars := demo_chars |}.

(** A backend that honours only tokens it has minted: the world counts requests. *)
Definition backend : str := lit "https://b.example".
Definition net (n : nat) (r : Request) : nat * option Response :=
  (Datatypes.S n,
   Some (if bool_decide (rq_url r = token_url backend) then mkResponse 200 (Some [Z.of_nat n])
         else if bool_decide (rq_bearer r = Some (lit "old")) then mkResponse 401 None
         else mkResponse 200 (Some []))).
Definition clock (n : nat) : Z := Z.of_nat n.
Definition io (n : nat) : SaveIo := io_fine.
Definition time_json (t : Z) : Json := J_U64 t.
Definition submit_json (s : ConfirmSubmitRequest) : Json := J_Null.

Definition stored : Credentials := mkCredentials (lit "old") (lit "r0") 0 backend.
Definition logged_out : Cli (S := nat) :=
  mkCli (mkApiClient [] None None) (mkDisk (Some 493) (Some (mkPrivateFile (to_str stored) 420))) 0%nat [].
Definition started : Cli (S := nat) := (api_new true true logged_out).1.
Definition ops : list ApiOp := [Op_get_enclave (lit "e1"); Op_get_enclave (lit "e1")].
Definition login : PendingLogin :=
  match start_login (fun b => b) (Some backend) (Ok 4000) [1] [2] with
  | Ok p => p
  | Err _ => mkPendingLogin [] 0 [] [] [] []
  end.
End ApiDemo.
#[local] Existing Instances ApiDemo.demo_creds ApiDemo.demo_token ApiDemo.demo_json ApiDemo.demo_any ApiDemo.demo_b64.

(** The stored token is refused, refreshed once and used again; the second call
    needs no refresh: four requests, all to the backend. *)
Lemma tokens_stay_with_their_backend_witness :
  length (c_log (run_ops ApiDemo.net ApiDemo.clock ApiDemo.io ApiDemo.time_json ApiDemo.submit_json
                   ApiDemo.ops ApiDemo.started)) = 4%nat /\
  exists c log, stored_credentials (c_disk ApiDemo.logged_out) c /\
    c_log (run_ops ApiDemo.net ApiDemo.clock ApiDemo.io ApiDemo.time_json ApiDemo.submit_json
             ApiDemo.ops ApiDemo.started) = c_log ApiDemo.logged_out ++ log /\
    forall pre r a post, log = pre ++ E_Http r a :: post ->
      request_to (cr_backend_url c) r /\
      forall t, carries r t -> t = cr_access_token c \/ t = cr_refresh_token c \/ minted (cr_backend_url c) pre t.
Proof.
  split; [vm_compute; reflexivity|].
  apply (tokens_stay_with_their_backend ApiDemo.net ApiDemo.clock ApiDemo.io ApiDemo.time_json ApiDemo.submit_json
           true true ApiDemo.logged_out ApiDemo.started ApiDemo.ops).
  vm_compute. reflexivity.
Defined.

Lemma rotated_credentials_are_durable_witness :
  exists st'', api_new false true (run_ops ApiDemo.net ApiDemo.clock ApiDemo.io ApiDemo.time_json ApiDemo.submit_json
                 ApiDemo.ops ApiDemo.started) = (st'', Ok tt) /\
    c_client st'' = c_client (run_ops ApiDemo.net ApiDemo.clock ApiDemo.io ApiDemo.time_json ApiDemo.submit_json
                      ApiDemo.ops ApiDemo.started).
Proof.
  apply (rotated_credentials_are_durable ApiDemo.net ApiDemo.clock ApiDemo.io ApiDemo.time_json ApiDemo.submit_json
           true true false ApiDemo.logged_out).
  - intros w data d. reflexivity.
  - vm_compute. reflexivity.
Defined.

Lemma login_is_bound_to_its_callback_witness :
  parse_query (default [] (snd <$> split_once 63 (pl_approval_url ApiDemo.login))) =
    authorize_pairs (fun b => b) ApiDemo.login /\
  ((exists q, split_once 63 (pl_approval_url ApiDemo.login) =
      Some (trim_end_matches 47 (pl_backend ApiDemo.login) ++ lit "/oauth/authorize", q) /\
      parse_query q = authorize_pairs (fun b => b) ApiDemo.login) /\
   forall arrivals dropped st st' r,
     wait_for_token ApiDemo.net ApiDemo.clock ApiDemo.io ApiDemo.login arrivals dropped st = (st', r) ->
     (c_log st' = c_log st /\ c_disk st' = c_disk st /\ forall t, r <> Ok t) \/
     exists cb rest code a, arrivals = cb :: rest /\ cb_error cb = None /\
       cb_state cb = Some (pl_state_token ApiDemo.login) /\ cb_code cb = Some code /\
       c_log st' = c_log st ++ [E_Http (code_request ApiDemo.login code) a] /\
       forall t, r = Ok t -> exists resp tok creds, a = Some resp /\ is_success resp = true /\
         rs_text resp ≫= from_body = Some tok /\ t = tk_access_token tok /\ cr_access_token creds = t /\
         cr_refresh_token creds = tk_refresh_token tok /\ cr_backend_url creds = pl_backend ApiDemo.login /\
         c_disk st' = is_private (creds_to_string creds)).
Proof.
  split; [vm_compute; reflexivity|].
  apply (login_is_bound_to_its_callback ApiDemo.net ApiDemo.clock ApiDemo.io (fun b => b)
           (Some ApiDemo.backend) 4000 [1] [2]); [vm_compute; reflexivity|lia|vm_compute; reflexivity].
Defined.
