(* ===== verification/CliLocal.v ===== *)
(** What the command line decides before it talks to the backend: the names of
    secrets ([enclavia-cli/src/commands/secrets.rs] and [main.rs]), the flags of
    a create ([commands/enclave.rs]), the local build ([commands/build.rs]), the
    digest of a push ([commands/push.rs]) and the control keys on a YubiKey
    ([commands/key.rs], the device half of [signer.rs]).

    The YubiKey, the files read and the builder are parameters; a computation
    that touches the device returns the trace of what it did to it. *)
From stdpp Require Import base gmap list strings.
From S2P Require Import Prelude Identity Text Signing EgressConfig KmsPolicy SecretsInit Chain CliReproduce CliUpgrade CliApi.
#[local] Open Scope Z_scope.

(** ** Secrets *)

Definition NAME_MAX_LEN : Z := 64.

Definition RESERVED_NAMES : list str :=
  [lit "PATH"; lit "HOME"; lit "HOSTNAME"; lit "PWD"; lit "OLDPWD"; lit "TERM"; lit "SHLVL"; lit "_"].

Definition secret_validate_name (name : str) : result unit CliError :=
  match name with
  | [] => Err (Other "secret name must not be empty")
  | first :: chars =>
      if NAME_MAX_LEN <? str_len name then Err (Other "secret name too long")
      else if negb (is_upper first || (first =? 95)) then Err (Other "secret name must start with A-Z or '_'")
      else if negb (forallb (fun c => is_upper c || is_digit c || (c =? 95)) chars)
      then Err (Other "secret name must match ^[A-Z_][A-Z0-9_]*$")
      else if bool_decide (lit "__" `prefix_of` name) then Err (Other "secret names starting with '__' are reserved")
      else if bool_decide (name ∈ RESERVED_NAMES) then Err (Other "secret name is reserved (runtime-set)")
      else Ok tt
  end.

Definition parse_name_value (input : str) : result (str * str) CliError :=
  let? (name, value) := ok_or (split_once 61 input) (Other "expected NAME=VALUE") in
  let? _ := secret_validate_name name in
  Ok (name, value).

Definition strip_one_trailing_newline (s : str) : str :=
  if ends_with s 10 then
    let s := removelast s in
    if ends_with s 13 then removelast s else s
  else s.

(** The three input shapes of [secret set]; the two readers give a text or an
    error, and a file is checked for UTF-8. *)
Definition collect_set_pairs (positional : list str) (stdin : option (result str CliError))
    (file : option (result bytes CliError)) (name : option str) : result (list (str * str)) CliError :=
  match stdin, file with
  | None, None => map_result parse_name_value positional
  | _, _ =>
      if negb (bool_decide (positional = []))
      then Err (Other "positional NAME=value pairs are mutually exclusive with --from-stdin / --from-file")
      else
        let? n := ok_or name (Other "--from-stdin / --from-file requires --name NAME") in
        let? _ := secret_validate_name n in
        let? value := match stdin, file with
                      | Some read, _ => let? buf := read in Ok (strip_one_trailing_newline buf)
                      | None, Some read => let? bs := read in ok_or (from_utf8 bs) (Other "not valid UTF-8")
                      | None, None => Ok []
                      end in
        Ok [(n, value)]
  end.

(** ** Flags of a create *)

Record EgressInputs := mkEgressInputs {
  ei_allows : list str;
  ei_resolvers : list str;
  ei_dns : option str;
  ei_config_path : option str;
}.

Definition ei_is_empty (i : EgressInputs) : bool :=
  bool_decide (ei_allows i = []) && bool_decide (ei_resolvers i = []) &&
  bool_decide (ei_dns i = None) && bool_decide (ei_config_path i = None).
Definition ei_has_flags (i : EgressInputs) : bool :=
  negb (bool_decide (ei_allows i = [])) || negb (bool_decide (ei_resolvers i = [])) ||
  bool_decide (is_Some (ei_dns i)).

Section Egress.
Context `{Ipnet}.
(** A file's bytes, JSON text, and the document as a JSON value and back. *)
Context (read : str -> result bytes string) (from_slice : bytes -> result Json string).
Context (raw_from_value : Json -> result RawAllowlist string) (raw_to_value : RawAllowlist -> Json).

Definition build_egress_allowlist (i : EgressInputs) : result (option Json) CliError :=
  if ei_is_empty i then Ok None
  else if bool_decide (is_Some (ei_config_path i)) && ei_has_flags i
  then Err (Other "--egress-config is mutually exclusive with the other egress flags")
  else match ei_config_path i with
       | Some path =>
           let? bytes := map_err (fun _ => Other "reading the egress config") (read path) in
           let? value := map_err (fun _ => Other "parsing the egress config as JSON") (from_slice bytes) in
           let? _ := map_err (fun _ => Other "invalid egress allowlist") (validate_json Json raw_from_value value) in
           Ok (Some value)
       | None =>
           let? dns := match ei_dns i with
                       | Some s => let? d := map_err (fun _ => Other "invalid egress flags") (dns_mode_from_str s) in Ok (Some d)
                       | None => Ok None
                       end in
           let? raw := map_err (fun _ => Other "invalid egress flags") (assemble_from_cli (ei_allows i) (ei_resolvers i) dns) in
           Ok (Some (raw_to_value raw))
       end.
End Egress.

(** The unit a suffix names. *)
Definition delay_unit (raw : str) : option (str * Z) :=
  match last raw with
  | None => None
  | Some c =>
      let number := removelast raw in
      if c =? 115 then Some (number, 1)
      else if c =? 109 then Some (number, 60)
      else if c =? 104 then Some (number, 3600)
      else if c =? 100 then Some (number, 86400)
      else if is_digit c then Some (raw, 1)
      else None
  end.

Definition parse_min_upgrade_delay (raw : str) : result Z CliError :=
  let raw := trim raw in
  let? (number, multiplier) := ok_or (delay_unit raw) (Other "invalid --min-upgrade-delay") in
  let? n := map_err (fun _ => Other "invalid --min-upgrade-delay") (parse_uint u64_max number) in
  let? secs := ok_or (if n * multiplier <=? u64_max then Some (n * multiplier) else None)
                 (Other "--min-upgrade-delay overflows seconds") in
  if secs =? 0 then Err (Other "--min-upgrade-delay must be greater than zero") else Ok secs.

(** ** The local build *)

Definition EXPLICIT_TRANSPORTS : list str :=
  [lit "docker://"; lit "docker-daemon:"; lit "docker-archive:"; lit "oci:"; lit "oci-archive:";
   lit "containers-storage:"].

Fixpoint find_char (i : nat) (c : Z) (s : str) : option nat :=
  match s with
  | [] => None
  | x :: s => match find_char (Datatypes.S i) c s with
              | Some j => Some j
              | None => if x =? c then Some i else None
              end
  end.
(** [str::rfind]. *)
Definition rfind (c : Z) (s : str) : option nat := find_char 0 c s.

Definition source_reference (image : str) (pull : bool) : str :=
  if existsb (fun t => bool_decide (t `prefix_of` image)) EXPLICIT_TRANSPORTS then image
  else if pull then lit "docker://" ++ image
  else
    let name_and_tag := match split_once 64 image with Some (name, _) => name | None => image end in
    let has_tag := match rfind 58 name_and_tag, rfind 47 name_and_tag with
                   | Some colon, Some slash => (slash <? colon)%nat
                   | Some _, None => true
                   | _, _ => false
                   end in
    if contains_char image 64 || has_tag then lit "docker-daemon:" ++ image
    else lit "docker-daemon:" ++ image ++ lit ":latest".

Record BuildArgs := mkBuildArgs {
  ba_image : str;
  ba_pull : bool;
  ba_output_dir : str;
  ba_container_port : Z;
  ba_debug : bool;
  ba_storage : bool;
  ba_egress_allowlist : option Json;
  ba_builder_rev : option string;
}.

Record BuildOutput := mkBuildOutput { bo_source : str; bo_eif_path : str; bo_pcrs : PcrsHex }.

Section Build.
(** The directory and the allowlist written, the builder's run, the fetch of a
    source at a revision or at its tip, and the parse of a result line. *)
Context (prepare : str -> Json -> result unit CliError) (builder : BuilderCall -> result str CliError).
Context (fetch_flake_source : string -> option string -> result str CliError).
Context (build_result : str -> option (str * PcrsHex)).

(** [build.rs]'s own copy, which also keeps the path. *)
Definition parse_build_output (stdout : str) : result (str * PcrsHex) string :=
  let trimmed := trim stdout in
  if bool_decide (trimmed = []) then Err "builder produced no stdout"%string
  else match build_result trimmed with
       | Some r => Ok r
       | None =>
           ok_or (head (omap (fun line => build_result (trim line)) (reverse (lines trimmed))))
             "no JSON line matched"%string
       end.

(** [flake_env] is an exported [BUILDER_FLAKE]. *)
Definition local_build (flake_env : option str) (args : BuildArgs) : result BuildOutput CliError :=
  let source := source_reference (ba_image args) (ba_pull args) in
  let egress_doc := default empty_egress (ba_egress_allowlist args) in
  let? _ := prepare (ba_output_dir args) egress_doc in
  let argv :=
    [lit "build"; lit "--image"; source; lit "--output-dir"; ba_output_dir args;
     lit "--container-port"; print_uint (ba_container_port args);
     lit "--egress-allowlist"; ba_output_dir args ++ lit "/egress.json"]
    ++ (if ba_debug args then [lit "--debug"] else [])
    ++ (if ba_storage args then [lit "--storage"] else []) in
  let? flake := match ba_builder_rev args, flake_env with
                | Some rev, _ => fetch_flake_source "builder" (Some rev)
                | None, None => fetch_flake_source "builder" None
                | None, Some path => Ok path
                end in
  let? stdout := builder (mkBuilderCall argv egress_doc (Some flake) None) in
  let? (eif_path, pcrs) := map_err (fun _ => Other "couldn't parse builder output") (parse_build_output (trim stdout)) in
  Ok (mkBuildOutput source eif_path pcrs).
End Build.

(** ** The digest of a push *)

Fixpoint find_str (needle s : str) : option str :=
  if bool_decide (needle `prefix_of` s) then Some (drop (length needle) s)
  else match s with [] => None | _ :: s' => find_str needle s' end.

(** The first token of [split_whitespace]. *)
Fixpoint take_token (s : str) : str :=
  match s with
  | c :: s' => if is_whitespace c then [] else c :: take_token s'
  | [] => []
  end.
Definition first_token (s : str) : option str :=
  match take_token (trim_start s) with [] => None | t => Some t end.

Definition parse_push_digest (line : str) : option str :=
  after ← find_str (lit "digest:") line;
  token ← first_token after;
  if bool_decide (lit "sha256:" `prefix_of` token) || bool_decide (lit "sha512:" `prefix_of` token)
  then Some token else None.

(** ** Control keys on a device *)

Inductive SlotId : Type := Slot_Authentication | Slot_Signature | Slot_KeyManagement | Slot_CardAuthentication.
Inductive TouchPolicy : Type := Touch_Always | Touch_Cached | Touch_Never.
Inductive PinPolicy : Type := Pin_Once | Pin_Always | Pin_Never.

Definition parse_slot (slot : str) : result SlotId CliError :=
  let s := to_ascii_lowercase slot in
  if bool_decide (s = lit "9a") then Ok Slot_Authentication
  else if bool_decide (s = lit "9c") then Ok Slot_Signature
  else if bool_decide (s = lit "9d") then Ok Slot_KeyManagement
  else if bool_decide (s = lit "9e") then Ok Slot_CardAuthentication
  else Err (Other "unsupported PIV slot").

Definition parse_touch_policy (s : str) : result TouchPolicy CliError :=
  if bool_decide (s = lit "always") then Ok Touch_Always
  else if bool_decide (s = lit "cached") then Ok Touch_Cached
  else if bool_decide (s = lit "never") then Ok Touch_Never
  else Err (Other "invalid touch policy").

Definition parse_pin_policy (s : str) : result PinPolicy CliError :=
  if bool_decide (s = lit "once") then Ok Pin_Once
  else if bool_decide (s = lit "always") then Ok Pin_Always
  else if bool_decide (s = lit "never") then Ok Pin_Never
  else Err (Other "invalid PIN policy").

(** What a slot's metadata says of its key. *)
Inductive SlotAlgorithm : Type := EccP256 | OtherAsymmetric | NotAsymmetric.
Inductive MetadataError : Type := NotSupported | MetadataFailed.
(** A public key as the device returns it: [None] is a bit string that is not
    whole bytes. *)
Record Metadata := mkMetadata { md_algorithm : SlotAlgorithm; md_public : option (option bytes) }.

Record Device := mkDevice {
  dv_serial : Z;
  dv_authenticates : bool;
  dv_generate : SlotId -> PinPolicy -> TouchPolicy -> result (option bytes) string;
  dv_metadata : SlotId -> result Metadata MetadataError;
}.

(** What is done to the device, the prompt and the index. *)
Inductive DeviceAct : Type :=
| D_Prompt
| D_Open (serial : option Z)
| D_Generate (serial : Z) (slot : SlotId)
| D_Read (serial : Z) (slot : SlotId)
| D_Save (index : KeyIndex).

Definition dev (A : Type) : Type := list DeviceAct * result A CliError.
Definition dev_ret {A} (r : result A CliError) : dev A := ([], r).
Definition dev_bind {A B} (m : dev A) (k : A -> dev B) : dev B :=
  match m with
  | (t, Ok a) => let '(t', r) := k a in (t ++ t', r)
  | (t, Err e) => (t, Err e)
  end.
Notation "'let+' x ':=' m 'in' k" := (dev_bind m (fun x => k))
  (at level 10, x binder, m at level 200, k at level 200).

Record YubiKeyGenerateArgs := mkGenerateArgs {
  ga_name : str;
  ga_slot : str;
  ga_touch_policy : str;
  ga_pin_policy : str;
  ga_serial : option Z;
  ga_assume_yes : bool;
}.
Record YubiKeyImportArgs := mkImportArgs { ia_name : str; ia_slot : str; ia_serial : option Z }.

Record GeneratedKey := mkGeneratedKey {
  gk_name : str;
  gk_serial : Z;
  gk_slot : str;
  gk_public_key : str;
  gk_fingerprint : string;
}.
Record ImportedKey := mkImportedKey {
  ik_key : GeneratedKey;
  ik_already_registered_as : option str;
  ik_same_slot_names : list str;
}.
Record KeyListEntry := mkKeyListEntry {
  kl_name : str;
  kl_serial : Z;
  kl_slot : string;
  kl_public_key : string;
  kl_fingerprint : string;
}.

Section KeyCommands.
Context `{P256} (sha256 : bytes -> bytes) (hex_encode : bytes -> string).
Context (base64_decode : string -> option bytes) (base64_encode : bytes -> string).
(** The index on disk, its save, the device, and the bytes read at the prompt. *)
Context (load : result KeyIndex CliError) (save : KeyIndex -> result unit CliError).
Context (open : option Z -> result Device string) (prompt : result nat string).

Definition open_device (serial : option Z) : dev Device :=
  ([D_Open serial], map_err (fun _ => Other "opening YubiKey") (open serial)).

Definition sec1_from_point (point : bytes) : result bytes CliError :=
  if negb (length point =? 65)%nat then Err (Other "device returned a key of the wrong length")
  else if negb (bool_decide (head point = Some 4)) then Err (Other "device returned a non-uncompressed public key")
  else
    let? _ := decode_public_key base64_decode (base64_encode point) in
    Ok point.

Definition generate_on_device (serial : option Z) (slot touch_policy pin_policy : str) : dev (Z * bytes) :=
  let+ slot := dev_ret (parse_slot slot) in
  let+ touch := dev_ret (parse_touch_policy touch_policy) in
  let+ pin := dev_ret (parse_pin_policy pin_policy) in
  let+ device := open_device serial in
  if negb (dv_authenticates device) then dev_ret (Err (Other "PIV management-key authentication failed"))
  else
    let+ spki := ([D_Generate (dv_serial device) slot],
                  map_err (fun _ => Other "on-device key generation failed") (dv_generate device slot pin touch)) in
    let+ point := dev_ret (ok_or spki (Other "device returned an unaligned public-key bit string")) in
    let+ sec1 := dev_ret (sec1_from_point point) in
    dev_ret (Ok (dv_serial device, sec1)).

Definition read_public_key_on_device (serial : option Z) (slot : str) : dev (Z * bytes) :=
  let+ slot_id := dev_ret (parse_slot slot) in
  let+ device := open_device serial in
  let+ md := ([D_Read (dv_serial device) slot_id],
              map_err (fun e => match e with
                                | NotSupported => Other "this YubiKey's firmware does not support reading the public key back"
                                | MetadataFailed => Other "reading metadata failed"
                                end) (dv_metadata device slot_id)) in
  match md_algorithm md with
  | OtherAsymmetric => dev_ret (Err (Other "slot holds a key that is not ECDSA P-256"))
  | NotAsymmetric => dev_ret (Err (Other "slot does not hold an asymmetric key"))
  | EccP256 =>
      let+ spki := dev_ret (ok_or (md_public md) (Other "no public key in the metadata")) in
      let+ point := dev_ret (ok_or spki (Other "device returned an unaligned public-key bit string")) in
      let+ public_key := dev_ret (sec1_from_point point) in
      dev_ret (Ok (dv_serial device, public_key))
  end.

(** A read of no bytes is the end of input. *)
Definition confirm_or_abort : dev unit :=
  ([D_Prompt], match prompt with
               | Err _ => Err (Other "failed to read confirmation from stdin")
               | Ok O => Err (Other "stdin closed before confirmation")
               | Ok _ => Ok tt
               end).

Definition save_index (index : KeyIndex) : dev unit := ([D_Save index], save index).

Definition name_taken (index : KeyIndex) (name : str) : bool :=
  existsb (fun kv => bool_decide (kv.1 = name)) (ki_keys index).

Definition key_entry (serial : Z) (slot : str) (public_key : bytes) : KeyEntry :=
  mkKeyEntry (base64_encode public_key) (Yubikey serial (to_string slot)).

Definition generate_yubikey (args : YubiKeyGenerateArgs) : dev GeneratedKey :=
  let+ index := dev_ret load in
  let+ _ := dev_ret (validate_name (ga_name args)) in
  if name_taken index (ga_name args) then dev_ret (Err (Other "a key with this name already exists"))
  else
    let+ _ := dev_ret (parse_slot (ga_slot args)) in
    let slot := to_ascii_lowercase (ga_slot args) in
    let+ _ := if ga_assume_yes args then dev_ret (Ok tt) else confirm_or_abort in
    let+ made := generate_on_device (ga_serial args) slot (ga_touch_policy args) (ga_pin_policy args) in
    let '(serial, public_key) := made in
    let+ index := dev_ret (insert_new index (ga_name args) (key_entry serial slot public_key)) in
    let+ _ := save_index index in
    dev_ret (Ok (mkGeneratedKey (ga_name args) serial slot (lit (base64_encode public_key))
                   (fingerprint sha256 hex_encode public_key))).

Definition register_imported (index : KeyIndex) (name : str) (serial : Z) (slot : str) (public_key : bytes)
    : result (KeyIndex * option str * list str) CliError :=
  let already := fst <$> find_by_public_key base64_decode index public_key in
  let same_slot := fst <$> List.filter (fun kv => negb (bool_decide (kv.1 = name)) &&
                     match ke_backend kv.2 with
                     | Yubikey s sl => (s =? serial) && bool_decide (sl = to_string slot)
                     end) (ki_keys index) in
  let? index := insert_new index name (key_entry serial slot public_key) in
  Ok (index, already, same_slot).

Definition import_yubikey (args : YubiKeyImportArgs) : dev ImportedKey :=
  let+ index := dev_ret load in
  let+ _ := dev_ret (validate_name (ia_name args)) in
  if name_taken index (ia_name args) then dev_ret (Err (Other "a key with this name already exists"))
  else
    let+ _ := dev_ret (parse_slot (ia_slot args)) in
    let slot := to_ascii_lowercase (ia_slot args) in
    let+ recovered := read_public_key_on_device (ia_serial args) slot in
    let '(serial, public_key) := recovered in
    let+ registered := dev_ret (register_imported index (ia_name args) serial slot public_key) in
    let '(index, already, same_slot) := registered in
    let+ _ := save_index index in
    dev_ret (Ok (mkImportedKey
      (mkGeneratedKey (ia_name args) serial slot (lit (base64_encode public_key))
         (fingerprint sha256 hex_encode public_key)) already same_slot)).

Definition rows_from_index (index : KeyIndex) : result (list KeyListEntry) CliError :=
  map_result (fun kv =>
    match ke_backend kv.2 with
    | Yubikey serial slot =>
        let? pk := public_key_bytes base64_decode kv.2 in
        Ok (mkKeyListEntry kv.1 serial slot (ke_public_key kv.2) (fingerprint sha256 hex_encode pk))
    end) (ki_keys index).

Definition key_list : result (list KeyListEntry) CliError :=
  let? index := load in rows_from_index index.

Definition control_key_body_for (name : str) : result Json CliError :=
  let? index := load in
  let? entry := ok_or (snd <$> List.find (fun kv => bool_decide (kv.1 = name)) (ki_keys index))
                  (Other "no key with this name") in
  let? _ := public_key_bytes base64_decode entry in
  Ok (J_Obj [("mode"%string, J_Str "self_hosted"); ("public_key"%string, J_Str (ke_public_key entry))]).
End KeyCommands.
