(* ===== verification/CliLocalProofs.v ===== *)
(** What the local decisions of [CliLocal] guarantee: which accepted secrets
    reach the workload, when a device's slot can be overwritten and how a lost
    index is recovered, that a delay is exact, that a build's source is settled. *)
From stdpp Require Import base gmap list strings.
From S2P Require Import Prelude Identity Text Signing EgressConfig KmsPolicy SecretsInit Chain CliReproduce CliUpgrade CliApi CliLocal.
#[local] Open Scope Z_scope.

(** ** Secrets *)

Lemma secret_name_valid name :
  secret_validate_name name = Ok tt -> is_valid_env_name name = true /\ (name ∉ RESERVED_NAMES).
Proof.
  destruct name as [|c chars]; [done|]. cbn [secret_validate_name is_valid_env_name].
  destruct (NAME_MAX_LEN <? _); [done|].
  destruct (is_upper c || (c =? 95)) eqn:Ec; cbn [negb]; [|done].
  destruct (forallb _ chars) eqn:Ech; cbn [negb]; [|done].
  case_bool_decide; [done|]. case_bool_decide as Hr; [done|]. intros _. split; [|done].
  apply andb_true_iff. split; [unfold is_ascii_alphabetic, is_upper, is_lower in *; lia|].
  rewrite forallb_forall in Ech |- *. intros x Hx. specialize (Ech x Hx).
  unfold is_ascii_alphanumeric, is_upper, is_lower, is_digit in *. lia.
Qed.

Lemma parse_name_value_Ok input name value :
  parse_name_value input = Ok (name, value) -> secret_validate_name name = Ok tt.
Proof.
  unfold parse_name_value. destruct (split_once 61 input) as [[n v]|]; cbn [ok_or]; [|done].
  destruct (secret_validate_name n) as [[]|] eqn:E; [|done]. by intros [= <- <-].
Qed.

Lemma collected_names positional stdin file name pairs n v :
  collect_set_pairs positional stdin file name = Ok pairs -> (n, v) ∈ pairs -> secret_validate_name n = Ok tt.
Proof.
  assert (Hpos : forall l, map_result parse_name_value l = Ok pairs -> (n, v) ∈ pairs -> secret_validate_name n = Ok tt).
  { intros l. revert pairs. induction l as [|i l IH]; intros pairs Hm Hin; cbn [map_result] in Hm.
    { injection Hm as <-. by apply elem_of_nil in Hin. }
    destruct (parse_name_value i) as [[n' v']|] eqn:Ei; [|done].
    destruct (map_result parse_name_value l) as [ys|] eqn:El; [|done]. injection Hm as <-.
    apply elem_of_cons in Hin as [[= -> ->]|Hin]; [by eapply parse_name_value_Ok|by eapply IH]. }
  assert (Hone : forall (r : result str CliError),
    (if negb (bool_decide (positional = [])) then Err (Other "positional NAME=value pairs are mutually exclusive with --from-stdin / --from-file")
     else let? n := ok_or name (Other "--from-stdin / --from-file requires --name NAME") in
          let? _ := secret_validate_name n in let? value := r in Ok [(n, value)]) = Ok pairs ->
    (n, v) ∈ pairs -> secret_validate_name n = Ok tt).
  { intros r Hr Hin. destruct (negb _); [done|]. destruct name as [m|]; cbn [ok_or] in Hr; [|done].
    destruct (secret_validate_name m) as [[]|] eqn:Em; [|done]. destruct r as [value|]; [|done].
    injection Hr as <-. apply list_elem_of_singleton in Hin as [= -> ->]. done. }
  unfold collect_set_pairs. destruct stdin as [rd|], file as [rf|]; eauto.
Qed.

(** Which secrets the command line accepts reach the workload.  A name it
    accepts, positional or with [--name], is a valid environment name and none of
    the runtime's own.  Once the value is delivered, the injector in the enclave
    takes the secret exactly when its name is not on the injector's own list of
    loader and proxy variables, which the command line does not know, and its
    value is one line. *)
Theorem set_secret_reaches_the_workload positional stdin file name pairs n v delivered env :
  collect_set_pairs positional stdin file name = Ok pairs -> (n, v) ∈ pairs -> from_utf8 delivered = Some v ->
  is_valid_env_name n = true /\ (n ∉ RESERVED_NAMES) /\
  is_ok (merge_secrets [(n, delivered)] env) =
    negb (is_forbidden_env_name n || contains_char v 10 || contains_char v 13 || contains_char v 0).
Proof.
  intros Hc Hin Hd. destruct (secret_name_valid n (collected_names _ _ _ _ _ _ _ Hc Hin)) as [Hn Hr].
  split; [done|]. split; [done|]. cbn [merge_secrets]. rewrite Hn, Hd. cbn [negb ok_or]. unfold newline.
  destruct (is_forbidden_env_name n); [done|]. by destruct (contains_char v 10), (contains_char v 13), (contains_char v 0).
Qed.

(** A secret the command line takes can keep the enclave from booting: a
    multi-line value read from a file, a private key for one, is refused by the
    injector in the enclave, and with it every other secret of the boot. *)
Theorem accepted_secret_stops_the_boot bundle others conn from_slice to_vec decode fs sent :
  let value := lit "-----BEGIN KEY-----" ++ [10] ++ lit "-----END KEY-----" in
  let payload := (lit "TLS_KEY", value) :: others in
  collect_set_pairs [] None (Some (Ok value)) (Some (lit "TLS_KEY")) = Ok [(lit "TLS_KEY", value)] /\
  (fetch_payload decode (conn (host_port (WorkloadSecrets bundle))) = (Ok payload, sent) ->
   forall args, parse_argv args = Ok (WorkloadSecrets bundle) ->
   SecretsInit.main from_slice to_vec decode io_succeeds args conn fs = (1, fs, sent)).
Proof.
  intros value payload. split; [vm_compute; reflexivity|]. intros Hf args Hargs.
  unfold SecretsInit.main. rewrite Hargs, Hf. rewrite bool_decide_eq_false_2 by done.
  destruct (inject_into_bundle from_slice to_vec io_succeeds bundle payload fs) as [r fs'] eqn:Ei.
  destruct (inject_into_bundle_cases _ _ _ _ _ _ _ Ei) as [[_ Ha]|(e & -> & -> & _)]; [|done].
  exfalso. destruct Ha as (file & config & config' & out & _ & _ & Hm & _).
  unfold merge_env_into_config in Hm. destruct (as_object config); cbn [ok_or] in Hm; [|done].
  destruct (vget config "process") as [process|]; cbn [ok_or] in Hm; [|done].
  destruct (as_object process); cbn [ok_or] in Hm; [|done].
  destruct (as_array _); cbn [ok_or] in Hm; [|done].
  destruct (merge_secrets payload _) as [env|] eqn:Es; [|done].
  apply merge_secrets_injectable in Es. apply Forall_cons in Es as [(_ & _ & v & Hv & Hnl & _) _].
  vm_compute in Hv. injection Hv as <-. vm_compute in Hnl. done.
Qed.

(** ** Delays *)

Lemma delay_unit_pos raw number u : delay_unit raw = Some (number, u) -> 1 <= u <= 86400.
Proof. unfold delay_unit. destruct (last raw); [|done]. intros Hd. result_cases Hd; lia. Qed.

(** A [--min-upgrade-delay] that is accepted is exactly what was written: the
    number before the suffix times the suffix's unit, not wrapped and not zero,
    within 64 bits. *)
Theorem delay_is_exact raw secs :
  parse_min_upgrade_delay raw = Ok secs ->
  0 < secs <= u64_max /\
  exists number unit n, delay_unit (trim raw) = Some (number, unit) /\ parse_uint u64_max number = Ok n /\ secs = n * unit.
Proof.
  unfold parse_min_upgrade_delay. destruct (delay_unit (trim raw)) as [[number unit]|] eqn:Ed; cbn [ok_or]; [|done].
  destruct (parse_uint u64_max number) as [n|] eqn:En; cbn [map_err]; [|done].
  destruct (n * unit <=? u64_max) eqn:Eo; cbn [ok_or]; [|done].
  destruct (Z.eqb_spec (n * unit) 0); [done|]. intros [= <-].
  apply delay_unit_pos in Ed as Hu. apply parse_uint_range in En as Hn; [|done].
  split; [nia|]. by exists number, unit, n.
Qed.

(** ** Sources *)

Definition names_transport (s : str) : bool := existsb (fun t => bool_decide (t `prefix_of` s)) EXPLICIT_TRANSPORTS.

Lemma names_transport_app t s : t ∈ EXPLICIT_TRANSPORTS -> names_transport (t ++ s) = true.
Proof.
  intros Ht. apply existsb_exists. exists t. split; [by apply list_elem_of_In|].
  apply bool_decide_eq_true_2. by exists s.
Qed.

(** What the builder is handed always names a transport, so that resolving it
    again, with or without [--pull], changes nothing. *)
Theorem source_is_settled image pull pull' :
  names_transport (source_reference image pull) = true /\
  source_reference (source_reference image pull) pull' = source_reference image pull.
Proof.
  assert (Hn : names_transport (source_reference image pull) = true).
  { unfold source_reference. fold (names_transport image). destruct (names_transport image) eqn:E; [done|].
    destruct pull; [apply names_transport_app; set_solver|].
    destruct (_ || _); apply names_transport_app; set_solver. }
  split; [done|]. unfold source_reference at 1. fold (names_transport (source_reference image pull)). by rewrite Hn.
Qed.

(** ** Control keys *)

Lemma dev_bind_act {A B} (m : dev A) (k : A -> dev B) act :
  act ∈ (dev_bind m k).1 -> act ∈ m.1 \/ exists a, m.2 = Ok a /\ act ∈ (k a).1.
Proof.
  unfold dev_bind. destruct m as [t [a|e]]; cbn; [|by left].
  destruct (k a) as [t' r] eqn:Ek. cbn. rewrite elem_of_app. intros [?|?]; [by left|right].
  exists a. by rewrite Ek.
Qed.

Lemma dev_bind_Ok {A B} (m : dev A) (k : A -> dev B) t b :
  dev_bind m k = (t, Ok b) -> exists a t1 t2, m = (t1, Ok a) /\ k a = (t2, Ok b) /\ t = t1 ++ t2.
Proof.
  unfold dev_bind. destruct m as [t1 [a|e]]; [|by intros [=]].
  destruct (k a) as [t2 r] eqn:Ek. intros [= <- ->]. by exists a, t1, t2.
Qed.

(** Follows an act through the binds of a computation. *)
Ltac follow_act :=
  repeat match goal with
  | H : _ ∈ (dev_bind ?m _).1 |- _ => apply dev_bind_act in H as [H|(? & ? & H)]
  | H : _ ∈ (dev_ret _).1 |- _ => by apply elem_of_nil in H
  | H : _ ∈ ([_], _).1 |- _ => apply list_elem_of_singleton in H; try discriminate H
  | H : (let '(_, _) := ?p in _) = _ |- _ => destruct p
  | H : _ ∈ (let '(_, _) := ?p in _).1 |- _ => destruct p
  | H : _ ∈ (if ?b then _ else _).1 |- _ => destruct b eqn:?
  end.

Section KeyProofs.
Context `{P256} (sha256 : bytes -> bytes) (hex_encode : bytes -> string).
Context (base64_decode : string -> option bytes) (base64_encode : bytes -> string).
Context (save : KeyIndex -> result unit CliError).
Context (open : option Z -> result Device string) (prompt : result nat string).

Abbreviation generate load := (generate_yubikey sha256 hex_encode base64_decode base64_encode load save open prompt).
Abbreviation import load := (import_yubikey sha256 hex_encode base64_decode base64_encode load save open).

Lemma generate_on_device_act serial slot touch pin sn sl :
  D_Generate sn sl ∈ (generate_on_device base64_decode base64_encode open serial slot touch pin).1 ->
  parse_slot slot = Ok sl /\ is_ok (parse_touch_policy touch) = true /\ is_ok (parse_pin_policy pin) = true /\
  exists device, open serial = Ok device /\ dv_serial device = sn /\ dv_authenticates device = true.
Proof.
  unfold generate_on_device. intros Hin. follow_act; [by apply list_elem_of_singleton in Hin|].
  repeat match goal with
  | Hd : (dev_ret _).2 = Ok _ |- _ => cbn in Hd
  | Hd : (open_device _ _).2 = Ok _ |- _ => cbn in Hd; apply map_err_Ok in Hd
  | Hd : negb _ = false |- _ => apply negb_false_iff in Hd
  end.
  injection Hin as -> ->. rewrite H1, H2, H3. eauto 10.
Qed.

(** A slot is overwritten only on purpose.  If [key generate] makes the device
    generate a key, which destroys the one in the slot, then the name is valid
    and free in the index, the slot and both policies are ones the device has,
    and the user confirmed, with [--yes] or with a line of input: an end of
    input, a bad name or a bad flag stops it before.  [key import] never makes
    the device generate. *)
Theorem slot_is_overwritten_on_purpose load args iargs serial slot :
  (D_Generate serial slot ∈ (generate load args).1 ->
   exists index, load = Ok index /\ validate_name (ga_name args) = Ok tt /\ name_taken index (ga_name args) = false /\
     parse_slot (ga_slot args) = Ok slot /\ is_ok (parse_touch_policy (ga_touch_policy args)) = true /\
     is_ok (parse_pin_policy (ga_pin_policy args)) = true /\
     (ga_assume_yes args = true \/ exists n, prompt = Ok (Datatypes.S n))) /\
  (D_Generate serial slot ∉ (import load iargs).1).
Proof.
  split.
  - unfold generate_yubikey. intros Hin. follow_act. all: try (by apply list_elem_of_singleton in Hin).
    apply generate_on_device_act in Hin as (Hs & Ht & Hp & _).
    assert (Hs' : parse_slot (ga_slot args) = Ok slot)
      by (unfold parse_slot in Hs |- *; by rewrite to_ascii_lowercase_idemp in Hs).
    destruct x0. exists x. do 6 (split; [done|]). destruct (ga_assume_yes args); [by left|]. right.
    unfold confirm_or_abort in H3. cbn [snd] in H3. destruct prompt as [[|n]|]; [done| |done]. by exists n.
  - unfold import_yubikey, read_public_key_on_device. intros Hin.
    follow_act; try (by apply list_elem_of_singleton in Hin).
    destruct (md_algorithm _); follow_act.
Qed.

Lemma sec1_from_point_same point sec1 :
  sec1_from_point base64_decode base64_encode point = Ok sec1 -> sec1 = point.
Proof.
  unfold sec1_from_point. destruct (negb _); [done|]. destruct (negb _); [done|].
  destruct (decode_public_key _ _); [|done]. by intros [= <-].
Qed.

(** Takes the binds of a computation that returned apart. *)
Ltac open_binds H :=
  repeat match type of H with
  | dev_bind _ _ = (_, Ok _) =>
      let E := fresh "E" in apply dev_bind_Ok in H as (? & ? & ? & E & H & ->);
      try (injection E as <- E); try discriminate E
  | (if ?b then _ else _) = (_, Ok _) => let E := fresh "E" in destruct b eqn:E; [discriminate H|]
  | (let '(_, _) := ?p in _) = (_, Ok _) => destruct p
  end.

Lemma generate_on_device_Ok serial slot touch pin t sn pk :
  generate_on_device base64_decode base64_encode open serial slot touch pin = (t, Ok (sn, pk)) ->
  exists device sl tp pp, parse_slot slot = Ok sl /\ open serial = Ok device /\ dv_serial device = sn /\
    dv_generate device sl pp tp = Ok (Some pk) /\ sec1_from_point base64_decode base64_encode pk = Ok pk.
Proof.
  unfold generate_on_device, open_device. intros Hg. open_binds Hg. injection Hg as <- <- <-.
  apply map_err_Ok in E2, E4. apply ok_or_Ok in E5. pose proof (sec1_from_point_same _ _ E6) as ->. subst. by eexists _, _, _, _.
Qed.

Lemma generate_Ok load args t k :
  generate load args = (t, Ok k) ->
  exists index index' device slot touch pin point,
    load = Ok index /\ validate_name (ga_name args) = Ok tt /\ parse_slot (ga_slot args) = Ok slot /\
    open (ga_serial args) = Ok device /\ dv_generate device slot pin touch = Ok (Some point) /\
    sec1_from_point base64_decode base64_encode point = Ok point /\
    insert_new index (ga_name args)
      (key_entry base64_encode (dv_serial device) (to_ascii_lowercase (ga_slot args)) point) = Ok index' /\
    D_Save index' ∈ t /\
    k = mkGeneratedKey (ga_name args) (dv_serial device) (to_ascii_lowercase (ga_slot args))
          (lit (base64_encode point)) (fingerprint sha256 hex_encode point).
Proof.
  unfold generate_yubikey. intros Hg. open_binds Hg. injection Hg as <- <-.
  destruct (generate_on_device_Ok _ _ _ _ _ _ _ E4) as (device & sl & tp & pp & Hs & Ho & <- & Hgen & Hsec).
  assert (Hs' : parse_slot (ga_slot args) = Ok sl)
    by (unfold parse_slot in Hs |- *; by rewrite to_ascii_lowercase_idemp in Hs).
  destruct x0. exists x, x4, device, sl, tp, pp, l. split_and!; try done. set_solver.
Qed.

(** A lost index is recovered.  After [key generate], a device that reports the
    key it generated, read by [key import] under the same name into an empty
    index, gives back the very key that [generate] reported, and the saved index
    holds under that name the very entry the lost one held, so that the same
    enclaves can be signed for; nothing is registered twice. *)
Theorem import_recovers_the_key load args t k open2 serial2 device device2 :
  generate load args = (t, Ok k) -> open (ga_serial args) = Ok device ->
  open2 serial2 = Ok device2 -> dv_serial device2 = dv_serial device ->
  (forall slot touch pin point, parse_slot (ga_slot args) = Ok slot ->
     dv_generate device slot pin touch = Ok (Some point) ->
     dv_metadata device2 slot = Ok (mkMetadata EccP256 (Some (Some point)))) ->
  (forall index, save index = Ok tt) ->
  exists t2 entry lost found,
    import_yubikey sha256 hex_encode base64_decode base64_encode (Ok index_default) save open2
      (mkImportArgs (ga_name args) (ga_slot args) serial2) = (t2, Ok (mkImportedKey k None [])) /\
    D_Save lost ∈ t /\ (ga_name args, entry) ∈ ki_keys lost /\
    D_Save found ∈ t2 /\ ki_keys found = [(ga_name args, entry)].
Proof.
  intros Hg Ho Ho2 Hser Hmd Hsave.
  destruct (generate_Ok _ _ _ _ Hg) as (index & index' & dv & slot & tp & pp & point & Hl & Hv & Hs & Hod & Hgen &
    Hsec & Hins & Hin & ->).
  rewrite Ho in Hod. injection Hod as <-. specialize (Hmd _ _ _ _ Hs Hgen).
  assert (Hs' : parse_slot (to_ascii_lowercase (ga_slot args)) = Ok slot)
    by (unfold parse_slot in Hs |- *; by rewrite to_ascii_lowercase_idemp).
  unfold import_yubikey, read_public_key_on_device, open_device. cbn [ia_name ia_slot ia_serial].
  rewrite Hv, Hs, Hs', Ho2. cbn [dev_bind dev_ret map_err name_taken existsb ki_keys index_default].
  rewrite Hmd. cbn [map_err dev_bind dev_ret md_algorithm md_public ok_or]. rewrite Hsec.
  cbn [dev_bind dev_ret]. unfold register_imported, insert_new. cbn [ki_keys index_default existsb].
  rewrite Hv, Hser. unfold save_index. cbn [dev_bind dev_ret]. rewrite Hsave. cbn [dev_bind dev_ret].
  eexists _, (key_entry base64_encode (dv_serial device) (to_ascii_lowercase (ga_slot args)) point), index', _.
  split; [reflexivity|]. split; [done|]. split.
  - unfold insert_new in Hins. rewrite Hv in Hins. destruct (existsb _ _); [done|]. injection Hins as <-.
    cbn [ki_keys]. unfold insert_key. apply elem_of_app. right. left.
  - split; [right; right; left|done].
Qed.
End KeyProofs.

(** ** Witnesses *)

Module LocalDemo.
(** Every 65 bytes are a point. *)
#[export] Instance any_point : P256 := {|
  SigningKey := unit; VerifyingKey := bytes; Signature := bytes;
  sk_verifying_key _ := []; sk_sign _ m := m; normalize_s _ := None;
  sig_to_bytes s := s; sig_from_slice l := Some l;
  vk_from_sec1_bytes l := if (length l =? 65)%nat then Ok l else Err "length"%string;
  vk_verify _ m s := bool_decide (m = s);
|}.
Definition point : bytes := 4 :: replicate 64 7.
Definition encode (_ : bytes) : string := "key".
Definition decode (_ : string) : option bytes := Some point.
Definition device : Device :=
  mkDevice 5 true (fun _ _ _ => Ok (Some point)) (fun _ => Ok (mkMetadata EccP256 (Some (Some point)))).
Definition open (_ : option Z) : result Device string := Ok device.
Definition save (_ : KeyIndex) : result unit CliError := Ok tt.
Definition args : YubiKeyGenerateArgs := mkGenerateArgs (lit "owner") (lit "9C") (lit "always") (lit "once") None false.
Definition hex (_ : bytes) : string := "00".
Definition made : GeneratedKey := mkGeneratedKey (lit "owner") 5 (lit "9c") (lit "key") "sha256:00".
Definition trace : list DeviceAct :=
  (generate_yubikey id hex decode encode (Ok index_default) save open (Ok 1%nat) args).1.
End LocalDemo.
#[local] Existing Instance LocalDemo.any_point.

Lemma set_secret_reaches_the_workload_witness :
  collect_set_pairs [lit "API_KEY=s3cr=t"] None None None = Ok [(lit "API_KEY", lit "s3cr=t")] /\
  (is_valid_env_name (lit "API_KEY") = true /\ (lit "API_KEY" ∉ RESERVED_NAMES) /\
   is_ok (merge_secrets [(lit "API_KEY", lit "s3cr=t")] []) =
     negb (is_forbidden_env_name (lit "API_KEY") || contains_char (lit "s3cr=t") 10 ||
           contains_char (lit "s3cr=t") 13 || contains_char (lit "s3cr=t") 0)).
Proof.
  split; [vm_compute; reflexivity|].
  apply (set_secret_reaches_the_workload [lit "API_KEY=s3cr=t"] None None None [(lit "API_KEY", lit "s3cr=t")]);
    [vm_compute; reflexivity|left|vm_compute; reflexivity].
Defined.

Lemma delay_is_exact_witness :
  0 < 172800 <= u64_max /\
  exists number unit n, delay_unit (trim (lit " 48h ")) = Some (number, unit) /\
    parse_uint u64_max number = Ok n /\ 172800 = n * unit.
Proof. apply (delay_is_exact (lit " 48h ") 172800). vm_compute. reflexivity. Defined.

Lemma import_recovers_the_key_witness :
  exists t2 entry lost found,
    import_yubikey id LocalDemo.hex LocalDemo.decode LocalDemo.encode (Ok index_default) LocalDemo.save LocalDemo.open
      (mkImportArgs (lit "owner") (lit "9C") None) = (t2, Ok (mkImportedKey LocalDemo.made None [])) /\
    D_Save lost ∈ LocalDemo.trace /\ (lit "owner", entry) ∈ ki_keys lost /\
    D_Save found ∈ t2 /\ ki_keys found = [(lit "owner", entry)].
Proof.
  apply (import_recovers_the_key id LocalDemo.hex LocalDemo.decode LocalDemo.encode LocalDemo.save LocalDemo.open
           (Ok 1%nat) (Ok index_default) LocalDemo.args LocalDemo.trace LocalDemo.made LocalDemo.open None
           LocalDemo.device LocalDemo.device).
  - vm_compute. reflexivity.
  - reflexivity.
  - reflexivity.
  - reflexivity.
  - intros slot touch pin point _ Hg. injection Hg as <-. reflexivity.
  - intros index. reflexivity.
Defined.
