(* ===== verification/CliCommands.v ===== *)
(** The commands that talk to the backend: resolving ids
    ([enclavia-cli/src/commands/resolve.rs]), secrets ([commands/secrets.rs]),
    creating ([commands/enclave.rs]), pushing an image ([commands/push.rs]) and
    following a deployment ([commands/deploy.rs]).

    They are computations of [CliApi]; docker is a parameter, and so are the
    monotonic clock and the sleep of the watch loop.  Text written for a person
    is an event whose wording is left out, and the terminal spinner, which writes
    nothing under [--json], is left out. *)
From stdpp Require Import base gmap list strings.
From S2P Require Import Prelude Identity Text SecretsInit Chain CliReproduce CliUpgrade CliApi CliLocal.
#[local] Open Scope Z_scope.

Notation "'let*' x ':=' m 'in' k" := (cli_bind m (fun x => k))
  (at level 10, x binder, m at level 200, k at level 200).

(** Text for a person: standard error under [--json], standard output else. *)
Definition note {S} (json : bool) (msg : str) : cli (S := S) unit :=
  output (if json then Stderr_text msg else Stdout_text msg).

(** A run of docker: how it ended, and the lines it wrote. *)
Inductive DockerExit : Type := Spawn_failed | Exited (success : bool).
Record DockerRun := mkDockerRun { dr_exit : DockerExit; dr_lines : list str }.

(** ** The build log *)

(** A byte offset at which a [str] may be cut. *)
Definition is_char_boundary (s : bytes) (i : nat) : bool :=
  match s !! i with
  | Some b => negb (is_continuation b)
  | None => (i <=? length s)%nat
  end.

Definition rfind_newline (s : bytes) : option nat := rfind 10 s.

(** [stream_new_log], over a log that was fetched: the new offset and the text
    printed.  [None] is the panic of a slice that cuts a character. *)
Definition stream_log (build_log : bytes) (printed : nat) (drain : bool) : option (nat * bytes) :=
  let printed := if (length build_log <? printed)%nat then O else printed in
  if negb (is_char_boundary build_log printed) then None
  else
    let new := drop printed build_log in
    let upto := if drain then length new else match rfind_newline new with Some i => (i + 1)%nat | None => O end in
    Some ((printed + upto)%nat, take upto new).

Section Commands.
Context {S : Type} (net : S -> Request -> S * option Response) (clock : S -> Z) (save_io : S -> SaveIo).
Context `{CredJson} `{FromBody TokenResponse}.
Context `{FromBody Json} `{FromBody (list (EnclaveSummary * Json))} `{FromBody RegistryInfo} `{FromBody NotifyPushResponse}.
Context `{FromBody (list SecretSummary)} `{FromBody SecretSummary}.
Context (parse_uuid : str -> option Z) (summary_from_value : Json -> option EnclaveSummary).
Context (docker : S -> list str -> option str -> S * DockerRun).
(** Milliseconds, and a sleep of some. *)
Context (mono : S -> Z) (sleep : Z -> S -> S).

Abbreviation cli := (cli (S := S)).

(** ** Ids *)

Definition match_rows (all : list (EnclaveSummary * Json)) (prefix : str) : result (EnclaveSummary * Json) CliError :=
  match List.filter (fun e => bool_decide (prefix `prefix_of` es_id e.1)) all with
  | [] => Err (Other "no enclave matches")
  | [one] => Ok one
  | _ => Err (Other "prefix matches several enclaves")
  end.

Definition resolve_row (id_or_prefix : str) : cli (EnclaveSummary * Json) :=
  if bool_decide (id_or_prefix = []) then cli_ret (Err (Other "enclave id cannot be empty"))
  else match parse_uuid id_or_prefix with
       | Some _ => cli_ret (Ok (mkEnclaveSummary id_or_prefix None, J_Null))
       | None =>
           let* all := list_enclaves net clock save_io true in
           cli_ret (match_rows all id_or_prefix)
       end.

Definition resolve_enclave_id (id_or_prefix : str) : cli str :=
  let* e := resolve_row id_or_prefix in cli_ret (Ok (es_id e.1)).

(** ** Secrets *)

Fixpoint set_loop (id : str) (pairs : list (str * str)) (existing_names : list str) (updated : Z) : cli Z :=
  match pairs with
  | [] => cli_ret (Ok updated)
  | (name, value) :: pairs =>
      if bool_decide (name ∈ existing_names)
      then let* _ := update_secret net clock save_io id name value in set_loop id pairs existing_names (updated + 1)
      else let* _ := create_secret net clock save_io id name value in
           set_loop id pairs (name :: existing_names) (updated + 1)
  end.

Definition secrets_set (id : str) (pairs : list (str * str)) : cli Z :=
  let* existing := list_secrets net clock save_io id in
  set_loop id pairs (ss_name <$> existing) 0.

Fixpoint delete_loop (id : str) (names : list str) (removed : Z) : cli Z :=
  match names with
  | [] => cli_ret (Ok removed)
  | n :: names =>
      let* _ := cli_ret (secret_validate_name n) in
      let* _ := delete_secret net clock save_io id n in
      delete_loop id names (removed + 1)
  end.
Definition secrets_delete (id : str) (names : list str) : cli Z := delete_loop id names 0.

(** ** Creating *)

Record CreateArgs := mkCreateArgs {
  ca_instance_type : InstanceTypeArg;
  ca_container_port : option Z;
  ca_storage_size_bytes : option Z;
  ca_name : option str;
  ca_visibility : option str;
  ca_egress_allowlist : option Json;
  ca_upgradable : bool;
  ca_production : bool;
  ca_control_key : option Json;
  ca_anti_rollback : bool;
  ca_min_upgrade_delay_secs : option Z;
}.

Record EnclaveCreated := mkEnclaveCreated { ec_id : str; ec_status : str; ec_raw : Json }.

Definition create (a : CreateArgs) : cli EnclaveCreated :=
  let upgradable := ca_upgradable a || bool_decide (is_Some (ca_control_key a)) in
  let* enclave := create_enclave net clock save_io
    (create_body (ca_instance_type a) (ca_container_port a) (ca_storage_size_bytes a) (ca_name a) (ca_visibility a)
       (ca_egress_allowlist a) upgradable (ca_production a) (ca_control_key a) (ca_anti_rollback a)
       (ca_min_upgrade_delay_secs a)) in
  let field key := lit (default "unknown"%string (str_field enclave key)) in
  cli_ret (Ok (mkEnclaveCreated (field "id"%string) (field "status"%string) enclave)).

(** ** Pushing *)

Definition run_docker (args : list str) (stdin : option str) : cli DockerRun := fun st =>
  let '(w, run) := docker (c_world st) args stdin in
  (mkCli (c_client st) (c_disk st) w (c_log st ++ [E_Docker args stdin]), Ok run).

Definition docker_must (failure : string) (run : DockerRun) : result unit CliError :=
  match dr_exit run with
  | Exited true => Ok tt
  | _ => Err (Other failure)
  end.

Definition docker_login (host username password : str) : cli unit :=
  let* run := run_docker [lit "login"; host; lit "-u"; username; lit "--password-stdin"] (Some password) in
  cli_ret (docker_must "docker login failed" run).

Definition docker_tag (image canonical : str) : cli unit :=
  let* run := run_docker [lit "tag"; image; canonical] None in
  cli_ret (docker_must "docker tag failed" run).

Fixpoint note_lines (json : bool) (ls : list str) : cli unit :=
  match ls with
  | [] => cli_ret (Ok tt)
  | l :: ls => let* _ := note json l in note_lines json ls
  end.

(** The last digest among the lines. *)
Definition stream_docker_push (reference : str) (json : bool) : cli (option str) :=
  let* run := run_docker [lit "push"; reference] None in
  match dr_exit run with
  | Spawn_failed => cli_ret (Err (Other "failed to spawn docker push"))
  | Exited ok =>
      let* _ := note_lines json (dr_lines run) in
      if ok then cli_ret (Ok (last (omap parse_push_digest (dr_lines run))))
      else cli_ret (Err (Other "docker push failed"))
  end.

Definition extract_push_target (raw : Json) : result str CliError :=
  ok_or (lit <$> str_field raw "push_target") (Other "enclave is missing push_target").

Record PushOutcome := mkPushOutcome {
  po_canonical : str;
  po_digest : option str;
  po_notify : option NotifyPushResponse;
}.

Definition push_to_enclave (local_image : str) (enclave : EnclaveSummary * Json) (json : bool) : cli PushOutcome :=
  let* registry := get_registry net clock save_io in
  let* enclave :=
    match get_field enclave.2 "push_target" with
    | Some _ => cli_ret (Ok enclave)
    | None =>
        let* row := get_enclave net clock save_io (es_id enclave.1) in
        cli_ret (let? e := ok_or (summary_from_value row) (Other "malformed enclave row") in Ok (e, row))
    end in
  let* push_target := cli_ret (extract_push_target enclave.2) in
  let canonical := ri_registry_url registry ++ lit "/" ++ push_target ++ lit ":latest" in
  let* token := (fun st => match current_token (c_client st) with
                           | Some t => (st, Ok t)
                           | None => cli_panic st
                           end) in
  let* _ := docker_login (ri_registry_url registry) (ri_namespace registry) token in
  let* _ := note json (lit "Tagging") in
  let* _ := docker_tag local_image canonical in
  let* _ := note json (lit "Pushing") in
  let* digest := stream_docker_push canonical json in
  let* _ := note json (lit "Pushed") in
  let* _ := (if digest is Some _ then note json (lit "Digest") else cli_ret (Ok tt)) in
  let* notified := cli_try (notify_push net clock save_io (es_id enclave.1)) in
  match notified with
  | Ok resp => cli_ret (Ok (mkPushOutcome canonical digest (Some resp)))
  | Err _ =>
      let* _ := output (Stderr_text (lit "warning: failed to notify backend of push")) in
      cli_ret (Ok (mkPushOutcome canonical digest None))
  end.

Definition is_non_upgradable_rejection (r : NotifyPushResponse) : bool :=
  negb (bool_decide (np_rejected_non_upgradable r = [])) &&
  bool_decide (np_triggered r = []) && match np_staged r with [] => true | _ => false end.

(** ** Deploying *)

Definition WATCH_TIMEOUT : Z := 45 * 60 * 1000.
Definition STATUS_EVERY : Z := 2000.
Definition LOGS_EVERY : Z := 3000.
Definition SPINNER_EVERY : Z := 120.
Definition MAX_POLL_FAILURES : Z := 5.

(** The offset the log was printed up to; a fetch that fails changes nothing, and
    an offset inside a character is a panic. *)
Definition stream_new_log (id : str) (printed : nat) (json drain : bool) : cli nat :=
  let* logs := cli_try (get_enclave_logs net clock save_io id) in
  match logs with
  | Err _ => cli_ret (Ok printed)
  | Ok logs =>
      match str_field logs "build_log" with
      | None => cli_ret (Ok printed)
      | Some build_log =>
          match stream_log (lit build_log) printed drain with
          | None => cli_panic
          | Some (printed, text) =>
              let* _ := note_lines json (lines text) in cli_ret (Ok printed)
          end
      end
  end.

Record Watch := mkWatch {
  wt_phase : string;
  wt_row : Json;
  wt_poll_failures : Z;
  wt_last_status_poll : option Z;
  wt_last_logs_poll : option Z;
  wt_log_printed : nat;
}.

(** [last.is_none_or(|t| t.elapsed() >= every)]. *)
Definition due (now every : Z) (last : option Z) : bool :=
  match last with None => true | Some t => every <=? now - t end.

(** A turn's poll of the status: the watch goes on, or it ends. *)
Definition poll_status (id : str) (json : bool) (w : Watch) : cli (Watch + Json) := fun st =>
  let now := mono (c_world st) in
  (let* answer := cli_try (get_enclave net clock save_io id) in
   let row := match answer with Ok r => r | Err _ => wt_row w end in
   let failures := match answer with Ok _ => 0 | Err _ => wt_poll_failures w + 1 end in
   if (match answer with Ok _ => false | Err _ => MAX_POLL_FAILURES <=? failures end)
   then cli_ret (Err (Other "lost contact with the backend while watching"))
   else
     let status := default ""%string (str_field row "status") in
     let* _ := if negb (bool_decide (status = "")) && negb (bool_decide (status = wt_phase w))
                  && bool_decide (status ∈ ["waiting_for_image"; "building"; "deploying"]%string)
               then note json (lit status) else cli_ret (Ok tt) in
     let phase := if bool_decide (status = "") then wt_phase w else status in
     let w := mkWatch phase row failures (Some now) (wt_last_logs_poll w) (wt_log_printed w) in
     if bool_decide (status = "running") then
       let* _ := stream_new_log id (wt_log_printed w) json true in
       cli_ret (Ok (inr row))
     else if bool_decide (status = "error") then
       let* _ := stream_new_log id (wt_log_printed w) json true in
       cli_ret (Err (Other "deploy failed"))
     else if bool_decide (status = "stopped") || bool_decide (status = "destroyed")
     then cli_ret (Err (Other "enclave moved while deploying"))
     else cli_ret (Ok (inl w))) st.

(** A turn's fetch of the log, while a build is in flight. *)
Definition poll_logs (id : str) (json : bool) (w : Watch) : cli Watch := fun st =>
  let now := mono (c_world st) in
  if bool_decide (wt_phase w ∈ ["building"; "deploying"]%string) && due now LOGS_EVERY (wt_last_logs_poll w)
  then (let* printed := stream_new_log id (wt_log_printed w) json false in
        cli_ret (Ok (mkWatch (wt_phase w) (wt_row w) (wt_poll_failures w) (wt_last_status_poll w)
                       (Some now) printed))) st
  else (st, Ok w).

Definition cli_sleep (ms : Z) : cli unit := fun st =>
  (mkCli (c_client st) (c_disk st) (sleep ms (c_world st)) (c_log st), Ok tt).

(** One turn: the watch ends, or it goes on after a pause. *)
Definition watch_turn (started : Z) (id : str) (json : bool) (w : Watch) : cli (Watch + Json) := fun st =>
  if WATCH_TIMEOUT <? mono (c_world st) - started then (st, Err (Stop_error (Other "gave up watching")))
  else
    (let* polled := (fun st => if due (mono (c_world st)) STATUS_EVERY (wt_last_status_poll w)
                               then poll_status id json w st else (st, Ok (inl w))) in
     match polled with
     | inr row => cli_ret (Ok (inr row))
     | inl w =>
         let* w := poll_logs id json w in
         let* _ := cli_sleep SPINNER_EVERY in
         cli_ret (Ok (inl w))
     end) st.

Definition watch_start : Watch := mkWatch "" J_Null 0 None None 0.

(** [None]: out of turns. *)
Fixpoint watch_loop (turns : nat) (started : Z) (id : str) (json : bool) (w : Watch) (st : Cli)
    : option (Cli * result Json Stop) :=
  match turns with
  | O => None
  | Datatypes.S turns =>
      match watch_turn started id json w st with
      | (st, Err e) => Some (st, Err e)
      | (st, Ok (inr row)) => Some (st, Ok row)
      | (st, Ok (inl w)) => watch_loop turns started id json w st
      end
  end.

(** The turns the timeout admits. *)
Definition WATCH_TURNS : nat := Z.to_nat (WATCH_TIMEOUT / SPINNER_EVERY + 2).

Definition watch_until_running (id : str) (json : bool) (st : Cli) : option (Cli * result Json Stop) :=
  watch_loop WATCH_TURNS (mono (c_world st)) id json watch_start st.
End Commands.
