(* ===== verification/CliCommandsProofs.v ===== *)
(** What the commands of [CliCommands] guarantee: setting secrets against the
    backend's interface, the end of a watch, the log it prints, and what a push
    hands to docker. *)
From stdpp Require Import base gmap list strings sorting.
From S2P Require Import Prelude Identity Text SecretsInit Chain CliReproduce CliUpgrade CliApi CliApiProofs CliLocal CliLocalProofs CliCommands.
#[local] Open Scope Z_scope.

(** ** Events a computation does not add *)

Section Silent.
Context {S : Type} (p : Event -> bool).

Definition kept (log : list Event) : list Event := List.filter p log.
Definition silent {A} (m : cli (S := S) A) : Prop := forall st, kept (c_log (m st).1) = kept (c_log st).

Lemma kept_app l1 l2 : kept (l1 ++ l2) = kept l1 ++ kept l2.
Proof. apply List.filter_app. Qed.

Lemma silent_ret {A} (r : result A CliError) : silent (cli_ret r).
Proof. by intros st. Qed.

Lemma silent_bind {A B} (m : cli A) (k : A -> cli B) : silent m -> (forall a, silent (k a)) -> silent (cli_bind m k).
Proof.
  intros Hm Hk st. unfold cli_bind. specialize (Hm st). destruct (m st) as [st1 [a|e]]; [|done].
  cbn [fst] in Hm. by rewrite (Hk a st1).
Qed.

Lemma silent_try {A} (m : cli A) : silent m -> silent (cli_try m).
Proof. intros Hm st. unfold cli_try. specialize (Hm st). by destruct (m st) as [? [|[]]]. Qed.

(** Reading the state before going on. *)
Lemma silent_state {A} (m : Cli -> cli A) : (forall st, silent (m st)) -> silent (fun st => m st st).
Proof. intros Hm st. apply Hm. Qed.

Lemma silent_output o : p (E_Out o) = false -> silent (output o).
Proof. intros Hp st. cbn. rewrite kept_app. cbn. by rewrite Hp, app_nil_r. Qed.

Lemma silent_note json msg :
  p (E_Out (Stderr_text msg)) = false -> (json = false -> p (E_Out (Stdout_text msg)) = false) -> silent (note json msg).
Proof. intros He Ho. destruct json; apply silent_output; auto. Qed.
End Silent.

Section Api.
Context {S : Type} (net : S -> Request -> S * option Response) (clock : S -> Z) (save_io : S -> SaveIo).
Context `{CJ : CredJson} `{FT : FromBody TokenResponse} (p : Event -> bool).
Hypothesis http : forall r a, p (E_Http r a) = false.

Lemma silent_exchange m path body : silent p (exchange net clock save_io m path body).
Proof.
  intros st. destruct (exchange_logs net clock save_io m path body st) as (log & -> & He).
  rewrite kept_app. destruct He; cbn; rewrite !http; by rewrite app_nil_r.
Qed.

Lemma silent_request {T} `{FromBody T} m path : silent p (request (T := T) net clock save_io m path).
Proof. apply silent_bind; [apply silent_exchange|]. intros. apply silent_ret. Qed.
Lemma silent_request_with_body {T} `{FromBody T} m path body : silent p (request_with_body (T := T) net clock save_io m path body).
Proof. apply silent_bind; [apply silent_exchange|]. intros. apply silent_ret. Qed.
Lemma silent_request_no_response m path verb : silent p (request_no_response net clock save_io m path verb).
Proof. apply silent_bind; [apply silent_exchange|]. intros. apply silent_ret. Qed.
End Api.

(** ** The build log *)

Lemma find_char_Some i c s j : find_char i c s = Some j -> (i <= j)%nat /\ s !! (j - i)%nat = Some c.
Proof.
  revert i. induction s as [|x s IH]; intros i; [done|]. cbn [find_char].
  destruct (find_char (Datatypes.S i) c s) as [j'|] eqn:E.
  - intros [= ->]. apply IH in E as [Hle Hl]. split; [lia|].
    replace (j - i)%nat with (Datatypes.S (j - Datatypes.S i)) by lia. done.
  - destruct (Z.eqb_spec x c) as [->|]; [|done]. intros [= ->]. split; [lia|]. by rewrite Nat.sub_diag.
Qed.

Lemma as_bytes_head s b : as_bytes s !! 0%nat = Some b -> is_continuation b = false.
Proof.
  destruct s as [|c s]; [done|]. rewrite as_bytes_cons. unfold encode_utf8, is_continuation.
  assert (0 <= c -> 0 <= c / 64 /\ 0 <= c / 4096 /\ 0 <= c / 262144) by (intros; split_and!; apply Z.div_pos; lia).
  repeat case_match; cbn; intros [= <-]; lia.
Qed.

(** A byte after a line break starts a character. *)
Lemma as_bytes_after_newline s i b :
  as_bytes s !! i = Some 10 -> as_bytes s !! Datatypes.S i = Some b -> is_continuation b = false.
Proof.
  revert i. induction s as [|c s IH]; intros i; [done|]. rewrite as_bytes_cons.
  destruct (decide (i < length (encode_utf8 c))%nat) as [Hi|Hi]; cycle 1.
  { rewrite !lookup_app_r by lia. rewrite (Nat.sub_succ_l (length _) i) by lia. apply IH. }
  rewrite lookup_app_l by done. revert Hi. unfold encode_utf8. destruct (Z.ltb_spec c 128).
  { cbn. intros Hi _ Hb. assert (i = 0)%nat as -> by lia. cbn in Hb. by eapply as_bytes_head. }
  pose proof (Z.mod_pos_bound c 64 ltac:(done)). pose proof (Z.mod_pos_bound (c / 64) 64 ltac:(done)).
  pose proof (Z.mod_pos_bound (c / 4096) 64 ltac:(done)).
  assert (0 <= c / 64 /\ 0 <= c / 4096 /\ 0 <= c / 262144) by (split_and!; apply Z.div_pos; lia).
  repeat case_match; intros Hi Hn; cbn [length] in Hi;
    do 4 (destruct i as [|i]; [first [lia | cbn in Hn; injection Hn as Hn; lia]|]); lia.
Qed.

Definition utf8 (l : bytes) : Prop := is_Some (from_utf8 l).

(** What has been printed of a log: its first [p] bytes, whole lines. *)
Definition printed_upto (l : bytes) (p : nat) (text : bytes) : Prop :=
  (p <= length l)%nat /\ text = take p l /\ (p = 0%nat \/ l !! (p - 1)%nat = Some 10).

Lemma printed_boundary l p text : utf8 l -> printed_upto l p text -> is_char_boundary l p = true.
Proof.
  intros [s Hs] (Hle & _ & Hnl). apply from_utf8_as_bytes in Hs as <-. unfold is_char_boundary.
  destruct (as_bytes s !! p) as [b|] eqn:Eb; [|by apply Nat.leb_le]. apply negb_true_iff.
  destruct Hnl as [->|Hnl]; [by eapply as_bytes_head|].
  destruct p as [|p]; [by eapply as_bytes_head|]. rewrite Nat.sub_succ, Nat.sub_0_r in Hnl.
  by eapply as_bytes_after_newline.
Qed.

Lemma printed_extends l l' p text : l `prefix_of` l' -> printed_upto l p text -> printed_upto l' p text.
Proof.
  intros [k ->] (Hle & -> & Hnl). split_and!; [rewrite length_app; lia|by rewrite take_app_le|].
  destruct Hnl as [->|Hnl]; [by left|right]. by apply lookup_app_l_Some.
Qed.

Lemma stream_log_step l p text drain :
  utf8 l -> printed_upto l p text ->
  exists p' new, stream_log l p drain = Some (p', new) /\
    (if drain then text ++ new = l else printed_upto l p' (text ++ new)).
Proof.
  intros Hu Hp. pose proof (printed_boundary _ _ _ Hu Hp) as Hb. destruct Hp as (Hle & -> & Hnl).
  unfold stream_log. rewrite (proj2 (Nat.ltb_ge _ _)) by done. rewrite Hb. cbn [negb].
  set (upto := if drain then _ else _). exists (p + upto)%nat, (take upto (drop p l)). split; [done|].
  destruct drain; subst upto.
  { rewrite firstn_all. apply take_drop. }
  unfold rfind_newline, rfind. destruct (find_char 0 10 (drop p l)) as [i|] eqn:Ei.
  - apply find_char_Some in Ei as [_ Hi]. rewrite Nat.sub_0_r, lookup_drop in Hi.
    pose proof (lookup_lt_Some _ _ _ Hi). split_and!; [lia|by rewrite take_take_drop|].
    right. by replace (p + (i + 1) - 1)%nat with (p + i)%nat by lia.
  - rewrite Nat.add_0_r. split_and!; [done|by rewrite take_0, app_nil_r|done].
Qed.

(** The logs fetched while a build runs, one after the other. *)
Fixpoint follow (logs : list bytes) (printed : nat) : option (nat * bytes) :=
  match logs with
  | [] => Some (printed, [])
  | l :: logs =>
      '(p, text) ← stream_log l printed false;
      '(p', text') ← follow logs p;
      Some (p', text ++ text')
  end.

Lemma follow_prints logs final p text :
  Forall utf8 logs -> StronglySorted prefix (logs ++ [final]) ->
  (exists l, printed_upto l p text /\ Forall (prefix l) (logs ++ [final])) ->
  exists p' new, follow logs p = Some (p', new) /\ printed_upto final p' (text ++ new).
Proof.
  intros Hu. revert p text. induction Hu as [|l logs Hl _ IH]; intros p text Hs (l0 & Hp & Hpre).
  - exists p, []. rewrite app_nil_r. split; [done|].
    cbn [app] in Hpre. apply Forall_cons in Hpre as [Hpre _]. exact (printed_extends _ _ _ _ Hpre Hp).
  - cbn [app] in Hs, Hpre. apply StronglySorted_inv in Hs as [Hs Hall]. apply Forall_cons in Hpre as [Hl0 Hpre].
    destruct (stream_log_step l p text false Hl (printed_extends _ _ _ _ Hl0 Hp)) as (p1 & t1 & E1 & Hp1).
    destruct (IH p1 (text ++ t1) Hs) as (p2 & t2 & E2 & Hp2); [by exists l|].
    exists p2, (t1 ++ t2). cbn [follow]. rewrite E1. cbn [mbind option_bind]. rewrite E2.
    split; [done|]. by rewrite app_assoc.
Qed.

(** A growing build log is printed once, in order and whole.  Over any number of
    fetches of a log that only grows, the text printed is whole lines of it, with
    nothing repeated and nothing skipped, whatever the lengths at which the
    fetches cut it; the last fetch, when the enclave is up or has failed, prints
    exactly what was left.  No offset ever falls inside a character. *)
Theorem growing_log_is_printed_once logs final :
  Forall utf8 (logs ++ [final]) -> StronglySorted prefix (logs ++ [final]) ->
  exists p text rest, follow logs 0 = Some (p, text) /\ (text = [] \/ last text = Some 10) /\
    stream_log final p true = Some (length final, rest) /\ text ++ rest = final.
Proof.
  intros Hu Hs. apply Forall_app in Hu as [Hu Hf]. apply Forall_cons in Hf as [Hf _].
  destruct (follow_prints logs final 0 [] Hu Hs) as (p & text & Ef & Hp).
  { exists []. split; [split_and!; [lia|done|by left]|]. apply Forall_forall. intros x _. by exists x. }
  rewrite app_nil_l in Hp. destruct (stream_log_step final p text true Hf Hp) as (p' & rest & Er & Heq).
  exists p, text, rest. split; [done|]. split.
  - destruct Hp as (Hle & -> & [->|Hn]); [by left|]. destruct p as [|p]; [by left|right].
    rewrite last_lookup, length_take_le by done. cbn [Nat.pred].
    rewrite Nat.sub_succ, Nat.sub_0_r in Hn. apply lookup_take_Some. split; [done|lia].
  - split; [|done]. rewrite Er. f_equal. f_equal. unfold stream_log in Er. destruct Hp as (Hle & -> & _).
    rewrite (proj2 (Nat.ltb_ge _ _)) in Er by done. destruct (negb _); [done|]. injection Er as <- _.
    rewrite length_drop. lia.
Qed.

(** A log the backend rewrites, when a build is started again, can end the
    watch in a panic: the offset is kept as long as the new log is no shorter,
    and may then fall inside a character. *)
Theorem rewritten_log_panics :
  utf8 (lit "build 1" ++ [10]) /\ utf8 (lit "build 2" ++ [195; 169; 10]) /\
  exists p text, stream_log (lit "build 1" ++ [10]) 0 false = Some (p, text) /\
    stream_log (lit "build 2" ++ [195; 169; 10]) p false = None.
Proof. split_and!; [by eexists|by eexists|]. eexists _, _. split; vm_compute; reflexivity. Qed.

(** ** The end of a watch *)

Section WatchProofs.
Context {S : Type} (net : S -> Request -> S * option Response) (clock : S -> Z) (save_io : S -> SaveIo).
Context `{CJ : CredJson} `{FT : FromBody TokenResponse} `{FJ : FromBody Json}.
Context (mono : S -> Z) (sleep : Z -> S -> S).
(** The clock never goes back, and a sleep lasts at least as long as asked. *)
Hypothesis net_time : forall s r, mono s <= mono (net s r).1.
Hypothesis sleep_time : forall ms s, mono s + ms <= mono (sleep ms s).

Definition ages {A} (m : cli (S := S) A) : Prop := forall st, mono (c_world st) <= mono (c_world (m st).1).

Lemma ages_ret {A} (r : result A CliError) : ages (cli_ret r).
Proof. by intros st. Qed.
Lemma ages_bind {A B} (m : cli A) (k : A -> cli B) : ages m -> (forall a, ages (k a)) -> ages (cli_bind m k).
Proof.
  intros Hm Hk st. unfold cli_bind. specialize (Hm st). destruct (m st) as [st1 [a|e]]; [|done].
  cbn [fst] in Hm. specialize (Hk a st1). lia.
Qed.
Lemma ages_state {A} (m : Cli -> cli A) : (forall st, ages (m st)) -> ages (fun st => m st st).
Proof. intros Hm st. apply Hm. Qed.
Lemma ages_send fail r : ages (send net fail r).
Proof. intros st. unfold send. specialize (net_time (c_world st) r). by destruct (net _ _). Qed.
Lemma ages_output o : ages (output o).
Proof. by intros st. Qed.
Lemma ages_save c : ages (save_credentials save_io c).
Proof. by intros st. Qed.
Lemma ages_try {A} (m : cli A) : ages m -> ages (cli_try m).
Proof. intros Hm st. unfold cli_try. specialize (Hm st). by destruct (m st) as [? [|[]]]. Qed.

Lemma ages_exchange m path body : ages (exchange net clock save_io m path body).
Proof.
  apply (ages_state (fun st0 => cli_bind (send net "request failed" (build (c_client st0) m path body)) _)).
  intros st0. apply ages_bind; [apply ages_send|]. intros resp st. destruct (_ && _); [|done].
  apply (ages_bind (refresh_if_possible net clock save_io)).
  - clear st. intros st. unfold refresh_if_possible. destruct (ac_creds (c_client st)) as [cr|]; [|done].
    apply ages_bind; [|by intros ? ?]. unfold refresh_credentials.
    apply ages_bind; [apply ages_send|]. intros resp'. destruct (negb _); [apply ages_ret|].
    apply ages_bind; [apply ages_ret|]. intros tok st'. destruct (expires_at _ _); [|done].
    apply ages_bind; [apply ages_save|]. intros. apply ages_ret.
  - intros _ st'. apply ages_send.
Qed.

Lemma ages_lines json ls : ages (note_lines json ls).
Proof. induction ls as [|l ls IH]; [apply ages_ret|]. apply ages_bind; [apply ages_output|done]. Qed.

Lemma ages_stream id printed json drain : ages (stream_new_log net clock save_io id printed json drain).
Proof.
  unfold stream_new_log. apply ages_bind.
  { apply ages_try. apply ages_bind; [apply ages_exchange|]. intros. apply ages_ret. }
  intros [logs|e]; [|apply ages_ret]. destruct (str_field _ _); [|apply ages_ret].
  destruct (stream_log _ _ _) as [[p text]|]; [|by intros ?].
  apply ages_bind; [apply ages_lines|]. intros. apply ages_ret.
Qed.

Abbreviation turn := (watch_turn net clock save_io mono sleep).
Abbreviation loop := (watch_loop net clock save_io mono sleep).

Definition is_running (row : Json) : Prop := str_field row "status" = Some "running"%string.

Lemma status_running row : default ""%string (str_field row "status") = "running"%string -> is_running row.
Proof. unfold is_running. by destruct (str_field row "status"); intros [= ->]. Qed.

Lemma poll_status_row id json w st st' row :
  poll_status net clock save_io mono id json w st = (st', Ok (inr row)) -> is_running row.
Proof.
  unfold poll_status, cli_bind. destruct (cli_try _ st) as [st1 [answer|e]]; [|done].
  destruct (match answer with Ok _ => false | Err _ => _ end); [done|].
  set (row' := match answer with Ok r => r | Err _ => wt_row w end).
  match goal with |- context [match ?m st1 with _ => _ end] => destruct (m st1) as [st2 [u|e]]; [|done] end.
  case_bool_decide as Hr.
  - destruct (stream_new_log _ _ _ _ _ _ _ st2) as [st3 [p|e]]; [|done]. intros [= _ <-]. by apply status_running.
  - case_bool_decide; [destruct (stream_new_log _ _ _ _ _ _ _ st2) as [st3 [p|e]]; done|].
    by destruct (_ || _).
Qed.

Lemma ages_poll_status id json w : ages (poll_status net clock save_io mono id json w).
Proof.
  unfold poll_status. apply (ages_state (fun st0 => cli_bind _ _)). intros st0. apply ages_bind.
  { apply ages_try. apply ages_bind; [apply ages_exchange|]. intros. apply ages_ret. }
  intros answer. destruct (match answer with Ok _ => false | Err _ => _ end); [apply ages_ret|].
  apply ages_bind; [destruct (_ && _); [apply ages_output|apply ages_ret]|]. intros _.
  assert (Hd : forall p k, (forall r, ages (k r)) -> ages (cli_bind (stream_new_log net clock save_io id p json true) (B := Watch + Json) k))
    by (intros; apply ages_bind; [apply ages_stream|done]).
  repeat case_match; try apply ages_ret; apply Hd; intros ?; apply ages_ret.
Qed.

(** A turn that goes on has taken its pause; one that ends found the enclave running. *)
Lemma turn_outcome started id json w st :
  match turn started id json w st with
  | (st', Ok (inl _)) =>
      mono (c_world st) - started <= WATCH_TIMEOUT /\ mono (c_world st) + SPINNER_EVERY <= mono (c_world st')
  | (_, Ok (inr row)) => is_running row
  | _ => True
  end.
Proof.
  unfold watch_turn. destruct (Z.ltb_spec WATCH_TIMEOUT (mono (c_world st) - started)); [done|].
  unfold cli_bind. set (polled := if due _ _ _ then _ else _).
  assert (Hp : mono (c_world st) <= mono (c_world polled.1)).
  { subst polled. destruct (due _ _ _); [apply ages_poll_status|done]. }
  assert (Hrow : forall row, polled.2 = Ok (inr row) -> is_running row).
  { intros row. subst polled. destruct (due _ _ _); [|done].
    destruct (poll_status _ _ _ _ _ _ _ st) as [st' r] eqn:E. cbn. intros ->. by eapply poll_status_row. }
  destruct polled as [st1 [[w1|row]|e]]; [|by apply Hrow|done]. cbn [fst] in Hp. clear Hrow.
  assert (Hl : mono (c_world st1) <= mono (c_world (poll_logs net clock save_io mono id json w1 st1).1)).
  { unfold poll_logs. destruct (_ && _); [|done]. apply ages_bind; [apply ages_stream|]. intros ?; apply ages_ret. }
  destruct (poll_logs _ _ _ _ _ _ _ st1) as [st2 [w2|e]]; [|done]. cbn in Hl |- *.
  pose proof (sleep_time SPINNER_EVERY (c_world st2)). unfold SPINNER_EVERY in *. lia.
Qed.

Lemma loop_ends turns started id json w st :
  (1 <= turns)%nat -> WATCH_TIMEOUT < mono (c_world st) - started + SPINNER_EVERY * (Z.of_nat turns - 1) ->
  exists out, loop turns started id json w st = Some out /\
    forall row, out.2 = Ok row -> is_running row.
Proof.
  revert w st. induction turns as [|n IH]; intros w st Hn Ht; [lia|]. cbn [watch_loop].
  pose proof (turn_outcome started id json w st) as Ho.
  destruct (turn started id json w st) as [st' [[w'|row]|e]].
  - destruct Ho as [Hle Hadv]. unfold SPINNER_EVERY in *.
    destruct n as [|n]; [lia|]. apply IH; lia.
  - eexists. split; [done|]. cbn. by intros row' [= <-].
  - by eexists.
Qed.

(** Following a deployment always ends.  Whatever the backend answers and
    however slowly, the watch returns within the turns its 45 minutes admit; and
    it reports success only for a row whose status is running. *)
Theorem watch_always_ends id json st :
  exists out, watch_until_running net clock save_io mono sleep id json st = Some out /\
    forall row, out.2 = Ok row -> is_running row.
Proof.
  unfold watch_until_running. apply loop_ends; unfold WATCH_TURNS, WATCH_TIMEOUT, SPINNER_EVERY.
  - change 1%nat with (Z.to_nat 1). apply Z2Nat.inj_le; [done|done|]. vm_compute. discriminate.
  - rewrite Z2Nat.id by done. rewrite Z.sub_diag. reflexivity.
Qed.
End WatchProofs.

(** ** Setting secrets *)

Lemma lit_to_string s : Forall (fun c => 0 <= c < 128) s -> lit (to_string s) = s.
Proof.
  intros Hs. unfold lit, bytes_of_string, to_string.
  rewrite as_bytes_ascii by (eapply Forall_impl; [exact Hs|]; cbn; lia).
  rewrite String.list_ascii_of_string_of_list_ascii. induction Hs as [|c s Hc _ IH]; [done|].
  rewrite !fmap_cons, IH. f_equal. rewrite Ascii.N_ascii_embedding by lia. lia.
Qed.

Lemma valid_name_ascii name : secret_validate_name name = Ok tt -> Forall (fun c => 0 <= c < 128) name.
Proof.
  intros [Hv _]%secret_name_valid. destruct name as [|c name]; [done|]. cbn [is_valid_env_name] in Hv.
  apply andb_true_iff in Hv as [Hc Hn]. unfold is_ascii_alphabetic, is_upper, is_lower in Hc. constructor; [lia|].
  apply Forall_forall. intros x Hx. rewrite forallb_forall in Hn. specialize (Hn x (proj1 (list_elem_of_In _ _) Hx)).
  unfold is_ascii_alphanumeric, is_upper, is_lower, is_digit in Hn. lia.
Qed.

Lemma to_string_inj n1 n2 :
  secret_validate_name n1 = Ok tt -> secret_validate_name n2 = Ok tt -> to_string n1 = to_string n2 -> n1 = n2.
Proof. intros H1%valid_name_ascii H2%valid_name_ascii Heq. by rewrite <-(lit_to_string n1), <-(lit_to_string n2), Heq. Qed.

Section SecretProofs.
Context {S : Type} (net : S -> Request -> S * option Response) (clock : S -> Z) (save_io : S -> SaveIo).
Context `{CJ : CredJson} `{FT : FromBody TokenResponse} `{FL : FromBody (list SecretSummary)} `{FS : FromBody SecretSummary}.
Context (base id : str) (secrets_of : S -> gmap string string).

Definition secret_body (name value : str) : Json := J_Obj [("name"%string, J_str name); ("value"%string, J_str value)].

(** What a successful write answers and does. *)
Definition stores (s s' : S) (resp : Response) (name value : str) : Prop :=
  is_success resp = true /\ is_Some (rs_text resp ≫= from_body (T := SecretSummary)) /\
  secrets_of s' = <[to_string name := to_string value]> (secrets_of s).

(** The backend's interface to an enclave's secrets: a list of the names, a
    [POST] that creates a name and refuses a known one with a conflict, a [PUT]
    that rotates a known name and refuses an unknown one. *)
Record SecretStore : Prop := {
  store_list s bearer : exists s' resp rows,
    net s (mkRequest GET (base ++ enclave_path id "/secrets") bearer B_None) = (s', Some resp) /\
    is_success resp = true /\ rs_text resp ≫= from_body = Some rows /\ secrets_of s' = secrets_of s /\
    forall name, secret_validate_name name = Ok tt ->
      name ∈ (ss_name <$> rows) <-> is_Some (secrets_of s !! to_string name);
  store_create s bearer name value : exists s' resp,
    net s (mkRequest POST (base ++ enclave_path id "/secrets") bearer (B_Json (secret_body name value))) = (s', Some resp) /\
    if secrets_of s !! to_string name is Some _ then rs_status resp = CONFLICT else stores s s' resp name value;
  store_update s bearer name value : exists s' resp,
    net s (mkRequest PUT (base ++ secret_path id name) bearer (B_Json (J_Obj [("value"%string, J_str value)]))) =
      (s', Some resp) /\
    if secrets_of s !! to_string name is Some _ then stores s s' resp name value else rs_status resp = 404;
}.

Lemma exchange_answered m path body st w resp :
  net (c_world st) (build (c_client st) m path body) = (w, Some resp) -> is_success resp = true ->
  exchange net clock save_io m path body st =
    (mkCli (c_client st) (c_disk st) w (c_log st ++ [E_Http (build (c_client st) m path body) (Some resp)]), Ok resp).
Proof.
  intros Hn Hs. unfold exchange, cli_bind, send. rewrite Hn.
  assert ((rs_status resp =? UNAUTHORIZED) = false) as -> by (unfold is_success in Hs; unfold UNAUTHORIZED; lia).
  done.
Qed.

Lemma handle_success {T} `{FromBody T} resp (x : T) :
  is_success resp = true -> rs_text resp ≫= from_body = Some x -> handle_response resp = Ok x.
Proof.
  intros Hs Hx. unfold handle_response, read_json, UNAUTHORIZED, CONFLICT. unfold is_success in *.
  rewrite (proj2 (Z.eqb_neq _ _)), (proj2 (Z.eqb_neq _ _)), Hs by lia. cbn [negb]. by rewrite Hx.
Qed.

Hypothesis store : SecretStore.

Definition set_all (m : gmap string string) (pairs : list (str * str)) : gmap string string :=
  foldl (fun m nv => <[to_string nv.1 := to_string nv.2]> m) m pairs.

Lemma set_loop_sets pairs names n st :
  Forall (fun nv => secret_validate_name nv.1 = Ok tt) pairs -> ac_base_url (c_client st) = base ->
  (forall name, secret_validate_name name = Ok tt ->
     name ∈ names <-> is_Some (secrets_of (c_world st) !! to_string name)) ->
  exists st', set_loop net clock save_io id pairs names n st = (st', Ok (n + Z.of_nat (length pairs))) /\
    secrets_of (c_world st') = set_all (secrets_of (c_world st)) pairs.
Proof.
  intros Hv. revert names n st. induction Hv as [|[name value] pairs Hname _ IH]; intros names n st Hb Hnames.
  { exists st. cbn. by rewrite Z.add_0_r. }
  cbn [set_loop fst snd] in *.
  assert (Hgo : forall (m : cli SecretSummary) names' st1 summary,
    m st = (st1, Ok summary) -> ac_base_url (c_client st1) = base ->
    secrets_of (c_world st1) = <[to_string name := to_string value]> (secrets_of (c_world st)) ->
    (forall x, x ∈ names' <-> x = name \/ x ∈ names) ->
    exists st', cli_bind m (fun _ => set_loop net clock save_io id pairs names' (n + 1)) st =
        (st', Ok (n + Z.of_nat (length ((name, value) :: pairs)))) /\
      secrets_of (c_world st') = set_all (secrets_of (c_world st)) ((name, value) :: pairs)).
  { intros m names' st1 summary Hm Hb1 Hs1 Hn'. unfold cli_bind. rewrite Hm.
    destruct (IH names' (n + 1) st1 Hb1) as (st' & Hrun & Hst').
    { intros x Hx. rewrite Hn', Hs1. destruct (decide (x = name)) as [->|Hne].
      - rewrite lookup_insert_eq. split; [by eexists|by left].
      - rewrite lookup_insert_ne by (intros Heq; apply Hne; by apply to_string_inj). rewrite <-Hnames by done. naive_solver. }
    exists st'. rewrite Hrun. split; [f_equal; f_equal; cbn [length]; lia|]. by rewrite Hst', Hs1. }
  case_bool_decide as Hin.
  - destruct (store_update store (c_world st) (current_token (c_client st)) name value) as (w & resp & Hnet & Hst).
    destruct (proj1 (Hnames name Hname) Hin) as [old Hold]. rewrite Hold in Hst. destruct Hst as (Hs & [x Hx] & Hsec).
    eapply Hgo; [| | |naive_solver].
    + unfold update_secret, request_with_body, cli_bind. rewrite (exchange_answered _ _ _ _ w resp); [|by rewrite <-Hb in Hnet|done].
      unfold cli_ret. by rewrite (handle_success _ x).
    + done.
    + done.
  - destruct (store_create store (c_world st) (current_token (c_client st)) name value) as (w & resp & Hnet & Hst).
    destruct (secrets_of (c_world st) !! to_string name) eqn:Eold.
    { exfalso. apply Hin, Hnames; [done|]. by rewrite Eold. }
    destruct Hst as (Hs & [x Hx] & Hsec). eapply Hgo; [| | |intros y; by rewrite elem_of_cons].
    + unfold create_secret, request_with_body, cli_bind. rewrite (exchange_answered _ _ _ _ w resp); [|by rewrite <-Hb in Hnet|done].
      unfold cli_ret. by rewrite (handle_success _ x).
    + done.
    + done.
Qed.

(** [secret set] does what it says.  Against a backend that keeps the interface,
    setting any list of pairs the command line accepts succeeds, whichever of
    the names exist and however often one is repeated: each name is created or
    rotated with the verb that is right for it, none of them conflicts, and
    afterwards the enclave's secrets are the ones before with each name set to
    the last value given for it, and no others changed. *)
Theorem secret_set_is_exact positional stdin file name pairs st :
  collect_set_pairs positional stdin file name = Ok pairs -> ac_base_url (c_client st) = base ->
  exists st', secrets_set net clock save_io id pairs st = (st', Ok (Z.of_nat (length pairs))) /\
    secrets_of (c_world st') = set_all (secrets_of (c_world st)) pairs.
Proof.
  intros Hc Hb.
  assert (Hv : Forall (fun nv : str * str => secret_validate_name nv.1 = Ok tt) pairs).
  { apply Forall_forall. intros [n v] Hin. by eapply collected_names. }
  destruct (store_list store (c_world st) (current_token (c_client st))) as (w & resp & rows & Hnet & Hs & Hrows & Hsec & Hnames).
  unfold secrets_set, list_secrets, request, cli_bind.
  rewrite (exchange_answered _ _ _ _ w resp); [|by rewrite <-Hb in Hnet|done]. unfold cli_ret.
  rewrite (handle_success _ rows) by done.
  destruct (set_loop_sets pairs (ss_name <$> rows) 0
    (mkCli (c_client st) (c_disk st) w (c_log st ++ [E_Http (build (c_client st) GET (enclave_path id "/secrets") B_None) (Some resp)])) Hv)
    as (st' & Hrun & Hst'); [done|cbn; by rewrite Hsec|].
  exists st'. cbn [c_world] in Hst'. rewrite Hsec in Hst'. done.
Qed.
End SecretProofs.

(** ** Pushing *)

Definition is_docker (e : Event) : bool := match e with E_Docker _ _ => true | _ => false end.

Section PushProofs.
Context {S : Type} (net : S -> Request -> S * option Response) (clock : S -> Z) (save_io : S -> SaveIo).
Context `{CJ : CredJson} `{FT : FromBody TokenResponse} `{FJ : FromBody Json} `{FR : FromBody RegistryInfo} `{FN : FromBody NotifyPushResponse}.
Context (summary_from_value : Json -> option EnclaveSummary).
Context (docker : S -> list str -> option str -> S * DockerRun).

(** The docker runs of a computation are the start of a script, and all of it
    when the computation succeeds. *)
Definition scripted {A} (script : list Event -> Prop) (m : cli (S := S) A) : Prop :=
  forall st, exists s evs, script s /\ evs `prefix_of` s /\
    kept is_docker (c_log (m st).1) = kept is_docker (c_log st) ++ evs /\ (is_ok (m st).2 = true -> evs = s).

Lemma scripted_silent {A B} (m : cli A) (k : A -> cli B) (script : list Event -> Prop) s0 :
  silent is_docker m -> script s0 -> (forall a, scripted script (k a)) -> scripted script (cli_bind m k).
Proof.
  intros Hm H0 Hk st. unfold cli_bind. specialize (Hm st). destruct (m st) as [st1 [a|e]]; cbn [fst] in Hm.
  - destruct (Hk a st1) as (s & evs & Hs & Hp & Hl & Hok). exists s, evs. by rewrite Hl, Hm.
  - exists s0, []. split_and!; [done|apply prefix_nil|cbn [fst]; by rewrite Hm, app_nil_r|done].
Qed.

Lemma scripted_done {A} (m : cli A) : silent is_docker m -> scripted (eq []) m.
Proof. intros Hm st. exists [], []. rewrite Hm, app_nil_r. done. Qed.

Lemma scripted_run {A B} args stdin (f : DockerRun -> cli A) (k : A -> cli B) s :
  (forall run, silent is_docker (f run)) -> (forall a, scripted (eq s) (k a)) ->
  scripted (eq (E_Docker args stdin :: s)) (cli_bind (cli_bind (run_docker docker args stdin) f) k).
Proof.
  intros Hf Hk st. unfold cli_bind at 1, cli_bind at 1, run_docker at 1.
  destruct (docker (c_world st) args stdin) as [w run] eqn:Ed. set (st1 := mkCli _ _ w _).
  assert (Heq : cli_bind (cli_bind (run_docker docker args stdin) f) k st = cli_bind (f run) k st1).
  { unfold cli_bind, run_docker. by rewrite Ed. }
  rewrite Heq. unfold cli_bind. specialize (Hf run st1). destruct (f run st1) as [st2 [a|e]]; cbn [fst] in Hf.
  - destruct (Hk a st2) as (s' & evs & <- & Hp & Hl & Hok). eexists _, (E_Docker args stdin :: evs).
    split; [done|]. split; [by apply prefix_cons|]. rewrite Hl, Hf. cbn [st1 c_log]. rewrite kept_app. cbn [kept List.filter is_docker].
    split; [by rewrite <-app_assoc|]. intros Ho. by rewrite Hok.
  - eexists _, [E_Docker args stdin]. split; [done|]. split; [apply prefix_cons, prefix_nil|].
    cbn [fst snd]. rewrite Hf. cbn [st1 c_log]. by rewrite kept_app.
Qed.

Lemma silent_lines json ls : silent is_docker (S := S) (note_lines json ls).
Proof. induction ls as [|l ls IH]; [apply silent_ret|]. apply silent_bind; [by apply silent_note|done]. Qed.

Definition push_script (image : str) (s : list Event) : Prop :=
  exists host namespace target token,
    let canonical := host ++ lit "/" ++ target ++ lit ":latest" in
    s = [E_Docker [lit "login"; host; lit "-u"; namespace; lit "--password-stdin"] (Some token);
         E_Docker [lit "tag"; image; canonical] None; E_Docker [lit "push"; canonical] None].

Lemma scripted_weaken {A} (P Q : list Event -> Prop) (m : cli A) : (forall s, P s -> Q s) -> scripted P m -> scripted Q m.
Proof. intros HPQ Hm st. destruct (Hm st) as (s & evs & Hs & Hrest). exists s, evs. auto. Qed.

(** What a push hands to docker.  A push runs docker at most three times, in
    this order: a login at the registry the backend named, a tag of the user's
    image, a push of that tag; whatever fails ends it there, and a push that
    succeeds has run all three.  The account's token is given to the login on its
    standard input and to nothing else: it is on no command line. *)
Theorem push_drives_docker image enclave json st :
  let run := push_to_enclave net clock save_io summary_from_value docker image enclave json st in
  exists host namespace target token evs,
    let canonical := host ++ lit "/" ++ target ++ lit ":latest" in
    let script := [E_Docker [lit "login"; host; lit "-u"; namespace; lit "--password-stdin"] (Some token);
                   E_Docker [lit "tag"; image; canonical] None; E_Docker [lit "push"; canonical] None] in
    evs `prefix_of` script /\ kept is_docker (c_log run.1) = kept is_docker (c_log st) ++ evs /\
    (is_ok run.2 = true -> evs = script).
Proof.
  assert (Hs : scripted (push_script image) (push_to_enclave net clock save_io summary_from_value docker image enclave json)).
  { assert (H0 : push_script image
      [E_Docker [lit "login"; []; lit "-u"; []; lit "--password-stdin"] (Some []);
       E_Docker [lit "tag"; image; [] ++ lit "/" ++ [] ++ lit ":latest"] None;
       E_Docker [lit "push"; [] ++ lit "/" ++ [] ++ lit ":latest"] None]) by by exists [], [], [], [].
    unfold push_to_enclave. eapply scripted_silent; [by apply silent_request|exact H0|]. intros registry.
    eapply scripted_silent; [|exact H0|].
    { destruct (get_field _ _); [apply silent_ret|]. apply silent_bind; [by apply silent_request|]. intros. apply silent_ret. }
    intros e. eapply scripted_silent; [apply silent_ret|exact H0|]. intros target.
    eapply scripted_silent; [intros st0; by destruct (current_token _)|exact H0|]. intros token.
    apply (scripted_weaken (eq [E_Docker [lit "login"; ri_registry_url registry; lit "-u"; ri_namespace registry; lit "--password-stdin"] (Some token);
      E_Docker [lit "tag"; image; ri_registry_url registry ++ lit "/" ++ target ++ lit ":latest"] None;
      E_Docker [lit "push"; ri_registry_url registry ++ lit "/" ++ target ++ lit ":latest"] None])).
    { intros s <-. by exists (ri_registry_url registry), (ri_namespace registry), target, token. }
    apply scripted_run; [intros; apply silent_ret|]. intros _.
    eapply scripted_silent; [by apply silent_note|done|]. intros _.
    apply scripted_run; [intros; apply silent_ret|]. intros _.
    eapply scripted_silent; [by apply silent_note|done|]. intros _.
    apply scripted_run.
    { intros run. destruct (dr_exit run); [apply silent_ret|]. apply silent_bind; [apply silent_lines|]. intros _.
      destruct success; apply silent_ret. }
    intros digest. eapply scripted_silent; [by apply silent_note|done|]. intros _.
    eapply scripted_silent; [destruct digest; [by apply silent_note|apply silent_ret]|done|]. intros _.
    apply scripted_done. apply silent_bind; [apply silent_try; by apply silent_request_with_body|].
    intros [resp|e']; [apply silent_ret|]. apply silent_bind; [by apply silent_output|]. intros. apply silent_ret. }
  destruct (Hs st) as (s & evs & (host & ns & target & token & ->) & Hp & Hl & Hok).
  by exists host, ns, target, token, evs.
Qed.
End PushProofs.

(** ** Witnesses *)

Lemma to_string_lit k : Forall (fun c => 0 <= c < 128) (lit k) -> to_string (lit k) = k.
Proof.
  intros Hk. unfold to_string. rewrite as_bytes_ascii by (eapply Forall_impl; [exact Hk|]; cbn; lia).
  unfold lit, bytes_of_string. rewrite <-list_fmap_compose.
  rewrite <-(String.string_of_list_ascii_of_string k) at 2. f_equal. clear Hk.
  induction (String.list_ascii_of_string k) as [|a l IH]; [done|]. rewrite fmap_cons, IH. f_equal.
  unfold compose. by rewrite N2Z.id, Ascii.ascii_N_embedding.
Qed.

Module SecretsDemo.
#[local] Existing Instances ApiDemo.demo_creds ApiDemo.demo_token.
(** A backend whose state is the enclave's secrets. *)
Definition base : str := lit "https://b.example".
Definition id : str := lit "e1".
Definition listing (m : gmap string string) : str := [Z.pos (encode (elements (dom m)))].

#[export] Instance demo_list : FromBody (list SecretSummary) := fun t =>
  match t with
  | [Z.pos p] => (fun ns : list string => (fun n => mkSecretSummary (lit n) [] [] false) <$> ns) <$> decode p
  | _ => None
  end.
#[export] Instance demo_one : FromBody SecretSummary := fun _ => Some (mkSecretSummary [] [] [] false).

Definition net (m : gmap string string) (r : Request) : gmap string string * option Response :=
  match rq_method r, rq_body r with
  | GET, _ => (m, Some (mkResponse 200 (Some (listing m))))
  | POST, B_Json (J_Obj [(_, J_Str n); (_, J_Str v)]) =>
      if m !! n is Some _ then (m, Some (mkResponse 409 None)) else (<[n := v]> m, Some (mkResponse 201 (Some [])))
  | PUT, B_Json (J_Obj [(_, J_Str v)]) =>
      let n := to_string (drop (length (base ++ secret_path id [])) (rq_url r)) in
      if m !! n is Some _ then (<[n := v]> m, Some (mkResponse 200 (Some []))) else (m, Some (mkResponse 404 None))
  | _, _ => (m, Some (mkResponse 400 None))
  end.

Lemma store : SecretStore net base id (fun m => m).
Proof.
  split.
  - intros m bearer. eexists m, _, ((fun n => mkSecretSummary (lit n) [] [] false) <$> elements (dom m)).
    split; [done|]. split; [done|]. split; [cbn; by rewrite decode_encode|]. split; [done|].
    intros name Hn%valid_name_ascii. rewrite <-list_fmap_compose, list_elem_of_fmap. unfold compose. cbn. split.
    + intros (k & -> & Hk%elem_of_elements). rewrite to_string_lit by done. by apply elem_of_dom.
    + intros Hk. exists (to_string name). split; [by rewrite lit_to_string|].
      by apply elem_of_elements, elem_of_dom.
  - intros m bearer name value. unfold net, secret_body, J_str. cbn [rq_method rq_body].
    destruct (m !! to_string name) eqn:E; eexists _, _; (split; [done|]); [done|]. split; [done|]. split; [by eexists|done].
  - intros m bearer name value. unfold net, J_str. cbn [rq_method rq_body rq_url].
    assert (drop (length (base ++ secret_path id [])) (base ++ secret_path id name) = name) as ->.
    { unfold secret_path. rewrite !app_nil_r, !app_assoc. apply drop_app_length. }
    destruct (m !! to_string name) eqn:E; eexists _, _; (split; [done|]); [|done]. split; [done|]. split; [by eexists|done].
Qed.

Definition start : Cli (S := gmap string string) :=
  mkCli (api_with_token base (lit "t")) (mkDisk None None) {["A"%string := "1"%string]} [].
Definition pairs : list (str * str) := [(lit "A", lit "2"); (lit "B", lit "3"); (lit "B", lit "4")].

(** A watch against a backend that answers nothing: the world is its clock. *)
Definition silent_net (t : Z) (_ : Request) : Z * option Response := (t + 7, None).
Definition rest (ms t : Z) : Z := t + ms.
Definition idle : Cli (S := Z) := mkCli (api_with_token base (lit "t")) (mkDisk None None) 0 [].
Definition logs : list bytes := [lit "one" ++ [10] ++ lit "tw"; lit "one" ++ [10] ++ lit "two" ++ [10; 195; 169]].
Definition final : bytes := lit "one" ++ [10] ++ lit "two" ++ [10; 195; 169] ++ lit "!".
End SecretsDemo.
#[local] Existing Instances ApiDemo.demo_creds ApiDemo.demo_token ApiDemo.demo_json.
#[local] Existing Instances SecretsDemo.demo_list SecretsDemo.demo_one.

Lemma secret_set_is_exact_witness :
  collect_set_pairs [lit "A=2"; lit "B=3"; lit "B=4"] None None None = Ok SecretsDemo.pairs /\
  exists st', secrets_set SecretsDemo.net (fun _ => 0) (fun _ => io_fine) SecretsDemo.id SecretsDemo.pairs SecretsDemo.start =
      (st', Ok (Z.of_nat (length SecretsDemo.pairs))) /\
    c_world st' = set_all (c_world SecretsDemo.start) SecretsDemo.pairs.
Proof.
  split; [vm_compute; reflexivity|].
  apply (secret_set_is_exact SecretsDemo.net (fun _ => 0) (fun _ => io_fine) SecretsDemo.base SecretsDemo.id (fun m => m)
           SecretsDemo.store [lit "A=2"; lit "B=3"; lit "B=4"] None None None);
    [vm_compute; reflexivity|reflexivity].
Defined.

Lemma watch_always_ends_witness :
  exists out, watch_until_running SecretsDemo.silent_net id (fun _ => io_fine) id SecretsDemo.rest (lit "e1") true
      SecretsDemo.idle = Some out /\ forall row, out.2 = Ok row -> is_running row.
Proof.
  apply (watch_always_ends SecretsDemo.silent_net id (fun _ => io_fine) id SecretsDemo.rest).
  - intros s r. cbn. lia.
  - intros ms s. unfold SecretsDemo.rest. cbn. lia.
Defined.

Lemma growing_log_is_printed_once_witness :
  exists p text rest, follow SecretsDemo.logs 0 = Some (p, text) /\ (text = [] \/ last text = Some 10) /\
    stream_log SecretsDemo.final p true = Some (length SecretsDemo.final, rest) /\ text ++ rest = SecretsDemo.final.
Proof.
  apply growing_log_is_printed_once.
  - repeat (apply Forall_cons_2; [by eexists|]). apply Forall_nil_2.
  - repeat constructor; eexists; reflexivity.
Defined.
