(* ===== verification/CliMain.v ===== *)
(** The program [enclavia] ([enclavia-cli/src/main.rs], and the presentation half of
    [commands/push.rs] and [commands/deploy.rs]): its commands, what each writes on
    standard output, and its exit status.

    A value written by [print_json] is an event that carries the value; text for a
    person is an event whose wording is left out.  The flows that rebuild an image
    and that sign upgrades are those of [CliReproduce] and [CliUpgrade], over the
    answers the backend has for them, [None] when a request of theirs ended in
    the panic of a token refresh; what they and docker write goes to standard
    error.  The theorems are about the machine-readable mode: one value on standard
    output and an exit status that agrees with it, for every command but one, or
    nothing at all when the process panicked. *)
From stdpp Require Import base gmap list strings.
From S2P Require Import Prelude Identity Signing Attestation Text EgressConfig SecretsInit Chain Server Sdk CliReproduce CliUpgrade CliApi CliLocal CliCommands.
#[local] Open Scope Z_scope.

(** ** Commands *)

Record CreateFlags := mkCreateFlags {
  cf_instance_type : InstanceTypeArg;
  cf_container_port : option Z;
  cf_storage_size_bytes : option Z;
  cf_name : option str;
  cf_visibility : option str;
  cf_egress : EgressInputs;
  cf_upgradable : bool;
  cf_production : bool;
  cf_control_key : option str;
  cf_anti_rollback : bool;
  cf_min_upgrade_delay : option str;
}.

Inductive EnclaveCmd : Type :=
| Enclave_Create (flags : CreateFlags)
| Enclave_List (include_archived : bool)
| Enclave_Status (id : str)
| Enclave_Logs (id : str)
| Enclave_Stop (id : str)
| Enclave_Start (id : str)
| Enclave_Restart (id : str)
| Enclave_Destroy (id : str).

Inductive SecretCmd : Type :=
| Secret_Set (enclave_id : str) (pairs : list str) (from_stdin : bool) (from_file : option str) (name : option str)
| Secret_List (enclave_id : str)
| Secret_Delete (enclave_id : str) (names : list str) (yes : bool).

Inductive UpgradeCmd : Type :=
| Upgrade_Chain (enclave_id : str) (debug_enclave : bool)
| Upgrade_List (enclave_id : str)
| Upgrade_Confirm (enclave_id upgrade_id : str) (at_ : option str) (immediate reproduce : bool)
    (expect_pcrs : option str) (expect_digest : option string) (accept_synchronizer_change debug_enclave : bool)
| Upgrade_Revoke (enclave_id upgrade_id : str).

Inductive KeyCmd : Type :=
| Key_Generate (yubikey : bool) (args : YubiKeyGenerateArgs)
| Key_Import (yubikey : bool) (args : YubiKeyImportArgs)
| Key_List.

Inductive Command : Type :=
| Cmd_Login
| Cmd_Enclave (cmd : EnclaveCmd)
| Cmd_Deploy (local_image : str) (create : CreateFlags)
| Cmd_Push (local_image enclave_id : str)
| Cmd_Build (args : BuildArgs) (egress : EgressInputs)
| Cmd_Reproduce (enclave_id : str) (upgrade : option str)
| Cmd_Secret (cmd : SecretCmd)
| Cmd_Upgrade (cmd : UpgradeCmd)
| Cmd_Key (cmd : KeyCmd).

(** How a command ends when it does not return an error: it returns, or it leaves
    with status 2. *)
Inductive Outcome : Type := Done | Exit_two.

(** [Serialize]. *)
Class ToJson (T : Type) := to_json : T -> Json.

Definition error_json (display : CliError -> string) (e : CliError) : Json :=
  J_Obj [("error"%string, J_Str (display e)); ("kind"%string, J_Str (error_kind e))].

(** What a command reads of its surroundings. *)
Record Env := mkEnv {
  env_clamps : bool;
  env_reads : bool;
  env_backend : option str;
  env_bound : result Z string;
  env_drawn32 : bytes;
  env_drawn16 : bytes;
  env_arrivals : list CallbackQuery;
  env_dropped : bool;
  env_stdin : result str CliError;
  env_file : str -> result bytes CliError;
  env_terminal : bool;
  env_answer : str -> result str string;
  env_builder_flake : option str;
  env_now : Z;
}.

Section Main.
Context {S : Type} (net : S -> Request -> S * option Response) (clock : S -> Z) (save_io : S -> SaveIo).
Context `{CredJson} `{FromBody TokenResponse} `{B64Url}.
Context `{FromBody Json} `{FromBody (list (EnclaveSummary * Json))} `{FromBody RegistryInfo} `{FromBody NotifyPushResponse}.
Context `{FromBody (list SecretSummary)} `{FromBody SecretSummary} `{FromBody (list StagedUpgradeJson)}.
Context `{ToJson (list (EnclaveSummary * Json))} `{ToJson (list SecretSummary)}.
Context `{ToJson BuildOutput} `{ToJson ReproduceResult} `{ToJson ChainSummary} `{ToJson StagedUpgradeJson}.
Context `{ToJson GeneratedKey} `{ToJson ImportedKey} `{ToJson KeyListEntry}.
(** What the flows of [CliReproduce] and [CliUpgrade] need. *)
Context `{P256} `{NitroLib}.
Context `{Cbor BootPayload} `{Cbor UpgradePayload} `{Cbor RevocationPayload} `{Cbor ControlCommand}.
Context (sha256 : bytes -> bytes) (hex_encode : bytes -> string) (hex_decode : string -> option bytes).
Context (base64_decode : string -> option bytes) (base64_encode : bytes -> string) (skip_chain_compiled : bool).
Context (parse_uuid : str -> option Z) (row_from_value : Json -> result EnclaveChainRow string).
Context (builder : BuilderCall -> result str CliError) (fetch_rev : string -> string -> result str CliError).
Context (fetch_source : string -> option string -> result str CliError) (prepare : str -> Json -> result unit CliError).
Context (json_to_string : Json -> str) (build_result : str -> option (str * PcrsHex)).
Context (pcrs_from_value : Json -> result PcrsHex string) (pcrs_from_str : str -> option PcrsHex) (output_dir : str).
Context (load : result KeyIndex CliError) (save : KeyIndex -> result unit CliError).
Context (open_signer : KeyEntry -> bytes -> result ControlSigner CliError).
Context (open : option Z -> result Device string) (prompt : result nat string).
Context `{Ipnet} (from_slice : bytes -> result Json string).
Context (raw_from_value : Json -> result RawAllowlist string) (raw_to_value : RawAllowlist -> Json).
Context (summary_from_value : Json -> option EnclaveSummary) (parse_time : str -> option Z).
Context (docker : S -> list str -> option str -> S * DockerRun) (mono : S -> Z) (sleep : Z -> S -> S).
Context (backend_of : S -> str -> str -> option Backend) (display : CliError -> string) (env : Env).

Abbreviation cli := (cli (S := S)).

(** ** Output *)

Definition print_json (v : Json) : cli unit := output (Stdout_json v).
Definition println : cli unit := output (Stdout_text []).
Definition emit {T} `{ToJson T} (json : bool) (v : T) : cli unit := if json then print_json (to_json v) else println.
#[local] Instance json_to_json : ToJson Json := fun v => v.
#[local] Instance list_to_json {T} `{ToJson T} : ToJson (list T) | 10 := fun l => J_Arr (to_json <$> l).

Definition done (m : cli unit) : cli Outcome := let* _ := m in cli_ret (Ok Done).

Definition api_new_env : cli unit := api_new (env_clamps env) (env_reads env).
Abbreviation get_enclave := (get_enclave net clock save_io).
Abbreviation resolve_id := (resolve_enclave_id net clock save_io parse_uuid).

Definition is_stopped (row : Json) : bool := bool_decide (str_field row "status" = Some "stopped"%string).

Definition restart_required (id : str) : cli bool :=
  let* row := cli_try (get_enclave id) in
  cli_ret (Ok (negb (match row with Ok v => is_stopped v | Err _ => false end))).

Definition print_pending_hint (id : str) (n : Z) : cli unit :=
  if n =? 0 then cli_ret (Ok tt)
  else let* _ := cli_try (get_enclave id) in println.

Definition ssh_tunnel_command (port : Z) : str :=
  lit "ssh -N -L 127.0.0.1:" ++ print_uint port ++ lit ":127.0.0.1:" ++ print_uint port ++ lit " user@remote-host".

(** ** Login *)

(** The caller's handle; a failure to fetch it is not one of the login. *)
Definition fetch_handle : cli Json :=
  let* built := cli_try api_new_env in
  match built with
  | Err _ => cli_ret (Ok J_Null)
  | Ok _ =>
      let* r := cli_try (get_registry net clock save_io) in
      cli_ret (Ok (match r with Ok i => J_str (ri_namespace i) | Err _ => J_Null end))
  end.

Definition run_login (json : bool) : cli Outcome :=
  let* pending := cli_ret (start_login sha256 (env_backend env) (env_bound env) (env_drawn32 env) (env_drawn16 env)) in
  let* _ := note_lines json [lit "Open this URL in your browser to authorize this device:"; pl_approval_url pending;
                             ssh_tunnel_command (pl_callback_port pending); lit "Waiting for approval..."] in
  let* _ := wait_for_token net clock save_io pending (env_arrivals env) (env_dropped env) in
  if json then
    let* handle := fetch_handle in
    done (print_json (J_Obj [("status"%string, J_Str "logged_in"); ("handle"%string, handle);
                             ("backend_url"%string, J_str (backend_url (env_backend env)))]))
  else done println.

(** ** Enclaves *)

Definition control_key_of (flags : CreateFlags) (json : bool) : cli (option Json) :=
  match cf_control_key flags with
  | None => cli_ret (Ok None)
  | Some name =>
      let* _ := if cf_upgradable flags then cli_ret (Ok tt) else note json (lit "--control-key implies --upgradable") in
      cli_ret (let? body := control_key_body_for base64_decode load name in Ok (Some body))
  end.

Definition delay_of (flags : CreateFlags) (control_key : option Json) : result (option Z) CliError :=
  match cf_min_upgrade_delay flags with
  | None => Ok None
  | Some raw =>
      if negb (cf_upgradable flags) && bool_decide (control_key = None)
      then Err (Other "--min-upgrade-delay requires an upgradable enclave")
      else let? secs := parse_min_upgrade_delay raw in Ok (Some secs)
  end.

Abbreviation egress_of := (build_egress_allowlist (fun path => map_err (fun _ => "read"%string) (env_file env path))
                             from_slice raw_from_value raw_to_value).

Definition create_from_flags (flags : CreateFlags) (json : bool) : cli EnclaveCreated :=
  let* egress := cli_ret (egress_of (cf_egress flags)) in
  let* control_key := control_key_of flags json in
  let* delay := cli_ret (delay_of flags control_key) in
  let* _ := api_new_env in
  create net clock save_io
    (mkCreateArgs (cf_instance_type flags) (cf_container_port flags) (cf_storage_size_bytes flags) (cf_name flags)
       (cf_visibility flags) egress (cf_upgradable flags) (cf_production flags) control_key (cf_anti_rollback flags) delay).

(** A command on one enclave, by id or prefix. *)
Definition on_enclave {T} `{ToJson T} (json : bool) (id : str) (action : str -> cli T) : cli Outcome :=
  let* _ := api_new_env in
  let* id := resolve_id id in
  let* v := action id in
  done (emit json v).

Definition id_status (id : str) (status : string) : Json := J_Obj [("id"%string, J_str id); ("status"%string, J_Str status)].

Definition run_enclave (cmd : EnclaveCmd) (json : bool) : cli Outcome :=
  match cmd with
  | Enclave_Create flags => let* res := create_from_flags flags json in done (emit json (ec_raw res))
  | Enclave_List archived =>
      let* _ := api_new_env in
      let* rows := list_enclaves net clock save_io archived in
      done (emit json rows)
  | Enclave_Status id => on_enclave json id get_enclave
  | Enclave_Logs id => on_enclave json id (get_enclave_logs net clock save_io)
  | Enclave_Stop id => on_enclave json id (fun id => let* _ := stop_enclave net clock save_io id in cli_ret (Ok (id_status id "stopped")))
  | Enclave_Start id => on_enclave json id (fun id => let* _ := start_enclave net clock save_io id in cli_ret (Ok (id_status id "started")))
  | Enclave_Restart id =>
      on_enclave json id (fun id => let* _ := restart_enclave net clock save_io id in cli_ret (Ok (id_status id "restart_requested")))
  | Enclave_Destroy id => on_enclave json id (fun id => let* _ := destroy_enclave net clock save_io id in cli_ret (Ok (id_status id "destroyed")))
  end.

(** ** Pushing and deploying *)

Definition push_fields (o : PushOutcome) : list (string * Json) :=
  [("image"%string, J_str (po_canonical o));
   ("digest"%string, match po_digest o with Some d => J_str d | None => J_Null end)].

Definition emit_push_json (o : PushOutcome) (resp : NotifyPushResponse) : Json :=
  J_Obj (push_fields o ++
    [("triggered"%string, J_Arr (J_str <$> np_triggered resp));
     ("staged"%string, J_Arr ((fun e => J_Obj [("enclave_id"%string, J_str (sp_enclave_id e));
                                          ("upgrade_id"%string, J_str (sp_upgrade_id e));
                                          ("image"%string, J_str (sp_image e))]) <$> np_staged resp));
     ("rejected_non_upgradable"%string, J_Arr (J_str <$> np_rejected_non_upgradable resp))]).
Definition emit_push_json_minimal (o : PushOutcome) : Json :=
  J_Obj (push_fields o ++ [("notify_failed"%string, J_Bool true)]).

Definition push (local_image enclave_id : str) (json : bool) : cli Outcome :=
  let* _ := api_new_env in
  let* enclave := resolve_row net clock save_io parse_uuid enclave_id in
  let* o := push_to_enclave net clock save_io summary_from_value docker local_image enclave json in
  match po_notify o with
  | Some resp =>
      if is_non_upgradable_rejection resp then cli_ret (Err (Other "this enclave is non-upgradable, create a new one"))
      else done (if json then print_json (emit_push_json o resp) else println)
  | None => done (if json then print_json (emit_push_json_minimal o) else println)
  end.

(** The turns never run out ([watch_always_ends]). *)
Definition watch (id : str) (json : bool) : cli Json := fun st =>
  match watch_until_running net clock save_io mono sleep id json st with
  | Some out => out
  | None => (st, Err (Stop_error (Other "gave up watching")))
  end.

Definition run_deploy (local_image : str) (flags : CreateFlags) (json : bool) : cli Outcome :=
  let* res := create_from_flags flags json in
  let* _ := note_lines json [lit "Enclave created"; []] in
  let* _ := api_new_env in
  let* enclave := cli_ret (ok_or (summary_from_value (ec_raw res)) (Other "malformed enclave row")) in
  let* _ := push_to_enclave net clock save_io summary_from_value docker local_image (enclave, ec_raw res) json in
  let* _ := note json [] in
  let* row := watch (ec_id res) json in
  done (emit json row).

(** ** Secrets *)

Definition confirm (question : str) : cli bool :=
  if negb (env_terminal env) then cli_ret (Err (Other "no TTY available; pass --yes to skip confirmation"))
  else
    let* _ := output (Stdout_text question) in
    cli_ret (let? line := map_err (fun _ => Other "reading stdin") (env_answer env question) in
             let answer := to_ascii_lowercase (trim line) in
             Ok (bool_decide (answer = lit "y") || bool_decide (answer = lit "yes"))).

Fixpoint confirm_each (names : list str) : cli (list str) :=
  match names with
  | [] => cli_ret (Ok [])
  | n :: names =>
      let* yes := confirm (lit "Delete secret '" ++ n ++ lit "'?") in
      let* _ := if yes then cli_ret (Ok tt) else println in
      let* keep := confirm_each names in
      cli_ret (Ok (if yes then n :: keep else keep))
  end.

Definition J_strs (l : list str) : Json := J_Arr (J_str <$> l).

(** The report of a change of secrets. *)
Definition report_secrets (json : bool) (id : str) (verb : string) (names : list str) (n : Z) : cli Outcome :=
  if json then
    let* restart := restart_required id in
    done (print_json (J_Obj [("enclave_id"%string, J_str id); (verb, J_strs names); ("updated"%string, J_U64 n);
                             ("restart_required"%string, J_Bool restart)]))
  else done (print_pending_hint id n).

Definition run_secret (cmd : SecretCmd) (json : bool) : cli Outcome :=
  match cmd with
  | Secret_Set id pairs from_stdin from_file name =>
      let* parsed := cli_ret (collect_set_pairs pairs (if from_stdin then Some (env_stdin env) else None)
                                (env_file env <$> from_file) name) in
      if bool_decide (parsed = []) then cli_ret (Err (Other "no secrets to set"))
      else
        let* _ := api_new_env in
        let* id := resolve_id id in
        let* n := secrets_set net clock save_io id parsed in
        report_secrets json id "set" parsed.*1 n
  | Secret_List id => on_enclave json id (list_secrets net clock save_io)
  | Secret_Delete id names yes =>
      if bool_decide (names = []) then cli_ret (Err (Other "no secret names provided to delete"))
      else if json && negb yes
      then cli_ret (Err (Other "refusing to prompt for confirmation in --json mode; pass --yes"))
      else
        let* confirmed := if yes then cli_ret (Ok names) else confirm_each names in
        if bool_decide (confirmed = [])
        then done (emit json (J_Obj [("enclave_id"%string, J_str id); ("deleted"%string, J_Arr []); ("updated"%string, J_U64 0)]))
        else
          let* _ := api_new_env in
          let* id := resolve_id id in
          let* n := secrets_delete net clock save_io id confirmed in
          report_secrets json id "deleted" confirmed n
  end.

(** ** Building and rebuilding *)

Definition run_build (args : BuildArgs) (egress : EgressInputs) (json : bool) : cli Outcome :=
  let* allowlist := cli_ret (egress_of egress) in
  let* result := cli_ret (local_build prepare builder fetch_source build_result (env_builder_flake env)
    (mkBuildArgs (ba_image args) (ba_pull args) (ba_output_dir args) (ba_container_port args) (ba_debug args)
       (ba_storage args) allowlist (ba_builder_rev args))) in
  done (emit json result).

(** With the stored credentials, or with none. *)
Definition client_or_anonymous : cli unit := fun st =>
  match api_new_env st with
  | (st, Ok _) => (st, Ok tt)
  | (st, Err (Stop_error NotLoggedIn)) => (mkCli (api_anonymous (env_backend env)) (c_disk st) (c_world st) (c_log st), Ok tt)
  | (st, Err e) => (st, Err e)
  end.

Definition set_json (v : Json) (key : string) (x : Json) : Json :=
  match v with J_Obj m => J_Obj (List.filter (fun kv => negb (bool_decide (kv.1 = key))) m ++ [(key, x)]) | _ => v end.

(** A flow over the answers the backend has for it. *)
Definition flow {A} (id uid : str) (f : Backend -> result A CliError) : cli A := fun st =>
  match backend_of (c_world st) id uid with
  | Some b => cli_ret (f b) st
  | None => cli_panic st
  end.

Definition run_reproduce (id : str) (upgrade : option str) (json : bool) : cli Outcome :=
  let* _ := client_or_anonymous in
  let* result := flow id (default [] upgrade) (fun b =>
         match upgrade with
         | Some _ => reproduce_upgrade builder fetch_rev json_to_string (fun s => snd <$> build_result s) (fun bs => lit (base64_encode bs))
                       output_dir parse_uuid (be_listing b) (be_rebuild_row b) (be_rebuild_staged b) id
         | None => reproduce builder fetch_rev json_to_string (fun s => snd <$> build_result s) (fun bs => lit (base64_encode bs))
                     output_dir parse_uuid (be_listing b) (be_rebuild_row b) id
         end) in
  let reproducible := is_reproducible result in
  if json then
    let v := to_json result in
    let v := match upgrade with Some uid => set_json v "upgrade_id" (J_str uid) | None => v end in
    let* _ := print_json (set_json v "reproducible" (J_Bool reproducible)) in
    cli_ret (Ok (if reproducible then Done else Exit_two))
  else
    let* _ := println in
    if reproducible then cli_ret (Ok Done) else cli_ret (Err (Other "local build does not match the recorded PCRs")).

(** ** Upgrades *)

Abbreviation chain_of := (chain sha256 hex_encode hex_decode base64_decode (fun bs => lit (base64_encode bs)) skip_chain_compiled
                            parse_uuid row_from_value).
Abbreviation confirm_flow := (confirm_upgrade sha256 hex_encode hex_decode base64_decode (fun bs => lit (base64_encode bs))
  skip_chain_compiled parse_uuid row_from_value builder fetch_rev json_to_string (fun s => snd <$> build_result s)
  pcrs_from_value output_dir load open_signer).
Abbreviation revoke_flow := (revoke_upgrade sha256 hex_encode base64_decode parse_uuid load open_signer).

Definition confirm_time (at_ : option str) (immediate : bool) : result (option Z) CliError :=
  if immediate then Ok (Some (env_now env))
  else match at_ with
       | Some ts => let? t := ok_or (parse_time ts) (Other "invalid RFC 3339 timestamp") in Ok (Some t)
       | None => Ok None
       end.

Definition confirm_target (reproduce : bool) (expect_pcrs : option str) (expect_digest : option string)
    (accept_synchronizer_change debug_enclave : bool) : result (option UpgradeTarget) CliError :=
  let? pcrs := match reproduce, expect_pcrs with
               | true, _ => Ok (Some Reproduce)
               | false, Some arg =>
                   let? p := parse_expected_pcrs arg (fun path => result_ok (env_file env path) ≫= from_utf8) pcrs_from_str in
                   Ok (Some (Expected p))
               | false, None => Ok None
               end in
  let target := (fun pcrs => mkUpgradeTarget pcrs expect_digest accept_synchronizer_change debug_enclave) <$> pcrs in
  if bool_decide (pcrs = None) && (bool_decide (is_Some expect_digest) || accept_synchronizer_change || debug_enclave)
  then Err (Other "--expect-digest, --accept-synchronizer-change and --debug-enclave need --reproduce or --expect-pcrs")
  else Ok target.

Definition run_upgrade (cmd : UpgradeCmd) (json : bool) : cli Outcome :=
  match cmd with
  | Upgrade_Chain id debug_enclave =>
      let* _ := api_new_env in
      let* id := resolve_id id in
      let* summary := flow id [] (fun b => chain_of b id debug_enclave) in
      let* _ := emit json summary in
      if negb (summary_is_verified summary) then cli_ret (Err (Other "the enclave's upgrade chain does not verify"))
      else cli_ret (Ok Done)
  | Upgrade_List id => on_enclave json id (list_upgrades net clock save_io)
  | Upgrade_Confirm id uid at_ immediate reproduce expect_pcrs expect_digest accept debug =>
      let* valid_from := cli_ret (confirm_time at_ immediate) in
      let* _ := api_new_env in
      let* id := resolve_id id in
      let* target := cli_ret (confirm_target reproduce expect_pcrs expect_digest accept debug) in
      let* result := flow id uid (fun b => (confirm_flow b id valid_from target).2) in
      done (emit json result)
  | Upgrade_Revoke id uid =>
      let* _ := api_new_env in
      let* id := resolve_id id in
      let* result := flow id uid (fun b => (revoke_flow b id).2) in
      done (emit json result)
  end.

(** ** Keys *)

Abbreviation generate := (generate_yubikey sha256 hex_encode base64_decode base64_encode load save open prompt).
Abbreviation import := (import_yubikey sha256 hex_encode base64_decode base64_encode load save open).

Definition run_key (cmd : KeyCmd) (json : bool) : cli Outcome :=
  let only_yubikey := Other "only the YubiKey backend is available today; pass --yubikey" in
  match cmd with
  | Key_Generate yubikey args =>
      if negb yubikey then cli_ret (Err only_yubikey)
      else let* k := cli_ret (generate args).2 in done (emit json k)
  | Key_Import yubikey args =>
      if negb yubikey then cli_ret (Err only_yubikey)
      else let* k := cli_ret (import args).2 in done (emit json k)
  | Key_List => let* rows := cli_ret (key_list sha256 hex_encode base64_decode load) in done (emit json rows)
  end.

(** ** The program *)

Definition run_command (cmd : Command) (json : bool) : cli Outcome :=
  match cmd with
  | Cmd_Login => run_login json
  | Cmd_Enclave cmd => run_enclave cmd json
  | Cmd_Deploy image flags => run_deploy image flags json
  | Cmd_Push image id => push image id json
  | Cmd_Build args egress => run_build args egress json
  | Cmd_Reproduce id upgrade => run_reproduce id upgrade json
  | Cmd_Secret cmd => run_secret cmd json
  | Cmd_Upgrade cmd => run_upgrade cmd json
  | Cmd_Key cmd => run_key cmd json
  end.

(** The state it leaves, and its exit status. *)
Definition cli_main (cmd : Command) (json : bool) (st : Cli) : Cli * Z :=
  match run_command cmd json st with
  | (st, Ok Done) => (st, 0)
  | (st, Ok Exit_two) => (st, 2)
  | (st, Err Stop_panic) => (st, 101)
  | (st, Err (Stop_error e)) =>
      (emit_event (E_Out (if json then Stdout_json (error_json display e) else Stderr_text (lit (display e)))) st, 1)
  end.
End Main.
