(* ===== verification/CliMainProofs.v ===== *)
(** The machine-readable mode of [CliMain]: one value on standard output. *)
From stdpp Require Import base gmap list strings.
From S2P Require Import Prelude Identity Signing Attestation Text EgressConfig SecretsInit Chain Server Sdk CliReproduce CliUpgrade CliApi CliApiProofs CliLocal CliCommands CliCommandsProofs CliMain.
#[local] Open Scope Z_scope.

Definition is_stdout (e : Event) : bool :=
  match e with E_Out (Stdout_json _) | E_Out (Stdout_text _) => true | _ => false end.

(** What a command has written to standard output. *)
Definition stdout {S} (st : Cli (S := S)) : list Event := kept is_stdout (c_log st).

Section MainProofs.
Context {S : Type} (net : S -> Request -> S * option Response) (clock : S -> Z) (save_io : S -> SaveIo).
Context `{CJ : CredJson} `{FT : FromBody TokenResponse} `{BU : B64Url}.
Context `{FromBody Json} `{FromBody (list (EnclaveSummary * Json))} `{FromBody RegistryInfo} `{FromBody NotifyPushResponse}.
Context `{FromBody (list SecretSummary)} `{FromBody SecretSummary} `{FromBody (list StagedUpgradeJson)}.
Context `{ToJson (list (EnclaveSummary * Json))} `{ToJson (list SecretSummary)}.
Context `{ToJson BuildOutput} `{ToJson ReproduceResult} `{ToJson ChainSummary} `{ToJson StagedUpgradeJson}.
Context `{ToJson GeneratedKey} `{ToJson ImportedKey} `{ToJson KeyListEntry}.
Context `{P256} `{NitroLib}.
Context `{Cbor BootPayload} `{Cbor UpgradePayload} `{Cbor RevocationPayload} `{Cbor ControlCommand}.
Context (sha256 : bytes -> bytes) (hex_encode : bytes -> string) (hex_decode : string -> option bytes).
Context (base64_decode : string -> option bytes) (base64_encode : bytes -> string) (skip_chain_compiled : bool).
Context (parse_uuid : str -> option Z) (row_from_value : Json -> result EnclaveChainRow string).
Context (builder : BuilderCall -> result str CliError) (fetch_rev : string -> string -> result str CliError).
Context (fetch_source : string -> option string -> result str CliError) (prepare : str -> Json -> result unit CliError).
Context (json_to_string : Json -> str) (build_result : str -> option (str * PcrsHex)).
Context (pcrs_from_value : Json -> result PcrsHex string) (pcrs_from_str : str -> option PcrsHex) (output_dir : str).
Context (load : result KeyIndex CliError) (save : KeyIndex -> result unit CliError).
Context (open_signer : KeyEntry -> bytes -> result ControlSigner CliError).
Context (open : option Z -> result Device string) (prompt : result nat string).
Context `{Ipnet} (from_slice : bytes -> result Json string).
Context (raw_from_value : Json -> result RawAllowlist string) (raw_to_value : RawAllowlist -> Json).
Context (summary_from_value : Json -> option EnclaveSummary) (parse_time : str -> option Z).
Context (docker : S -> list str -> option str -> S * DockerRun) (mono : S -> Z) (sleep : Z -> S -> S).
Context (backend_of : S -> str -> str -> option Backend) (display : CliError -> string) (env : Env).

(** ** How a process can panic *)

(** The last answer was a build log that the offset printed up to cuts inside a
    character. *)
Definition torn_log (st : Cli (S := S)) : Prop :=
  exists pre r resp logs build_log printed drain, c_log st = pre ++ [E_Http r (Some resp)] /\
    rs_text resp ≫= from_body = Some logs /\ str_field logs "build_log" = Some build_log /\
    stream_log (lit build_log) printed drain = None.

(** The causes of a panic, for a command that follows a deployment ([c.1]) or runs
    a flow ([c.2]). *)
Definition crashed (c : bool * bool) (st : Cli (S := S)) : Prop :=
  far_token clock st \/ (c.1 = true /\ torn_log st) \/
  (c.2 = true /\ exists id uid, backend_of (c_world st) id uid = None).

(** A computation that writes nothing to standard output, and panics for a cause. *)
Definition quiet_at (c : bool * bool) {A} (st : Cli (S := S)) (m : cli (S := S) A) : Prop :=
  stdout (m st).1 = stdout st /\ ((m st).2 = Err Stop_panic -> crashed c (m st).1).
Definition quiet (c : bool * bool) {A} (m : cli (S := S) A) : Prop := forall st, quiet_at c st m.


Lemma quiet_at_bind {A B} b (m : cli A) (k : A -> cli B) st :
  quiet_at b st m -> (forall a st1, m st = (st1, Ok a) -> quiet_at b st1 (k a)) -> quiet_at b st (cli_bind m k).
Proof.
  unfold quiet_at, cli_bind. intros [Hm Hp] Hk. destruct (m st) as [st1 [a|e]]; cbn [fst snd] in *.
  - destruct (Hk a st1 eq_refl) as [Hs Hc]. split; [congruence|done].
  - split; [done|]. intros [= ->]. by apply Hp.
Qed.

Lemma quiet_bind {A B} b (m : cli A) (k : A -> cli B) : quiet b m -> (forall a, quiet b (k a)) -> quiet b (cli_bind m k).
Proof. intros Hm Hk st. apply quiet_at_bind; [apply Hm|]. intros. apply Hk. Qed.

Lemma quiet_ret {A} b (r : result A CliError) : quiet b (cli_ret r).
Proof. intros st. split; [done|]. by destruct r. Qed.

Lemma quiet_try {A} b (m : cli A) : quiet b m -> quiet b (cli_try m).
Proof.
  intros Hm st. destruct (Hm st) as [Hs Hp]. unfold quiet_at, cli_try.
  destruct (m st) as [st1 [a|[e|]]]; cbn [fst snd] in *; split; try done. by intros _; apply Hp.
Qed.


Lemma quiet_output b o : is_stdout (E_Out o) = false -> quiet b (output o).
Proof. intros Ho st. split; [|done]. by apply silent_output. Qed.






Lemma quiet_note b msg : quiet b (note true msg).
Proof. by apply quiet_output. Qed.
Lemma quiet_lines b ls : quiet b (note_lines true ls).
Proof. induction ls as [|l ls IH]; [apply quiet_ret|]. apply quiet_bind; [apply quiet_note|done]. Qed.

Lemma quiet_same_log {A} b (m : cli (S := S) A) :
  (forall st, c_log (m st).1 = c_log st /\ (m st).2 <> Err Stop_panic) -> quiet b m.
Proof. intros Hm st. destruct (Hm st) as [Hl Hp]. split; [|done]. unfold stdout. by rewrite Hl. Qed.

Lemma quiet_api_new b : quiet b (api_new_env env).
Proof.
  apply quiet_same_log. intros st. unfold api_new_env, api_new.
  by destruct (load_credentials _ _ _) as [d []].
Qed.

Lemma quiet_flow {A} d id uid (f : Backend -> result A CliError) : quiet (d, true) (flow backend_of id uid f).
Proof.
  intros st. unfold quiet_at, flow. destruct (backend_of (c_world st) id uid) eqn:E; [apply quiet_ret|].
  split; [done|]. intros _. right. right. split; [done|]. eauto.
Qed.

Lemma quiet_docker b args stdin : quiet b (run_docker docker args stdin).
Proof.
  intros st. unfold quiet_at, run_docker. destruct (docker _ _ _). split; [|done].
  unfold stdout. cbn. by rewrite kept_app, app_nil_r.
Qed.

(** Every request of the client is quiet. *)
Lemma quiet_exchange b m path body : quiet b (exchange net clock save_io m path body).
Proof.
  intros st. split; [by apply silent_exchange|].
  destruct (exchange_outcome net clock save_io m path body st) as [_ Ho].
  destruct (exchange _ _ _ _ _ _ st) as [st' [resp|[e|]]]; [done..|]. intros _. by left.
Qed.
Lemma quiet_request {T} `{FromBody T} b m path : quiet b (request (T := T) net clock save_io m path).
Proof. apply quiet_bind; [apply quiet_exchange|]. intros. apply quiet_ret. Qed.
Lemma quiet_request_with_body {T} `{FromBody T} b m path body : quiet b (request_with_body (T := T) net clock save_io m path body).
Proof. apply quiet_bind; [apply quiet_exchange|]. intros. apply quiet_ret. Qed.
Lemma quiet_request_no_response b m path verb : quiet b (request_no_response net clock save_io m path verb).
Proof. apply quiet_bind; [apply quiet_exchange|]. intros. apply quiet_ret. Qed.




(** Takes a computation apart, down to its requests and notes. *)
Ltac quiet_steps :=
  repeat first
    [ progress intros
    | apply quiet_request | apply quiet_request_with_body | apply quiet_request_no_response
    | apply quiet_note | apply quiet_lines | apply quiet_api_new | apply quiet_docker | apply quiet_flow
    | apply quiet_ret | apply quiet_bind | apply quiet_try
    | by apply quiet_output
    | match goal with |- quiet _ (match ?x with _ => _ end) => destruct x end ].

Lemma quiet_resolve_row b id : quiet b (resolve_row net clock save_io parse_uuid id).
Proof. unfold resolve_row, list_enclaves. quiet_steps. Qed.
Lemma quiet_resolve b id : quiet b (resolve_enclave_id net clock save_io parse_uuid id).
Proof. unfold resolve_enclave_id. apply quiet_bind; [apply quiet_resolve_row|]. quiet_steps. Qed.













(** ** Commands *)

Lemma emit_true {T} `{ToJson T} (v : T) : emit (S := S) true v = print_json (to_json v).
Proof. done. Qed.


Abbreviation create_flags := (create_from_flags net clock save_io base64_decode load from_slice raw_from_value raw_to_value env).











Abbreviation upgrade := (run_upgrade net clock save_io sha256 hex_encode hex_decode base64_decode base64_encode skip_chain_compiled
  parse_uuid row_from_value builder fetch_rev json_to_string build_result pcrs_from_value pcrs_from_str output_dir load
  open_signer parse_time backend_of env).
Abbreviation main := (cli_main net clock save_io sha256 hex_encode hex_decode base64_decode base64_encode skip_chain_compiled
  parse_uuid row_from_value builder fetch_rev fetch_source prepare json_to_string build_result pcrs_from_value pcrs_from_str
  output_dir load save open_signer open prompt from_slice raw_from_value raw_to_value summary_from_value parse_time docker
  mono sleep backend_of display env).





(** The exception is [upgrade chain] of a chain that does not verify: it writes the
    summary, then returns an error, and [main] writes the error object after it,
    so that standard output holds two values. *)
Theorem unverified_chain_prints_twice id debug st st1 st2 rid b summary :
  api_new_env env st = (st1, Ok tt) -> resolve_enclave_id net clock save_io parse_uuid id st1 = (st2, Ok rid) ->
  backend_of (c_world st2) rid [] = Some b ->
  chain sha256 hex_encode hex_decode base64_decode (fun bs => lit (base64_encode bs)) skip_chain_compiled parse_uuid
    row_from_value b rid debug = Ok summary ->
  summary_is_verified summary = false ->
  let '(st', code) := main (Cmd_Upgrade (Upgrade_Chain id debug)) true st in
  code = 1 /\ exists e, stdout st' = stdout st ++ [E_Out (Stdout_json (to_json summary)); E_Out (Stdout_json (error_json display e))].
Proof.
  intros Hn Hr Hbk Hc Hv. unfold cli_main. cbn [run_command run_upgrade]. unfold cli_bind at 1. rewrite Hn.
  unfold cli_bind at 1. rewrite Hr. unfold cli_bind at 1, flow at 1. rewrite Hbk, Hc. cbn [cli_ret map_err]. unfold cli_bind at 1. cbn [emit print_json output].
  rewrite Hv. cbn [negb cli_ret]. split; [done|]. eexists. unfold stdout. cbn [emit_event c_log].
  rewrite !kept_app. cbn [kept List.filter is_stdout].
  assert (kept is_stdout (c_log st2) = kept is_stdout (c_log st)) as ->.
  { pose proof (quiet_api_new (true, true) st) as [Q1 _]. rewrite Hn in Q1. pose proof (quiet_resolve (true, true) id st1) as [Q2 _]. rewrite Hr in Q2.
    unfold stdout in *. cbn [fst] in Q1, Q2. congruence. }
  by rewrite <-app_assoc.
Qed.
End MainProofs.
