(* ===== verification/Metrics.v ===== *)
(** Operational metrics: the node's counters and samples
    ([synchronizer/src/metrics.rs]) and the frame they travel in
    ([enclavia-protocol/src/synchronizer_metrics.rs]).  Counters are 64-bit and
    wrap.  Two theorems: the counters of a request kind count every request of
    that kind exactly once, by outcome and by latency; and a sample the node
    collects is one the receiver accepts, with nothing read past its frame. *)
From stdpp Require Import base gmap list sorting strings.
From S2P Require Import Prelude Signing Attestation Text Wire Service.
#[local] Open Scope Z_scope.

(** ** Labels *)

Inductive RpcKind : Type := K_Get | K_Pin | K_Register | K_Transition | K_Revoke.

Definition RpcKind_ALL : list RpcKind := [K_Get; K_Pin; K_Register; K_Transition; K_Revoke].

#[global] Instance RpcKind_eq_dec : EqDecision RpcKind.
Proof. solve_decision. Defined.

Definition kind_str (k : RpcKind) : str :=
  lit match k with
      | K_Get => "get" | K_Pin => "pin" | K_Register => "register" | K_Transition => "transition"
      | K_Revoke => "revoke"
      end.

Definition kind_index (k : RpcKind) : nat :=
  match k with K_Get => 0 | K_Pin => 1 | K_Register => 2 | K_Transition => 3 | K_Revoke => 4 end.

Definition of_request (r : Request) : RpcKind :=
  match r with
  | Rq_Get _ => K_Get
  | Rq_Pin _ _ _ => K_Pin
  | Rq_Register _ _ => K_Register
  | Rq_Transition _ _ => K_Transition
  | Rq_Revoke _ => K_Revoke
  end.

Inductive RpcOutcome : Type :=
| O_Ok | O_Unauthorized | O_NotFound | O_AlreadyRegistered | O_TransitionRejected | O_OperationRejected
| O_VersionConflict | O_Unavailable | O_Timeout | O_TransitionRevoked | O_RevocationRejected
| O_TransitionCommitmentMismatch.

Definition RpcOutcome_ALL : list RpcOutcome :=
  [O_Ok; O_Unauthorized; O_NotFound; O_AlreadyRegistered; O_TransitionRejected; O_OperationRejected;
   O_VersionConflict; O_Unavailable; O_Timeout; O_TransitionRevoked; O_RevocationRejected;
   O_TransitionCommitmentMismatch].

#[global] Instance RpcOutcome_eq_dec : EqDecision RpcOutcome.
Proof. solve_decision. Defined.

Definition outcome_str (o : RpcOutcome) : str :=
  lit match o with
      | O_Ok => "ok" | O_Unauthorized => "unauthorized" | O_NotFound => "not_found"
      | O_AlreadyRegistered => "already_registered" | O_TransitionRejected => "transition_rejected"
      | O_OperationRejected => "operation_rejected" | O_VersionConflict => "version_conflict"
      | O_Unavailable => "unavailable" | O_Timeout => "timeout" | O_TransitionRevoked => "transition_revoked"
      | O_RevocationRejected => "revocation_rejected" | O_TransitionCommitmentMismatch => "commitment_mismatch"
      end.

Definition outcome_index (o : RpcOutcome) : nat :=
  match o with
  | O_Ok => 0 | O_Unauthorized => 1 | O_NotFound => 2 | O_AlreadyRegistered => 3 | O_TransitionRejected => 4
  | O_OperationRejected => 5 | O_VersionConflict => 6 | O_Unavailable => 7 | O_Timeout => 8
  | O_TransitionRevoked => 9 | O_RevocationRejected => 10 | O_TransitionCommitmentMismatch => 11
  end.

Definition of_response (r : Response) : RpcOutcome :=
  match r with
  | RespErr e =>
      match e with
      | Rpc_Unauthorized => O_Unauthorized
      | Rpc_NotFound => O_NotFound
      | Rpc_AlreadyRegistered => O_AlreadyRegistered
      | Rpc_TransitionRejected => O_TransitionRejected
      | Rpc_OperationRejected => O_OperationRejected
      | Rpc_VersionConflict => O_VersionConflict
      | Rpc_Unavailable => O_Unavailable
      | Rpc_TransitionRevoked => O_TransitionRevoked
      | Rpc_RevocationRejected => O_RevocationRejected
      | Rpc_TransitionCommitmentMismatch => O_TransitionCommitmentMismatch
      end
  | _ => O_Ok
  end.

Definition of_answered (a : Answered) : RpcOutcome :=
  match of_response (an_response a) with
  | O_Unavailable => if an_timed_out a then O_Timeout else O_Unavailable
  | other => other
  end.

Inductive RejectionSource : Type := Src_Client | Src_Peer | Src_TransitionLink.
Definition RejectionSource_ALL : list RejectionSource := [Src_Client; Src_Peer; Src_TransitionLink].
Definition source_str (s : RejectionSource) : str :=
  lit match s with Src_Client => "client" | Src_Peer => "peer" | Src_TransitionLink => "transition_link" end.
Definition source_index (s : RejectionSource) : nat :=
  match s with Src_Client => 0 | Src_Peer => 1 | Src_TransitionLink => 2 end.

#[global] Instance RejectionReason_eq_dec : EqDecision RejectionReason.
Proof. solve_decision. Defined.

Definition RejectionReason_ALL : list RejectionReason :=
  [Malformed; RR_NotYetValid; RR_Expired; UntrustedChain; RR_Signature; ClockSkew; NonceMismatch;
   RR_PayloadBindingMismatch; RR_PcrMismatch; RR_SkipChainNotCompiled].
Definition reason_str (r : RejectionReason) : str :=
  lit match r with
      | Malformed => "malformed" | RR_NotYetValid => "not_yet_valid" | RR_Expired => "expired"
      | UntrustedChain => "untrusted_chain" | RR_Signature => "signature" | ClockSkew => "clock_skew"
      | NonceMismatch => "nonce_mismatch" | RR_PayloadBindingMismatch => "payload_binding_mismatch"
      | RR_PcrMismatch => "pcr_mismatch" | RR_SkipChainNotCompiled => "skip_chain_not_compiled"
      end.
Definition OTHER_REASON : str := lit "other".
Definition N_REASONS : nat := S (length RejectionReason_ALL).

Inductive JoinPhase : Type := Ph_Starting | Ph_Discovering | Ph_Initializing | Ph_Voter | Ph_Evicted.
Definition JoinPhase_ALL : list JoinPhase := [Ph_Starting; Ph_Discovering; Ph_Initializing; Ph_Voter; Ph_Evicted].
Definition phase_str (p : JoinPhase) : str :=
  lit match p with
      | Ph_Starting => "starting" | Ph_Discovering => "discovering" | Ph_Initializing => "initializing"
      | Ph_Voter => "voter" | Ph_Evicted => "evicted"
      end.
Definition phase_u8 (p : JoinPhase) : Z :=
  match p with Ph_Starting => 0 | Ph_Discovering => 1 | Ph_Initializing => 2 | Ph_Voter => 3 | Ph_Evicted => 4 end.
Definition phase_from_u8 (v : Z) : JoinPhase :=
  default Ph_Starting (List.find (fun p => phase_u8 p =? v) JoinPhase_ALL).

(** ** Counters *)

Definition RPC_LATENCY_BOUNDS_MS : list Z := [1; 2; 5; 10; 25; 50; 100; 250; 500; 1000; 2500; 5000].
Definition N_BUCKETS : nat := S (length RPC_LATENCY_BOUNDS_MS).

(** [fetch_add] of one. *)
Definition bump (n : Z) : Z := u64_add n 1.

Record RpcStats := mkRpcStats {
  rs_counts : list (list Z);
  rs_buckets : list (list Z);
  rs_sum_us : list Z;
}.

Definition rpc_stats_new : RpcStats :=
  mkRpcStats (replicate (length RpcKind_ALL) (replicate (length RpcOutcome_ALL) 0))
    (replicate (length RpcKind_ALL) (replicate N_BUCKETS 0)) (replicate (length RpcKind_ALL) 0).

Fixpoint bucket_from (bounds : list Z) (us : Z) : nat :=
  match bounds with
  | [] => 0
  | b :: bounds => if us <=? b * 1000 then 0 else S (bucket_from bounds us)
  end.
Definition bucket_index (us : Z) : nat := bucket_from RPC_LATENCY_BOUNDS_MS us.

(** [elapsed] in microseconds. *)
Definition record (s : RpcStats) (kind : RpcKind) (outcome : RpcOutcome) (elapsed : Z) : RpcStats :=
  let k := kind_index kind in
  let us := Z.min elapsed (2 ^ 64 - 1) in
  mkRpcStats (alter (alter bump (outcome_index outcome)) k (rs_counts s))
    (alter (alter bump (bucket_index us)) k (rs_buckets s))
    (alter (fun n => u64_add n us) k (rs_sum_us s)).

Definition record_response (s : RpcStats) (kind : RpcKind) (r : Response) (elapsed : Z) : RpcStats :=
  record s kind (of_response r) elapsed.
Definition record_answered (s : RpcStats) (kind : RpcKind) (a : Answered) (elapsed : Z) : RpcStats :=
  record s kind (of_answered a) elapsed.

Definition RejectionStats : Type := list (list Z).
Definition rejection_stats_new : RejectionStats :=
  replicate (length RejectionSource_ALL) (replicate N_REASONS 0).

Definition reason_index (r : RejectionReason) : nat :=
  default (N_REASONS - 1)%nat (fst <$> list_find (eq r) RejectionReason_ALL).

Definition record_rejection (s : RejectionStats) (source : RejectionSource) (r : RejectionReason) : RejectionStats :=
  alter (alter bump (reason_index r)) (source_index source) s.

Record RouteStats := mkRouteStats {
  rt_local : Z; rt_forwarded : Z; rt_unavailable : Z; rt_forwarded_served : Z }.
Record JoinStats := mkJoinStats { js_phase : Z; js_probes : Z; js_admissions : Z; js_evictions : Z }.

Definition set_phase (j : JoinStats) (p : JoinPhase) : JoinStats :=
  mkJoinStats (phase_u8 p) (js_probes j) (js_admissions j) (js_evictions j).
Definition phase (j : JoinStats) : JoinPhase := phase_from_u8 (js_phase j).

Record Metrics := mkMetrics {
  m_rpc : RpcStats;
  m_rejections : RejectionStats;
  m_routes : RouteStats;
  m_join : JoinStats;
  m_export_failures : Z;
  m_transitions_late : Z;
}.

Definition metrics_new : Metrics :=
  mkMetrics rpc_stats_new rejection_stats_new (mkRouteStats 0 0 0 0) (mkJoinStats 0 0 0 0) 0 0.

(** One peer's outbound channel; no answered ping is a round trip of 0. *)
Record PeerLinkStats := mkPeerLink {
  pl_connected : bool;
  pl_channels_established : Z;
  pl_dial_failures : Z;
  pl_pings : Z;
  pl_pong_timeouts : Z;
  pl_last_ping_rtt_us : Z;
}.

Inductive PeerEvent : Type :=
| ChannelUp | ChannelDown | DialFailed | PingSent | PongTimedOut | PingAnswered (rtt_us : Z).

Definition peer_event (p : PeerLinkStats) (e : PeerEvent) : PeerLinkStats :=
  match p, e with
  | mkPeerLink c ch d pi po rtt, ChannelUp => mkPeerLink true (bump ch) d pi po rtt
  | mkPeerLink c ch d pi po rtt, ChannelDown => mkPeerLink false ch d pi po rtt
  | mkPeerLink c ch d pi po rtt, DialFailed => mkPeerLink c ch (bump d) pi po rtt
  | mkPeerLink c ch d pi po rtt, PingSent => mkPeerLink c ch d (bump pi) po rtt
  | mkPeerLink c ch d pi po rtt, PongTimedOut => mkPeerLink c ch d pi (bump po) rtt
  | mkPeerLink c ch d pi po rtt, PingAnswered us => mkPeerLink c ch d pi po (Z.max (Z.min us (2 ^ 64 - 1)) 1)
  end.

(** ** Samples *)

Record PeerMatchedIndex := mkPeerMatched { mi_peer : str; mi_matched_index : option Z }.

Record RaftSample := mkRaftSample {
  sa_role : str;
  sa_term : Z;
  sa_last_log_index : option Z;
  sa_last_applied_index : option Z;
  sa_snapshot_index : option Z;
  sa_voters : Z;
  sa_learners : Z;
  sa_has_leader : bool;
  sa_millis_since_quorum_ack : option Z;
  sa_peer_matched_index : list PeerMatchedIndex;
}.

Record JoinSample := mkJoinSample { jo_phase : str; jo_probes : Z; jo_admissions : Z; jo_evictions : Z }.

Record PeerSample := mkPeerSample {
  ps_peer : str;
  ps_connected : bool;
  ps_channels_established : Z;
  ps_dial_failures : Z;
  ps_pings : Z;
  ps_pong_timeouts : Z;
  ps_last_ping_rtt_us : option Z;
}.

Record OutcomeCount := mkOutcomeCount { oc_outcome : str; oc_count : Z }.
Record RpcKindSample := mkRpcKindSample {
  rk_kind : str;
  rk_outcomes : list OutcomeCount;
  rk_latency_buckets : list Z;
  rk_latency_sum_us : Z;
}.
Record RpcSample := mkRpcSample {
  rp_latency_bounds_ms : list Z;
  rp_kinds : list RpcKindSample;
  rp_routed_local : Z;
  rp_routed_forwarded : Z;
  rp_routed_unavailable : Z;
  rp_forwarded_served : Z;
  rp_transitions_late : Z;
}.
Record RejectionCount := mkRejectionCount { rc_source : str; rc_reason : str; rc_count : Z }.
Record ResourceSample := mkResourceSample {
  rs_live_keys : option Z; rs_retired_keys : option Z; rs_snapshot_bytes : option Z; rs_rss_bytes : option Z }.

Record SynchronizerSample := mkSample {
  ss_version : Z;
  ss_node : str;
  ss_seq : Z;
  ss_uptime_s : Z;
  ss_export_failures : Z;
  ss_raft : option RaftSample;
  ss_join : option JoinSample;
  ss_peers : list PeerSample;
  ss_rpc : RpcSample;
  ss_rejections : list RejectionCount;
  ss_clock_offset_ms : option Z;
  ss_resources : ResourceSample;
}.

Definition MAX_SAMPLE_FRAME_SIZE : Z := 16 * 1024.
Definition SAMPLE_VERSION : Z := 1.
Definition MAX_PEERS : nat := 16.
Definition MAX_NAME_LEN : Z := 64.
Definition MAX_LABEL_LEN : Z := 32.
Definition MAX_LATENCY_BUCKETS : nat := 16.

Definition is_valid_name (s : str) : bool :=
  negb (bool_decide (s = [])) && (str_len s <=? MAX_NAME_LEN) &&
  forallb (fun b => is_ascii_alphanumeric b || (b =? 46) || (b =? 95) || (b =? 45)) s.

Definition is_valid_label (s : str) : bool :=
  negb (bool_decide (s = [])) && (str_len s <=? MAX_LABEL_LEN) &&
  forallb (fun b => is_lower b || is_digit b || (b =? 95)) s.

Definition rpc_kind_sample (s : RpcStats) (kind : RpcKind) : RpcKindSample :=
  let k := kind_index kind in
  mkRpcKindSample (kind_str kind)
    ((fun o => mkOutcomeCount (outcome_str o) (default 0 (rs_counts s !! k ≫= fun r => r !! outcome_index o)))
       <$> RpcOutcome_ALL)
    (default [] (rs_buckets s !! k)) (default 0 (rs_sum_us s !! k)).

Definition rpc_stats_sample (s : RpcStats) : list RpcKindSample := rpc_kind_sample s <$> RpcKind_ALL.

Definition rejection_sample (s : RejectionStats) : list RejectionCount :=
  let labels := (reason_str <$> RejectionReason_ALL) ++ [OTHER_REASON] in
  RejectionSource_ALL ≫= fun source =>
    imap (fun i reason => mkRejectionCount (source_str source) reason
            (default 0 (s !! source_index source ≫= fun r => r !! i))) labels.

Definition join_sample (j : JoinStats) : JoinSample :=
  mkJoinSample (phase_str (phase j)) (js_probes j) (js_admissions j) (js_evictions j).

Definition peer_sample (p : PeerLinkStats) (peer : str) : PeerSample :=
  mkPeerSample peer (pl_connected p) (pl_channels_established p) (pl_dial_failures p) (pl_pings p)
    (pl_pong_timeouts p) (if pl_last_ping_rtt_us p =? 0 then None else Some (pl_last_ping_rtt_us p)).

Definition rpc_sample (m : Metrics) : RpcSample :=
  mkRpcSample RPC_LATENCY_BOUNDS_MS (rpc_stats_sample (m_rpc m)) (rt_local (m_routes m))
    (rt_forwarded (m_routes m)) (rt_unavailable (m_routes m)) (rt_forwarded_served (m_routes m))
    (m_transitions_late m).

Definition base_sample (m : Metrics) (node : str) (seq uptime_s : Z) (peers : list (str * PeerLinkStats))
    (rss : option Z) : SynchronizerSample :=
  mkSample SAMPLE_VERSION node seq uptime_s (m_export_failures m) None None
    ((fun p => peer_sample p.2 p.1) <$> take MAX_PEERS (List.filter (fun p => is_valid_name p.1) peers))
    (rpc_sample m) (rejection_sample (m_rejections m)) None (mkResourceSample None None None rss).

(** ** Frames *)

Inductive SampleFrameError : Type :=
| SF_Io
| SF_Empty
| SF_TooLarge (n : Z)
| SF_LengthMismatch (declared actual : Z)
| SF_Decode (detail : string)
| SF_UnsupportedVersion (v : Z).

Definition check_frame_len (len : Z) : result nat SampleFrameError :=
  if len =? 0 then Err SF_Empty
  else if MAX_SAMPLE_FRAME_SIZE <? len then Err (SF_TooLarge len)
  else Ok (Z.to_nat len).

Section Frames.
Context `{Cbor SynchronizerSample}.

Definition encode_sample_frame (s : SynchronizerSample) : result bytes SampleFrameError :=
  let body := encode s in
  let body_len := Z.of_nat (length body) in
  if MAX_SAMPLE_FRAME_SIZE <? body_len then Err (SF_TooLarge body_len)
  else Ok (be_encode 4 body_len ++ body).

Definition decode_sample_body (body : bytes) : result SynchronizerSample SampleFrameError :=
  if MAX_SAMPLE_FRAME_SIZE <? Z.of_nat (length body) then Err (SF_TooLarge (Z.of_nat (length body)))
  else
    let? s := map_err SF_Decode (from_reader body) in
    if negb (ss_version s =? SAMPLE_VERSION) then Err (SF_UnsupportedVersion (ss_version s)) else Ok s.

Definition decode_sample_frame (frame : bytes) : result SynchronizerSample SampleFrameError :=
  if (length frame <? 4)%nat then Err (SF_LengthMismatch 4 (Z.of_nat (length frame)))
  else
    let? declared := check_frame_len (be_decode (take 4 frame)) in
    let body := drop 4 frame in
    if negb (length body =? declared)%nat
    then Err (SF_LengthMismatch (Z.of_nat declared) (Z.of_nat (length body)))
    else decode_sample_body body.

(** The bytes that arrive before the connection ends, and those left unread. *)
Definition read_sample_frame (stream : bytes) : result SynchronizerSample SampleFrameError * bytes :=
  if (length stream <? 4)%nat then (Err SF_Io, [])
  else
    match check_frame_len (be_decode (take 4 stream)) with
    | Err e => (Err e, drop 4 stream)
    | Ok len =>
        if (length (drop 4 stream) <? len)%nat then (Err SF_Io, [])
        else (decode_sample_body (take len (drop 4 stream)), drop len (drop 4 stream))
    end.

(** One export: the sample collected in time, its frame, and what came of the
    delivery. *)
Inductive ExportError : Type := CollectTimeout | EncodeFailed (e : SampleFrameError) | SendFailed.

Definition export_once (collected : option SynchronizerSample) (deliver : bytes -> bool)
    : result bytes ExportError :=
  let? s := ok_or collected CollectTimeout in
  let? frame := map_err EncodeFailed (encode_sample_frame s) in
  if deliver frame then Ok frame else Err SendFailed.

(** One tick of the exporter's loop: the counters, the next sequence number, and
    the frame the host got. *)
Definition export_tick (m : Metrics) (seq : Z) (collect : Metrics -> Z -> option SynchronizerSample)
    (deliver : bytes -> bool) : Metrics * Z * option bytes :=
  match export_once (collect m seq) deliver with
  | Ok frame => (m, u64_add seq 1, Some frame)
  | Err _ => (mkMetrics (m_rpc m) (m_rejections m) (m_routes m) (m_join m) (bump (m_export_failures m))
                (m_transitions_late m), u64_add seq 1, None)
  end.
End Frames.

(** ** What the counters count *)

Section Tables.
Implicit Types t : list (list Z).

(** The cell of a table of counters. *)
Definition cell t (i j : nat) : option Z := t !! i ≫= fun row => row !! j.

Lemma cell_bump t i j i' j' :
  cell (alter (alter bump j) i t) i' j' =
  if decide (i = i' /\ j = j') then bump <$> cell t i' j' else cell t i' j'.
Proof.
  unfold cell. destruct (decide (i = i')) as [<-|Hi].
  - rewrite list_lookup_alter_eq. destruct (t !! i) as [row|]; simpl; [|by case_decide].
    destruct (decide (j = j')) as [<-|Hj].
    + rewrite list_lookup_alter_eq. by rewrite decide_True.
    + rewrite list_lookup_alter_ne by done. rewrite decide_False; naive_solver.
  - rewrite list_lookup_alter_ne by done. rewrite decide_False; naive_solver.
Qed.
End Tables.

(** A request answered: its kind, its outcome and the microseconds it took. *)
Record Completed := mkCompleted { co_kind : RpcKind; co_outcome : RpcOutcome; co_elapsed : Z }.

Definition record_all (l : list Completed) : RpcStats :=
  foldl (fun s c => record s (co_kind c) (co_outcome c) (co_elapsed c)) rpc_stats_new l.

(** How many of them satisfy a test. *)
Definition tally (p : Completed -> bool) (l : list Completed) : Z := Z.of_nat (length (List.filter p l)).

Definition of_kind (k : RpcKind) (c : Completed) : bool := bool_decide (co_kind c = k).
Definition sum_list_Z (l : list Z) : Z := foldr Z.add 0 l.

Lemma tally_snoc (p : Completed -> bool) l c : tally p (l ++ [c]) = tally p l + (if p c then 1 else 0).
Proof. unfold tally. rewrite List.filter_app, length_app. simpl. destruct (p c); simpl; lia. Qed.

Lemma tally_le p l : 0 <= tally p l <= Z.of_nat (length l).
Proof. unfold tally. pose proof (List.filter_length_le p l). lia. Qed.

Lemma tally_ext p q l : (forall c, p c = q c) -> tally p l = tally q l.
Proof. intros He. unfold tally. do 2 f_equal. by apply List.filter_ext. Qed.

(** Classes that split the requests of a test split its tally. *)
Lemma tally_split {A} (cls : A -> Completed -> bool) (as_ : list A) (p : Completed -> bool) l :
  (forall c, sum_list_Z ((fun a => if cls a c then 1 else 0) <$> as_) = if p c then 1 else 0) ->
  sum_list_Z ((fun a => tally (cls a) l) <$> as_) = tally p l.
Proof.
  intros Hone. induction l as [|c l IH] using rev_ind.
  - change (tally p []) with 0. clear Hone. induction as_ as [|a as_ IHa]; [done|].
    rewrite fmap_cons. cbn [sum_list_Z foldr]. unfold sum_list_Z in IHa. by rewrite IHa.
  - rewrite tally_snoc, <- IH, <- Hone. clear. induction as_ as [|a as_ IH]; [done|].
    rewrite !fmap_cons. cbn [sum_list_Z foldr] in *. unfold sum_list_Z in IH. rewrite IH, tally_snoc. lia.
Qed.

Definition us_of (c : Completed) : Z := Z.min (co_elapsed c) (2 ^ 64 - 1).
Definition in_bucket (k : RpcKind) (i : nat) (c : Completed) : bool :=
  of_kind k c && bool_decide (bucket_index (us_of c) = i).
Definition with_outcome (k : RpcKind) (o : RpcOutcome) (c : Completed) : bool :=
  of_kind k c && bool_decide (co_outcome c = o).

Lemma bucket_from_lt bounds us : (bucket_from bounds us <= length bounds)%nat.
Proof. induction bounds as [|b bounds IH]; simpl; [lia|]. case_match; lia. Qed.

Lemma bucket_index_lt us : (bucket_index us < N_BUCKETS)%nat.
Proof. pose proof (bucket_from_lt RPC_LATENCY_BOUNDS_MS us). unfold bucket_index, N_BUCKETS. lia. Qed.

Lemma kind_index_inj k k' : kind_index k = kind_index k' -> k = k'.
Proof. by destruct k, k'. Qed.
Lemma outcome_index_inj o o' : outcome_index o = outcome_index o' -> o = o'.
Proof. by destruct o, o'. Qed.

(** The counters hold the tallies, modulo 2^64. *)
Lemma record_all_counts l k o :
  cell (rs_counts (record_all l)) (kind_index k) (outcome_index o) = Some (tally (with_outcome k o) l mod 2 ^ 64).
Proof.
  induction l as [|c l IH] using rev_ind; [by destruct k, o|].
  unfold record_all. rewrite foldl_snoc. fold (record_all l). unfold record. cbn [rs_counts].
  rewrite cell_bump, IH, tally_snoc. unfold with_outcome at 4, of_kind.
  case_decide as Hd.
  - destruct Hd as [->%kind_index_inj ->%outcome_index_inj]. rewrite !bool_decide_eq_true_2 by done.
    cbn [andb fmap option_fmap option_map]. unfold bump, u64_add. by rewrite Zplus_mod_idemp_l.
  - rewrite <- bool_decide_and, bool_decide_eq_false_2 by naive_solver. by rewrite Z.add_0_r.
Qed.

Lemma record_all_buckets l k i :
  (i < N_BUCKETS)%nat ->
  cell (rs_buckets (record_all l)) (kind_index k) i = Some (tally (in_bucket k i) l mod 2 ^ 64).
Proof.
  intros Hi. induction l as [|c l IH] using rev_ind.
  - unfold N_BUCKETS in Hi. cbn in Hi. do 13 (destruct i as [|i]; [by destruct k|]). lia.
  - unfold record_all. rewrite foldl_snoc. fold (record_all l). unfold record. cbn [rs_buckets].
    rewrite cell_bump, IH, tally_snoc. unfold in_bucket at 4, of_kind. fold (us_of c).
    case_decide as Hd.
    + destruct Hd as [->%kind_index_inj <-]. rewrite !bool_decide_eq_true_2 by done.
      cbn [andb fmap option_fmap option_map]. unfold bump, u64_add. by rewrite Zplus_mod_idemp_l.
    + rewrite <- bool_decide_and, bool_decide_eq_false_2; [by rewrite Z.add_0_r|].
      intros [Hk Hb]. apply Hd. by rewrite Hk.
Qed.

Lemma record_all_bucket_row l k :
  exists row, rs_buckets (record_all l) !! kind_index k = Some row /\ length row = N_BUCKETS.
Proof.
  induction l as [|c l IH] using rev_ind; [destruct k; by eexists|].
  destruct IH as (row & Hrow & Hlen). unfold record_all. rewrite foldl_snoc. fold (record_all l).
  unfold record. cbn [rs_buckets]. destruct (decide (kind_index (co_kind c) = kind_index k)) as [->|Hne].
  - rewrite list_lookup_alter_eq, Hrow. eexists. split; [done|]. by rewrite length_alter.
  - rewrite list_lookup_alter_ne by done. by eexists.
Qed.

(** The bounds of a histogram go up. *)
Definition increasing_bounds (bounds : list Z) : Prop := StronglySorted Z.lt bounds.

Lemma bucket_from_le bounds us i b :
  increasing_bounds bounds -> bounds !! i = Some b -> (bucket_from bounds us <= i)%nat <-> us <= b * 1000.
Proof.
  revert i. induction bounds as [|a bounds IH]; intros i Hs Hb; [done|]. cbn [bucket_from].
  apply StronglySorted_inv in Hs as [Hs Ha]. destruct i as [|i]; cbn in Hb.
  - simplify_eq. destruct (Z.leb_spec us (b * 1000)); split; lia.
  - assert (a < b) by (rewrite Forall_lookup in Ha; eauto).
    destruct (Z.leb_spec us (a * 1000)); [split; lia|]. rewrite <- (IH i Hs Hb). lia.
Qed.

Lemma bounds_increasing : increasing_bounds RPC_LATENCY_BOUNDS_MS.
Proof. repeat constructor. Qed.

Lemma bound_small i b : RPC_LATENCY_BOUNDS_MS !! i = Some b -> 0 < b <= 5000.
Proof.
  intros Hb%list_elem_of_lookup_2. revert b Hb. apply Forall_forall. repeat constructor; lia.
Qed.

(** The requests of a kind that took at most a bound. *)
Definition within (k : RpcKind) (ms : Z) (c : Completed) : bool := of_kind k c && (co_elapsed c <=? ms * 1000).

(** Of the buckets [0..n), the one a request falls in counts one. *)
Lemma one_bucket (b n : nat) :
  sum_list_Z ((fun i => if bool_decide (b = i) then 1 else 0) <$> seq 0 n) = if bool_decide (b < n)%nat then 1 else 0.
Proof.
  induction n as [|n IH]; [done|]. rewrite seq_S, fmap_app. cbn [fmap list_fmap].
  assert (Hs : forall l x, sum_list_Z (l ++ [x]) = sum_list_Z l + x).
  { intros l x. unfold sum_list_Z. induction l; simpl; lia. }
  rewrite Hs, IH. repeat case_bool_decide; lia.
Qed.

Lemma one_bucket_of_kind k (n : nat) c :
  sum_list_Z ((fun i => if in_bucket k i c then 1 else 0) <$> seq 0 n) =
  if of_kind k c && bool_decide (bucket_index (us_of c) < n)%nat then 1 else 0.
Proof.
  unfold in_bucket. destruct (of_kind k c); cbn [andb]; [apply one_bucket|].
  induction (seq 0 n) as [|a l IH]; [done|]. rewrite fmap_cons. cbn [sum_list_Z foldr].
  unfold sum_list_Z in IH. by rewrite IH.
Qed.

Lemma kind_sample_buckets l k :
  Z.of_nat (length l) < 2 ^ 64 ->
  rk_latency_buckets (rpc_kind_sample (record_all l) k) = (fun i => tally (in_bucket k i) l) <$> seq 0 N_BUCKETS.
Proof.
  intros Hl. destruct (record_all_bucket_row l k) as (row & Hrow & Hlen).
  unfold rpc_kind_sample. cbn [rk_latency_buckets]. rewrite Hrow. change (default [] (Some row)) with row.
  apply list_eq_same_length with N_BUCKETS; [by rewrite length_fmap, length_seq|done|].
  intros i x y Hi Hx Hy. pose proof (record_all_buckets l k i Hi) as Hc. unfold cell in Hc. rewrite Hrow in Hc.
  cbn in Hc. rewrite list_lookup_fmap, lookup_seq_lt in Hy by done. cbn in Hy. simplify_eq.
  apply Z.mod_small. pose proof (tally_le (in_bucket k i) l). lia.
Qed.

Lemma kind_sample_outcomes l k :
  Z.of_nat (length l) < 2 ^ 64 ->
  rk_outcomes (rpc_kind_sample (record_all l) k) =
  (fun o => mkOutcomeCount (outcome_str o) (tally (with_outcome k o) l)) <$> RpcOutcome_ALL.
Proof.
  intros Hl. unfold rpc_kind_sample. cbn [rk_outcomes]. apply list_fmap_ext. intros _ o _.
  fold (cell (rs_counts (record_all l)) (kind_index k) (outcome_index o)).
  rewrite record_all_counts. unfold default, from_option, id. f_equal. apply Z.mod_small.
  pose proof (tally_le (with_outcome k o) l). lia.
Qed.

(** The counters of a sample are what the requests were.  After any sequence of
    fewer than 2^64 answered requests, the sample of a kind gives for each outcome
    the number of its requests that ended so; the latency buckets up to a bound
    add up to the number of its requests that took at most that bound; and the
    buckets and the outcomes each add up to the number of its requests, so each
    is counted exactly once in both. *)
Theorem counters_count_every_request l k :
  Z.of_nat (length l) < 2 ^ 64 ->
  let s := rpc_kind_sample (record_all l) k in
  rk_outcomes s = (fun o => mkOutcomeCount (outcome_str o) (tally (with_outcome k o) l)) <$> RpcOutcome_ALL /\
  (forall i ms, RPC_LATENCY_BOUNDS_MS !! i = Some ms ->
     sum_list_Z (take (S i) (rk_latency_buckets s)) = tally (within k ms) l) /\
  sum_list_Z (rk_latency_buckets s) = tally (of_kind k) l /\
  sum_list_Z (oc_count <$> rk_outcomes s) = tally (of_kind k) l.
Proof.
  intros Hl s. subst s. rewrite kind_sample_buckets, kind_sample_outcomes by done. split_and!; [done| | |].
  - intros i ms Hb. pose proof (lookup_lt_Some _ _ _ Hb) as Hi.
    assert (Hn : (S i <= N_BUCKETS)%nat) by (unfold N_BUCKETS; lia).
    rewrite <- fmap_take, take_seq, Nat.min_l by done.
    apply tally_split. intros c. rewrite one_bucket_of_kind. unfold within. pose proof (bound_small _ _ Hb) as Hms.
    pose proof (bucket_from_le _ (us_of c) i ms bounds_increasing Hb) as Hle. fold (bucket_index (us_of c)) in Hle.
    destruct (of_kind k c); cbn [andb]; [|done]. unfold us_of in *.
    case_bool_decide; destruct (Z.leb_spec (co_elapsed c) (ms * 1000)); try done; exfalso; lia.
  - apply tally_split. intros c. rewrite one_bucket_of_kind.
    rewrite bool_decide_eq_true_2 by apply bucket_index_lt. by rewrite andb_true_r.
  - rewrite <- list_fmap_compose. apply tally_split. intros [kc o us]. unfold with_outcome, of_kind.
    cbn [co_kind co_outcome]. destruct (bool_decide (kc = k)); [by destruct o|done].
Qed.

Lemma counters_count_every_request_witness :
  sum_list_Z (rk_latency_buckets (rpc_kind_sample
    (record_all [mkCompleted K_Pin O_Ok 1500; mkCompleted K_Get O_Ok 10; mkCompleted K_Pin O_VersionConflict 9000000])
    K_Pin)) = 2.
Proof.
  apply (counters_count_every_request
    [mkCompleted K_Pin O_Ok 1500; mkCompleted K_Get O_Ok 10; mkCompleted K_Pin O_VersionConflict 9000000] K_Pin).
  vm_compute. reflexivity.
Defined.

(** ** Frames read back *)

Section FramesProofs.
Context `{Cbor SynchronizerSample}.

Lemma decode_sample_body_encode s :
  from_reader (encode s) = Ok s -> Z.of_nat (length (encode s)) <= MAX_SAMPLE_FRAME_SIZE -> ss_version s = SAMPLE_VERSION ->
  decode_sample_body (encode s) = Ok s.
Proof.
  intros Hrt Hl Hv. unfold decode_sample_body.
  destruct (Z.ltb_spec MAX_SAMPLE_FRAME_SIZE (Z.of_nat (length (encode s)))); [lia|].
  rewrite Hrt. cbn [map_err]. cbn. by rewrite Hv, Z.eqb_refl.
Qed.

(** A frame crosses the link whole.  What the exporter encodes is at most 16 KiB
    after its length; the receiver decodes it to the same sample, whatever follows
    it on the connection, and leaves exactly what follows unread; the frame by
    itself decodes to the sample too. *)
Theorem sample_frame_crosses s f rest :
  from_reader (encode s) = Ok s -> encode s <> [] -> ss_version s = SAMPLE_VERSION ->
  encode_sample_frame s = Ok f ->
  read_sample_frame (f ++ rest) = (Ok s, rest) /\ decode_sample_frame f = Ok s /\
  Z.of_nat (length f) <= 4 + MAX_SAMPLE_FRAME_SIZE.
Proof.
  unfold encode_sample_frame. intros Hrt Hne Hv Hf. set (b := encode s) in *.
  destruct (Z.ltb_spec MAX_SAMPLE_FRAME_SIZE (Z.of_nat (length b))) as [|Hl]; [done|].
  set (hd := be_encode 4 (Z.of_nat (length b))) in *. apply (f_equal (fun r => if r is Ok x then x else [])) in Hf.
  change (hd ++ b = f) in Hf. subst f.
  assert (Hhd : length hd = 4%nat) by apply be_encode_length.
  assert (Hpos : 0 < Z.of_nat (length b)) by (destruct b; [done|simpl; lia]).
  assert (Hdec : be_decode hd = Z.of_nat (length b)).
  { apply be_decode_encode_id. unfold MAX_SAMPLE_FRAME_SIZE in Hl. lia. }
  assert (Hchk : check_frame_len (be_decode hd) = Ok (length b)).
  { rewrite Hdec. unfold check_frame_len. destruct (Z.eqb_spec (Z.of_nat (length b)) 0); [lia|].
    destruct (Z.ltb_spec MAX_SAMPLE_FRAME_SIZE (Z.of_nat (length b))); [lia|]. by rewrite Nat2Z.id. }
  split_and!.
  - unfold read_sample_frame. rewrite <- !app_assoc, take_app_length', drop_app_length', Hchk by done.
    rewrite !length_app, Hhd.
    destruct (Nat.ltb_spec (4 + (length b + length rest)) 4); [lia|].
    destruct (Nat.ltb_spec (length b + length rest) (length b)); [lia|].
    rewrite take_app_length, drop_app_length. f_equal. by apply decode_sample_body_encode.
  - unfold decode_sample_frame. rewrite length_app, Hhd.
    destruct (Nat.ltb_spec (4 + length b) 4); [lia|].
    rewrite take_app_length', drop_app_length', Hchk by done. cbn. rewrite Nat.eqb_refl. cbn.
    by apply decode_sample_body_encode.
  - rewrite length_app, Hhd. lia.
Qed.
End FramesProofs.

(** A codec with one value: the sample of a node that has just started. *)
Module FrameDemo.
Definition first : SynchronizerSample := base_sample metrics_new (lit "node-a") 0 0 [] None.

#[local] Instance one_sample : Cbor SynchronizerSample :=
  {| encode _ := [7]; from_reader b := if bool_decide (b = [7]) then Ok first else Err "bytes"%string |}.

Definition crosses : Prop := read_sample_frame ([0; 0; 0; 1; 7] ++ [1; 2]) = (Ok first, [1; 2]).
End FrameDemo.

Lemma sample_frame_crosses_witness : FrameDemo.crosses.
Proof.
  apply (@sample_frame_crosses FrameDemo.one_sample FrameDemo.first [0; 0; 0; 1; 7] [1; 2]);
    vm_compute; congruence.
Defined.
