(* ===== verification/MetricsHost.v ===== *)
(** The host's receiver of metric samples ([synchronizer-metrics-host]): it reads
    one frame per connection, renders it as Prometheus text and replaces the
    output file, which it removes when no valid sample has come for a while.

    The sample comes from the other side of a trust boundary, so every string in
    it is arbitrary here.  Floating-point numbers are printed by a parameter. *)
From stdpp Require Import base gmap list strings.
From S2P Require Import Prelude Signing Attestation Text Wire Service Metrics.
#[local] Open Scope Z_scope.

(** ** Receiving *)

Inductive ReceiveError : Type := RE_Timeout | RE_Frame (e : SampleFrameError) | RE_InvalidNode.

Definition receive `{Cbor SynchronizerSample} (in_time : bool) (stream : bytes)
    : result SynchronizerSample ReceiveError :=
  if negb in_time then Err RE_Timeout
  else
    let? s := map_err RE_Frame (read_sample_frame stream).1 in
    if negb (is_valid_name (ss_node s)) then Err RE_InvalidNode else Ok s.

(** ** Rendering *)

(** [Display] of a number of milliseconds or microseconds as seconds, and of a
    count as a floating-point number. *)
Class F64Display := { ms_to_s : Z -> str; us_to_s : Z -> str; count_f64 : Z -> str }.

Definition PREFIX : str := lit "enclavia_synchronizer_".

Record Series := mkSeries { se_suffix : str; se_labels : list (str * str); se_value : str }.
Record Family := mkFamily { fa_name : str; fa_kind : str; fa_help : str; fa_series : list Series }.

(** The text so far, line by line, the series written, and the family. *)
Record Out := mkOut { o_text : list str; o_node : str; o_seen : list str; o_current : str }.

Definition out_new (node : str) : Out := mkOut [] node [] [].

Definition out_family (o : Out) (f : Family) : Out :=
  mkOut (o_text o ++ [lit "# HELP " ++ PREFIX ++ fa_name f ++ lit " " ++ fa_help f;
                      lit "# TYPE " ++ PREFIX ++ fa_name f ++ lit " " ++ fa_kind f])
    (o_node o) (o_seen o) (fa_name f).

Definition valid_pair (kv : str * str) : bool :=
  if bool_decide (kv.1 = lit "peer") then is_valid_name kv.2
  else if bool_decide (kv.1 = lit "le") then true
  else is_valid_label kv.2.

Definition quoted (s : str) : str := [34] ++ s ++ [34].

Definition series_ident (family suffix node : str) (labels : list (str * str)) : str :=
  PREFIX ++ family ++ suffix ++ lit "{node=" ++ quoted node ++
  (labels ≫= fun kv => lit "," ++ kv.1 ++ lit "=" ++ quoted kv.2) ++ lit "}".

Definition out_series (o : Out) (s : Series) : Out :=
  if negb (is_valid_name (o_node o) && forallb valid_pair (se_labels s)) then o
  else
    let line := series_ident (o_current o) (se_suffix s) (o_node o) (se_labels s) in
    if bool_decide (line ∈ o_seen o) then o
    else mkOut (o_text o ++ [line ++ lit " " ++ se_value s]) (o_node o) (line :: o_seen o) (o_current o).

Definition emit (o : Out) (f : Family) : Out := foldl out_series (out_family o f) (fa_series f).

Definition gauge (name help : string) (value : str) : Family :=
  mkFamily (lit name) (lit "gauge") (lit help) [mkSeries [] [] value].
Definition counter (name help : string) (value : str) : Family :=
  mkFamily (lit name) (lit "counter") (lit help) [mkSeries [] [] value].

Definition bit (b : bool) : str := if b then [49] else [48].

Definition state_set (name label help : string) (known : list str) (current : str) : Family :=
  mkFamily (lit name) (lit "gauge") (lit help)
    (((fun s => mkSeries [] [(lit label, s)] (bit (bool_decide (s = current)))) <$> known) ++
     (if bool_decide (current ∈ known) then [] else [mkSeries [] [(lit label, current)] [49]])).

Definition opt_gauge (name help : string) (v : option str) : list Family :=
  match v with Some v => [gauge name help v] | None => [] end.

Definition opt_series (labels : list (str * str)) (v : option str) : list Series :=
  match v with Some v => [mkSeries [] labels v] | None => [] end.

Definition sat_add (a b : Z) : Z := Z.min (a + b) (2 ^ 64 - 1).

Section Render.
Context `{F64Display}.

Definition render_raft (raft : RaftSample) : list Family :=
  [state_set "raft_role" "role" "Raft role of this node (1 for the current role)."
     (lit <$> ["leader"; "follower"; "candidate"; "learner"; "shutdown"]%string) (sa_role raft);
   gauge "raft_term" "Current Raft term." (print_uint (sa_term raft))] ++
  opt_gauge "raft_last_log_index" "Index of the last entry in this node's log."
    (print_uint <$> sa_last_log_index raft) ++
  opt_gauge "raft_last_applied_index" "Index of the last entry applied to this node's state machine."
    (print_uint <$> sa_last_applied_index raft) ++
  opt_gauge "raft_snapshot_index" "Index of the last entry covered by this node's snapshot."
    (print_uint <$> sa_snapshot_index raft) ++
  [gauge "raft_voters" "Voters in the effective membership." (print_uint (sa_voters raft));
   gauge "raft_learners" "Learners in the effective membership." (print_uint (sa_learners raft));
   gauge "raft_has_leader" "1 if this node currently knows a leader." (bit (sa_has_leader raft))] ++
  opt_gauge "raft_quorum_ack_age_seconds" "Leader only: time since a quorum last acknowledged this leader."
    (ms_to_s <$> sa_millis_since_quorum_ack raft) ++
  [mkFamily (lit "raft_peer_matched_index") (lit "gauge")
     (lit "Leader only: highest log index known replicated to each peer.")
     (sa_peer_matched_index raft ≫= fun p =>
        opt_series [(lit "peer", mi_peer p)] (print_uint <$> mi_matched_index p))].

Definition render_join (join : JoinSample) : list Family :=
  [state_set "join_phase" "phase" "Cluster join phase of this node (1 for the current phase)."
     (lit <$> ["starting"; "discovering"; "initializing"; "voter"; "evicted"]%string) (jo_phase join);
   counter "join_probes_total" "Join probes this node sent to peers." (print_uint (jo_probes join));
   counter "join_admissions_total" "Nodes this node admitted as leader." (print_uint (jo_admissions join));
   counter "join_evictions_total"
     "Previous slot holders this node removed as leader while admitting a replacement."
     (print_uint (jo_evictions join))].

Definition peer_families : list (string * string * string * (PeerSample -> option str)) :=
  [("mesh_peer_connected", "gauge", "1 if the outbound attested channel to the peer is up.",
     fun p => Some (bit (ps_connected p)));
   ("mesh_peer_channels_established_total", "counter",
     "Attested channels established to the peer (first connect plus reconnects).",
     fun p => Some (count_f64 (ps_channels_established p)));
   ("mesh_peer_dial_failures_total", "counter", "Dial or handshake attempts to the peer that failed.",
     fun p => Some (count_f64 (ps_dial_failures p)));
   ("mesh_peer_pings_total", "counter", "Liveness pings sent to the peer (only on an idle channel).",
     fun p => Some (count_f64 (ps_pings p)));
   ("mesh_peer_pong_timeouts_total", "counter", "Liveness pings to the peer that went unanswered.",
     fun p => Some (count_f64 (ps_pong_timeouts p)));
   ("mesh_peer_last_ping_rtt_seconds", "gauge", "Round-trip time of the most recent answered liveness ping.",
     fun p => us_to_s <$> ps_last_ping_rtt_us p)]%string.

Definition render_peers (peers : list PeerSample) : list Family :=
  (fun '(name, kind, help, field) =>
     mkFamily (lit name) (lit kind) (lit help)
       (peers ≫= fun p => opt_series [(lit "peer", ps_peer p)] (field p))) <$> peer_families.

Fixpoint increasing (l : list Z) : bool :=
  match l with
  | a :: ((b :: _) as l') => (a <? b) && increasing l'
  | _ => true
  end.

Definition bounds_ok (bounds : list Z) : bool :=
  negb (bool_decide (bounds = [])) && (length bounds <? MAX_LATENCY_BUCKETS)%nat && increasing bounds.

Fixpoint cumulate (acc : Z) (counts : list Z) : list Z :=
  match counts with
  | [] => []
  | c :: counts => sat_add acc c :: cumulate (sat_add acc c) counts
  end.

Definition le_label (bounds : list Z) (i : nat) : str :=
  match bounds !! i with Some ms => ms_to_s ms | None => lit "+Inf" end.

Definition histogram (bounds : list Z) (k : RpcKindSample) : list Series :=
  if negb (length (rk_latency_buckets k) =? S (length bounds))%nat || negb (is_valid_label (rk_kind k)) then []
  else
    let counts := cumulate 0 (rk_latency_buckets k) in
    imap (fun i c => mkSeries (lit "_bucket") [(lit "kind", rk_kind k); (lit "le", le_label bounds i)] (print_uint c))
      counts ++
    [mkSeries (lit "_sum") [(lit "kind", rk_kind k)] (us_to_s (rk_latency_sum_us k));
     mkSeries (lit "_count") [(lit "kind", rk_kind k)] (print_uint (default 0 (last counts)))].

Definition render_rpc (rpc : RpcSample) : list Family :=
  [mkFamily (lit "rpc_requests_total") (lit "counter")
     (lit "Customer RPCs completed on sessions this node holds, by kind and outcome.")
     (rp_kinds rpc ≫= fun k => (fun oc =>
        mkSeries [] [(lit "kind", rk_kind k); (lit "outcome", oc_outcome oc)] (print_uint (oc_count oc)))
          <$> rk_outcomes k);
   mkFamily (lit "rpc_duration_seconds") (lit "histogram")
     (lit "Customer RPC latency on the node that holds the session, by kind.")
     (if bounds_ok (rp_latency_bounds_ms rpc) then rp_kinds rpc ≫= histogram (rp_latency_bounds_ms rpc) else []);
   mkFamily (lit "rpc_routed_total") (lit "counter")
     (lit "Customer RPCs by where they were served: local (this node is leader), forwarded to the leader, or unavailable (no leader within the retry budget).")
     [mkSeries [] [(lit "route", lit "local")] (print_uint (rp_routed_local rpc));
      mkSeries [] [(lit "route", lit "forwarded")] (print_uint (rp_routed_forwarded rpc));
      mkSeries [] [(lit "route", lit "unavailable")] (print_uint (rp_routed_unavailable rpc))];
   counter "rpc_forwarded_served_total"
     "Customer RPCs other nodes forwarded to this node, served as leader." (print_uint (rp_forwarded_served rpc));
   counter "transitions_committed_after_deadline_total"
     "Transitions this node, as leader, applied after their upgrade link's valid_until plus the clock tolerance (verified in time, committed late)."
     (print_uint (rp_transitions_late rpc))].

Definition render_resources (res : ResourceSample) : list Family :=
  [mkFamily (lit "state_keys") (lit "gauge") (lit "Keys in the replicated state machine, by state.")
     (opt_series [(lit "state", lit "live")] (print_uint <$> rs_live_keys res) ++
      opt_series [(lit "state", lit "retired")] (print_uint <$> rs_retired_keys res))] ++
  opt_gauge "snapshot_bytes" "Size of the latest Raft snapshot." (print_uint <$> rs_snapshot_bytes res) ++
  opt_gauge "process_resident_memory_bytes" "Resident set size of the synchronizer process."
    (print_uint <$> rs_rss_bytes res).

Definition families (s : SynchronizerSample) (received_unix_ms : Z) : list Family :=
  [gauge "sample_received_timestamp_seconds"
     "Host time the latest sample arrived (Unix seconds). Alert on staleness." (ms_to_s received_unix_ms);
   gauge "sample_version" "Schema version of the latest sample." (print_uint (ss_version s));
   gauge "sample_seq" "Per-boot sequence number of the latest sample." (print_uint (ss_seq s));
   gauge "uptime_seconds" "Seconds since the synchronizer process started." (print_uint (ss_uptime_s s));
   counter "export_failures_total" "Samples the node failed to deliver (dropped, never retried)."
     (print_uint (ss_export_failures s))] ++
  match ss_raft s with Some raft => render_raft raft | None => [] end ++
  match ss_join s with Some join => render_join join | None => [] end ++
  render_peers (ss_peers s) ++
  render_rpc (ss_rpc s) ++
  [mkFamily (lit "attestation_rejections_total") (lit "counter")
     (lit "Attestation rejections by source (client, peer, transition_link) and reason.")
     ((fun r => mkSeries [] [(lit "source", rc_source r); (lit "reason", rc_reason r)] (print_uint (rc_count r)))
        <$> ss_rejections s)] ++
  opt_gauge "clock_offset_seconds" "Enclave wall clock minus the NSM attestation timestamp."
    (ms_to_s <$> ss_clock_offset_ms s) ++
  render_resources (ss_resources s).

Definition unlines (l : list str) : str := l ≫= fun line => line ++ [10].

Definition render (s : SynchronizerSample) (received_unix_ms : Z) : str :=
  unlines (o_text (foldl emit (out_new (ss_node s)) (families s received_unix_ms))).
End Render.

(** ** Publishing *)

(** The output directory, by file name. *)
Abbreviation Dir := (gmap str str) (only parsing).

Definition tmp_name (name : str) : str := lit "." ++ name ++ lit ".tmp".

(** What the two calls of [write_atomic] do: a write may stop part way. *)
Inductive WriteOutcome : Type := WriteStops (partial : str) | RenameFails | Written.

Definition write_atomic (d : Dir) (name contents : str) (w : WriteOutcome) : Dir * bool :=
  match w with
  | WriteStops partial => (<[tmp_name name := partial]> d, false)
  | RenameFails => (<[tmp_name name := contents]> d, false)
  | Written => (<[name := contents]> (delete (tmp_name name) d), true)
  end.

Section Publish.
Context `{Cbor SynchronizerSample} `{F64Display}.

(** What the accept gives within [stale_after]. *)
Inductive Accepted : Type :=
| Connection (in_time : bool) (stream : bytes) (received_ms : Z) (w : WriteOutcome)
| AcceptFailed
| NoConnection.

Definition handle (d : Dir) (output : str) (in_time : bool) (stream : bytes) (received_ms : Z) (w : WriteOutcome)
    : Dir * bool :=
  match receive in_time stream with
  | Ok s => write_atomic d output (render s received_ms) w
  | Err _ => (d, false)
  end.

Definition remove_stale (d : Dir) (output : str) (removes : bool) : Dir :=
  if removes then delete output d else d.

(** One turn of the loop: what was accepted, the clock when it was handled and
    when the age of the last valid sample is looked at. *)
Record Turn := mkTurn { tn_accept : Accepted; tn_handled : Z; tn_checked : Z; tn_removes : bool }.

Record Receiver := mkReceiver { rv_dir : Dir; rv_last_valid : Z }.

Definition turn (output : str) (stale_after : Z) (r : Receiver) (t : Turn) : Receiver :=
  let (d, valid) := match tn_accept t with
                    | Connection in_time stream ms w => handle (rv_dir r) output in_time stream ms w
                    | AcceptFailed | NoConnection => (rv_dir r, false)
                    end in
  let last_valid := if valid then tn_handled t else rv_last_valid r in
  let d := if stale_after <=? tn_checked t - last_valid then remove_stale d output (tn_removes t) else d in
  mkReceiver d last_valid.

Definition receiver_run (output : str) (stale_after : Z) (r : Receiver) (ts : list Turn) : Receiver :=
  foldl (turn output stale_after) r ts.
End Publish.

(** ** The text is safe *)

(** Neither a line feed nor a character that ends or escapes a label value. *)
Definition clean (s : str) : bool := forallb (fun c => negb ((c =? 10) || (c =? 34) || (c =? 92))) s.

(** [Display] of a floating-point number is digits, a point, a sign, or a word. *)
Class F64Clean `{F64Display} : Prop := f64_clean : forall z,
  clean (ms_to_s z) = true /\ clean (us_to_s z) = true /\ clean (count_f64 z) = true.

Definition FAMILY_NAMES : list str := lit <$>
  ["sample_received_timestamp_seconds"; "sample_version"; "sample_seq"; "uptime_seconds"; "export_failures_total";
   "raft_role"; "raft_term"; "raft_last_log_index"; "raft_last_applied_index"; "raft_snapshot_index"; "raft_voters";
   "raft_learners"; "raft_has_leader"; "raft_quorum_ack_age_seconds"; "raft_peer_matched_index"; "join_phase";
   "join_probes_total"; "join_admissions_total"; "join_evictions_total"; "mesh_peer_connected";
   "mesh_peer_channels_established_total"; "mesh_peer_dial_failures_total"; "mesh_peer_pings_total";
   "mesh_peer_pong_timeouts_total"; "mesh_peer_last_ping_rtt_seconds"; "rpc_requests_total"; "rpc_duration_seconds";
   "rpc_routed_total"; "rpc_forwarded_served_total"; "transitions_committed_after_deadline_total";
   "attestation_rejections_total"; "clock_offset_seconds"; "state_keys"; "snapshot_bytes";
   "process_resident_memory_bytes"]%string.
Definition SUFFIXES : list str := lit <$> [""; "_bucket"; "_sum"; "_count"]%string.
Definition LABEL_KEYS : list str :=
  lit <$> ["role"; "phase"; "peer"; "kind"; "outcome"; "le"; "route"; "source"; "reason"; "state"]%string.

Definition is_meta (line : str) : bool := match line with 35 :: _ => true | _ => false end.

(** A line about a family of the fixed list, or one series of it whose node and
    labels are what the receiver accepts. *)
Definition safe_line (node line : str) : Prop :=
  (is_meta line = true /\ 10 ∉ line) \/
  exists family suffix labels value,
    line = series_ident family suffix node labels ++ lit " " ++ value /\
    family ∈ FAMILY_NAMES /\ suffix ∈ SUFFIXES /\ is_valid_name node = true /\
    Forall (fun kv => kv.1 ∈ LABEL_KEYS /\ clean kv.2 = true) labels /\ clean value = true.

Definition pair_ok (kv : str * str) : Prop := kv.1 ∈ LABEL_KEYS /\ (kv.1 = lit "le" -> clean kv.2 = true).
Definition series_ok (s : Series) : Prop :=
  se_suffix s ∈ SUFFIXES /\ Forall pair_ok (se_labels s) /\ clean (se_value s) = true.
Definition family_ok (f : Family) : Prop :=
  fa_name f ∈ FAMILY_NAMES /\ clean (fa_name f ++ fa_kind f ++ fa_help f) = true /\ Forall series_ok (fa_series f).

Lemma clean_app a b : clean (a ++ b) = clean a && clean b.
Proof. apply forallb_app. Qed.

Lemma clean_no_lf s : clean s = true -> 10 ∉ s.
Proof.
  unfold clean. rewrite forallb_forall. intros Hc Hin%list_elem_of_In. specialize (Hc _ Hin). done.
Qed.

Lemma clean_forallb p s :
  (forall c, p c = true -> c <> 10 /\ c <> 34 /\ c <> 92) -> forallb p s = true -> clean s = true.
Proof.
  unfold clean. rewrite !forallb_forall. intros Hp Hs c Hc. destruct (Hp c (Hs c Hc)) as (?&?&?).
  destruct (Z.eqb_spec c 10), (Z.eqb_spec c 34), (Z.eqb_spec c 92); done.
Qed.

Lemma clean_name s : is_valid_name s = true -> clean s = true.
Proof.
  unfold is_valid_name. intros [_ Hs]%andb_prop. revert Hs. apply clean_forallb. intros c.
  unfold is_ascii_alphanumeric, is_upper, is_lower, is_digit. lia.
Qed.

Lemma clean_label s : is_valid_label s = true -> clean s = true.
Proof.
  unfold is_valid_label. intros [_ Hs]%andb_prop. revert Hs. apply clean_forallb. intros c.
  unfold is_lower, is_digit. lia.
Qed.

Lemma clean_print_uint n : clean (print_uint n) = true.
Proof.
  unfold print_uint. match goal with |- clean (print_digits ?f _ _) = true => generalize f end.
  assert (Ha : clean [] = true) by done. revert Ha. generalize (@nil Z). revert n.
  intros n acc Ha fuel. revert n acc Ha. induction fuel as [|fuel IH]; intros n acc Ha; [done|].
  cbn [print_digits]. assert (Hd : clean (48 + n mod 10 :: acc) = true).
  { unfold clean in *. cbn [forallb]. rewrite Ha, andb_true_r. pose proof (Z.mod_pos_bound n 10). lia. }
  case_match; [done|]. by apply IH.
Qed.

(** What has been written so far: the lines, and the series among them. *)
Record out_ok (node : str) (o : Out) (ss : list (str * str)) : Prop := {
  oo_node : o_node o = node;
  oo_safe : Forall (safe_line node) (o_text o);
  oo_series : List.filter (fun l => negb (is_meta l)) (o_text o) = (fun p => p.1 ++ lit " " ++ p.2) <$> ss;
  oo_seen : o_seen o = reverse ss.*1;
  oo_nodup : NoDup ss.*1;
}.

Lemma valid_pair_clean kv : pair_ok kv -> valid_pair kv = true -> clean kv.2 = true.
Proof.
  intros [_ Hle]. unfold valid_pair. case_bool_decide; [apply clean_name|].
  case_bool_decide; [auto|apply clean_label].
Qed.

Lemma series_line_not_meta family suffix node labels rest :
  is_meta (series_ident family suffix node labels ++ rest) = false.
Proof. reflexivity. Qed.

Lemma out_series_ok node o ss s :
  out_ok node o ss -> o_current o ∈ FAMILY_NAMES -> series_ok s ->
  o_current (out_series o s) = o_current o /\ exists ss', out_ok node (out_series o s) ss'.
Proof.
  intros [Hn Hsafe Hser Hseen Hnd] Hcur (Hsuf & Hpairs & Hval). unfold out_series.
  destruct (is_valid_name (o_node o) && forallb valid_pair (se_labels s)) eqn:Hv; cbn [negb];
    [|split; [done|by exists ss]].
  apply andb_prop in Hv as [Hnode Hlab]. case_bool_decide as Hs; [split; [done|by exists ss]|].
  split; [done|]. rewrite Hseen, elem_of_reverse in Hs. set (line := series_ident _ _ _ _) in *.
  exists (ss ++ [(line, se_value s)]). split; cbn [o_node o_text o_seen]; [done| | | |].
  - apply Forall_app. split; [done|]. apply Forall_singleton. right.
    exists (o_current o), (se_suffix s), (se_labels s), (se_value s). rewrite <- Hn. split_and!; try done.
    rewrite forallb_forall in Hlab. rewrite Forall_forall in Hpairs |- *. intros kv Hkv.
    pose proof (Hpairs kv Hkv) as Hp. split; [apply Hp|]. apply valid_pair_clean; [done|].
    by apply Hlab, list_elem_of_In.
  - rewrite List.filter_app, Hser, fmap_app. cbn [List.filter]. subst line.
    rewrite series_line_not_meta. done.
  - rewrite fmap_app, reverse_app, Hseen. done.
  - rewrite fmap_app. apply NoDup_app. split_and!; [done| |apply NoDup_singleton].
    intros x Hx ->%list_elem_of_singleton. by apply Hs.
Qed.

Lemma out_family_ok node o ss f :
  out_ok node o ss -> family_ok f -> out_ok node (out_family o f) ss.
Proof.
  intros [Hn Hsafe Hser Hseen Hnd] (_ & Hc & _).
  rewrite !clean_app in Hc. apply andb_prop in Hc as [Hc1 [Hc2 Hc3]%andb_prop].
  split; cbn [o_node o_text o_seen out_family]; try done.
  - apply Forall_app. split; [done|]. apply Forall_cons; split; [|apply Forall_singleton];
      left; (split; [done|]); apply clean_no_lf; rewrite !clean_app, ?Hc1, ?Hc2, ?Hc3; done.
  - rewrite List.filter_app, Hser. by rewrite app_nil_r.
Qed.

Lemma emit_ok node o ss f :
  out_ok node o ss -> family_ok f -> exists ss', out_ok node (emit o f) ss'.
Proof.
  intros Ho Hf. pose proof (out_family_ok _ _ _ _ Ho Hf) as Ho'. destruct Hf as (Hcur & _ & Hser).
  change (fa_name f) with (o_current (out_family o f)) in Hcur. unfold emit. clear Ho. revert ss Ho' Hcur Hser.
  generalize (out_family o f). induction (fa_series f) as [|s l IH]; intros o' ss Ho Hcur Hl; [by exists ss|].
  apply Forall_cons in Hl as [Hs Hl]. destruct (out_series_ok _ _ _ _ Ho Hcur Hs) as (Hcur' & ss' & Ho').
  cbn [foldl]. apply (IH _ ss'); [done|by rewrite Hcur'|done].
Qed.

Lemma emit_all_ok node o ss fs :
  out_ok node o ss -> Forall family_ok fs -> exists ss', out_ok node (foldl emit o fs) ss'.
Proof.
  intros Ho Hfs. revert o ss Ho. induction Hfs as [|f fs Hf Hfs IH]; intros o ss Ho; [by exists ss|].
  destruct (emit_ok _ _ _ _ Ho Hf) as [ss' Ho']. cbn [foldl]. by apply (IH _ ss').
Qed.

(** The families of a sample are all of the fixed list. *)
Ltac listed := apply (bool_decide_unpack _); vm_compute; exact I.

Section Families.
Context `{F64Clean}.

Lemma clean_ms z : clean (ms_to_s z) = true.
Proof. apply f64_clean. Qed.
Lemma clean_us z : clean (us_to_s z) = true.
Proof. apply f64_clean. Qed.
Lemma clean_count z : clean (count_f64 z) = true.
Proof. apply f64_clean. Qed.
Lemma clean_bit b : clean (bit b) = true.
Proof. by destruct b. Qed.

Definition cleans (v : option str) : Prop := forall x, v = Some x -> clean x = true.
Lemma cleans_fmap (g : Z -> str) v : (forall z, clean (g z) = true) -> cleans (g <$> v).
Proof. intros Hg x. destruct v; simpl; naive_solver. Qed.

Lemma cleans_some v : clean v = true -> cleans (Some v).
Proof. intros Hv x [= <-]. done. Qed.

Definition listed_name (name : string) : bool := bool_decide (lit name ∈ FAMILY_NAMES).
Definition listed_key (k : string) : bool := bool_decide (lit k ∈ LABEL_KEYS) && negb (bool_decide (lit k = lit "le")).

Lemma pair_listed k v : listed_key k = true -> pair_ok (lit k, v).
Proof.
  unfold listed_key. intros [Hk%bool_decide_eq_true Hle%negb_true_iff%bool_decide_eq_false]%andb_prop.
  by split.
Qed.

Lemma plain_series_ok labels v : Forall pair_ok labels -> clean v = true -> series_ok (mkSeries [] labels v).
Proof. intros Hl Hv. split_and!; [|done|done]. apply list_elem_of_fmap. exists ""%string. split; [done|left]. Qed.

Lemma opt_series_ok labels v : Forall pair_ok labels -> cleans v -> Forall series_ok (opt_series labels v).
Proof. intros Hl Hv. destruct v; [|constructor]. apply Forall_singleton, plain_series_ok; auto. Qed.

Lemma family_listed name kind help l :
  listed_name name = true -> clean (lit name ++ lit kind ++ lit help) = true -> Forall series_ok l ->
  family_ok (mkFamily (lit name) (lit kind) (lit help) l).
Proof. intros Hn%bool_decide_eq_true Hc Hl. by split_and!. Qed.

Lemma gauge_ok name help v :
  listed_name name = true -> clean (lit name ++ lit "gauge" ++ lit help) = true -> clean v = true ->
  family_ok (gauge name help v).
Proof. intros. apply family_listed; [done|done|]. apply Forall_singleton, plain_series_ok; [constructor|done]. Qed.

Lemma counter_ok name help v :
  listed_name name = true -> clean (lit name ++ lit "counter" ++ lit help) = true -> clean v = true ->
  family_ok (counter name help v).
Proof. intros. apply family_listed; [done|done|]. apply Forall_singleton, plain_series_ok; [constructor|done]. Qed.

Lemma opt_gauge_ok name help v :
  listed_name name = true -> clean (lit name ++ lit "gauge" ++ lit help) = true -> cleans v ->
  Forall family_ok (opt_gauge name help v).
Proof. intros Hn Hc Hv. destruct v; [|constructor]. apply Forall_singleton, gauge_ok; auto. Qed.

Lemma state_set_ok name label help known current :
  listed_name name = true -> clean (lit name ++ lit "gauge" ++ lit help) = true -> listed_key label = true ->
  family_ok (state_set name label help known current).
Proof.
  intros Hn Hc Hk. apply family_listed; [done|done|]. apply Forall_app. split.
  - apply Forall_fmap, Forall_true. intros s. apply plain_series_ok; [|apply clean_bit].
    by apply Forall_singleton, pair_listed.
  - case_bool_decide; [constructor|]. apply Forall_singleton, plain_series_ok; [|done].
    by apply Forall_singleton, pair_listed.
Qed.

#[local] Hint Resolve clean_ms clean_us clean_count clean_bit clean_print_uint cleans_fmap cleans_some gauge_ok counter_ok
  opt_gauge_ok state_set_ok family_listed plain_series_ok opt_series_ok pair_listed : core.

(** A series list made of the entries of a sample. *)
Lemma bind_series_ok {A} (g : A -> list Series) l : (forall a, Forall series_ok (g a)) -> Forall series_ok (l ≫= g).
Proof. intros Hg. apply Forall_bind. by apply Forall_true. Qed.

(** Split a list of families and settle the fixed ones. *)
Ltac families_ok :=
  repeat (apply Forall_app; split); rewrite ?Forall_cons; split_and?; auto;
  try (apply family_listed; [done|done|]).

Lemma render_raft_ok raft : Forall family_ok (render_raft raft).
Proof. unfold render_raft. families_ok. apply bind_series_ok. auto. Qed.

Lemma render_join_ok join : Forall family_ok (render_join join).
Proof. unfold render_join. families_ok. Qed.

Lemma render_peers_ok peers : Forall family_ok (render_peers peers).
Proof. unfold render_peers, peer_families. cbn [fmap list_fmap]. families_ok; apply bind_series_ok; auto. Qed.

Lemma clean_le bounds i : clean (le_label bounds i) = true.
Proof. unfold le_label. case_match; auto. Qed.

Lemma histogram_ok bounds k : Forall series_ok (histogram bounds k).
Proof.
  unfold histogram. case_match; [constructor|]. apply Forall_app. split.
  - apply Forall_lookup. intros i s Hs. rewrite list_lookup_imap in Hs.
    apply fmap_Some in Hs as (c & _ & ->). split_and!; [listed| |apply clean_print_uint].
    apply Forall_cons. split; [by apply pair_listed|]. apply Forall_singleton. split; [listed|]. intros _. apply clean_le.
  - repeat (apply Forall_cons; split); [| |constructor]; (split_and!; [listed| |cbn [se_value]; auto]).
    all: by apply Forall_singleton, pair_listed.
Qed.

Lemma two_labels a b va vb v :
  listed_key a = true -> listed_key b = true -> clean v = true -> series_ok (mkSeries [] [(lit a, va); (lit b, vb)] v).
Proof. intros. apply plain_series_ok; [|done]. apply Forall_cons. split; [auto|]. by apply Forall_singleton, pair_listed. Qed.

Lemma render_rpc_ok rpc : Forall family_ok (render_rpc rpc).
Proof.
  unfold render_rpc. families_ok.
  - apply bind_series_ok. intros k. apply Forall_fmap, Forall_true. intros oc. by apply two_labels; auto.
  - case_match; [|constructor]. apply bind_series_ok. apply histogram_ok.
  - rewrite !Forall_cons. split_and!; [..|constructor]; apply plain_series_ok; auto.
Qed.

Lemma families_are_ok s ms : Forall family_ok (families s ms).
Proof.
  unfold families. families_ok.
  - destruct (ss_raft s); [apply render_raft_ok|constructor].
  - destruct (ss_join s); [apply render_join_ok|constructor].
  - apply render_peers_ok.
  - apply render_rpc_ok.
  - apply Forall_fmap, Forall_true. intros r. by apply two_labels; auto.
  - unfold render_resources. families_ok.
Qed.
End Families.

(** ** Lines *)

Lemma series_ident_no_lf family suffix node labels :
  clean family = true -> clean suffix = true -> clean node = true ->
  Forall (fun kv => clean kv.1 = true /\ clean kv.2 = true) labels -> 10 ∉ series_ident family suffix node labels.
Proof.
  intros Hf%clean_no_lf Hs%clean_no_lf Hn%clean_no_lf Hl. unfold series_ident, quoted.
  rewrite !not_elem_of_app. split_and!; try done; try listed.
  intros (kv & Hkv & Hin)%list_elem_of_bind. rewrite Forall_forall in Hl.
  destruct (Hl kv Hin) as [Hk%clean_no_lf Hv%clean_no_lf]. revert Hkv.
  change (10 ∉ lit "," ++ kv.1 ++ lit "=" ++ [34] ++ kv.2 ++ [34]).
  rewrite !not_elem_of_app. split_and!; try done; listed.
Qed.

Lemma listed_clean (l : list str) x : forallb clean l = true -> x ∈ l -> clean x = true.
Proof. rewrite forallb_forall. intros Hl Hx. by apply Hl, list_elem_of_In. Qed.

Lemma safe_line_no_lf node line : safe_line node line -> 10 ∉ line.
Proof.
  intros [[_ Hl]|(family & suffix & labels & value & -> & Hf & Hs & Hn & Hl & Hv)]; [done|].
  rewrite !not_elem_of_app. split_and!; [|listed|by apply clean_no_lf].
  apply series_ident_no_lf.
  - by apply (listed_clean FAMILY_NAMES).
  - by apply (listed_clean SUFFIXES).
  - by apply clean_name.
  - eapply Forall_impl; [exact Hl|]. intros kv [Hk Hc]. split; [by apply (listed_clean LABEL_KEYS)|done].
Qed.

Lemma split_on_line l r : 10 ∉ l -> split_on 10 (l ++ 10 :: r) = l :: split_on 10 r.
Proof.
  induction l as [|c l IH]; intros Hl; [done|]. apply not_elem_of_cons in Hl as [Hc Hl]. cbn [app split_on].
  destruct (Z.eqb_spec c 10); [done|]. by rewrite IH.
Qed.

Lemma split_unlines ls : Forall (fun l => 10 ∉ l) ls -> split_on 10 (unlines ls) = ls ++ [[]].
Proof.
  induction 1 as [|l ls Hl Hls IH]; [done|]. unfold unlines. rewrite bind_cons, <- app_assoc. cbn [app].
  rewrite split_on_line by done. fold (unlines ls). by rewrite IH.
Qed.

Section Safety.
Context `{F64Clean}.

(** The text the receiver writes is safe whatever the sample says.  Read line by
    line, it is metadata lines and series; every series belongs to a family of
    the fixed list, with label names of a fixed list, a valid node name and label
    values that hold no quote, backslash or line feed; and no series appears
    twice. *)
Theorem rendered_text_is_safe s ms :
  exists ls ss,
    split_on 10 (render s ms) = ls ++ [[]] /\ Forall (safe_line (ss_node s)) ls /\
    List.filter (fun l => negb (is_meta l)) ls = (fun p => p.1 ++ lit " " ++ p.2) <$> ss /\ NoDup ss.*1.
Proof.
  assert (Ho : out_ok (ss_node s) (out_new (ss_node s)) []) by (split; [done|constructor|done|done|constructor]).
  destruct (emit_all_ok _ _ _ _ Ho (families_are_ok s ms)) as [ss [_ Hsafe Hser _ Hnd]].
  exists (o_text (foldl emit (out_new (ss_node s)) (families s ms))), ss. split_and!; try done.
  apply split_unlines. eapply Forall_impl; [exact Hsafe|]. apply safe_line_no_lf.
Qed.
End Safety.

(** ** The file is fresh *)

Section Freshness.
Context `{Cbor SynchronizerSample} `{F64Display}.
Variables (output : str) (stale_after : Z).

(** The text of a sample that a turn received. *)
Definition published (t : Turn) (text : str) : Prop :=
  exists stream ms s, tn_accept t = Connection true stream ms Written /\ receive true stream = Ok s /\
    text = render s ms.

(** What the output file may hold after some turns: the text of the sample that
    set the time of the last valid one, or what was there before any. *)
Definition file_ok (r0 r : Receiver) (ts : list Turn) : Prop :=
  forall text, rv_dir r !! output = Some text ->
    (exists t, t ∈ ts /\ published t text /\ rv_last_valid r = tn_handled t) \/
    (rv_dir r0 !! output = Some text /\ rv_last_valid r = rv_last_valid r0).

Lemma tmp_name_ne : tmp_name output <> output.
Proof.
  intros He%(f_equal length). unfold tmp_name in He. rewrite !length_app in He. cbn in He. lia.
Qed.

Lemma handle_outcome d in_time stream ms w d' valid :
  handle d output in_time stream ms w = (d', valid) ->
  if valid then exists s, in_time = true /\ w = Written /\ receive true stream = Ok s /\
                  d' !! output = Some (render s ms)
  else d' !! output = d !! output.
Proof.
  unfold handle. destruct in_time; [|by intros [= <- <-]].
  destruct (receive true stream) as [s|]; [|by intros [= <- <-]].
  destruct w; cbn [write_atomic]; intros [= <- <-]; rewrite ?lookup_insert_ne by apply tmp_name_ne; try done.
  exists s. by rewrite lookup_insert_eq.
Qed.

Lemma turn_file_ok r0 r ts t :
  tn_removes t = true -> file_ok r0 r ts ->
  file_ok r0 (turn output stale_after r t) (ts ++ [t]) /\
  (is_Some (rv_dir (turn output stale_after r t) !! output) ->
   tn_checked t - rv_last_valid (turn output stale_after r t) < stale_after).
Proof.
  intros Hrm Hf. unfold turn, file_ok.
  set (hv := match tn_accept t with Connection _ _ _ _ => _ | AcceptFailed => _ | NoConnection => _ end).
  destruct hv as [d valid] eqn:Ehv. subst hv.
  assert (Hd : forall text, d !! output = Some text ->
    (exists t', t' ∈ ts ++ [t] /\ published t' text /\
       (if valid then tn_handled t else rv_last_valid r) = tn_handled t') \/
    (rv_dir r0 !! output = Some text /\ (if valid then tn_handled t else rv_last_valid r) = rv_last_valid r0)).
  { intros text Ht. destruct (tn_accept t) as [in_time stream ms w| |] eqn:Ea; simplify_eq.
    - apply handle_outcome in Ehv. destruct valid.
      + destruct Ehv as (s & -> & -> & Hs & Hd). simplify_eq. left. exists t.
        split; [apply elem_of_app; right; left|]. split; [|done]. by exists stream, ms, s.
      + rewrite Ehv in Ht. destruct (Hf text Ht) as [(t' & Hin & Hp)|Hr]; [left; exists t'|by right].
        split; [apply elem_of_app; by left|done].
    - destruct (Hf text Ht) as [(t' & Hin & Hp)|Hr]; [left; exists t'|by right].
      split; [apply elem_of_app; by left|done].
    - destruct (Hf text Ht) as [(t' & Hin & Hp)|Hr]; [left; exists t'|by right].
      split; [apply elem_of_app; by left|done]. }
  unfold remove_stale. rewrite Hrm. cbn [rv_dir rv_last_valid].
  destruct (Z.leb_spec stale_after (tn_checked t - (if valid then tn_handled t else rv_last_valid r))).
  - rewrite lookup_delete_eq. split; [done|]. by intros [? ?].
  - split; [exact Hd|lia].
Qed.

Lemma run_file_ok r0 ts :
  Forall (fun t => tn_removes t = true) ts -> file_ok r0 (receiver_run output stale_after r0 ts) ts.
Proof.
  induction ts as [|t ts IH] using rev_ind; intros Hrm; [intros text Ht; by right|].
  apply Forall_app in Hrm as [Hrm Ht]. rewrite Forall_singleton in Ht.
  unfold receiver_run. rewrite foldl_snoc. exact (proj1 (turn_file_ok r0 _ ts t Ht (IH Hrm))).
Qed.

(** What the collector reads is recent and whole.  Where stale files can be
    removed, whatever connections come, fail or stay silent and wherever a write
    breaks off: after each turn of the receiver, the output file is absent, or it
    is exactly the text of one sample the receiver accepted less than
    [stale_after] ago, or it was there at start-up less than that long ago.
    Junk connections cannot keep an old file alive. *)
Theorem output_file_is_fresh r0 ts t text :
  Forall (fun t => tn_removes t = true) (ts ++ [t]) ->
  rv_dir (receiver_run output stale_after r0 (ts ++ [t])) !! output = Some text ->
  (exists t', t' ∈ ts ++ [t] /\ published t' text /\ tn_checked t - tn_handled t' < stale_after) \/
  (rv_dir r0 !! output = Some text /\ tn_checked t - rv_last_valid r0 < stale_after).
Proof.
  intros [Hrm Ht]%Forall_app. rewrite Forall_singleton in Ht. unfold receiver_run. rewrite foldl_snoc. intros Htext.
  destruct (turn_file_ok r0 _ ts t Ht (run_file_ok r0 ts Hrm)) as [Hf Hage].
  specialize (Hage (ex_intro _ _ Htext)). destruct (Hf text Htext) as [(t' & Hin & Hp & He)|[Hd He]].
  - left. exists t'. by rewrite <- He.
  - right. by rewrite <- He.
Qed.
End Freshness.

(** A receiver that gets one sample, then nothing. *)
Module ReceiverDemo.
#[local] Instance one_sample : Cbor SynchronizerSample :=
  {| encode _ := [7]; from_reader b := if bool_decide (b = [7]) then Ok FrameDemo.first else Err "bytes"%string |}.
#[local] Instance integral : F64Display := {| ms_to_s := print_uint; us_to_s := print_uint; count_f64 := print_uint |}.

Definition first_turn : Turn := mkTurn (Connection true [0; 0; 0; 1; 7] 5000 Written) 100 101 true.
Definition quiet_turn : Turn := mkTurn NoConnection 0 130 true.
Definition text : str := render FrameDemo.first 5000.
Definition after (ts : list Turn) : option str :=
  rv_dir (receiver_run (lit "s.prom") 60 (mkReceiver ∅ 90) ts) !! lit "s.prom".
Definition fresh (t : Turn) : Prop := published t text /\ tn_checked quiet_turn - tn_handled t < 60.
Definition gone : Prop := after [first_turn; mkTurn NoConnection 0 160 true] = None.
End ReceiverDemo.

Lemma output_file_is_fresh_witness :
  ReceiverDemo.gone /\ exists t, t ∈ [ReceiverDemo.first_turn; ReceiverDemo.quiet_turn] /\ ReceiverDemo.fresh t.
Proof.
  split; [vm_compute; reflexivity|].
  destruct (@output_file_is_fresh ReceiverDemo.one_sample ReceiverDemo.integral (lit "s.prom") 60 (mkReceiver ∅ 90)
    [ReceiverDemo.first_turn] ReceiverDemo.quiet_turn ReceiverDemo.text) as [Hfresh|[Hnone _]].
  - repeat constructor.
  - apply (bool_decide_eq_true_1 _ (Decision0 := option_eq_dec _ _)). vm_compute. reflexivity.
  - exact Hfresh.
  - exfalso. unfold rv_dir in Hnone. rewrite lookup_empty in Hnone. discriminate Hnone.
Defined.

Lemma rendered_text_is_safe_witness :
  exists ls ss, split_on 10 ReceiverDemo.text = ls ++ [[]] /\ Forall (safe_line (ss_node FrameDemo.first)) ls /\
    List.filter (fun l => negb (is_meta l)) ls = (fun p => p.1 ++ lit " " ++ p.2) <$> ss /\ NoDup ss.*1.
Proof.
  refine (@rendered_text_is_safe ReceiverDemo.integral _ FrameDemo.first 5000).
  intros z. split_and!; apply clean_print_uint.
Defined.
