(* ===== verification/KmsRecipient.v ===== *)
(** The envelope in which KMS answers an attested decryption
    ([enclavia-protocol/src/kms_recipient.rs]): the transcoder that turns the
    BER that KMS emits into strict DER, and the opening and sealing of the
    envelope.

    The transcoder reads bytes of an untrusted host before anything is
    authenticated.  Its specification is the grammar [ber] of ASN.1 values with
    single-byte tags, in every length form, and the normal form [norm] in which
    chunked octet strings are joined; the CMS structures, RSA and AES are
    parameters. *)
From stdpp Require Import base list list_numbers strings.
From S2P Require Import Prelude.
#[local] Open Scope Z_scope.

Inductive RecipientError : Type :=
| Der (detail : string)
| Rsa (detail : string)
| Aes (detail : string)
| Malformed (detail : string).

Definition ber_err {A} (m : string) : result A RecipientError := Err (Malformed m).

(** ** The transcoder *)

Definition MAX_TLV_DEPTH : nat := 64.

(** The length, [None] when indefinite, and what follows it. *)
Definition read_len (input : bytes) : result (option Z * bytes) RecipientError :=
  match input with
  | [] => ber_err "truncated length"
  | b :: rest =>
      if b =? 0x80 then Ok (None, rest)
      else if Z.land b 0x80 =? 0 then Ok (Some b, rest)
      else
        let n := Z.to_nat (Z.land b 0x7f) in
        if (n =? 0)%nat || (4 <? n)%nat || (length rest <? n)%nat then ber_err "bad long-form length"
        else Ok (Some (fold_left (fun len x => Z.lor (Z.shiftl len 8) x) (take n rest) 0), drop n rest)
  end.

(** The bytes of a length without its leading zeros, at least one. *)
Fixpoint strip_zeros (l : bytes) : bytes :=
  match l with
  | 0 :: ((_ :: _) as l') => strip_zeros l'
  | _ => l
  end.

Definition emit_der (id : Z) (content : bytes) : bytes :=
  let len := Z.of_nat (length content) in
  id ::
  (if len <? 0x80 then [len]
   else let lb := strip_zeros (be_encode 8 len) in Z.lor 0x80 (Z.of_nat (length lb)) :: lb) ++
  content.

Definition octet_value (der : bytes) : result bytes RecipientError :=
  match der with
  | 4 :: rest =>
      let? lc := read_len rest in
      let? len := ok_or lc.1 (Malformed "indefinite OCTET STRING child") in
      if Z.of_nat (length lc.2) <? len then ber_err "truncated OCTET STRING child"
      else Ok (take (Z.to_nat len) lc.2)
  | _ => ber_err "constructed OCTET STRING child is not an OCTET STRING"
  end.

Fixpoint octet_values (children : list bytes) : result bytes RecipientError :=
  match children with
  | [] => Ok []
  | c :: children => let? v := octet_value c in let? vs := octet_values children in Ok (v ++ vs)
  end.

Definition is_octet (child : bytes) : bool := bool_decide (head child = Some 4).

(** A constructed value from its transcoded children. *)
Definition reemit (id : Z) (children : list bytes) : result bytes RecipientError :=
  let is_universal_octet := id =? 0x24 in
  let is_context := Z.land id 0xc0 =? 0x80 in
  let context_octet := is_context && negb (bool_decide (children = [])) && forallb is_octet children in
  if is_universal_octet || context_octet then
    let? body := octet_values children in
    Ok (emit_der (if is_universal_octet then 4 else Z.land id (Z.lxor 0xff 0x20)) body)
  else Ok (emit_der id (concat children)).

(** [transcode_tlv] and its two loops over the children. *)
Fixpoint transcode_tlv (fuel : nat) (input : bytes) (depth : nat) {struct fuel}
    : result (bytes * bytes) RecipientError :=
  match fuel with
  | O => ber_err "fuel"
  | S fuel =>
      if (MAX_TLV_DEPTH <? depth)%nat then ber_err "ASN.1 nesting exceeds maximum depth"
      else match input with
      | [] => ber_err "unexpected end of input"
      | id :: rest =>
          if Z.land id 0x1f =? 0x1f then ber_err "high-tag-number form unsupported"
          else
            let constructed := negb (Z.land id 0x20 =? 0) in
            let? la := read_len rest in
            if negb constructed then
              let? len := ok_or la.1 (Malformed "indefinite length on primitive") in
              if Z.of_nat (length la.2) <? len then ber_err "truncated primitive content"
              else Ok (emit_der id (take (Z.to_nat len) la.2), drop (Z.to_nat len) la.2)
            else
              let? ca := match la.1 with
                         | Some len =>
                             if Z.of_nat (length la.2) <? len then ber_err "truncated constructed content"
                             else let? cs := definite fuel (take (Z.to_nat len) la.2) (S depth) in
                                  Ok (cs, drop (Z.to_nat len) la.2)
                         | None => indefinite fuel la.2 (S depth)
                         end in
              let? out := reemit id ca.1 in
              Ok (out, ca.2)
      end
  end
with definite (fuel : nat) (region : bytes) (depth : nat) {struct fuel} : result (list bytes) RecipientError :=
  match fuel with
  | O => ber_err "fuel"
  | S fuel =>
      match region with
      | [] => Ok []
      | _ =>
          let? cr := transcode_tlv fuel region depth in
          let? cs := definite fuel cr.2 depth in
          Ok (cr.1 :: cs)
      end
  end
with indefinite (fuel : nat) (region : bytes) (depth : nat) {struct fuel}
    : result (list bytes * bytes) RecipientError :=
  match fuel with
  | O => ber_err "fuel"
  | S fuel =>
      match region with
      | 0 :: 0 :: region => Ok ([], region)
      | _ =>
          let? cr := transcode_tlv fuel region depth in
          let? ca := indefinite fuel cr.2 depth in
          Ok (cr.1 :: ca.1, ca.2)
      end
  end.

Definition ber_to_der (input : bytes) : result bytes RecipientError :=
  let? or := transcode_tlv (S (2 * length input)) input 0 in
  if negb (bool_decide (or.2 = [])) then ber_err "trailing bytes" else Ok or.1.

(** ** The grammar *)

Inductive asn1 : Type :=
| Prim (id : Z) (content : bytes)
| Cons (id : Z) (children : list asn1).

Definition low_tag (id : Z) : Prop := Z.land id 0x1f <> 0x1f.
Definition constructed_tag (id : Z) : Prop := Z.land id 0x20 <> 0.

(** A definite length, in the short or in any long form of up to four bytes. *)
Inductive ber_len : bytes -> Z -> Prop :=
| ber_short n : 0 <= n < 0x80 -> ber_len [n] n
| ber_long ds : (1 <= length ds <= 4)%nat -> forallb is_byte ds = true ->
    ber_len (0x80 + Z.of_nat (length ds) :: ds) (be_decode ds).

(** The two bytes that end an indefinite length. *)
Definition starts_with_eoc (b : bytes) : bool := match b with 0 :: 0 :: _ => true | _ => false end.

(** The encodings of a value at a nesting depth, of a list of values, and of a
    list before an end-of-contents. *)
Inductive ber : nat -> asn1 -> bytes -> Prop :=
| ber_prim d id lb content :
    (d <= MAX_TLV_DEPTH)%nat -> low_tag id -> ~ constructed_tag id -> ber_len lb (Z.of_nat (length content)) ->
    ber d (Prim id content) (id :: lb ++ content)
| ber_definite d id lb cs body :
    (d <= MAX_TLV_DEPTH)%nat -> low_tag id -> constructed_tag id -> ber_len lb (Z.of_nat (length body)) ->
    bers (S d) cs body -> ber d (Cons id cs) (id :: lb ++ body)
| ber_indefinite d id cs body :
    (d <= MAX_TLV_DEPTH)%nat -> low_tag id -> constructed_tag id ->
    bers_open (S d) cs body -> ber d (Cons id cs) (id :: 0x80 :: body ++ [0; 0])
with bers : nat -> list asn1 -> bytes -> Prop :=
| bers_nil d : bers d [] []
| bers_cons d t ts b bs : ber d t b -> bers d ts bs -> bers d (t :: ts) (b ++ bs)
with bers_open : nat -> list asn1 -> bytes -> Prop :=
| bers_open_nil d : bers_open d [] []
| bers_open_cons d t ts b bs :
    ber d t b -> starts_with_eoc b = false -> bers_open d ts bs -> bers_open d (t :: ts) (b ++ bs).

Scheme ber_ind' := Minimality for ber Sort Prop
  with bers_ind' := Minimality for bers Sort Prop
  with bers_open_ind' := Minimality for bers_open Sort Prop.
Combined Scheme ber_mut from ber_ind', bers_ind', bers_open_ind'.

(** Strict DER. *)
Fixpoint der (t : asn1) : bytes :=
  match t with
  | Prim id content => emit_der id content
  | Cons id cs => emit_der id ((fix go cs := match cs with [] => [] | c :: cs => der c ++ go cs end) cs)
  end.
Definition ders (ts : list asn1) : bytes := ts ≫= der.

Definition octets_of (t : asn1) : option bytes :=
  match t with Prim id content => if id =? 4 then Some content else None | Cons _ _ => None end.

(** Joining chunked octet strings: those of the universal class, which must hold
    nothing else, and those under a context tag. *)
Definition join_octets (id : Z) (cs : list asn1) : option asn1 :=
  match mapM octets_of cs with
  | Some chunks =>
      if id =? 0x24 then Some (Prim 4 (concat chunks))
      else if (Z.land id 0xc0 =? 0x80) && negb (bool_decide (cs = []))
      then Some (Prim (Z.land id 0xdf) (concat chunks)) else Some (Cons id cs)
  | None => if id =? 0x24 then None else Some (Cons id cs)
  end.

Fixpoint norm (t : asn1) : option asn1 :=
  match t with
  | Prim id content => Some (Prim id content)
  | Cons id cs =>
      (fix go cs := match cs with
                    | [] => Some []
                    | c :: cs => c ← norm c; cs ← go cs; Some (c :: cs)
                    end) cs ≫= join_octets id
  end.

(** ** Lengths *)

Lemma be_decode_nonneg l : forallb is_byte l = true -> 0 <= be_decode l.
Proof.
  induction l as [|b l IH] using rev_ind; [done|]. rewrite forallb_app. intros [Hl Hb]%andb_prop.
  rewrite be_decode_app. specialize (IH Hl). cbn in Hb. unfold is_byte in Hb. lia.
Qed.

(** A test of all bytes. *)
Lemma byte_cases (p : Z -> bool) : forallb p (seqZ 0 256) = true -> forall b, is_byte b = true -> p b = true.
Proof.
  rewrite forallb_forall. intros Hp b Hb. apply Hp, list_elem_of_In, elem_of_seqZ. unfold is_byte in Hb. lia.
Qed.

Lemma short_form_bit b : is_byte b = true -> (Z.land b 0x80 =? 0) = (b <? 0x80).
Proof.
  intros Hb. apply Bool.eqb_prop.
  by apply (byte_cases (fun b => Bool.eqb (Z.land b 0x80 =? 0) (b <? 0x80))).
Qed.

Lemma long_form_count b : is_byte b = true -> 0x80 <= b -> Z.land b 0x7f = b - 0x80.
Proof.
  intros Hb Hge. apply Z.eqb_eq.
  pose proof (byte_cases (fun b => (b <? 0x80) || (Z.land b 0x7f =? b - 0x80)) eq_refl b Hb) as Hc.
  apply orb_prop in Hc as [?%Z.ltb_lt|?]; [lia|done].
Qed.

Lemma shift_or a b : 0 <= b < 256 -> Z.lor (Z.shiftl a 8) b = a * 256 + b.
Proof.
  intros Hb. rewrite Z.shiftl_mul_pow2 by lia. change (2 ^ 8) with 256. symmetry.
  rewrite <- Z.add_nocarry_lor; [done|]. apply Z.bits_inj'. intros n Hn.
  rewrite Z.land_spec, Z.bits_0. destruct (Z.ltb_spec n 8).
  - change 256 with (2 ^ 8). by rewrite Z.mul_pow2_bits_low.
  - replace b with (b mod 2 ^ 8) by (apply Z.mod_small; lia).
    rewrite (Z.mod_pow2_bits_high b 8 n) by lia. apply andb_false_r.
Qed.

Lemma fold_shift_decode ds : forallb is_byte ds = true ->
  fold_left (fun len x => Z.lor (Z.shiftl len 8) x) ds 0 = be_decode ds.
Proof.
  induction ds as [|b ds IH] using rev_ind; intros Hb; [done|].
  rewrite forallb_app in Hb. apply andb_prop in Hb as [Hds Hb]. cbn in Hb. rewrite andb_true_r in Hb.
  rewrite fold_left_app, be_decode_app, IH by done. cbn [fold_left]. apply shift_or. unfold is_byte in Hb. lia.
Qed.

Lemma forallb_take p n (l : bytes) : forallb p l = true -> forallb p (take n l) = true.
Proof. rewrite <- (take_drop n l) at 1. rewrite forallb_app. intros [? _]%andb_prop. done. Qed.
Lemma forallb_drop p n (l : bytes) : forallb p l = true -> forallb p (drop n l) = true.
Proof. rewrite <- (take_drop n l) at 1. rewrite forallb_app. intros [_ ?]%andb_prop. done. Qed.

Lemma read_len_sound input len rest :
  forallb is_byte input = true -> read_len input = Ok (len, rest) ->
  match len with
  | None => input = 0x80 :: rest
  | Some n => exists lb, input = lb ++ rest /\ ber_len lb n
  end.
Proof.
  intros Hb. unfold read_len, ber_err. destruct input as [|b input]; [done|].
  cbn [forallb] in Hb. apply andb_prop in Hb as [Hb Hin].
  destruct (Z.eqb_spec b 0x80) as [->|Hne]; [by intros [= <- <-]|].
  rewrite short_form_bit by done. assert (0 <= b < 256) by (unfold is_byte in Hb; lia).
  destruct (Z.ltb_spec b 0x80).
  - intros [= <- <-]. exists [b]. split; [done|]. constructor. lia.
  - rewrite long_form_count by (done || lia).
    destruct (Nat.eqb_spec (Z.to_nat (b - 0x80)) 0); [done|]. destruct (Nat.ltb_spec 4 (Z.to_nat (b - 0x80))); [done|].
    destruct (Nat.ltb_spec (length input) (Z.to_nat (b - 0x80))); [done|]. cbn [orb]. intros [= <- <-].
    rewrite fold_shift_decode by (by apply forallb_take).
    exists (b :: take (Z.to_nat (b - 0x80)) input). split; [cbn; by rewrite take_drop|].
    replace b with (0x80 + Z.of_nat (length (take (Z.to_nat (b - 0x80)) input))) at 1
      by (rewrite length_take; lia).
    constructor; [rewrite length_take; lia|by apply forallb_take].
Qed.

Lemma read_len_complete lb n rest : ber_len lb n -> read_len (lb ++ rest) = Ok (Some n, rest).
Proof.
  destruct 1 as [n Hn|ds Hlen Hds]; unfold read_len; cbn [app].
  - assert (Hb : is_byte n = true) by (unfold is_byte; lia).
    destruct (Z.eqb_spec n 0x80); [lia|]. rewrite short_form_bit by done. by destruct (Z.ltb_spec n 0x80); [|lia].
  - set (b := 0x80 + Z.of_nat (length ds)). assert (Hb : is_byte b = true) by (unfold is_byte; lia).
    destruct (Z.eqb_spec b 0x80); [lia|]. rewrite short_form_bit by done. destruct (Z.ltb_spec b 0x80); [lia|].
    rewrite long_form_count by (done || lia). replace (Z.to_nat (b - 0x80)) with (length ds) by lia.
    destruct (Nat.eqb_spec (length ds) 0); [lia|]. destruct (Nat.ltb_spec 4 (length ds)); [lia|].
    destruct (Nat.ltb_spec (length (ds ++ rest)) (length ds)) as [Hl|_]; [rewrite length_app in Hl; lia|].
    cbn [orb]. rewrite take_app_length, drop_app_length. by rewrite fold_shift_decode.
Qed.

Lemma strip_zeros_decode l : be_decode (strip_zeros l) = be_decode l.
Proof.
  induction l as [|b l IH]; [done|]. destruct b; try done. destruct l as [|c l]; [done|]. exact IH.
Qed.

Lemma strip_zeros_length l : l <> [] -> (1 <= length (strip_zeros l) <= length l)%nat.
Proof.
  induction l as [|b l IH]; intros Hl; [done|]. destruct b; cbn [length strip_zeros]; try lia.
  destruct l as [|c l]; [simpl; lia|]. specialize (IH ltac:(done)). cbn [length] in *. lia.
Qed.

Lemma strip_zeros_bytes l : forallb is_byte l = true -> forallb is_byte (strip_zeros l) = true.
Proof.
  induction l as [|b l IH]; intros Hl; [done|]. destruct b; try done. destruct l as [|c l]; [done|]. by apply IH.
Qed.

Lemma be_encode_bytes n z : forallb is_byte (be_encode n z) = true.
Proof.
  revert z. induction n as [|n IH]; intros z; [done|]. cbn [be_encode]. rewrite forallb_app, IH. cbn.
  rewrite andb_true_r. unfold is_byte. pose proof (Z.mod_pos_bound z 256). lia.
Qed.

Lemma be_encode_wide z : 0 <= z < 2 ^ 32 -> be_encode 8 z = [0; 0; 0; 0] ++ be_encode 4 z.
Proof.
  intros Hz. cbn [be_encode]. rewrite !Z.div_div by lia. change (256 * (256 * (256 * 256))) with (2 ^ 32).
  rewrite (Z.div_small z (2 ^ 32)) by lia || idtac.
  repeat rewrite (Z.div_small z) by lia. done.
Qed.

(** What [emit_der] writes as a length is one. *)
Lemma emit_der_len id content :
  Z.of_nat (length content) < 2 ^ 32 ->
  exists lb, emit_der id content = id :: lb ++ content /\ ber_len lb (Z.of_nat (length content)).
Proof.
  intros Hl. unfold emit_der. set (n := Z.of_nat (length content)) in *.
  eexists. split; [reflexivity|]. destruct (Z.ltb_spec n 0x80); [constructor; lia|].
  rewrite be_encode_wide by lia.
  assert (He : strip_zeros ([0; 0; 0; 0] ++ be_encode 4 n) = strip_zeros (be_encode 4 n)).
  { pose proof (be_encode_length 4 n) as H4. by destruct (be_encode 4 n) eqn:E4. }
  rewrite He. set (lb := strip_zeros (be_encode 4 n)).
  assert (Hlen : (1 <= length lb <= 4)%nat).
  { subst lb. pose proof (be_encode_length 4 n) as H4.
    pose proof (strip_zeros_length (be_encode 4 n)) as Hs. rewrite H4 in Hs. apply Hs. by intros He'; rewrite He' in H4. }
  assert (Hd : be_decode lb = n) by (subst lb; rewrite strip_zeros_decode; apply be_decode_encode_id; lia).
  replace (Z.lor 0x80 (Z.of_nat (length lb))) with (0x80 + Z.of_nat (length lb)).
  - rewrite <- Hd. constructor; [done|]. apply strip_zeros_bytes, be_encode_bytes.
  - destruct (length lb) as [|[|[|[|[|?]]]]]; try lia; done.
Qed.

Lemma octet_value_emit content : Z.of_nat (length content) < 2 ^ 32 -> octet_value (emit_der 4 content) = Ok content.
Proof.
  intros Hl. destruct (emit_der_len 4 content Hl) as (lb & -> & Hlb). unfold octet_value.
  rewrite (read_len_complete _ _ _ Hlb). cbn. rewrite Z.ltb_irrefl. by rewrite Nat2Z.id, take_ge by lia.
Qed.

(** ** Joining *)

(** The content bytes of a value. *)
Fixpoint payload (t : asn1) : nat :=
  match t with
  | Prim _ content => length content
  | Cons _ cs => (fix go cs := match cs with [] => 0 | c :: cs => payload c + go cs end)%nat cs
  end.
Definition payloads (ts : list asn1) : nat := sum_list_with payload ts.

Lemma payload_cons id cs : payload (Cons id cs) = payloads cs.
Proof. induction cs as [|c cs IH]; [done|]. cbn in *. by rewrite IH. Qed.
Lemma der_cons id cs : der (Cons id cs) = emit_der id (ders cs).
Proof. reflexivity. Qed.
Lemma norm_cons id cs : norm (Cons id cs) = mapM norm cs ≫= join_octets id.
Proof. reflexivity. Qed.

(** The tag of a value says whether it has children. *)
Definition tagged (t : asn1) : Prop :=
  match t with
  | Prim id _ => low_tag id /\ ~ constructed_tag id
  | Cons id _ => low_tag id /\ constructed_tag id
  end.

Lemma der_head t : head (der t) = Some (match t with Prim id _ | Cons id _ => id end).
Proof. destruct t as [id c|id cs]; [done|]. by rewrite der_cons. Qed.

Lemma octets_of_head t : tagged t -> is_octet (der t) = bool_decide (is_Some (octets_of t)).
Proof.
  intros Ht. unfold is_octet. rewrite der_head. destruct t as [id c|id cs]; cbn [octets_of].
  - destruct (Z.eqb_spec id 4); repeat case_bool_decide; naive_solver.
  - destruct Ht as [_ Ht]. rewrite !bool_decide_eq_false_2; [done|by intros [? ?]|].
    intros [= ->]. by apply Ht.
Qed.

Lemma octet_values_ders cs chunks :
  mapM octets_of cs = Some chunks -> Forall (fun c => Z.of_nat (payload c) < 2 ^ 32) cs ->
  octet_values (der <$> cs) = Ok (concat chunks).
Proof.
  revert chunks. induction cs as [|c cs IH]; intros chunks Hm Hp; [by injection Hm as <-|]. cbn in Hm.
  apply Forall_cons in Hp as [Hc Hp]. destruct c as [id content|id ds]; cbn [octets_of] in Hm; [|done].
  destruct (Z.eqb_spec id 4) as [->|]; [|done]. cbn in Hm. destruct (mapM octets_of cs) as [k|] eqn:Ek; [|done].
  injection Hm as <-. rewrite fmap_cons. cbn [octet_values der]. rewrite octet_value_emit by done. cbn.
  by rewrite (IH k).
Qed.

Lemma octet_values_fail cs :
  Forall tagged cs -> mapM octets_of cs = None -> exists e, octet_values (der <$> cs) = Err e.
Proof.
  induction cs as [|c cs IH]; intros Ht Hm; [done|]. cbn in Hm. apply Forall_cons in Ht as [Hc Ht].
  rewrite fmap_cons. cbn [octet_values]. destruct (octet_value (der c)) as [v|e] eqn:Ev; [|by exists e].
  cbn. destruct (octets_of c) as [x|] eqn:Ex.
  - destruct (mapM octets_of cs) as [k|]; [done|]. destruct (IH Ht eq_refl) as [e ->]. by exists e.
  - exfalso. pose proof (octets_of_head c Hc) as Hh. rewrite Ex in Hh. unfold is_octet in Hh.
    rewrite (bool_decide_eq_false_2 (is_Some None)) in Hh by (by intros [? ?]).
    apply bool_decide_eq_false in Hh. unfold octet_value in Ev. destruct (der c) as [|z l]; [done|].
    destruct z as [|p|p]; try done. destruct p as [p|p|]; try done. destruct p as [p|p|]; try done.
    destruct p; try done. 
Qed.

Lemma all_octets cs : Forall tagged cs ->
  forallb is_octet (der <$> cs) = bool_decide (is_Some (mapM octets_of cs)).
Proof.
  induction cs as [|c cs IH]; intros Ht; [done|]. apply Forall_cons in Ht as [Hc Ht].
  rewrite fmap_cons. cbn [forallb]. rewrite octets_of_head, IH by done. cbn.
  destruct (octets_of c); cbn; [|done]. by destruct (mapM octets_of cs).
Qed.

Lemma ders_concat cs : concat (der <$> cs) = ders cs.
Proof. unfold ders. induction cs as [|c cs IH]; [done|]. rewrite fmap_cons, bind_cons. cbn. by rewrite IH. Qed.

(** Re-emitting transcoded children is joining. *)
Lemma reemit_spec id cs :
  Forall tagged cs -> Forall (fun c => Z.of_nat (payload c) < 2 ^ 32) cs ->
  match join_octets id cs with
  | Some t => reemit id (der <$> cs) = Ok (der t)
  | None => exists e, reemit id (der <$> cs) = Err e
  end.
Proof.
  intros Ht Hp. unfold reemit, join_octets. rewrite all_octets by done. rewrite ders_concat.
  assert (Hnil : bool_decide (der <$> cs = []) = bool_decide (cs = [])) by (by destruct cs).
  rewrite Hnil. destruct (mapM octets_of cs) as [chunks|] eqn:Em.
  - rewrite (octet_values_ders _ _ Em Hp), (bool_decide_eq_true_2 (is_Some _)) by eauto. rewrite andb_true_r.
    destruct (id =? 0x24); [done|]. cbn [orb].
    destruct ((Z.land id 0xc0 =? 0x80) && negb (bool_decide (cs = []))); [done|]. by rewrite der_cons.
  - rewrite (bool_decide_eq_false_2 (is_Some None)) by (by intros [? ?]). rewrite andb_false_r, orb_false_r.
    destruct (id =? 0x24); [|by rewrite der_cons].
    destruct (octet_values_fail cs Ht Em) as [e ->]. by exists e.
Qed.

Lemma mapM_norm_cons t ts : mapM norm (t :: ts) = (t' ← norm t; ts' ← mapM norm ts; Some (t' :: ts')).
Proof. reflexivity. Qed.

Lemma mapM_octets cs chunks : mapM octets_of cs = Some chunks -> length (concat chunks) = payloads cs.
Proof.
  revert chunks. induction cs as [|c cs IH]; intros chunks Hm; [by injection Hm as <-|]. cbn in Hm.
  destruct c as [id content|id ds]; cbn [octets_of] in Hm; [|done]. destruct (id =? 4); [|done]. cbn in Hm.
  destruct (mapM octets_of cs) as [k|]; [|done]. injection Hm as <-. cbn. rewrite length_app. by rewrite (IH k).
Qed.

Lemma join_payload id cs t : join_octets id cs = Some t -> payload t = payloads cs.
Proof.
  unfold join_octets. destruct (mapM octets_of cs) as [chunks|] eqn:Em.
  - repeat case_match; intros [= <-]; cbn [payload]; try (by apply mapM_octets). by rewrite <- payload_cons with (id := id).
  - case_match; [done|]. intros [= <-]. by rewrite payload_cons.
Qed.

Lemma joined_tag id : low_tag id -> low_tag (Z.land id 0xdf) /\ ~ constructed_tag (Z.land id 0xdf).
Proof.
  unfold low_tag, constructed_tag. rewrite <- !Z.land_assoc. change (Z.land 0xdf 0x1f) with 0x1f.
  change (Z.land 0xdf 0x20) with 0. rewrite Z.land_0_r. intros Hl. split; [done|]. intros Hc. by apply Hc.
Qed.

Lemma join_tagged id cs t : low_tag id -> constructed_tag id -> join_octets id cs = Some t -> tagged t.
Proof.
  intros Hl Hc. unfold join_octets. repeat case_match; intros [= <-]; cbn [tagged]; try done.
  - split; [done|]. intros Hp. by apply Hp.
  - by apply joined_tag.
Qed.

Lemma ber_two d t enc : ber d t enc -> exists a b r, enc = a :: b :: r.
Proof. destruct 1 as [? ? ? ? ? ? ? [] | ? ? ? ? ? ? ? ? [] | ]; by do 3 eexists. Qed.

Lemma eoc_app d t enc more : ber d t enc -> starts_with_eoc (enc ++ more) = starts_with_eoc enc.
Proof. intros (a & b & r & ->)%ber_two. done. Qed.

(** What the transcoder writes for an encoding. *)
Definition reads (d : nat) (enc out : bytes) : Prop :=
  exists t t', ber d t enc /\ norm t = Some t' /\ out = der t' /\ tagged t' /\ (payload t' <= length enc)%nat.

Lemma payloads_bound ts n : (payloads ts <= n)%nat -> Z.of_nat n < 2 ^ 32 ->
  Forall (fun c => Z.of_nat (payload c) < 2 ^ 32) ts.
Proof.
  intros Hp Hn. induction ts as [|t ts IH]; [constructor|]. cbn in Hp. constructor; [lia|]. apply IH.
  unfold payloads. lia.
Qed.

(** A constructed value whose children were read is read. *)
Lemma reads_constructed d id cs cs' enc out :
  ber d (Cons id cs) enc -> (payloads cs' <= length enc)%nat -> Z.of_nat (length enc) < 2 ^ 32 ->
  low_tag id -> constructed_tag id -> mapM norm cs = Some cs' -> Forall tagged cs' ->
  reemit id (der <$> cs') = Ok out -> reads d enc out.
Proof.
  intros Hber Hpay Hlen Hlow Hcon Hnorm Htag Hre.
  pose proof (reemit_spec id cs' Htag (payloads_bound _ _ Hpay Hlen)) as Hspec.
  destruct (join_octets id cs') as [t'|] eqn:Ej; [|destruct Hspec as [e He]; congruence].
  rewrite Hre in Hspec. simplify_eq. exists (Cons id cs), t'. split_and!; try done.
  - rewrite norm_cons, Hnorm. exact Ej.
  - by eapply join_tagged.
  - by rewrite (join_payload _ _ _ Ej).
Qed.

Definition sound_tlv (fuel : nat) : Prop := forall input d out rest,
  forallb is_byte input = true -> Z.of_nat (length input) < 2 ^ 32 ->
  transcode_tlv fuel input d = Ok (out, rest) -> exists enc, input = enc ++ rest /\ reads d enc out.
Definition sound_definite (fuel : nat) : Prop := forall region d outs,
  forallb is_byte region = true -> Z.of_nat (length region) < 2 ^ 32 -> definite fuel region d = Ok outs ->
  exists ts ts', bers d ts region /\ mapM norm ts = Some ts' /\ outs = der <$> ts' /\ Forall tagged ts' /\
    (payloads ts' <= length region)%nat.
Definition sound_indefinite (fuel : nat) : Prop := forall region d outs rest,
  forallb is_byte region = true -> Z.of_nat (length region) < 2 ^ 32 -> indefinite fuel region d = Ok (outs, rest) ->
  exists body ts ts', region = body ++ [0; 0] ++ rest /\ bers_open d ts body /\ mapM norm ts = Some ts' /\
    outs = der <$> ts' /\ Forall tagged ts' /\ (payloads ts' <= length body)%nat.

Lemma sound_definite_step fuel : sound_tlv fuel -> sound_definite fuel -> sound_definite (S fuel).
Proof.
  intros IHt IHd region d outs Hb Hl. cbn [definite]. destruct region as [|b region].
  { intros [= <-]. exists [], []. split_and!; try done; constructor. }
  set (r := b :: region) in *. clearbody r. destruct (transcode_tlv fuel r d) as [[out rest]|] eqn:Et; [|done]. cbn.
  destruct (definite fuel rest d) as [cs|] eqn:Ed; [|done]. cbn. intros [= <-].
  destruct (IHt _ _ _ _ Hb Hl Et) as (enc & He & t & t' & Hber & Hn & -> & Htag & Hp).
  subst. rewrite forallb_app in Hb. apply andb_prop in Hb as [_ Hb]. rewrite length_app in Hl.
  destruct (IHd rest d cs Hb ltac:(lia) Ed) as (ts & ts' & Hbers & Hns & -> & Htags & Hps).
  exists (t :: ts), (t' :: ts'). split_and!; [by constructor| |done|by constructor|].
  - by rewrite mapM_norm_cons, Hn, Hns.
  - rewrite length_app. cbn. unfold payloads in *. lia.
Qed.

Lemma sound_indefinite_step fuel : sound_tlv fuel -> sound_indefinite fuel -> sound_indefinite (S fuel).
Proof.
  intros IHt IHi region d outs rest Hb Hl Hrun.
  destruct (starts_with_eoc region) eqn:Eoc.
  { destruct region as [|[] [|[] region]]; try done. cbn in Hrun. injection Hrun as <- <-.
    exists [], [], []. split_and!; try done; constructor. }
  assert (Hrun' : (let? cr := transcode_tlv fuel region d in
                   let? ca := indefinite fuel cr.2 d in Ok (cr.1 :: ca.1, ca.2)) = Ok (outs, rest)).
  { rewrite <- Hrun. cbn [indefinite]. by destruct region as [|[] [|[] region]]. }
  clear Hrun. destruct (transcode_tlv fuel region d) as [[out more]|] eqn:Et; [|done]. cbn in Hrun'.
  destruct (indefinite fuel more d) as [[cs after]|] eqn:Ei; [|done]. cbn in Hrun'. injection Hrun' as <- <-.
  destruct (IHt _ _ _ _ Hb Hl Et) as (enc & He & t & t' & Hber & Hn & -> & Htag & Hp).
  subst. rewrite forallb_app in Hb. apply andb_prop in Hb as [_ Hb]. rewrite length_app in Hl.
  destruct (IHi more d cs after Hb ltac:(lia) Ei) as (body & ts & ts' & -> & Hbers & Hns & -> & Htags & Hps).
  exists (enc ++ body), (t :: ts), (t' :: ts'). split_and!; [by rewrite <- app_assoc| | |done|by constructor|].
  - constructor; [done| |done]. by rewrite <- (eoc_app _ _ _ (body ++ [0; 0] ++ after) Hber).
  - by rewrite mapM_norm_cons, Hn, Hns.
  - rewrite length_app. cbn. unfold payloads in *. lia.
Qed.

Lemma sound_tlv_step fuel : sound_definite fuel -> sound_indefinite fuel -> sound_tlv (S fuel).
Proof.
  intros IHd IHi input d out rest Hb Hl. cbn [transcode_tlv].
  destruct (Nat.ltb_spec MAX_TLV_DEPTH d) as [|Hd]; [done|]. destruct input as [|id input]; [done|].
  destruct (Z.eqb_spec (Z.land id 0x1f) 0x1f) as [|Hlow]; [done|].
  cbn [forallb length] in Hb, Hl. apply andb_prop in Hb as [_ Hb].
  destruct (read_len input) as [[len after]|] eqn:Er; [|done]. apply read_len_sound in Er; [|done]. cbn.
  destruct (Z.eqb_spec (Z.land id 0x20) 0) as [Hp|Hc]; cbn [negb].
  - destruct len as [n|]; [|done]. cbn. destruct Er as (lb & -> & Hlb).
    destruct (Z.ltb_spec (Z.of_nat (length after)) n); [done|]. intros [= <- <-].
    rewrite length_app in Hl. assert (0 <= n) by (destruct Hlb; [lia|]; by apply be_decode_nonneg).
    exists (id :: lb ++ take (Z.to_nat n) after). split; [cbn; by rewrite <- app_assoc, take_drop|].
    assert (Hlt : Z.of_nat (length (take (Z.to_nat n) after)) = n) by (rewrite length_take; lia).
    exists (Prim id (take (Z.to_nat n) after)), (Prim id (take (Z.to_nat n) after)). split_and!; try done.
    + constructor; [lia|done| |by rewrite Hlt]. intros Hcon. by apply Hcon.
    + split; [done|]. intros Hcon. by apply Hcon.
    + cbn. rewrite length_app. lia.
  - destruct len as [n|].
    + destruct Er as (lb & -> & Hlb). destruct (Z.ltb_spec (Z.of_nat (length after)) n); [done|].
      rewrite length_app in Hl. rewrite forallb_app in Hb. apply andb_prop in Hb as [_ Hb].
      assert (0 <= n) by (destruct Hlb; [lia|]; by apply be_decode_nonneg).
      destruct (definite fuel (take (Z.to_nat n) after) (S d)) as [cs|] eqn:Ed; [|done]. cbn.
      destruct (reemit id cs) as [o|] eqn:Ere; [|done]. cbn. intros [= <- <-].
      assert (Hlt : Z.of_nat (length (take (Z.to_nat n) after)) = n) by (rewrite length_take; lia).
      destruct (IHd (take (Z.to_nat n) after) (S d) cs (forallb_take _ _ _ Hb) ltac:(lia) Ed) as (ts & ts' & Hbers & Hn & -> & Htag & Hpay).
      exists (id :: lb ++ take (Z.to_nat n) after). split; [cbn; by rewrite <- app_assoc, take_drop|].
      eapply reads_constructed; try done.
      * eapply ber_definite; try done. by rewrite Hlt.
      * cbn. rewrite length_app. lia.
      * cbn. rewrite length_app. lia.
    + subst input. cbn [length forallb] in *. apply andb_prop in Hb as [_ Hb].
      destruct (indefinite fuel after (S d)) as [[cs more]|] eqn:Ei; [|done]. cbn.
      destruct (reemit id cs) as [o|] eqn:Ere; [|done]. cbn. intros [= <- <-].
      destruct (IHi after (S d) cs more Hb ltac:(lia) Ei) as (body & ts & ts' & -> & Hbers & Hn & -> & Htag & Hpay).
      rewrite !length_app in Hl. cbn in Hl. exists (id :: 0x80 :: body ++ [0; 0]).
      split; [cbn; by rewrite <- app_assoc|]. eapply reads_constructed; try done.
      * by eapply ber_indefinite.
      * cbn. rewrite length_app. lia.
      * cbn. rewrite length_app. cbn. lia.
Qed.

Lemma transcode_sound fuel : sound_tlv fuel /\ sound_definite fuel /\ sound_indefinite fuel.
Proof.
  induction fuel as [|fuel (IHt & IHd & IHi)]; [by split_and!|].
  split_and!; [by apply sound_tlv_step|by apply sound_definite_step|by apply sound_indefinite_step].
Qed.

(** ** Every encoding is accepted *)

Definition complete_tlv (d : nat) (t : asn1) (enc : bytes) : Prop := forall t',
  norm t = Some t' -> Z.of_nat (length enc) < 2 ^ 32 -> tagged t' /\ (payload t' <= length enc)%nat /\
  forall fuel rest, (2 * length enc <= fuel)%nat -> transcode_tlv fuel (enc ++ rest) d = Ok (der t', rest).
Definition complete_definite (d : nat) (ts : list asn1) (body : bytes) : Prop := forall ts',
  mapM norm ts = Some ts' -> Z.of_nat (length body) < 2 ^ 32 ->
  Forall tagged ts' /\ (payloads ts' <= length body)%nat /\
  forall fuel, (2 * length body + 1 <= fuel)%nat -> definite fuel body d = Ok (der <$> ts').
Definition complete_indefinite (d : nat) (ts : list asn1) (body : bytes) : Prop := forall ts',
  mapM norm ts = Some ts' -> Z.of_nat (length body) < 2 ^ 32 ->
  Forall tagged ts' /\ (payloads ts' <= length body)%nat /\
  forall fuel rest, (2 * length body + 1 <= fuel)%nat ->
    indefinite fuel (body ++ 0 :: 0 :: rest) d = Ok (der <$> ts', rest).

Lemma norm_cons_inv id cs t' : norm (Cons id cs) = Some t' ->
  exists cs', mapM norm cs = Some cs' /\ join_octets id cs' = Some t'.
Proof. rewrite norm_cons. destruct (mapM norm cs) as [cs'|]; [|done]. intros Hj. by exists cs'. Qed.

Lemma mapM_norm_cons_inv t ts ts' : mapM norm (t :: ts) = Some ts' ->
  exists t1 ts1, norm t = Some t1 /\ mapM norm ts = Some ts1 /\ ts' = t1 :: ts1.
Proof.
  rewrite mapM_norm_cons. destruct (norm t) as [t1|]; [|done]. destruct (mapM norm ts) as [ts1|]; [|done].
  intros [= <-]. by exists t1, ts1.
Qed.

(** The header of a value, read. *)
Lemma transcode_header fuel d id len rest after :
  (d <= MAX_TLV_DEPTH)%nat -> low_tag id -> read_len rest = Ok (len, after) ->
  transcode_tlv (S fuel) (id :: rest) d =
  if Z.land id 0x20 =? 0 then
    let? len := ok_or len (Malformed "indefinite length on primitive") in
    if Z.of_nat (length after) <? len then ber_err "truncated primitive content"
    else Ok (emit_der id (take (Z.to_nat len) after), drop (Z.to_nat len) after)
  else
    let? ca := match len with
               | Some len =>
                   if Z.of_nat (length after) <? len then ber_err "truncated constructed content"
                   else let? cs := definite fuel (take (Z.to_nat len) after) (S d) in
                        Ok (cs, drop (Z.to_nat len) after)
               | None => indefinite fuel after (S d)
               end in
    let? out := reemit id ca.1 in Ok (out, ca.2).
Proof.
  intros Hd Hlow Hr. cbn [transcode_tlv]. destruct (Nat.ltb_spec MAX_TLV_DEPTH d); [lia|].
  destruct (Z.eqb_spec (Z.land id 0x1f) 0x1f); [done|]. rewrite Hr. cbn. by destruct (Z.land id 0x20 =? 0).
Qed.

Lemma complete_prim d id lb content :
  (d <= MAX_TLV_DEPTH)%nat -> low_tag id -> ~ constructed_tag id -> ber_len lb (Z.of_nat (length content)) ->
  complete_tlv d (Prim id content) (id :: lb ++ content).
Proof.
  intros Hd Hlow Hp Hlb t' [= <-] Hlen. split_and!; [done|cbn; rewrite length_app; lia|].
  intros fuel rest Hf. destruct fuel as [|fuel]; [cbn in Hf; lia|]. cbn [app]. rewrite <- app_assoc.
  erewrite transcode_header by (done || by apply read_len_complete).
  destruct (Z.eqb_spec (Z.land id 0x20) 0) as [_|Hc]; [|by destruct Hp]. cbn.
  destruct (Z.ltb_spec (Z.of_nat (length (content ++ rest))) (Z.of_nat (length content))) as [Hl|_].
  { rewrite length_app in Hl. lia. }
  by rewrite Nat2Z.id, take_app_length, drop_app_length.
Qed.

Lemma complete_cons_definite d id lb cs body :
  (d <= MAX_TLV_DEPTH)%nat -> low_tag id -> constructed_tag id -> ber_len lb (Z.of_nat (length body)) ->
  complete_definite (S d) cs body -> complete_tlv d (Cons id cs) (id :: lb ++ body).
Proof.
  intros Hd Hlow Hc Hlb IH t' Hn Hlen. apply norm_cons_inv in Hn as (cs' & Hcs & Hj).
  cbn [length] in Hlen. rewrite length_app in Hlen.
  destruct (IH cs' Hcs ltac:(lia)) as (Htag & Hpay & Hrun).
  pose proof (reemit_spec id cs' Htag (payloads_bound _ _ Hpay ltac:(lia))) as Hre. rewrite Hj in Hre.
  split_and!; [by eapply join_tagged|rewrite (join_payload _ _ _ Hj); cbn; rewrite length_app; lia|].
  intros fuel rest Hf. cbn [length] in Hf. rewrite length_app in Hf. destruct fuel as [|fuel]; [lia|].
  cbn [app]. rewrite <- app_assoc. erewrite transcode_header by (done || by apply read_len_complete).
  destruct (Z.eqb_spec (Z.land id 0x20) 0) as [He|_]; [by destruct Hc|].
  destruct (Z.ltb_spec (Z.of_nat (length (body ++ rest))) (Z.of_nat (length body))) as [Hl|_].
  { rewrite length_app in Hl. lia. }
  rewrite Nat2Z.id, take_app_length, drop_app_length.
  assert (1 <= length lb)%nat by (destruct Hlb; cbn; lia).
  rewrite Hrun by lia. cbn. by rewrite Hre.
Qed.

Lemma complete_cons_indefinite d id cs body :
  (d <= MAX_TLV_DEPTH)%nat -> low_tag id -> constructed_tag id ->
  complete_indefinite (S d) cs body -> complete_tlv d (Cons id cs) (id :: 0x80 :: body ++ [0; 0]).
Proof.
  intros Hd Hlow Hc IH t' Hn Hlen. apply norm_cons_inv in Hn as (cs' & Hcs & Hj).
  cbn [length] in Hlen. rewrite length_app in Hlen. cbn in Hlen.
  destruct (IH cs' Hcs ltac:(lia)) as (Htag & Hpay & Hrun).
  pose proof (reemit_spec id cs' Htag (payloads_bound _ _ Hpay ltac:(lia))) as Hre. rewrite Hj in Hre.
  split_and!; [by eapply join_tagged|rewrite (join_payload _ _ _ Hj); cbn; rewrite length_app; lia|].
  intros fuel rest Hf. cbn [length] in Hf. rewrite length_app in Hf. destruct fuel as [|fuel]; [lia|].
  cbn [app]. rewrite <- app_assoc. cbn [app].
  erewrite transcode_header by (done || reflexivity).
  destruct (Z.eqb_spec (Z.land id 0x20) 0) as [He|_]; [by destruct Hc|].
  rewrite Hrun by (cbn in Hf; lia). cbn. by rewrite Hre.
Qed.

Lemma complete_definite_cons d t ts b bs :
  ber d t b -> complete_tlv d t b -> complete_definite d ts bs -> complete_definite d (t :: ts) (b ++ bs).
Proof.
  intros Hb IHt IHs ts' Hn Hlen. rewrite length_app in Hlen.
  apply mapM_norm_cons_inv in Hn as (t1 & ts1 & Ht & Hts & ->).
  destruct (IHt t1 Ht ltac:(lia)) as (Htag & Hpay & Hrun).
  destruct (IHs ts1 Hts ltac:(lia)) as (Htags & Hpays & Hruns).
  split_and!; [by constructor|rewrite length_app; cbn; unfold payloads in *; lia|].
  intros fuel Hf. rewrite length_app in Hf. destruct fuel as [|fuel]; [lia|].
  destruct (ber_two _ _ _ Hb) as (x & y & r & Hx). cbn [definite].
  rewrite Hrun by lia. cbn. rewrite Hruns by (rewrite Hx in Hf; cbn in Hf; lia). rewrite Hx. done.
Qed.

Lemma complete_indefinite_cons d t ts b bs :
  ber d t b -> starts_with_eoc b = false -> complete_tlv d t b -> complete_indefinite d ts bs ->
  complete_indefinite d (t :: ts) (b ++ bs).
Proof.
  intros Hb Hne IHt IHs ts' Hn Hlen. rewrite length_app in Hlen.
  apply mapM_norm_cons_inv in Hn as (t1 & ts1 & Ht & Hts & ->).
  destruct (IHt t1 Ht ltac:(lia)) as (Htag & Hpay & Hrun).
  destruct (IHs ts1 Hts ltac:(lia)) as (Htags & Hpays & Hruns).
  split_and!; [by constructor|rewrite length_app; cbn; unfold payloads in *; lia|].
  intros fuel rest Hf. rewrite length_app in Hf. destruct fuel as [|fuel]; [lia|].
  rewrite <- app_assoc. specialize (Hrun fuel (bs ++ 0 :: 0 :: rest) ltac:(lia)).
  destruct (ber_two _ _ _ Hb) as (x & y & r & ->).
  assert (Hnot : indefinite (S fuel) ((x :: y :: r) ++ bs ++ 0 :: 0 :: rest) d =
    let? cr := transcode_tlv fuel ((x :: y :: r) ++ bs ++ 0 :: 0 :: rest) d in
    let? ca := indefinite fuel cr.2 d in Ok (cr.1 :: ca.1, ca.2)) by (by destruct x, y).
  rewrite Hnot, Hrun. cbn. rewrite Hruns by (cbn in Hf; lia). done.
Qed.

Lemma transcode_complete :
  (forall d t enc, ber d t enc -> complete_tlv d t enc) /\
  (forall d ts body, bers d ts body -> complete_definite d ts body) /\
  (forall d ts body, bers_open d ts body -> complete_indefinite d ts body).
Proof.
  apply ber_mut; intros.
  - by apply complete_prim.
  - by apply complete_cons_definite.
  - by apply complete_cons_indefinite.
  - intros ts' [= <-] _. split_and!; [constructor|done|]. intros fuel Hf. destruct fuel; [cbn in Hf; lia|done].
  - by apply complete_definite_cons.
  - intros ts' [= <-] _. split_and!; [constructor|done|]. intros fuel rest Hf. destruct fuel; [cbn in Hf; lia|done].
  - by apply complete_indefinite_cons.
Qed.

(** ** The result is strict DER *)

Definition settled (d : nat) (t' : asn1) : Prop :=
  norm t' = Some t' /\ (Z.of_nat (length (der t')) < 2 ^ 32 -> ber d t' (der t')).
Definition settleds (d : nat) (ts' : list asn1) : Prop :=
  mapM norm ts' = Some ts' /\ (Z.of_nat (length (ders ts')) < 2 ^ 32 -> bers d ts' (ders ts')).

Lemma emit_der_longer id content : (length content <= length (emit_der id content))%nat.
Proof. unfold emit_der. cbn [length]. rewrite length_app. lia. Qed.

Lemma settled_prim d id content :
  (d <= MAX_TLV_DEPTH)%nat -> low_tag id -> ~ constructed_tag id -> settled d (Prim id content).
Proof.
  intros Hd Hl Hp. split; [done|]. cbn [der]. intros Hlen. pose proof (emit_der_longer id content).
  destruct (emit_der_len id content ltac:(lia)) as (lb & -> & Hlb). by constructor.
Qed.

Lemma settled_join d id cs' t' :
  (d <= MAX_TLV_DEPTH)%nat -> low_tag id -> constructed_tag id -> settleds (S d) cs' ->
  join_octets id cs' = Some t' -> settled d t'.
Proof.
  intros Hd Hl Hc [Hn Hb] Hj.
  assert (Hcase : t' = Cons id cs' \/ exists i c, t' = Prim i c /\ tagged t').
  { pose proof (join_tagged _ _ _ Hl Hc Hj). destruct t' as [i c|i c]; [right; by exists i, c|left].
    revert Hj. unfold join_octets. repeat case_match; congruence. }
  destruct Hcase as [->|(i & c & -> & Hi & Hp)]; [|by apply settled_prim].
  split; [by rewrite norm_cons, Hn|]. rewrite der_cons. intros Hlen. pose proof (emit_der_longer id (ders cs')).
  destruct (emit_der_len id (ders cs') ltac:(lia)) as (lb & -> & Hlb). apply ber_definite; try done. apply Hb. lia.
Qed.

Lemma settleds_cons d t' ts' : settled d t' -> settleds d ts' -> settleds d (t' :: ts').
Proof.
  intros [Hn Hb] [Hns Hbs]. split; [by rewrite mapM_norm_cons, Hn, Hns|].
  change (ders (t' :: ts')) with (der t' ++ ders ts'). rewrite length_app. intros Hlen.
  constructor; [apply Hb; lia|apply Hbs; lia].
Qed.

Lemma settled_nil d : settleds d [].
Proof. split; [done|]. intros _. constructor. Qed.

Lemma norm_settled :
  (forall d t enc, ber d t enc -> forall t', norm t = Some t' -> settled d t') /\
  (forall d ts body, bers d ts body -> forall ts', mapM norm ts = Some ts' -> settleds d ts') /\
  (forall d ts body, bers_open d ts body -> forall ts', mapM norm ts = Some ts' -> settleds d ts').
Proof.
  apply ber_mut.
  - intros d id lb content Hd Hl Hp _ t' [= <-]. by apply settled_prim.
  - intros d id lb cs body Hd Hl Hc _ _ IH t' (cs' & Hcs & Hj)%norm_cons_inv. eapply settled_join; eauto.
  - intros d id cs body Hd Hl Hc _ IH t' (cs' & Hcs & Hj)%norm_cons_inv. eapply settled_join; eauto.
  - intros d ts' [= <-]. apply settled_nil.
  - intros d t ts b bs _ IHt _ IHs ts' (t1 & ts1 & Ht & Hts & ->)%mapM_norm_cons_inv. apply settleds_cons; auto.
  - intros d ts' [= <-]. apply settled_nil.
  - intros d t ts b bs _ IHt _ _ IHs ts' (t1 & ts1 & Ht & Hts & ->)%mapM_norm_cons_inv. apply settleds_cons; auto.
Qed.

(** ** The transcoder against its specification *)

Lemma ber_to_der_complete t t' input :
  Z.of_nat (length input) < 2 ^ 32 -> ber 0 t input -> norm t = Some t' -> ber_to_der input = Ok (der t').
Proof.
  intros Hl Hber Hn. destruct (proj1 transcode_complete _ _ _ Hber t' Hn Hl) as (_ & _ & Hrun).
  unfold ber_to_der. specialize (Hrun (S (2 * length input)) [] ltac:(lia)). rewrite app_nil_r in Hrun.
  by rewrite Hrun.
Qed.

Lemma ber_to_der_sound input out :
  Z.of_nat (length input) < 2 ^ 32 -> forallb is_byte input = true -> ber_to_der input = Ok out ->
  exists t t', ber 0 t input /\ norm t = Some t' /\ out = der t'.
Proof.
  intros Hl Hb. unfold ber_to_der.
  destruct (transcode_tlv (S (2 * length input)) input 0) as [[o rest]|] eqn:Et; [|done]. cbn.
  case_bool_decide as Hrest; [|done]. intros [= <-]. rewrite Hrest in Et.
  destruct (proj1 (transcode_sound _) _ _ _ _ Hb Hl Et) as (enc & -> & t & t' & Hber & Hn & -> & _).
  rewrite app_nil_r. by exists t, t'.
Qed.

(** C37: the transcoder accepts exactly BER and emits exactly its DER.  For every
    input below 4 GiB: it succeeds if and only if the whole input is one value of
    the grammar, in any mix of length forms, nested at most 64 deep under the
    root, whose chunked octet strings join; and then it emits the strict DER of
    the joined value.  In particular it returns on every input. *)
Theorem transcoder_is_exact input out :
  Z.of_nat (length input) < 2 ^ 32 -> forallb is_byte input = true ->
  ber_to_der input = Ok out <-> exists t t', ber 0 t input /\ norm t = Some t' /\ out = der t'.
Proof.
  intros Hl Hb. split; [by apply ber_to_der_sound|]. intros (t & t' & Hber & Hn & ->).
  by eapply ber_to_der_complete.
Qed.

(** Transcoding twice is transcoding once, below 4 GiB. *)
Theorem transcoding_is_idempotent input out :
  Z.of_nat (length input) < 2 ^ 32 -> Z.of_nat (length out) < 2 ^ 32 -> forallb is_byte input = true ->
  ber_to_der input = Ok out -> ber_to_der out = Ok out.
Proof.
  intros Hl Hlo Hb (t & t' & Hber & Hn & ->)%ber_to_der_sound; [|done|done].
  destruct (proj1 norm_settled _ _ _ Hber t' Hn) as [Hn' Hber'].
  exact (ber_to_der_complete t' t' (der t') Hlo (Hber' Hlo) Hn').
Qed.

(** Strict DER is not always kept.  An octet string under an explicit context
    tag is strict DER, and the transcoder turns it into a primitive value of that
    tag: the nesting level is gone. *)
Theorem strict_der_is_not_kept content :
  Z.of_nat (length content) < 2 ^ 16 ->
  ber 0 (Cons 0xa0 [Prim 4 content]) (der (Cons 0xa0 [Prim 4 content])) /\
  ber_to_der (der (Cons 0xa0 [Prim 4 content])) = Ok (der (Prim 0x80 content)).
Proof.
  intros Hc. assert (Hsmall : forall id c, Z.of_nat (length c) < 2 ^ 32 ->
    Z.of_nat (length (emit_der id c)) <= Z.of_nat (length c) + 6).
  { intros id c Hl. destruct (emit_der_len id c Hl) as (lb & -> & Hlb). cbn [length]. rewrite length_app.
    assert (length lb <= 5)%nat by (destruct Hlb; cbn; lia). lia. }
  pose proof (Hsmall 4 content ltac:(lia)) as H1. pose proof (Hsmall 0xa0 (emit_der 4 content) ltac:(lia)) as H2.
  assert (Hber : ber 0 (Cons 0xa0 [Prim 4 content]) (der (Cons 0xa0 [Prim 4 content]))).
  { rewrite der_cons. change (ders [Prim 4 content]) with (der (Prim 4 content) ++ []). rewrite app_nil_r.
    cbn [der]. destruct (emit_der_len 0xa0 (emit_der 4 content) ltac:(lia)) as (lb & -> & Hlb).
    apply ber_definite; [unfold MAX_TLV_DEPTH; lia|done|done|done|]. rewrite <- (app_nil_r (emit_der 4 content)).
    constructor; [|constructor].
    assert (Hp : ~ constructed_tag 4) by (intros Hx; by apply Hx).
    apply (settled_prim 1 4 content); [unfold MAX_TLV_DEPTH; lia|done|done|]. cbn [der]. lia. }
  split; [done|]. apply (ber_to_der_complete _ _ _) with (2 := Hber).
  - rewrite der_cons. change (ders [Prim 4 content]) with (der (Prim 4 content) ++ []). rewrite app_nil_r.
    cbn [der]. lia.
  - rewrite norm_cons. cbn. by rewrite app_nil_r.
Qed.

(** ** The envelope *)

Definition ID_ENVELOPED_DATA : string := "1.2.840.113549.1.7.3".
Definition ID_DATA : string := "1.2.840.113549.1.7.1".
Definition RSAES_OAEP : string := "1.2.840.113549.1.1.7".
Definition AES_256_CBC : string := "2.16.840.1.101.3.4.1.42".

(** An [Any]: its tag and its value. *)
Record Any := mkAny { any_tag : Z; any_value : bytes }.
Record AlgorithmIdentifier := mkAlg { alg_oid : string; alg_parameters : option Any }.
Record KeyTransRecipientInfo := mkKtri {
  kt_subject_key_id : bytes; kt_key_enc_alg : AlgorithmIdentifier; kt_enc_key : bytes }.
Inductive RecipientInfo : Type := Ktri (k : KeyTransRecipientInfo) | OtherRecipient.
Record EncryptedContentInfo := mkEci {
  ec_content_type : string; ec_content_enc_alg : AlgorithmIdentifier; ec_encrypted_content : option bytes }.
Record EnvelopedData := mkEnveloped {
  ed_recip_infos : list RecipientInfo; ed_encrypted_content : EncryptedContentInfo }.

#[global] Instance EnvelopedData_eq_dec : EqDecision EnvelopedData.
Proof.
  assert (EqDecision Any) by solve_decision. assert (EqDecision AlgorithmIdentifier) by solve_decision.
  assert (EqDecision KeyTransRecipientInfo) by solve_decision. assert (EqDecision RecipientInfo) by solve_decision.
  assert (EqDecision EncryptedContentInfo) by solve_decision. solve_decision.
Defined.

(** The CMS codec, the content of a [ContentInfo] being an encoded value; the
    cryptography of the envelope. *)
Class CmsLib := {
  EncodedAny : Type;
  encode_from : EnvelopedData -> result EncodedAny string;
  decode_as : EncodedAny -> result EnvelopedData string;
  content_info_to_der : string -> EncodedAny -> result bytes string;
  content_info_from_der : bytes -> result (string * EncodedAny) string;
}.
Class EnvelopeCrypto := {
  RsaPublicKey : Type;
  RsaPrivateKey : Type;
  oaep_encrypt : RsaPublicKey -> bytes -> bytes -> result bytes string;
  oaep_decrypt : RsaPrivateKey -> bytes -> result bytes string;
  aes_cbc_encrypt : bytes -> bytes -> bytes -> bytes;
  aes_cbc_decrypt : bytes -> bytes -> bytes -> result bytes string;
}.

(** [decode_as::<OctetString>]. *)
Definition any_octets (a : Any) : result bytes string :=
  if any_tag a =? 4 then Ok (any_value a) else Err "not an OCTET STRING"%string.

Definition find_ktri (l : list RecipientInfo) : option KeyTransRecipientInfo :=
  head (omap (fun ri => match ri with Ktri k => Some k | OtherRecipient => None end) l).

Section Envelope.
Context `{CmsLib} `{EnvelopeCrypto}.

(** With the content key, the IV and the padding's randomness drawn. *)
Definition encode_envelope (recipient : RsaPublicKey) (plaintext cek iv seed : bytes) : result bytes RecipientError :=
  let encrypted_content := aes_cbc_encrypt cek iv plaintext in
  let? encrypted_key := map_err Rsa (oaep_encrypt recipient seed cek) in
  let ktri := mkKtri [] (mkAlg RSAES_OAEP None) encrypted_key in
  let eci := mkEci ID_DATA (mkAlg AES_256_CBC (Some (mkAny 4 iv))) (Some encrypted_content) in
  let enveloped := mkEnveloped [Ktri ktri] eci in
  let? content := map_err Der (encode_from enveloped) in
  map_err Der (content_info_to_der ID_ENVELOPED_DATA content).

Definition decode_envelope (ephemeral : RsaPrivateKey) (cms_der : bytes) : result bytes RecipientError :=
  let? der := ber_to_der cms_der in
  let? content_info := map_err Der (content_info_from_der der) in
  if negb (bool_decide (content_info.1 = ID_ENVELOPED_DATA)) then Err (Malformed "not id-envelopedData")
  else
    let? enveloped := map_err Der (decode_as content_info.2) in
    let? ktri := ok_or (find_ktri (ed_recip_infos enveloped)) (Malformed "no KeyTransRecipientInfo") in
    if negb (bool_decide (alg_oid (kt_key_enc_alg ktri) = RSAES_OAEP)) then Err (Malformed "not RSAES-OAEP")
    else
      let? cek := map_err Rsa (oaep_decrypt ephemeral (kt_enc_key ktri)) in
      if negb (length cek =? 32)%nat then Err (Malformed "content key length")
      else
        let eci := ed_encrypted_content enveloped in
        if negb (bool_decide (alg_oid (ec_content_enc_alg eci) = AES_256_CBC)) then Err (Malformed "not AES-256-CBC")
        else
          let? iv_any := ok_or (alg_parameters (ec_content_enc_alg eci)) (Malformed "no IV parameter") in
          let? iv := map_err Der (any_octets iv_any) in
          if negb (length iv =? 16)%nat then Err (Malformed "IV length")
          else
            let? ciphertext := ok_or (ec_encrypted_content eci) (Malformed "no encrypted content") in
            map_err Aes (aes_cbc_decrypt cek iv ciphertext).

(** Codecs that read back what they write, a key pair, and a cipher. *)
Record envelope_laws (recipient : RsaPublicKey) (ephemeral : RsaPrivateKey) : Prop := {
  el_any : forall e a, encode_from e = Ok a -> decode_as a = Ok e;
  el_der : forall ty a b, content_info_to_der ty a = Ok b -> content_info_from_der b = Ok (ty, a);
  el_oaep : forall seed m c, oaep_encrypt recipient seed m = Ok c -> oaep_decrypt ephemeral c = Ok m;
  el_aes : forall k iv m, aes_cbc_decrypt k iv (aes_cbc_encrypt k iv m) = Ok m;
}.

(** The enclave recovers its key however KMS encodes the answer.  When a party
    that knows the enclave's ephemeral public key seals a plaintext in an
    envelope, then every BER encoding of that envelope's value (indefinite
    lengths, long lengths, chunked octet strings) opens to exactly that plaintext
    under the ephemeral private key. *)
Theorem envelope_opens_however_encoded recipient ephemeral plaintext cek iv seed t t' input :
  envelope_laws recipient ephemeral -> length cek = 32%nat -> length iv = 16%nat ->
  encode_envelope recipient plaintext cek iv seed = Ok (der t') ->
  Z.of_nat (length input) < 2 ^ 32 -> ber 0 t input -> norm t = Some t' ->
  decode_envelope ephemeral input = Ok plaintext.
Proof.
  intros [Hany Hder Hoaep Haes] Hcek Hiv. unfold encode_envelope.
  destruct (oaep_encrypt recipient seed cek) as [key|] eqn:Ek; [|done]. cbn [map_err].
  destruct (encode_from _) as [content|] eqn:Ec; [|done]. cbn [map_err].
  destruct (content_info_to_der _ content) as [b|] eqn:Eb; [|done]. cbn [map_err]. intros [= ->] Hl Hber Hn.
  unfold decode_envelope. rewrite (ber_to_der_complete _ _ _ Hl Hber Hn), (Hder _ _ _ Eb). cbn.
  rewrite (Hany _ _ Ec). cbn. rewrite (Hoaep _ _ _ Ek). cbn. rewrite Hcek. cbn. rewrite Hiv. cbn. by rewrite Haes.
Qed.
End Envelope.

(** ** A chunked, indefinite-length envelope *)

Module RecipientDemo.
(** SEQUENCE { OID, OCTET STRING }, as strict DER and as KMS may send it. *)
Definition value : asn1 := Cons 0x30 [Prim 6 [42]; Prim 4 [1; 2; 3; 4]].
Definition sent : bytes := [0x30; 0x80; 6; 1; 42; 0x24; 0x80; 4; 2; 1; 2; 4; 0x81; 2; 3; 4; 0; 0; 0; 0].

Definition cek : bytes := replicate 32 7.
Definition iv : bytes := replicate 16 9.
Definition enveloped : EnvelopedData :=
  mkEnveloped [Ktri (mkKtri [] (mkAlg RSAES_OAEP None) cek)]
    (mkEci ID_DATA (mkAlg AES_256_CBC (Some (mkAny 4 iv))) (Some [5; 6])).

(** A codec of that one value, and ciphers that hide nothing. *)
#[local] Instance one_value : CmsLib := {|
  EncodedAny := EnvelopedData;
  encode_from e := if bool_decide (e = enveloped) then Ok e else Err "other"%string;
  decode_as e := Ok e;
  content_info_to_der ty e :=
    if bool_decide (ty = ID_ENVELOPED_DATA /\ e = enveloped) then Ok (der value) else Err "other"%string;
  content_info_from_der b :=
    if bool_decide (b = der value) then Ok (ID_ENVELOPED_DATA, enveloped) else Err "other"%string;
|}.
#[local] Instance clear : EnvelopeCrypto := {|
  RsaPublicKey := unit; RsaPrivateKey := unit;
  oaep_encrypt _ _ m := Ok m; oaep_decrypt _ c := Ok c;
  aes_cbc_encrypt _ _ m := m; aes_cbc_decrypt _ _ c := Ok c;
|}.

Definition opens : Prop := decode_envelope tt sent = Ok [5; 6].

Lemma recipient_laws : envelope_laws tt tt.
Proof.
  split; try done.
  - intros e a. cbn. by case_bool_decide; intros [= <-].
  - intros ty a b. unfold content_info_to_der, one_value. case_bool_decide as He; [|done].
    destruct He as [-> ->]. intros [= <-]. unfold content_info_from_der. by rewrite bool_decide_eq_true_2.
Qed.
End RecipientDemo.

Lemma transcoder_is_exact_witness :
  exists t t', ber 0 t RecipientDemo.sent /\ norm t = Some t' /\ der RecipientDemo.value = der t'.
Proof.
  apply (transcoder_is_exact RecipientDemo.sent (der RecipientDemo.value)); vm_compute; reflexivity.
Defined.

Lemma transcoding_is_idempotent_witness : ber_to_der (der RecipientDemo.value) = Ok (der RecipientDemo.value).
Proof. apply (transcoding_is_idempotent RecipientDemo.sent); vm_compute; reflexivity. Defined.

Lemma strict_der_is_not_kept_witness :
  ber_to_der [0xa0; 4; 4; 2; 1; 2] = Ok [0x80; 2; 1; 2].
Proof. apply (strict_der_is_not_kept [1; 2]). vm_compute. reflexivity. Defined.

Lemma envelope_opens_however_encoded_witness : RecipientDemo.opens.
Proof.
  destruct (ber_to_der_sound RecipientDemo.sent (der RecipientDemo.value)) as (t & t' & Hber & Hn & Hd);
    [vm_compute; reflexivity..|].
  apply (@envelope_opens_however_encoded RecipientDemo.one_value RecipientDemo.clear tt tt [5; 6]
    RecipientDemo.cek RecipientDemo.iv [] t t' RecipientDemo.sent); try done.
  - apply RecipientDemo.recipient_laws.
  - rewrite <- Hd. vm_compute. reflexivity.
Defined.
