(* ===== verification/Sigv4.v ===== *)
(** Request signing of the key tool's KMS client ([enclavia-crypto/src/sigv4.rs]
    and [kms_call] of [main.rs]).

    Two theorems: a request and its signature go together, that is, what AWS
    recomputes from the request it receives is the signature sent; and the string
    that is signed determines the request, short of a SHA-256 collision that the
    statement exhibits.  SHA-256 and HMAC are parameters. *)
From stdpp Require Import base list sorting strings.
From S2P Require Import Prelude Text Crypto.
#[local] Open Scope Z_scope.

Definition ALGORITHM : str := lit "AWS4-HMAC-SHA256".
Definition TERMINATOR : str := lit "aws4_request".
Definition KMS_CONTENT_TYPE : str := lit "application/x-amz-json-1.1".

Abbreviation Header := (str * str)%type (only parsing).

Record SignedHeaders := mkSigned {
  sh_authorization : str;
  sh_amz_date : str;
  sh_security_token : option str;
}.

(** [<] on strings, byte by byte. *)
Fixpoint str_ltb (a b : str) : bool :=
  match a, b with
  | _, [] => false
  | [], _ :: _ => true
  | x :: a, y :: b => (x <? y) || ((x =? y) && str_ltb a b)
  end.

(** [sort_by] on the names; stable, as a header goes before the equal ones that
    followed it. *)
Fixpoint insert_header (h : Header) (l : list Header) : list Header :=
  match l with
  | [] => [h]
  | h' :: l => if str_ltb h'.1 h.1 then h' :: insert_header h l else h :: h' :: l
  end.
Definition sort_headers (l : list Header) : list Header := foldr insert_header [] l.

Fixpoint join (sep : str) (l : list str) : str :=
  match l with
  | [] => []
  | [x] => x
  | x :: l => x ++ sep ++ join sep l
  end.

(** [{b:02x}] of each byte. *)
Definition hex_char (n : Z) : Z := if n <? 10 then 48 + n else 87 + n.
Definition hex (bs : bytes) : str := bs ≫= fun b => [hex_char (b / 16); hex_char (b mod 16)].

Section Sign.
Context (sha256 : bytes -> bytes) (hmac : bytes -> bytes -> bytes).

Definition canonical_headers (headers : list Header) : str := headers ≫= fun h => h.1 ++ lit ":" ++ h.2 ++ [10].

Definition canonical_request (headers : list Header) (payload : bytes) : str :=
  lit "POST" ++ [10] ++ lit "/" ++ [10; 10] ++ canonical_headers headers ++ [10] ++
  join (lit ";") headers.*1 ++ [10] ++ hex (sha256 payload).

Definition string_to_sign (amz_date scope canonical : str) : str :=
  ALGORITHM ++ [10] ++ amz_date ++ [10] ++ scope ++ [10] ++ hex (sha256 canonical).

Definition signing_key (secret date_stamp region service : str) : bytes :=
  let k_date := hmac (lit "AWS4" ++ secret) date_stamp in
  let k_region := hmac k_date region in
  let k_service := hmac k_region service in
  hmac k_service TERMINATOR.

Definition credential_scope (date_stamp region service : str) : str :=
  date_stamp ++ lit "/" ++ region ++ lit "/" ++ service ++ lit "/" ++ TERMINATOR.

(** The headers that are signed. *)
Definition signed_set (creds : Credentials) (host amz_date : str) (extra : list Header) : list Header :=
  sort_headers (((fun h => (to_ascii_lowercase h.1, trim h.2)) <$> extra) ++
    [(lit "host", host); (lit "x-amz-date", amz_date)] ++
    match session_token creds with Some tok => [(lit "x-amz-security-token", tok)] | None => [] end).

Definition sign_post (creds : Credentials) (region service host amz_date date_stamp : str) (extra : list Header)
    (payload : bytes) : SignedHeaders :=
  let headers := signed_set creds host amz_date extra in
  let canonical := canonical_request headers payload in
  let signed_headers := join (lit ";") headers.*1 in
  let scope := credential_scope date_stamp region service in
  let to_sign := string_to_sign amz_date scope canonical in
  let key := signing_key (secret_access_key creds) date_stamp region service in
  let signature := hex (hmac key to_sign) in
  mkSigned
    (ALGORITHM ++ lit " Credential=" ++ access_key_id creds ++ lit "/" ++ scope ++ lit ", SignedHeaders=" ++
     signed_headers ++ lit ", Signature=" ++ signature)
    amz_date (session_token creds).

(** The request [kms_call] sends over its transport, at a time. *)
Record KmsRequest := mkKmsRequest { kr_headers : list Header; kr_body : bytes }.

Definition kms_request (transport : KmsTransport) (target : str) (body : bytes) (amz_date date_stamp : str)
    : KmsRequest :=
  match transport with
  | KT_Mock =>
      mkKmsRequest [(lit "host", lit "kms.local"); (lit "content-type", KMS_CONTENT_TYPE); (lit "x-amz-target", target)]
        body
  | KT_Aws region host creds =>
      let s := sign_post creds region (lit "kms") host amz_date date_stamp
                 [(lit "content-type", KMS_CONTENT_TYPE); (lit "x-amz-target", target)] body in
      mkKmsRequest
        ([(lit "host", host); (lit "content-type", KMS_CONTENT_TYPE); (lit "x-amz-target", target);
          (lit "x-amz-date", sh_amz_date s); (lit "authorization", sh_authorization s)] ++
         match sh_security_token s with Some tok => [(lit "x-amz-security-token", tok)] | None => [] end)
        body
  end.

(** ** What AWS recomputes *)

Definition find_header (name : str) (l : list Header) : option str :=
  snd <$> List.find (fun h => bool_decide (h.1 = name)) l.

(** The signature of a received request over the names its authorization lists,
    with every value trimmed. *)
Definition aws_signature (secret date_stamp region service : str) (names : list str) (r : KmsRequest) : str :=
  let value n := trim (default [] (find_header n (kr_headers r))) in
  hex (hmac (signing_key secret date_stamp region service)
         (string_to_sign (value (lit "x-amz-date")) (credential_scope date_stamp region service)
            (canonical_request ((fun n => (n, value n)) <$> names) (kr_body r)))).

Definition kms_extra (target : str) : list Header :=
  [(lit "content-type", KMS_CONTENT_TYPE); (lit "x-amz-target", target)].

Lemma signed_set_kms creds host amz_date target :
  signed_set creds host amz_date (kms_extra target) =
  [(lit "content-type", KMS_CONTENT_TYPE); (lit "host", host); (lit "x-amz-date", amz_date)] ++
  match session_token creds with Some tok => [(lit "x-amz-security-token", tok)] | None => [] end ++
  [(lit "x-amz-target", trim target)].
Proof. unfold signed_set. destruct (session_token creds); vm_compute; reflexivity. Qed.

(** The headers of the request, found by name. *)
Lemma kms_headers_found region host creds target body amz_date date_stamp :
  let hs := kr_headers (kms_request (KT_Aws region host creds) target body amz_date date_stamp) in
  find_header (lit "content-type") hs = Some KMS_CONTENT_TYPE /\ find_header (lit "host") hs = Some host /\
  find_header (lit "x-amz-date") hs = Some amz_date /\
  find_header (lit "x-amz-security-token") hs = session_token creds /\
  find_header (lit "x-amz-target") hs = Some target /\
  find_header (lit "authorization") hs =
    Some (sh_authorization (sign_post creds region (lit "kms") host amz_date date_stamp (kms_extra target) body)).
Proof.
  unfold kms_request. cbn [kr_headers sh_amz_date sh_security_token sign_post].
  destruct (session_token creds); split_and!; reflexivity.
Qed.

(** A KMS request carries the signature AWS recomputes from it.  For every
    region, credentials, operation and body, the authorization header of the
    request names the credentials and their scope, the signed headers, which are
    the content type, the host, the date, the session token if there is one and
    the operation, and exactly the signature that follows from the headers and
    the body as sent. *)
Theorem kms_request_verifies region host creds target body amz_date date_stamp :
  trim host = host -> trim amz_date = amz_date ->
  (forall tok, session_token creds = Some tok -> trim tok = tok) ->
  let r := kms_request (KT_Aws region host creds) target body amz_date date_stamp in
  let names := [lit "content-type"; lit "host"; lit "x-amz-date"] ++
    match session_token creds with Some _ => [lit "x-amz-security-token"] | None => [] end ++
    [lit "x-amz-target"] in
  find_header (lit "authorization") (kr_headers r) =
    Some (ALGORITHM ++ lit " Credential=" ++ access_key_id creds ++ lit "/" ++
          credential_scope date_stamp region (lit "kms") ++ lit ", SignedHeaders=" ++ join (lit ";") names ++
          lit ", Signature=" ++ aws_signature (secret_access_key creds) date_stamp region (lit "kms") names r) /\
  kr_body r = body.
Proof.
  intros Hhost Hdate Htok r names. split; [|done].
  destruct (kms_headers_found region host creds target body amz_date date_stamp) as (F1 & F2 & F3 & F4 & F5 & F6).
  fold r in F1, F2, F3, F4, F5, F6. rewrite F6.
  assert (Hct : trim KMS_CONTENT_TYPE = KMS_CONTENT_TYPE) by (vm_compute; reflexivity).
  assert (Hset : (fun n => (n, trim (default [] (find_header n (kr_headers r))))) <$> names =
    signed_set creds host amz_date (kms_extra target)).
  { rewrite signed_set_kms. subst names. rewrite !fmap_app. cbn [fmap list_fmap]. rewrite F1, F2, F3, F5.
    cbn [default from_option id]. unfold default, from_option, id. rewrite Hhost, Hdate, Hct. do 2 f_equal.
    destruct (session_token creds) as [tok|]; [|done]. cbn [fmap list_fmap]. rewrite F4.
    by rewrite (Htok tok eq_refl). }
  assert (Hnames : (signed_set creds host amz_date (kms_extra target)).*1 = names).
  { rewrite <- Hset, <- list_fmap_compose. apply list_fmap_id. }
  unfold sign_post, aws_signature. cbn [sh_authorization]. rewrite Hset, Hnames, F3.
  unfold default, from_option, id. rewrite Hdate. done.
Qed.

(** ** What the signature covers *)

Definition no_lf (s : str) : Prop := 10 ∉ s.
Definition clean_header (h : Header) : Prop := (10 ∉ h.1) /\ (58 ∉ h.1) /\ (10 ∉ h.2).

Lemma app_sep_inj (sep : Z) a1 a2 r1 r2 :
  sep ∉ a1 -> sep ∉ a2 -> a1 ++ sep :: r1 = a2 ++ sep :: r2 -> a1 = a2 /\ r1 = r2.
Proof.
  revert a2. induction a1 as [|x a1 IH]; intros [|y a2] H1 H2 He; cbn in He; simplify_eq; try done.
  - by destruct H2; left.
  - by destruct H1; left.
  - apply not_elem_of_cons in H1 as [_ H1], H2 as [_ H2]. destruct (IH a2 H1 H2 ltac:(done)) as [-> ->]. done.
Qed.

Lemma hex_char_inj a b : 0 <= a < 16 -> 0 <= b < 16 -> hex_char a = hex_char b -> a = b.
Proof. unfold hex_char. intros. repeat case_match; lia. Qed.

Lemma hex_inj a b : forallb is_byte a = true -> forallb is_byte b = true -> hex a = hex b -> a = b.
Proof.
  revert b. induction a as [|x a IH]; intros [|y b] Ha Hb He; try done.
  cbn [forallb] in Ha, Hb. apply andb_prop in Ha as [Hx Ha], Hb as [Hy Hb]. unfold is_byte in Hx, Hy.
  unfold hex in He. rewrite !bind_cons in He. cbn [app] in He. injection He as H1 H2 He.
  pose proof (Z.mod_pos_bound x 16 ltac:(lia)). pose proof (Z.mod_pos_bound y 16 ltac:(lia)).
  apply hex_char_inj in H1; [|split; [apply Z.div_pos; lia|apply Z.div_lt_upper_bound; lia]..].
  apply hex_char_inj in H2; [|lia..]. f_equal; [|by apply IH].
  rewrite (Z.div_mod x 16), (Z.div_mod y 16) by lia. congruence.
Qed.

Lemma canonical_headers_inj h1 h2 r1 r2 :
  Forall clean_header h1 -> Forall clean_header h2 ->
  canonical_headers h1 ++ 10 :: r1 = canonical_headers h2 ++ 10 :: r2 -> h1 = h2 /\ r1 = r2.
Proof.
  unfold canonical_headers.
  assert (Hline : forall (h : Header) l r, (((h :: l) ≫= fun h => h.1 ++ lit ":" ++ h.2 ++ [10]) ++ 10 :: r) =
    h.1 ++ 58 :: h.2 ++ 10 :: (l ≫= fun h => h.1 ++ lit ":" ++ h.2 ++ [10]) ++ 10 :: r).
  { intros h l r. rewrite bind_cons, <- !app_assoc. done. }
  assert (Hnil : forall (h : Header) x y, clean_header h -> 10 :: x = h.1 ++ 58 :: y -> False).
  { intros [n v] x y (Hn & _) He. destruct n as [|c n]; cbn in *; simplify_eq. by destruct Hn; left. }
  revert h2. induction h1 as [|[n1 v1] h1 IH]; intros [|[n2 v2] h2] H1 H2 He.
  - by simplify_eq.
  - rewrite Hline in He. apply Forall_cons in H2 as [H2 _]. exfalso. exact (Hnil (n2, v2) _ _ H2 He).
  - rewrite Hline in He. apply Forall_cons in H1 as [H1 _]. exfalso. symmetry in He. exact (Hnil (n1, v1) _ _ H1 He).
  - rewrite !Hline in He. apply Forall_cons in H1 as [(Ha1 & Hb1 & Hc1) H1], H2 as [(Ha2 & Hb2 & Hc2) H2].
    cbn [fst snd] in *. apply app_sep_inj in He as [-> He]; [|done|done].
    apply app_sep_inj in He as [-> He]; [|done|done]. destruct (IH h2 H1 H2 He) as [-> ->]. done.
Qed.

(** The signed string determines the request.  When two requests have the same
    string to sign, they have the same date, scope, headers (names and values, in
    order) and body, or two different inputs with one SHA-256 digest are at hand;
    for header names without line feed or colon and values without line feed. *)
Theorem signed_string_binds_the_request d1 d2 sc1 sc2 h1 h2 p1 p2 :
  (forall x, forallb is_byte (sha256 x) = true) ->
  no_lf d1 -> no_lf d2 -> no_lf sc1 -> no_lf sc2 -> Forall clean_header h1 -> Forall clean_header h2 ->
  string_to_sign d1 sc1 (canonical_request h1 p1) = string_to_sign d2 sc2 (canonical_request h2 p2) ->
  (d1 = d2 /\ sc1 = sc2 /\ h1 = h2 /\ p1 = p2) \/ exists x y, x <> y /\ sha256 x = sha256 y.
Proof.
  intros Hsha Hd1 Hd2 Hs1 Hs2 Hh1 Hh2. unfold string_to_sign. intros He. apply app_inv_head in He.
  cbn [app] in He. injection He as He. apply app_sep_inj in He as [-> He]; [|done|done].
  apply app_sep_inj in He as [-> He]; [|done|done]. apply hex_inj in He; [|done|done].
  destruct (decide (canonical_request h1 p1 = canonical_request h2 p2)) as [Hc|Hne]; [|right; eauto].
  unfold canonical_request in Hc. do 4 apply app_inv_head in Hc.
  cbn [app] in Hc. apply canonical_headers_inj in Hc as [-> Hc]; [|done|done].
  apply app_inv_head in Hc. injection Hc as Hc. apply hex_inj in Hc; [|done|done].
  destruct (decide (p1 = p2)) as [->|Hne]; [by left|right; eauto].
Qed.
End Sign.

(** ** A request *)

Module SigDemo.
(** A digest with collisions. *)
Definition toy_sha256 (x : bytes) : bytes := [Z.of_nat (length x) mod 256].
Definition toy_hmac (k m : bytes) : bytes := [Z.of_nat (length k + length m) mod 256].

Definition creds : Credentials := mkCredentials (lit "AKID") (lit "secret") (Some (lit "token")).
Definition host : str := lit "kms.eu-central-1.amazonaws.com".
Definition date : str := lit "20240101T000000Z".
Definition transport : KmsTransport := KT_Aws (lit "eu-central-1") host creds.
Definition request : KmsRequest :=
  kms_request toy_sha256 toy_hmac transport (lit "TrentService.Decrypt") [123; 125] date (lit "20240101").
Definition headers : list Header := [(lit "host", host); (lit "x-amz-date", date)].
End SigDemo.

Lemma kms_request_verifies_witness :
  kr_body SigDemo.request = [123; 125] /\
  is_Some (find_header (lit "authorization") (kr_headers SigDemo.request)).
Proof.
  destruct (kms_request_verifies SigDemo.toy_sha256 SigDemo.toy_hmac (lit "eu-central-1") SigDemo.host SigDemo.creds
    (lit "TrentService.Decrypt") [123; 125] SigDemo.date (lit "20240101")) as [Ha Hb].
  - vm_compute. reflexivity.
  - vm_compute. reflexivity.
  - intros tok [= <-]. vm_compute. reflexivity.
  - split; [exact Hb|]. exact (ex_intro _ _ Ha).
Defined.

Lemma signed_string_binds_the_request_witness :
  exists x y, x <> y /\ SigDemo.toy_sha256 x = SigDemo.toy_sha256 y.
Proof.
  assert (Hclean : Forall clean_header SigDemo.headers)
    by (repeat constructor; apply (bool_decide_unpack _); vm_compute; exact I).
  destruct (signed_string_binds_the_request SigDemo.toy_sha256 SigDemo.date SigDemo.date (lit "scope") (lit "scope")
    SigDemo.headers SigDemo.headers [1] [2]) as [(_ & _ & _ & Hp)|Hc]; try exact Hclean.
  - intros x. unfold SigDemo.toy_sha256. cbn. unfold is_byte.
    pose proof (Z.mod_pos_bound (Z.of_nat (length x)) 256 ltac:(lia)). lia.
  - apply (bool_decide_unpack _). vm_compute. exact I.
  - apply (bool_decide_unpack _). vm_compute. exact I.
  - apply (bool_decide_unpack _). vm_compute. exact I.
  - apply (bool_decide_unpack _). vm_compute. exact I.
  - vm_compute. reflexivity.
  - discriminate Hp.
  - exact Hc.
Defined.
