(* ===== verification/NbdRun.v ===== *)
(** The storage client as a program: [Config::from_env], [main] and [run] of
    [nbd-client/src/main.rs], and the reply proxy it runs without the
    anti-rollback wiring.

    [run] is a sequence of actions on the outside world (dials, device ioctls,
    tasks started) that ends at the first failure; what the world answers, and
    how the running client ends, is a record.  With the wiring on, the tasks
    started are the system of [Pump], so the theorem here reaches from the
    environment variable to what the kernel sees. *)
From stdpp Require Import base gmap sets list list_numbers strings.
From S2P Require Import Prelude StateMachine Store Membership Identity Signing Attestation Chain ChainProofs Wire Service Nbd Client ClientProofs Watch Pump PumpProofs.
#[local] Open Scope Z_scope.

(** ** Configuration *)

Record Config := mkConfig {
  cfg_device : string;
  cfg_block_size : Z;
  cfg_luks_data_offset : Z;
  cfg_vsock_port : Z;
  cfg_synchronizer_enabled : bool;
}.

(** [str::parse::<u32>]. *)
Definition parse_u32 (s : string) : option Z :=
  match parse_u64 s with
  | Some n => if n <=? u32_max then Some n else None
  | None => None
  end.

(** [synchronizer_enabled]; [None] is the panic. *)
Definition synchronizer_enabled (var : string -> option string) : option bool :=
  result_ok (parse_synchronizer_flag (var "SYNCHRONIZER_ENABLED"%string)).

(** [Config::from_env]; [None] is a panic. *)
Definition from_env (var : string -> option string) : option Config :=
  let device := default "/dev/nbd0"%string (var "NBD_DEVICE"%string) in
  block_size ← parse_u32 (default "4096"%string (var "NBD_BLOCK_SIZE"%string));
  luks_data_offset ← parse_u64 (default "16777216"%string (var "LUKS_DATA_OFFSET"%string));
  vsock_port ← parse_u32 (default "5001"%string (var "VSOCK_PORT"%string));
  enabled ← synchronizer_enabled var;
  Some (mkConfig device block_size luks_data_offset vsock_port enabled).

(** ** The kernel's device and the tasks *)

Inductive Ioctl : Type :=
| NBD_SET_SOCK | NBD_SET_BLKSIZE | NBD_SET_SIZE | NBD_DO_IT | NBD_CLEAR_SOCK | NBD_CLEAR_QUE
| NBD_DISCONNECT | NBD_SET_FLAGS.

#[global] Instance Ioctl_eq_dec : EqDecision Ioctl.
Proof. solve_decision. Defined.

(** Why a task's handle is an error: the task's own error, or its panic. *)
Inductive TaskError : Type :=
| Task_failed (e : PumpError)
| Task_panicked.

(** [flatten] of a joined handle; a panic is the outer error. *)
Definition flatten {A} (joined : result (result A PumpError) unit) : result A TaskError :=
  match joined with
  | Ok (Ok v) => Ok v
  | Ok (Err e) => Err (Task_failed e)
  | Err _ => Err Task_panicked
  end.

(** [try_join!] of the handles in the order they complete: the first error
    ends it. *)
Fixpoint try_join (joined : list (result (result unit PumpError) unit)) : result unit TaskError :=
  match joined with
  | [] => Ok tt
  | h :: joined => let? _ := flatten h in try_join joined
  end.

(** What ends the wait: [NBD_DO_IT] returned or its thread panicked, the tasks
    ended, or a signal came. *)
Inductive Ending : Type :=
| End_do_it (panicked : bool)
| End_tasks (joined : list (result (result unit PumpError) unit))
| End_signal.

Inductive RunError : Type :=
| RE_ConnectTimeout
| RE_Connect
| RE_NegotiateTimeout
| RE_Negotiate (e : NbdError)
| RE_BootTimeout
| RE_Boot (e : FatalError)
| RE_Socketpair
| RE_Open
| RE_Ioctl (op : Ioctl)
| RE_Socket
| RE_Proxy (e : TaskError).

Section Run.
Context (sha256 : bytes -> bytes).
Context {S : Type} `{BootOracle S} `{Reconnect S} `{Clock S} `{Cbor UpgradePayload} `{HJ : JsonLib}.

(** The tasks [run] spawns: the gated pump with its pin actor, from the state of
    [Pump], or the two plain proxies on what the host has yet to send. *)
Inductive Tasks : Type :=
| T_gated (sys : Sys (S := S))
| T_plain (host : Stream).

Inductive Act : Type :=
| A_connect (cid port : Z)
| A_negotiate
| A_boot
| A_socketpair
| A_open (device : string)
| A_ioctl (op : Ioctl) (arg : Z)
| A_spawn (tasks : Tasks)
| A_close.

(** The world's answers. *)
Record World := mkWorld {
  w_connect : option (option Stream);   (* [None]: timed out *)
  w_negotiated_in_time : bool;
  w_booted_in_time : bool;
  w_session : result (S * PcrKey * ImageRole) FatalError;
  w_upgrade_link : option ChainLink;
  w_socketpair : option Z;
  w_open : bool;
  w_ioctl : Ioctl -> bool;
  w_socket : bool;   (* the proxy's side becomes a non-blocking stream *)
  w_end : Ending;
}.

(** ** The monad of actions *)

Definition io (A : Type) : Type := list Act * result A RunError.
Definition io_ret {A} (r : result A RunError) : io A := ([], r).
Definition io_bind {A B} (m : io A) (k : A -> io B) : io B :=
  match m with
  | (tr, Ok a) => let '(tr', r) := k a in (tr ++ tr', r)
  | (tr, Err e) => (tr, Err e)
  end.
#[local] Notation "'let+' x ':=' m 'in' k" := (io_bind m (fun x => k))
  (at level 10, x pattern, m at level 100, k at level 200).

Context (w : World).

Definition nbd_ioctl (op : Ioctl) (arg : Z) : io unit :=
  ([A_ioctl op arg], if w_ioctl w op then Ok tt else Err (RE_Ioctl op)).

(** An ioctl whose failure is ignored. *)
Definition nbd_ioctl_ (op : Ioctl) (arg : Z) : io unit := ([A_ioctl op arg], Ok tt).

Definition connect (cid port : Z) : io Stream :=
  ([A_connect cid port],
   match w_connect w with
   | None => Err RE_ConnectTimeout
   | Some None => Err RE_Connect
   | Some (Some s) => Ok s
   end).

Definition negotiate_in_time (host : Stream) : io (ExportInfo * Stream) :=
  ([A_negotiate],
   if w_negotiated_in_time w
   then match negotiate host with
        | (Ok export, host) => Ok (export, host)
        | (Err e, _) => Err (RE_Negotiate e)
        end
   else Err RE_NegotiateTimeout).

(** Step 2b: nothing without the wiring, the verified boot with it. *)
Definition sync_boot (cfg : Config) (host : Stream) : io (option (BootResult S) * Stream) :=
  if cfg_synchronizer_enabled cfg then
    ([A_boot],
     if w_booted_in_time w
     then match boot sha256 (w_session w) host (cfg_luks_data_offset cfg) (w_upgrade_link w) with
          | (Ok b, host) => Ok (Some b, host)
          | (Err e, _) => Err (RE_Boot e)
          end
     else Err RE_BootTimeout)
  else io_ret (Ok (None, host)).

(** Steps 3 and 4. *)
Definition configure (cfg : Config) (export : ExportInfo) : io unit :=
  let+ kernel_side := ([A_socketpair], ok_or (w_socketpair w) RE_Socketpair) in
  let+ _ := ([A_open (cfg_device cfg)], if w_open w then Ok tt else Err RE_Open) in
  let+ _ := nbd_ioctl NBD_SET_BLKSIZE (cfg_block_size cfg) in
  let+ _ := nbd_ioctl NBD_SET_SIZE (ei_size export) in
  let+ _ := nbd_ioctl NBD_SET_FLAGS (kernel_flags (cfg_synchronizer_enabled cfg) (ei_flags export)) in
  nbd_ioctl NBD_SET_SOCK kernel_side.

(** Step 5. *)
Definition spawn (booted : option (BootResult S)) (host : Stream) : io unit :=
  if negb (w_socket w) then io_ret (Err RE_Socket)
  else ([A_spawn (match booted with Some b => T_gated (started b) | None => T_plain host end)], Ok tt).

Definition disconnect : io unit :=
  let+ _ := nbd_ioctl_ NBD_DISCONNECT 0 in nbd_ioctl_ NBD_CLEAR_SOCK 0.

(** The error the wait leaves in [proxy_error], and what it does. *)
Definition await_end : io (option TaskError) :=
  match w_end w with
  | End_do_it _ => io_ret (Ok None)
  | End_tasks joined =>
      let+ _ := disconnect in
      io_ret (Ok (match try_join joined with Ok _ => None | Err e => Some e end))
  | End_signal => let+ _ := disconnect in io_ret (Ok None)
  end.

Definition cleanup : io unit :=
  let+ _ := nbd_ioctl_ NBD_CLEAR_QUE 0 in
  let+ _ := nbd_ioctl_ NBD_CLEAR_SOCK 0 in
  ([A_close], Ok tt).

Definition run (cfg : Config) (cid : Z) : io unit :=
  let+ host := connect cid (cfg_vsock_port cfg) in
  let+ (export, host) := negotiate_in_time host in
  let+ (booted, host) := sync_boot cfg host in
  let+ _ := configure cfg export in
  let+ _ := spawn booted host in
  let+ _ := nbd_ioctl_ NBD_DO_IT 0 in
  let+ proxy_error := await_end in
  let+ _ := cleanup in
  io_ret (match proxy_error with
          | Some e => if cfg_synchronizer_enabled cfg then Err (RE_Proxy e) else Ok tt
          | None => Ok tt
          end).

(** The actions and the exit status; a panic exits with 101. *)
Definition main (var : string -> option string) (cid : Z) : list Act * Z :=
  match from_env var with
  | None => ([], 101)
  | Some cfg =>
      match run cfg cid with
      | (tr, Ok _) => (tr, 0)
      | (tr, Err _) => (tr, 1)
      end
  end.
End Run.

(** ** The plain reply proxy *)

(** The map it shares with the request proxy, what the host has yet to send
    before it closes, and what was written to the kernel. *)
Record Replies := mkReplies { rr_inflight : gmap Z Z; rr_host : bytes; rr_kernel : bytes }.

Inductive Turn : Type :=
| Turn_next (st : Replies)
| Turn_eof (st : Replies)
| Turn_error (e : NbdError) (st : Replies).

(** One pass of [reply_proxy]'s loop. *)
Definition reply_turn (st : Replies) : Turn :=
  if Z.of_nat (length (rr_host st)) <? 16
  then Turn_eof (mkReplies (rr_inflight st) [] (rr_kernel st))
  else
    let header := take 16 (rr_host st) in
    let host := drop 16 (rr_host st) in
    match parse_reply header with
    | Err e => Turn_error e (mkReplies (rr_inflight st) host (rr_kernel st))
    | Ok r =>
        let read_len := rr_inflight st !! rp_handle r in
        let inflight := delete (rp_handle r) (rr_inflight st) in
        let kernel := rr_kernel st ++ header in
        match (if rp_error r =? 0 then read_len else None) with
        | Some len =>
            match forward_bytes host kernel len with
            | (Ok _, (host, kernel)) => Turn_next (mkReplies inflight host kernel)
            | (Err e, (host, kernel)) => Turn_error e (mkReplies inflight host kernel)
            end
        | None => Turn_next (mkReplies inflight host kernel)
        end
    end.

(** The proxy among the request proxy's insertions. *)
Inductive ProxyEvent : Type :=
| Ev_read (handle len : Z)
| Ev_reply.

Fixpoint reply_proxy (evs : list ProxyEvent) (st : Replies) : Turn :=
  match evs with
  | [] => Turn_next st
  | Ev_read h len :: evs =>
      reply_proxy evs (mkReplies (<[h := len]> (rr_inflight st)) (rr_host st) (rr_kernel st))
  | Ev_reply :: evs =>
      match reply_turn st with
      | Turn_next st => reply_proxy evs st
      | t => t
      end
  end.

Definition turn_state (t : Turn) : Replies :=
  match t with Turn_next st | Turn_eof st | Turn_error _ st => st end.

(** ** Transparency *)

Lemma forward_loop_prefix fuel n src dst :
  let '(r, (src', dst')) := forward_loop fuel n src dst in
  dst' `prefix_of` dst ++ src /\ (r = Ok tt -> dst' ++ src' = dst ++ src).
Proof.
  revert n src dst. induction fuel as [|fuel IH]; intros n src dst; cbn [forward_loop].
  { split; [by eexists|done]. }
  destruct (n <=? 0); [split; [by eexists|done]|].
  destruct (_ <? _); [split; [by eexists|done]|].
  specialize (IH (n - Z.min n CHUNK) (drop (Z.to_nat (Z.min n CHUNK)) src) (dst ++ take (Z.to_nat (Z.min n CHUNK)) src)).
  destruct (forward_loop _ _ _ _) as [r [src' dst']]. by rewrite <- app_assoc, take_drop in IH.
Qed.

Lemma reply_turn_prefix st :
  rr_kernel (turn_state (reply_turn st)) `prefix_of` rr_kernel st ++ rr_host st /\
  forall st', reply_turn st = Turn_next st' ->
    rr_kernel st' ++ rr_host st' = rr_kernel st ++ rr_host st.
Proof.
  assert (Hsplit : (rr_kernel st ++ take 16 (rr_host st)) ++ drop 16 (rr_host st) = rr_kernel st ++ rr_host st).
  { by rewrite <- app_assoc, take_drop. }
  unfold reply_turn. case_match; [split; [by eexists|done]|].
  destruct (parse_reply _) as [r|]; [|split; [by eexists|done]].
  destruct (if rp_error r =? 0 then _ else _) as [len|].
  - pose proof (forward_loop_prefix (Z.to_nat len) len (drop 16 (rr_host st)) (rr_kernel st ++ take 16 (rr_host st))) as Hf.
    unfold forward_bytes. destruct (forward_loop _ _ _ _) as [[[]|e] [src dst]]; rewrite Hsplit in Hf; destruct Hf as [Hp Ho].
    + split; [done|]. intros st' [= <-]. by apply Ho.
    + by split.
  - split; [by eexists|]. by intros st' [= <-].
Qed.

(** Without the wiring the proxy is transparent.  However the host's bytes and
    the request proxy's insertions interleave, what the kernel is given is a
    prefix of what the host sent; and while the proxy runs, nothing it read is
    kept back. *)
Theorem plain_replies_pass_unchanged evs st :
  rr_kernel (turn_state (reply_proxy evs st)) `prefix_of` rr_kernel st ++ rr_host st /\
  forall st', reply_proxy evs st = Turn_next st' ->
    rr_kernel st' ++ rr_host st' = rr_kernel st ++ rr_host st.
Proof.
  revert st. induction evs as [|[h len|] evs IH]; intros st; cbn [reply_proxy].
  - split; [by eexists|]. by intros st' [= <-].
  - apply (IH (mkReplies _ _ _)).
  - pose proof (reply_turn_prefix st) as [Hp Hn]. destruct (reply_turn st) as [st1| |]; [|done|done].
    specialize (Hn st1 eq_refl). rewrite <- Hn. apply IH.
Qed.

(** A reply: its header, and a payload. *)
Record HostReply := mkHostReply { hr_error : Z; hr_handle : Z; hr_payload : bytes }.

Definition reply_header (r : HostReply) : bytes :=
  be_encode 4 NBD_SIMPLE_REPLY_MAGIC ++ be_encode 4 (hr_error r) ++ be_encode 8 (hr_handle r).
Definition reply_bytes (r : HostReply) : bytes := reply_header r ++ hr_payload r.

(** A host that keeps the protocol answers a read without an error with a
    payload of the length in flight, and everything else with none. *)
Fixpoint honest (evs : list ProxyEvent) (inflight : gmap Z Z) (replies : list HostReply) : Prop :=
  match evs, replies with
  | [], replies => replies = []
  | Ev_read h len :: evs, replies => 0 <= len < 2 ^ 32 /\ honest evs (<[h := len]> inflight) replies
  | Ev_reply :: evs, r :: replies =>
      0 <= hr_error r < 2 ^ 32 /\ is_u64 (hr_handle r) /\
      Z.of_nat (length (hr_payload r)) =
        (if hr_error r =? 0 then default 0 (inflight !! hr_handle r) else 0) /\
      honest evs (delete (hr_handle r) inflight) replies
  | Ev_reply :: _, [] => False
  end.

Lemma parse_reply_header r :
  0 <= hr_error r < 2 ^ 32 -> is_u64 (hr_handle r) ->
  parse_reply (reply_header r) = Ok (mkReplyHeader (hr_error r) (hr_handle r)).
Proof.
  intros He Hh. unfold parse_reply, reply_header.
  rewrite slice_head by (by rewrite be_encode_length).
  rewrite be_decode_encode_id by (unfold NBD_SIMPLE_REPLY_MAGIC; lia). rewrite Z.eqb_refl. cbn [negb].
  rewrite (slice_mid _ (be_encode 4 (hr_error r))) by (rewrite ?be_encode_length; simpl; lia).
  rewrite app_assoc. rewrite <- (app_nil_r (be_encode 8 (hr_handle r))).
  rewrite (slice_mid _ (be_encode 8 (hr_handle r))) by (rewrite ?length_app, ?be_encode_length; simpl; lia).
  by rewrite !be_decode_encode_id by (unfold is_u64 in *; lia).
Qed.

Lemma reply_turn_honest inflight r rest kernel :
  0 <= hr_error r < 2 ^ 32 -> is_u64 (hr_handle r) ->
  Z.of_nat (length (hr_payload r)) =
    (if hr_error r =? 0 then default 0 (inflight !! hr_handle r) else 0) ->
  reply_turn (mkReplies inflight (reply_bytes r ++ rest) kernel) =
    Turn_next (mkReplies (delete (hr_handle r) inflight) rest (kernel ++ reply_bytes r)).
Proof.
  intros He Hh Hp. unfold reply_turn, reply_bytes in *. cbn [rr_host rr_inflight rr_kernel].
  assert (Hlen : length (reply_header r) = 16%nat) by (unfold reply_header; by rewrite !length_app, !be_encode_length).
  rewrite <- app_assoc. rewrite (proj2 (Z.ltb_ge _ _)) by (rewrite length_app; lia).
  rewrite take_app_length', drop_app_length' by done.
  rewrite parse_reply_header by done. cbn [rp_error rp_handle].
  assert (Hnone : Z.of_nat (length (hr_payload r)) = 0 -> hr_payload r = []) by (destruct (hr_payload r); [done|cbn; lia]).
  destruct (hr_error r =? 0); [|by rewrite Hnone, app_nil_r].
  destruct (inflight !! hr_handle r) as [len|]; cbn in Hp; [|by rewrite Hnone, app_nil_r].
  rewrite forward_bytes_copies by (rewrite length_app; lia).
  by rewrite take_app_length', drop_app_length', <- app_assoc by lia.
Qed.

(** With a host that keeps the protocol the plain proxy delivers every reply,
    whole and in order, however the requests interleave. *)
Theorem honest_replies_are_delivered evs inflight replies rest kernel :
  honest evs inflight replies ->
  exists inflight', reply_proxy evs (mkReplies inflight (concat (reply_bytes <$> replies) ++ rest) kernel) =
    Turn_next (mkReplies inflight' rest (kernel ++ concat (reply_bytes <$> replies))).
Proof.
  revert inflight replies kernel. induction evs as [|[h len|] evs IH]; intros inflight replies kernel; cbn [honest].
  - intros ->. exists inflight. cbn. by rewrite app_nil_r.
  - intros [_ Hh]. cbn. by apply IH.
  - destruct replies as [|r replies]; [done|]. intros (He & Hu & Hp & Hh).
    cbn [fmap list_fmap concat reply_proxy]. rewrite <- app_assoc, reply_turn_honest by done.
    destruct (IH _ _ (kernel ++ reply_bytes r) Hh) as [i' Hi]. exists i'. by rewrite Hi, <- app_assoc.
Qed.

(** ** The armed client *)

Section Armed.
Context (sha256 : bytes -> bytes).
Context {S : Type} `{BootOracle S} (slot : S -> PcrKey -> option (Commitment * Version)).
Context `{!BootOracleLaws S slot} `{Reconnect S} `{Clock S} `{Cbor UpgradePayload} `{HJ : JsonLib}.

Definition emits {A} (P : Act (S := S) -> Prop) (m : io (S := S) A) : Prop := Forall P m.1.

Lemma emits_bind {A B} (P : Act (S := S) -> Prop) (m : io A) (k : A -> io B) :
  emits P m -> (forall a, m.2 = Ok a -> emits P (k a)) -> emits P (io_bind m k).
Proof.
  unfold emits. destruct m as [tr [a|e]]; cbn; intros Hm Hk; [|done].
  specialize (Hk a eq_refl). destruct (k a) as [tr' r]. cbn in *. by apply Forall_app.
Qed.

Lemma emits_one {A} (P : Act (S := S) -> Prop) a (r : result A RunError) : P a -> emits P ([a], r).
Proof. intros Ha. by repeat constructor. Qed.

Lemma emits_none {A} (P : Act (S := S) -> Prop) (r : result A RunError) : emits P (io_ret r).
Proof. constructor. Qed.

(** What the client does after the boot that gave [b]. *)
Definition protected (b : BootResult S) (a : Act (S := S)) : Prop :=
  match a with
  | A_ioctl NBD_SET_FLAGS f =>
      Z.land f NBD_FLAG_SEND_TRIM = 0 /\ Z.land f NBD_FLAG_SEND_WRITE_ZEROES = 0
  | A_spawn t => t = T_gated (started b)
  | A_boot => False
  | _ => True
  end.

Definition no_device (a : Act (S := S)) : Prop :=
  match a with A_ioctl _ _ | A_spawn _ | A_open _ => False | _ => True end.

#[local] Ltac emitted :=
  repeat first [apply emits_none | apply emits_one; cbn [protected]; try done | apply emits_bind; [|intros ? _]].

Lemma configure_protected w cfg export b :
  cfg_synchronizer_enabled cfg = true -> emits (protected b) (configure w cfg export).
Proof.
  intros He. unfold configure, nbd_ioctl. rewrite He. emitted. apply no_payloadless_commands.
Qed.

Lemma await_protected w b : emits (protected b) (await_end w).
Proof. unfold await_end, disconnect, nbd_ioctl_. destruct (w_end w); emitted. Qed.

Lemma protected_tail w cfg export b host :
  cfg_synchronizer_enabled cfg = true ->
  emits (protected b)
    (io_bind (configure w cfg export) (fun _ =>
     io_bind (spawn w (Some b) host) (fun _ =>
     io_bind (nbd_ioctl_ NBD_DO_IT 0) (fun _ =>
     io_bind (await_end w) (fun proxy_error =>
     io_bind cleanup (fun _ =>
     io_ret (match proxy_error with
             | Some e => if cfg_synchronizer_enabled cfg then Err (RE_Proxy e) else Ok tt
             | None => Ok tt
             end))))))).
Proof.
  intros He. apply emits_bind; [by apply configure_protected|]. intros _ _.
  apply emits_bind; [unfold spawn; destruct (w_socket w); emitted|]. intros _ _.
  apply emits_bind; [emitted|]. intros _ _. apply emits_bind; [apply await_protected|]. intros pe _.
  apply emits_bind; [unfold cleanup, nbd_ioctl_; emitted|]. intros _ _. apply emits_none.
Qed.

(** An armed run touches no device, or it booted first. *)
Lemma run_armed w cfg cid tr r :
  cfg_synchronizer_enabled cfg = true -> run sha256 w cfg cid = (tr, r) ->
  Forall no_device tr \/
  exists host b host' tr', boot sha256 (w_session w) host (cfg_luks_data_offset cfg) (w_upgrade_link w) = (Ok b, host') /\
    tr = [A_connect cid (cfg_vsock_port cfg); A_negotiate; A_boot] ++ tr' /\ Forall (protected b) tr'.
Proof.
  intros He. unfold run, connect, negotiate_in_time, sync_boot. rewrite He.
  destruct (w_connect w) as [[host|]|]; [|intros [= <- _]; left; by repeat constructor..].
  destruct (w_negotiated_in_time w); [|intros [= <- _]; left; by repeat constructor].
  cbn [io_bind]. destruct (negotiate host) as [[export|] host1]; [|intros [= <- _]; left; by repeat constructor].
  destruct (w_booted_in_time w); [|intros [= <- _]; left; by repeat constructor].
  destruct (boot sha256 _ host1 _ _) as [[b|] host2] eqn:Eb; [|intros [= <- _]; left; by repeat constructor].
  cbn [io_bind]. destruct (io_bind (configure w cfg export) _) as [tr' r'] eqn:Et.
  intros [= <- _]. right. exists host1, b, host2, tr'. split; [done|]. split; [done|].
  pose proof (protected_tail w cfg export b host2 He) as Ht. unfold emits in Ht. rewrite He in Ht.
  by replace tr' with (tr', r').1; [rewrite <- Et|].
Qed.

(** C11: An armed client never serves an unprotected volume.  When the measured
    environment turns the wiring on and the kernel is given the device, the boot
    came first and found a region whose digest the oracle held for this
    enclave's key; the kernel was not offered a command that changes the device
    without a payload; and the tasks started are the gated ones of that boot, so
    that in every state they reach an acknowledged superblock write has its pin
    and a delivered superblock is not older than the acknowledged ones. *)
Theorem armed_client_is_protected w var cid tr code cfg fd
    (Hmain : main sha256 w var cid = (tr, code)) (Hcfg : from_env var = Some cfg)
    (Hon : parse_synchronizer_flag (var "SYNCHRONIZER_ENABLED"%string) = Ok true)
    (Hfit : region_fits (cfg_luks_data_offset cfg))
    (Hserved : A_ioctl NBD_SET_SOCK fd ∈ tr) :
  exists b region pre post, tr = pre ++ A_boot :: post /\ Forall no_device pre /\
    br_commitment b = sha256 region /\
    slot (br_session b) (br_key b) = Some (mkCommitment (sha256 region), br_version b) /\
    Forall (protected b) post /\
    forall s, Pump.reachable sha256 (cfg_luks_data_offset cfg) b s -> bounded s ->
      (forall i, i ∈ k_acked (s_kernel s) -> exists c o v, k_writes (s_kernel s) !! i = Some c /\
         s_pins s !! i = Some (c, o) /\ slot o (br_key b) = Some (mkCommitment c, v)) /\
      (forall acked got, (acked, got) ∈ k_read (s_kernel s) ->
         exists j, (br_commitment b :: k_writes (s_kernel s)) !! j = Some (sha256 got) /\
           forall i, i ∈ acked -> (i < j)%nat).
Proof.
  assert (He : cfg_synchronizer_enabled cfg = true).
  { revert Hcfg. unfold from_env, synchronizer_enabled. rewrite Hon. cbn.
    intros (? & _ & (? & _ & (? & _ & [= <-])%bind_Some)%bind_Some)%bind_Some. done. }
  unfold main in Hmain. rewrite Hcfg in Hmain. destruct (run sha256 w cfg cid) as [tr' r] eqn:Er.
  assert (tr' = tr) as -> by (by destruct r; injection Hmain).
  destruct (run_armed _ _ _ _ _ He Er) as [Hno|(host & b & host' & tr1 & Hb & -> & Hp)].
  { exfalso. by eapply (Forall_forall no_device) in Hno; [|exact Hserved]. }
  destruct (boot_Ok _ slot _ _ _ _ _ _ Hb) as (_ & _ & region & _ & _ & _ & _ & _ & Hc & Hs).
  exists b, region, [A_connect cid (cfg_vsock_port cfg); A_negotiate], tr1.
  split; [done|]. split; [by repeat constructor|]. do 3 (split; [done|]).
  intros s Hr Hbd. destruct (reachable_inv _ _ Hfit slot _ _ Hr Hbd) as (f & aw & Hi). split.
  - intros i Hi'. by eapply inv_acked.
  - intros acked got Hg. by eapply inv_read.
Qed.

Lemma run_bind_Ok {A B} (m : io (S := S) A) (k : A -> io B) tr b :
  io_bind m k = (tr, Ok b) ->
  exists tr1 a tr2, m = (tr1, Ok a) /\ k a = (tr2, Ok b) /\ tr = tr1 ++ tr2.
Proof.
  destruct m as [tr1 [a|e]]; cbn; [|done]. destruct (k a) as [tr2 r] eqn:Ek. intros [= <- ->].
  by exists tr1, a, tr2.
Qed.

Lemma try_join_Ok joined : try_join joined = Ok tt <-> Forall (eq (Ok (Ok tt))) joined.
Proof.
  induction joined as [|[[[]|]|] joined IH]; cbn; [by split| |split; [done|by inversion 1]..].
  rewrite IH. split; [by constructor|by inversion 1].
Qed.

(** A failure of an armed client is never a clean exit.  Status 0 means that the
    volume was verified and served by the gated tasks, that the device was cleared
    and closed last, and that no task had failed when the tasks' end is what ended
    the wait; every failure on the way there, boot included, is status 1, and a
    flag that is not understood stops the program before it does anything. *)
Theorem armed_exit_is_fail_stop w var cid tr code
    (Hmain : main sha256 w var cid = (tr, code)) :
  match parse_synchronizer_flag (var "SYNCHRONIZER_ENABLED"%string) with
  | Err _ => tr = [] /\ code = 101
  | Ok false => True
  | Ok true =>
      code = 0 ->
      exists b tr', tr = tr' ++ [A_ioctl NBD_CLEAR_QUE 0; A_ioctl NBD_CLEAR_SOCK 0; A_close] /\
        A_spawn (T_gated (started b)) ∈ tr' /\
        match w_end w with End_tasks joined => Forall (eq (Ok (Ok tt))) joined | _ => True end
  end.
Proof.
  unfold main in Hmain. destruct (from_env var) as [cfg|] eqn:Ec.
  2: { injection Hmain as <- <-. by destruct (parse_synchronizer_flag _) as [[]|]. }
  assert (He : Ok (cfg_synchronizer_enabled cfg) = parse_synchronizer_flag (var "SYNCHRONIZER_ENABLED"%string)).
  { revert Ec. unfold from_env, synchronizer_enabled.
    intros (? & _ & (? & _ & (? & _ & (en & Hf & [= <-])%bind_Some)%bind_Some)%bind_Some)%bind_Some. cbn.
    by destruct (parse_synchronizer_flag _); cbn in Hf; [injection Hf as ->|]. }
  rewrite <- He. destruct (cfg_synchronizer_enabled cfg) eqn:Een; [|done]. intros ->.
  destruct (run sha256 w cfg cid) as [tr' [[]|]] eqn:Er; [injection Hmain as <-|done].
  unfold run in Er.
  apply run_bind_Ok in Er as (tr1 & host & tr1' & _ & Er & ->).
  apply run_bind_Ok in Er as (tr2 & [export host1] & tr2' & _ & Er & ->).
  apply run_bind_Ok in Er as (tr3 & [booted host2] & tr3' & Hb & Er & ->).
  apply run_bind_Ok in Er as (tr4 & [] & tr4' & _ & Er & ->).
  apply run_bind_Ok in Er as (tr5 & [] & tr5' & Hs & Er & ->).
  apply run_bind_Ok in Er as (tr6 & [] & tr6' & _ & Er & ->).
  apply run_bind_Ok in Er as (tr7 & pe & tr7' & Hw & Er & ->).
  apply run_bind_Ok in Er as (tr8 & [] & tr8' & [= <-] & [= <- Hpe] & ->).
  unfold sync_boot in Hb. rewrite Een in Hb. injection Hb as <- Hb.
  destruct (w_booted_in_time w); [|done]. destruct (boot _ _ _ _ _) as [[b|] h]; [injection Hb as <- <-|done].
  unfold spawn in Hs. destruct (w_socket w); [injection Hs as <-|done].
  exists b, (tr1 ++ tr2 ++ [A_boot] ++ tr4 ++ [A_spawn (T_gated (started b))] ++ tr6 ++ tr7).
  split; [by rewrite app_nil_r, <- !app_assoc|]. split.
  { do 4 (apply elem_of_app; right). apply elem_of_app. left. constructor. }
  unfold await_end in Hw. destruct (w_end w) as [| joined |]; [done| |done]. apply try_join_Ok.
  apply run_bind_Ok in Hw as (? & [] & ? & _ & [= _ <-] & _). rewrite Een in Hpe.
  by destruct (try_join joined) as [[]|].
Qed.
End Armed.

Module RunDemo.
Import ChainProofs.Demo.

(** The host's greeting, then the new volume of [ClientDemo]. *)
Definition greeting : bytes :=
  be_encode 8 NBD_MAGIC ++ be_encode 8 IHAVEOPT ++ be_encode 2 NBD_FLAG_NO_ZEROES ++
  be_encode 8 (2 ^ 30) ++ be_encode 2 NBD_FLAG_SEND_TRIM.

Definition session : result (ClientProofs.World * PcrKey * ImageRole) FatalError :=
  Ok (ClientDemo.demo_world (replicate 5 (ClientDemo.answered_in 1)) sm_new, demo_key1, Genesis).

Definition world (ending : Ending) : World (S := ClientProofs.World) :=
  mkWorld (Some (Some (mkStream (greeting ++ st_in ClientDemo.new_volume) []))) true true session None
    (Some 7) true (fun _ => true) true ending.

Definition armed (name : string) : option string :=
  if String.eqb name "SYNCHRONIZER_ENABLED" then Some "1"%string else None.

Definition ran (ending : Ending) : list (Act (S := ClientProofs.World)) * Z :=
  main (HJ := demo_json) toy_sha256 (world ending) armed 3.

Definition cfg : Config := mkConfig "/dev/nbd0" 4096 16777216 5001 true.

Definition plain : Replies :=
  mkReplies ∅ (concat (reply_bytes <$> [mkHostReply 0 5 []; mkHostReply 0 6 [1; 2]])) [].
End RunDemo.

(** The host offers TRIM; the kernel is not told. *)
Lemma armed_client_is_protected_witness :
  (RunDemo.ran End_signal).1 !! 7%nat = Some (A_ioctl NBD_SET_FLAGS 0) /\
  exists b region pre post, (RunDemo.ran End_signal).1 = pre ++ A_boot :: post /\ Forall no_device pre /\
    br_commitment b = toy_sha256 region /\
    held (br_session b) (br_key b) = Some (mkCommitment (toy_sha256 region), br_version b) /\
    Forall (protected b) post /\
    forall s, Pump.reachable toy_sha256 16777216 b s -> bounded s ->
      (forall i, i ∈ k_acked (s_kernel s) -> exists c o v, k_writes (s_kernel s) !! i = Some c /\
         s_pins s !! i = Some (c, o) /\ held o (br_key b) = Some (mkCommitment c, v)) /\
      (forall acked got, (acked, got) ∈ k_read (s_kernel s) ->
         exists j, (br_commitment b :: k_writes (s_kernel s)) !! j = Some (toy_sha256 got) /\
           forall i, i ∈ acked -> (i < j)%nat).
Proof.
  split; [vm_compute; reflexivity|].
  apply (armed_client_is_protected (HJ := demo_json) toy_sha256 held (RunDemo.world End_signal) RunDemo.armed 3
           (RunDemo.ran End_signal).1 (RunDemo.ran End_signal).2 RunDemo.cfg 7).
  - unfold RunDemo.ran. by destruct (main _ _ _ _).
  - vm_compute. reflexivity.
  - reflexivity.
  - exact PumpDemo.demo_fits.
  - apply (list_elem_of_lookup_2 _ 8). vm_compute. reflexivity.
Defined.

(** A stopped client exits cleanly; one whose pump found a rollback does not. *)
Lemma armed_exit_is_fail_stop_witness :
  (RunDemo.ran (End_tasks [Ok (Err PU_Rollback)])).2 = 1 /\
  exists b tr', (RunDemo.ran End_signal).1 =
      tr' ++ [A_ioctl NBD_CLEAR_QUE 0; A_ioctl NBD_CLEAR_SOCK 0; A_close] /\
    A_spawn (T_gated (started b)) ∈ tr' /\ True.
Proof.
  split; [vm_compute; reflexivity|].
  apply (armed_exit_is_fail_stop (HJ := demo_json) toy_sha256 (RunDemo.world End_signal) RunDemo.armed 3
           (RunDemo.ran End_signal).1 (RunDemo.ran End_signal).2).
  - unfold RunDemo.ran. by destruct (main _ _ _ _).
  - vm_compute. reflexivity.
Defined.

Lemma honest_replies_are_delivered_witness :
  exists inflight', reply_proxy [Ev_reply; Ev_read 6 2; Ev_reply] RunDemo.plain =
    Turn_next (mkReplies inflight' []
      (concat (reply_bytes <$> [mkHostReply 0 5 []; mkHostReply 0 6 [1; 2]]))).
Proof.
  unfold RunDemo.plain.
  destruct (honest_replies_are_delivered [Ev_reply; Ev_read 6 2; Ev_reply] ∅
    [mkHostReply 0 5 []; mkHostReply 0 6 [1; 2]] [] []) as [i Hi].
  - split_and!; done.
  - exists i. rewrite app_nil_r in Hi. exact Hi.
Defined.
