(* ===== verification/NodeMain.v ===== *)
(** The synchronizer binary ([main], [start_replicated_from_env] and
    [start_mesh_from_env] of [synchronizer/src/main.rs]) and the handle it
    builds ([RaftHandle::new], [with_config] of [raft/mod.rs]).

    The build's features are a record; what the host supplies and how bindings
    and openraft answer is the environment.  The result is what serves the
    customers' connections, or the exit. *)
From stdpp Require Import base gmap sets list sorting strings.
From S2P Require Import Prelude Text StateMachine Store Membership Identity Signing Attestation LocalAttestation.
From S2P Require Import Chain Wire Service Transport Framing Mesh MeshProofs RaftNet Join.
#[local] Open Scope Z_scope.

(** ** The build *)

(** [debug] listens on a Unix socket, [enclave] on vsock, under QEMU with
    [qemu]. *)
Inductive TransportFeature : Type :=
| Feature_debug
| Feature_enclave (qemu : bool).

Record Build := mkBuild { bd_raft : bool; bd_mesh : bool; bd_transport : TransportFeature }.

Definition DEBUG_MODE (b : Build) : bool :=
  match bd_transport b with
  | Feature_debug | Feature_enclave true => true
  | Feature_enclave false => false
  end.

Definition SYNCHRONIZER_CLIENT_PORT : Z := 5010.

(** ** The handle *)

(** What [RaftHandle] holds besides openraft's instance: the node's record, its
    slots and its id, and the stores it gave openraft. *)
Record RaftHandle (LogId Vote Membership : Type) := mkRaftHandle {
  hd_self_record : MemberRecord;
  hd_configured_names : list string;
  hd_self_id : Z;
  hd_log : LogStoreInner (LogId := LogId) (Vote := Vote) (Membership := Membership);
  hd_sm : StateMachineStore (LogId := LogId) (Membership := Membership);
}.
Arguments mkRaftHandle {_ _ _} _ _ _ _ _.
Arguments hd_self_record {_ _ _} _.
Arguments hd_configured_names {_ _ _} _.
Arguments hd_self_id {_ _ _} _.
Arguments hd_log {_ _ _} _.
Arguments hd_sm {_ _ _} _.

(** The settings [default_config] changes. *)
Record RaftConfig := mkRaftConfig {
  rc_heartbeat_interval : Z;
  rc_election_timeout_min : Z;
  rc_election_timeout_max : Z;
  rc_logs_since_last : Z;
  rc_max_in_snapshot_log_to_keep : Z;
  rc_snapshot_max_chunk_size : Z;
  rc_max_payload_entries : Z;
}.

Definition default_config : RaftConfig := mkRaftConfig 150 300 600 50000 1000 (16 * 1024) 64.

Section Start.
Context `{P256} `{NitroLib} `{OpenRaft} (sha256 : bytes -> bytes) (name_of : str -> string).
(** openraft's log ids and votes, a fresh instance of it, and its check of a
    configuration. *)
Context {LogId Vote RaftMembership : Type} (fresh : RaftState) (validate : RaftConfig -> bool).
Abbreviation Handle := (RaftHandle LogId Vote RaftMembership).

(** [RaftRequestHandler::deferred], on a node with no membership. *)
Definition deferred (names : list string) : RaftRequestHandler :=
  mkHandler false None names (mkRaftNode fresh (mkMembership ∅ ∅) sm_new).

(** [created]: openraft built its instance. *)
Definition with_config (self_name : string) (self_pubkey : bytes) (peers : list string)
    (handler : RaftRequestHandler) (config : RaftConfig) (created : bool)
    : option (Handle * RaftRequestHandler) :=
  let self_record := mkMemberRecord self_name self_pubkey in
  let self_id := instance_node_id sha256 self_pubkey in
  let names := configured_names self_name peers in
  if negb (validate config) then None
  else if negb created then None
  else Some (mkRaftHandle self_record names self_id log_store_default store_default, (set_raft handler).2).

Definition raft_handle_new (self_name : string) (self_pubkey : bytes) (peers : list string)
    (handler : RaftRequestHandler) (created : bool) : option (Handle * RaftRequestHandler) :=
  with_config self_name self_pubkey peers handler default_config created.

Definition enable_serving (handler : RaftRequestHandler) (debug_mode : bool) : RaftRequestHandler :=
  (set_serve handler debug_mode).2.

(** ** Start-up *)

Record StartEnv := mkStartEnv {
  sv_self_name : option str;
  sv_peers : option str;
  sv_nsm : NsmDevice;
  sv_bootstrap_bound : bool;
  sv_identity : bytes;   (* the mesh key generated at this boot *)
  sv_raft_created : bool;
  sv_vsock_port : option str;
  sv_listener_bound : bool;
}.

(** What a started cluster node is: its mesh configuration, its handle, and the
    handler its peers reach. *)
Record Replicated := mkReplicated {
  rp_env : MeshEnv;
  rp_handle : Handle;
  rp_handler : RaftRequestHandler;
}.

Definition start_replicated_from_env (debug_mode : bool) (env : StartEnv) : option Replicated :=
  mesh_env ← read_mesh_env sha256 name_of (sv_self_name env) (sv_peers env) (sv_nsm env) (sv_bootstrap_bound env);
  let self_name := me_self_name mesh_env in
  let peers := mc_peers (me_config mesh_env) in
  let handler := deferred (configured_names self_name peers) in
  '(handle, handler) ← raft_handle_new self_name (sv_identity env) peers handler (sv_raft_created env);
  Some (mkReplicated mesh_env handle (enable_serving handler debug_mode)).

(** The mesh with the echo handler; nothing drives it. *)
Definition start_mesh_from_env (env : StartEnv) : option MeshEnv :=
  read_mesh_env sha256 name_of (sv_self_name env) (sv_peers env) (sv_nsm env) (sv_bootstrap_bound env).

Inductive Dispatch : Type :=
| D_Replicated (r : Replicated)
| D_Node (debug_mode : bool) (sm : StateMachine) (mesh : option MeshEnv).

Inductive Attestor : Type := Nsm_attestor | Fake_attestor (seed : Z).

Inductive ListenOn : Type := Uds_listener | Vsock_listener (port : Z).

(** What accepts the customers' connections. *)
Record Serving := mkServing {
  sg_dispatch : Dispatch;
  sg_attestor : Attestor;
  sg_listener : ListenOn;
  sg_debug_mode : bool;
}.

Definition dispatch_of (b : Build) (env : StartEnv) : option Dispatch :=
  if bd_raft b then D_Replicated <$> start_replicated_from_env (DEBUG_MODE b) env
  else Some (D_Node (DEBUG_MODE b) sm_new (if bd_mesh b then start_mesh_from_env env else None)).

Definition attestor_of (b : Build) : Attestor :=
  match bd_transport b with Feature_enclave _ => Nsm_attestor | Feature_debug => Fake_attestor 0xa5 end.

(** [u32::from_str]; anything else is the default. *)
Definition vsock_port (raw : option str) : Z :=
  default SYNCHRONIZER_CLIENT_PORT (raw ≫= fun s => result_ok (parse_uint u32_max s)).

Definition listener_of (b : Build) (env : StartEnv) : ListenOn :=
  match bd_transport b with
  | Feature_debug => Uds_listener
  | Feature_enclave _ => Vsock_listener (vsock_port (sv_vsock_port env))
  end.

(** [main]; the error is the exit status. *)
Definition main (b : Build) (env : StartEnv) : result Serving Z :=
  let? dispatch := ok_or (dispatch_of b env) 1 in
  if negb (sv_listener_bound env) then Err 1
  else Ok (mkServing dispatch (attestor_of b) (listener_of b env) (DEBUG_MODE b)).

(** ** A cluster node never serves alone *)

(** A replicated build never serves unreplicated.  Whatever the host puts in the
    environment, a node built with [raft] that accepts customers does so through
    the cluster: its configuration lists at least two distinct peers, none of them
    itself, and admits only peers of its own measured identity; it starts from an
    empty state and its own key, so its state can only come from the cluster; its
    handler answers peers, with the mode of the build; and no pass of its
    discovery asks for a cluster of fewer than three members.  A build for real
    hardware verifies certificate chains and attests with the device. *)
Theorem raft_build_never_serves_alone b env s (Hb : bd_raft b = true) (Hs : main b env = Ok s) :
  (exists r, sg_dispatch s = D_Replicated r /\
     (exists doc, request_local (sv_nsm env) None None = Ok doc /\
        mc_allowlist (me_config (rp_env r)) = self_only (mkPcrKey (pin_key sha256 (va_identity doc)))) /\
     (MIN_MESH_PEERS <= length (mc_peers (me_config (rp_env r))))%nat /\
     NoDup (mc_peers (me_config (rp_env r))) /\ (me_self_name (rp_env r) ∉ mc_peers (me_config (rp_env r))) /\
     hd_self_record (rp_handle r) = mkMemberRecord (me_self_name (rp_env r)) (sv_identity env) /\
     hd_self_id (rp_handle r) = instance_node_id sha256 (sv_identity env) /\
     st_sm (hd_sm (rp_handle r)) = sm_new /\
     rh_raft (rp_handler r) = true /\ rh_serve (rp_handler r) = Some (sg_debug_mode s) /\
     forall pass members,
       (discover_pass sha256 (hd_self_record (rp_handle r)) (hd_configured_names (rp_handle r)) pass).2 = Some members ->
       (MIN_CLUSTER_NODES <= size members)%nat) /\
  (bd_transport b = Feature_enclave false -> sg_debug_mode s = false /\ sg_attestor s = Nsm_attestor).
Proof.
  unfold main, dispatch_of in Hs. rewrite Hb in Hs.
  destruct (start_replicated_from_env (DEBUG_MODE b) env) as [r|] eqn:Er; [|done]. cbn in Hs.
  destruct (sv_listener_bound env); [|done]. injection Hs as <-. cbn. split.
  2: { unfold DEBUG_MODE, attestor_of. by intros ->. }
  exists r. split; [done|]. unfold start_replicated_from_env, raft_handle_new, with_config in Er.
  destruct (read_mesh_env _ _ _ _ _ _) as [menv|] eqn:Em; [|done]. cbn in Er.
  destruct (validate default_config); [|done]. destruct (sv_raft_created env); [|done]. injection Er as <-. cbn.
  destruct (mesh_env_is_sound _ _ _ _ _ _ _ Em) as (Hdoc & Hnd & Hself & Hlen & _ & _).
  do 9 (split; [done|]). intros pass members Hp.
  change (me_self_name menv) with (mr_name (mkMemberRecord (me_self_name menv) (sv_identity env))) in Hp at 2.
  apply pass_asks in Hp. by apply cf_size in Hp.
Qed.
End Start.

Module NodeDemo.
#[export] Instance raft : OpenRaft := {|
  RaftState := unit;
  AppendEntriesRequest := unit; AppendEntriesResponse := unit; VoteRequest := unit; VoteResponse := unit;
  InstallSnapshotRequest := unit; InstallSnapshotResponse := unit;
  raft_append_entries n _ := (Ok tt, n); raft_vote n _ := (Ok tt, n); raft_install_snapshot n _ := (Ok tt, n);
  raft_add_learner n _ _ := None; raft_joint n _ := None; raft_uniform n _ := None;
|}.

Definition build : Build := mkBuild true true (Feature_enclave false).
Definition env (peers : str) : StartEnv :=
  mkStartEnv (Some (lit "a")) (Some peers) JoinDemo.nsm true [1] true None true.
Definition started (peers : str) : result (Serving (LogId := Z) (Vote := Z) (RaftMembership := Z)) Z :=
  main (H0 := toy_NitroLib) toy_sha256 JoinDemo.text tt (fun _ => true) build (env peers).
End NodeDemo.
#[local] Existing Instance NodeDemo.raft.

(** A list the host padded is an exit; a proper one serves on the default port. *)
Lemma raft_build_never_serves_alone_witness :
  NodeDemo.started (lit "a,a,b") = Err 1 /\
  exists s, NodeDemo.started (lit "b,c") = Ok s /\ sg_listener s = Vsock_listener 5010 /\ sg_debug_mode s = false.
Proof.
  split; [vm_compute; reflexivity|].
  destruct (NodeDemo.started (lit "b,c")) as [s|] eqn:E; [|vm_compute in E; discriminate].
  exists s. split; [done|]. split.
  - vm_compute in E. by injection E as <-.
  - exact (proj1 (proj2 (raft_build_never_serves_alone (H0 := toy_NitroLib) toy_sha256 JoinDemo.text tt (fun _ => true)
      NodeDemo.build (NodeDemo.env (lit "b,c")) s eq_refl E) eq_refl)).
Defined.
